(* ===== verification/_CoqProject ===== *)
-Q . S2P
Prelude.v
CommonH.v
CLib.v
KernelModule.v
KmRing.v
KmFifo.v
KmLifecycle.v
KmProps.v
Parsing.v
BpfMap.v
XdpMeasure.v
EbpfUser.v
Rewrite.v
EbpfProps.v
NetProps.v
UserProc.v
UserProps.v
ClientServer.v
Params.v
ParamsProps.v
XdpLink.v
KmConc.v
LibbpfObj.v
LibbpfLoad.v
LibbpfRes.v
BpfLoad.v
BpfLoadProps.v
DemoSys.v
LoaderProps.v
EbpfMain.v
HashMap.v
HashMapProps.v
LibbpfProps.v
Nlattr.v
NlattrProps.v
Netlink.v
NetlinkSpec.v
RtNetlink.v
NetlinkProps.v
XskRing.v
XskRingProps.v
XskProg.v
Xsk.v
XskRes.v
XskProps.v
LineInfo.v
LineInfoProps.v
Btf.v
BtfSpec.v
BtfProps.v
BtfLookups.v
BtfExt.v
BtfExtProps.v
CoRe.v
CoReProps.v
CoReCands.v
CoReTotal.v
Elf.v
ErrMonad.v
OpenObj.v
OpenProgs.v
OpenBtf.v
OpenMaps.v
OpenReloc.v
KernelBtf.v
Open.v
OpenInv.v
OpenTop.v
OpenPlain.v
OpenRuns.v
OpenPlainProps.v
OpenPlainTop.v
OpenProps.v
PerfRing.v
Perf.v
ProgInfo.v
