(* ===== verification/Prelude.v ===== *)
(** * Verification of the packet-timestamping experiment

    The repository measures how long a UDP packet takes to reach a program
    by three ways: a kernel module that hands packets out through a proc
    file, an XDP (eBPF) program that leaves them in BPF maps, and a plain
    socket. This library models the three receivers, the sender, and the
    libraries the eBPF half is built on, and proves what they guarantee;
    where the code does not do what it means to, the theorem says so.

    ** How to read it

    C code becomes functions over explicit state. A function that can touch
    memory it does not own returns [res]: [Ok] of its result, or [Err] of
    the fault ([OutOfBounds], [NullDeref], [UseAfterFree], [DivByZero]).
    So "[f x = Ok y]" says that the code runs safely and what it computes,
    and there are theorems whose conclusion is a fault. Errors the code
    itself reports (negative returns, error pointers, exit codes) are
    values. Machine integers are [Z] with the wrap-around written out
    ([u32], [s32], ...). Memory blocks are lists of bytes with checked
    reads and writes ([mread], [mwrite]); the array accessors fault
    outside ([aget], [aset]). This file holds these notions and the lemmas
    and tactics on them.

    ** The parts and their files

    The experiment with the kernel module, [src/mymodule/]:
    - [CommonH]: [common.h], constants, [struct Payload] in memory, the
      table of time stamps and its export; [CLib]: the C library's strings
      and formatted output.
    - [KernelModule]: [kernel_module/intercept-module.c], the packet cache,
      the receive handler and [read]; [KmLifecycle]: its start, stop and
      the other file operations. [KmRing] and [KmFifo] hold the invariant
      and the simulation by a bounded FIFO queue over whole runs,
      [KmConc] the reader cut into steps with the handler between any two.
      Theorems: [KmProps], [KmConc].
    - [UserProc]: [kernel_module/user-processing.c]; theorems in
      [UserProps], the composition with the module among them.
    - [ClientServer]: [helper/client.c] and [helper/server.c], with theorems.

    The experiment with XDP, [src/eBPF_app/]:
    - [Parsing], [Rewrite]: [common/parsing_helpers.h] and
      [common/rewrite_helpers.h]; theorems in [NetProps].
    - [XdpMeasure]: [eBPF_measure/ebpf_measure_kern.c], with the action
      statistics; [EbpfUser], [EbpfMain]: [eBPF_measure/ebpf_measure_user.c],
      its polling loop and its [main]; theorems in [EbpfProps] and
      [EbpfMain].
    - [Params]: [common/common_params.c]; theorems in [ParamsProps].
    - [XdpLink]: attaching, detaching and checks of
      [common/common_user_bpf_xdp.c], with theorems.
    - [BpfLoad]: the loaders of the same file, of [common/common_libbpf.c],
      and [bpf_prog_load_xattr]; theorems in [BpfLoadProps], [LoaderProps].

    The part of libbpf this stands on, [src/eBPF_app/libbpf/src/]:
    - [LibbpfObj]: the opened object, its iterators, look-ups and section
      names; [LibbpfLoad]: creating, reusing and pinning maps, relocating
      and loading programs, unloading; [LibbpfRes]: which descriptors an
      object owns; theorems in [LibbpfProps] and [LoaderProps].
    - [HashMap]: [hashmap.c], [hashmap.h]; [HashMapProps]: it implements a
      bag of entries.
    - [Nlattr], [Netlink]: [nlattr.c] and [netlink.c]; [NlattrProps],
      [NetlinkSpec] and [NetlinkProps] read the byte-level code as code on
      message values.
    - [XskRing], [XskProg], [Xsk]: [xsk.h] and [xsk.c], the rings, the XDP
      program as instructions, packet memory and sockets. [XskRingProps]:
      the rings are bounded queues; [XskRes] says who owns which
      descriptors and mappings, [XskProps] has the theorems.
    - [LineInfo]: [bpf_prog_linfo.c]; theorems in [LineInfoProps].
    - [Btf]: the parser, look-ups and kernel calls of [btf.c]; [BtfExt]: the
      records of [.BTF.ext]. [BtfSpec] has types as values and their
      encoding; theorems in [BtfProps] (parsing), [BtfLookups] (sizes,
      names, map types, the kernel's BTF) and [BtfExtProps].
    - [CoRe]: CO-RE relocation of [libbpf.c]. [CoReProps]: a match is a path
      to the same fields; [CoReTotal]: on well-formed types matching ends
      and misses nothing; [CoReCands]: the candidates, their block, and the
      instruction that is patched.
    - Opening an object file: [Elf] is what libelf hands out, [ErrMonad] the
      monad of code that stops at its first error, with a weakest
      precondition; [OpenObj] the object while its file is open and reading
      the file's head, [OpenProgs] its sections and programs, [OpenMaps] its
      maps (legacy, of global data, and defined by BTF), [OpenBtf] the
      fix-ups of its BTF and what is taken out of it for older kernels,
      [OpenReloc] its relocations and the probes of the kernel's
      capabilities, [KernelBtf] the kernel's own BTF, [Open]
      [__bpf_object__open] and the functions of the API. [OpenInv]
      and [OpenTop] hold an invariant through all of it, faults and
      failures anywhere. [OpenPlain] says what a file means and
      which files are plain (maps in the section "maps", no global data);
      [OpenRuns], [OpenPlainProps] and [OpenPlainTop] show that opening
      gives that. [OpenProps] has the theorems, a libelf for 64-bit files
      and an object file of the experiment.
    - [PerfRing]: reading the events of a perf ring and polling a perf
      buffer; [Perf]: attaching to perf events, probes and tracepoints,
      perf buffers, counting CPUs; [ProgInfo]: the linear form of a
      program's information, all of [libbpf.c], with their theorems.
    ** Interfaces

    Code outside the repository is an argument, and what is relied on is a
    class of laws that state its documented behaviour:
    - [ArrayMap] / [ArrayMapLaws] ([BpfMap]): BPF array maps; [list_map]
      is an instance.
    - [XdpAdjust] ([Rewrite]): [bpf_xdp_adjust_head].
    - [BpfSys] / [BpfSysLaws] ([LibbpfLoad]): the [bpf] system call and
      the descriptors it opens; [DemoSys] is an instance.
    - [XdpDevice] / [XdpDeviceLaws] ([XdpLink]): what attaching needs of a
      device. It has two implementations: [DemoSys], and libbpf's netlink
      code itself over [RtNetlink] / [RtNetlinkLaws] (the kernel's
      rtnetlink), which is [NetlinkProps.netlink_device_laws]; [RtNetlink]
      also has an rtnetlink that decodes the requests from their bytes.
    - [XskSys] / [XskSysLaws] ([Xsk], [XskRes]): sockets, mappings and the
      look-up of programs and maps; [XskProps] has an instance.
      [XskHelpers] ([XskProg]): the helper functions of a BPF program.
    - [HashKey] / [HashKeyLaws] ([HashMap]): the hash and equality function
      of a hash map; the two of BTF deduplication are instances.
    - [Libelf] ([Elf]): libelf's view of a file; [libelf64] ([OpenProps]) is an
      instance. [ElfSys] / [ElfSysLaws]: opening files and asking the system
      for memory, the kernel's release and files. [Qsort]: a sort that
      gives a sorted permutation; insertion sort is an instance.
    - [PerfSys] / [PerfSysLaws] ([Perf]): perf events, epoll and the files
      under /sys; [ProgInfoSys] / [ProgInfoLaws] ([ProgInfo]): asking for a
      program's information. Both have instances.
    Functions such as [getopt_long], the clock, the sockets and the
    allocators are arguments of the definitions that call them, usually as
    the sequence of their answers. The loaders of [BpfLoad] take
    [bpf_object__open_xattr] as an argument and are proved for any that
    gives a fresh object; [OpenProps.load_attach_file] puts in the real one.

    ** What the theorems show

    - Refinement: the module's cache is a bounded FIFO queue over all runs;
      the hash map is a bag of entries over all runs, with allocation
      failing anywhere; the netlink code is a device with the laws of
      [XdpDevice]. An AF_XDP ring is a bounded queue over
      any interleaving of its two sides, its counters wrapping at 32 bits.
      The instructions of the XDP program of AF_XDP are its C program.
      So is a perf ring, whose records have any length and whose counters
      wrap at 64 bits.
    - Safety and bounds: no parser leaves its packet, the XDP program
      never faults and always passes packets on; the module is safe for
      fitting packets, and with the payload the experiment ships it
      overflows its cache exactly at the 194th packet; attribute parsing
      reads at most five bytes beyond its attributes.
    - Opening: whatever the bytes of an object file, opening it leaves only
      the object's own descriptors, or that of a file libelf refused; a
      plain file opens, without a fault, to the object its sections, symbols
      and relocations describe. If the file has BTF, [btf_fine] asks that
      the parser's answer on it be followed by the fix-ups without a fault;
      a file without BTF needs nothing.
    - Ownership: loading an object is all or nothing in descriptors;
      reusing pinned maps leaks them; the pinning loader reads freed memory;
      AF_XDP sockets give back what they took, with two exceptions; links and
      perf buffers give back everything.
    - CO-RE: a match is a real path to the named fields, none is missed, and
      the patched instruction gets the value all candidates agree on.
    - End to end: an object file on disk to the attached program, a packet from the module's handler to the user program's
      log, a packet from the XDP program to the log of the polling program,
      [main] from its options to its files, client and server over a
      lossless network.
    - Ordering: an interrupted [read] neither loses nor duplicates packets
      but can hand them out in another order.
    - Round trips: VLAN frames, VLAN push and pop, encoded attributes,
      encoded BTF.
    - BTF: sizes of types are what C means; on which bytes the parsers stay
      inside their data, and what they accept is well-formed.
    Each theorem with hypotheses has a witness that applies it to a
    concrete run of the code.

    ** Fuel and bounds

    Loops whose recursion is not structural take fuel, and their theorems
    are about the fuel named here: [rx_fuel] (the number of tries of the
    handler), [read_fuel] (the slots of the ring), [client_fuel]
    ([MAX_LOG_ENTRY] + 2 rounds), [LOAD_FUEL] (the verifier's log buffer
    doubles at most nine times before its 32-bit bound), the length of the
    data plus one for the loops over messages and attributes, the number of
    types plus one for chains of typedefs, [MATCH_DEPTH] (64 places of a
    path and two more) for CO-RE matching, and the
    number of datagrams the kernel has pending for [recv_loop], and a record
    for each eight bytes of a perf ring ([ring_fuel]). That fuel
    suffices is part of each theorem: its conclusion is [Ok].

    ** Not modelled

    Printed messages (but where their buffers overflow or their arguments
    are NULL); the time that passes; the kernel, the C library and
    [getopt_long] beyond the laws above; the deduplication of BTF and its
    dump; the probes of [libbpf_probes.c] that opening does not use; the vendored uapi headers beyond the constants
    in use; the lkmc headers, none of whose functions is called; the plotting and
    shell scripts. The receive handler and the reader are
    interleaved per slot, on one receiving CPU; weak memory is not modelled.
*)
From Stdlib Require Export ZArith Lia.
From Stdlib Require Import Strings.Byte.
From stdpp Require Export base list option numbers gmap strings pretty.

Abbreviation byte := Corelib.Init.Byte.byte.
#[global] Open Scope Z_scope.

Ltac Zify.zify_post_hook ::= Z.to_euclidean_division_equations.

(** * 1. Results of C code: a value, or a fault *)

(** What can go wrong in the C code in a way the language leaves
    undefined, or that stops the model. [OutOfFuel] marks a loop whose
    model ran out of fuel; the totality theorems rule it out. *)
Inductive fault :=
| OutOfBounds
| NullDeref
| DivByZero
| UseAfterFree
| OutOfFuel.

#[export] Instance fault_eq_dec : EqDecision fault.
Proof. solve_decision. Defined.

Inductive res (A : Type) :=
| Ok (a : A)
| Err (f : fault).
Arguments Ok {A} _.
Arguments Err {A} _.

#[export] Instance res_ret : MRet res := fun A a => Ok a.
#[export] Instance res_bind : MBind res :=
  fun A B f m => match m with Ok a => f a | Err e => Err e end.
#[export] Instance res_fmap : FMap res :=
  fun A B f m => match m with Ok a => Ok (f a) | Err e => Err e end.

#[export] Instance res_eq_dec `{EqDecision A} : EqDecision (res A).
Proof. solve_decision. Defined.

Definition res_ok {A} (m : res A) : bool :=
  match m with Ok _ => true | Err _ => false end.

(** [or_fault f o] is the value of [o], or the fault [f]. *)
Definition or_fault {A} (f : fault) (o : option A) : res A :=
  match o with Some a => Ok a | None => Err f end.

Lemma bind_Ok {A B} (f : A -> res B) (a : A) : (Ok a ≫= f) = f a.
Proof. reflexivity. Qed.

Lemma bind_Err {A B} (f : A -> res B) e : (Err e ≫= f) = Err e.
Proof. reflexivity. Qed.

Lemma bind_Ok_inv {A B} (f : A -> res B) (m : res A) b :
  (m ≫= f) = Ok b <-> exists a, m = Ok a /\ f a = Ok b.
Proof.
  split.
  - destruct m as [a|e]; simpl; [eauto | discriminate].
  - intros (a & -> & H). exact H.
Qed.

Lemma or_fault_Ok {A} f (o : option A) a : or_fault f o = Ok a <-> o = Some a.
Proof. destruct o; simpl; naive_solver. Qed.

(** [res_inv] splits every hypothesis [(x ← m; k) = Ok b] into its steps. *)
Ltac res_inv :=
  repeat match goal with
  | H : mbind _ _ = Ok _ |- _ =>
      apply bind_Ok_inv in H; let x := fresh "x" in
      let E := fresh "E" in destruct H as (x & E & H)
  | H : Ok _ = Ok _ |- _ => injection H as H
  | H : or_fault _ _ = Ok _ |- _ => apply or_fault_Ok in H
  | H : Err _ = Ok _ |- _ => discriminate H
  | H : Ok _ = Err _ |- _ => discriminate H
  | H : mret _ = Ok _ |- _ => injection H as H
  end.

(** * 2. Machine integers: wrap-around at 8, 16, 32 and 64 bits *)

Definition u8 (z : Z) : Z := z mod 2 ^ 8.
Definition u16 (z : Z) : Z := z mod 2 ^ 16.
Definition u32 (z : Z) : Z := z mod 2 ^ 32.
Definition u64 (z : Z) : Z := z mod 2 ^ 64.

(** Conversion to a 32-bit [int]: two's complement, as the compilers the
    program is built with define it. *)
Definition s32 (z : Z) : Z := (z + 2 ^ 31) mod 2 ^ 32 - 2 ^ 31.

(** A C truth value. *)
Definition bool_z (b : bool) : Z := if b then 1 else 0.

Ltac pow2 :=
  change (2 ^ 8) with 256 in *; change (2 ^ 16) with 65536 in *;
  change (2 ^ 31) with 2147483648 in *;
  change (2 ^ 32) with 4294967296 in *;
  change (2 ^ 64) with 18446744073709551616 in *.
Ltac wrap_lia := unfold u8, u16, u32, u64, s32 in *; pow2; lia.

Lemma u16_range z : 0 <= u16 z < 2 ^ 16.
Proof. wrap_lia. Qed.
Lemma u32_range z : 0 <= u32 z < 2 ^ 32.
Proof. wrap_lia. Qed.
Lemma u64_range z : 0 <= u64 z < 2 ^ 64.
Proof. wrap_lia. Qed.
Lemma u16_small z : 0 <= z < 2 ^ 16 -> u16 z = z.
Proof. wrap_lia. Qed.
Lemma u32_small z : 0 <= z < 2 ^ 32 -> u32 z = z.
Proof. wrap_lia. Qed.
Lemma u64_small z : 0 <= z < 2 ^ 64 -> u64 z = z.
Proof. wrap_lia. Qed.
Lemma s32_small z : - 2 ^ 31 <= z < 2 ^ 31 -> s32 z = z.
Proof. wrap_lia. Qed.

(** * 3. Bytes, and little-endian words *)

Definition byte_val (b : byte) : Z := Z.of_N (Byte.to_N b).
Definition byte_of_Z (z : Z) : byte :=
  default Byte.x00 (Byte.of_N (Z.to_N (z mod 256))).

#[export] Instance byte_eq_dec : EqDecision byte := Byte.byte_eq_dec.

Lemma byte_val_range b : 0 <= byte_val b < 256.
Proof.
  unfold byte_val. pose proof (Byte.to_N_bounded b). lia.
Qed.

Lemma byte_val_of_Z z : byte_val (byte_of_Z z) = z mod 256.
Proof.
  unfold byte_val, byte_of_Z.
  destruct (Byte.of_N (Z.to_N (z mod 256))) as [b|] eqn:E; simpl.
  - apply Byte.to_of_N in E. rewrite E. lia.
  - apply Byte.of_N_None_iff in E. lia.
Qed.

Lemma byte_of_val b : byte_of_Z (byte_val b) = b.
Proof.
  unfold byte_of_Z, byte_val.
  pose proof (Byte.to_N_bounded b).
  rewrite Z.mod_small by lia.
  rewrite N2Z.id, Byte.of_to_N. reflexivity.
Qed.

Lemma byte_val_inj b c : byte_val b = byte_val c -> b = c.
Proof. intros H. rewrite <- (byte_of_val b), H. apply byte_of_val. Qed.

(** The first [n] bytes of [z], least significant first, and back. *)
Fixpoint le_bytes (n : nat) (z : Z) : list byte :=
  match n with
  | O => []
  | S n => byte_of_Z z :: le_bytes n (z / 256)
  end.

Fixpoint le_val (bs : list byte) : Z :=
  match bs with
  | [] => 0
  | b :: bs => byte_val b + 256 * le_val bs
  end.

Lemma length_le_bytes n z : length (le_bytes n z) = n.
Proof. revert z; induction n; intros; simpl; auto. Qed.

Lemma pow256_S (n : nat) : 256 ^ Z.of_nat (S n) = 256 * 256 ^ Z.of_nat n.
Proof. rewrite Nat2Z.inj_succ, Z.pow_succ_r; lia. Qed.

Lemma le_val_range bs : 0 <= le_val bs < 256 ^ Z.of_nat (length bs).
Proof.
  induction bs as [|b bs IH]; [simpl; lia|].
  cbn [le_val length]. rewrite pow256_S.
  pose proof (byte_val_range b). lia.
Qed.

Lemma le_val_bytes n z : le_val (le_bytes n z) = z mod 256 ^ Z.of_nat n.
Proof.
  revert z; induction n as [|n IH]; intros z; [simpl; lia|].
  cbn [le_bytes le_val]. rewrite IH, byte_val_of_Z, pow256_S.
  rewrite Z.rem_mul_r by lia. lia.
Qed.

Lemma le_bytes_val bs : le_bytes (length bs) (le_val bs) = bs.
Proof.
  induction bs as [|b bs IH]; [reflexivity|].
  cbn [le_val length le_bytes]. pose proof (byte_val_range b). f_equal.
  - rewrite <- (byte_of_val b) at 2. unfold byte_of_Z.
    do 3 f_equal. lia.
  - replace ((byte_val b + 256 * le_val bs) / 256) with (le_val bs) by lia.
    exact IH.
Qed.

Lemma le_val_take n bs : le_val (take n bs) = le_val bs mod 256 ^ Z.of_nat n.
Proof.
  revert n. induction bs as [|b bs IH]; intros n.
  - rewrite take_nil. simpl. rewrite Z.mod_0_l; [reflexivity | lia].
  - destruct n as [|n]; [simpl; rewrite Z.mod_1_r; reflexivity|].
    rewrite firstn_cons. cbn [le_val]. rewrite IH, pow256_S.
    pose proof (byte_val_range b).
    rewrite Z.rem_mul_r by (try apply Z.pow_pos_nonneg; lia).
    replace ((byte_val b + 256 * le_val bs) / 256) with (le_val bs) by lia.
    replace ((byte_val b + 256 * le_val bs) mod 256) with (byte_val b) by lia.
    reflexivity.
Qed.

(** Swapping the bytes of a 16-bit value: [htons]/[ntohs] on the
    little-endian machines the program targets. *)
Definition bswap16 (z : Z) : Z :=
  Z.lor (Z.shiftl (Z.land z 255) 8) (Z.land (Z.shiftr z 8) 255).

(** * 4. Memory blocks: bounds-checked access *)

Definition zlen {A} (l : list A) : Z := Z.of_nat (length l).

(** [m[i]] and [m[i] = x] for an array of any element type. *)
Definition aget {A} (m : list A) (i : Z) : res A :=
  if 0 <=? i then or_fault OutOfBounds (m !! Z.to_nat i) else Err OutOfBounds.
Definition aset {A} (m : list A) (i : Z) (x : A) : res (list A) :=
  if (0 <=? i) && (i <? zlen m) then Ok (<[Z.to_nat i := x]> m)
  else Err OutOfBounds.

(** [memcpy] out of, and into, a block; both fault outside it. *)
Definition mread (m : list byte) (off len : Z) : res (list byte) :=
  if (0 <=? off) && (0 <=? len) && (off + len <=? zlen m)
  then Ok (take (Z.to_nat len) (drop (Z.to_nat off) m))
  else Err OutOfBounds.
Definition mwrite (m : list byte) (off : Z) (bs : list byte) : res (list byte) :=
  if (0 <=? off) && (off + zlen bs <=? zlen m)
  then Ok (take (Z.to_nat off) m ++ bs ++
           drop (Z.to_nat off + length bs) m)
  else Err OutOfBounds.

Definition load8 (m : list byte) (off : Z) : res Z :=
  b ← aget m off; Ok (byte_val b).
Definition load16 (m : list byte) (off : Z) : res Z :=
  bs ← mread m off 2; Ok (le_val bs).
Definition load32 (m : list byte) (off : Z) : res Z :=
  bs ← mread m off 4; Ok (le_val bs).
Definition load64 (m : list byte) (off : Z) : res Z :=
  bs ← mread m off 8; Ok (le_val bs).

(** * 5. Lemmas on blocks *)

Lemma zlen_nonneg {A} (l : list A) : 0 <= zlen l.
Proof. unfold zlen; lia. Qed.

Lemma zlen_app {A} (l k : list A) : zlen (l ++ k) = zlen l + zlen k.
Proof. unfold zlen. rewrite length_app. lia. Qed.

Lemma zlen_replicate {A} n (x : A) : zlen (replicate n x) = Z.of_nat n.
Proof. unfold zlen. rewrite length_replicate. reflexivity. Qed.

Lemma aget_Ok {A} (m : list A) i x :
  aget m i = Ok x <-> 0 <= i /\ m !! Z.to_nat i = Some x.
Proof.
  unfold aget. destruct (Z.leb_spec 0 i).
  - rewrite or_fault_Ok. naive_solver.
  - split; [discriminate | lia].
Qed.

Lemma aget_in {A} (m : list A) i :
  0 <= i < zlen m -> exists x, aget m i = Ok x.
Proof.
  intros Hi. destruct (m !! Z.to_nat i) as [x|] eqn:E.
  - exists x. apply aget_Ok. auto with lia.
  - apply lookup_ge_None in E. unfold zlen in Hi. lia.
Qed.

Lemma aget_bounds {A} (m : list A) i x : aget m i = Ok x -> 0 <= i < zlen m.
Proof.
  rewrite aget_Ok. intros [? H]. apply lookup_lt_Some in H. unfold zlen. lia.
Qed.

Lemma aset_Ok {A} (m : list A) i x :
  0 <= i < zlen m -> aset m i x = Ok (<[Z.to_nat i := x]> m).
Proof.
  intros. unfold aset.
  replace (0 <=? i) with true by lia. replace (i <? zlen m) with true by lia.
  reflexivity.
Qed.

Lemma aset_Ok_inv {A} (m : list A) i x m' :
  aset m i x = Ok m' -> 0 <= i < zlen m /\ m' = <[Z.to_nat i := x]> m.
Proof.
  unfold aset. destruct ((0 <=? i) && (i <? zlen m)) eqn:E; [|discriminate].
  intros [= <-]. split; [lia | reflexivity].
Qed.

Lemma zlen_aset {A} (m : list A) i x m' : aset m i x = Ok m' -> zlen m' = zlen m.
Proof.
  intros [_ ->]%aset_Ok_inv. unfold zlen. rewrite length_insert. reflexivity.
Qed.

(** Reading one cell back after writing one. *)
Lemma aget_aset {A} (m m' : list A) i j x :
  aset m i x = Ok m' ->
  aget m' j = if decide (i = j) then Ok x else aget m j.
Proof.
  intros [Hi ->]%aset_Ok_inv. unfold aget. unfold zlen in Hi.
  case_decide as Hij.
  - subst j. replace (0 <=? i) with true by lia.
    rewrite list_lookup_insert_eq by lia. reflexivity.
  - destruct (Z.leb_spec 0 j); [|reflexivity].
    rewrite list_lookup_insert_ne by lia. reflexivity.
Qed.

Definition in_block (m : list byte) (off len : Z) : Prop :=
  0 <= off /\ 0 <= len /\ off + len <= zlen m.

Lemma mread_Ok m off len :
  in_block m off len ->
  mread m off len = Ok (take (Z.to_nat len) (drop (Z.to_nat off) m)).
Proof.
  intros (?&?&?). unfold mread.
  replace ((0 <=? off) && (0 <=? len) && (off + len <=? zlen m)) with true by lia.
  reflexivity.
Qed.

Lemma mread_Ok_inv m off len bs :
  mread m off len = Ok bs ->
  in_block m off len /\ bs = take (Z.to_nat len) (drop (Z.to_nat off) m).
Proof.
  unfold mread, in_block.
  destruct ((0 <=? off) && (0 <=? len) && (off + len <=? zlen m)) eqn:E;
    [|discriminate]. intros [= <-]. split; [lia | reflexivity].
Qed.

Lemma mread_Err m off len :
  ~ in_block m off len -> mread m off len = Err OutOfBounds.
Proof.
  unfold mread, in_block. intros H.
  destruct ((0 <=? off) && (0 <=? len) && (off + len <=? zlen m)) eqn:E;
    [|reflexivity]. exfalso. apply H. lia.
Qed.

Lemma zlen_mread m off len bs : mread m off len = Ok bs -> zlen bs = len.
Proof.
  intros [(?&?&?) ->]%mread_Ok_inv. unfold zlen in *.
  rewrite length_take, length_drop. lia.
Qed.

Lemma mwrite_Ok m off bs :
  in_block m off (zlen bs) ->
  mwrite m off bs = Ok (take (Z.to_nat off) m ++ bs ++
                        drop (Z.to_nat off + length bs) m).
Proof.
  intros (?&?&?). unfold mwrite.
  replace ((0 <=? off) && (off + zlen bs <=? zlen m)) with true by lia.
  reflexivity.
Qed.

Lemma mwrite_Err m off bs :
  ~ in_block m off (zlen bs) -> mwrite m off bs = Err OutOfBounds.
Proof.
  unfold mwrite, in_block. intros H. pose proof (zlen_nonneg bs).
  destruct ((0 <=? off) && (off + zlen bs <=? zlen m)) eqn:E; [|reflexivity].
  exfalso. apply H. lia.
Qed.

Lemma mwrite_Ok_inv m off bs m' :
  mwrite m off bs = Ok m' ->
  in_block m off (zlen bs) /\
  m' = take (Z.to_nat off) m ++ bs ++ drop (Z.to_nat off + length bs) m.
Proof.
  unfold mwrite, in_block. pose proof (zlen_nonneg bs).
  destruct ((0 <=? off) && (off + zlen bs <=? zlen m)) eqn:E; [|discriminate].
  intros [= <-]. split; [lia | reflexivity].
Qed.

Lemma zlen_mwrite m off bs m' : mwrite m off bs = Ok m' -> zlen m' = zlen m.
Proof.
  intros [(?&?&?) ->]%mwrite_Ok_inv. unfold zlen in *.
  rewrite !length_app, length_take, length_drop. lia.
Qed.

(** A block after a write, cell by cell. *)
Lemma lookup_mwrite m off bs m' (i : nat) :
  mwrite m off bs = Ok m' ->
  m' !! i = if decide (off <= Z.of_nat i < off + zlen bs)
            then bs !! (i - Z.to_nat off)%nat else m !! i.
Proof.
  intros [(?&?&?) ->]%mwrite_Ok_inv. unfold zlen in *. case_decide.
  - rewrite lookup_app_r by (rewrite length_take; lia).
    rewrite length_take, lookup_app_l by lia. f_equal. lia.
  - destruct (decide (Z.of_nat i < off)).
    + rewrite lookup_app_l by (rewrite length_take; lia).
      rewrite lookup_take. case_decide; [reflexivity | lia].
    + rewrite lookup_app_r by (rewrite length_take; lia).
      rewrite length_take, lookup_app_r by lia.
      rewrite lookup_drop. f_equal. lia.
Qed.

(** The [len] bytes at [off], as a total function of the block. *)
Definition window (m : list byte) (off len : Z) : list byte :=
  take (Z.to_nat len) (drop (Z.to_nat off) m).

Lemma lookup_window m off len (i : nat) :
  0 <= off ->
  window m off len !! i =
  if decide (Z.of_nat i < len) then m !! (Z.to_nat off + i)%nat else None.
Proof.
  intros. unfold window. rewrite lookup_take, lookup_drop.
  repeat case_decide; try reflexivity; lia.
Qed.

Lemma length_window m off len :
  in_block m off len -> length (window m off len) = Z.to_nat len.
Proof.
  intros (?&?&?). unfold window, zlen in *. rewrite length_take, length_drop. lia.
Qed.

Lemma mread_window m off len :
  in_block m off len -> mread m off len = Ok (window m off len).
Proof. apply mread_Ok. Qed.

(** A window that a write does not touch is unchanged. *)
Lemma window_mwrite_disjoint m m' off bs o l :
  mwrite m off bs = Ok m' -> 0 <= o ->
  o + l <= off \/ off + zlen bs <= o ->
  window m' o l = window m o l.
Proof.
  intros Hw Ho Hd. apply list_eq. intros i.
  rewrite !lookup_window by lia. case_decide; [|reflexivity].
  rewrite (lookup_mwrite _ _ _ _ _ Hw). case_decide; [lia | reflexivity].
Qed.

(** The window that starts where the write starts. *)
Lemma window_mwrite_at m m' off bs l :
  mwrite m off bs = Ok m' -> 0 <= l ->
  window m' off l =
  take (Z.to_nat l) bs ++ window m (off + zlen bs) (l - zlen bs).
Proof.
  intros Hw Hl. pose proof Hw as [(?&?&?) _]%mwrite_Ok_inv.
  apply list_eq. intros i. rewrite lookup_window by lia.
  pose proof (lookup_mwrite _ _ _ _ (Z.to_nat off + i) Hw) as Hlk.
  rewrite Hlk. clear Hlk. unfold zlen in *.
  destruct (decide (Z.of_nat i < Z.of_nat (length bs))) as [Hi|Hi].
  - rewrite (decide_True (P := off <= _ < _)) by lia.
    destruct (decide (Z.of_nat i < l)).
    + rewrite lookup_app_l by (rewrite length_take; lia).
      rewrite lookup_take, decide_True by lia. f_equal. lia.
    + rewrite lookup_app_r by (rewrite length_take; lia).
      rewrite lookup_window by lia. rewrite decide_False; [reflexivity|].
      rewrite length_take. lia.
  - rewrite (decide_False (P := off <= _ < _)) by lia.
    rewrite lookup_app_r by (rewrite length_take; lia).
    rewrite lookup_window by lia. rewrite length_take.
    repeat case_decide; try reflexivity; try lia. f_equal. lia.
Qed.

(** A part of a block that was read, read on its own. *)
Lemma mread_sub m off len bs a l :
  mread m off len = Ok bs -> 0 <= a -> 0 <= l -> a + l <= len ->
  mread m (off + a) l = Ok (take (Z.to_nat l) (drop (Z.to_nat a) bs)).
Proof.
  intros [(?&?&?) ->]%mread_Ok_inv ???. rewrite mread_Ok by (unfold in_block; lia).
  f_equal. set (y := drop (Z.to_nat off) m).
  rewrite (take_drop_commute (take _ y)), take_take.
  rewrite Nat.min_l by lia. rewrite <- take_drop_commute. unfold y.
  rewrite drop_drop. do 2 f_equal. lia.
Qed.

Lemma zlen_le_bytes n z : zlen (le_bytes n z) = Z.of_nat n.
Proof. unfold zlen. rewrite length_le_bytes. reflexivity. Qed.

(** Reading in two parts. *)
Lemma mread_split m off a b :
  mread m off (zlen (a ++ b)) = Ok (a ++ b) ->
  mread m off (zlen a) = Ok a /\ mread m (off + zlen a) (zlen b) = Ok b.
Proof.
  intros H. pose proof (zlen_nonneg a). pose proof (zlen_nonneg b).
  rewrite zlen_app in H.
  pose proof (mread_sub m off _ _ 0 (zlen a) H) as Ha.
  pose proof (mread_sub m off _ _ (zlen a) (zlen b) H) as Hb.
  rewrite Z.add_0_r in Ha. rewrite Ha, Hb by lia.
  unfold zlen. rewrite !Nat2Z.id. change (Z.to_nat 0) with O. rewrite drop_0.
  rewrite take_app_length, drop_app_length, take_ge by lia. auto.
Qed.

Lemma mread_load16 m off z : mread m off 2 = Ok (le_bytes 2 z) -> 0 <= z < 2 ^ 16 -> load16 m off = Ok z.
Proof.
  intros H Hz. unfold load16. rewrite H, bind_Ok, le_val_bytes.
  change (256 ^ Z.of_nat 2) with (2 ^ 16). rewrite Z.mod_small by lia. reflexivity.
Qed.
Lemma mread_load32 m off z : mread m off 4 = Ok (le_bytes 4 z) -> 0 <= z < 2 ^ 32 -> load32 m off = Ok z.
Proof.
  intros H Hz. unfold load32. rewrite H, bind_Ok, le_val_bytes.
  change (256 ^ Z.of_nat 4) with (2 ^ 32). rewrite Z.mod_small by lia. reflexivity.
Qed.

Lemma aget_mread (m : list byte) o b : mread m o 1 = Ok [b] -> aget m o = Ok b.
Proof.
  intros [(Ho & _ & Hin) Hb]%mread_Ok_inv. apply aget_Ok. split; [exact Ho|].
  assert (take (Z.to_nat 1) (drop (Z.to_nat o) m) !! O = Some b) as Hl by (rewrite <- Hb; reflexivity).
  rewrite lookup_take_lt, lookup_drop in Hl by (change (Z.to_nat 1) with 1%nat; lia).
  rewrite <- Hl. f_equal. lia.
Qed.

(** An access inside the first part of a block ignores the rest. *)
Lemma mread_app_l m k off len :
  in_block m off len -> mread (m ++ k) off len = mread m off len.
Proof.
  intros (?&?&?). pose proof (zlen_nonneg k). unfold zlen in *.
  rewrite !mread_Ok by (unfold in_block, zlen; rewrite ?length_app; lia).
  rewrite drop_app_le by lia. rewrite take_app_le by (rewrite length_drop; lia).
  reflexivity.
Qed.

Lemma load16_app_l m k off :
  in_block m off 2 -> load16 (m ++ k) off = load16 m off.
Proof. intros. unfold load16. rewrite mread_app_l by assumption. reflexivity. Qed.

Lemma load16_range m off z : load16 m off = Ok z -> 0 <= z < 2 ^ 16.
Proof.
  unfold load16. intros H. res_inv. subst.
  pose proof (zlen_mread _ _ _ _ E). pose proof (le_val_range x).
  unfold zlen in *. replace (Z.of_nat (length x)) with 2 in * by lia. lia.
Qed.

Lemma load32_range m off z : load32 m off = Ok z -> 0 <= z < 2 ^ 32.
Proof.
  unfold load32. intros H. res_inv. subst.
  pose proof (zlen_mread _ _ _ _ E). pose proof (le_val_range x).
  unfold zlen in *. replace (Z.of_nat (length x)) with 4 in * by lia. lia.
Qed.

Lemma load8_range m off z : load8 m off = Ok z -> 0 <= z < 256.
Proof. unfold load8. intros H. res_inv. subst. apply byte_val_range. Qed.

Lemma load8_in m off : 0 <= off < zlen m -> exists z, load8 m off = Ok z.
Proof.
  intros H. destruct (aget_in m off H) as [b Hb]. unfold load8.
  rewrite Hb. simpl. eauto.
Qed.

Lemma load16_in m off : in_block m off 2 -> exists z, load16 m off = Ok z.
Proof. intros H. unfold load16. rewrite mread_Ok by exact H. simpl. eauto. Qed.

Lemma load32_in m off : in_block m off 4 -> exists z, load32 m off = Ok z.
Proof. intros H. unfold load32. rewrite mread_Ok by exact H. simpl. eauto. Qed.

Lemma load64_in m off : in_block m off 8 -> exists z, load64 m off = Ok z.
Proof. intros H. unfold load64. rewrite mread_Ok by exact H. simpl. eauto. Qed.

(** The whole block. *)
Lemma mread_all m : mread m 0 (zlen m) = Ok m.
Proof.
  rewrite mread_Ok by (unfold in_block; pose proof (zlen_nonneg m); lia).
  change (Z.to_nat 0) with O. rewrite drop_0. unfold zlen. rewrite Nat2Z.id, take_ge by lia. reflexivity.
Qed.

(** Writing over the middle of a block. *)
Lemma mwrite_middle (a b c bs : list byte) off :
  zlen a = off -> zlen bs = zlen b ->
  mwrite (a ++ b ++ c) off bs = Ok (a ++ bs ++ c).
Proof.
  intros Ha Hb. pose proof (zlen_nonneg a). pose proof (zlen_nonneg c).
  rewrite mwrite_Ok by (unfold in_block; rewrite !zlen_app; pose proof
    (zlen_nonneg bs); lia).
  unfold zlen in *. rewrite take_app_length' by lia.
  rewrite (app_assoc a b c), drop_app_length' by (rewrite length_app; lia).
  reflexivity.
Qed.

(** Reading the middle of a block. *)
Lemma mread_middle (a b c : list byte) off len :
  zlen a = off -> zlen b = len -> mread (a ++ b ++ c) off len = Ok b.
Proof.
  intros Ha Hb. pose proof (zlen_nonneg a). pose proof (zlen_nonneg c).
  rewrite mread_Ok by (unfold in_block; rewrite !zlen_app; pose proof
    (zlen_nonneg b); lia).
  unfold zlen in *. rewrite drop_app_length' by lia.
  rewrite take_app_length' by lia. reflexivity.
Qed.

(** Values whose bits do not overlap: [|] is [+]. *)
Lemma lor_add_shift a b n :
  0 <= n -> 0 <= b < 2 ^ n -> Z.lor (Z.shiftl a n) b = a * 2 ^ n + b.
Proof.
  intros Hn Hb. rewrite <- Z.shiftl_mul_pow2 by lia.
  assert (Z.land (Z.shiftl a n) b = 0) as Hd.
  { apply Z.bits_inj'. intros i Hi. rewrite Z.land_spec, Z.bits_0.
    destruct (Z.lt_ge_cases i n).
    - rewrite Z.shiftl_spec_low by lia. reflexivity.
    - rewrite <- (Z.mod_small b (2 ^ n)) by lia.
      rewrite Z.mod_pow2_bits_high by lia. apply andb_false_r. }
  rewrite <- Z.lxor_lor by exact Hd.
  rewrite <- Z.add_nocarry_lxor by exact Hd. reflexivity.
Qed.

Lemma bswap16_eq z : bswap16 z = (z mod 256) * 256 + (z / 256) mod 256.
Proof.
  unfold bswap16. change 255 with (Z.ones 8). rewrite !Z.land_ones by lia.
  rewrite Z.shiftr_div_pow2 by lia. change (2 ^ 8) with 256.
  rewrite lor_add_shift by lia. reflexivity.
Qed.

Lemma bswap16_range z : 0 <= bswap16 z < 2 ^ 16.
Proof. rewrite bswap16_eq. lia. Qed.

Lemma bswap16_involutive z : 0 <= z < 2 ^ 16 -> bswap16 (bswap16 z) = z.
Proof. intros. rewrite !bswap16_eq. lia. Qed.

(** * 6. Lists *)

(** A filter that keeps nothing. *)
Lemma filter_none {A} (P : A -> Prop) `{Pdec : !forall x, Decision (P x)} (l : list A) :
  (forall x, x ∈ l -> ~ P x) -> filter P l = [].
Proof.
  intros Hl. induction l as [|x l IH]; [reflexivity|].
  rewrite filter_cons_False by (apply Hl; left).
  apply IH. intros y Hy. apply Hl. right. exact Hy.
Qed.

(** Filters that agree on the elements of the list. *)
Lemma filter_ext_in {A} (P Q : A -> Prop) `{Pdec : !forall x, Decision (P x)}
    `{Qdec : !forall x, Decision (Q x)} (l : list A) :
  (forall x, x ∈ l -> P x <-> Q x) -> filter P l = filter Q l.
Proof.
  intros Hl. induction l as [|x l IH]; [reflexivity|].
  rewrite !filter_cons, IH by (intros y Hy; apply Hl; right; exact Hy).
  assert (P x <-> Q x) as Hx by (apply Hl; left).
  repeat case_decide; naive_solver.
Qed.

(** A filter that keeps exactly the positions from [n] on. *)
Lemma filter_suffix {A} (P : A -> Prop) `{Pdec : !forall x, Decision (P x)}
    (l : list A) n :
  (forall k x, l !! k = Some x -> P x <-> (n <= k)%nat) -> filter P l = drop n l.
Proof.
  revert n. induction l as [|x l IH]; intros n Hl; [rewrite drop_nil; reflexivity|].
  destruct n as [|n].
  - rewrite filter_cons_True by (apply (Hl O x); [reflexivity | lia]).
    rewrite (IH O); [reflexivity|]. intros k y Hk.
    rewrite (Hl (S k) y Hk). lia.
  - rewrite filter_cons_False by (rewrite (Hl O x eq_refl); lia).
    apply IH. intros k y Hk. rewrite (Hl (S k) y Hk). lia.
Qed.

(** Removing the first [n] elements of a list without duplicates. *)
Lemma filter_not_in_take {A} `{EqDecision A} (l : list A) n :
  NoDup l -> filter (fun x => x ∉ take n l) l = drop n l.
Proof.
  intros Hnd. apply filter_suffix. intros k x Hk.
  rewrite list_elem_of_lookup. split.
  - intros Hx. apply Nat.nlt_ge. intros Hlt. apply Hx. exists k.
    rewrite lookup_take, decide_True by lia. exact Hk.
  - intros Hge [j Hj]. rewrite lookup_take in Hj. case_decide; [|discriminate].
    pose proof (NoDup_lookup _ _ _ _ Hnd Hj Hk). lia.
Qed.

Lemma elem_of_drop_in {A} (l : list A) n x : x ∈ drop n l -> x ∈ l.
Proof. intros Hx. rewrite <- (take_drop n l). apply elem_of_app. auto. Qed.

Lemma elem_of_drop_not_take {A} (l : list A) n x :
  NoDup l -> x ∈ drop n l -> x ∉ take n l.
Proof.
  intros Hnd Hd Ht. rewrite <- (take_drop n l) in Hnd.
  apply NoDup_app in Hnd as (_ & Hnd & _). exact (Hnd x Ht Hd).
Qed.

(** Where the elements of a list without duplicates sit. *)
Lemma elem_of_take_drop {A} (l : list A) n m k x :
  NoDup l -> l !! k = Some x ->
  x ∈ take m (drop n l) <-> (n <= k < n + m)%nat.
Proof.
  intros Hnd Hk. rewrite list_elem_of_lookup. split.
  - intros [j Hj]. rewrite lookup_take in Hj. case_decide; [|discriminate].
    rewrite lookup_drop in Hj. pose proof (NoDup_lookup _ _ _ _ Hnd Hj Hk). lia.
  - intros Hr. exists (k - n)%nat. rewrite lookup_take, decide_True by lia.
    rewrite lookup_drop. rewrite <- Hk. f_equal. lia.
Qed.

(** * 7. Automation shared by the components *)

Create HintDb cmem.
Create Rewrite HintDb cmem.
#[export] Hint Resolve u16_range u32_range u64_range byte_val_range
  load16_range load32_range load8_range bswap16_range zlen_nonneg : cmem.
#[export] Hint Rewrite @zlen_app @zlen_replicate @length_app @length_replicate
  @length_insert length_le_bytes : cmem.

(** [step_in H] runs a bounds-checked access whose range is provable. *)
Ltac blia := unfold in_block in *; lia.
