(* ===== verification/CommonH.v ===== *)
(** The header every program of the experiment shares,
    [src/mymodule/common.h]: its constants, [struct Payload] with its
    in-memory layout on the x86-64 machines of the experiment, and the
    two-level table of time stamps each receiving program keeps
    ([log_buffs]). *)
From S2P Require Import Prelude.
#[local] Open Scope Z_scope.

(** * Constants *)

Definition BUFFER_SIZE : Z := 4096.
Definition PKT_BUFFER_SIZE : Z := 128.
Definition PKTS_PER_BUFFER : Z := BUFFER_SIZE / PKT_BUFFER_SIZE.
Definition SIZE_OF_PAGE_HC : Z := 4096.
Definition MAX_PKT : Z := 200.
Definition KM_FIND_BUFF_SLOT_MAX_TRY : Z := 200.
Definition MAX_LOG_ENTRY_SHIFT : Z := 14.
Definition MAX_LOG_ENTRY : Z := Z.shiftl 2 MAX_LOG_ENTRY_SHIFT.
Definition PAGES_ORDER : Z := 6.
Definition MAX_ENTRIES_PER_LOG_BUFF : Z :=
  Z.shiftl 2 (PAGES_ORDER - 1) * SIZE_OF_PAGE_HC / 8.
Definition NUM_LOG_BUFF : Z := MAX_LOG_ENTRY / MAX_ENTRIES_PER_LOG_BUFF.
Definition CLIENT_RATE : Z := 2.
Definition USER_PROCESSING_RATE : Z := 10.
Definition DEST_PORT : Z := 8080.

Definition PL_KEEP_ALIVE : Z := 1.
Definition PL_DATA : Z := 2.
Definition PL_LOG : Z := 3.

Lemma MAX_LOG_ENTRY_eq : MAX_LOG_ENTRY = 32768.
Proof. reflexivity. Qed.
Lemma MAX_ENTRIES_PER_LOG_BUFF_eq : MAX_ENTRIES_PER_LOG_BUFF = 32768.
Proof. reflexivity. Qed.
Lemma NUM_LOG_BUFF_eq : NUM_LOG_BUFF = 1.
Proof. reflexivity. Qed.

(** * struct Payload *)

Record Payload := {
  client_uid : Z;
  uid : Z;
  type : Z;
  created_time : Z;
  ks_time_arrival_1 : Z;
  ks_time_arrival_2 : Z;
  us_time_arrival_1 : Z;
  us_time_arrival_2 : Z;
  data : list byte   (* char data[960] *)
}.

Definition PAYLOAD_DATA_SIZE : Z := 960.

(** [sizeof(struct Payload)]: eight [unsigned long] and the data. *)
Definition sizeof_Payload : Z := 8 * 8 + PAYLOAD_DATA_SIZE.

(** Every field holds a value of its C type. *)
Definition u64_ok (z : Z) : Prop := 0 <= z < 2 ^ 64.
Definition Payload_ok (p : Payload) : Prop :=
  u64_ok (client_uid p) /\ u64_ok (uid p) /\ u64_ok (type p) /\
  u64_ok (created_time p) /\ u64_ok (ks_time_arrival_1 p) /\
  u64_ok (ks_time_arrival_2 p) /\ u64_ok (us_time_arrival_1 p) /\
  u64_ok (us_time_arrival_2 p) /\ zlen (data p) = PAYLOAD_DATA_SIZE.

(** The bytes of a [struct Payload] object, as [sendto] and [memcpy] see
    them, and the object a [memcpy] of those bytes gives. *)
Definition Payload_bytes (p : Payload) : list byte :=
  le_bytes 8 (client_uid p) ++ le_bytes 8 (uid p) ++ le_bytes 8 (type p) ++
  le_bytes 8 (created_time p) ++ le_bytes 8 (ks_time_arrival_1 p) ++
  le_bytes 8 (ks_time_arrival_2 p) ++ le_bytes 8 (us_time_arrival_1 p) ++
  le_bytes 8 (us_time_arrival_2 p) ++ data p.

Definition field (m : list byte) (i : nat) : Z :=
  le_val (take 8 (drop (8 * i) m)).

Definition Payload_of_bytes (m : list byte) : Payload :=
  {| client_uid := field m 0; uid := field m 1; type := field m 2;
     created_time := field m 3;
     ks_time_arrival_1 := field m 4; ks_time_arrival_2 := field m 5;
     us_time_arrival_1 := field m 6; us_time_arrival_2 := field m 7;
     data := drop 64 m |}.

(** A payload the programs take for a packet: a field of the zeroed map
    entry is not enough. *)
Definition payload_valid (p : Payload) : bool :=
  negb (client_uid p =? 0) && (type p =? PL_DATA) && negb (created_time p =? 0).

(** [memcpy(&pl, m + off, sizeof(struct Payload))]. *)
Definition load_Payload (m : list byte) (off : Z) : res Payload :=
  bs ← mread m off sizeof_Payload; Ok (Payload_of_bytes bs).

Lemma le_val_word z : u64_ok z -> le_val (le_bytes 8 z) = z.
Proof.
  unfold u64_ok. intros. rewrite le_val_bytes.
  change (256 ^ Z.of_nat 8) with (2 ^ 64). apply Z.mod_small. lia.
Qed.

Lemma Payload_of_bytes_bytes p :
  Payload_ok p -> Payload_of_bytes (Payload_bytes p) = p.
Proof.
  destruct p as [a b c d e f g h dt]. unfold Payload_ok; simpl.
  intros (?&?&?&?&?&?&?&?&_).
  unfold Payload_of_bytes, field, Payload_bytes. cbn [client_uid uid type
    created_time ks_time_arrival_1 ks_time_arrival_2 us_time_arrival_1
    us_time_arrival_2 data].
  f_equal; try (etransitivity; [|apply le_val_word; eassumption]; reflexivity).
Qed.

Lemma zlen_Payload_bytes p :
  Payload_ok p -> zlen (Payload_bytes p) = sizeof_Payload.
Proof.
  intros (?&?&?&?&?&?&?&?&Hd). unfold Payload_bytes.
  rewrite !zlen_app, Hd. reflexivity.
Qed.

(** The header fields are the first 64 bytes: any prefix that keeps them
    keeps the fields. *)
Lemma field_take m (i n : nat) :
  (8 * i + 8 <= n)%nat -> field (take n m) i = field m i.
Proof.
  intros. unfold field. rewrite !take_drop_commute, take_take.
  do 3 f_equal. lia.
Qed.

Lemma field_app m k (i : nat) :
  (8 * i + 8 <= length m)%nat -> field (m ++ k) i = field m i.
Proof.
  intros. unfold field. rewrite drop_app_le by lia.
  rewrite take_app_le by (rewrite length_drop; lia). reflexivity.
Qed.

(** * The table of time stamps *)

(** [log_buffs]: [NUM_LOG_BUFF] buffers of [MAX_ENTRIES_PER_LOG_BUFF]
    words. The cell of packet [u] is
    [log_buffs[u / MAX_ENTRIES_PER_LOG_BUFF][u % MAX_ENTRIES_PER_LOG_BUFF]]. *)
Abbreviation log_table := (list (list Z)).

Definition log_store (lb : log_table) (buff_index u now : Z) : res log_table :=
  b ← aget lb buff_index;
  b' ← aset b (u mod MAX_ENTRIES_PER_LOG_BUFF) now;
  aset lb buff_index b'.

Definition log_load (lb : log_table) (buff_index u : Z) : res Z :=
  b ← aget lb buff_index;
  aget b (u mod MAX_ENTRIES_PER_LOG_BUFF).

(** A table as the allocation loops build it. *)
Definition log_ok (lb : log_table) : Prop :=
  zlen lb = NUM_LOG_BUFF /\ Forall (fun b => length b = Z.to_nat MAX_ENTRIES_PER_LOG_BUFF) lb.

(** What the table stands for: one array indexed by the packet's uid. *)
Definition log_flat (lb : log_table) : list Z := mjoin lb.

#[export] Instance log_ok_dec lb : Decision (log_ok lb).
Proof. unfold log_ok. apply _. Defined.

(** The loop in which the user programs allocate the table, from buffer
    [i] on with [n] to go: the buffers, or the indices of those it freed
    again when buffer [i] could not be had (the program then returns -1).
    [malloc i] is what the call for buffer [i] gives, whatever it holds. *)
Fixpoint malloc_loop (malloc : Z -> option (list Z)) (n : nat) (i : Z)
    (bufs : log_table) : log_table + list Z :=
  match n with
  | O => inl bufs
  | S n =>
      match malloc i with
      | None => inr (seqZ 0 i)
      | Some r => malloc_loop malloc n (i + 1) (bufs ++ [r])
      end
  end.

(** [%lu\n], and the line [snprintf(temp, 100, ...)] keeps of it. *)
Definition lu_line (z : Z) : string := pretty (Z.to_N z) +:+ String (Ascii.ascii_of_nat 10) EmptyString.

(** The export loop [for (i = 0; i < MAX_LOG_ENTRY; i++)] from [i] on,
    with [n] entries left: the lines written and the number of zero
    entries. *)
Fixpoint export_from (fmt : Z -> string) (lb : log_table) (i : Z) (n : nat)
    (zeroed : Z) : res (list string * Z) :=
  match n with
  | O => Ok ([], zeroed)
  | S n =>
      let buff_index := u32 (i / MAX_ENTRIES_PER_LOG_BUFF) in
      v ← log_load lb buff_index i;
      let zeroed := if v =? 0 then u64 (zeroed + 1) else zeroed in
      '(lines, zeroed) ← export_from fmt lb (i + 1) n zeroed;
      Ok (fmt v :: lines, zeroed)
  end.

(** ** Lemmas *)

Lemma log_ok_length lb : log_ok lb -> length (log_flat lb) = Z.to_nat MAX_LOG_ENTRY.
Proof.
  intros [Hl Hf]. unfold log_flat. revert Hl Hf.
  rewrite MAX_ENTRIES_PER_LOG_BUFF_eq, NUM_LOG_BUFF_eq, MAX_LOG_ENTRY_eq.
  unfold zlen. destruct lb as [|b [|c lb]]; simpl; try lia.
  intros _ [Hb _]%Forall_cons. rewrite app_nil_r. exact Hb.
Qed.

(** A table of zeros. *)
Lemma zero_log_ok : log_ok [replicate (Z.to_nat MAX_ENTRIES_PER_LOG_BUFF) 0].
Proof. split; [reflexivity|]. apply Forall_singleton, length_replicate. Qed.

Section log_cells.
Context (lb : log_table) (Hok : log_ok lb).

(** Reading the table is reading the flat array. *)
Lemma log_load_flat u :
  0 <= u < MAX_LOG_ENTRY ->
  log_load lb (u / MAX_ENTRIES_PER_LOG_BUFF) u = aget (log_flat lb) u.
Proof using Hok.
  intros Hu. destruct Hok as [Hl Hf].
  destruct (aget_in (log_flat lb) u) as [v Hv].
  { unfold zlen. rewrite log_ok_length by exact Hok. lia. }
  rewrite Hv. apply aget_Ok in Hv as [_ Hv].
  apply (join_lookup_Some_same_length _ _ _ _ Hf) in Hv
    as (j & l & i & Hj & Hi & Heq).
  assert (i < Z.to_nat MAX_ENTRIES_PER_LOG_BUFF)%nat as Hlt.
  { apply lookup_lt_Some in Hi as Hlt. revert Hlt.
    rewrite (proj1 (Forall_forall _ _) Hf l); [auto|].
    apply list_elem_of_lookup. eauto. }
  rewrite MAX_ENTRIES_PER_LOG_BUFF_eq in *. rewrite MAX_LOG_ENTRY_eq in *.
  unfold log_load.
  replace (u / 32768) with (Z.of_nat j) by lia.
  assert (aget lb (Z.of_nat j) = Ok l) as ->.
  { apply aget_Ok. rewrite Nat2Z.id. auto with lia. }
  rewrite MAX_ENTRIES_PER_LOG_BUFF_eq. rewrite bind_Ok.
  apply aget_Ok. split; [lia|].
  replace (Z.to_nat (u mod 32768)) with i by lia. exact Hi.
Qed.

(** Storing in the table is storing in the flat array, and keeps its shape. *)
Lemma log_store_flat u now :
  0 <= u < MAX_LOG_ENTRY ->
  exists lb', log_store lb (u / MAX_ENTRIES_PER_LOG_BUFF) u now = Ok lb' /\
    log_ok lb' /\ log_flat lb' = <[Z.to_nat u := now]> (log_flat lb).
Proof using Hok.
  intros Hu. destruct Hok as [Hl Hf]. unfold log_store.
  rewrite MAX_ENTRIES_PER_LOG_BUFF_eq, MAX_LOG_ENTRY_eq, NUM_LOG_BUFF_eq in *.
  unfold zlen in Hl. destruct lb as [|b [|c lb']]; simpl in Hl; try lia.
  apply Forall_cons in Hf as [Hb _].
  replace (u / 32768) with 0 by lia. replace (u mod 32768) with u by lia.
  change (aget [b] 0) with (Ok b). rewrite bind_Ok.
  rewrite aset_Ok by (unfold zlen; lia). rewrite bind_Ok.
  exists [<[Z.to_nat u := now]> b]. split; [reflexivity|]. split.
  - split; [reflexivity|]. apply Forall_singleton.
    rewrite length_insert, MAX_ENTRIES_PER_LOG_BUFF_eq. exact Hb.
  - unfold log_flat. simpl. rewrite !app_nil_r. reflexivity.
Qed.
End log_cells.

(** The export loop writes one line per entry, in order, and counts the
    zero entries. *)
Definition count_zero (l : list Z) : Z := zlen (filter (fun v => v = 0) l).

Lemma export_from_spec fmt lb i n zeroed :
  log_ok lb -> 0 <= i -> i + Z.of_nat n <= MAX_LOG_ENTRY ->
  0 <= zeroed -> zeroed + Z.of_nat n < 2 ^ 64 ->
  export_from fmt lb i n zeroed =
  Ok (fmt <$> take n (drop (Z.to_nat i) (log_flat lb)),
      zeroed + count_zero (take n (drop (Z.to_nat i) (log_flat lb)))).
Proof.
  intros Hok. revert i zeroed. induction n as [|n IH]; intros i zeroed Hi Hn Hz Hz'.
  { cbn. unfold count_zero. cbn. rewrite Z.add_0_r. reflexivity. }
  cbn [export_from].
  rewrite u32_small by (rewrite MAX_ENTRIES_PER_LOG_BUFF_eq in *;
                        rewrite MAX_LOG_ENTRY_eq in *; lia).
  rewrite log_load_flat by (auto with lia).
  destruct (aget_in (log_flat lb) i) as [v Hv].
  { unfold zlen. rewrite log_ok_length by exact Hok. lia. }
  rewrite Hv, bind_Ok. apply aget_Ok in Hv as [_ Hv].
  rewrite (drop_S _ _ _ Hv).
  replace (S (Z.to_nat i)) with (Z.to_nat (i + 1)) by lia.
  destruct (Z.eqb_spec v 0) as [Hv0|Hv0].
  - rewrite IH by (rewrite ?u64_small by lia; lia).
    rewrite u64_small by lia. cbn. unfold count_zero.
    rewrite filter_cons_True by exact Hv0. do 2 f_equal. unfold zlen. simpl. lia.
  - rewrite IH by lia. cbn. unfold count_zero.
    rewrite filter_cons_False by exact Hv0. reflexivity.
Qed.

(** The allocation loop gives a well-formed table, or frees all it took. *)
Definition rows_ok (malloc : Z -> option (list Z)) : Prop :=
  forall i r, malloc i = Some r -> length r = Z.to_nat MAX_ENTRIES_PER_LOG_BUFF.

Lemma malloc_loop_spec malloc n : rows_ok malloc -> forall i bufs,
  0 <= i -> zlen bufs = i ->
  Forall (fun b => length b = Z.to_nat MAX_ENTRIES_PER_LOG_BUFF) bufs ->
  match malloc_loop malloc n i bufs with
  | inl lb => zlen lb = i + Z.of_nat n /\
      Forall (fun b => length b = Z.to_nat MAX_ENTRIES_PER_LOG_BUFF) lb
  | inr freed => exists j, i <= j < i + Z.of_nat n /\ malloc j = None /\ freed = seqZ 0 j
  end.
Proof.
  intros Hm. induction n as [|n IH]; intros i bufs Hi Hl Hf; cbn [malloc_loop].
  { split; [lia | exact Hf]. }
  destruct (malloc i) as [r|] eqn:E.
  - specialize (IH (i + 1) (bufs ++ [r]) ltac:(lia)).
    rewrite zlen_app in IH. change (zlen [r]) with 1 in IH.
    specialize (IH ltac:(lia)).
    destruct (malloc_loop malloc n (i + 1) (bufs ++ [r])).
    + destruct IH as [IH1 IH2]; [|split; [lia | exact IH2]].
      apply Forall_app. split; [exact Hf | apply Forall_singleton; eapply Hm, E].
    + destruct IH as (j & Hj & Hn & He);
        [|exists j; split; [lia | split; assumption]].
      apply Forall_app. split; [exact Hf | apply Forall_singleton; eapply Hm, E].
  - exists i. split; [lia | split; [exact E | reflexivity]].
Qed.
