(* ===== verification/CLib.v ===== *)
(** What the programs use of the C library: strings in buffers, formatted
    output into a buffer, and number parsing. A C string is the list of its
    bytes before the NUL; a buffer is a block. *)
From S2P Require Import Prelude.
#[local] Open Scope Z_scope.

(** Error numbers. *)
Definition ENOENT : Z := 2.
Definition ESRCH : Z := 3.
Definition E2BIG : Z := 7.
Definition ENOMEM : Z := 12.
Definition EBUSY : Z := 16.
Definition EEXIST : Z := 17.
Definition EINVAL : Z := 22.
Definition ENOSPC : Z := 28.
Definition ENAMETOOLONG : Z := 36.

(** What a system call gives: a descriptor (or another non-negative
    result), or an error number. *)
Inductive sysret := ROk (v : Z) | RErr (e : Z).

Definition NUL : byte := Byte.x00.
Definition bytes_of (s : string) : list byte := Stdlib.Strings.String.list_byte_of_string s.
Definition string_of (s : list byte) : string := Stdlib.Strings.String.string_of_list_byte s.

(** The string a pointer into a buffer stands for: the bytes up to the
    first NUL, which has to be in the buffer. *)
Fixpoint c_string (m : list byte) : res (list byte) :=
  match m with
  | [] => Err OutOfBounds
  | b :: m => if decide (b = NUL) then Ok [] else s ← c_string m; Ok (b :: s)
  end.

(** [strncpy(dest, src, n)]: what the first [n] bytes of [dest] become. *)
Definition strncpy (src : list byte) (n : nat) : list byte :=
  take n (src ++ replicate n NUL).

(** [snprintf(buf + off, size, ...)] of a text [s]: the buffer and the
    length returned. *)
Definition snprintf (buf : list byte) (off size : Z) (s : list byte)
    : res (list byte * Z) :=
  let size := u64 size in
  if size =? 0 then Ok (buf, zlen s) else
  buf ← mwrite buf off (take (Z.to_nat (size - 1)) s ++ [NUL]);
  Ok (buf, zlen s).

(** [printf("%-<w>s", s)]. *)
Definition pad_right (w : nat) (s : list byte) : list byte :=
  s ++ replicate (w - length s) Byte.x20.

(** [atoi]: white space, a sign, digits; [None] when the value does not fit
    an [int] (undefined behaviour). *)
Definition is_space (b : byte) : bool :=
  bool_decide (b = Byte.x20) || ((9 <=? byte_val b) && (byte_val b <=? 13)).
Definition is_digit (b : byte) : bool := (48 <=? byte_val b) && (byte_val b <=? 57).

Fixpoint skip_space (s : list byte) : list byte :=
  match s with
  | b :: s' => if is_space b then skip_space s' else s
  | [] => []
  end.
Fixpoint digits (s : list byte) (acc : Z) : Z :=
  match s with
  | b :: s => if is_digit b then digits s (10 * acc + (byte_val b - 48)) else acc
  | [] => acc
  end.
Definition atoi (s : list byte) : option Z :=
  let v := match skip_space s with
           | b :: s => if decide (b = Byte.x2d) then - digits s 0
                       else if decide (b = Byte.x2b) then digits s 0
                       else digits (b :: s) 0
           | [] => 0
           end in
  if (- 2 ^ 31 <=? v) && (v <? 2 ^ 31) then Some v else None.

(** * Lemmas *)

(** A string with no NUL in it. *)
Definition nul_free (s : list byte) : Prop := Forall (fun b => b <> NUL) s.

Lemma c_string_app s k : nul_free s -> c_string (s ++ NUL :: k) = Ok s.
Proof.
  induction 1 as [|b s Hb Hs IH]; [reflexivity|]. cbn [app c_string].
  rewrite decide_False by exact Hb. rewrite IH. reflexivity.
Qed.

Lemma c_string_none s : nul_free s -> c_string s = Err OutOfBounds.
Proof.
  induction 1 as [|b s Hb Hs IH]; [reflexivity|]. cbn [c_string].
  rewrite decide_False by exact Hb. rewrite IH. reflexivity.
Qed.

Lemma length_strncpy s n : length (strncpy s n) = n.
Proof. unfold strncpy. rewrite length_take, length_app, length_replicate. lia. Qed.

(** [strncpy] keeps the string when it is shorter than the buffer, and
    leaves no string at all otherwise. *)
Lemma strncpy_c_string s n :
  nul_free s ->
  c_string (strncpy s n) = if decide (length s < n)%nat then Ok s else Err OutOfBounds.
Proof.
  intros Hs. unfold strncpy. rewrite take_app, take_replicate.
  case_decide.
  - rewrite take_ge by lia. replace ((n - length s) `min` n)%nat with (S (n - length s - 1))
      by lia. apply c_string_app, Hs.
  - replace ((n - length s) `min` n)%nat with O by lia. rewrite app_nil_r.
    apply c_string_none, Forall_take, Hs.
Qed.
