(* ===== verification/KernelModule.v ===== *)
(** The kernel module, [src/mymodule/kernel_module/intercept-module.c]:
    the packet cache (a ring of [MAX_PKT] slots of [PKT_BUFFER_SIZE]
    bytes in one heap block), the receive handler that fills it and the
    [read] operation of the proc file that drains it. *)
From S2P Require Import Prelude CommonH.
#[local] Open Scope Z_scope.

(** * State *)

(** The module's globals. [buff_from_here] and [buff_temp] are the two
    [kmalloc]ed blocks, [log_buffs] the pages of the log. *)
Record km := mk_km {
  buff_from_here : list byte;
  buff_temp : list byte;
  current_index : Z;
  status : list Z;
  log_buffs : log_table;
  count_pkt : Z;
  count_pkt_overflow : Z
}.

Definition set_cache (st : km) (buff : list byte) (cur : Z) (stat : list Z) : km :=
  mk_km buff (buff_temp st) cur stat (log_buffs st) (count_pkt st)
    (count_pkt_overflow st).
Definition set_temp (st : km) (t : list byte) : km :=
  mk_km (buff_from_here st) t (current_index st) (status st) (log_buffs st)
    (count_pkt st) (count_pkt_overflow st).
Definition set_log (st : km) (lb : log_table) : km :=
  mk_km (buff_from_here st) (buff_temp st) (current_index st) (status st) lb
    (count_pkt st) (count_pkt_overflow st).
Definition set_counts (st : km) (c o : Z) : km :=
  mk_km (buff_from_here st) (buff_temp st) (current_index st) (status st)
    (log_buffs st) c o.

(** The part of a [struct sk_buff] the handler looks at: the linear
    buffer, and the offsets of [skb_network_header], of
    [skb_transport_header] and of [->data] in it. *)
Record sk_buff := mk_skb {
  skb_head : list byte;
  network_header : Z;
  transport_header : Z;
  skb_data : Z
}.

Inductive rx_handler_result_t :=
| RX_HANDLER_CONSUMED | RX_HANDLER_ANOTHER | RX_HANDLER_EXACT | RX_HANDLER_PASS.

(** * The receive handler *)

(** The body of the search loop for a free slot [write_index]: copy the
    UDP payload into it, mark it and move [current_index] past it. *)
Definition rx_write_slot (pkt : sk_buff) (write_index : Z) (st : km) : res km :=
  len ← load16 (skb_head pkt) (transport_header pkt + 4);
  payload ← mread (skb_head pkt) (skb_data pkt + 28) (u32 (bswap16 len - 8));
  buff ← mwrite (buff_from_here st) (write_index * PKT_BUFFER_SIZE) payload;
  stat ← aset (status st) write_index 1;
  Ok (set_cache st buff (u32 (write_index + 1) mod MAX_PKT) stat).

(** [while (try < KM_FIND_BUFF_SLOT_MAX_TRY) { ... }]. *)
Fixpoint rx_find_slot (fuel : nat) (try write_index : Z) (pkt : sk_buff)
    (st : km) : res km :=
  match fuel with
  | O => Err OutOfFuel
  | S fuel =>
      if try <? KM_FIND_BUFF_SLOT_MAX_TRY then
        s ← aget (status st) write_index;
        if s =? 0 then rx_write_slot pkt write_index st
        else
          let write_index := u32 (write_index + 1) mod MAX_PKT in
          let try := u32 (try + 1) in
          let st :=
            if try =? KM_FIND_BUFF_SLOT_MAX_TRY
            then set_counts st (count_pkt st) (u64 (count_pkt_overflow st + 1))
            else st in
          rx_find_slot fuel try write_index pkt st
      else Ok st
  end.

Definition rx_fuel : nat := S (Z.to_nat KM_FIND_BUFF_SLOT_MAX_TRY).

(** "Write timestamp to log". *)
Definition rx_log (uid now : Z) (st : km) : res km :=
  if (uid <? MAX_LOG_ENTRY) && (0 <=? uid) then
    let buff_index := u32 (uid / MAX_ENTRIES_PER_LOG_BUFF) in
    lb ← log_store (log_buffs st) buff_index uid now;
    Ok (set_log st lb)
  else Ok st.

Definition rxhPacketIn (pkt : sk_buff) (now : Z) (st : km)
    : res (rx_handler_result_t * km) :=
  b0 ← load8 (skb_head pkt) (network_header pkt);
  if negb (Z.shiftr b0 4 =? 4) then Ok (RX_HANDLER_PASS, st) else
  protocol ← load8 (skb_head pkt) (network_header pkt + 9);
  if negb (protocol =? 17) then Ok (RX_HANDLER_PASS, st) else
  dest ← load16 (skb_head pkt) (transport_header pkt + 2);
  if negb (bswap16 dest =? 8080) then Ok (RX_HANDLER_PASS, st) else
  let st := set_counts st (u64 (count_pkt st + 1)) (count_pkt_overflow st) in
  uid ← load64 (skb_head pkt) (skb_data pkt + 28 + 8);
  st ← rx_log uid now st;
  st ← rx_find_slot rx_fuel 0 (current_index st) pkt st;
  Ok (RX_HANDLER_PASS, st).

(** * read *)

(** [while (copied_pkts < PKTS_PER_BUFFER && try < MAX_PKT) { ... }]:
    gives [buff_temp], [copied_index] and [copied_pkts]. *)
Fixpoint read_scan (fuel : nat) (st : km) (temp : list byte)
    (copied_index : list Z) (copied_pkts ci try : Z)
    : res (list byte * list Z * Z) :=
  match fuel with
  | O => Err OutOfFuel
  | S fuel =>
      if (copied_pkts <? PKTS_PER_BUFFER) && (try <? MAX_PKT) then
        s ← aget (status st) ci;
        let next := u32 (ci + 1) mod MAX_PKT in
        if negb (s =? 0) then
          src ← mread (buff_from_here st) (ci * PKT_BUFFER_SIZE) PKT_BUFFER_SIZE;
          temp ← mwrite temp (copied_pkts * PKT_BUFFER_SIZE) src;
          copied_index ← aset copied_index copied_pkts (s32 ci);
          read_scan fuel st temp copied_index (copied_pkts + 1) next (try + 1)
        else read_scan fuel st temp copied_index copied_pkts next (try + 1)
      else Ok (temp, copied_index, copied_pkts)
  end.

Definition read_fuel : nat := S (Z.to_nat MAX_PKT).

(** "Copy success. Clean up the KM buffer slot(s)". *)
Fixpoint read_cleanup (copied_index : list Z) (st : km) : res km :=
  match copied_index with
  | [] => Ok st
  | ix :: rest =>
      if negb (ix =? -1) then
        buff ← mwrite (buff_from_here st) (ix * PKT_BUFFER_SIZE)
                 (replicate (Z.to_nat PKT_BUFFER_SIZE) Byte.x00);
        stat ← aset (status st) ix 0;
        read_cleanup rest (set_cache st buff (current_index st) stat)
      else read_cleanup rest st
  end.

Definition EFAULT : Z := 14.

(** What a call of [read] gives: the value it returns, the value of its
    local [ret] at that point, and the [BUFFER_SIZE] bytes stored at the
    caller's [buf] (if they were). *)
Record read_result := mk_read_result {
  rd_returned : Z;
  rd_ret : Z;
  rd_user : option (list byte)
}.

(** [copy_to_user] is the kernel's: it gives the number of bytes it could
    not copy. *)
Definition read (copy_to_user : list byte -> Z) (len off : Z) (st : km)
    : res (read_result * km) :=
  if BUFFER_SIZE <=? u64 off then
    Ok (mk_read_result BUFFER_SIZE 0 None, st)
  else
    let ret := Z.min len (u64 (BUFFER_SIZE - u64 off)) in
    temp ← mwrite (buff_temp st) 0
             (replicate (Z.to_nat BUFFER_SIZE) Byte.x00);
    '(temp, copied_index, copied_pkts) ←
      read_scan read_fuel st temp
        (replicate (Z.to_nat PKTS_PER_BUFFER) (-1)) 0 (current_index st) 0;
    let st := set_temp st temp in
    if negb (copy_to_user temp =? 0) then
      Ok (mk_read_result BUFFER_SIZE (- EFAULT) None, st)
    else
      st ← read_cleanup copied_index st;
      Ok (mk_read_result BUFFER_SIZE ret (Some temp), st).
