(* ===== verification/KmRing.v ===== *)
(** The packet cache of the kernel module as a ring: the order in which
    the code visits slots, what the search and the drain loops compute,
    and the invariant of the module's state. *)
From S2P Require Import Prelude CommonH KernelModule.
#[local] Open Scope Z_scope.

(** * The invariant of the module's state *)

Record km_ok (st : km) : Prop := mk_km_ok {
  ok_buff : zlen (buff_from_here st) = MAX_PKT * PKT_BUFFER_SIZE;
  ok_temp : zlen (buff_temp st) = BUFFER_SIZE;
  ok_stat : zlen (status st) = MAX_PKT;
  ok_cur : 0 <= current_index st < MAX_PKT;
  ok_log : log_ok (log_buffs st)
}.

Ltac km_consts :=
  change PKT_BUFFER_SIZE with 128 in *; change MAX_PKT with 200 in *;
  change BUFFER_SIZE with 4096 in *; change PKTS_PER_BUFFER with 32 in *;
  change KM_FIND_BUFF_SLOT_MAX_TRY with 200 in *.

(** * The ring order *)

(** The slots the loops of the module visit from [c], in order. *)
Fixpoint ring_from (c : Z) (n : nat) : list Z :=
  match n with
  | O => []
  | S n => c :: ring_from ((c + 1) mod MAX_PKT) n
  end.

Lemma next_slot c : 0 <= c < MAX_PKT -> u32 (c + 1) mod MAX_PKT = (c + 1) mod MAX_PKT.
Proof. km_consts. intros. rewrite u32_small; lia. Qed.

Lemma next_slot_range c : 0 <= (c + 1) mod MAX_PKT < MAX_PKT.
Proof. km_consts. lia. Qed.
#[export] Hint Resolve next_slot_range : cmem.

Lemma length_ring c n : length (ring_from c n) = n.
Proof. revert c; induction n; intros; simpl; auto. Qed.

Lemma lookup_ring c n (k : nat) :
  0 <= c < MAX_PKT -> (k < n)%nat ->
  ring_from c n !! k = Some ((c + Z.of_nat k) mod MAX_PKT).
Proof.
  revert c k. induction n as [|n IH]; intros c k Hc Hk; [lia|].
  destruct k as [|k]; simpl.
  - f_equal. km_consts. lia.
  - rewrite IH by (auto with cmem; lia). f_equal. km_consts. lia.
Qed.

Lemma elem_of_ring c n i :
  0 <= c < MAX_PKT ->
  i ∈ ring_from c n <->
  exists k : nat, (k < n)%nat /\ i = (c + Z.of_nat k) mod MAX_PKT.
Proof.
  intros Hc. rewrite list_elem_of_lookup. split.
  - intros [k Hk]. assert (k < n)%nat.
    { apply lookup_lt_Some in Hk. rewrite length_ring in Hk. exact Hk. }
    rewrite lookup_ring in Hk by auto. exists k. naive_solver.
  - intros (k & Hk & ->). exists k. apply lookup_ring; auto.
Qed.

(** A full turn of the ring visits every slot, once. *)
Lemma ring_range c n i :
  0 <= c < MAX_PKT -> i ∈ ring_from c n -> 0 <= i < MAX_PKT.
Proof. intros Hc. rewrite elem_of_ring by exact Hc. intros (k & _ & ->). km_consts. lia. Qed.

Lemma ring_NoDup c n :
  0 <= c < MAX_PKT -> Z.of_nat n <= MAX_PKT -> NoDup (ring_from c n).
Proof.
  intros Hc Hn. apply NoDup_alt. intros i j x Hi Hj.
  pose proof (lookup_lt_Some _ _ _ Hi) as Hi'.
  pose proof (lookup_lt_Some _ _ _ Hj) as Hj'.
  rewrite length_ring in *. rewrite lookup_ring in Hi, Hj by auto.
  simplify_eq. km_consts. lia.
Qed.

Lemma ring_complete c i :
  0 <= c < MAX_PKT -> 0 <= i < MAX_PKT ->
  i ∈ ring_from c (Z.to_nat MAX_PKT).
Proof.
  intros Hc Hi. apply elem_of_ring; [exact Hc|].
  exists (Z.to_nat ((i - c) mod MAX_PKT)). km_consts. lia.
Qed.

Lemma ring_snoc c n :
  0 <= c < MAX_PKT ->
  ring_from c (S n) = ring_from c n ++ [(c + Z.of_nat n) mod MAX_PKT].
Proof.
  revert c. induction n as [|n IH]; intros c Hc.
  - simpl. f_equal. km_consts. lia.
  - change (ring_from c (S (S n))) with
      (c :: ring_from ((c + 1) mod MAX_PKT) (S n)).
    rewrite IH by auto with cmem. simpl. do 3 f_equal. km_consts. lia.
Qed.

(** * Slots, busy slots, pending packets *)

Definition slot (buff : list byte) (i : Z) : list byte :=
  window buff (i * PKT_BUFFER_SIZE) PKT_BUFFER_SIZE.

Definition busy (stat : list Z) (i : Z) : bool :=
  match stat !! Z.to_nat i with Some s => negb (s =? 0) | None => false end.

(** The busy slots in the order [read] finds them, and the packets they
    hold. *)
Definition busy_slots (st : km) : list Z :=
  filter (fun i => busy (status st) i = true)
    (ring_from (current_index st) (Z.to_nat MAX_PKT)).
Definition pending (st : km) : list (list byte) :=
  slot (buff_from_here st) <$> busy_slots st.

(** The first free slot in the order the receive handler looks. *)
Definition free_slots (st : km) (c : Z) (n : nat) : list Z :=
  filter (fun i => busy (status st) i = false) (ring_from c n).

Lemma aget_status st i :
  km_ok st -> 0 <= i < MAX_PKT ->
  exists s, aget (status st) i = Ok s /\ busy (status st) i = negb (s =? 0).
Proof.
  intros Hok Hi. destruct (aget_in (status st) i) as [s Hs].
  { rewrite (ok_stat _ Hok). exact Hi. }
  exists s. split; [exact Hs|]. apply aget_Ok in Hs as [_ Hs].
  unfold busy. rewrite Hs. reflexivity.
Qed.

Lemma busy_insert stat i j x :
  0 <= i < zlen stat -> 0 <= j ->
  busy (<[Z.to_nat i := x]> stat) j =
  if decide (i = j) then negb (x =? 0) else busy stat j.
Proof.
  intros Hi Hj. unfold busy, zlen in *. case_decide as Hij.
  - subst j. rewrite list_lookup_insert_eq by lia. reflexivity.
  - rewrite list_lookup_insert_ne by lia. reflexivity.
Qed.

Lemma length_slot buff i :
  zlen buff = MAX_PKT * PKT_BUFFER_SIZE -> 0 <= i < MAX_PKT ->
  length (slot buff i) = Z.to_nat PKT_BUFFER_SIZE.
Proof. intros. apply length_window. km_consts. blia. Qed.

Lemma slot_mread buff i :
  zlen buff = MAX_PKT * PKT_BUFFER_SIZE -> 0 <= i < MAX_PKT ->
  mread buff (i * PKT_BUFFER_SIZE) PKT_BUFFER_SIZE = Ok (slot buff i).
Proof. intros. apply mread_window. km_consts. blia. Qed.

Lemma busy_slots_range st i :
  km_ok st -> i ∈ busy_slots st -> 0 <= i < MAX_PKT /\ busy (status st) i = true.
Proof.
  intros Hok [Hb Hi]%list_elem_of_filter. split; [|exact Hb].
  eapply ring_range; [apply (ok_cur _ Hok) | exact Hi].
Qed.

Lemma busy_slots_NoDup st : km_ok st -> NoDup (busy_slots st).
Proof.
  intros Hok. apply NoDup_filter, ring_NoDup; [apply (ok_cur _ Hok)|].
  km_consts. lia.
Qed.

Lemma busy_slots_le st : (length (busy_slots st) <= Z.to_nat MAX_PKT)%nat.
Proof.
  unfold busy_slots. etransitivity; [apply length_filter|].
  rewrite length_ring. reflexivity.
Qed.

(** * The receive handler's search *)

(** The loop writes to the first free slot it meets; when it meets none it
    counts one overflow and leaves the cache alone. [n] slots are left to
    try. *)
Lemma rx_find_slot_spec pkt st (n : nat) : forall fuel try wi,
  km_ok st -> (n < fuel)%nat -> 0 <= wi < MAX_PKT -> 0 <= try ->
  (0 < n)%nat -> try + Z.of_nat n = KM_FIND_BUFF_SLOT_MAX_TRY ->
  rx_find_slot fuel try wi pkt st =
  match free_slots st wi n with
  | i :: _ => rx_write_slot pkt i st
  | [] => Ok (set_counts st (count_pkt st) (u64 (count_pkt_overflow st + 1)))
  end.
Proof.
  induction n as [|n IH]; intros fuel try wi Hok Hf Hwi Ht Hn Htry; [lia|].
  destruct fuel as [|fuel]; [lia|]. cbn [rx_find_slot].
  replace (try <? KM_FIND_BUFF_SLOT_MAX_TRY) with true by (km_consts; lia).
  destruct (aget_status st wi Hok Hwi) as (s & -> & Hb). rewrite bind_Ok.
  unfold free_slots. cbn [ring_from].
  destruct (Z.eqb_spec s 0) as [Hs|Hs]; simpl in Hb.
  - rewrite filter_cons_True by exact Hb. reflexivity.
  - rewrite filter_cons_False by (rewrite Hb; discriminate).
    rewrite next_slot by exact Hwi. rewrite (u32_small (try + 1)) by (km_consts; lia).
    destruct n as [|n].
    + replace (try + 1 =? KM_FIND_BUFF_SLOT_MAX_TRY) with true by (km_consts; lia).
      destruct fuel as [|fuel]; [lia|]. cbn [rx_find_slot].
      replace (try + 1 <? KM_FIND_BUFF_SLOT_MAX_TRY) with false by (km_consts; lia).
      reflexivity.
    + replace (try + 1 =? KM_FIND_BUFF_SLOT_MAX_TRY) with false by (km_consts; lia).
      apply IH; auto with cmem; lia.
Qed.

(** * The drain loops *)

(** A prefix of a block rewritten, the rest kept. *)
Definition splice {A} (l : list A) (off : Z) (xs : list A) : list A :=
  take (Z.to_nat off) l ++ xs ++ drop (Z.to_nat off + length xs) l.

Lemma splice_nil {A} (l : list A) off : splice l off [] = l.
Proof. unfold splice. simpl. rewrite Nat.add_0_r. apply take_drop. Qed.

Lemma splice_splice {A} (l xs ys : list A) off :
  0 <= off -> off + zlen xs <= zlen l ->
  splice (splice l off xs) (off + zlen xs) ys = splice l off (xs ++ ys).
Proof.
  intros Ho Hl. unfold splice, zlen in *.
  replace (Z.to_nat (off + Z.of_nat (length xs)))
    with (Z.to_nat off + length xs)%nat by lia.
  set (n := Z.to_nat off). assert (n <= length l)%nat by lia.
  assert (length (take n l ++ xs) = n + length xs)%nat as Hlen
    by (rewrite length_app, length_take; lia).
  rewrite (app_assoc (take n l) xs).
  rewrite (take_app_length' (take n l ++ xs)) by lia.
  rewrite (drop_app_ge (take n l ++ xs)) by lia.
  rewrite Hlen, drop_drop, length_app, <- !app_assoc. do 4 f_equal. lia.
Qed.

Lemma mwrite_splice m off bs :
  in_block m off (zlen bs) -> mwrite m off bs = Ok (splice m off bs).
Proof. apply mwrite_Ok. Qed.

Lemma aset_splice {A} (l : list A) i x :
  0 <= i < zlen l -> aset l i x = Ok (splice l i [x]).
Proof.
  intros Hi. rewrite aset_Ok by exact Hi. f_equal. unfold splice, zlen in *.
  rewrite insert_take_drop by lia. simpl. do 3 f_equal. lia.
Qed.

Lemma zlen_splice {A} (l xs : list A) off :
  0 <= off -> off + zlen xs <= zlen l -> zlen (splice l off xs) = zlen l.
Proof.
  unfold splice, zlen. intros.
  rewrite !length_app, length_take, length_drop. lia.
Qed.

Definition slots_bytes (buff : list byte) (ixs : list Z) : list byte :=
  mjoin (slot buff <$> ixs).

Lemma zlen_slots_bytes buff ixs :
  zlen buff = MAX_PKT * PKT_BUFFER_SIZE -> Forall (fun i => 0 <= i < MAX_PKT) ixs ->
  zlen (slots_bytes buff ixs) = zlen ixs * PKT_BUFFER_SIZE.
Proof.
  intros Hb. induction 1 as [|i ixs Hi _ IH]; [reflexivity|].
  unfold slots_bytes in *. rewrite fmap_cons. cbn [mjoin list_join].
  rewrite zlen_app. unfold slots_bytes in IH. etransitivity; [apply f_equal, IH|].
  unfold zlen. rewrite length_slot by auto. km_consts. simpl length. lia.
Qed.

(** The scan copies the first busy slots it meets into [temp], records
    their indices, and stops after [PKTS_PER_BUFFER] of them. [n] slots
    are left to visit. *)
Lemma read_scan_spec st (n : nat) : forall fuel temp idx copied ci try,
  km_ok st -> (n < fuel)%nat -> 0 <= ci < MAX_PKT -> 0 <= try ->
  try + Z.of_nat n = MAX_PKT -> 0 <= copied <= PKTS_PER_BUFFER ->
  zlen temp = BUFFER_SIZE -> zlen idx = PKTS_PER_BUFFER ->
  let P := take (Z.to_nat (PKTS_PER_BUFFER - copied))
             (filter (fun i => busy (status st) i = true) (ring_from ci n)) in
  read_scan fuel st temp idx copied ci try =
  Ok (splice temp (copied * PKT_BUFFER_SIZE) (slots_bytes (buff_from_here st) P),
      splice idx copied P, copied + zlen P).
Proof.
  induction n as [|n IH]; intros fuel temp idx copied ci try Hok Hf Hci Ht Htry
    Hc Htemp Hidx; (destruct fuel as [|fuel]; [lia|]).
  - cbn [ring_from read_scan]. rewrite filter_nil, take_nil.
    replace (try <? MAX_PKT) with false by lia. rewrite andb_false_r.
    unfold slots_bytes. simpl. rewrite !splice_nil. unfold zlen.
    rewrite Z.add_0_r. reflexivity.
  - cbn [read_scan]. replace (try <? MAX_PKT) with true by lia.
    rewrite andb_true_r. destruct (Z.ltb_spec copied PKTS_PER_BUFFER) as [Hlt|Hge].
    2:{ replace (Z.to_nat (PKTS_PER_BUFFER - copied)) with O by lia.
        rewrite take_0. unfold slots_bytes. simpl. rewrite !splice_nil.
        unfold zlen. rewrite Z.add_0_r. reflexivity. }
    destruct (aget_status st ci Hok Hci) as (s & -> & Hb). rewrite bind_Ok.
    rewrite next_slot by exact Hci. cbn [ring_from].
    destruct (negb (s =? 0)).
    + rewrite filter_cons_True by exact Hb.
      rewrite slot_mread by (auto using ok_buff). rewrite bind_Ok.
      pose proof (length_slot _ _ (ok_buff _ Hok) Hci) as Hslot.
      assert (zlen (slot (buff_from_here st) ci) = 128) as Hslot'.
      { unfold zlen. rewrite Hslot. reflexivity. }
      rewrite mwrite_splice, bind_Ok by (km_consts; blia).
      rewrite s32_small by (km_consts; lia).
      rewrite aset_splice, bind_Ok by lia.
      rewrite IH; [|km_consts; try lia; auto with cmem ..].
      2,3: rewrite zlen_splice; try lia; rewrite ?Hslot'; change (zlen [ci]) with 1; lia.
      replace (Z.to_nat (PKTS_PER_BUFFER - copied))
        with (S (Z.to_nat (PKTS_PER_BUFFER - (copied + 1)))) by lia.
      rewrite firstn_cons. unfold slots_bytes. rewrite fmap_cons. cbn [mjoin list_join].
      replace ((copied + 1) * PKT_BUFFER_SIZE) with
        (copied * PKT_BUFFER_SIZE + zlen (slot (buff_from_here st) ci))
        by (km_consts; lia).
      rewrite splice_splice by (km_consts; lia).
      replace (copied + 1) with (copied + zlen [ci]) by reflexivity.
      rewrite splice_splice by (change (zlen [ci]) with 1; lia).
      cbn [app]. do 2 f_equal. unfold zlen. simpl length. lia.
    + rewrite filter_cons_False by (rewrite Hb; discriminate).
      apply IH; auto with cmem; lia.
Qed.

Definition zero_slot : list byte := replicate (Z.to_nat PKT_BUFFER_SIZE) Byte.x00.

Lemma slot_mwrite buff buff' i j :
  zlen buff = MAX_PKT * PKT_BUFFER_SIZE ->
  0 <= i < MAX_PKT -> 0 <= j < MAX_PKT ->
  mwrite buff (i * PKT_BUFFER_SIZE) zero_slot = Ok buff' ->
  slot buff' j = if decide (i = j) then zero_slot else slot buff j.
Proof.
  intros Hb Hi Hj Hw. unfold slot.
  assert (zlen zero_slot = 128) as Hz by reflexivity.
  case_decide as Hij.
  - subst j. rewrite (window_mwrite_at _ _ _ _ _ Hw) by (km_consts; lia).
    rewrite Hz. unfold window. km_consts. reflexivity.
  - apply (window_mwrite_disjoint _ _ _ _ _ _ Hw); rewrite ?Hz; km_consts; lia.
Qed.

(** Cleaning up the slots [ixs]: they become free and zero, the others are
    untouched. *)
Lemma read_cleanup_spec ixs : forall st (m : nat),
  km_ok st -> Forall (fun i => 0 <= i < MAX_PKT) ixs ->
  exists st', read_cleanup (ixs ++ replicate m (-1)) st = Ok st' /\
    km_ok st' /\ current_index st' = current_index st /\
    log_buffs st' = log_buffs st /\ buff_temp st' = buff_temp st /\
    count_pkt st' = count_pkt st /\
    count_pkt_overflow st' = count_pkt_overflow st /\
    forall j, 0 <= j < MAX_PKT ->
      busy (status st') j = (if decide (j ∈ ixs) then false else busy (status st) j) /\
      slot (buff_from_here st') j =
        (if decide (j ∈ ixs) then zero_slot else slot (buff_from_here st) j).
Proof.
  induction ixs as [|i ixs IH]; intros st m Hok His.
  - exists st. split.
    { induction m as [|m IHm]; [reflexivity|]. exact IHm. }
    do 6 (split; [try reflexivity; exact Hok|]). intros j Hj.
    rewrite !decide_False by apply not_elem_of_nil. auto.
  - apply Forall_cons in His as [Hi His]. cbn [app read_cleanup].
    replace (i =? -1) with false by lia. cbn [negb].
    destruct (mwrite (buff_from_here st) (i * PKT_BUFFER_SIZE) zero_slot)
      as [buff|] eqn:Hw.
    2:{ rewrite mwrite_Ok in Hw; [discriminate|]. pose proof (ok_buff _ Hok).
        change (zlen zero_slot) with 128. km_consts. blia. }
    fold zero_slot. rewrite Hw, bind_Ok.
    pose proof (ok_stat _ Hok) as Hst. rewrite aset_Ok, bind_Ok by lia.
    destruct (IH (set_cache st buff (current_index st)
                    (<[Z.to_nat i:=0]> (status st))) m)
      as (st' & -> & Hok' & Hc & Hl & Ht & Hn & Ho & Hj); [|exact His|].
    { destruct Hok. split; simpl; auto.
      - rewrite (zlen_mwrite _ _ _ _ Hw). auto.
      - unfold zlen in *. rewrite length_insert. auto. }
    exists st'. simpl in Hc, Hl, Ht, Hn, Ho.
    do 7 (split; [solve [reflexivity | assumption]|]).
    intros j Hjr. destruct (Hj j Hjr) as [-> ->]. simpl.
    rewrite busy_insert by lia.
    rewrite (slot_mwrite _ _ i j (ok_buff _ Hok) Hi Hjr Hw).
    destruct (decide (j ∈ ixs)) as [Hin|Hin].
    + rewrite !(decide_True (P := j ∈ i :: ixs)) by (right; exact Hin). auto.
    + destruct (decide (i = j)) as [->|Hne].
      * rewrite !(decide_True (P := j ∈ j :: ixs)) by left. auto.
      * rewrite !(decide_False (P := j ∈ i :: ixs)); [auto|set_solver..].
Qed.
