(* ===== verification/KmFifo.v ===== *)
(** The kernel module's cache refines a bounded FIFO queue: what one
    receive-handler call and one [read] do to the queue of pending
    packets, and the simulation over whole runs. *)
From S2P Require Import Prelude CommonH KernelModule KmRing.
#[local] Open Scope Z_scope.

(** * The specification: a bounded queue of packets *)

Module Fifo.
Abbreviation queue := (list (list byte)).

(** A packet that finds the queue full is discarded. *)
Definition push (q : queue) (p : list byte) : queue :=
  if zlen q <? MAX_PKT then q ++ [p] else q.

(** One [read] takes up to [PKTS_PER_BUFFER] packets, oldest first. *)
Definition pop (q : queue) : queue * queue :=
  (take (Z.to_nat PKTS_PER_BUFFER) q, drop (Z.to_nat PKTS_PER_BUFFER) q).

(** The bytes of a 128-byte cell that holds packet [p]: its first bytes
    are the packet's. *)
Definition cell_of (cell p : list byte) : Prop :=
  take (Z.to_nat PKT_BUFFER_SIZE) p `prefix_of` cell.

(** What an observer of the module sees: a packet comes in (one the
    module ignores, or one with a payload), or a [read] delivers a
    buffer (or fails). *)
Inductive obs :=
| ORx (p : option (list byte))
| ORead (delivered : option (list byte)).

Inductive step : queue -> obs -> queue -> Prop :=
| step_ignore q : step q (ORx None) q
| step_push q p : step q (ORx (Some p)) (push q p)
| step_fail q : step q (ORead None) q
| step_pop q cells rest :
    Forall2 cell_of cells (fst (pop q)) ->
    step q (ORead (Some (mjoin cells ++ rest))) (snd (pop q)).

(** The packets that came in, and those handed out, along a run. *)
Inductive run : queue -> list obs -> list (list byte) -> list (list byte)
    -> queue -> Prop :=
| run_nil q : run q [] [] [] q
| run_rx_none q tr i o q' : run q tr i o q' -> run q (ORx None :: tr) i o q'
| run_rx q p tr i o q' :
    run (push q p) tr i o q' -> run q (ORx (Some p) :: tr) (p :: i) o q'
| run_fail q tr i o q' : run q tr i o q' -> run q (ORead None :: tr) i o q'
| run_read q cells rest tr i o q' :
    Forall2 cell_of cells (fst (pop q)) ->
    run (snd (pop q)) tr i o q' ->
    run q (ORead (Some (mjoin cells ++ rest)) :: tr) i (fst (pop q) ++ o) q'.

(** Nothing is reordered, duplicated or made up: what was handed out and
    what is still queued is a subsequence of what came in. *)
Lemma run_sublist q tr i o q' :
  run q tr i o q' -> o ++ q' `sublist_of` q ++ i.
Proof.
  induction 1 as [q|q tr i o q' _ IH|q p tr i o q' _ IH|q tr i o q' _ IH
    |q cells rest tr i o q' _ _ IH]; auto.
  - rewrite app_nil_r. reflexivity.
  - etransitivity; [exact IH|]. unfold push. case_match.
    + rewrite <- app_assoc. reflexivity.
    + apply sublist_app; [reflexivity|]. apply sublist_cons. reflexivity.
  - simpl in *. rewrite <- app_assoc.
    rewrite <- (take_drop (Z.to_nat PKTS_PER_BUFFER) q) at 2.
    rewrite <- app_assoc. apply sublist_app; [reflexivity | exact IH].
Qed.
End Fifo.

(** * What the handler makes of a packet *)

(** [skb_kind pkt None]: the handler passes the packet on untouched.
    [skb_kind pkt (Some p)]: it is a measurement packet with UDP payload
    [p], all of which lies in the buffer. *)
Inductive skb_kind (pkt : sk_buff) : option (list byte) -> Prop :=
| skb_not_ipv4 b0 :
    load8 (skb_head pkt) (network_header pkt) = Ok b0 ->
    Z.shiftr b0 4 <> 4 -> skb_kind pkt None
| skb_not_udp b0 pr :
    load8 (skb_head pkt) (network_header pkt) = Ok b0 -> Z.shiftr b0 4 = 4 ->
    load8 (skb_head pkt) (network_header pkt + 9) = Ok pr ->
    pr <> 17 -> skb_kind pkt None
| skb_other_port b0 dest :
    load8 (skb_head pkt) (network_header pkt) = Ok b0 -> Z.shiftr b0 4 = 4 ->
    load8 (skb_head pkt) (network_header pkt + 9) = Ok 17 ->
    load16 (skb_head pkt) (transport_header pkt + 2) = Ok dest ->
    bswap16 dest <> DEST_PORT -> skb_kind pkt None
| skb_measure b0 dest len p :
    load8 (skb_head pkt) (network_header pkt) = Ok b0 -> Z.shiftr b0 4 = 4 ->
    load8 (skb_head pkt) (network_header pkt + 9) = Ok 17 ->
    load16 (skb_head pkt) (transport_header pkt + 2) = Ok dest ->
    bswap16 dest = DEST_PORT ->
    load16 (skb_head pkt) (transport_header pkt + 4) = Ok len ->
    mread (skb_head pkt) (skb_data pkt + 28) (u32 (bswap16 len - 8)) = Ok p ->
    16 <= zlen p -> skb_kind pkt (Some p).

(** The time-stamp log after a packet with this uid. *)
Definition log_after (uid now : Z) (l : list Z) : list Z :=
  if uid <? MAX_LOG_ENTRY then <[Z.to_nat uid := now]> l else l.

Lemma field_nonneg m i : 0 <= field m i.
Proof. unfold field. apply le_val_range. Qed.

Lemma rx_log_spec st u now :
  km_ok st -> 0 <= u ->
  exists st', rx_log u now st = Ok st' /\ km_ok st' /\
    buff_from_here st' = buff_from_here st /\ status st' = status st /\
    current_index st' = current_index st /\ count_pkt st' = count_pkt st /\
    count_pkt_overflow st' = count_pkt_overflow st /\
    log_flat (log_buffs st') = log_after u now (log_flat (log_buffs st)).
Proof.
  intros Hok Hu. unfold rx_log, log_after.
  replace (0 <=? u) with true by lia. rewrite andb_true_r.
  destruct (Z.ltb_spec u MAX_LOG_ENTRY) as [Hlt|]; [|exists st; auto 10].
  rewrite u32_small by (rewrite MAX_LOG_ENTRY_eq, MAX_ENTRIES_PER_LOG_BUFF_eq in *; lia).
  destruct (log_store_flat _ (ok_log _ Hok) u now) as (lb & -> & Hlb & Hfl); [lia|].
  rewrite bind_Ok. exists (set_log st lb). simpl.
  split; [reflexivity|]. split; [destruct Hok; split; auto|]. auto 10.
Qed.

(** The handler on a measurement packet: count it, log it, then search a
    slot for it. *)
Lemma rx_measure_spec pkt p now st :
  km_ok st -> skb_kind pkt (Some p) ->
  exists st1, km_ok st1 /\
    buff_from_here st1 = buff_from_here st /\ status st1 = status st /\
    current_index st1 = current_index st /\
    count_pkt st1 = u64 (count_pkt st + 1) /\
    count_pkt_overflow st1 = count_pkt_overflow st /\
    log_flat (log_buffs st1) =
      log_after (field p 1) now (log_flat (log_buffs st)) /\
    rxhPacketIn pkt now st =
      (st2 ← match free_slots st (current_index st) (Z.to_nat MAX_PKT) with
             | i :: _ => rx_write_slot pkt i st1
             | [] => Ok (set_counts st1 (count_pkt st1)
                           (u64 (count_pkt_overflow st1 + 1)))
             end; Ok (RX_HANDLER_PASS, st2)).
Proof.
  intros Hok Hk. inversion Hk as [| | |b0 dest len p' Hb0 Hv Hpr Hd Hport Hlen Hp H16];
    subst p'.
  set (st0 := set_counts st (u64 (count_pkt st + 1)) (count_pkt_overflow st)).
  destruct (rx_log_spec st0 (field p 1) now) as (st1 & Hlog & Hok1 & Hb & Hs & Hc
    & Hn & Ho & Hl); [destruct Hok; split; auto | apply field_nonneg |].
  exists st1. do 7 (split; [assumption|]).
  unfold rxhPacketIn. rewrite Hb0, bind_Ok, Hv. cbn [negb Z.eqb Pos.eqb].
  rewrite Hpr, bind_Ok. cbn [negb Z.eqb Pos.eqb].
  rewrite Hd, bind_Ok, Hport. change (negb (DEST_PORT =? 8080)) with false.
  cbn match. fold st0.
  unfold load64. pose proof (zlen_mread _ _ _ _ Hp) as Hlp.
  rewrite (mread_sub _ _ _ _ 8 8 Hp) by lia. rewrite !bind_Ok.
  change (le_val _) with (field p 1). rewrite Hlog, bind_Ok.
  assert (0 <= current_index st1 < MAX_PKT) as Hcur by apply (ok_cur _ Hok1).
  rewrite (rx_find_slot_spec pkt st1 (Z.to_nat MAX_PKT));
    try (unfold rx_fuel; km_consts; lia); [|exact Hok1].
  unfold free_slots. rewrite Hs, Hc. reflexivity.
Qed.

Lemma rx_ignored pkt now st :
  skb_kind pkt None -> rxhPacketIn pkt now st = Ok (RX_HANDLER_PASS, st).
Proof.
  unfold rxhPacketIn. inversion 1 as [b0 Hb0 Hv|b0 pr Hb0 Hv Hpr H17
    |b0 dest Hb0 Hv Hpr Hd Hport|]; rewrite Hb0, bind_Ok.
  - rewrite (proj2 (Z.eqb_neq _ _) Hv). reflexivity.
  - rewrite Hv, Hpr, bind_Ok, (proj2 (Z.eqb_neq _ _) H17). reflexivity.
  - rewrite Hv, Hpr, Hd, !bind_Ok. change (negb (4 =? 4)) with false.
    change (negb (17 =? 17)) with false. cbn match. change 8080 with DEST_PORT.
    rewrite (proj2 (Z.eqb_neq _ _) Hport). reflexivity.
Qed.

(** * The FIFO invariant *)

(** From [current_index] on, first the free slots, then the busy ones. *)
Definition fifo_at (st : km) (n : nat) : Prop :=
  (n <= Z.to_nat MAX_PKT)%nat /\
  forall k : nat, (k < Z.to_nat MAX_PKT)%nat ->
    busy (status st) ((current_index st + Z.of_nat k) mod MAX_PKT) =
    bool_decide (n <= k)%nat.

Definition fifo_ok (st : km) : Prop := exists n, fifo_at st n.

Lemma fifo_busy_slots st n :
  km_ok st -> fifo_at st n ->
  busy_slots st = drop n (ring_from (current_index st) (Z.to_nat MAX_PKT)).
Proof.
  intros Hok [Hn H]. apply filter_suffix. intros k x Hk.
  assert (k < Z.to_nat MAX_PKT)%nat as Hlt.
  { apply lookup_lt_Some in Hk. rewrite length_ring in Hk. exact Hk. }
  rewrite lookup_ring in Hk by auto using ok_cur. injection Hk as <-.
  rewrite H by exact Hlt. apply bool_decide_eq_true.
Qed.

Lemma fifo_pending_length st n :
  km_ok st -> fifo_at st n -> length (pending st) = (Z.to_nat MAX_PKT - n)%nat.
Proof.
  intros Hok Hf. unfold pending. rewrite length_fmap.
  rewrite (fifo_busy_slots _ _ Hok Hf), length_drop, length_ring. reflexivity.
Qed.

(** The slot at [current_index] is free unless the queue is full. *)
Lemma fifo_free_slots st n :
  km_ok st -> fifo_at st n ->
  match free_slots st (current_index st) (Z.to_nat MAX_PKT) with
  | i :: _ => i = current_index st /\ (0 < n)%nat
  | [] => n = O
  end.
Proof.
  intros Hok Hfa. pose proof Hfa as [Hn H]. unfold free_slots.
  pose proof (ok_cur _ Hok) as Hcur.
  destruct n as [|n].
  - replace (filter _ _) with (@nil Z); [reflexivity|].
    symmetry. apply filter_none.
    intros i Hi. apply elem_of_ring in Hi as (k & Hk & ->); [|exact Hcur].
    rewrite H by exact Hk. discriminate.
  - change (Z.to_nat MAX_PKT) with (S 199). cbn [ring_from].
    rewrite filter_cons_True; [split; [reflexivity | lia]|].
    specialize (H O). rewrite Z.add_0_r, Z.mod_small in H by exact Hcur.
    rewrite H by (km_consts; lia). reflexivity.
Qed.

(** * push *)

(** The bytes of [p] beyond its slot stay clear of busy slots. *)
Definition no_spill (st : km) (p : list byte) : Prop :=
  current_index st * PKT_BUFFER_SIZE + zlen p <= MAX_PKT * PKT_BUFFER_SIZE /\
  forall j, current_index st < j < MAX_PKT -> busy (status st) j = true ->
    current_index st * PKT_BUFFER_SIZE + zlen p <= j * PKT_BUFFER_SIZE.

Lemma no_spill_small st p :
  km_ok st -> zlen p <= PKT_BUFFER_SIZE -> no_spill st p.
Proof. intros Hok Hp. pose proof (ok_cur _ Hok). split; km_consts; [lia|]. lia. Qed.

Lemma rx_write_slot_Ok pkt p st i :
  km_ok st -> skb_kind pkt (Some p) -> 0 <= i < MAX_PKT ->
  rx_write_slot pkt i st =
  (buff ← mwrite (buff_from_here st) (i * PKT_BUFFER_SIZE) p;
   Ok (set_cache st buff ((i + 1) mod MAX_PKT) (<[Z.to_nat i := 1]> (status st)))).
Proof.
  intros Hok Hk Hi. inversion Hk as [| | |b0 dest len p' Hb0 Hv Hpr Hd Hport Hlen Hp H16];
    subst p'.
  unfold rx_write_slot. rewrite Hlen, bind_Ok, Hp, bind_Ok.
  destruct (mwrite _ _ _) as [buff|]; [|reflexivity]. rewrite !bind_Ok.
  rewrite aset_Ok by (rewrite (ok_stat _ Hok); exact Hi).
  rewrite bind_Ok, next_slot by exact Hi. reflexivity.
Qed.

Lemma fifo_push st st' p n :
  km_ok st -> fifo_at st (S n) -> no_spill st p ->
  mwrite (buff_from_here st) (current_index st * PKT_BUFFER_SIZE) p =
    Ok (buff_from_here st') ->
  current_index st' = (current_index st + 1) mod MAX_PKT ->
  status st' = <[Z.to_nat (current_index st) := 1]> (status st) ->
  log_ok (log_buffs st') -> zlen (buff_temp st') = BUFFER_SIZE ->
  km_ok st' /\ fifo_at st' n /\
  pending st' = pending st ++ [slot (buff_from_here st') (current_index st)] /\
  take (Z.to_nat PKT_BUFFER_SIZE) p `prefix_of`
    slot (buff_from_here st') (current_index st).
Proof.
  intros Hok Hf [_ Hns] Hw Hc Hs Hl Ht.
  pose proof (ok_cur _ Hok) as Hcur. pose proof (ok_stat _ Hok) as Hst.
  assert (km_ok st') as Hok'.
  { split; auto.
    - rewrite (zlen_mwrite _ _ _ _ Hw). apply (ok_buff _ Hok).
    - rewrite Hs. unfold zlen in *. rewrite length_insert. exact Hst.
    - rewrite Hc. apply next_slot_range. }
  assert (fifo_at st' n) as Hf'.
  { destruct Hf as [Hn Hf]. split; [lia|]. intros k Hk. rewrite Hs, Hc.
    rewrite busy_insert by (km_consts; lia). case_decide as Heq.
    - symmetry. apply bool_decide_eq_true. km_consts. lia.
    - replace (((current_index st + 1) mod MAX_PKT + Z.of_nat k) mod MAX_PKT)
        with ((current_index st + Z.of_nat (S k)) mod MAX_PKT) by (km_consts; lia).
      rewrite Hf by (km_consts; lia). apply bool_decide_ext. lia. }
  split; [exact Hok'|]. split; [exact Hf'|].
  assert (busy_slots st' = busy_slots st ++ [current_index st]) as Hbs.
  { rewrite (fifo_busy_slots _ _ Hok' Hf'), (fifo_busy_slots _ _ Hok Hf).
    change (Z.to_nat MAX_PKT) with (S 199) at 2. cbn [ring_from skipn drop].
    change (Z.to_nat MAX_PKT) with (S 199). rewrite ring_snoc by auto using ok_cur.
    rewrite Hc. destruct Hf' as [Hn _].
    assert (n <= 199)%nat by (destruct Hf as [? _]; km_consts; lia).
    rewrite drop_app_le by (rewrite length_ring; lia). do 2 f_equal.
    km_consts. lia. }
  split.
  - unfold pending. rewrite Hbs, fmap_app. f_equal.
    apply list_fmap_ext. intros m j Hj.
    assert (j ∈ busy_slots st) as Hin by (apply list_elem_of_lookup; eauto).
    destruct (busy_slots_range _ _ Hok Hin) as [Hjr Hjb].
    unfold slot. apply (window_mwrite_disjoint _ _ _ _ _ _ Hw); [km_consts; lia|].
    destruct (Z.lt_trichotomy j (current_index st)) as [Hlt|[Heq|Hgt]].
    + left. km_consts. lia.
    + exfalso. subst j. destruct Hf as [_ Hf]. specialize (Hf O).
      rewrite Z.add_0_r, Z.mod_small, Hjb in Hf by exact Hcur.
      specialize (Hf ltac:(km_consts; lia)). symmetry in Hf.
      apply bool_decide_eq_true in Hf. lia.
    + right. apply Hns; [lia | exact Hjb].
  - unfold slot. rewrite (window_mwrite_at _ _ _ _ _ Hw) by (km_consts; lia).
    apply prefix_app_r. reflexivity.
Qed.

(** * pop *)

(** The bytes one [read] delivers: up to [PKTS_PER_BUFFER] packets, the
    rest of the buffer zero. *)
Definition pad (n : Z) (l : list byte) : list byte :=
  l ++ replicate (Z.to_nat n - length l) Byte.x00.

Definition drained (st : km) : list byte :=
  pad BUFFER_SIZE (mjoin (take (Z.to_nat PKTS_PER_BUFFER) (pending st))).

Lemma take_busy_range st n :
  km_ok st -> Forall (fun i => 0 <= i < MAX_PKT) (take n (busy_slots st)).
Proof.
  intros Hok. apply Forall_take, Forall_forall. intros i Hi.
  eapply busy_slots_range; [exact Hok | exact Hi].
Qed.

Lemma zlen_drained st : km_ok st -> zlen (drained st) = BUFFER_SIZE.
Proof.
  intros Hok. unfold drained, pad. rewrite zlen_app, zlen_replicate.
  enough (zlen (mjoin (take (Z.to_nat PKTS_PER_BUFFER) (pending st))) <= 4096)
    by (unfold zlen in *; km_consts; lia).
  unfold pending. rewrite <- fmap_take.
  fold (slots_bytes (buff_from_here st)
          (take (Z.to_nat PKTS_PER_BUFFER) (busy_slots st))).
  rewrite (zlen_slots_bytes _ _ (ok_buff _ Hok) (take_busy_range _ _ Hok)).
  unfold zlen. rewrite length_take. km_consts. lia.
Qed.

Lemma splice_replicate {A} (x : A) n xs :
  splice (replicate n x) 0 xs = xs ++ replicate (n - length xs) x.
Proof. unfold splice. simpl. rewrite drop_replicate. reflexivity. Qed.

Lemma mwrite_all m bs : zlen bs = zlen m -> mwrite m 0 bs = Ok bs.
Proof.
  intros Hl. rewrite mwrite_Ok by (pose proof (zlen_nonneg m); blia).
  unfold zlen in Hl. rewrite drop_ge by lia. rewrite app_nil_r. reflexivity.
Qed.

(** The scan fills the buffer with exactly the drained bytes. *)
Lemma read_scan_drained st :
  km_ok st ->
  exists copied,
  (temp ← mwrite (buff_temp st) 0 (replicate (Z.to_nat BUFFER_SIZE) Byte.x00);
   read_scan read_fuel st temp (replicate (Z.to_nat PKTS_PER_BUFFER) (-1)) 0
     (current_index st) 0) =
  Ok (drained st,
      take (Z.to_nat PKTS_PER_BUFFER) (busy_slots st) ++
        replicate (Z.to_nat PKTS_PER_BUFFER -
          length (take (Z.to_nat PKTS_PER_BUFFER) (busy_slots st))) (-1),
      copied).
Proof.
  intros Hok. eexists.
  rewrite mwrite_all, bind_Ok
    by (rewrite (ok_temp _ Hok); apply zlen_replicate).
  rewrite (read_scan_spec st (Z.to_nat MAX_PKT));
    [|first [exact Hok | apply (ok_cur _ Hok) | unfold read_fuel; km_consts; lia
            | rewrite zlen_replicate; reflexivity] ..].
  rewrite Z.sub_0_r, Z.mul_0_l, !splice_replicate. fold (busy_slots st).
  unfold drained, pad, pending, slots_bytes. rewrite fmap_take. reflexivity.
Qed.

Lemma read_spec ctu len off st :
  km_ok st -> u64 off < BUFFER_SIZE ->
  let success := ctu (drained st) =? 0 in
  exists st',
    read ctu len off st =
      Ok (if success
          then mk_read_result BUFFER_SIZE
                 (Z.min len (u64 (BUFFER_SIZE - u64 off))) (Some (drained st))
          else mk_read_result BUFFER_SIZE (- EFAULT) None, st') /\
    km_ok st' /\ current_index st' = current_index st /\
    log_buffs st' = log_buffs st /\ count_pkt st' = count_pkt st /\
    count_pkt_overflow st' = count_pkt_overflow st /\
    (forall j, 0 <= j < MAX_PKT ->
       busy (status st') j =
       if decide (success = true /\
                  j ∈ take (Z.to_nat PKTS_PER_BUFFER) (busy_slots st))
       then false else busy (status st) j) /\
    pending st' = if success then drop (Z.to_nat PKTS_PER_BUFFER) (pending st)
                  else pending st.
Proof.
  intros Hok Hoff success. unfold read.
  replace (BUFFER_SIZE <=? u64 off) with false by lia.
  destruct (read_scan_drained st Hok) as [copied Hscan].
  apply bind_Ok_inv in Hscan as (temp & -> & Hscan).
  rewrite bind_Ok, Hscan, bind_Ok. fold success.
  set (P := take (Z.to_nat PKTS_PER_BUFFER) (busy_slots st)).
  assert (km_ok (set_temp st (drained st))) as Hok'.
  { pose proof (zlen_drained st Hok). destruct Hok; split; auto. }
  destruct success eqn:Hs; cbn [negb].
  2:{ exists (set_temp st (drained st)). split; [reflexivity|].
      do 5 (split; [auto|]). split; [|reflexivity]. intros j Hj.
      rewrite decide_False; [reflexivity|]. intros [? _]. discriminate. }
  destruct (read_cleanup_spec P (set_temp st (drained st))
              (Z.to_nat PKTS_PER_BUFFER - length P) Hok')
    as (st' & Hcl & Hok'' & Hc & Hl & _ & Hn & Ho & Hj).
  { apply take_busy_range, Hok. }
  exists st'. rewrite Hcl, bind_Ok. split; [reflexivity|].
  do 5 (split; [assumption|]).
  assert (forall j, 0 <= j < MAX_PKT -> busy (status st') j =
     if decide (j ∈ P) then false else busy (status st) j) as Hbusy.
  { intros j Hjr. apply (proj1 (Hj j Hjr)). }
  split.
  { intros j Hjr. rewrite Hbusy by exact Hjr. fold P. apply decide_ext.
    split; [auto | intros [_ ?]; assumption]. }
  pose proof (ok_cur _ Hok) as Hcur.
  assert (busy_slots st' = drop (Z.to_nat PKTS_PER_BUFFER) (busy_slots st)) as Hbs.
  { rewrite <- filter_not_in_take by (apply busy_slots_NoDup, Hok). fold P.
    unfold busy_slots at 1 2. rewrite list_filter_filter, Hc.
    apply filter_ext_in. intros i Hi.
    rewrite Hbusy by (eapply ring_range; [exact Hcur | exact Hi]).
    case_decide; [|tauto]. split; [discriminate | tauto]. }
  unfold pending. rewrite Hbs, <- fmap_drop. apply list_fmap_ext.
  intros m i Hi. assert (i ∈ drop (Z.to_nat PKTS_PER_BUFFER) (busy_slots st)) as Hin
    by (apply list_elem_of_lookup; eauto).
  destruct (busy_slots_range st i Hok) as [Hir _].
  { eapply elem_of_drop_in, Hin. }
  destruct (Hj i Hir) as [_ ->]. simpl. rewrite decide_False; [reflexivity|].
  apply elem_of_drop_not_take; [apply busy_slots_NoDup, Hok | exact Hin].
Qed.

Lemma fifo_read st st' n (success : bool) :
  km_ok st -> fifo_at st n -> current_index st' = current_index st ->
  (forall j, 0 <= j < MAX_PKT ->
     busy (status st') j =
     if decide (success = true /\
                j ∈ take (Z.to_nat PKTS_PER_BUFFER) (busy_slots st))
     then false else busy (status st) j) ->
  fifo_at st' (if success
               then Nat.min (Z.to_nat MAX_PKT) (n + Z.to_nat PKTS_PER_BUFFER)
               else n).
Proof.
  intros Hok Hfa Hc Hb. pose proof Hfa as [Hn Hf]. pose proof (ok_cur _ Hok).
  split; [destruct success; lia|]. intros k Hk.
  rewrite Hc, Hb by (km_consts; lia). rewrite Hf by exact Hk.
  assert ((current_index st + Z.of_nat k) mod MAX_PKT ∈
            take (Z.to_nat PKTS_PER_BUFFER) (busy_slots st) <->
          (n <= k < n + Z.to_nat PKTS_PER_BUFFER)%nat) as Hin.
  { rewrite (fifo_busy_slots _ _ Hok Hfa). apply elem_of_take_drop.
    - apply ring_NoDup; [assumption | km_consts; lia].
    - apply lookup_ring; assumption. }
  match goal with |- (if decide ?C then _ else _) = _ =>
    destruct (decide C) as [[Hs Hd]|Hd] end; rewrite Hin in Hd.
  - rewrite Hs. symmetry. apply bool_decide_eq_false. lia.
  - destruct success; [|reflexivity]. apply bool_decide_ext. split; [|lia].
    intros Hnk. enough (~ k < n + Z.to_nat PKTS_PER_BUFFER)%nat by lia.
    intros Hlt. apply Hd. auto with lia.
Qed.

(** * The refinement *)

(** The module's state [st] stands for the queue [q]. *)
Definition represents (st : km) (q : Fifo.queue) : Prop :=
  km_ok st /\ fifo_ok st /\ Forall2 Fifo.cell_of (pending st) q.

Lemma represents_length st q n :
  km_ok st -> fifo_at st n -> Forall2 Fifo.cell_of (pending st) q ->
  length q = (Z.to_nat MAX_PKT - n)%nat.
Proof.
  intros Hok Hf Hq. rewrite <- (Forall2_length _ _ _ Hq).
  apply fifo_pending_length; assumption.
Qed.

Lemma rx_push st q pkt p now :
  represents st q -> skb_kind pkt (Some p) ->
  (zlen q < MAX_PKT -> no_spill st p) ->
  exists st',
    rxhPacketIn pkt now st = Ok (RX_HANDLER_PASS, st') /\
    represents st' (Fifo.push q p) /\
    count_pkt st' = u64 (count_pkt st + 1) /\
    count_pkt_overflow st' =
      (if zlen q <? MAX_PKT then count_pkt_overflow st
       else u64 (count_pkt_overflow st + 1)) /\
    log_flat (log_buffs st') =
      log_after (field p 1) now (log_flat (log_buffs st)) /\
    current_index st' =
      (if zlen q <? MAX_PKT then (current_index st + 1) mod MAX_PKT
       else current_index st).
Proof.
  intros (Hok & [n Hf] & Hq) Hk Hns. unfold Fifo.push.
  pose proof (represents_length _ _ _ Hok Hf Hq) as Hlen.
  destruct (rx_measure_spec pkt p now st Hok Hk) as (st1 & Hok1 & Hb & Hs & Hc
    & Hcnt & Ho & Hl & ->).
  pose proof (fifo_free_slots _ _ Hok Hf) as Hfree.
  destruct (free_slots _ _ _) as [|i rest].
  - subst n. rewrite bind_Ok. replace (zlen q <? MAX_PKT) with false
      by (unfold zlen; km_consts; lia).
    exists (set_counts st1 (count_pkt st1) (u64 (count_pkt_overflow st1 + 1))).
    split; [reflexivity|]. split.
    { split; [destruct Hok1; split; auto|]. split.
      - exists O. destruct Hf as [Hn Hf]. split; [exact Hn|]. simpl.
        rewrite Hs, Hc. exact Hf.
      - unfold pending, busy_slots in *. simpl. rewrite Hs, Hc, Hb. exact Hq. }
    simpl. rewrite Hcnt, Ho. auto.
  - destruct Hfree as [-> Hn].
    replace (zlen q <? MAX_PKT) with true in * by
      (unfold zlen; km_consts; lia).
    assert (no_spill st p) as Hns' by (apply Hns; unfold zlen; km_consts; lia).
    pose proof (ok_cur _ Hok) as Hcur.
    rewrite (rx_write_slot_Ok _ _ _ _ Hok1 Hk Hcur), Hb.
    destruct (mwrite (buff_from_here st) (current_index st * PKT_BUFFER_SIZE) p)
      as [buff|] eqn:Hw.
    2:{ exfalso. rewrite mwrite_Ok in Hw; [discriminate|]. destruct Hns' as [Hi _].
        pose proof (ok_buff _ Hok). pose proof (zlen_nonneg p).
        unfold in_block. km_consts. lia. }
    rewrite !bind_Ok. eexists. split; [reflexivity|].
    destruct n as [|n]; [lia|].
    destruct (fifo_push st (set_cache st1 buff
                ((current_index st + 1) mod MAX_PKT)
                (<[Z.to_nat (current_index st) := 1]> (status st1)))
                p n Hok Hf Hns' Hw eq_refl
                (f_equal (fun s => <[_:=1]> s) Hs) (ok_log _ Hok1) (ok_temp _ Hok1))
      as (Hok' & Hf' & Hp & Hpre).
    split.
    { split; [exact Hok'|]. split; [exists n; exact Hf'|].
      rewrite Hp. apply Forall2_app; [exact Hq|]. constructor; [exact Hpre | constructor]. }
    simpl. auto.
Qed.

Lemma read_pop st q ctu len off :
  represents st q -> u64 off < BUFFER_SIZE ->
  let success := ctu (drained st) =? 0 in
  exists st' r,
    read ctu len off st = Ok (r, st') /\
    rd_returned r = BUFFER_SIZE /\
    rd_user r = (if success then Some (drained st) else None) /\
    represents st' (if success then snd (Fifo.pop q) else q) /\
    Forall2 Fifo.cell_of (take (Z.to_nat PKTS_PER_BUFFER) (pending st))
      (fst (Fifo.pop q)).
Proof.
  intros (Hok & [n Hf] & Hq) Hoff success.
  destruct (read_spec ctu len off st Hok Hoff) as (st' & Hr & Hok' & Hc & _ & _ & _
    & Hb & Hp). fold success in Hr, Hb, Hp.
  pose proof (fifo_read st st' n success Hok Hf Hc Hb) as Hf'.
  eexists st', _. split; [exact Hr|].
  split; [destruct success; reflexivity|].
  split; [destruct success; reflexivity|].
  split; [|apply Forall2_take, Hq].
  split; [exact Hok'|]. split; [eexists; exact Hf'|].
  rewrite Hp. destruct success; [apply Forall2_drop, Hq | exact Hq].
Qed.

(** Runs of the kernel module: sequences of received packets and of
    [read]s, the simulation by the bounded queue, and what the shipped
    packet size does to the cache. *)

(** * Runs *)

(** A packet arrives, or the user program reads. *)
Inductive event :=
| EvRx (pkt : sk_buff) (now : Z)
| EvRead (ctu : list byte -> Z) (len off : Z).

Definition km_event (e : event) (st : km) : res (option (list byte) * km) :=
  match e with
  | EvRx pkt now => '(_, st) ← rxhPacketIn pkt now st; Ok (None, st)
  | EvRead ctu len off => '(r, st) ← read ctu len off st; Ok (rd_user r, st)
  end.

Fixpoint km_run (es : list event) (st : km) : res km :=
  match es with
  | [] => Ok st
  | e :: es => '(_, st) ← km_event e st; km_run es st
  end.

(** The same events as an observer of the queue sees them. *)
Inductive km_step : km -> Fifo.obs -> km -> Prop :=
| km_rx st pkt o now r st' :
    skb_kind pkt o -> rxhPacketIn pkt now st = Ok (r, st') ->
    km_step st (Fifo.ORx o) st'
| km_read st ctu len off r st' :
    read ctu len off st = Ok (r, st') ->
    km_step st (Fifo.ORead (rd_user r)) st'.

Inductive km_trace : km -> list Fifo.obs -> km -> Prop :=
| km_trace_nil st : km_trace st [] st
| km_trace_cons st o st' tr st'' :
    km_step st o st' -> km_trace st' tr st'' -> km_trace st (o :: tr) st''.

(** Packets that fit their slot. *)
Definition fits (o : Fifo.obs) : Prop :=
  match o with
  | Fifo.ORx (Some p) => zlen p <= PKT_BUFFER_SIZE
  | _ => True
  end.

Lemma read_past_end ctu len off st :
  BUFFER_SIZE <= u64 off ->
  read ctu len off st = Ok (mk_read_result BUFFER_SIZE 0 None, st).
Proof.
  intros H. unfold read. replace (BUFFER_SIZE <=? u64 off) with true by lia.
  reflexivity.
Qed.

Lemma step_simulates st q o st' :
  represents st q -> km_step st o st' -> fits o ->
  exists q', Fifo.step q o q' /\ represents st' q'.
Proof.
  intros Hr Hs Hfit. inversion Hs as [? pkt k now r ? Hk Hrx|? ctu len off r ? Hrd]; subst.
  - destruct k as [p|].
    + destruct (rx_push st q pkt p now Hr Hk) as (st1 & Hrx' & Hr' & _).
      { intros _. apply no_spill_small; [apply Hr | exact Hfit]. }
      rewrite Hrx in Hrx'. injection Hrx' as _ <-.
      exists (Fifo.push q p). split; [constructor | exact Hr'].
    + rewrite (rx_ignored _ _ _ Hk) in Hrx. injection Hrx as _ <-.
      exists q. split; [constructor | exact Hr].
  - destruct (Z.ltb_spec (u64 off) BUFFER_SIZE) as [Hoff|Hoff].
    + destruct (read_pop st q ctu len off Hr Hoff)
        as (st1 & r1 & Hrd' & _ & Hu & Hr' & Hcells).
      rewrite Hrd in Hrd'. injection Hrd' as <- <-. rewrite Hu.
      destruct (ctu (drained st) =? 0); eexists;
        (split; [|exact Hr']); [apply Fifo.step_pop, Hcells | constructor].
    + rewrite read_past_end in Hrd by exact Hoff. injection Hrd as <- <-.
      exists q. split; [constructor | exact Hr].
Qed.

Lemma trace_simulates st q tr st' :
  represents st q -> km_trace st tr st' -> Forall fits tr ->
  exists i o q', Fifo.run q tr i o q' /\ represents st' q'.
Proof.
  intros Hr Ht. revert q Hr. induction Ht as [st|st ob st1 tr st2 Hs _ IH];
    intros q Hr Hf.
  - exists [], [], q. split; [constructor | exact Hr].
  - apply Forall_cons in Hf as [Hf1 Hf].
    destruct (step_simulates _ _ _ _ Hr Hs Hf1) as (q1 & Hq & Hr1).
    destruct (IH q1 Hr1 Hf) as (i & o & q' & Hrun & Hr').
    inversion Hq; subst; eexists _, _, q'; (split; [|exact Hr']);
      econstructor; eassumption.
Qed.

(** No operation of the module faults on packets that fit. *)
Lemma event_total st q e :
  represents st q ->
  match e with
  | EvRx pkt _ => exists o, skb_kind pkt o /\ fits (Fifo.ORx o)
  | EvRead _ _ _ => True
  end ->
  exists b st' q', km_event e st = Ok (b, st') /\ represents st' q' .
Proof.
  intros Hr He. destruct e as [pkt now|ctu len off]; simpl.
  - destruct He as ([p|] & Hk & Hfit).
    + destruct (rx_push st q pkt p now Hr Hk) as (st1 & -> & Hr' & _).
      { intros _. apply no_spill_small; [apply Hr | exact Hfit]. }
      eauto.
    + rewrite (rx_ignored _ _ _ Hk). eauto.
  - destruct (Z.ltb_spec (u64 off) BUFFER_SIZE) as [Hoff|Hoff].
    + destruct (read_pop st q ctu len off Hr Hoff) as (st1 & r1 & -> & _ & _ & Hr' & _).
      eauto.
    + rewrite read_past_end by exact Hoff. eauto.
Qed.

(** * The shipped packet size *)

(** Packets of the shipped experiment: the payload is one [struct Payload]. *)
Definition shipped (e : event) : Prop :=
  match e with
  | EvRx pkt _ => exists p, skb_kind pkt (Some p) /\ zlen p = sizeof_Payload
  | EvRead _ _ _ => True
  end.

Definition is_rx (e : event) : bool :=
  match e with EvRx _ _ => true | EvRead _ _ _ => false end.
Definition count_rx (es : list event) : Z :=
  zlen (filter (fun e => is_rx e = true) es).

(** The slots a [struct Payload] written at slot 192 reaches end exactly
    at the end of the cache; 193 packets are stored before that slot has
    been passed. *)
Definition SAFE_PKTS : Z := 193.

(** After [m] packets, no more than [m] of them queued. *)
Definition after_rx (st : km) (m : Z) : Prop :=
  current_index st = m /\ exists q, represents st q /\ zlen q <= m.

Lemma after_rx_no_spill st m p :
  after_rx st m -> 0 <= m < SAFE_PKTS -> zlen p = sizeof_Payload -> no_spill st p.
Proof.
  intros (Hm & q & (Hok & [n Hf] & Hq) & Hlen) Hr Hp. unfold SAFE_PKTS in *.
  change sizeof_Payload with 1024 in *. rewrite <- Hm in *.
  split; [km_consts; lia|]. intros j Hj Hb. exfalso.
  pose proof (represents_length _ _ _ Hok Hf Hq) as Hl. destruct Hf as [Hn Hf].
  specialize (Hf (Z.to_nat (j - current_index st)) ltac:(km_consts; lia)).
  replace ((current_index st + Z.of_nat (Z.to_nat (j - current_index st))) mod MAX_PKT)
    with j in Hf by (km_consts; lia).
  rewrite Hb in Hf. symmetry in Hf. apply bool_decide_eq_true in Hf.
  unfold zlen in Hlen. km_consts. lia.
Qed.

Lemma shipped_step st m e :
  after_rx st m -> 0 <= m <= SAFE_PKTS -> shipped e ->
  if is_rx e && (m =? SAFE_PKTS) then km_event e st = Err OutOfBounds
  else exists b st', km_event e st = Ok (b, st') /\
         after_rx st' (if is_rx e then m + 1 else m).
Proof.
  intros Ha Hm He. pose proof Ha as (Hcur & q & Hr & Hlen).
  unfold SAFE_PKTS in *.
  destruct e as [pkt now|ctu len off]; cbn [is_rx andb].
  - destruct He as (p & Hk & Hp). destruct (Z.eqb_spec m 193) as [->|Hne].
    + pose proof Hr as (Hok & [n Hf] & Hq).
      pose proof (represents_length _ _ _ Hok Hf Hq) as Hl.
      destruct (rx_measure_spec pkt p now st Hok Hk) as (st1 & Hok1 & Hb & _ & _
        & _ & _ & _ & Hrx).
      pose proof (fifo_free_slots _ _ Hok Hf) as Hfree.
      cbn [km_event]. rewrite Hrx. destruct (free_slots _ _ _) as [|i rest].
      { unfold zlen in Hlen. km_consts. lia. }
      destruct Hfree as [-> _]. pose proof (ok_cur _ Hok).
      rewrite (rx_write_slot_Ok _ _ _ _ Hok1 Hk) by assumption.
      rewrite mwrite_Err; [reflexivity|]. pose proof (ok_buff _ Hok1).
      change sizeof_Payload with 1024 in Hp. unfold in_block. km_consts. lia.
    + destruct (rx_push st q pkt p now Hr Hk) as (st1 & Hrx & Hr' & _ & _ & _ & Hc).
      { intros _. apply (after_rx_no_spill _ m); auto. unfold SAFE_PKTS. lia. }
      cbn [km_event]. rewrite Hrx. eexists _, st1. split; [reflexivity|].
      replace (zlen q <? MAX_PKT) with true in Hc by (km_consts; lia).
      split; [rewrite Hc, Hcur; km_consts; lia|].
      exists (Fifo.push q p). split; [exact Hr'|]. unfold Fifo.push.
      case_match; rewrite ?zlen_app; change (zlen [p]) with 1; lia.
  - destruct (Z.ltb_spec (u64 off) BUFFER_SIZE) as [Hoff|Hoff].
    + cbn [km_event].
      destruct (read_spec ctu len off st (proj1 Hr) Hoff) as (st0 & E0 & _ & Hc0 & _).
      destruct (read_pop st q ctu len off Hr Hoff) as (st1 & r1 & E & _ & _ & Hr' & _).
      rewrite E in E0. injection E0 as _ ->. rewrite E.
      eexists _, st0. split; [reflexivity|]. split; [congruence|].
      eexists. split; [exact Hr'|]. destruct (_ =? 0); [|exact Hlen].
      unfold Fifo.pop, zlen in *. cbn [snd]. rewrite length_drop. lia.
    + cbn [km_event]. rewrite read_past_end by exact Hoff.
      eexists _, st. split; [reflexivity | exact Ha].
Qed.

Lemma shipped_run es : forall st m,
  after_rx st m -> 0 <= m <= SAFE_PKTS -> Forall shipped es ->
  km_run es st = Err OutOfBounds /\ SAFE_PKTS < m + count_rx es \/
  (exists st', km_run es st = Ok st' /\ after_rx st' (m + count_rx es)) /\
  m + count_rx es <= SAFE_PKTS.
Proof.
  induction es as [|e es IH]; intros st m Ha Hm Hs.
  - right. change (count_rx []) with 0. rewrite Z.add_0_r. simpl. eauto with lia.
  - apply Forall_cons in Hs as [He Hs]. cbn [km_run].
    pose proof (shipped_step st m e Ha Hm He) as Hstep.
    unfold count_rx. rewrite filter_cons.
    destruct (is_rx e) eqn:Hrx; cbn [andb] in Hstep.
    + rewrite decide_True by reflexivity.
      assert (forall l : list event, zlen (e :: l) = zlen l + 1) as Hcons
        by (intros l; unfold zlen; simpl; lia).
      rewrite Hcons. fold (count_rx es).
      pose proof (zlen_nonneg (filter (fun e => is_rx e = true) es)) as Hnn.
      fold (count_rx es) in Hnn.
      destruct (Z.eqb_spec m SAFE_PKTS) as [Hms|Hms].
      * left. rewrite Hstep. split; [reflexivity | lia].
      * destruct Hstep as (b & st1 & -> & Ha'). rewrite bind_Ok.
        destruct (IH st1 (m + 1) Ha') as [[? ?]|[(st' & ? & ?) ?]]; [lia|exact Hs|..].
        -- left. split; [assumption | lia].
        -- right. replace (m + (count_rx es + 1)) with (m + 1 + count_rx es) by lia.
           eauto.
    + destruct Hstep as (b & st1 & -> & Ha'). rewrite bind_Ok.
      rewrite decide_False by discriminate. apply IH; assumption.
Qed.
