(* ===== verification/KmLifecycle.v ===== *)
(** The kernel module's life: [myinit] and [myexit] with the resources
    they take and give back, the registration of the receive handler, and
    the file operations of the proc entry other than [read]. *)
From S2P Require Import Prelude CommonH KernelModule KmRing KmFifo.
#[local] Open Scope Z_scope.
#[local] Set Default Proof Using "Type".

(** * Resources of the module *)

Inductive resource :=
| RBuffFromHere | RBuffTemp | RLogPages (i : Z) | RProcEntry
| RRxHandler (dev : string).

#[export] Instance resource_eq_dec : EqDecision resource.
Proof. solve_decision. Defined.

(** The resources the module holds, and its globals. *)
Record module_state := mk_module {
  md_live : list resource;
  md_km : km
}.

Definition release_resource (r : resource) (live : list resource) : list resource :=
  filter (fun r' => r' <> r) live.

(** * Registration of the receive handler *)

Definition NIC_NAME : string := "ens33".

Section lifecycle.
(** The kernel: [kmalloc k size] is the block the [k]-th call gives (with
    whatever bytes it held), [get_free_pages i] the pages of log buffer
    [i], [rx_handler_register dev] the error code for a device, and [devs]
    the names of the network devices in the order the kernel lists them. *)
Context (kmalloc : Z -> Z -> option (list byte)).
Context (get_free_pages : Z -> option (list Z)).
Context (rx_handler_register : string -> Z).

(** [while (device) { ... }]: the device registered, if any. *)
Fixpoint register_loop (devs : list string) : option string :=
  match devs with
  | [] => None
  | device :: next =>
      if String.eqb device NIC_NAME
      then (if rx_handler_register device =? 0 then Some device else None)
      else register_loop next
  end.

(** The value returned is always 0. *)
Definition registerRxHandlers (devs : list string) (live : list resource)
    : Z * list resource :=
  (0, match register_loop devs with
      | Some dev => RRxHandler dev :: live
      | None => live
      end).

Fixpoint unregister_loop (devs : list string) (live : list resource)
    : list resource :=
  match devs with
  | [] => live
  | device :: next =>
      if String.eqb device NIC_NAME
      then release_resource (RRxHandler device) live
      else unregister_loop next live
  end.

Definition unregisterRxHandlers := unregister_loop.

(** * myinit *)

(** The loop that allocates the log buffers, from [i], [n] to go: the
    buffers so far, or the index that failed. *)
Fixpoint alloc_log_buffs (n : nat) (i : Z) (bufs : log_table) : log_table + Z :=
  match n with
  | O => inl bufs
  | S n =>
      match get_free_pages i with
      | None => inr i
      | Some r => alloc_log_buffs n (i + 1) (bufs ++ [r])
      end
  end.

Definition log_resources (i : Z) : list resource :=
  RLogPages <$> seqZ 0 i.

(** [for (j = 0; j < i; j++) free_pages(log_buffs[j])]. *)
Definition free_log_buffs (i : Z) (live : list resource) : list resource :=
  foldl (fun live r => release_resource r live) live (log_resources i).

Definition kmalloc_zeroed (k size : Z) : res (list byte) :=
  block ← or_fault NullDeref (kmalloc k size);
  mwrite block 0 (replicate (Z.to_nat size) Byte.x00).

(** The globals are zero before [myinit] runs. *)
Definition myinit (devs : list string) : res (Z * module_state) :=
  buff ← kmalloc_zeroed 0 (PKT_BUFFER_SIZE * MAX_PKT);
  temp ← kmalloc_zeroed 1 BUFFER_SIZE;
  let live := [RBuffFromHere; RBuffTemp] in
  let st lb :=
    mk_km buff temp 0 (replicate (Z.to_nat MAX_PKT) 0) lb 0 0 in
  match alloc_log_buffs (Z.to_nat NUM_LOG_BUFF) 0 [] with
  | inr i =>
      let live := free_log_buffs i (live ++ log_resources i) in
      Ok (-1, mk_module live (st []))
  | inl lb =>
      let live := live ++ log_resources NUM_LOG_BUFF ++ [RProcEntry] in
      let '(_, live) := registerRxHandlers devs live in
      Ok (0, mk_module live (st lb))
  end.

(** * myexit *)

(** The line [snprintf(temp, 100, "%lu\n", v)] leaves in [temp]. *)
Definition km_line (v : Z) : string := String.substring 0 99 (lu_line v).

(** What the module prints at the end, and the file it wrote. *)
Record exit_report := mk_report {
  rp_file : option (list string);
  rp_count_pkt : Z;
  rp_overflow : Z;
  rp_zeroed : Z
}.

(** [file_ok] is false when [filp_open] fails. *)
Definition myexit (devs : list string) (file_ok : bool) (m : module_state)
    : res (exit_report * module_state) :=
  let live := unregisterRxHandlers devs (md_live m) in
  let st := md_km m in
  if negb file_ok then
    Ok (mk_report None 0 0 0, mk_module live st)
  else
    '(lines, zeroed) ←
      export_from km_line (log_buffs st) 0 (Z.to_nat MAX_LOG_ENTRY) 0;
    let live := release_resource RProcEntry live in
    let live := release_resource RBuffFromHere live in
    let live := release_resource RBuffTemp live in
    let live := free_log_buffs NUM_LOG_BUFF live in
    Ok (mk_report (Some lines) (count_pkt st) (count_pkt_overflow st) zeroed,
        mk_module live st).

(** ** Lemmas *)

(** The kernel gives blocks of the size asked for. *)
Definition kmalloc_ok : Prop := forall k size, 0 <= size ->
  exists block, kmalloc k size = Some block /\ zlen block = size.
Definition pages_ok : Prop := forall i,
  match get_free_pages i with
  | Some r => length r = Z.to_nat MAX_ENTRIES_PER_LOG_BUFF
  | None => True
  end.

Lemma kmalloc_zeroed_Ok k size :
  kmalloc_ok -> 0 <= size ->
  kmalloc_zeroed k size = Ok (replicate (Z.to_nat size) Byte.x00).
Proof.
  clear get_free_pages rx_handler_register.
  intros Hk Hs. unfold kmalloc_zeroed. destruct (Hk k size Hs) as (b & -> & Hb).
  cbn [or_fault]. rewrite bind_Ok. apply mwrite_all.
  rewrite zlen_replicate, Hb. lia.
Qed.

Lemma alloc_log_buffs_inl n : forall i bufs lb,
  pages_ok ->
  Forall (fun b => length b = Z.to_nat MAX_ENTRIES_PER_LOG_BUFF) bufs ->
  alloc_log_buffs n i bufs = inl lb ->
  zlen lb = zlen bufs + Z.of_nat n /\
  Forall (fun b => length b = Z.to_nat MAX_ENTRIES_PER_LOG_BUFF) lb.
Proof.
  clear kmalloc rx_handler_register.
  induction n as [|n IH]; intros i bufs lb Hp Hb Ha; simpl in Ha.
  - injection Ha as <-. split; [lia | exact Hb].
  - specialize (Hp i) as Hpi. destruct (get_free_pages i) as [r|]; [|discriminate].
    apply IH in Ha as [Hl Hf]; [|exact Hp|].
    + rewrite zlen_app in Hl. change (zlen [r]) with 1 in Hl. split; [lia | exact Hf].
    + apply Forall_app. split; [exact Hb | apply Forall_singleton, Hpi].
Qed.

End lifecycle.

(** The state after a successful start stands for the empty queue. *)
Lemma fresh_represents lb :
  log_ok lb ->
  represents (mk_km (replicate (Z.to_nat (PKT_BUFFER_SIZE * MAX_PKT)) Byte.x00)
                (replicate (Z.to_nat BUFFER_SIZE) Byte.x00) 0
                (replicate (Z.to_nat MAX_PKT) 0) lb 0 0) [].
Proof.
  intros Hlb. set (st := mk_km _ _ _ _ _ _ _).
  assert (km_ok st) as Hok.
  { split; simpl; rewrite ?zlen_replicate; try reflexivity; [km_consts; lia | exact Hlb]. }
  assert (forall j, busy (status st) j = false) as Hfree.
  { intros j. unfold busy, st. cbn [status].
    destruct (replicate _ _ !! _) as [s|] eqn:E; [|reflexivity].
    apply lookup_replicate in E as [-> _]. reflexivity. }
  assert (fifo_at st (Z.to_nat MAX_PKT)) as Hf.
  { split; [lia|]. intros k Hk. rewrite Hfree. symmetry.
    apply bool_decide_eq_false. lia. }
  split; [exact Hok|]. split; [eexists; exact Hf|].
  pose proof (fifo_pending_length _ _ Hok Hf) as Hl. rewrite Nat.sub_diag in Hl.
  apply nil_length_inv in Hl. rewrite Hl. constructor.
Qed.

(** * The file operations of the proc entry *)

(** [struct mmap_info] objects live in the kernel heap, and the file and
    the mappings of it share them: the store maps an object to the page it
    owns. *)
Record info_store := mk_infos {
  infos : gmap Z (list byte);
  next_info : Z
}.

(** [filp->private_data] and [vma->vm_private_data]. *)
Record file := mk_file { private_data : option Z }.
Record vm_area := mk_vma {
  vm_has_ops : bool;
  vm_flags : Z;
  vm_private_data : option Z
}.

Definition asdf : list byte := [Byte.x61; Byte.x73; Byte.x64; Byte.x66].

(** [km_open got_info got_page]: whether the two allocations succeed. *)
Definition km_open (got_info got_page : bool) (s : info_store) (filp : file)
    : res (Z * info_store * file) :=
  if negb got_info then Err NullDeref else
  if negb got_page then Err NullDeref else
  page ← mwrite (replicate (Z.to_nat BUFFER_SIZE) Byte.x00) 0 asdf;
  let id := next_info s in
  Ok (0, mk_infos (<[id := page]> (infos s)) (id + 1), mk_file (Some id)).

Definition info_of (s : info_store) (p : option Z) : res (Z * list byte) :=
  id ← or_fault NullDeref p;
  page ← or_fault UseAfterFree (infos s !! id);
  Ok (id, page).

(** [write]: [copy_from_user] gives the number of bytes not copied; [buf]
    holds at least the bytes asked for. *)
Definition km_write (copy_from_user : list byte -> Z) (buf : list byte) (len : Z)
    (s : info_store) (filp : file) : res (Z * info_store) :=
  '(id, page) ← info_of s (private_data filp);
  src ← mread buf 0 (Z.min len BUFFER_SIZE);
  if negb (copy_from_user src =? 0) then Ok (- EFAULT, s)
  else
    page ← mwrite page 0 src;
    Ok (len, mk_infos (<[id := page]> (infos s)) (next_info s)).

Definition km_release (s : info_store) (filp : file) : res (Z * info_store * file) :=
  '(id, _) ← info_of s (private_data filp);
  Ok (0, mk_infos (delete id (infos s)) (next_info s), mk_file None).

Section mapping.
Context (VM_DONTEXPAND VM_DONTDUMP : Z).

Definition km_mmap (filp : file) (vma : vm_area) : Z * vm_area :=
  (0, mk_vma true (Z.lor (vm_flags vma) (Z.lor VM_DONTEXPAND VM_DONTDUMP))
        (private_data filp)).
End mapping.

(** [vm_fault]: the page mapped. *)
Definition vm_fault (s : info_store) (vma : vm_area) : res (Z * list byte) :=
  '(_, page) ← info_of s (vm_private_data vma);
  Ok (0, page).
