(* ===== verification/KmProps.v ===== *)
(** What the kernel module guarantees: the properties of its packet cache,
    of its start and stop, and of its proc file, each with a run of the
    code that meets its hypotheses. *)
From S2P Require Import Prelude CommonH KernelModule KmRing KmFifo KmLifecycle.
#[local] Open Scope Z_scope.
#[local] Set Default Proof Using "Type".

(** * Concrete packets and states *)

(** An IPv4/UDP packet to the measurement port with the given payload, as
    the handler gets it: network header at 0, no IP options. *)
Definition ip_udp_headers (len : Z) : list byte :=
  [Byte.x45] ++ replicate 8 Byte.x00 ++ [Byte.x11] ++ replicate 10 Byte.x00 ++
  [Byte.x00; Byte.x00; Byte.x1f; Byte.x90;
   byte_of_Z (len / 256); byte_of_Z len; Byte.x00; Byte.x00].

Definition udp_skb (payload : list byte) : sk_buff :=
  mk_skb (ip_udp_headers (8 + zlen payload) ++ payload) 0 20 0.

Lemma udp_skb_measure payload :
  16 <= zlen payload < 65528 -> skb_kind (udp_skb payload) (Some payload).
Proof.
  intros Hl. set (len := 8 + zlen payload).
  apply (skb_measure _ 69 36895 (byte_val (byte_of_Z (len / 256)) +
    256 * (byte_val (byte_of_Z len) + 256 * 0))); try reflexivity; try lia;
    cbn [udp_skb skb_head network_header skb_data transport_header].
  1,2: rewrite load16_app_l by (split_and!; vm_compute; discriminate); reflexivity.
  assert (bswap16 (byte_val (byte_of_Z (len / 256)) +
    256 * (byte_val (byte_of_Z len) + 256 * 0)) = len) as ->.
  { rewrite bswap16_eq, !byte_val_of_Z.
    assert (0 <= len < 65536) as Hb by (unfold len; lia). clearbody len.
    pose proof (Z.div_mod len 256 ltac:(lia)) as Hdm.
    pose proof (Z.mod_pos_bound len 256 ltac:(lia)) as Hm.
    assert (0 <= len / 256 < 256) as Hd by lia.
    rewrite (Z.mod_small (len / 256)) by exact Hd.
    generalize dependent (len mod 256). generalize dependent (len / 256).
    intros h Hh l -> Hl'. lia. }
  unfold len. rewrite u32_small by lia.
  rewrite mread_Ok; unfold in_block; cbn [skb_head skb_data udp_skb].
  - f_equal. rewrite drop_app_length' by reflexivity.
    apply take_ge. unfold zlen. lia.
  - rewrite zlen_app. change (zlen (ip_udp_headers _)) with 28. lia.
Qed.

(** A module that has just started, its log pages zero. *)
Definition km_fresh : km :=
  mk_km (replicate (Z.to_nat (PKT_BUFFER_SIZE * MAX_PKT)) Byte.x00)
    (replicate (Z.to_nat BUFFER_SIZE) Byte.x00) 0
    (replicate (Z.to_nat MAX_PKT) 0)
    [replicate (Z.to_nat MAX_ENTRIES_PER_LOG_BUFF) 0] 0 0.

Lemma km_fresh_represents : represents km_fresh [].
Proof. apply fresh_represents, zero_log_ok. Qed.

(** The payload of packet 7, and a shorter packet. *)
Definition payload_7 : Payload :=
  {| client_uid := 1; uid := 7; type := PL_DATA; created_time := 1000;
     ks_time_arrival_1 := 0; ks_time_arrival_2 := 0; us_time_arrival_1 := 0;
     us_time_arrival_2 := 0;
     data := replicate (Z.to_nat PAYLOAD_DATA_SIZE) Byte.x00 |}.

Lemma payload_7_ok : Payload_ok payload_7.
Proof.
  unfold Payload_ok, u64_ok. cbn [payload_7 client_uid uid type created_time
    ks_time_arrival_1 ks_time_arrival_2 us_time_arrival_1 us_time_arrival_2 data].
  unfold PL_DATA, PAYLOAD_DATA_SIZE. rewrite zlen_replicate. lia.
Qed.

Definition packet_7 : list byte := Payload_bytes payload_7.
Definition small_packet : list byte := take 64 packet_7.

Lemma zlen_packet_7 : zlen packet_7 = sizeof_Payload.
Proof. apply zlen_Payload_bytes, payload_7_ok. Qed.
Lemma zlen_small_packet : zlen small_packet = 64.
Proof.
  pose proof zlen_packet_7 as H. unfold small_packet, zlen in *.
  rewrite length_take. change sizeof_Payload with 1024 in H. lia.
Qed.

Lemma small_packet_kind : skb_kind (udp_skb small_packet) (Some small_packet).
Proof. apply udp_skb_measure. rewrite zlen_small_packet. lia. Qed.
Lemma packet_7_kind : skb_kind (udp_skb packet_7) (Some packet_7).
Proof.
  apply udp_skb_measure. rewrite zlen_packet_7. change sizeof_Payload with 1024. lia.
Qed.

Lemma km_trace_rx st pkt o now r st' :
  skb_kind pkt o -> rxhPacketIn pkt now st = Ok (r, st') ->
  km_trace st [Fifo.ORx o] st'.
Proof.
  intros Hk Hrx. apply (km_trace_cons _ _ st' []); [|apply km_trace_nil].
  eapply km_rx; eassumption.
Qed.

Lemma small_fits : Forall fits [Fifo.ORx (Some small_packet)].
Proof.
  apply Forall_singleton. unfold fits. rewrite zlen_small_packet.
  change PKT_BUFFER_SIZE with 128. lia.
Qed.

Lemma small_trace : exists st', km_trace km_fresh [Fifo.ORx (Some small_packet)] st'.
Proof.
  destruct (rx_push km_fresh [] _ _ 5 km_fresh_represents small_packet_kind)
    as (st' & Hrx & _).
  { intros _. apply no_spill_small; [apply km_fresh_represents|].
    rewrite zlen_small_packet. change PKT_BUFFER_SIZE with 128. lia. }
  exists st'. eapply km_trace_rx; [exact small_packet_kind | exact Hrx].
Qed.

Definition ctu_ok : list byte -> Z := fun _ => 0.

(** * The cache *)

(** C1: over any run of received packets that fit a slot and of reads, the
    module behaves as a bounded FIFO queue: each step is a step of the
    queue, and what the reads handed out, followed by what is still
    cached, is a subsequence of what came in (no reordering, no
    duplication, nothing invented). *)
Theorem km_refines_fifo st q tr st' :
  represents st q -> km_trace st tr st' -> Forall fits tr ->
  exists i o q', Fifo.run q tr i o q' /\ represents st' q' /\
    o ++ q' `sublist_of` q ++ i.
Proof.
  intros Hr Ht Hf. destruct (trace_simulates _ _ _ _ Hr Ht Hf) as (i & o & q' & Hrun & Hr').
  exists i, o, q'. eauto using Fifo.run_sublist.
Qed.

Lemma km_refines_fifo_witness :
  exists st' i o q', km_trace km_fresh [Fifo.ORx (Some small_packet)] st' /\
    Fifo.run [] [Fifo.ORx (Some small_packet)] i o q' /\
    represents st' q' /\ o ++ q' `sublist_of` [] ++ i.
Proof.
  destruct small_trace as [st' Ht].
  destruct (km_refines_fifo km_fresh [] _ st' km_fresh_represents Ht small_fits)
    as (i & o & q' & Hrun & Hr & Hs).
  exists st', i, o, q'. split; [exact Ht|]. split; [exact Hrun|].
  split; [exact Hr | exact Hs].
Defined.

(** C2: the shipped packets (one [struct Payload], 1024 bytes, in
    128-byte slots) write past the end of the cache exactly when the 194th
    of them arrives, however many reads come in between: a run is free of
    out-of-bounds writes if and only if it has at most 193 packets. *)
Theorem shipped_payload_overflows st es :
  represents st [] -> current_index st = 0 -> Forall shipped es ->
  (if count_rx es <=? SAFE_PKTS
   then exists st', km_run es st = Ok st' /\ current_index st' = count_rx es
   else km_run es st = Err OutOfBounds).
Proof.
  intros Hr Hc Hs.
  assert (after_rx st 0) as Ha.
  { split; [exact Hc|]. exists []. split; [exact Hr | reflexivity]. }
  destruct (shipped_run es st 0 Ha) as [[He Hn]|[(st' & He & Ha') Hn]];
    [unfold SAFE_PKTS; lia | exact Hs | |].
  - replace (count_rx es <=? SAFE_PKTS) with false by lia. exact He.
  - replace (count_rx es <=? SAFE_PKTS) with true by lia. exists st'.
    split; [exact He|]. apply (proj1 Ha').
Qed.

Lemma shipped_payload_overflows_witness :
  km_run (replicate 194 (EvRx (udp_skb packet_7) 5)) km_fresh = Err OutOfBounds.
Proof.
  apply (shipped_payload_overflows km_fresh
           (replicate 194 (EvRx (udp_skb packet_7) 5))).
  - exact km_fresh_represents.
  - reflexivity.
  - apply Forall_replicate. exists packet_7. split; [exact packet_7_kind | exact zlen_packet_7].
Defined.

(** C34: no packet that fits a slot (or is not for the module), and no
    read, makes the module touch memory it does not own; each such
    operation returns, in a state that again satisfies the invariant. *)
Theorem km_event_safe st q e :
  represents st q ->
  match e with
  | EvRx pkt _ => exists o, skb_kind pkt o /\ fits (Fifo.ORx o)
  | EvRead _ _ _ => True
  end ->
  exists b st' q', km_event e st = Ok (b, st') /\ represents st' q'.
Proof. apply event_total. Qed.

Lemma km_event_safe_witness :
  exists b st' q', km_event (EvRead ctu_ok 4096 0) km_fresh = Ok (b, st') /\
    represents st' q'.
Proof.
  apply (km_event_safe km_fresh [] (EvRead ctu_ok 4096 0)).
  - exact km_fresh_represents.
  - exact I.
Defined.

(** the receive handler on a measurement packet: it always passes the
    packet on, counts it, stores the arrival time in the packet's log
    entry, and either appends the packet to the queue and advances
    [current_index], or, when the queue is full, drops it and counts an
    overflow. *)
Theorem rx_handler_functional st q pkt p now :
  represents st q -> skb_kind pkt (Some p) ->
  (zlen q < MAX_PKT -> no_spill st p) ->
  exists st',
    rxhPacketIn pkt now st = Ok (RX_HANDLER_PASS, st') /\
    represents st' (Fifo.push q p) /\
    count_pkt st' = u64 (count_pkt st + 1) /\
    count_pkt_overflow st' =
      (if zlen q <? MAX_PKT then count_pkt_overflow st
       else u64 (count_pkt_overflow st + 1)) /\
    log_flat (log_buffs st') =
      log_after (field p 1) now (log_flat (log_buffs st)) /\
    current_index st' =
      (if zlen q <? MAX_PKT then (current_index st + 1) mod MAX_PKT
       else current_index st).
Proof. apply rx_push. Qed.

Lemma rx_handler_functional_witness :
  exists st', rxhPacketIn (udp_skb packet_7) 5 km_fresh = Ok (RX_HANDLER_PASS, st') /\
    current_index st' = 1.
Proof.
  destruct (rx_handler_functional km_fresh [] (udp_skb packet_7) packet_7 5)
    as (st' & H1 & _ & _ & _ & _ & H2).
  - exact km_fresh_represents.
  - exact packet_7_kind.
  - intros _. split.
    + rewrite zlen_packet_7. vm_compute. discriminate.
    + intros j [_ Hj] Hb. exfalso. unfold busy in Hb. cbn [km_fresh status] in Hb.
      destruct (replicate _ _ !! _) as [s|] eqn:E; [|discriminate].
      apply lookup_replicate in E as [-> _]. discriminate.
  - exists st'. split; [exact H1 | exact H2].
Defined.

(** Packets that are not IPv4, not UDP, or not for the measurement
    port are passed on and leave the module's state as it was. *)
Theorem rx_handler_ignores pkt now st :
  skb_kind pkt None -> rxhPacketIn pkt now st = Ok (RX_HANDLER_PASS, st).
Proof. apply rx_ignored. Qed.

(** An ARP packet. *)
Lemma rx_handler_ignores_witness :
  rxhPacketIn (mk_skb [Byte.x00; Byte.x01] 0 20 0) 5 km_fresh =
  Ok (RX_HANDLER_PASS, km_fresh).
Proof.
  apply (rx_handler_ignores (mk_skb [Byte.x00; Byte.x01] 0 20 0) 5 km_fresh).
  apply (skb_not_ipv4 _ 0); [reflexivity | discriminate].
Defined.

(** A read delivers the oldest cached packets, at most
    [PKTS_PER_BUFFER] of them, one per 128-byte cell, followed by zeros up
    to [BUFFER_SIZE], and removes exactly those from the cache; when the
    copy to user space fails nothing is removed. It returns [BUFFER_SIZE]
    in every case. *)
Theorem read_functional st q ctu len off :
  represents st q -> u64 off < BUFFER_SIZE ->
  let cells := take (Z.to_nat PKTS_PER_BUFFER) (pending st) in
  let success := ctu (pad BUFFER_SIZE (mjoin cells)) =? 0 in
  Forall2 Fifo.cell_of cells (fst (Fifo.pop q)) /\
  exists st' r,
    read ctu len off st = Ok (r, st') /\
    rd_returned r = BUFFER_SIZE /\
    rd_user r = (if success then Some (pad BUFFER_SIZE (mjoin cells)) else None) /\
    represents st' (if success then snd (Fifo.pop q) else q).
Proof.
  intros Hr Hoff cells success.
  destruct (read_pop st q ctu len off Hr Hoff) as (st' & r & H1 & H2 & H3 & H4 & H5).
  split; [exact H5|]. exists st', r. auto.
Qed.

Lemma read_functional_witness :
  exists st' r, read ctu_ok 4096 0 km_fresh = Ok (r, st') /\
    rd_returned r = BUFFER_SIZE /\ represents st' [].
Proof.
  destruct (read_functional km_fresh [] ctu_ok 4096 0) as (_ & st' & r & H1 & H2 & _ & H4).
  - exact km_fresh_represents.
  - reflexivity.
  - exists st', r. split; [exact H1|]. split; [exact H2 | exact H4].
Defined.

(** * Start and stop *)

Section start_stop.
Context (kmalloc : Z -> Z -> option (list byte)) (pages : Z -> option (list Z))
  (rx_register : string -> Z) (devs : list string).

(** What the module holds once it is loaded. *)
Definition loaded_resources : list resource :=
  match register_loop rx_register devs with
  | Some dev => [RRxHandler dev]
  | None => []
  end ++ [RBuffFromHere; RBuffTemp; RLogPages 0; RProcEntry].

Lemma register_loop_name dev :
  register_loop rx_register devs = Some dev -> dev = NIC_NAME.
Proof.
  induction devs as [|d ds IH]; simpl; [discriminate|].
  destruct (String.eqb_spec d NIC_NAME) as [->|]; [|exact IH].
  destruct (rx_register NIC_NAME =? 0); congruence.
Qed.

(** Unregistering undoes registering. *)
Lemma unregister_loaded :
  unregisterRxHandlers devs loaded_resources =
  [RBuffFromHere; RBuffTemp; RLogPages 0; RProcEntry].
Proof.
  unfold loaded_resources, unregisterRxHandlers.
  induction devs as [|d ds IH]; [reflexivity|]. simpl.
  destruct (String.eqb_spec d NIC_NAME) as [->|]; [|exact IH].
  destruct (rx_register NIC_NAME =? 0); reflexivity.
Qed.

Lemma myinit_Ok :
  kmalloc_ok kmalloc -> pages_ok pages -> is_Some (pages 0) ->
  exists m, myinit kmalloc pages rx_register devs = Ok (0, m) /\
    represents (md_km m) [] /\ md_live m = loaded_resources.
Proof.
  intros Hk Hp [r Hr]. unfold myinit.
  rewrite !kmalloc_zeroed_Ok by (first [exact Hk | km_consts; lia]).
  rewrite !bind_Ok. change (Z.to_nat NUM_LOG_BUFF) with 1%nat.
  cbn [alloc_log_buffs]. rewrite Hr. specialize (Hp 0). rewrite Hr in Hp.
  eexists. split; [reflexivity|]. split.
  - apply fresh_represents. split; [reflexivity | apply Forall_singleton, Hp].
  - unfold loaded_resources. cbn [md_live registerRxHandlers].
    destruct (register_loop rx_register devs); reflexivity.
Qed.

Lemma myexit_Ok st :
  log_ok (log_buffs st) ->
  myexit devs true (mk_module loaded_resources st) =
  Ok (mk_report (Some (km_line <$> log_flat (log_buffs st))) (count_pkt st)
        (count_pkt_overflow st) (count_zero (log_flat (log_buffs st))),
      mk_module [] st).
Proof.
  clear kmalloc pages. intros Hl. unfold myexit. cbn [md_live md_km negb].
  rewrite unregister_loaded.
  rewrite export_from_spec by (first [exact Hl | rewrite ?MAX_LOG_ENTRY_eq; lia]).
  rewrite bind_Ok, drop_0, take_ge by (rewrite log_ok_length by exact Hl; lia).
  reflexivity.
Qed.
End start_stop.

(** with the memory it asks for, the module starts with an empty
    cache; stopped in any later state it gives back every resource it
    took, and its log file has one line per log entry, in packet order,
    with the counters of the run. *)
Theorem module_start_stop kmalloc pages rx_register devs :
  kmalloc_ok kmalloc -> pages_ok pages -> is_Some (pages 0) ->
  exists m, myinit kmalloc pages rx_register devs = Ok (0, m) /\
    represents (md_km m) [] /\
    forall st, log_ok (log_buffs st) ->
      myexit devs true (mk_module (md_live m) st) =
      Ok (mk_report (Some (km_line <$> log_flat (log_buffs st))) (count_pkt st)
            (count_pkt_overflow st) (count_zero (log_flat (log_buffs st))),
          mk_module [] st).
Proof.
  intros Hk Hp Hr. destruct (myinit_Ok _ _ rx_register devs Hk Hp Hr)
    as (m & Hi & Hm & Hl).
  exists m. split; [exact Hi|]. split; [exact Hm|]. intros st Hst.
  rewrite Hl. apply myexit_Ok, Hst.
Qed.

(** A kernel with enough memory, and one without log pages. *)
Definition kmalloc_demo (k size : Z) : option (list byte) :=
  Some (replicate (Z.to_nat size) Byte.xff).
Definition pages_demo (i : Z) : option (list Z) :=
  Some (replicate (Z.to_nat MAX_ENTRIES_PER_LOG_BUFF) 3).
Definition no_pages (i : Z) : option (list Z) := None.

Lemma kmalloc_demo_ok : kmalloc_ok kmalloc_demo.
Proof. intros k size Hs. eexists. split; [reflexivity|]. rewrite zlen_replicate. lia. Qed.
Lemma pages_demo_ok : pages_ok pages_demo.
Proof. intros i. apply length_replicate. Qed.

Lemma module_start_stop_witness :
  exists m, myinit kmalloc_demo pages_demo (fun _ => 0) ["lo"; "ens33"]%string = Ok (0, m)
    /\ represents (md_km m) [].
Proof.
  destruct (module_start_stop kmalloc_demo pages_demo (fun _ => 0)
              ["lo"; "ens33"]%string) as (m & H1 & H2 & _).
  - exact kmalloc_demo_ok.
  - exact pages_demo_ok.
  - eexists. reflexivity.
  - exists m. split; [exact H1 | exact H2].
Defined.

(** The two error paths leak. When a log buffer cannot be allocated,
    [myinit] fails but keeps both packet buffers; when the log file cannot
    be opened, [myexit] returns with everything but the receive handler
    still held, the proc entry of the unloaded module included. *)
Theorem error_paths_leak kmalloc pages rx_register devs :
  kmalloc_ok kmalloc ->
  (pages 0 = None ->
   exists m, myinit kmalloc pages rx_register devs = Ok (-1, m) /\
     md_live m = [RBuffFromHere; RBuffTemp]) /\
  (pages_ok pages -> is_Some (pages 0) ->
   exists m, myinit kmalloc pages rx_register devs = Ok (0, m) /\
     forall st, exists r, myexit devs false (mk_module (md_live m) st) =
       Ok (r, mk_module [RBuffFromHere; RBuffTemp; RLogPages 0; RProcEntry] st)).
Proof.
  intros Hk. split.
  - intros Hn. unfold myinit.
    rewrite !kmalloc_zeroed_Ok by (first [exact Hk | km_consts; lia]).
    rewrite !bind_Ok. change (Z.to_nat NUM_LOG_BUFF) with 1%nat.
    cbn [alloc_log_buffs]. rewrite Hn. eexists. split; reflexivity.
  - intros Hp Hr. destruct (myinit_Ok _ _ rx_register devs Hk Hp Hr)
      as (m & Hi & _ & Hl).
    exists m. split; [exact Hi|]. intros st. eexists. rewrite Hl.
    unfold myexit. cbn [md_live md_km negb]. rewrite unregister_loaded. reflexivity.
Qed.

Lemma error_paths_leak_witness :
  exists m, myinit kmalloc_demo no_pages (fun _ => 0) ["ens33"%string] = Ok (-1, m) /\
    md_live m = [RBuffFromHere; RBuffTemp].
Proof.
  apply (error_paths_leak kmalloc_demo no_pages (fun _ => 0) ["ens33"%string]
           kmalloc_demo_ok).
  reflexivity.
Defined.

(** * The proc file *)

(** A page mapped through the proc file is the page [write] stores in:
    after a successful write of [len] bytes a fault on the mapping sees
    the first [min(len, BUFFER_SIZE)] of them, in front of what the page
    held before; [write] reports all [len] bytes as written, those beyond
    the page too. *)
Theorem write_shows_in_mapping e d s filp vma id page buf len :
  private_data filp = Some id -> infos s !! id = Some page ->
  zlen page = BUFFER_SIZE -> 0 <= len <= zlen buf ->
  exists s', km_write ctu_ok buf len s filp = Ok (len, s') /\
    vm_fault s' (snd (km_mmap e d filp vma)) =
      Ok (0, take (Z.to_nat (Z.min len BUFFER_SIZE)) buf ++
             drop (Z.to_nat (Z.min len BUFFER_SIZE)) page).
Proof.
  intros Hf Hi Hp Hl. unfold km_write, info_of. rewrite Hf. cbn [or_fault].
  rewrite bind_Ok, Hi. cbn [or_fault]. rewrite !bind_Ok.
  rewrite mread_Ok, bind_Ok by (km_consts; blia). cbn [ctu_ok negb Z.eqb].
  rewrite drop_0. assert (length (take (Z.to_nat (Z.min len BUFFER_SIZE)) buf)
    = Z.to_nat (Z.min len BUFFER_SIZE)) as Hlen.
  { rewrite length_take. unfold zlen in *. km_consts. lia. }
  rewrite mwrite_Ok, bind_Ok
    by (unfold in_block; unfold zlen at 1 2; rewrite Hlen; km_consts; lia).
  eexists. split; [reflexivity|]. cbn [km_mmap snd].
  unfold vm_fault, info_of. cbn [vm_private_data infos]. rewrite Hf.
  cbn [or_fault]. rewrite bind_Ok, lookup_insert_eq. cbn [or_fault].
  rewrite !bind_Ok, Hlen. reflexivity.
Qed.

Lemma write_shows_in_mapping_witness :
  exists s', km_write ctu_ok [Byte.x41] 1
    (mk_infos {[0 := replicate (Z.to_nat BUFFER_SIZE) Byte.x00]} 1) (mk_file (Some 0))
    = Ok (1, s').
Proof.
  destruct (write_shows_in_mapping 1 2
    (mk_infos {[0 := replicate (Z.to_nat BUFFER_SIZE) Byte.x00]} 1) (mk_file (Some 0))
    (mk_vma false 0 None) 0 (replicate (Z.to_nat BUFFER_SIZE) Byte.x00) [Byte.x41] 1)
    as (s' & H & _).
  - reflexivity.
  - apply lookup_singleton_eq.
  - apply zlen_replicate.
  - change (zlen [Byte.x41]) with 1. lia.
  - exists s'. exact H.
Defined.
