(* ===== verification/Parsing.v ===== *)
(** The packet parsers of the XDP programs,
    [src/eBPF_app/common/parsing_helpers.h]: header by header, each with
    its bounds checks. A packet is the bytes between [data] and
    [data_end]; pointers into it are offsets from [data], so [data_end] is
    the packet's length. Every access to the packet is checked by
    [load8]/[load16], which fault outside it. *)
From S2P Require Import Prelude.
#[local] Open Scope Z_scope.

(** * Wire formats (the uapi headers the program includes) *)

Definition ETH_HLEN : Z := 14.       (* sizeof(struct ethhdr) *)
Definition ETH_ALEN : Z := 6.
Definition sizeof_iphdr : Z := 20.
Definition sizeof_ipv6hdr : Z := 40.
Definition sizeof_icmphdr : Z := 8.
Definition sizeof_icmp6hdr : Z := 8.
Definition sizeof_udphdr : Z := 8.
Definition sizeof_tcphdr : Z := 20.

Definition ETH_P_IP : Z := 2048.       (* 0x0800 *)
Definition ETH_P_8021Q : Z := 33024.   (* 0x8100 *)
Definition ETH_P_8021AD : Z := 34984.  (* 0x88A8 *)
Definition IPPROTO_UDP : Z := 17.

(** [bpf_htons], [bpf_ntohs] on a little-endian machine
    ([libbpf/src/bpf_endian.h]). *)
Definition bpf_htons (x : Z) : Z := bswap16 x.
Definition bpf_ntohs (x : Z) : Z := bswap16 x.

(** [struct vlan_hdr] and [struct icmphdr_common] of the file. *)
Definition sizeof_vlan_hdr : Z := 4.
Definition h_vlan_TCI (pkt : list byte) (vlh : Z) : res Z := load16 pkt vlh.
Definition h_vlan_encapsulated_proto (pkt : list byte) (vlh : Z) : res Z :=
  load16 pkt (vlh + 2).
Definition sizeof_icmphdr_common : Z := 4.

Definition VLAN_MAX_DEPTH : Z := 2.
Definition VLAN_VID_MASK : Z := 4095.  (* 0x0fff *)

(** [eth->h_proto], as the 16-bit value the program reads. *)
Definition h_proto (pkt : list byte) (eth : Z) : res Z := load16 pkt (eth + 12).

(** A parser's result: the value it returns, [nh->pos] after it, and the
    header pointer it stored through its last argument (if it did). *)
Record parsed := mk_parsed {
  p_ret : Z;
  p_pos : Z;
  p_hdr : option Z
}.

Definition proto_is_vlan (proto : Z) : bool :=
  (proto =? bpf_htons ETH_P_8021Q) || (proto =? bpf_htons ETH_P_8021AD).

(** The loop over VLAN tags from [i], [n] iterations to go: the next
    header's type, the final [vlh], and [vlans->id] from index [i] on
    (nothing when [vlans] is NULL). *)
Fixpoint vlan_loop (n : nat) (pkt : list byte) (vlans : bool) (proto vlh : Z)
    : res (Z * Z * list Z) :=
  match n with
  | O => Ok (proto, vlh, [])
  | S n =>
      if negb (proto_is_vlan proto) then Ok (proto, vlh, []) else
      if zlen pkt <? vlh + sizeof_vlan_hdr then Ok (proto, vlh, []) else
      proto ← h_vlan_encapsulated_proto pkt vlh;
      id ← (if vlans then
              tci ← h_vlan_TCI pkt vlh;
              Ok [Z.land (bpf_ntohs tci) VLAN_VID_MASK]
            else Ok []);
      '(proto, vlh, ids) ← vlan_loop n pkt vlans proto (vlh + sizeof_vlan_hdr);
      Ok (proto, vlh, id ++ ids)
  end.

(** [vlans] tells whether the caller gave a [struct collect_vlans]. *)
Definition parse_ethhdr_vlan (pkt : list byte) (pos : Z) (vlans : bool)
    : res (parsed * list Z) :=
  let eth := pos in
  let hdrsize := ETH_HLEN in
  if zlen pkt <? pos + hdrsize then Ok (mk_parsed (-1) pos None, []) else
  let pos := pos + hdrsize in
  proto ← h_proto pkt eth;
  '(proto, vlh, ids) ← vlan_loop (Z.to_nat VLAN_MAX_DEPTH) pkt vlans proto pos;
  Ok (mk_parsed proto vlh (Some eth), ids).

Definition parse_ethhdr (pkt : list byte) (pos : Z) : res parsed :=
  '(p, _) ← parse_ethhdr_vlan pkt pos false;
  Ok p.

Definition parse_ip6hdr (pkt : list byte) (pos : Z) : res parsed :=
  if zlen pkt <? pos + sizeof_ipv6hdr then Ok (mk_parsed (-1) pos None) else
  nexthdr ← load8 pkt (pos + 6);
  Ok (mk_parsed nexthdr (pos + sizeof_ipv6hdr) (Some pos)).

Definition parse_iphdr (pkt : list byte) (pos : Z) : res parsed :=
  if zlen pkt <? pos + sizeof_iphdr then Ok (mk_parsed (-1) pos None) else
  b0 ← load8 pkt pos;
  let hdrsize := Z.land b0 15 * 4 in
  if hdrsize <? sizeof_iphdr then Ok (mk_parsed (-1) pos None) else
  if zlen pkt <? pos + hdrsize then Ok (mk_parsed (-1) pos None) else
  protocol ← load8 pkt (pos + 9);
  Ok (mk_parsed protocol (pos + hdrsize) (Some pos)).

Definition parse_icmp6hdr (pkt : list byte) (pos : Z) : res parsed :=
  if zlen pkt <? pos + sizeof_icmp6hdr then Ok (mk_parsed (-1) pos None) else
  icmp6_type ← load8 pkt pos;
  Ok (mk_parsed icmp6_type (pos + sizeof_icmp6hdr) (Some pos)).

Definition parse_icmphdr (pkt : list byte) (pos : Z) : res parsed :=
  if zlen pkt <? pos + sizeof_icmphdr then Ok (mk_parsed (-1) pos None) else
  type ← load8 pkt pos;
  Ok (mk_parsed type (pos + sizeof_icmphdr) (Some pos)).

Definition parse_icmphdr_common (pkt : list byte) (pos : Z) : res parsed :=
  if zlen pkt <? pos + sizeof_icmphdr_common
  then Ok (mk_parsed (-1) pos None) else
  type ← load8 pkt pos;
  Ok (mk_parsed type (pos + sizeof_icmphdr_common) (Some pos)).

(** [len] is an [int] given the [unsigned long] difference. *)
Definition parse_udphdr (pkt : list byte) (pos : Z) : res parsed :=
  if zlen pkt <? pos + sizeof_udphdr then Ok (mk_parsed (-1) pos None) else
  raw ← load16 pkt (pos + 4);
  let len := s32 (u64 (bpf_ntohs raw - sizeof_udphdr)) in
  Ok (mk_parsed (if len <? 0 then -1 else len) (pos + sizeof_udphdr) (Some pos)).

Definition parse_tcphdr (pkt : list byte) (pos : Z) : res parsed :=
  if zlen pkt <? pos + sizeof_tcphdr then Ok (mk_parsed (-1) pos None) else
  b12 ← load8 pkt (pos + 12);
  let len := Z.shiftr b12 4 * 4 in
  if len <? sizeof_tcphdr then Ok (mk_parsed (-1) pos None) else
  if zlen pkt <? pos + len then Ok (mk_parsed (-1) pos None) else
  Ok (mk_parsed len (pos + len) (Some pos)).

(** * Safety: no parser reads outside the packet *)

(** What every parser promises when started inside the packet: it returns,
    the cursor stays inside the packet and never moves back, a header it
    hands out lies entirely before the cursor, and failing is returning -1
    with no header. *)
Record parser_ok (min : Z) (pkt : list byte) (pos : Z) (p : parsed) : Prop :=
  mk_parser_ok {
    pk_pos : pos <= p_pos p <= zlen pkt;
    pk_ret : -1 <= p_ret p;
    pk_hdr : match p_hdr p with
             | Some h => h = pos /\ pos + min <= p_pos p
             | None => p_ret p = -1 /\ p_pos p = pos
             end
  }.

Definition safe_parser (min : Z) (f : list byte -> Z -> res parsed) : Prop :=
  forall pkt pos, 0 <= pos <= zlen pkt ->
  exists p, f pkt pos = Ok p /\ parser_ok min pkt pos p.

Ltac parser_consts :=
  unfold ETH_HLEN, sizeof_iphdr, sizeof_ipv6hdr, sizeof_icmphdr, sizeof_icmp6hdr,
    sizeof_icmphdr_common, sizeof_udphdr, sizeof_tcphdr, sizeof_vlan_hdr,
    VLAN_MAX_DEPTH in *.

(** Run the loads whose bounds the guards in context establish. *)
Ltac run_loads :=
  repeat match goal with
  | |- context [load8 ?m ?o ≫= _] =>
      let z := fresh "z" in let H := fresh "Hz" in
      destruct (load8_in m o) as [z H]; [parser_consts; lia|];
      pose proof (load8_range _ _ _ H); rewrite H, bind_Ok
  | |- context [load16 ?m ?o ≫= _] =>
      let z := fresh "z" in let H := fresh "Hz" in
      destruct (load16_in m o) as [z H]; [parser_consts; blia|];
      pose proof (load16_range _ _ _ H); rewrite H, bind_Ok
  end.

Ltac solve_parser :=
  intros pkt pos Hpos;
  repeat (match goal with
  | |- context [if ?a <? ?b then _ else _] => destruct (Z.ltb_spec a b)
  end; run_loads);
  (eexists; split; [reflexivity|];
   split; cbn [p_pos p_ret p_hdr]; parser_consts; lia).

Lemma fail_ok min pkt pos :
  0 <= pos <= zlen pkt -> parser_ok min pkt pos (mk_parsed (-1) pos None).
Proof. intros. split; simpl; lia. Qed.

Lemma parse_ip6hdr_safe : safe_parser sizeof_ipv6hdr parse_ip6hdr.
Proof. unfold parse_ip6hdr. solve_parser. Qed.
Lemma parse_icmp6hdr_safe : safe_parser sizeof_icmp6hdr parse_icmp6hdr.
Proof. unfold parse_icmp6hdr. solve_parser. Qed.
Lemma parse_icmphdr_safe : safe_parser sizeof_icmphdr parse_icmphdr.
Proof. unfold parse_icmphdr. solve_parser. Qed.
Lemma parse_icmphdr_common_safe :
  safe_parser sizeof_icmphdr_common parse_icmphdr_common.
Proof. unfold parse_icmphdr_common. solve_parser. Qed.
Lemma parse_iphdr_safe : safe_parser sizeof_iphdr parse_iphdr.
Proof. unfold parse_iphdr. solve_parser. Qed.
Lemma parse_tcphdr_safe : safe_parser sizeof_tcphdr parse_tcphdr.
Proof. unfold parse_tcphdr. solve_parser. Qed.
Lemma parse_udphdr_safe : safe_parser sizeof_udphdr parse_udphdr.
Proof. unfold parse_udphdr. solve_parser. Qed.

(** What the tag loop gives, in terms of the number [k] of tags it skipped. *)
Record tags_ok (n : nat) (pkt : list byte) (vlans : bool) (vlh proto' vlh' : Z)
    (ids : list Z) (k : Z) : Prop := mk_tags_ok {
  tg_proto : 0 <= proto';
  tg_count : 0 <= k <= Z.of_nat n;
  tg_pos : vlh' = vlh + sizeof_vlan_hdr * k;
  tg_end : vlh' <= zlen pkt;
  tg_ids : zlen ids = (if vlans then k else 0);
  tg_range : Forall (fun id => 0 <= id <= VLAN_VID_MASK) ids
}.

Lemma vid_range z : 0 <= Z.land z VLAN_VID_MASK <= VLAN_VID_MASK.
Proof.
  unfold VLAN_VID_MASK. change 4095 with (Z.ones 12).
  rewrite Z.land_ones by lia. change (Z.ones 12) with 4095. lia.
Qed.

Lemma vlan_loop_safe n : forall pkt vlans proto vlh,
  0 <= vlh <= zlen pkt -> 0 <= proto ->
  exists proto' vlh' ids k, vlan_loop n pkt vlans proto vlh = Ok (proto', vlh', ids) /\
    tags_ok n pkt vlans vlh proto' vlh' ids k.
Proof.
  assert (forall n pkt vlans vlh proto, 0 <= vlh <= zlen pkt -> 0 <= proto ->
    tags_ok n pkt vlans vlh proto vlh [] 0) as Hstop.
  { intros. split; [lia | lia | lia | lia | destruct vlans; reflexivity | constructor]. }
  induction n as [|n IH]; intros pkt vlans proto vlh Hv Hp; cbn [vlan_loop].
  { eexists _, _, _, 0. auto. }
  destruct (negb (proto_is_vlan proto)); [eexists _, _, _, 0; auto|].
  destruct (Z.ltb_spec (zlen pkt) (vlh + sizeof_vlan_hdr));
    [eexists _, _, _, 0; auto|].
  unfold h_vlan_encapsulated_proto, h_vlan_TCI. run_loads.
  destruct (IH pkt vlans z (vlh + sizeof_vlan_hdr))
    as (p & v & ids & k & E & [Hp' Hk Hpos Hend Hids Hr]); [parser_consts; lia | lia |].
  destruct vlans; run_loads; rewrite bind_Ok, E, bind_Ok;
    eexists _, _, _, (k + 1); (split; [reflexivity|]);
    (split; [exact Hp' | lia | parser_consts; lia | exact Hend | |]).
  - rewrite zlen_app, Hids. unfold zlen. simpl. lia.
  - apply Forall_app. split; [apply Forall_singleton, vid_range | exact Hr].
  - exact Hids.
  - exact Hr.
Qed.

Lemma parse_ethhdr_vlan_safe pkt pos vlans :
  0 <= pos <= zlen pkt ->
  exists p ids k, parse_ethhdr_vlan pkt pos vlans = Ok (p, ids) /\
    parser_ok ETH_HLEN pkt pos p /\
    0 <= k <= VLAN_MAX_DEPTH /\ zlen ids = (if vlans then k else 0) /\
    Forall (fun id => 0 <= id <= VLAN_VID_MASK) ids /\
    (is_Some (p_hdr p) -> p_pos p = pos + ETH_HLEN + sizeof_vlan_hdr * k).
Proof.
  intros Hpos. unfold parse_ethhdr_vlan.
  destruct (Z.ltb_spec (zlen pkt) (pos + ETH_HLEN)).
  - eexists _, _, 0. split; [reflexivity|]. split; [apply fail_ok, Hpos|].
    split; [vm_compute; split; discriminate|].
    split; [destruct vlans; reflexivity|]. split; [constructor|].
    intros [? [=]].
  - unfold h_proto. run_loads.
    destruct (vlan_loop_safe (Z.to_nat VLAN_MAX_DEPTH) pkt vlans z (pos + ETH_HLEN))
      as (p & v & ids & k & -> & [Hp' Hk Hp Hend Hids Hr]); [parser_consts; lia | lia |].
    rewrite bind_Ok. eexists _, ids, k. split; [reflexivity|].
    split; [split; cbn [p_pos p_ret p_hdr]; parser_consts; lia|].
    split; [parser_consts; lia|]. split; [exact Hids|]. split; [exact Hr|].
    intros _. exact Hp.
Qed.

Lemma parse_ethhdr_safe : safe_parser ETH_HLEN parse_ethhdr.
Proof.
  intros pkt pos Hpos.
  destruct (parse_ethhdr_vlan_safe pkt pos false Hpos) as (p & ids & k & E & Hok & _).
  exists p. unfold parse_ethhdr. rewrite E. auto.
Qed.
