(* ===== verification/BpfMap.v ===== *)
(** The interface between the BPF programs, the user program and the
    kernel's array maps. The maps are the kernel's: the programs are
    modelled over any implementation of [ArrayMap], and their theorems use
    only the laws of [ArrayMapLaws], which state the documented behaviour
    of [BPF_MAP_TYPE_ARRAY]. [list_map] is one implementation. *)
From S2P Require Import Prelude.
#[local] Open Scope Z_scope.

(** [M] is the state of a map with values [V]; keys are [unsigned int]s.
    [am_store m k v] writes through the pointer [bpf_map_lookup_elem]
    returned for [k]. *)
Class ArrayMap (M V : Type) := {
  am_max : M -> Z;
  am_lookup : M -> Z -> option V;
  am_store : M -> Z -> V -> M;
  am_update : M -> Z -> V -> Z * M
}.

Class ArrayMapLaws (M V : Type) `{ArrayMap M V} := {
  am_lookup_in m k : 0 <= k < am_max m -> is_Some (am_lookup m k);
  am_lookup_out m k : am_max m <= k -> am_lookup m k = None;
  am_lookup_store m k v j :
    0 <= k < am_max m -> 0 <= j ->
    am_lookup (am_store m k v) j = if decide (k = j) then Some v else am_lookup m j;
  am_max_store m k v : am_max (am_store m k v) = am_max m;
  am_update_in m k v : 0 <= k < am_max m -> am_update m k v = (0, am_store m k v);
  am_update_out m k v : am_max m <= k ->
    exists e, e < 0 /\ am_update m k v = (e, m)
}.

Section array_map.
Context {M V : Type} `{ArrayMapLaws M V}.

(** An update, whatever the key. *)
Lemma am_lookup_update (m : M) k (v : V) j :
  0 <= k -> 0 <= j ->
  am_lookup (snd (am_update m k v)) j =
  if decide (k = j /\ k < am_max m) then Some v else am_lookup m j.
Proof.
  intros Hk Hj. destruct (Z.lt_ge_cases k (am_max m)) as [Hlt|Hge].
  - rewrite am_update_in by lia. cbn [snd]. rewrite am_lookup_store by lia.
    apply decide_ext. naive_solver.
  - destruct (am_update_out m k v Hge) as (e & _ & ->). cbn [snd].
    rewrite decide_False; [reflexivity | lia].
Qed.

Lemma am_max_update (m : M) k (v : V) :
  0 <= k -> am_max (snd (am_update m k v)) = am_max m.
Proof.
  intros Hk. destruct (Z.lt_ge_cases k (am_max m)) as [Hlt|Hge].
  - rewrite am_update_in by lia. apply am_max_store.
  - destruct (am_update_out m k v Hge) as (e & _ & ->). reflexivity.
Qed.

Lemma am_lookup_Some_lt (m : M) k (v : V) : am_lookup m k = Some v -> k < am_max m.
Proof.
  intros Hl. apply Z.lt_nge. intros Hge. rewrite am_lookup_out in Hl by exact Hge.
  discriminate.
Qed.
End array_map.

(** * An implementation: the values in a list *)

Record list_map (V : Type) := mk_list_map { lm_cells : list V }.
Arguments mk_list_map {V} _.
Arguments lm_cells {V} _.

#[export] Instance list_array_map V : ArrayMap (list_map V) V := {|
  am_max m := zlen (lm_cells m);
  am_lookup m k := if 0 <=? k then lm_cells m !! Z.to_nat k else None;
  am_store m k v := mk_list_map (<[Z.to_nat k := v]> (lm_cells m));
  am_update m k v :=
    if (0 <=? k) && (k <? zlen (lm_cells m))
    then (0, mk_list_map (<[Z.to_nat k := v]> (lm_cells m))) else (-7, m)
|}.

#[export] Instance list_array_map_laws V : ArrayMapLaws (list_map V) V.
Proof.
  split; unfold am_max, am_lookup, am_store, am_update; cbn;
    unfold zlen; intros m k.
  - intros Hk. replace (0 <=? k) with true by lia. apply lookup_lt_is_Some. lia.
  - intros Hk. replace (0 <=? k) with true by lia. apply lookup_ge_None. lia.
  - intros v j Hk Hj. replace (0 <=? j) with true by lia. case_decide.
    + subst. apply list_lookup_insert_eq. lia.
    + apply list_lookup_insert_ne. lia.
  - intros v. rewrite length_insert. reflexivity.
  - intros v Hk. replace (0 <=? k) with true by lia.
    replace (k <? Z.of_nat (length (lm_cells m))) with true by lia. reflexivity.
  - intros v Hk. exists (-7).
    replace (k <? Z.of_nat (length (lm_cells m))) with false by lia.
    rewrite andb_false_r. split; [lia | reflexivity].
Qed.
