(* ===== verification/XdpMeasure.v ===== *)
(** The XDP program that measures arrival times in the kernel,
    [src/eBPF_app/eBPF_measure/ebpf_measure_kern.c], over any array maps. *)
From S2P Require Import Prelude CommonH Parsing BpfMap.
#[local] Open Scope Z_scope.

Definition XDP_PASS : Z := 2.

(** The definitions of the three maps: [max_entries]. *)
Definition uid_timestamps_max_entries : Z := 1 + MAX_LOG_ENTRY.
Definition pkt_payload_max_entries : Z := 1 + MAX_LOG_ENTRY.
Definition xdp_stats_max_entries : Z := 64.

(** The program reads the payload at this fixed offset: 14 bytes of
    Ethernet, 20 of IPv4, 8 of UDP. *)
Definition PAYLOAD_OFFSET : Z := 42.

Section xdp.
Context {T P S : Type}.
Context `{AT : ArrayMap T Z} `{AP : ArrayMap P (list byte)} `{AS : ArrayMap S Z}.

Record xdp_maps := mk_xdp_maps {
  uid_timestamps : T;
  pkt_payload : P;
  xdp_stats_map : S
}.

(** The guards of the program: [Some pos] when the packet passes all of
    them, with the cursor [nh.pos] after the UDP header. *)
Definition xdp_filter (pkt : list byte) : res (option Z) :=
  eth ← parse_ethhdr pkt 0;
  if negb (p_ret eth =? bpf_htons ETH_P_IP) then Ok None else
  ip ← parse_iphdr pkt (p_pos eth);
  if negb (p_ret ip =? IPPROTO_UDP) then Ok None else
  udp ← parse_udphdr pkt (p_pos ip);
  if negb (u64 (p_ret udp) =? sizeof_Payload) then Ok None else
  udphdr ← or_fault NullDeref (p_hdr udp);
  dest ← load16 pkt (udphdr + 2);
  if negb (dest =? bpf_htons DEST_PORT) then Ok None else
  Ok (Some (p_pos udp)).

(** "Logging, copying payload data, counting". The maps' keys are 32 bits
    wide: of [pl->uid] the first four bytes are the key. *)
Definition xdp_record (pkt : list byte) (index now : Z) (m : xdp_maps)
    : res xdp_maps :=
  key ← load32 pkt (PAYLOAD_OFFSET + 8);
  let ts :=
    match am_lookup (uid_timestamps m) key with
    | Some _ => am_store (uid_timestamps m) key now
    | None => uid_timestamps m
    end in
  pl ← mread pkt PAYLOAD_OFFSET sizeof_Payload;
  let '(_, pp) := am_update (pkt_payload m) key pl in
  let st :=
    match am_lookup (xdp_stats_map m) (u32 index) with
    | Some pkt_count => am_store (xdp_stats_map m) (u32 index) (u32 (pkt_count + 1))
    | None => xdp_stats_map m
    end in
  Ok (mk_xdp_maps ts pp st).

Definition xdp_sock_prog (pkt : list byte) (rx_queue_index now : Z) (m : xdp_maps)
    : res (Z * xdp_maps) :=
  let index := rx_queue_index in
  passed ← xdp_filter pkt;
  match passed with
  | None => Ok (XDP_PASS, m)
  | Some _ =>
      if 106 <=? zlen pkt then
        if PAYLOAD_OFFSET + sizeof_Payload <=? zlen pkt then
          m ← xdp_record pkt index now m;
          Ok (XDP_PASS, m)
        else Ok (XDP_PASS, m)
      else Ok (XDP_PASS, m)
  end.

(** * Lemmas *)

Lemma xdp_filter_total pkt :
  exists o, xdp_filter pkt = Ok o /\
    match o with Some pos => 42 <= pos <= zlen pkt | None => True end.
Proof.
  unfold xdp_filter. pose proof (zlen_nonneg pkt).
  destruct (parse_ethhdr_safe pkt 0) as (eth & -> & [Ep Er Eh]); [lia|].
  rewrite bind_Ok.
  destruct (Z.eqb_spec (p_ret eth) (bpf_htons ETH_P_IP)) as [He|];
    [|exists None; auto]. cbn [negb].
  destruct (p_hdr eth) as [h|]; [|rewrite (proj1 Eh) in He; discriminate].
  destruct (parse_iphdr_safe pkt (p_pos eth)) as (ip & -> & [Ip Ir Ih]); [lia|].
  rewrite bind_Ok.
  destruct (Z.eqb_spec (p_ret ip) IPPROTO_UDP) as [Hi|]; [|exists None; auto].
  cbn [negb].
  destruct (p_hdr ip) as [hi|]; [|rewrite (proj1 Ih) in Hi; discriminate].
  destruct (parse_udphdr_safe pkt (p_pos ip)) as (udp & -> & [Up Ur Uh]); [lia|].
  rewrite bind_Ok.
  destruct (Z.eqb_spec (u64 (p_ret udp)) sizeof_Payload) as [Hu|];
    [|exists None; auto]. cbn [negb].
  destruct (p_hdr udp) as [hu|]; [|rewrite (proj1 Uh) in Hu; discriminate].
  cbn [or_fault]. rewrite bind_Ok. destruct Uh as [-> Ul]. destruct Eh, Ih.
  destruct (load16_in pkt (p_pos ip + 2)) as [d Hd]; [parser_consts; blia|].
  rewrite Hd, bind_Ok. destruct (d =? bpf_htons DEST_PORT); cbn [negb];
    [|exists None; auto].
  eexists. split; [reflexivity|]. parser_consts. lia.
Qed.

Lemma load32_window m off :
  in_block m off 4 -> load32 m off = Ok (le_val (window m off 4)).
Proof. intros H. unfold load32. rewrite mread_window by exact H. reflexivity. Qed.
End xdp.
Arguments xdp_maps T P S : clear implicits.

(** * What the program records *)

Section xdp_effects.
Context {T P S : Type}.
Context `{LT : ArrayMapLaws T Z} `{LP : ArrayMapLaws P (list byte)}
  `{LS : ArrayMapLaws S Z}.

(** The payload the program sees, and the key it derives from it. *)
Definition seen_payload (pkt : list byte) : list byte :=
  window pkt PAYLOAD_OFFSET sizeof_Payload.
Definition seen_key (pkt : list byte) : Z := u32 (field (seen_payload pkt) 1).

(** [m'] is [m] after recording one packet. *)
Record recorded (pkt : list byte) (index now : Z) (m m' : xdp_maps T P S) : Prop :=
  mk_recorded {
    rc_ts : forall j, 0 <= j ->
      am_lookup (uid_timestamps m') j =
      if decide (seen_key pkt = j /\ j < am_max (uid_timestamps m))
      then Some now else am_lookup (uid_timestamps m) j;
    rc_payload : forall j, 0 <= j ->
      am_lookup (pkt_payload m') j =
      if decide (seen_key pkt = j /\ j < am_max (pkt_payload m))
      then Some (seen_payload pkt) else am_lookup (pkt_payload m) j;
    rc_stats : forall j, 0 <= j ->
      am_lookup (xdp_stats_map m') j =
      if decide (u32 index = j)
      then (fun c => u32 (c + 1)) <$> am_lookup (xdp_stats_map m) j
      else am_lookup (xdp_stats_map m) j
  }.

Lemma seen_key_range pkt : 0 <= seen_key pkt < 2 ^ 32.
Proof. apply u32_range. Qed.

Lemma load_seen_key pkt :
  PAYLOAD_OFFSET + sizeof_Payload <= zlen pkt ->
  load32 pkt (PAYLOAD_OFFSET + 8) = Ok (seen_key pkt).
Proof.
  change (PAYLOAD_OFFSET + sizeof_Payload) with 1066.
  change (PAYLOAD_OFFSET + 8) with 50. intros Hl.
  rewrite load32_window by blia. f_equal.
  unfold seen_key, u32. change (2 ^ 32) with (256 ^ Z.of_nat 4).
  unfold field. rewrite <- le_val_take, take_take. f_equal.
  unfold seen_payload, window, PAYLOAD_OFFSET.
  change (Z.to_nat sizeof_Payload) with 1024%nat.
  change (Z.to_nat 4) with 4%nat. change (8 * 1)%nat with 8%nat.
  change (4 `min` 8)%nat with 4%nat.
  rewrite (take_drop_commute (take 1024 _)), take_take.
  change (8 + 4)%nat with 12%nat. change (12 `min` 1024)%nat with 12%nat.
  change 12%nat with (8 + 4)%nat.
  rewrite <- take_drop_commute, drop_drop. reflexivity.
Qed.

Lemma xdp_record_spec pkt index now (m : xdp_maps T P S) :
  PAYLOAD_OFFSET + sizeof_Payload <= zlen pkt ->
  exists m', xdp_record pkt index now m = Ok m' /\ recorded pkt index now m m'.
Proof.
  intros Hl. unfold xdp_record. rewrite load_seen_key, bind_Ok by exact Hl.
  pose proof (seen_key_range pkt) as Hk. pose proof (u32_range index) as Hi.
  rewrite mread_window, bind_Ok
    by (change sizeof_Payload with 1024 in *; unfold PAYLOAD_OFFSET in *; blia).
  fold (seen_payload pkt).
  destruct (am_update (pkt_payload m) (seen_key pkt) (seen_payload pkt))
    as [r pp] eqn:Hu.
  eexists. split; [reflexivity|]. split; intros j Hj;
    cbn [uid_timestamps pkt_payload xdp_stats_map].
  - destruct (am_lookup (uid_timestamps m) (seen_key pkt)) as [v|] eqn:Hv.
    + pose proof (am_lookup_Some_lt _ _ _ Hv).
      rewrite am_lookup_store by lia. apply decide_ext. intuition congruence.
    + rewrite decide_False; [reflexivity|]. intros [<- Hlt].
      destruct (am_lookup_in (uid_timestamps m) (seen_key pkt)) as [? ?];
        [lia | congruence].
  - pose proof (am_lookup_update (pkt_payload m) (seen_key pkt)
      (seen_payload pkt) j ltac:(lia) Hj) as Hlk.
    rewrite Hu in Hlk. cbn [snd] in Hlk. rewrite Hlk. apply decide_ext.
    intuition congruence.
  - destruct (am_lookup (xdp_stats_map m) (u32 index)) as [c|] eqn:Hc.
    + pose proof (am_lookup_Some_lt _ _ _ Hc).
      rewrite am_lookup_store by lia. case_decide as Hij; [|reflexivity].
      rewrite <- Hij, Hc. reflexivity.
    + case_decide as Hij; [|reflexivity]. rewrite <- Hij, Hc. reflexivity.
Qed.

(** The whole program: it always passes the packet on, and records it when
    the filter accepts it and the payload is complete. *)
Lemma xdp_prog_spec pkt index now (m : xdp_maps T P S) :
  exists passed m', xdp_filter pkt = Ok passed /\
    xdp_sock_prog pkt index now m = Ok (XDP_PASS, m') /\
    if bool_decide (is_Some passed /\ PAYLOAD_OFFSET + sizeof_Payload <= zlen pkt)
    then recorded pkt index now m m' else m' = m.
Proof.
  destruct (xdp_filter_total pkt) as (o & Hf & _). exists o.
  unfold xdp_sock_prog. rewrite Hf, bind_Ok. destruct o as [pos|].
  - change (PAYLOAD_OFFSET + sizeof_Payload) with 1066.
    destruct (Z.leb_spec 1066 (zlen pkt)) as [Hl|Hl].
    + replace (106 <=? zlen pkt) with true by lia.
      destruct (xdp_record_spec pkt index now m Hl) as (m' & Hr & Hrec).
      exists m'. rewrite Hr, bind_Ok. rewrite bool_decide_eq_true_2 by eauto.
      auto.
    + exists m. rewrite bool_decide_eq_false_2 by (intros [_ ?]; lia).
      destruct (106 <=? zlen pkt); auto.
  - exists m. rewrite bool_decide_eq_false_2 by (intros [[? [=]] _]). auto.
Qed.
End xdp_effects.

(** * Where the payload is *)

(** An untagged packet with a 20-byte IPv4 header that the filter accepts
    has its UDP payload at [PAYLOAD_OFFSET]. *)
Definition plain_headers (pkt : list byte) : Prop :=
  load16 pkt 12 = Ok (bpf_htons ETH_P_IP) /\
  exists b0, load8 pkt 14 = Ok b0 /\ Z.land b0 15 = 5.

Lemma plain_payload_offset pkt pos :
  plain_headers pkt -> xdp_filter pkt = Ok (Some pos) -> pos = PAYLOAD_OFFSET.
Proof.
  intros (He & b0 & Hb & Hihl). unfold xdp_filter, parse_ethhdr, parse_ethhdr_vlan.
  change (0 + ETH_HLEN) with 14. unfold h_proto. change (0 + 12) with 12.
  destruct (zlen pkt <? 14); [discriminate|]. rewrite He, bind_Ok.
  change (vlan_loop _ _ _ _ _) with (@Ok (Z * Z * list Z) (bpf_htons ETH_P_IP, 14, [])).
  rewrite !bind_Ok. cbn [p_ret p_pos]. rewrite Z.eqb_refl. cbn [negb].
  unfold parse_iphdr.
  destruct (zlen pkt <? 14 + sizeof_iphdr); [discriminate|].
  rewrite Hb, bind_Ok, Hihl. change (5 * 4 <? sizeof_iphdr) with false.
  destruct (zlen pkt <? 14 + 5 * 4); [discriminate|]. intros H. res_inv. subst.
  cbn [p_ret p_pos] in H.
  destruct (negb _); [discriminate|]. res_inv. subst.
  unfold parse_udphdr in E. destruct (zlen pkt <? _) in E; [res_inv; subst; discriminate|].
  res_inv. subst. destruct (negb _) in H; [discriminate|]. res_inv. subst.
  destruct (negb _) in H; [discriminate|]. res_inv. subst. reflexivity.
Qed.
