(* ===== verification/EbpfUser.v ===== *)
(** The user-space half of the eBPF application,
    [src/eBPF_app/eBPF_measure/ebpf_measure_user.c]: the checksum helpers,
    the loop that polls the payload map for the next packet, and the export
    of both logs. *)
From S2P Require Import Prelude CommonH BpfMap.
#[local] Open Scope Z_scope.
#[local] Set Default Proof Using "Type".

(** * Incremental checksums (one's complement, 16 bits) *)

Definition csum16_add (csum addend : Z) : Z :=
  let res := u16 csum in
  let res := u16 (res + u16 addend) in
  u16 (res + bool_z (res <? u16 addend)).

Definition csum16_sub (csum addend : Z) : Z := csum16_add csum (u16 (Z.lnot addend)).

(** [csum_replace2(sum, old, new)]: the value stored in [*sum]. *)
Definition csum_replace2 (sum old new : Z) : Z :=
  u16 (Z.lnot (csum16_add (csum16_sub (u16 (Z.lnot sum)) old) new)).

(** * Time *)

Definition NANOSEC_PER_SEC : Z := 1000000000.

(** [gettime], from what [clock_gettime] gives: [None] when it fails, and
    the program exits. *)
Definition gettime (t : option (Z * Z)) : option Z :=
  match t with
  | None => None
  | Some (tv_sec, tv_nsec) => Some (u64 (u64 tv_sec * NANOSEC_PER_SEC + tv_nsec))
  end.

(** * Fetching packets *)

Section fetch.
Context {P : Type} `{AP : ArrayMap P (list byte)}.

(** [now] is the clock at the call. The value found in the map is a whole
    [struct Payload]. *)
Definition fetch_and_process_packet (pkt_map : P) (next_uid now : Z)
    (log_buffs : log_table) : res (bool * log_table) :=
  match am_lookup pkt_map next_uid with
  | None => Ok (false, log_buffs)
  | Some bytes =>
      map_pl ← load_Payload bytes 0;
      if payload_valid map_pl then
        if (uid map_pl <? MAX_LOG_ENTRY) && (0 <=? uid map_pl) then
          let buff_index := u32 (uid map_pl / MAX_ENTRIES_PER_LOG_BUFF) in
          log_buffs ← log_store log_buffs buff_index (uid map_pl) now;
          Ok (true, log_buffs)
        else Ok (false, log_buffs)
      else Ok (false, log_buffs)
  end.

(** [while (!global_exit) { ... }]: one element of [polls] per iteration,
    the map as the kernel has it then and the clock. *)
Fixpoint fetch_loop (polls : list (P * Z)) (next_uid : Z) (log_buffs : log_table)
    : res (Z * log_table) :=
  match polls with
  | [] => Ok (next_uid, log_buffs)
  | (pkt_map, now) :: polls =>
      '(fetched, log_buffs) ← fetch_and_process_packet pkt_map next_uid now log_buffs;
      fetch_loop polls (if (fetched : bool) then u32 (next_uid + 1) else next_uid) log_buffs
  end.
End fetch.

(** * Allocation and export *)

(** The [malloc] loop. *)
Definition malloc_log_buffs (malloc : Z -> option (list Z)) : log_table + list Z :=
  malloc_loop malloc (Z.to_nat NUM_LOG_BUFF) 0 [].

(** "Export log file for userspace". *)
Definition export_user_log (log_buffs : log_table) : res (list string * Z) :=
  export_from lu_line log_buffs 0 (Z.to_nat MAX_LOG_ENTRY) 0.

(** "Export log file for kernel space (from map)": one line per entry the
    lookup finds. *)
Fixpoint export_kern_from {T} `{ArrayMap T Z} (time_map : T) (i : Z) (n : nat)
    : list string :=
  match n with
  | O => []
  | S n =>
      match am_lookup time_map i with
      | Some v => lu_line v :: export_kern_from time_map (i + 1) n
      | None => export_kern_from time_map (i + 1) n
      end
  end.

Definition export_kern_log {T} `{ArrayMap T Z} (time_map : T) : list string :=
  export_kern_from time_map 0 (Z.to_nat MAX_LOG_ENTRY).

(** * Lemmas *)

(** One's complement addition is addition modulo [2^16 - 1]. *)
Lemma csum16_add_mod csum addend :
  0 <= csum < 2 ^ 16 -> 0 <= addend < 2 ^ 16 ->
  csum16_add csum addend mod 65535 = (csum + addend) mod 65535.
Proof.
  intros. unfold csum16_add, bool_z. rewrite !(u16_small csum), !(u16_small addend) by lia.
  destruct (Z.ltb_spec (u16 (csum + addend)) addend); wrap_lia.
Qed.

Lemma csum16_add_range csum addend : 0 <= csum16_add csum addend < 2 ^ 16.
Proof. apply u16_range. Qed.

Lemma u16_lnot z : 0 <= z < 2 ^ 16 -> u16 (Z.lnot z) = 65535 - z.
Proof. intros. unfold Z.lnot. wrap_lia. Qed.

Lemma csum_replace2_mod sum old new :
  0 <= sum < 2 ^ 16 -> 0 <= old < 2 ^ 16 -> 0 <= new < 2 ^ 16 ->
  (65535 - csum_replace2 sum old new) mod 65535 =
  (65535 - sum - old + new) mod 65535.
Proof.
  intros Hs Ho Hn. unfold csum_replace2.
  pose proof (csum16_add_range (csum16_sub (u16 (Z.lnot sum)) old) new) as Hr.
  rewrite (u16_lnot (csum16_add _ _)) by exact Hr.
  replace (65535 - (65535 - csum16_add (csum16_sub (u16 (Z.lnot sum)) old) new))
    with (csum16_add (csum16_sub (u16 (Z.lnot sum)) old) new) by lia.
  rewrite csum16_add_mod by (first [apply csum16_add_range | exact Hn]).
  unfold csum16_sub. rewrite (u16_lnot old Ho), (u16_lnot sum Hs).
  rewrite <- Z.add_mod_idemp_l by lia.
  rewrite csum16_add_mod by lia. rewrite Z.add_mod_idemp_l by lia.
  replace (65535 - sum + (65535 - old) + new)
    with (65535 - sum - old + new + 1 * 65535) by lia.
  apply Z.mod_add. lia.
Qed.

Section fetch_lemmas.
Context {P : Type} `{LP : ArrayMapLaws P (list byte)}.

(** The payloads in the map are whole. *)
Definition payload_map_ok (pm : P) : Prop :=
  forall k bytes, 0 <= k -> am_lookup pm k = Some bytes -> zlen bytes = sizeof_Payload.

(** What the map holds for packet [k], as the user program reads it. *)
Definition payload_at (pm : P) (k : Z) : option Payload :=
  Payload_of_bytes <$> am_lookup pm k.

(** Packet [k] can be fetched: its entry is a valid packet whose uid fits
    the log. *)
Definition fetchable (pm : P) (k : Z) : bool :=
  match payload_at pm k with
  | Some pl => payload_valid pl && (uid pl <? MAX_LOG_ENTRY)
  | None => false
  end.

Lemma load_Payload_whole bytes :
  zlen bytes = sizeof_Payload -> load_Payload bytes 0 = Ok (Payload_of_bytes bytes).
Proof.
  intros Hl. unfold load_Payload. rewrite mread_Ok by (rewrite <- Hl; pose proof
    (zlen_nonneg bytes); blia).
  rewrite bind_Ok, drop_0, take_ge; [reflexivity|]. unfold zlen in Hl. lia.
Qed.

Lemma fetch_spec pm k now lb :
  payload_map_ok pm -> log_ok lb -> 0 <= k ->
  exists lb', fetch_and_process_packet pm k now lb = Ok (fetchable pm k, lb') /\
    log_ok lb' /\
    log_flat lb' =
      match payload_at pm k with
      | Some pl => if fetchable pm k then <[Z.to_nat (uid pl) := now]> (log_flat lb)
                   else log_flat lb
      | None => log_flat lb
      end.
Proof.
  intros Hm Hlb Hk. unfold fetch_and_process_packet, fetchable, payload_at.
  destruct (am_lookup pm k) as [bytes|] eqn:Hl; cbn [fmap option_fmap option_map];
    [|exists lb; auto].
  rewrite load_Payload_whole, bind_Ok by (eapply Hm; eassumption).
  set (pl := Payload_of_bytes bytes).
  destruct (payload_valid pl); cbn [andb]; [|exists lb; auto].
  assert (0 <= uid pl) as Hu by apply le_val_range.
  replace (0 <=? uid pl) with true by lia. rewrite andb_true_r.
  destruct (Z.ltb_spec (uid pl) MAX_LOG_ENTRY); [|exists lb; auto].
  rewrite u32_small by (rewrite MAX_LOG_ENTRY_eq, MAX_ENTRIES_PER_LOG_BUFF_eq in *; lia).
  destruct (log_store_flat lb Hlb (uid pl) now) as (lb' & -> & Hok & Hfl); [lia|].
  rewrite bind_Ok. exists lb'. auto.
Qed.

(** The loop never fails, keeps the log well formed, and only moves
    forward, one packet per poll. *)
Lemma fetch_loop_total polls : forall k lb,
  Forall (fun p => payload_map_ok (fst p)) polls -> log_ok lb ->
  0 <= k -> k + zlen polls < 2 ^ 32 ->
  exists k' lb', fetch_loop polls k lb = Ok (k', lb') /\ log_ok lb' /\
    k <= k' <= k + zlen polls.
Proof.
  induction polls as [|[pm now] polls IH]; intros k lb Hm Hlb Hk Hb.
  - exists k, lb. change (zlen []) with 0. auto with lia.
  - apply Forall_cons in Hm as [Hpm Hm]. cbn [fetch_loop fst] in *.
    assert (zlen ((pm, now) :: polls) = zlen polls + 1) as Hz
      by (unfold zlen; simpl; lia). rewrite Hz in *.
    pose proof (zlen_nonneg polls).
    destruct (fetch_spec pm k now lb Hpm Hlb Hk) as (lb1 & -> & Hlb1 & _).
    rewrite bind_Ok. rewrite u32_small by lia.
    destruct (IH (if fetchable pm k then k + 1 else k) lb1)
      as (k' & lb' & -> & Hlb' & Hr); auto; try (destruct (fetchable pm k); lia).
    exists k', lb'. split; [reflexivity|]. split; [exact Hlb'|].
    destruct (fetchable pm k); lia.
Qed.

(** Head-of-line blocking: while packet [lost] cannot be fetched, no later
    packet is. *)
Lemma fetch_loop_blocked polls : forall k lb lost k' lb',
  Forall (fun p => payload_map_ok (fst p)) polls -> log_ok lb ->
  Forall (fun p => fetchable (fst p) lost = false) polls ->
  0 <= k <= lost -> lost < 2 ^ 32 - 1 ->
  fetch_loop polls k lb = Ok (k', lb') -> k' <= lost.
Proof.
  induction polls as [|[pm now] polls IH]; intros k lb lost k' lb' Hm Hlb Hl Hk Hw Hf.
  - simpl in Hf. injection Hf as <- _. lia.
  - apply Forall_cons in Hm as [Hpm Hm]. apply Forall_cons in Hl as [Hlost Hl].
    cbn [fetch_loop fst] in *.
    destruct (fetch_spec pm k now lb Hpm Hlb ltac:(lia)) as (lb1 & E & Hlb1 & _).
    rewrite E, bind_Ok in Hf. rewrite u32_small in Hf by lia.
    eapply IH in Hf; [exact Hf|exact Hm|exact Hlb1|exact Hl| |exact Hw].
    destruct (fetchable pm k) eqn:Ef; [|lia].
    assert (k <> lost) by (intros ->; congruence). lia.
Qed.

(** Progress: when every poll finds the packet it asks for, with its own
    uid in it, the loop logs the arrival of each, in order. *)
Definition carries (pm : P) (k : Z) : Prop :=
  fetchable pm k = true /\ uid <$> payload_at pm k = Some k.

Lemma fetch_loop_progress polls : forall k lb,
  Forall (fun p => payload_map_ok (fst p)) polls -> log_ok lb -> 0 <= k ->
  k + zlen polls <= MAX_LOG_ENTRY ->
  (forall i p, polls !! i = Some p -> carries (fst p) (k + Z.of_nat i)) ->
  exists lb', fetch_loop polls k lb = Ok (k + zlen polls, lb') /\ log_ok lb' /\
    log_flat lb' = list_inserts (Z.to_nat k) polls.*2 (log_flat lb).
Proof.
  induction polls as [|[pm now] polls IH]; intros k lb Hm Hlb Hk Hb Hc.
  - exists lb. change (zlen []) with 0. rewrite Z.add_0_r. auto.
  - apply Forall_cons in Hm as [Hpm Hm]. cbn [fetch_loop fst] in *.
    assert (zlen ((pm, now) :: polls) = zlen polls + 1) as Hz
      by (unfold zlen; simpl; lia). rewrite Hz in *.
    pose proof (zlen_nonneg polls).
    destruct (Hc O (pm, now) eq_refl) as [Hf Hu].
    rewrite Z.add_0_r in Hf, Hu. cbn [fst] in *.
    destruct (fetch_spec pm k now lb Hpm Hlb Hk) as (lb1 & -> & Hlb1 & Hfl).
    destruct (payload_at pm k) as [pl|]; [|discriminate].
    cbn in Hu. injection Hu as Hu. rewrite Hf in Hfl. rewrite Hf, bind_Ok.
    rewrite u32_small by (rewrite MAX_LOG_ENTRY_eq in *; lia).
    destruct (IH (k + 1) lb1 Hm Hlb1 ltac:(lia) ltac:(lia)) as (lb' & -> & Hlb' & Hfl').
    { intros i p Hi. replace (k + 1 + Z.of_nat i) with (k + Z.of_nat (S i)) by lia.
      apply (Hc (S i)). exact Hi. }
    exists lb'. split; [do 2 f_equal; lia|]. split; [exact Hlb'|].
    rewrite Hfl', Hfl, Hu.
    replace (Z.to_nat (k + 1)) with (S (Z.to_nat k)) by lia.
    rewrite fmap_cons. cbn [list_inserts snd].
    rewrite list_insert_inserts_lt by lia. reflexivity.
Qed.
End fetch_lemmas.

(** * The exports *)

(** The user-space log file has one line per packet of the log, in order of
    the uids; the kernel's has one line per entry of the time map that
    exists. *)
Lemma exports_spec {T} `{LT : ArrayMapLaws T Z} lb (time_map : T) :
  log_ok lb ->
  export_user_log lb = Ok (lu_line <$> log_flat lb, count_zero (log_flat lb)) /\
  export_kern_log time_map =
    lu_line <$> omap (am_lookup time_map) (seqZ 0 MAX_LOG_ENTRY) /\
  (MAX_LOG_ENTRY <= am_max time_map -> zlen (export_kern_log time_map) = MAX_LOG_ENTRY).
Proof.
  intros Hlb.
  assert (forall n i, export_kern_from time_map i n =
    lu_line <$> omap (am_lookup time_map) (seqZ i (Z.of_nat n))) as Hk.
  { induction n as [|n IH]; intros i; [reflexivity|].
    rewrite seqZ_cons by lia. cbn [export_kern_from omap list_omap].
    replace (Z.pred (Z.of_nat (S n))) with (Z.of_nat n) by lia.
    rewrite IH. replace (Z.succ i) with (i + 1) by lia.
    destruct (am_lookup time_map i); reflexivity. }
  split; [|split].
  - unfold export_user_log. rewrite export_from_spec
      by (first [exact Hlb | rewrite ?MAX_LOG_ENTRY_eq; lia]).
    rewrite drop_0, take_ge; [reflexivity|]. rewrite log_ok_length by exact Hlb. lia.
  - unfold export_kern_log. rewrite Hk, Z2Nat.id; [reflexivity|].
    rewrite MAX_LOG_ENTRY_eq. lia.
  - intros Hmax. unfold export_kern_log. rewrite Hk, Z2Nat.id
      by (rewrite MAX_LOG_ENTRY_eq; lia).
    unfold zlen. rewrite length_fmap.
    assert (forall l, Forall (fun i => 0 <= i < am_max time_map) l ->
      length (omap (am_lookup time_map) l) = length l) as Hlen.
    { induction l as [|x l IH]; intros Hf; [reflexivity|].
      apply Forall_cons in Hf as [Hx Hf]. cbn [omap list_omap].
      destruct (am_lookup_in time_map x Hx) as [v Hv]. rewrite Hv. cbn [length].
      f_equal. apply IH, Hf. }
    rewrite Hlen, length_seqZ; [rewrite MAX_LOG_ENTRY_eq; lia|].
    apply Forall_forall. intros x Hx%elem_of_seqZ. lia.
Qed.
