(* ===== verification/Rewrite.v ===== *)
(** The packet rewriters of the XDP programs,
    [src/eBPF_app/common/rewrite_helpers.h]: popping and pushing a VLAN
    tag, and swapping source and destination addresses. Moving the start
    of the packet is the kernel's [bpf_xdp_adjust_head], an interface with
    its documented behaviour as laws. *)
From S2P Require Import Prelude Parsing.
#[local] Open Scope Z_scope.

(** [bpf_xdp_adjust_head pkt delta]: the packet after moving its start by
    [delta], or [None] when the helper fails (and leaves it alone). A
    positive [delta] drops bytes; a negative one adds bytes, whatever their
    values, in front. *)
Class XdpAdjust := bpf_xdp_adjust_head : list byte -> Z -> option (list byte).

Class XdpAdjustLaws `{XdpAdjust} := {
  adjust_shrink pkt d pkt' :
    0 < d -> bpf_xdp_adjust_head pkt d = Some pkt' -> pkt' = drop (Z.to_nat d) pkt;
  adjust_shrinks pkt d :
    0 < d -> d + ETH_HLEN <= zlen pkt -> is_Some (bpf_xdp_adjust_head pkt d);
  adjust_grow pkt d pkt' :
    d < 0 -> bpf_xdp_adjust_head pkt d = Some pkt' ->
    exists front, zlen front = - d /\ pkt' = front ++ pkt
}.

(** [x->field = v] for a 16-bit field. *)
Definition store16 (pkt : list byte) (off v : Z) : res (list byte) :=
  mwrite pkt off (le_bytes 2 v).

Section rewriters.
Context `{XdpAdjust}.

(** The result and the packet after it. *)
Definition vlan_tag_pop (pkt : list byte) (eth : Z) : res (Z * list byte) :=
  proto ← h_proto pkt eth;
  if negb (proto_is_vlan proto) then Ok (-1, pkt) else
  let vlh := eth + ETH_HLEN in
  if zlen pkt <? vlh + sizeof_vlan_hdr then Ok (-1, pkt) else
  tci ← h_vlan_TCI pkt vlh;
  let vlid := bpf_ntohs tci in
  proto ← h_vlan_encapsulated_proto pkt vlh;
  eth_cpy ← mread pkt eth ETH_HLEN;
  match bpf_xdp_adjust_head pkt sizeof_vlan_hdr with
  | None => Ok (-1, pkt)
  | Some pkt =>
      let eth := 0 in
      if zlen pkt <? eth + ETH_HLEN then Ok (-1, pkt) else
      pkt ← mwrite pkt eth eth_cpy;
      pkt ← store16 pkt (eth + 12) proto;
      Ok (vlid, pkt)
  end.

Definition vlan_tag_push (pkt : list byte) (eth vlid : Z) : res (Z * list byte) :=
  eth_cpy ← mread pkt eth ETH_HLEN;
  match bpf_xdp_adjust_head pkt (0 - sizeof_vlan_hdr) with
  | None => Ok (-1, pkt)
  | Some pkt =>
      let eth := 0 in
      if zlen pkt <? eth + ETH_HLEN then Ok (-1, pkt) else
      pkt ← mwrite pkt eth eth_cpy;
      let vlh := eth + ETH_HLEN in
      if zlen pkt <? vlh + sizeof_vlan_hdr then Ok (-1, pkt) else
      pkt ← store16 pkt vlh (bpf_htons vlid);
      proto ← h_proto pkt eth;
      pkt ← store16 pkt (vlh + 2) proto;
      pkt ← store16 pkt (eth + 12) (bpf_htons ETH_P_8021Q);
      Ok (0, pkt)
  end.
End rewriters.

(** [memcpy(h_tmp, eth->h_source); memcpy(eth->h_source, eth->h_dest);
    memcpy(eth->h_dest, h_tmp)]. *)
Definition swap_src_dst_mac (pkt : list byte) (eth : Z) : res (list byte) :=
  h_tmp ← mread pkt (eth + ETH_ALEN) ETH_ALEN;
  dest ← mread pkt eth ETH_ALEN;
  pkt ← mwrite pkt (eth + ETH_ALEN) dest;
  mwrite pkt eth h_tmp.

(** [saddr] and [daddr] of [struct ipv6hdr] and of [struct iphdr]. *)
Definition swap_src_dst_ipv6 (pkt : list byte) (ipv6 : Z) : res (list byte) :=
  tmp ← mread pkt (ipv6 + 8) 16;
  daddr ← mread pkt (ipv6 + 24) 16;
  pkt ← mwrite pkt (ipv6 + 8) daddr;
  mwrite pkt (ipv6 + 24) tmp.

Definition swap_src_dst_ipv4 (pkt : list byte) (iphdr : Z) : res (list byte) :=
  tmp ← mread pkt (iphdr + 12) 4;
  daddr ← mread pkt (iphdr + 16) 4;
  pkt ← mwrite pkt (iphdr + 12) daddr;
  mwrite pkt (iphdr + 16) tmp.

(** * Lemmas *)

(** Cutting a block at a position. *)
Lemma cut (m : list byte) n :
  0 <= n <= zlen m -> exists a b, m = a ++ b /\ zlen a = n.
Proof.
  intros Hn. exists (take (Z.to_nat n) m), (drop (Z.to_nat n) m).
  rewrite take_drop. split; [reflexivity|]. unfold zlen in *.
  rewrite length_take. lia.
Qed.

Lemma le_val_2 (bs : list byte) : zlen bs = 2 -> le_bytes 2 (le_val bs) = bs.
Proof.
  intros H. unfold zlen in H. replace 2%nat with (length bs) by lia.
  apply le_bytes_val.
Qed.

(** [norm_to l]: the block of the goal's first access, bracketed as [l]. *)
Ltac brackets := rewrite ?app_nil_l, <- ?app_assoc; reflexivity.
Ltac lens := rewrite ?zlen_app, ?zlen_le_bytes in *; cbn [Z.of_nat] in *; lia.

(** A push, on a packet cut after its addresses and after its type. *)
Lemma push_spec `{XdpAdjustLaws} macs proto rest vlid pkt' :
  zlen macs = 12 -> zlen proto = 2 ->
  vlan_tag_push (macs ++ proto ++ rest) 0 vlid = Ok (0, pkt') ->
  pkt' = macs ++ le_bytes 2 (bpf_htons ETH_P_8021Q) ++
         le_bytes 2 (bpf_htons vlid) ++ proto ++ rest.
Proof.
  intros Hm Hp. unfold vlan_tag_push, h_proto, load16, store16. parser_consts.
  change (0 - 4) with (-4). change (0 + 14) with 14. change (14 + 4) with 18.
  change (0 + 12) with 12. change (14 + 2) with 16.
  replace (macs ++ proto ++ rest) with ([] ++ (macs ++ proto) ++ rest) by brackets.
  rewrite (mread_middle [] (macs ++ proto)) by (reflexivity || lens). rewrite bind_Ok.
  destruct (bpf_xdp_adjust_head _ _) as [pkt1|] eqn:Ha; [|discriminate].
  apply adjust_grow in Ha as (front & Hf & ->); [|lia].
  destruct (zlen _ <? 14); [discriminate|].
  (* the old header goes over the new front and all but its own last 4 bytes *)
  destruct (cut macs 10) as (m1 & m2 & -> & Hm1); [lia|].
  assert (zlen m2 = 2) as Hm2 by lens.
  replace (front ++ [] ++ ((m1 ++ m2) ++ proto) ++ rest)
    with ([] ++ (front ++ m1) ++ (m2 ++ proto ++ rest)) by brackets.
  rewrite (mwrite_middle [] (front ++ m1)) by (reflexivity || lens). rewrite bind_Ok.
  destruct (zlen _ <? 18); [discriminate|]. set (macs := m1 ++ m2) in *.
  replace ([] ++ (macs ++ proto) ++ m2 ++ proto ++ rest)
    with ((macs ++ proto) ++ m2 ++ proto ++ rest) by brackets.
  rewrite (mwrite_middle (macs ++ proto) m2) by lens. rewrite bind_Ok.
  set (tci := le_bytes 2 (bpf_htons vlid)).
  replace ((macs ++ proto) ++ tci ++ proto ++ rest)
    with (macs ++ proto ++ (tci ++ proto ++ rest)) by brackets.
  rewrite (mread_middle macs proto) by lens. rewrite !bind_Ok, le_val_2 by exact Hp.
  replace (macs ++ proto ++ tci ++ proto ++ rest)
    with ((macs ++ proto ++ tci) ++ proto ++ rest) by brackets.
  rewrite (mwrite_middle (macs ++ proto ++ tci) proto) by (unfold tci; lens). rewrite bind_Ok.
  replace ((macs ++ proto ++ tci) ++ proto ++ rest)
    with (macs ++ proto ++ (tci ++ proto ++ rest)) by brackets.
  rewrite (mwrite_middle macs proto) by lens. rewrite bind_Ok. intros [= <-]. reflexivity.
Qed.

Lemma load16_middle (a b c : list byte) off :
  zlen a = off -> zlen b = 2 -> load16 (a ++ b ++ c) off = Ok (le_val b).
Proof. intros. unfold load16. rewrite (mread_middle a b) by assumption. reflexivity. Qed.

(** A pop, on a tagged packet cut after its addresses, type, tag and inner
    type. *)
Lemma pop_spec `{XdpAdjustLaws} macs ty tci proto rest :
  zlen macs = 12 -> zlen ty = 2 -> zlen tci = 2 -> zlen proto = 2 ->
  proto_is_vlan (le_val ty) = true ->
  vlan_tag_pop (macs ++ ty ++ tci ++ proto ++ rest) 0 =
  Ok (bpf_ntohs (le_val tci), macs ++ proto ++ rest).
Proof.
  intros Hm Hty Htci Hp Hv.
  unfold vlan_tag_pop, h_proto, h_vlan_TCI, h_vlan_encapsulated_proto, store16.
  parser_consts. change (0 + 14) with 14. change (14 + 4) with 18.
  change (0 + 12) with 12. change (14 + 2) with 16.
  pose proof (zlen_nonneg rest).
  rewrite (load16_middle macs ty _ 12), bind_Ok, Hv by assumption. cbn [negb].
  replace (zlen _ <? 18) with false by (rewrite !zlen_app; lia).
  replace (macs ++ ty ++ tci ++ proto ++ rest)
    with ((macs ++ ty) ++ tci ++ proto ++ rest) by brackets.
  rewrite (load16_middle (macs ++ ty) tci _ 14), bind_Ok by lens.
  replace ((macs ++ ty) ++ tci ++ proto ++ rest)
    with ((macs ++ ty ++ tci) ++ proto ++ rest) by brackets.
  rewrite (load16_middle (macs ++ ty ++ tci) proto _ 16), bind_Ok by lens.
  replace ((macs ++ ty ++ tci) ++ proto ++ rest)
    with ([] ++ (macs ++ ty) ++ (tci ++ proto ++ rest)) by brackets.
  rewrite (mread_middle [] (macs ++ ty)), bind_Ok by (reflexivity || lens).
  destruct (bpf_xdp_adjust_head _ 4) as [pkt1|] eqn:Ha.
  2:{ destruct (adjust_shrinks ([] ++ (macs ++ ty) ++ tci ++ proto ++ rest) 4)
        as [? ?]; [lia | unfold ETH_HLEN; cbn [app]; lens | congruence]. }
  apply adjust_shrink in Ha as ->; [|lia].
  destruct (cut macs 4) as (m1 & m2 & -> & Hm1); [lia|].
  assert (zlen m2 = 8) as Hm2 by lens. set (macs := m1 ++ m2) in *.
  replace (drop (Z.to_nat 4) _) with ([] ++ (m2 ++ ty ++ tci ++ proto) ++ rest).
  2:{ unfold macs. cbn [app]. rewrite <- !app_assoc.
      rewrite drop_app_length' by (unfold zlen in Hm1; lia). brackets. }
  replace (zlen _ <? 14) with false by (cbn [app]; lens).
  rewrite (mwrite_middle [] (m2 ++ ty ++ tci ++ proto)), bind_Ok by (reflexivity || lens).
  replace ([] ++ (macs ++ ty) ++ rest) with (macs ++ ty ++ rest) by brackets.
  rewrite (mwrite_middle macs ty), bind_Ok, le_val_2 by lens. reflexivity.
Qed.

(** Swapping two adjacent or distant fields of the same size twice. *)
Definition swap_fields (pkt : list byte) (o1 o2 len : Z) : res (list byte) :=
  a ← mread pkt o1 len;
  b ← mread pkt o2 len;
  pkt ← mwrite pkt o1 b;
  mwrite pkt o2 a.

Lemma swap_fields_spec (x a y b z : list byte) o1 o2 len :
  zlen x = o1 -> zlen a = len -> zlen (x ++ a ++ y) = o2 -> zlen b = len ->
  swap_fields (x ++ a ++ y ++ b ++ z) o1 o2 len = Ok (x ++ b ++ y ++ a ++ z).
Proof.
  intros Hx Ha Hy Hb. unfold swap_fields.
  rewrite (mread_middle x a _ o1 len), bind_Ok by assumption.
  replace (x ++ a ++ y ++ b ++ z) with ((x ++ a ++ y) ++ b ++ z) by brackets.
  rewrite (mread_middle (x ++ a ++ y) b _ o2 len), bind_Ok by assumption.
  replace ((x ++ a ++ y) ++ b ++ z) with (x ++ a ++ (y ++ b ++ z)) by brackets.
  rewrite (mwrite_middle x a _ _ o1), bind_Ok by lia.
  replace (x ++ b ++ y ++ b ++ z) with ((x ++ b ++ y) ++ b ++ z) by brackets.
  rewrite (mwrite_middle (x ++ b ++ y) b _ _ o2) by lens. f_equal. brackets.
Qed.

Lemma swap_fields_cut (pkt : list byte) o1 o2 len :
  0 <= o1 -> 0 <= len -> o1 + len <= o2 -> o2 + len <= zlen pkt ->
  exists x a y b z, pkt = x ++ a ++ y ++ b ++ z /\ zlen x = o1 /\ zlen a = len /\
    zlen (x ++ a ++ y) = o2 /\ zlen b = len.
Proof.
  intros. destruct (cut pkt o1) as (x & r & -> & Hx); [lia|].
  rewrite zlen_app in *. destruct (cut r len) as (a & r2 & -> & Ha); [lia|].
  rewrite zlen_app in *. destruct (cut r2 (o2 - o1 - len)) as (y & r3 & -> & Hy); [lia|].
  rewrite zlen_app in *. destruct (cut r3 len) as (b & z & -> & Hb); [lia|].
  exists x, a, y, b, z. rewrite !zlen_app. split_and!; [reflexivity|lia..].
Qed.

Lemma swap_fields_twice pkt o1 o2 len :
  0 <= o1 -> 0 <= len -> o1 + len <= o2 -> o2 + len <= zlen pkt ->
  exists pkt', swap_fields pkt o1 o2 len = Ok pkt' /\ zlen pkt' = zlen pkt /\
    swap_fields pkt' o1 o2 len = Ok pkt /\
    window pkt' o1 len = window pkt o2 len /\
    window pkt' o2 len = window pkt o1 len.
Proof.
  intros H1 Hl H2 H3.
  destruct (swap_fields_cut pkt o1 o2 len H1 Hl H2 H3)
    as (x & a & y & b & z & -> & Hx & Ha & Hy & Hb).
  exists (x ++ b ++ y ++ a ++ z).
  assert (zlen (x ++ b ++ y) = o2) as Hy' by lens.
  assert (forall u v w, zlen u = o1 -> zlen v = len -> window (u ++ v ++ w) o1 len = v)
    as Hw1.
  { intros u v w Hu Hv. pose proof (mread_middle u v w o1 len Hu Hv) as Hr.
    apply mread_Ok_inv in Hr as [_ Hr]. symmetry; exact Hr. }
  assert (forall u v w, zlen u = o2 -> zlen v = len -> window (u ++ v ++ w) o2 len = v)
    as Hw2.
  { intros u v w Hu Hv. pose proof (mread_middle u v w o2 len Hu Hv) as Hr.
    apply mread_Ok_inv in Hr as [_ Hr]. symmetry; exact Hr. }
  split_and!.
  - apply swap_fields_spec; assumption.
  - lens.
  - apply swap_fields_spec; assumption.
  - rewrite Hw1 by assumption.
    replace (x ++ a ++ y ++ b ++ z) with ((x ++ a ++ y) ++ b ++ z) by brackets.
    rewrite Hw2 by assumption. reflexivity.
  - rewrite Hw1 by assumption.
    replace (x ++ b ++ y ++ a ++ z) with ((x ++ b ++ y) ++ a ++ z) by brackets.
    rewrite Hw2 by assumption. reflexivity.
Qed.

(** The order of the two fields does not matter. *)
Lemma swap_fields_comm pkt o1 o2 len :
  0 <= o1 -> 0 <= len -> o1 + len <= o2 -> o2 + len <= zlen pkt ->
  swap_fields pkt o2 o1 len = swap_fields pkt o1 o2 len.
Proof.
  intros H1 Hl H2 H3.
  destruct (swap_fields_cut pkt o1 o2 len H1 Hl H2 H3)
    as (x & a & y & b & z & -> & Hx & Ha & Hy & Hb).
  rewrite (swap_fields_spec x a y b z o1 o2 len) by assumption. unfold swap_fields.
  replace (x ++ a ++ y ++ b ++ z) with ((x ++ a ++ y) ++ b ++ z) by brackets.
  rewrite (mread_middle (x ++ a ++ y) b _ o2 len), bind_Ok by assumption.
  replace ((x ++ a ++ y) ++ b ++ z) with (x ++ a ++ (y ++ b ++ z)) by brackets.
  rewrite (mread_middle x a _ o1 len), bind_Ok by assumption.
  replace (x ++ a ++ y ++ b ++ z) with ((x ++ a ++ y) ++ b ++ z) by brackets.
  rewrite (mwrite_middle (x ++ a ++ y) b _ _ o2), bind_Ok by lia.
  replace ((x ++ a ++ y) ++ a ++ z) with (x ++ a ++ (y ++ a ++ z)) by brackets.
  rewrite (mwrite_middle x a _ _ o1) by lia. reflexivity.
Qed.
