(* ===== verification/EbpfProps.v ===== *)
(** What the eBPF half of the experiment guarantees: the XDP program, the
    user program that polls its maps, and the two together; over any array
    maps with the documented behaviour. *)
From S2P Require Import Prelude CommonH Parsing BpfMap XdpMeasure EbpfUser.
#[local] Open Scope Z_scope.

(** * Where the payload of an accepted packet is *)

(** The tag loop leaves the cursor only when it skips no tag. *)
Lemma vlan_loop_stay n pkt vlans proto vlh proto' ids :
  0 <= vlh <= zlen pkt -> 0 <= proto ->
  vlan_loop n pkt vlans proto vlh = Ok (proto', vlh, ids) -> proto' = proto.
Proof.
  intros Hv Hp. destruct n as [|n]; cbn [vlan_loop]; [congruence|].
  destruct (negb (proto_is_vlan proto)); [congruence|].
  destruct (Z.ltb_spec (zlen pkt) (vlh + sizeof_vlan_hdr)); [congruence|].
  unfold h_vlan_encapsulated_proto, h_vlan_TCI. run_loads.
  destruct (vlan_loop_safe n pkt vlans z (vlh + sizeof_vlan_hdr))
    as (p & v & l & k & E & [_ Hk Hpos _ _ _]); [parser_consts; lia | lia |].
  destruct vlans; run_loads; rewrite bind_Ok, E, bind_Ok; intros [= _ Hvl _];
    parser_consts; lia.
Qed.

(** The Ethernet parser's cursor is right behind the Ethernet header only
    when the packet has no tag. *)
Lemma parse_ethhdr_untagged pkt eth :
  parse_ethhdr pkt 0 = Ok eth -> p_ret eth = bpf_htons ETH_P_IP ->
  14 <= p_pos eth /\
  (p_pos eth = 14 <-> load16 pkt 12 = Ok (bpf_htons ETH_P_IP)).
Proof.
  intros He Hr. unfold parse_ethhdr, parse_ethhdr_vlan in He. pose proof (zlen_nonneg pkt).
  destruct (Z.ltb_spec (zlen pkt) (0 + ETH_HLEN)).
  { rewrite bind_Ok in He. injection He as <-. discriminate. }
  unfold h_proto in He. change (0 + 12) with 12 in He.
  destruct (load16_in pkt 12) as [z Hz]; [parser_consts; blia|].
  pose proof (load16_range _ _ _ Hz). rewrite Hz, bind_Ok in *.
  destruct (vlan_loop_safe (Z.to_nat VLAN_MAX_DEPTH) pkt false z (0 + ETH_HLEN))
    as (p & v & l & k & E & [_ Hk Hpos _ _ _]); [parser_consts; lia | lia |].
  rewrite E, !bind_Ok in He. injection He as <-. cbn [p_ret p_pos] in *. subst p.
  split; [parser_consts; lia|]. split.
  - intros ->. change 14 with (0 + ETH_HLEN) in E. apply vlan_loop_stay in E;
      [congruence | parser_consts; lia | lia].
  - intros [= ->]. change (vlan_loop _ _ _ _ _)
      with (@Ok (Z * Z * list Z) (bpf_htons ETH_P_IP, 14, [])) in E. congruence.
Qed.

Lemma parse_iphdr_ihl pkt pos ip :
  parse_iphdr pkt pos = Ok ip -> p_ret ip = IPPROTO_UDP ->
  exists b0, load8 pkt pos = Ok b0 /\ p_pos ip = pos + Z.land b0 15 * 4 /\
    5 <= Z.land b0 15.
Proof.
  intros H Hr. unfold parse_iphdr in H.
  destruct (zlen pkt <? pos + sizeof_iphdr); [res_inv; subst; discriminate|].
  apply bind_Ok_inv in H as (b0 & Hb & H). exists b0. split; [exact Hb|].
  destruct (Z.ltb_spec (Z.land b0 15 * 4) sizeof_iphdr); [res_inv; subst; discriminate|].
  destruct (zlen pkt <? _); [res_inv; subst; discriminate|].
  res_inv. subst. cbn [p_pos]. unfold sizeof_iphdr in *. lia.
Qed.

(** The headers of a packet the filter accepts. *)
Lemma xdp_filter_inv pkt pos :
  xdp_filter pkt = Ok (Some pos) ->
  exists eth ip, parse_ethhdr pkt 0 = Ok eth /\ p_ret eth = bpf_htons ETH_P_IP /\
    parse_iphdr pkt (p_pos eth) = Ok ip /\ p_ret ip = IPPROTO_UDP /\
    pos = p_pos ip + 8.
Proof.
  unfold xdp_filter. intros H.
  apply bind_Ok_inv in H as (eth & He & H).
  destruct (Z.eqb_spec (p_ret eth) (bpf_htons ETH_P_IP)) as [Hr|]; [|discriminate].
  cbn [negb] in H. apply bind_Ok_inv in H as (ip & Hi & H).
  destruct (Z.eqb_spec (p_ret ip) IPPROTO_UDP) as [Hri|]; [|discriminate].
  cbn [negb] in H. apply bind_Ok_inv in H as (udp & Hu & H).
  destruct (negb _); [discriminate|]. res_inv.
  destruct (negb _) in H; [discriminate|]. res_inv. subst.
  exists eth, ip. do 4 (split; [assumption|]). unfold parse_udphdr in Hu.
  destruct (zlen pkt <? _) in Hu; [res_inv; subst; discriminate|].
  res_inv. subst. reflexivity.
Qed.

Lemma payload_position pkt pos :
  xdp_filter pkt = Ok (Some pos) ->
  PAYLOAD_OFFSET <= pos /\ (pos = PAYLOAD_OFFSET <-> plain_headers pkt).
Proof.
  intros (eth & ip & He & Hre & Hi & Hri & Hpos)%xdp_filter_inv.
  destruct (parse_ethhdr_untagged pkt eth He Hre) as [H14 Hun].
  destruct (parse_iphdr_ihl pkt _ ip Hi Hri) as (b0 & Hb & Hip & H5).
  unfold PAYLOAD_OFFSET, plain_headers. split; [lia|]. split.
  - intros H42. assert (p_pos eth = 14) as H14' by lia.
    split; [apply Hun; lia|]. exists b0. rewrite H14' in *. split; [exact Hb | lia].
  - intros (Hp & b & Hb' & Hihl). apply Hun in Hp. rewrite Hp in *.
    rewrite Hb in Hb'. injection Hb' as <-. lia.
Qed.

(** * A packet of the experiment *)

(** The filter accepts [pkt] with its payload where the program looks for
    it, and the payload is [p]. *)
Record carries_payload (pkt : list byte) (p : Payload) : Prop := mk_carries {
  cp_filter : xdp_filter pkt = Ok (Some PAYLOAD_OFFSET);
  cp_payload : mread pkt PAYLOAD_OFFSET sizeof_Payload = Ok (Payload_bytes p);
  cp_ok : Payload_ok p
}.

Lemma carries_seen pkt p :
  carries_payload pkt p ->
  PAYLOAD_OFFSET + sizeof_Payload <= zlen pkt /\
  seen_payload pkt = Payload_bytes p /\ seen_key pkt = u32 (uid p).
Proof.
  intros [_ Hp Hok]. apply mread_Ok_inv in Hp as [Hb Hw].
  assert (seen_payload pkt = Payload_bytes p) as Hs by (symmetry; exact Hw).
  split; [apply Hb|]. split; [exact Hs|]. unfold seen_key. f_equal. rewrite Hs.
  change (field (Payload_bytes p) 1) with (uid (Payload_of_bytes (Payload_bytes p))).
  rewrite Payload_of_bytes_bytes by exact Hok. reflexivity.
Qed.

Section end_to_end.
Context {T P S : Type}.
Context `{LT : ArrayMapLaws T Z} `{LP : ArrayMapLaws P (list byte)}
  `{LS : ArrayMapLaws S Z}.

(** The program on such a packet: its effect on the entry of the packet's
    key. *)
Lemma xdp_on_payload pkt p index now (m : xdp_maps T P S) :
  carries_payload pkt p -> payload_map_ok (pkt_payload m) ->
  exists m', xdp_sock_prog pkt index now m = Ok (XDP_PASS, m') /\
    recorded pkt index now m m' /\ payload_map_ok (pkt_payload m').
Proof.
  intros Hc Hm. destruct (carries_seen _ _ Hc) as (Hl & Hs & Hk).
  destruct (xdp_prog_spec pkt index now m) as (o & m' & Hf & Hx & Hrec).
  rewrite (cp_filter _ _ Hc) in Hf. injection Hf as <-.
  rewrite bool_decide_eq_true_2 in Hrec by eauto.
  exists m'. split; [exact Hx|]. split; [exact Hrec|].
  intros k bytes Hk0 Hb. rewrite (rc_payload _ _ _ _ _ Hrec) in Hb by exact Hk0.
  case_decide; [|eapply Hm; eassumption]. injection Hb as <-. rewrite Hs.
  apply zlen_Payload_bytes, (cp_ok _ _ Hc).
Qed.

Lemma payload_at_recorded pkt p index now (m m' : xdp_maps T P S) :
  carries_payload pkt p -> recorded pkt index now m m' ->
  u32 (uid p) < am_max (pkt_payload m) ->
  payload_at (pkt_payload m') (u32 (uid p)) = Some p.
Proof.
  intros Hc Hrec Hk. destruct (carries_seen _ _ Hc) as (_ & Hs & Hkey).
  unfold payload_at. rewrite (rc_payload _ _ _ _ _ Hrec) by apply u32_range.
  rewrite decide_True by (split; [exact Hkey | exact Hk]). rewrite Hs. cbn.
  f_equal. apply Payload_of_bytes_bytes, (cp_ok _ _ Hc).
Qed.

Lemma recorded_then_fetched pkt p index now (m m' : xdp_maps T P S) now' lb :
  carries_payload pkt p -> recorded pkt index now m m' ->
  payload_map_ok (pkt_payload m') -> log_ok lb ->
  payload_valid p = true -> u32 (uid p) < am_max (pkt_payload m) ->
  exists lb',
    fetch_and_process_packet (pkt_payload m') (u32 (uid p)) now' lb =
      Ok (uid p <? MAX_LOG_ENTRY, lb') /\
    log_flat lb' = (if uid p <? MAX_LOG_ENTRY
                    then <[Z.to_nat (uid p) := now']> (log_flat lb) else log_flat lb).
Proof.
  intros Hc Hrec Hm' Hlb Hv Hk.
  pose proof (payload_at_recorded _ _ _ _ _ _ Hc Hrec Hk) as Hat.
  destruct (fetch_spec (pkt_payload m') (u32 (uid p)) now' lb Hm' Hlb)
    as (lb' & Hf & _ & Hfl); [apply u32_range|].
  unfold fetchable in *. rewrite Hat, Hv in *. cbn [andb] in *.
  exists lb'. split; [exact Hf | exact Hfl].
Qed.
End end_to_end.

(** * Concrete packets and maps *)

Definition demo_payload (u : Z) : Payload :=
  {| client_uid := 1; uid := u; type := PL_DATA; created_time := 1000;
     ks_time_arrival_1 := 0; ks_time_arrival_2 := 0; us_time_arrival_1 := 0;
     us_time_arrival_2 := 0;
     data := replicate (Z.to_nat PAYLOAD_DATA_SIZE) Byte.x00 |}.

Lemma demo_payload_ok u : 0 <= u < 2 ^ 64 -> Payload_ok (demo_payload u).
Proof.
  intros Hu. unfold Payload_ok, u64_ok. cbn [demo_payload client_uid uid type
    created_time ks_time_arrival_1 ks_time_arrival_2 us_time_arrival_1
    us_time_arrival_2 data].
  unfold PL_DATA, PAYLOAD_DATA_SIZE. rewrite zlen_replicate. lia.
Qed.

(** Ethernet, IPv4 without options, UDP to the measurement port. *)
Definition ip_udp_1024 : list byte :=
  [Byte.x45] ++ replicate 8 Byte.x00 ++ [Byte.x11] ++ replicate 10 Byte.x00 ++
  [Byte.x00; Byte.x00; Byte.x1f; Byte.x90; Byte.x04; Byte.x08; Byte.x00; Byte.x00].

Definition plain_packet (p : Payload) : list byte :=
  replicate 12 Byte.x00 ++ [Byte.x08; Byte.x00] ++ ip_udp_1024 ++ Payload_bytes p.

(** The same with a VLAN tag (VLAN 5). *)
Definition tagged_packet (p : Payload) : list byte :=
  replicate 12 Byte.x00 ++ [Byte.x81; Byte.x00; Byte.x00; Byte.x05; Byte.x08; Byte.x00]
  ++ ip_udp_1024 ++ Payload_bytes p.

Definition uid_7 : Z := 7.
Definition uid_far : Z := 2 ^ 32 + 7.

Lemma plain_packet_carries u :
  u = uid_7 \/ u = uid_far -> carries_payload (plain_packet (demo_payload u)) (demo_payload u).
Proof.
  intros [-> | ->]; (split; [vm_compute; reflexivity | vm_compute; reflexivity |]);
    apply demo_payload_ok; unfold uid_7, uid_far; lia.
Qed.

(** Maps with 16 entries each, their values zero. *)
Definition demo_maps : xdp_maps (list_map Z) (list_map (list byte)) (list_map Z) :=
  mk_xdp_maps (mk_list_map (replicate 16 0))
    (mk_list_map (replicate 16 (replicate (Z.to_nat sizeof_Payload) Byte.x00)))
    (mk_list_map (replicate 16 0)).

Lemma demo_maps_ok : payload_map_ok (pkt_payload demo_maps).
Proof.
  intros k bytes Hk Hl. unfold am_lookup in Hl.
  cbn [demo_maps pkt_payload list_array_map lm_cells] in Hl.
  destruct (0 <=? k); [|discriminate]. apply lookup_replicate in Hl as [-> _].
  apply zlen_replicate.
Qed.

(** * The XDP program *)

(** C5: on every packet, whatever its bytes, the XDP program terminates
    without reading outside the packet and passes the packet on. It changes
    its maps only for packets its filter accepts that hold a complete
    payload, and then stores the arrival time and the payload under the
    payload's key and counts the packet on its receive queue; every other
    entry of the maps stays as it was. *)
Theorem xdp_records_packets {T P S} `{LT : ArrayMapLaws T Z}
    `{LP : ArrayMapLaws P (list byte)} `{LS : ArrayMapLaws S Z}
    pkt index now (m : xdp_maps T P S) :
  exists passed m', xdp_filter pkt = Ok passed /\
    xdp_sock_prog pkt index now m = Ok (XDP_PASS, m') /\
    if bool_decide (is_Some passed /\ PAYLOAD_OFFSET + sizeof_Payload <= zlen pkt)
    then recorded pkt index now m m' else m' = m.
Proof. apply xdp_prog_spec. Qed.

Lemma xdp_records_packets_witness :
  exists m', xdp_sock_prog (plain_packet (demo_payload uid_7)) 0 5 demo_maps
    = Ok (XDP_PASS, m').
Proof.
  destruct (xdp_records_packets (plain_packet (demo_payload uid_7)) 0 5 demo_maps)
    as (o & m' & _ & H & _).
  exists m'. exact H.
Defined.

(** The program takes the payload from offset 42 of the packet. For an
    accepted packet this is where the UDP payload starts exactly when the
    packet has no VLAN tag and its IPv4 header no options; otherwise the
    payload lies further on, and what is recorded is not it. *)
Theorem xdp_payload_offset pkt pos :
  xdp_filter pkt = Ok (Some pos) ->
  PAYLOAD_OFFSET <= pos /\ (pos = PAYLOAD_OFFSET <-> plain_headers pkt).
Proof. apply payload_position. Qed.

Lemma xdp_payload_offset_witness :
  xdp_filter (tagged_packet (demo_payload uid_7)) = Ok (Some 46) /\
  ~ plain_headers (tagged_packet (demo_payload uid_7)).
Proof.
  assert (xdp_filter (tagged_packet (demo_payload uid_7)) = Ok (Some 46)) as H
    by (vm_compute; reflexivity).
  split; [exact H|]. intros Hp.
  destruct (xdp_payload_offset _ _ H) as [_ Hi]. apply Hi in Hp. discriminate.
Defined.

(** C4: end to end: a measurement packet whose uid fits the maps is
    recorded by the XDP program with its arrival time, and the user program
    polling for its uid then finds it and logs its own time in the packet's
    log entry, and nowhere else. *)
Theorem packet_measured {T P S} `{LT : ArrayMapLaws T Z}
    `{LP : ArrayMapLaws P (list byte)} `{LS : ArrayMapLaws S Z}
    pkt p index now (m : xdp_maps T P S) now' lb :
  carries_payload pkt p -> payload_valid p = true -> uid p < MAX_LOG_ENTRY ->
  uid p < am_max (uid_timestamps m) -> uid p < am_max (pkt_payload m) ->
  payload_map_ok (pkt_payload m) -> log_ok lb ->
  exists m' lb', xdp_sock_prog pkt index now m = Ok (XDP_PASS, m') /\
    am_lookup (uid_timestamps m') (uid p) = Some now /\
    fetch_and_process_packet (pkt_payload m') (uid p) now' lb = Ok (true, lb') /\
    log_flat lb' = <[Z.to_nat (uid p) := now']> (log_flat lb).
Proof.
  intros Hc Hv Hu Ht Hp Hm Hlb. pose proof (cp_ok _ _ Hc) as (_ & Hu0 & _).
  destruct (carries_seen _ _ Hc) as (_ & _ & Hkey).
  destruct (xdp_on_payload pkt p index now m Hc Hm) as (m' & Hx & Hrec & Hm').
  assert (u32 (uid p) = uid p) as Hu32
    by (apply u32_small; destruct Hu0; rewrite MAX_LOG_ENTRY_eq in *; lia).
  destruct (recorded_then_fetched pkt p index now m m' now' lb Hc Hrec Hm' Hlb Hv)
    as (lb' & Hf & Hfl); [lia|].
  replace (uid p <? MAX_LOG_ENTRY) with true in * by lia. rewrite Hu32 in *.
  exists m', lb'. split; [exact Hx|]. split; [|split; [exact Hf | exact Hfl]].
  rewrite (rc_ts _ _ _ _ _ Hrec) by (destruct Hu0; lia).
  rewrite decide_True by (split; [congruence | exact Ht]). reflexivity.
Qed.

Lemma packet_measured_witness :
  exists m', xdp_sock_prog (plain_packet (demo_payload uid_7)) 0 5 demo_maps
    = Ok (XDP_PASS, m') /\ am_lookup (uid_timestamps m') 7 = Some 5.
Proof.
  destruct (packet_measured (plain_packet (demo_payload uid_7)) (demo_payload uid_7)
    0 5 demo_maps 6 _ (plain_packet_carries uid_7 (or_introl eq_refl)) eq_refl
    ltac:(vm_compute; reflexivity) ltac:(vm_compute; reflexivity)
    ltac:(vm_compute; reflexivity) demo_maps_ok zero_log_ok) as (m' & lb' & H1 & H2 & _).
  exists m'. split; [exact H1 | exact H2].
Defined.

(** The keys of the maps keep 32 bits of the uid. A packet whose uid
    does not fit but whose low 32 bits are those of a logged packet
    overwrites that packet's entry, and the user program, which finds a uid
    it does not log, does not get past the entry. *)
Theorem uid_collision_blocks {T P S} `{LT : ArrayMapLaws T Z}
    `{LP : ArrayMapLaws P (list byte)} `{LS : ArrayMapLaws S Z}
    pkt p index now (m : xdp_maps T P S) now' lb :
  carries_payload pkt p -> payload_valid p = true -> 2 ^ 32 <= uid p ->
  u32 (uid p) < am_max (pkt_payload m) ->
  payload_map_ok (pkt_payload m) -> log_ok lb ->
  exists m' lb', xdp_sock_prog pkt index now m = Ok (XDP_PASS, m') /\
    payload_at (pkt_payload m') (u32 (uid p)) = Some p /\
    fetch_and_process_packet (pkt_payload m') (u32 (uid p)) now' lb = Ok (false, lb') /\
    log_flat lb' = log_flat lb.
Proof.
  intros Hc Hv Hu Hp Hm Hlb.
  destruct (xdp_on_payload pkt p index now m Hc Hm) as (m' & Hx & Hrec & Hm').
  destruct (recorded_then_fetched pkt p index now m m' now' lb Hc Hrec Hm' Hlb Hv Hp)
    as (lb' & Hf & Hfl).
  replace (uid p <? MAX_LOG_ENTRY) with false in * by (rewrite MAX_LOG_ENTRY_eq; lia).
  exists m', lb'. eauto using payload_at_recorded.
Qed.

Lemma uid_collision_blocks_witness :
  exists m', xdp_sock_prog (plain_packet (demo_payload uid_far)) 0 5 demo_maps
    = Ok (XDP_PASS, m') /\ payload_at (pkt_payload m') 7 = Some (demo_payload uid_far).
Proof.
  destruct (uid_collision_blocks (plain_packet (demo_payload uid_far))
    (demo_payload uid_far) 0 5 demo_maps 6 _
    (plain_packet_carries uid_far (or_intror eq_refl)) eq_refl ltac:(vm_compute; discriminate)
    ltac:(vm_compute; reflexivity) demo_maps_ok zero_log_ok) as (m' & lb' & H1 & H2 & _).
  exists m'. split; [exact H1 | exact H2].
Defined.

(** * The user program *)

(** The log a run of the loop leaves when it fetches the packets
    [k], [k+1], ... at the given times. *)
Definition logged (k : Z) (times : list Z) (lb lb' : log_table) : Prop :=
  log_ok lb' /\ log_flat lb' = list_inserts (Z.to_nat k) times (log_flat lb).

(** C39: polled with maps that hold whole payloads, the fetch loop runs
    without a fault, keeps the log table's shape and moves forward at most
    one packet per poll; and when every poll finds the packet it asks for,
    all are logged, each at the time of its poll, in order. *)
Theorem fetch_loop_logs {P} `{LP : ArrayMapLaws P (list byte)}
    (polls : list (P * Z)) k lb :
  Forall (fun p => payload_map_ok (fst p)) polls -> log_ok lb ->
  0 <= k -> k + zlen polls <= MAX_LOG_ENTRY ->
  exists k' lb', fetch_loop polls k lb = Ok (k', lb') /\ log_ok lb' /\
    k <= k' <= k + zlen polls /\
    ((forall i p, polls !! i = Some p -> carries (fst p) (k + Z.of_nat i)) ->
     k' = k + zlen polls /\ logged k polls.*2 lb lb').
Proof.
  intros Hm Hlb Hk Hb.
  destruct (fetch_loop_total polls k lb Hm Hlb Hk) as (k' & lb' & Hf & Hok & Hr).
  { rewrite MAX_LOG_ENTRY_eq in *. lia. }
  exists k', lb'. do 3 (split; [assumption|]). intros Hc.
  destruct (fetch_loop_progress polls k lb Hm Hlb Hk Hb Hc) as (lb2 & Hf2 & Hok2 & Hfl).
  rewrite Hf in Hf2. injection Hf2 as <- <-. split; [reflexivity|].
  split; assumption.
Qed.

(** A map that holds packet 0. *)
Definition one_packet_map : list_map (list byte) :=
  mk_list_map [Payload_bytes (demo_payload 0)].

Lemma one_packet_map_ok : payload_map_ok one_packet_map.
Proof.
  intros k bytes Hk Hl. unfold am_lookup in Hl.
  cbn [one_packet_map list_array_map lm_cells] in Hl.
  destruct (0 <=? k); [|discriminate].
  destruct (Z.to_nat k) as [|[|n]]; try discriminate. injection Hl as <-.
  apply zlen_Payload_bytes, demo_payload_ok. lia.
Qed.

Lemma one_packet_map_carries : carries one_packet_map 0.
Proof. split; vm_compute; reflexivity. Qed.

Lemma fetch_loop_logs_witness :
  exists lb', fetch_loop [(one_packet_map, 9)] 0
    [replicate (Z.to_nat MAX_ENTRIES_PER_LOG_BUFF) 0] = Ok (1, lb') /\
    logged 0 [9] [replicate (Z.to_nat MAX_ENTRIES_PER_LOG_BUFF) 0] lb'.
Proof.
  destruct (fetch_loop_logs [(one_packet_map, 9)] 0
    [replicate (Z.to_nat MAX_ENTRIES_PER_LOG_BUFF) 0]) as (k' & lb' & H1 & _ & _ & H2).
  - apply Forall_singleton, one_packet_map_ok.
  - exact zero_log_ok.
  - lia.
  - vm_compute. discriminate.
  - destruct H2 as [-> Hl].
    { intros [|i] p Hp; [|discriminate]. injection Hp as <-. apply one_packet_map_carries. }
    exists lb'. split; [exact H1 | exact Hl].
Defined.

(** Head-of-line blocking: as long as the entry of one packet cannot
    be fetched (it was lost, or never arrived whole), the loop does not get
    past it, whatever else arrives. *)
Theorem lost_packet_blocks {P} `{LP : ArrayMapLaws P (list byte)}
    (polls : list (P * Z)) k lb lost k' lb' :
  Forall (fun p => payload_map_ok (fst p)) polls -> log_ok lb ->
  Forall (fun p => fetchable (fst p) lost = false) polls ->
  0 <= k <= lost -> lost < 2 ^ 32 - 1 ->
  fetch_loop polls k lb = Ok (k', lb') -> k' <= lost.
Proof. apply fetch_loop_blocked. Qed.

Definition three_polls : list (list_map (list byte) * Z) :=
  [(one_packet_map, 9); (one_packet_map, 10); (one_packet_map, 11)].

Lemma three_polls_ok : Forall (fun p => payload_map_ok (fst p)) three_polls.
Proof. repeat constructor; apply one_packet_map_ok. Qed.

Lemma lost_packet_blocks_witness :
  exists k' lb', fetch_loop three_polls 0 [replicate (Z.to_nat MAX_ENTRIES_PER_LOG_BUFF) 0]
    = Ok (k', lb') /\ k' <= 1.
Proof.
  destruct (fetch_loop_total three_polls 0
    [replicate (Z.to_nat MAX_ENTRIES_PER_LOG_BUFF) 0] three_polls_ok zero_log_ok)
    as (k' & lb' & H & _); [lia | unfold zlen; simpl; lia|].
  exists k', lb'. split; [exact H|].
  apply (lost_packet_blocks three_polls 0
    [replicate (Z.to_nat MAX_ENTRIES_PER_LOG_BUFF) 0] 1 k' lb').
  - exact three_polls_ok.
  - exact zero_log_ok.
  - repeat constructor.
  - lia.
  - lia.
  - exact H.
Defined.

(** The checksum helpers compute the one's complement update of
    RFC 1624: adding is addition modulo 2^16 - 1, and replacing a word of
    the covered data changes the complement of the checksum by the
    difference of the two words. *)
Theorem csum_replace2_correct sum old new :
  0 <= sum < 2 ^ 16 -> 0 <= old < 2 ^ 16 -> 0 <= new < 2 ^ 16 ->
  csum16_add sum old mod 65535 = (sum + old) mod 65535 /\
  0 <= csum_replace2 sum old new < 2 ^ 16 /\
  (65535 - csum_replace2 sum old new) mod 65535 =
  (65535 - sum - old + new) mod 65535.
Proof.
  intros Hs Ho Hn. split; [apply csum16_add_mod; assumption|].
  split; [apply u16_range | apply csum_replace2_mod; assumption].
Qed.

Lemma csum_replace2_correct_witness :
  (65535 - csum_replace2 4660 8080 8079) mod 65535 = (65535 - 4660 - 8080 + 8079) mod 65535.
Proof. apply (csum_replace2_correct 4660 8080 8079); lia. Defined.
