(* ===== verification/NetProps.v ===== *)
(** What the packet helpers of the XDP programs guarantee: the parsers
    never read outside the packet and find the headers a sender wrote; the
    rewriters undo each other. *)
From S2P Require Import Prelude Parsing Rewrite.
#[local] Open Scope Z_scope.

(** * The parsers *)

(** C37: started anywhere inside a packet of any bytes, none of the
    parsers reads outside it. Each returns either -1, without a header and
    without moving the cursor, or a non-negative value, with a header that
    lies wholly between the old and the new cursor, both inside the
    packet. *)
Theorem parsers_safe :
  safe_parser ETH_HLEN parse_ethhdr /\
  safe_parser sizeof_ipv6hdr parse_ip6hdr /\
  safe_parser sizeof_iphdr parse_iphdr /\
  safe_parser sizeof_icmp6hdr parse_icmp6hdr /\
  safe_parser sizeof_icmphdr parse_icmphdr /\
  safe_parser sizeof_icmphdr_common parse_icmphdr_common /\
  safe_parser sizeof_udphdr parse_udphdr /\
  safe_parser sizeof_tcphdr parse_tcphdr.
Proof.
  split_and!; [exact parse_ethhdr_safe | exact parse_ip6hdr_safe | exact parse_iphdr_safe
    | exact parse_icmp6hdr_safe | exact parse_icmphdr_safe
    | exact parse_icmphdr_common_safe | exact parse_udphdr_safe | exact parse_tcphdr_safe].
Qed.

(** An Ethernet frame with VLAN tags: each tag is its TPID (in the place of
    the type of what follows) and its TCI. *)
Definition be16 (v : Z) : list byte := le_bytes 2 (bpf_htons v).

Fixpoint tagged (tags : list (Z * Z)) (ethertype : Z) (rest : list byte) : list byte :=
  match tags with
  | [] => be16 ethertype ++ rest
  | (tpid, tci) :: tags => be16 tpid ++ be16 tci ++ tagged tags ethertype rest
  end.

Definition frame (macs : list byte) (tags : list (Z * Z)) (ethertype : Z)
    (rest : list byte) : list byte := macs ++ tagged tags ethertype rest.

Definition tag_ok (t : Z * Z) : Prop :=
  (fst t = ETH_P_8021Q \/ fst t = ETH_P_8021AD) /\ 0 <= snd t < 2 ^ 16.

Definition first_type (tags : list (Z * Z)) (ethertype : Z) : Z :=
  match tags with [] => ethertype | (tpid, _) :: _ => tpid end.

Lemma htons_range v : 0 <= bpf_htons v < 2 ^ 16.
Proof. apply bswap16_range. Qed.

Lemma le_val_be16 v : le_val (be16 v) = bpf_htons v.
Proof.
  unfold be16. rewrite le_val_bytes. change (256 ^ Z.of_nat 2) with (2 ^ 16).
  apply Z.mod_small, htons_range.
Qed.

Lemma ntohs_htons v : 0 <= v < 2 ^ 16 -> bpf_ntohs (bpf_htons v) = v.
Proof. apply bswap16_involutive. Qed.

Lemma zlen_be16 v : zlen (be16 v) = 2.
Proof. unfold be16. apply zlen_le_bytes. Qed.

Lemma load16_be16 (a c : list byte) v off :
  zlen a = off -> load16 (a ++ be16 v ++ c) off = Ok (bpf_htons v).
Proof.
  intros Ha. rewrite (load16_middle a (be16 v) c off Ha (zlen_be16 v)), le_val_be16.
  reflexivity.
Qed.

Lemma vlan_type_is_vlan tpid : tpid = ETH_P_8021Q \/ tpid = ETH_P_8021AD ->
  proto_is_vlan (bpf_htons tpid) = true.
Proof. intros [-> | ->]; reflexivity. Qed.

Lemma tagged_first tags ethertype rest :
  exists r, tagged tags ethertype rest = be16 (first_type tags ethertype) ++ r.
Proof. destruct tags as [|[tpid tci] tags]; simpl; eauto. Qed.

(** The tag loop reads exactly the tags of the frame. *)
Lemma vlan_loop_tags n : forall tags pre ethertype rest,
  Forall tag_ok tags -> (length tags <= n)%nat ->
  (length tags = n \/ proto_is_vlan (bpf_htons ethertype) = false) ->
  vlan_loop n (pre ++ be16 (first_type tags ethertype) ++
               drop 2 (tagged tags ethertype rest)) true
    (bpf_htons (first_type tags ethertype)) (zlen pre + 2) =
  Ok (bpf_htons ethertype, zlen pre + 2 + 4 * zlen tags,
      (fun t => Z.land (snd t) VLAN_VID_MASK) <$> tags).
Proof.
  induction n as [|n IH]; intros tags pre ethertype rest Ht Hl Hn.
  { destruct tags; [|simpl in Hl; lia]. cbn [vlan_loop first_type].
    change (zlen []) with 0. rewrite Z.mul_0_r, Z.add_0_r. reflexivity. }
  cbn [vlan_loop]. destruct tags as [|[tpid tci] tags].
  { destruct Hn as [Hn|Hn]; [discriminate|]. cbn [first_type]. rewrite Hn. cbn [negb].
    change (zlen []) with 0. rewrite Z.mul_0_r, Z.add_0_r. reflexivity. }
  apply Forall_cons in Ht as [[Hv Hc] Ht]. cbn [fst snd first_type tagged] in *.
  rewrite vlan_type_is_vlan by exact Hv. cbn [negb].
  rewrite (drop_app_length' (be16 tpid)) by reflexivity.
  destruct (tagged_first tags ethertype rest) as [r Hr].
  assert (drop 2 (tagged tags ethertype rest) = r) as Hd
    by (rewrite Hr; apply drop_app_length'; reflexivity).
  pose proof (zlen_nonneg pre). pose proof (zlen_nonneg r).
  unfold h_vlan_encapsulated_proto, h_vlan_TCI, sizeof_vlan_hdr.
  replace (zlen _ <? zlen pre + 2 + 4) with false
    by (rewrite Hr, !zlen_app, !zlen_be16; lia).
  replace (pre ++ be16 tpid ++ be16 tci ++ tagged tags ethertype rest)
    with ((pre ++ be16 tpid ++ be16 tci) ++ be16 (first_type tags ethertype) ++ r)
    by (rewrite Hr, <- !app_assoc; reflexivity).
  rewrite (load16_be16 (pre ++ be16 tpid ++ be16 tci) _ _ (zlen pre + 2 + 2)), bind_Ok
    by (rewrite !zlen_app, !zlen_be16; lia).
  replace ((pre ++ be16 tpid ++ be16 tci) ++ be16 (first_type tags ethertype) ++ r)
    with ((pre ++ be16 tpid) ++ be16 tci ++ be16 (first_type tags ethertype) ++ r)
    by (rewrite <- !app_assoc; reflexivity).
  rewrite (load16_be16 (pre ++ be16 tpid) _ _ (zlen pre + 2)), !bind_Ok
    by (rewrite !zlen_app, !zlen_be16; lia).
  rewrite ntohs_htons by exact Hc.
  specialize (IH tags (pre ++ be16 tpid ++ be16 tci) ethertype rest Ht
    ltac:(simpl in Hl; lia) ltac:(simpl in Hn; destruct Hn; [left; lia | right; assumption])).
  rewrite Hd in IH. rewrite !zlen_app, !zlen_be16 in IH.
  replace (zlen pre + 2 + 4) with (zlen pre + (2 + 2) + 2) by lia.
  rewrite <- app_assoc in IH. rewrite <- !app_assoc in *. rewrite IH, bind_Ok.
  do 3 f_equal. unfold zlen. simpl. lia.
Qed.

(** C38: parsing a frame finds what its sender wrote: up to two VLAN tags
    (the second header may not itself be tagged unless both are used up),
    the identifiers of all of them in order, the type of the packet inside
    as it is on the wire, and the cursor right behind it. *)
Theorem parse_ethhdr_vlan_frame macs tags ethertype rest :
  zlen macs = 12 -> Forall tag_ok tags -> zlen tags <= VLAN_MAX_DEPTH ->
  (zlen tags = VLAN_MAX_DEPTH \/ proto_is_vlan (bpf_htons ethertype) = false) ->
  parse_ethhdr_vlan (frame macs tags ethertype rest) 0 true =
  Ok (mk_parsed (bpf_htons ethertype) (ETH_HLEN + sizeof_vlan_hdr * zlen tags) (Some 0),
      (fun t => Z.land (snd t) VLAN_VID_MASK) <$> tags).
Proof.
  intros Hm Ht Hl Hn. unfold parse_ethhdr_vlan, frame.
  destruct (tagged_first tags ethertype rest) as [r Hr]. pose proof (zlen_nonneg r).
  replace (zlen _ <? 0 + ETH_HLEN) with false
    by (rewrite Hr, !zlen_app, zlen_be16; unfold ETH_HLEN; lia).
  assert (drop 2 (tagged tags ethertype rest) = r) as Hd
    by (rewrite Hr; apply drop_app_length'; reflexivity).
  rewrite Hr. unfold h_proto. change (0 + 12) with 12.
  rewrite (load16_be16 macs _ _ 12), bind_Ok by exact Hm. rewrite <- Hd.
  replace (0 + ETH_HLEN) with (zlen macs + 2) by (unfold ETH_HLEN; lia).
  rewrite vlan_loop_tags; [rewrite bind_Ok|exact Ht|..].
  - do 3 f_equal. unfold ETH_HLEN, sizeof_vlan_hdr. lia.
  - unfold VLAN_MAX_DEPTH, zlen in *. lia.
  - unfold VLAN_MAX_DEPTH, zlen in *. destruct Hn; [left; lia | right; assumption].
Qed.

(** A frame of VLAN 5 inside service VLAN 9, priority 3. *)
Definition demo_macs : list byte := replicate 12 Byte.xaa.
Definition demo_tags : list (Z * Z) := [(ETH_P_8021AD, 9); (ETH_P_8021Q, 24581)].

Lemma parse_ethhdr_vlan_frame_witness :
  parse_ethhdr_vlan (frame demo_macs demo_tags ETH_P_IP [Byte.x45]) 0 true =
  Ok (mk_parsed (bpf_htons ETH_P_IP) 22 (Some 0), [9; 5]).
Proof.
  apply (parse_ethhdr_vlan_frame demo_macs demo_tags ETH_P_IP [Byte.x45]).
  - reflexivity.
  - repeat constructor; unfold ETH_P_8021AD, ETH_P_8021Q; cbn [fst snd]; lia.
  - vm_compute. discriminate.
  - left. reflexivity.
Defined.

(** * The rewriters *)

(** An implementation of [bpf_xdp_adjust_head], with no limit on the room
    in front of the packet. *)
Definition adjust_demo : XdpAdjust := fun pkt delta =>
  if 0 <? delta then
    if delta + ETH_HLEN <=? zlen pkt then Some (drop (Z.to_nat delta) pkt) else None
  else if delta <? 0 then Some (replicate (Z.to_nat (- delta)) Byte.xcc ++ pkt)
  else Some pkt.

Lemma adjust_demo_laws : @XdpAdjustLaws adjust_demo.
Proof.
  split; unfold bpf_xdp_adjust_head, adjust_demo.
  - intros pkt d pkt' Hd. replace (0 <? d) with true by lia.
    destruct (_ <=? _); [congruence | discriminate].
  - intros pkt d Hd Hl. replace (0 <? d) with true by lia.
    replace (d + ETH_HLEN <=? zlen pkt) with true by lia. eauto.
  - intros pkt d pkt' Hd. replace (0 <? d) with false by lia.
    replace (d <? 0) with true by lia. intros [= <-]. eexists. split; [|reflexivity].
    rewrite zlen_replicate. lia.
Qed.

(** A packet cut after its addresses and its type. *)
Lemma cut_ethhdr (pkt : list byte) :
  ETH_HLEN <= zlen pkt ->
  exists macs proto rest, pkt = macs ++ proto ++ rest /\ zlen macs = 12 /\ zlen proto = 2.
Proof.
  unfold ETH_HLEN. intros Hl. destruct (cut pkt 12) as (m & r & -> & Hm); [lia|].
  rewrite zlen_app in Hl. destruct (cut r 2) as (p & s & -> & Hp); [lia|].
  exists m, p, s. auto.
Qed.

(** Pushing a VLAN tag and popping it again gives the packet back,
    and the pop returns the tag that was pushed; popping a packet without
    a tag fails and leaves it alone. *)
Theorem vlan_push_pop `{XdpAdjustLaws} pkt vlid pkt' :
  ETH_HLEN <= zlen pkt -> 0 <= vlid < 2 ^ 16 ->
  vlan_tag_push pkt 0 vlid = Ok (0, pkt') ->
  vlan_tag_pop pkt' 0 = Ok (vlid, pkt) /\
  (forall proto, h_proto pkt 0 = Ok proto -> proto_is_vlan proto = false ->
   vlan_tag_pop pkt 0 = Ok (-1, pkt)).
Proof.
  intros Hl Hv Hp. destruct (cut_ethhdr pkt Hl) as (macs & proto & rest & -> & Hm & Hpr).
  apply push_spec in Hp; [|exact Hm|exact Hpr]. subst pkt'. split.
  - pose proof (le_val_be16 ETH_P_8021Q) as Ht. pose proof (le_val_be16 vlid) as Hvl.
    unfold be16 in Ht, Hvl.
    rewrite pop_spec; [|exact Hm|apply zlen_le_bytes|apply zlen_le_bytes|exact Hpr
      |rewrite Ht; reflexivity].
    rewrite Hvl, ntohs_htons by exact Hv. reflexivity.
  - intros p Hh Hn. unfold vlan_tag_pop. rewrite Hh, bind_Ok, Hn. reflexivity.
Qed.

Definition ip_packet : list byte :=
  replicate 12 Byte.xaa ++ [Byte.x08; Byte.x00; Byte.x45; Byte.x00].

Lemma vlan_push_pop_witness :
  exists pkt', @vlan_tag_push adjust_demo ip_packet 0 5 = Ok (0, pkt') /\
    @vlan_tag_pop adjust_demo pkt' 0 = Ok (5, ip_packet).
Proof.
  eexists. split; [vm_compute; reflexivity|].
  apply (@vlan_push_pop adjust_demo adjust_demo_laws ip_packet 5).
  - vm_compute. discriminate.
  - lia.
  - vm_compute. reflexivity.
Defined.

(** What a swap of two fields of the same size does. *)
Definition swaps (f : list byte -> res (list byte)) (pkt : list byte)
    (o1 o2 len : Z) : Prop :=
  exists pkt', f pkt = Ok pkt' /\ zlen pkt' = zlen pkt /\ f pkt' = Ok pkt /\
    window pkt' o1 len = window pkt o2 len /\
    window pkt' o2 len = window pkt o1 len.

(** The three address swaps, on a packet that holds the header,
    exchange source and destination, keep the packet's length and undo
    themselves; they never fault. *)
Theorem address_swaps_involutive pkt off :
  0 <= off ->
  (off + ETH_HLEN <= zlen pkt ->
   swaps (fun m => swap_src_dst_mac m off) pkt off (off + ETH_ALEN) ETH_ALEN) /\
  (off + sizeof_ipv6hdr <= zlen pkt ->
   swaps (fun m => swap_src_dst_ipv6 m off) pkt (off + 8) (off + 24) 16) /\
  (off + sizeof_iphdr <= zlen pkt ->
   swaps (fun m => swap_src_dst_ipv4 m off) pkt (off + 12) (off + 16) 4).
Proof.
  intros Ho. unfold ETH_HLEN, sizeof_ipv6hdr, sizeof_iphdr, ETH_ALEN.
  split; [|split]; intros Hl.
  - destruct (swap_fields_twice pkt off (off + 6) 6) as (pkt' & H1 & Hz & H2 & Hw);
      [lia..|].
    exists pkt'. rewrite <- !swap_fields_comm in H1, H2 by lia. auto.
  - apply swap_fields_twice; lia.
  - apply swap_fields_twice; lia.
Qed.

Lemma address_swaps_involutive_witness :
  swaps (fun m => swap_src_dst_mac m 0) ip_packet 0 ETH_ALEN ETH_ALEN.
Proof.
  apply (address_swaps_involutive ip_packet 0 ltac:(lia)). vm_compute. discriminate.
Defined.
