(* ===== verification/UserProc.v ===== *)
(** The user program of the kernel-module experiment,
    [src/mymodule/kernel_module/user-processing.c]: it reads the module's
    proc file and logs when each packet reached it. *)
From S2P Require Import Prelude CommonH CLib.
#[local] Open Scope Z_scope.

(** [get_nsecs], from the [timespec] that [clock_gettime] fills in. *)
Definition get_nsecs (ts : Z * Z) : Z :=
  let '(tv_sec, tv_nsec) := ts in u64 (u64 (u64 tv_sec * 1000000000) + u64 tv_nsec).

(** * Start *)

Definition malloc_log_buffs (malloc : Z -> option (list Z)) : log_table + list Z :=
  malloc_loop malloc (Z.to_nat NUM_LOG_BUFF) 0 [].

Definition path_prefix : string := "/proc/".
Definition proc_filename : string := "intercept_mmap".

(** [name_buff], from the bytes its 128 cells held: the path to open is
    its contents up to the first NUL. *)
Definition proc_path (name_buff : list byte) : res (list byte) :=
  name_buff ← mwrite name_buff 0 (replicate 100 Byte.x00);
  name_buff ← mwrite name_buff 0 (bytes_of path_prefix);
  mwrite name_buff (Z.of_nat (String.length path_prefix)) (bytes_of proc_filename).

(** * The packets of one read *)

(** The body of the loop over the cells of [buff_read]; [now i] is the
    clock when cell [i] is looked at. *)
Definition process_cell (buff_read : list byte) (now : Z -> Z) (i : Z)
    (log_buffs : log_table) : res log_table :=
  c ← load8 buff_read (i * PKT_BUFFER_SIZE);
  if c =? 0 then Ok log_buffs else
  pl ← load_Payload buff_read (i * PKT_BUFFER_SIZE);
  if payload_valid pl then
    if (uid pl <? MAX_LOG_ENTRY) && (0 <=? uid pl) then
      let buff_index := u32 (uid pl / MAX_ENTRIES_PER_LOG_BUFF) in
      log_store log_buffs buff_index (uid pl) (now i)
    else Ok log_buffs
  else Ok log_buffs.

(** [for (int i = 0; i < PKTS_PER_BUFFER; i++)] from [i] on, [n] to go. *)
Fixpoint process_cells (n : nat) (i : Z) (buff_read : list byte) (now : Z -> Z)
    (log_buffs : log_table) : res log_table :=
  match n with
  | O => Ok log_buffs
  | S n =>
      log_buffs ← process_cell buff_read now i log_buffs;
      process_cells n (i + 1) buff_read now log_buffs
  end.

(** One round of the main loop: [delivered] are the bytes [pread] stored
    at the start of the zeroed buffer. *)
Definition up_round (delivered : list byte) (now : Z -> Z) (log_buffs : log_table)
    : res log_table :=
  buff_read ← mwrite (replicate (Z.to_nat BUFFER_SIZE) Byte.x00) 0 delivered;
  process_cells (Z.to_nat PKTS_PER_BUFFER) 0 buff_read now log_buffs.

(** [while (keep_running)]: the rounds made before the signal. *)
Fixpoint up_loop (rounds : list (list byte * (Z -> Z))) (log_buffs : log_table)
    : res log_table :=
  match rounds with
  | [] => Ok log_buffs
  | (delivered, now) :: rounds =>
      log_buffs ← up_round delivered now log_buffs;
      up_loop rounds log_buffs
  end.

(** * The program *)

(** What a run ends in: -1 without memory, an abort when the file cannot
    be opened or mapped, or success with the log file and the number of
    zero entries. *)
Inductive up_exit :=
| UpNoMemory (freed : list Z)
| UpAbort
| UpDone (file : list string) (zeroed : Z).

Definition up_main (malloc : Z -> option (list Z)) (name_buff : list byte)
    (fd : list byte -> Z) (mmap_ok : bool)
    (rounds : list (list byte * (Z -> Z))) : res up_exit :=
  match malloc_log_buffs malloc with
  | inr freed => Ok (UpNoMemory freed)
  | inl log_buffs =>
      name ← proc_path name_buff;
      if fd name <? 0 then Ok UpAbort else
      if negb mmap_ok then Ok UpAbort else
      log_buffs ← up_loop rounds log_buffs;
      '(file, zeroed) ← export_from lu_line log_buffs 0 (Z.to_nat MAX_LOG_ENTRY) 0;
      Ok (UpDone file zeroed)
  end.

(** * What one buffer does to the log *)

(** The uid a cell's packet is logged under, if it is. *)
Definition header_entry (m : list byte) : option Z :=
  if byte_val (default Byte.x00 (head m)) =? 0 then None else
  let pl := Payload_of_bytes m in
  if payload_valid pl && (uid pl <? MAX_LOG_ENTRY) then Some (uid pl) else None.

Definition log_entry (e : option Z) (now : Z) (l : list Z) : list Z :=
  match e with Some u => <[Z.to_nat u := now]> l | None => l end.

(** Cell [i] of a buffer. *)
Definition cell (buff : list byte) (i : Z) : list byte :=
  window buff (i * PKT_BUFFER_SIZE) PKT_BUFFER_SIZE.

Definition log_cells (buff : list byte) (now : Z -> Z) (ixs : list Z) (l : list Z) : list Z :=
  foldl (fun l i => log_entry (header_entry (cell buff i)) (now i) l) l ixs.

(** The first byte of a cell is not NUL. *)
Definition cell_used (buff : list byte) (i : Z) : bool :=
  negb (byte_val (default Byte.x00 (head (cell buff i))) =? 0).

(** The first cell from which a whole [struct Payload] does not lie in the
    buffer any more. *)
Definition FIRST_SHORT_CELL : Z := (BUFFER_SIZE - sizeof_Payload) / PKT_BUFFER_SIZE + 1.

(** A cell that is used although a [struct Payload] does not fit from it
    on. *)
Definition cell_short (buff : list byte) (i : Z) : bool :=
  cell_used buff i && (FIRST_SHORT_CELL <=? i).

Ltac up_consts :=
  change PKT_BUFFER_SIZE with 128 in *; change BUFFER_SIZE with 4096 in *;
  change PKTS_PER_BUFFER with 32 in *; change sizeof_Payload with 1024 in *;
  change FIRST_SHORT_CELL with 25 in *.

(** The header fields are in the first 64 bytes. *)
Lemma header_entry_prefix m k :
  (64 <= length m)%nat -> header_entry (m ++ k) = header_entry m.
Proof.
  intros Hl. unfold header_entry.
  assert (head (m ++ k) = head m) as -> by (destruct m; [simpl in Hl; lia | reflexivity]).
  unfold payload_valid, Payload_of_bytes.
  cbn [client_uid uid type created_time]. rewrite !field_app by lia. reflexivity.
Qed.

Lemma header_entry_take m n :
  (64 <= n)%nat -> (64 <= length m)%nat -> header_entry (take n m) = header_entry m.
Proof.
  intros Hn Hl. rewrite <- (take_drop n m) at 2. symmetry. apply header_entry_prefix.
  rewrite length_take. lia.
Qed.

Lemma header_entry_range m u :
  header_entry m = Some u -> 0 <= u < MAX_LOG_ENTRY.
Proof.
  unfold header_entry. destruct (_ =? 0); [discriminate|].
  destruct (payload_valid _); cbn [andb]; [|discriminate].
  destruct (Z.ltb_spec (uid (Payload_of_bytes m)) MAX_LOG_ENTRY); [|discriminate].
  intros [= <-]. split; [apply le_val_range | assumption].
Qed.

Section one_cell.
Context (buff : list byte) (Hb : zlen buff = BUFFER_SIZE).

Lemma cell_first_byte i :
  0 <= i < PKTS_PER_BUFFER ->
  load8 buff (i * PKT_BUFFER_SIZE) = Ok (byte_val (default Byte.x00 (head (cell buff i)))).
Proof.
  intros Hi. unfold load8. destruct (aget_in buff (i * PKT_BUFFER_SIZE)) as [c Hc];
    [up_consts; lia|].
  rewrite Hc, bind_Ok. apply aget_Ok in Hc as [_ Hc]. do 2 f_equal.
  pose proof (lookup_window buff (i * PKT_BUFFER_SIZE) PKT_BUFFER_SIZE 0) as Hw.
  rewrite Nat.add_0_r, Hc in Hw. rewrite head_lookup. unfold cell.
  rewrite Hw by (up_consts; lia). reflexivity.
Qed.

Lemma window_cell i len :
  0 <= i < PKTS_PER_BUFFER -> PKT_BUFFER_SIZE <= len ->
  take (Z.to_nat PKT_BUFFER_SIZE) (window buff (i * PKT_BUFFER_SIZE) len) = cell buff i.
Proof.
  intros Hi Hl. unfold cell, window. rewrite take_take. f_equal. lia.
Qed.

Lemma process_cell_spec now i lb :
  0 <= i < PKTS_PER_BUFFER -> log_ok lb ->
  if cell_short buff i then process_cell buff now i lb = Err OutOfBounds
  else exists lb', process_cell buff now i lb = Ok lb' /\ log_ok lb' /\
    log_flat lb' = log_entry (header_entry (cell buff i)) (now i) (log_flat lb).
Proof.
  intros Hi Hok. unfold cell_short, cell_used, process_cell.
  rewrite cell_first_byte, bind_Ok by exact Hi.
  assert (header_entry (cell buff i) = if
    byte_val (default Byte.x00 (head (cell buff i))) =? 0 then None else
    header_entry (cell buff i)) as He by (unfold header_entry; destruct (_ =? 0); reflexivity).
  destruct (Z.eqb_spec (byte_val (default Byte.x00 (head (cell buff i)))) 0) as [H0|H0];
    cbn [negb andb].
  { exists lb. rewrite He. auto. }
  destruct (Z.leb_spec FIRST_SHORT_CELL i) as [Hs|Hs].
  { unfold load_Payload. rewrite mread_Err; [reflexivity|]. up_consts.
    unfold in_block. lia. }
  unfold load_Payload. rewrite mread_window, !bind_Ok by (up_consts; unfold in_block; lia).
  set (w := window buff (i * PKT_BUFFER_SIZE) sizeof_Payload).
  assert (length w = 1024%nat) as Hw
    by (apply (length_window buff _ 1024); up_consts; unfold in_block; lia).
  assert (header_entry (cell buff i) = header_entry w) as Hw'.
  { rewrite <- (window_cell i sizeof_Payload) by (up_consts; lia).
    apply header_entry_take; up_consts; lia. }
  rewrite Hw' in *. clear He. unfold header_entry.
  assert (head w = head (cell buff i)) as ->.
  { rewrite <- (window_cell i sizeof_Payload) by (up_consts; lia). fold w.
    destruct w; reflexivity. }
  replace (_ =? 0) with false by lia.
  destruct (payload_valid (Payload_of_bytes w)); cbn [andb]; [|exists lb; auto].
  assert (0 <= uid (Payload_of_bytes w)) as Hu by apply le_val_range.
  replace (0 <=? _) with true by lia. rewrite andb_true_r.
  destruct (Z.ltb_spec (uid (Payload_of_bytes w)) MAX_LOG_ENTRY); [|exists lb; auto].
  rewrite u32_small by (rewrite MAX_ENTRIES_PER_LOG_BUFF_eq, MAX_LOG_ENTRY_eq in *; lia).
  destruct (log_store_flat lb Hok (uid (Payload_of_bytes w)) (now i)) as (lb' & -> & H1 & H2);
    [lia|]. exists lb'. auto.
Qed.

Lemma process_cells_spec now n : forall i lb,
  0 <= i -> i + Z.of_nat n <= PKTS_PER_BUFFER -> log_ok lb ->
  if existsb (cell_short buff) (seqZ i (Z.of_nat n))
  then process_cells n i buff now lb = Err OutOfBounds
  else exists lb', process_cells n i buff now lb = Ok lb' /\ log_ok lb' /\
    log_flat lb' = log_cells buff now (seqZ i (Z.of_nat n)) (log_flat lb).
Proof.
  induction n as [|n IH]; intros i lb Hi Hn Hok.
  { exists lb. auto. }
  rewrite seqZ_cons by lia. replace (Z.pred (Z.of_nat (S n))) with (Z.of_nat n) by lia.
  replace (Z.succ i) with (i + 1) by lia. cbn [existsb process_cells].
  pose proof (process_cell_spec now i lb ltac:(lia) Hok) as Hc.
  destruct (cell_short buff i); cbn [orb]; [rewrite Hc; reflexivity|].
  destruct Hc as (lb1 & -> & Hok1 & Hf1). rewrite bind_Ok.
  specialize (IH (i + 1) lb1 ltac:(lia) ltac:(lia) Hok1).
  destruct (existsb _ _); [exact IH|]. destruct IH as (lb' & H1 & H2 & H3).
  exists lb'. split; [exact H1|]. split; [exact H2|]. rewrite H3, Hf1. reflexivity.
Qed.
End one_cell.
