(* ===== verification/UserProps.v ===== *)
(** What the user program of the kernel-module experiment guarantees, by
    itself and together with the module whose proof is in [KmFifo]. *)
From S2P Require Import Prelude CommonH CLib KernelModule KmRing KmFifo KmProps UserProc.
#[local] Open Scope Z_scope.

(** * Cells of a padded buffer *)

Lemma zlen_pad n l : zlen l <= n -> zlen (pad n l) = n.
Proof.
  intros Hl. unfold pad. rewrite zlen_app, zlen_replicate. unfold zlen in *. lia.
Qed.

Lemma length_mjoin_cells (cells : list (list byte)) :
  Forall (fun c => length c = 128%nat) cells ->
  length (mjoin cells) = (128 * length cells)%nat.
Proof.
  induction 1 as [|c cs Hc Hf IH]; [reflexivity|].
  change (mjoin (c :: cs)) with (c ++ mjoin cs). cbn [length].
  rewrite length_app, Hc, IH. lia.
Qed.

(** Cell [i] of a buffer that starts with whole cells is the [i]-th. *)
Lemma cell_mjoin cells k : forall i c,
  Forall (fun c => length c = 128%nat) cells -> cells !! i = Some c ->
  cell (mjoin cells ++ k) (Z.of_nat i) = c.
Proof.
  unfold cell, window. change PKT_BUFFER_SIZE with 128.
  induction cells as [|d cells IH]; intros i c Hf Hi; [discriminate|].
  apply Forall_cons in Hf as [Hd Hf]. cbn [mjoin list_join]. rewrite <- app_assoc.
  destruct i as [|i].
  - injection Hi as ->. change (Z.to_nat (Z.of_nat 0 * 128)) with O. rewrite drop_0.
    apply take_app_length'. lia.
  - replace (Z.to_nat (Z.of_nat (S i) * 128)) with (length d + Z.to_nat (Z.of_nat i * 128))%nat
      by lia.
    rewrite drop_app_add. apply IH; assumption.
Qed.

(** Cells behind the packets are not used. *)
Lemma cell_padding cells n i :
  Forall (fun c => length c = 128%nat) cells -> zlen cells <= i -> 0 <= i ->
  cell_used (mjoin cells ++ replicate n Byte.x00) i = false.
Proof.
  intros Hf Hi Hi0. unfold cell_used, cell, window. change PKT_BUFFER_SIZE with 128.
  pose proof (length_mjoin_cells cells Hf) as Hl.
  rewrite drop_app_ge by (unfold zlen in *; lia). rewrite drop_replicate.
  destruct (n - _)%nat; reflexivity.
Qed.

(** * One round *)

Lemma up_round_spec delivered now lb :
  zlen delivered <= BUFFER_SIZE -> log_ok lb ->
  let buff := pad BUFFER_SIZE delivered in
  if existsb (cell_short buff) (seqZ 0 PKTS_PER_BUFFER)
  then up_round delivered now lb = Err OutOfBounds
  else exists lb', up_round delivered now lb = Ok lb' /\ log_ok lb' /\
    log_flat lb' = log_cells buff now (seqZ 0 PKTS_PER_BUFFER) (log_flat lb).
Proof.
  intros Hl Hok buff. unfold up_round.
  assert (mwrite (replicate (Z.to_nat BUFFER_SIZE) Byte.x00) 0 delivered = Ok buff) as ->.
  { rewrite mwrite_Ok by (unfold in_block; rewrite zlen_replicate;
      pose proof (zlen_nonneg delivered); up_consts; lia).
    unfold buff, pad. simpl take. rewrite drop_replicate. reflexivity. }
  rewrite bind_Ok. apply (process_cells_spec buff (zlen_pad _ _ Hl) now
    (Z.to_nat PKTS_PER_BUFFER) 0 lb); [lia | up_consts; lia | exact Hok].
Qed.

(** * A read of the module, processed *)

(** The log after the packets of [q], packet [i] of them at [now i]. *)
Fixpoint log_packets (now : Z -> Z) (i : Z) (q : list (list byte)) (l : list Z) : list Z :=
  match q with
  | [] => l
  | p :: q => log_packets now (i + 1) q (log_entry (header_entry p) (now i) l)
  end.

(** Packets as the experiment sends them: a whole header, and a client
    uid whose first byte is not NUL. *)
Definition sendable (p : list byte) : Prop :=
  (64 <= length p)%nat /\ byte_val (default Byte.x00 (head p)) <> 0.

Section cells.
Context (cells q : list (list byte)).
Context (Hc : Forall2 Fifo.cell_of cells q)
  (Hl : Forall (fun c => length c = 128%nat) cells) (Hq : Forall sendable q).

Lemma cell_of_entry c p :
  Fifo.cell_of c p -> sendable p ->
  header_entry c = header_entry p /\ byte_val (default Byte.x00 (head c)) <> 0.
Proof.
  clear. change PKT_BUFFER_SIZE with 128. intros [k ->] [Hl Hh].
  change (Z.to_nat PKT_BUFFER_SIZE) with 128%nat. split.
  - rewrite header_entry_prefix by (rewrite length_take; lia).
    apply header_entry_take; lia.
  - destruct p; [simpl in Hl; lia|]. exact Hh.
Qed.

Lemma sent_cell_used i k :
  0 <= i < zlen q -> cell_used (mjoin cells ++ k) i = true.
Proof.
  intros Hi. pose proof (Forall2_length _ _ _ Hc) as Hlen.
  destruct (lookup_lt_is_Some_2 cells (Z.to_nat i)) as [c Hci];
    [unfold zlen in *; lia|].
  destruct (Forall2_lookup_l _ _ _ _ _ Hc Hci) as (p & Hp & Hcp).
  unfold cell_used. rewrite <- (Z2Nat.id i) by lia. rewrite (cell_mjoin _ _ _ c Hl Hci).
  destruct (cell_of_entry c p Hcp) as [_ Hne].
  { eapply Forall_lookup_1; [exact Hq | exact Hp]. }
  destruct (Z.eqb_spec (byte_val (default Byte.x00 (head c))) 0); [contradiction|].
  reflexivity.
Qed.

(** The loop over the cells logs the packets. *)
Lemma log_cells_packets now k : forall n (j : nat) l,
  (length q = j + n)%nat ->
  log_cells (mjoin cells ++ k) now (seqZ (Z.of_nat j) (Z.of_nat n)) l =
  log_packets now (Z.of_nat j) (drop j q) l.
Proof.
  induction n as [|n IH]; intros j l Hn.
  { rewrite drop_ge by lia. reflexivity. }
  rewrite seqZ_cons by lia. replace (Z.pred (Z.of_nat (S n))) with (Z.of_nat n) by lia.
  replace (Z.succ (Z.of_nat j)) with (Z.of_nat (S j)) by lia.
  destruct (lookup_lt_is_Some_2 q j) as [p Hp]; [lia|].
  rewrite (drop_S _ _ _ Hp). cbn [log_cells foldl log_packets].
  destruct (Forall2_lookup_r _ _ _ _ _ Hc Hp) as (c & Hcj & Hcp).
  rewrite (cell_mjoin _ _ _ c Hl Hcj).
  destruct (cell_of_entry c p Hcp) as [-> _].
  { eapply Forall_lookup_1; [exact Hq | exact Hp]. }
  specialize (IH (S j) (log_entry (header_entry p) (now (Z.of_nat j)) l) ltac:(lia)).
  replace (Z.of_nat j + 1) with (Z.of_nat (S j)) by lia. exact IH.
Qed.
End cells.

Lemma log_cells_unused buff now ixs : forall l,
  Forall (fun i => cell_used buff i = false) ixs -> log_cells buff now ixs l = l.
Proof.
  induction ixs as [|i ixs IH]; intros l Hf; [reflexivity|].
  apply Forall_cons in Hf as [Hi Hf]. cbn [log_cells foldl].
  unfold cell_used in Hi. unfold header_entry at 2.
  destruct (_ =? 0); [|discriminate]. apply IH, Hf.
Qed.

Lemma log_cells_app buff now a b l :
  log_cells buff now (a ++ b) l = log_cells buff now b (log_cells buff now a l).
Proof. unfold log_cells. apply foldl_app. Qed.

(** Whole cells, padded: all packets are logged, unless there are more than
    [FIRST_SHORT_CELL] of them. *)
Lemma up_round_packets cells q now lb :
  Forall2 Fifo.cell_of cells q -> Forall (fun c => length c = 128%nat) cells ->
  Forall sendable q -> zlen q <= PKTS_PER_BUFFER -> log_ok lb ->
  if zlen q <=? FIRST_SHORT_CELL
  then exists lb', up_round (mjoin cells) now lb = Ok lb' /\ log_ok lb' /\
    log_flat lb' = log_packets now 0 q (log_flat lb)
  else up_round (mjoin cells) now lb = Err OutOfBounds.
Proof.
  intros Hc Hl Hq Hn Hok. pose proof (Forall2_length _ _ _ Hc) as Hlen.
  assert (zlen (mjoin cells) <= BUFFER_SIZE) as Hlm.
  { pose proof (length_mjoin_cells cells Hl). unfold zlen in *. up_consts. lia. }
  pose proof (up_round_spec (mjoin cells) now lb Hlm Hok) as Hs. cbv zeta in Hs.
  set (k := replicate (Z.to_nat BUFFER_SIZE - length (mjoin cells)) Byte.x00) in *.
  change (pad BUFFER_SIZE (mjoin cells)) with (mjoin cells ++ k) in Hs.
  assert (existsb (cell_short (mjoin cells ++ k)) (seqZ 0 PKTS_PER_BUFFER) =
    negb (zlen q <=? FIRST_SHORT_CELL)) as He.
  { destruct (Z.leb_spec (zlen q) FIRST_SHORT_CELL) as [Hle|Hgt]; cbn [negb].
    - apply not_true_is_false. rewrite existsb_exists. intros (i & Hi & Hsh).
      apply list_elem_of_In, elem_of_seqZ in Hi. unfold cell_short in Hsh.
      destruct (Z.leb_spec FIRST_SHORT_CELL i); [|rewrite andb_false_r in Hsh; discriminate].
      unfold k in Hsh. rewrite cell_padding in Hsh;
        [discriminate | exact Hl | unfold zlen in *; lia | lia].
    - apply existsb_exists. exists FIRST_SHORT_CELL. split.
      + apply list_elem_of_In, elem_of_seqZ. up_consts. lia.
      + unfold cell_short. rewrite (sent_cell_used cells q Hc Hl Hq)
          by (up_consts; lia). reflexivity. }
  rewrite He in Hs. destruct (zlen q <=? FIRST_SHORT_CELL); cbn [negb] in Hs; [|exact Hs].
  destruct Hs as (lb' & H1 & H2 & H3). exists lb'. split; [exact H1|]. split; [exact H2|].
  rewrite H3. pose proof (zlen_nonneg q).
  replace (seqZ 0 PKTS_PER_BUFFER) with (seqZ 0 (Z.of_nat (length q)) ++
    seqZ (0 + Z.of_nat (length q)) (PKTS_PER_BUFFER - Z.of_nat (length q)))
    by (rewrite <- seqZ_app by (unfold zlen in *; lia); f_equal; lia).
  rewrite log_cells_app, (log_cells_unused _ _ (seqZ (0 + _) _)).
  - apply (log_cells_packets cells q Hc Hl Hq now k (length q) 0 (log_flat lb)). lia.
  - apply Forall_forall. intros i Hi%elem_of_seqZ. apply cell_padding; [exact Hl | |lia].
    unfold zlen in *. lia.
Qed.

Lemma up_round_pad d now lb :
  zlen d <= BUFFER_SIZE -> up_round (pad BUFFER_SIZE d) now lb = up_round d now lb.
Proof.
  intros Hd. unfold up_round. f_equal.
  rewrite mwrite_all by (rewrite zlen_pad, zlen_replicate by exact Hd; up_consts; lia).
  rewrite mwrite_Ok by (unfold in_block; rewrite zlen_replicate;
      pose proof (zlen_nonneg d); up_consts; lia).
  unfold pad. simpl take. rewrite drop_replicate. reflexivity.
Qed.

Lemma pending_cells st :
  km_ok st -> Forall (fun c => length c = 128%nat) (pending st).
Proof.
  intros Hok. apply Forall_fmap, Forall_forall. intros i Hi.
  apply busy_slots_range in Hi as [Hi _]; [|exact Hok]. cbn. unfold slot.
  pose proof (ok_buff _ Hok). apply (length_window _ _ 128). km_consts.
  unfold in_block. lia.
Qed.

(** * Properties *)

(** A round of the user program, whatever the kernel delivered: it
    stays inside its buffer and its log exactly when no used cell lies so
    far back that a [struct Payload] does not fit behind it (the cells from
    the 26th on); it then logs the packet of each used cell that holds a
    valid packet, under its uid, and changes nothing else. *)
Theorem user_round_functional delivered now lb :
  zlen delivered <= BUFFER_SIZE -> log_ok lb ->
  let buff := pad BUFFER_SIZE delivered in
  if existsb (cell_short buff) (seqZ 0 PKTS_PER_BUFFER)
  then up_round delivered now lb = Err OutOfBounds
  else exists lb', up_round delivered now lb = Ok lb' /\ log_ok lb' /\
    log_flat lb' = log_cells buff now (seqZ 0 PKTS_PER_BUFFER) (log_flat lb).
Proof. apply up_round_spec. Qed.

(** A buffer whose last cell is used. *)
Definition full_buffer : list byte := replicate (Z.to_nat BUFFER_SIZE) Byte.x01.
Definition zero_log : log_table := [replicate (Z.to_nat MAX_ENTRIES_PER_LOG_BUFF) 0].

Lemma user_round_functional_witness :
  up_round full_buffer (fun _ => 0) zero_log = Err OutOfBounds.
Proof.
  apply (user_round_functional full_buffer (fun _ => 0) zero_log).
  - unfold full_buffer. rewrite zlen_replicate. up_consts. lia.
  - apply zero_log_ok.
Defined.

(** C3: module and user program together: a read of the module hands over
    the oldest queued packets and removes them; the user program then logs
    the arrival of each valid one under its uid, packet [i] of them at its
    own time [now i], provided there are at most 25. With 26 to 32 packets
    pending its copy of the 26th reads beyond its stack buffer. *)
Theorem module_to_user st q now lb :
  represents st q -> Forall sendable q -> log_ok lb ->
  exists st' r b, read ctu_ok BUFFER_SIZE 0 st = Ok (r, st') /\
    rd_user r = Some b /\ represents st' (snd (Fifo.pop q)) /\
    let handed := fst (Fifo.pop q) in
    if zlen handed <=? FIRST_SHORT_CELL
    then exists lb', up_round b now lb = Ok lb' /\ log_ok lb' /\
      log_flat lb' = log_packets now 0 handed (log_flat lb)
    else up_round b now lb = Err OutOfBounds.
Proof.
  intros Hr Hq Hlb. pose proof (proj1 Hr) as Hok.
  destruct (read_pop st q ctu_ok BUFFER_SIZE 0 Hr eq_refl)
    as (st' & r & Hrd & _ & Hu & Hr' & Hc).
  cbn [ctu_ok Z.eqb] in Hu, Hr'. exists st', r, (drained st).
  split; [exact Hrd|]. split; [exact Hu|]. split; [exact Hr'|].
  assert (Forall (fun c => length c = 128%nat)
    (take (Z.to_nat PKTS_PER_BUFFER) (pending st))) as Hl
    by apply Forall_take, pending_cells, Hok.
  assert (length (take (Z.to_nat PKTS_PER_BUFFER) (pending st)) <= 32)%nat as Hlen
    by (rewrite length_take; up_consts; lia).
  unfold drained. rewrite up_round_pad.
  - apply up_round_packets; [exact Hc | exact Hl | | | exact Hlb].
    + apply Forall_take, Hq.
    + unfold Fifo.pop, zlen. cbn [fst]. rewrite length_take. up_consts. lia.
  - unfold zlen. rewrite (length_mjoin_cells _ Hl). up_consts. lia.
Qed.

Lemma module_to_user_witness :
  exists st' r b, read ctu_ok BUFFER_SIZE 0 km_fresh = Ok (r, st') /\
    rd_user r = Some b /\ represents st' [].
Proof.
  destruct (module_to_user km_fresh [] (fun _ => 0) zero_log) as (st' & r & b & H1 & H2 & H3 & _).
  - exact km_fresh_represents.
  - constructor.
  - apply zero_log_ok.
  - exists st', r, b. split; [exact H1|]. split; [exact H2 | exact H3].
Defined.

(** ** The whole program *)

Definition round_ok (r : list byte * (Z -> Z)) : Prop :=
  zlen (fst r) <= BUFFER_SIZE /\
  existsb (cell_short (pad BUFFER_SIZE (fst r))) (seqZ 0 PKTS_PER_BUFFER) = false.

Definition log_rounds (rounds : list (list byte * (Z -> Z))) (l : list Z) : list Z :=
  foldl (fun l r => log_cells (pad BUFFER_SIZE (fst r)) (snd r) (seqZ 0 PKTS_PER_BUFFER) l)
    l rounds.

Lemma up_loop_spec rounds : forall lb,
  Forall round_ok rounds -> log_ok lb ->
  exists lb', up_loop rounds lb = Ok lb' /\ log_ok lb' /\
    log_flat lb' = log_rounds rounds (log_flat lb).
Proof.
  induction rounds as [|[d now] rounds IH]; intros lb Hf Hok; [exists lb; auto|].
  apply Forall_cons in Hf as [[Hl Hs] Hf]. cbn [fst] in *. cbn [up_loop].
  pose proof (up_round_spec d now lb Hl Hok) as Hr. cbv zeta in Hr. rewrite Hs in Hr.
  destruct Hr as (lb1 & -> & Hok1 & Hf1). rewrite bind_Ok.
  destruct (IH lb1 Hf Hok1) as (lb' & H1 & H2 & H3). exists lb'.
  split; [exact H1|]. split; [exact H2|]. rewrite H3, Hf1. reflexivity.
Qed.

Lemma proc_path_spec name_buff :
  zlen name_buff = 128 ->
  exists rest, proc_path name_buff = Ok (bytes_of "/proc/intercept_mmap" ++ Byte.x00 :: rest).
Proof.
  intros Hl. unfold proc_path.
  rewrite mwrite_Ok, bind_Ok by (unfold in_block; rewrite zlen_replicate; lia).
  set (r := drop _ name_buff). change (take (Z.to_nat 0) name_buff) with (@nil byte).
  rewrite app_nil_l. pose proof (zlen_nonneg r).
  change (replicate 100 Byte.x00 ++ r)
    with (replicate 20 Byte.x00 ++ Byte.x00 :: replicate 79 Byte.x00 ++ r).
  generalize (replicate 79 Byte.x00 ++ r). clear. intros t.
  pose proof (zlen_nonneg t). exists t.
  assert (21 <= zlen (replicate 20 Byte.x00 ++ Byte.x00 :: t)) as Hz
    by (unfold zlen in *; rewrite length_app, length_replicate; cbn [length];
      rewrite Nat2Z.inj_add, Nat2Z.inj_succ; lia).
  rewrite mwrite_Ok, bind_Ok
    by (unfold in_block; change (zlen (bytes_of path_prefix)) with 6; lia).
  rewrite mwrite_Ok; [reflexivity|]. unfold in_block.
  change (zlen (bytes_of proc_filename)) with 14.
  change (Z.of_nat (String.length path_prefix)) with 6.
  split; [lia|]. split; [lia|]. transitivity 21; [lia|].
  etransitivity; [exact Hz|]. apply Z.eq_le_incl. reflexivity.
Qed.

(** the program from start to end: it opens [/proc/intercept_mmap];
    without memory, or when the file cannot be opened or mapped, it stops
    there; otherwise, once the signal has come, its log file has one line
    per uid in order, with what the rounds logged on top of what the
    allocated memory held. *)
Theorem user_main_functional malloc r name_buff fd mmap_ok rounds :
  malloc 0 = Some r -> length r = Z.to_nat MAX_ENTRIES_PER_LOG_BUFF ->
  zlen name_buff = 128 -> Forall round_ok rounds ->
  exists rest, let path := bytes_of "/proc/intercept_mmap" ++ Byte.x00 :: rest in
    up_main malloc name_buff fd mmap_ok rounds =
    Ok (if (fd path <? 0) || negb mmap_ok then UpAbort
        else UpDone (lu_line <$> log_rounds rounds r) (count_zero (log_rounds rounds r))).
Proof.
  intros Hm Hr Hn Hf. destruct (proc_path_spec name_buff Hn) as [rest Hp].
  exists rest. cbv zeta. unfold up_main, malloc_log_buffs.
  change (Z.to_nat NUM_LOG_BUFF) with 1%nat. cbn [malloc_loop]. rewrite Hm, Hp, bind_Ok.
  cbn [app]. destruct (fd _ <? 0); cbn [orb]; [reflexivity|].
  destruct mmap_ok; cbn [negb]; [|reflexivity].
  assert (log_ok [r]) as Hok by (split; [reflexivity | apply Forall_singleton, Hr]).
  destruct (up_loop_spec rounds [r] Hf Hok) as (lb' & -> & Hok' & Hfl). rewrite bind_Ok.
  rewrite export_from_spec by (first [exact Hok' | rewrite ?MAX_LOG_ENTRY_eq; lia]).
  rewrite bind_Ok, drop_0, take_ge by (rewrite log_ok_length by exact Hok'; lia).
  rewrite Hfl. unfold log_flat. simpl mjoin. rewrite app_nil_r, Z.add_0_l. reflexivity.
Qed.

Lemma user_main_functional_witness :
  up_main (fun _ => Some (replicate (Z.to_nat MAX_ENTRIES_PER_LOG_BUFF) 0))
    (replicate 128 Byte.xff) (fun _ => -1) true [] = Ok UpAbort.
Proof.
  destruct (user_main_functional
    (fun _ => Some (replicate (Z.to_nat MAX_ENTRIES_PER_LOG_BUFF) 0)) _
    (replicate 128 Byte.xff) (fun _ => -1) true [] eq_refl) as [rest H].
  - apply length_replicate.
  - reflexivity.
  - constructor.
  - exact H.
Defined.
