(* ===== verification/ClientServer.v ===== *)
(** The two endpoints of the experiment: the client that sends the
    measurement packets ([src/mymodule/helper/client.c]) and the plain
    socket server the two other receivers are compared with
    ([src/mymodule/helper/server.c]). *)
From S2P Require Import Prelude CommonH UserProc.
#[local] Open Scope Z_scope.

(** * The client *)

Definition MAXLINE : Z := 1024.

(** [pl] as sent with a uid and a time: the initialiser, then the two
    fields the loop sets. *)
Definition client_payload (uid created : Z) : Payload :=
  {| client_uid := 1; CommonH.uid := uid; type := PL_DATA; created_time := created;
     ks_time_arrival_1 := 0; ks_time_arrival_2 := 0;
     us_time_arrival_1 := 0; us_time_arrival_2 := 0;
     data := replicate (Z.to_nat PAYLOAD_DATA_SIZE) Byte.x00 |}.

(** [while (1)]: [clock k] is what the [k]-th call of [get_nsecs] returned,
    [tick] the number of calls so far. The payloads handed to [sendto], in
    order, and the rate printed at the end. *)
Fixpoint client_loop (fuel : nat) (clock : Z -> Z) (tick uid start stop : Z)
    : res (list Payload * Z) :=
  match fuel with
  | O => Err OutOfFuel
  | S fuel =>
      if MAX_LOG_ENTRY <? uid then
        let stop := if stop =? 0 then clock tick else stop in
        let ms := u64 (stop - start) / 1000000 in
        if ms =? 0 then Err DivByZero else Ok ([], MAX_LOG_ENTRY / ms)
      else
        let pl := client_payload uid (clock tick) in
        '(sent, rate) ← client_loop fuel clock (tick + 1) (u64 (uid + 1)) start stop;
        Ok (pl :: sent, rate)
  end.

Definition client_fuel : nat := Z.to_nat (MAX_LOG_ENTRY + 2).

(** What a run of the client ends in: the exit status when it has no
    socket, or the packets it sent and the rate. *)
Inductive client_exit :=
| ClientNoSocket
| ClientDone (sent : list Payload) (rate : Z).

Definition client_main (sockfd : Z) (clock : Z -> Z) : res client_exit :=
  if sockfd <? 0 then Ok ClientNoSocket else
  let uid := 0 in
  let begin_sent := clock 0 in
  let start := clock 1 in
  let stop := 0 in
  '(sent, rate) ← client_loop client_fuel clock 2 uid start stop;
  Ok (ClientDone sent rate).

(** * The server *)

(** [recvfrom] into the zeroed buffer: a longer datagram is cut, and a
    failed call leaves the buffer as it was. *)
Definition server_recv (datagram : option (list byte)) : res (list byte) :=
  let buffer := replicate (Z.to_nat MAXLINE) Byte.x00 in
  match datagram with
  | None => Ok buffer
  | Some d => mwrite buffer 0 (take (Z.to_nat MAXLINE) d)
  end.

(** The body of [while (keep_running)]: the log, and whether the loop is
    left. *)
Definition server_round (datagram : option (list byte)) (now : Z)
    (log_buffs : log_table) : res (bool * log_table) :=
  buffer ← server_recv datagram;
  pl ← load_Payload buffer 0;
  log_buffs ← (if (uid pl <? MAX_LOG_ENTRY) && (0 <=? uid pl) then
                 let buff_index := uid pl / MAX_ENTRIES_PER_LOG_BUFF in
                 log_store log_buffs buff_index (uid pl) now
               else Ok log_buffs);
  Ok (uid pl =? MAX_LOG_ENTRY - 1, log_buffs).

(** The rounds until the loop is left or the signal comes. *)
Fixpoint server_loop (rounds : list (option (list byte) * Z)) (log_buffs : log_table)
    : res log_table :=
  match rounds with
  | [] => Ok log_buffs
  | (datagram, now) :: rounds =>
      '(stop, log_buffs) ← server_round datagram now log_buffs;
      if (stop : bool) then Ok log_buffs else server_loop rounds log_buffs
  end.

Inductive server_exit :=
| ServerFailure               (* usage, socket or bind *)
| ServerNoMemory (freed : list Z)
| ServerDone (path : string) (file : list string) (zeroed : Z).

Definition path_km_server_linuxsocket : string :=
  "/home/que/Desktop/mymodule/logs/KM_socket_server.txt".
Definition path_ebpf_server_linuxsocket : string :=
  "/home/que/Desktop/mymodule/logs/EBPF_socket_server.txt".

Definition server_main (args : list string) (malloc : Z -> option (list Z))
    (sockfd bound : Z) (rounds : list (option (list byte) * Z)) : res server_exit :=
  match args with
  | [mode] =>
      if negb (String.eqb "km" mode) && negb (String.eqb "ebpf" mode)
      then Ok ServerFailure else
      match malloc_loop malloc (Z.to_nat NUM_LOG_BUFF) 0 [] with
      | inr freed => Ok (ServerNoMemory freed)
      | inl log_buffs =>
          if sockfd <? 0 then Ok ServerFailure else
          if bound <? 0 then Ok ServerFailure else
          log_buffs ← server_loop rounds log_buffs;
          let path := if String.eqb "km" mode then path_km_server_linuxsocket
                      else path_ebpf_server_linuxsocket in
          '(file, zeroed) ←
            export_from lu_line log_buffs 0 (Z.to_nat MAX_LOG_ENTRY) 0;
          Ok (ServerDone path file zeroed)
      end
  | _ => Ok ServerFailure
  end.

(** * Lemmas: the client *)

Lemma client_payload_ok u t : u64_ok u -> u64_ok t -> Payload_ok (client_payload u t).
Proof.
  intros Hu Ht. unfold Payload_ok, client_payload. cbn [client_uid uid type
    created_time ks_time_arrival_1 ks_time_arrival_2 us_time_arrival_1
    us_time_arrival_2 data].
  unfold u64_ok in *. unfold PL_DATA, PAYLOAD_DATA_SIZE. rewrite zlen_replicate. lia.
Qed.

(** The packets from uid [u] on. *)
Definition client_packets (clock : Z -> Z) (u : Z) : list Payload :=
  (fun v => client_payload v (clock (2 + v))) <$> seqZ u (MAX_LOG_ENTRY + 1 - u).

(** The milliseconds the client measures. *)
Definition client_ms (clock : Z -> Z) : Z :=
  u64 (clock (MAX_LOG_ENTRY + 3) - clock 1) / 1000000.

Lemma client_loop_spec clock fuel : forall u,
  0 <= u <= MAX_LOG_ENTRY + 1 -> (Z.to_nat (MAX_LOG_ENTRY + 2 - u) <= fuel)%nat ->
  client_loop fuel clock (2 + u) u (clock 1) 0 =
  if client_ms clock =? 0 then Err DivByZero
  else Ok (client_packets clock u, MAX_LOG_ENTRY / client_ms clock).
Proof.
  induction fuel as [|fuel IH]; intros u Hu Hf; [lia|]. cbn [client_loop].
  destruct (Z.ltb_spec MAX_LOG_ENTRY u).
  - replace u with (MAX_LOG_ENTRY + 1) in * by lia. cbn [Z.eqb].
    replace (2 + (MAX_LOG_ENTRY + 1)) with (MAX_LOG_ENTRY + 3) by lia.
    fold (client_ms clock). unfold client_packets.
    rewrite Z.sub_diag. reflexivity.
  - rewrite u64_small by (rewrite MAX_LOG_ENTRY_eq in *; lia).
    replace (2 + u + 1) with (2 + (u + 1)) by lia.
    rewrite IH by lia. destruct (client_ms clock =? 0); [reflexivity|].
    rewrite bind_Ok. unfold client_packets.
    rewrite (seqZ_cons u) by lia. rewrite fmap_cons.
    replace (Z.pred (MAX_LOG_ENTRY + 1 - u)) with (MAX_LOG_ENTRY + 1 - (u + 1)) by lia.
    reflexivity.
Qed.

(** * Lemmas: the server *)

(** The uid the server reads from a datagram: that of the zeroed buffer
    where the datagram is too short. *)
Definition datagram_uid (d : option (list byte)) : Z :=
  field (default [] d ++ replicate (Z.to_nat MAXLINE) Byte.x00) 1.

Definition uid_entry (u : Z) : option Z := if u <? MAX_LOG_ENTRY then Some u else None.

Lemma server_recv_spec d :
  exists b, server_recv d = Ok b /\ zlen b = MAXLINE /\ field b 1 = datagram_uid d.
Proof.
  unfold server_recv, datagram_uid. destruct d as [d|]; cbn [default from_option id].
  - change MAXLINE with 1024. change (Z.to_nat 1024) with 1024%nat.
    set (b := replicate 1024 Byte.x00).
    assert (length b = 1024%nat) as Hb by apply length_replicate.
    assert (length (take 1024 d) = (1024 `min` length d)%nat) as Ht by apply length_take.
    exists (take 1024 d ++ drop (length (take 1024 d)) b).
    rewrite mwrite_Ok by (unfold in_block, zlen; rewrite Ht, Hb; lia).
    split; [reflexivity|]. split.
    { unfold zlen. rewrite length_app, length_drop, Ht, Hb. lia. }
    rewrite <- (field_take (_ ++ drop _ _) 1 16), <- (field_take (d ++ b) 1 16) by lia.
    f_equal. rewrite !take_app, take_take, Ht. f_equal.
    unfold b. rewrite drop_replicate, !take_replicate. f_equal. lia.
  - eexists. split; [reflexivity|]. split; [apply zlen_replicate | reflexivity].
Qed.

Lemma server_round_spec d now lb :
  log_ok lb ->
  exists lb', server_round d now lb = Ok (datagram_uid d =? MAX_LOG_ENTRY - 1, lb') /\
    log_ok lb' /\
    log_flat lb' = log_entry (uid_entry (datagram_uid d)) now (log_flat lb).
Proof.
  intros Hok. unfold server_round, uid_entry.
  destruct (server_recv_spec d) as (b & -> & Hb & Hu). rewrite bind_Ok.
  unfold load_Payload. rewrite mread_Ok
    by (unfold in_block; change sizeof_Payload with 1024; change MAXLINE with 1024 in Hb; lia).
  rewrite !bind_Ok, drop_0, take_ge
    by (change sizeof_Payload with 1024; change MAXLINE with 1024 in Hb;
        unfold zlen in Hb; lia).
  cbn [Payload_of_bytes uid]. rewrite Hu.
  assert (0 <= datagram_uid d) as H0 by apply le_val_range.
  replace (0 <=? datagram_uid d) with true by lia. rewrite andb_true_r.
  destruct (Z.ltb_spec (datagram_uid d) MAX_LOG_ENTRY).
  - destruct (log_store_flat lb Hok (datagram_uid d) now) as (lb' & -> & H1 & H2); [lia|].
    rewrite bind_Ok. exists lb'. auto.
  - rewrite bind_Ok. exists lb. auto.
Qed.

(** The rounds the server makes: up to the first packet with the last uid. *)
Fixpoint server_takes (rounds : list (option (list byte) * Z))
    : list (option (list byte) * Z) :=
  match rounds with
  | [] => []
  | r :: rounds =>
      r :: (if datagram_uid (fst r) =? MAX_LOG_ENTRY - 1 then [] else server_takes rounds)
  end.

Definition server_log (rounds : list (option (list byte) * Z)) (l : list Z) : list Z :=
  foldl (fun l r => log_entry (uid_entry (datagram_uid (fst r))) (snd r) l) l rounds.

Lemma server_loop_spec rounds : forall lb,
  log_ok lb ->
  exists lb', server_loop rounds lb = Ok lb' /\ log_ok lb' /\
    log_flat lb' = server_log (server_takes rounds) (log_flat lb).
Proof.
  induction rounds as [|[d now] rounds IH]; intros lb Hok; [exists lb; auto|].
  cbn [server_loop server_takes fst].
  destruct (server_round_spec d now lb Hok) as (lb1 & -> & Hok1 & Hf1). rewrite bind_Ok.
  destruct (datagram_uid d =? MAX_LOG_ENTRY - 1).
  - exists lb1. auto.
  - destruct (IH lb1 Hok1) as (lb' & H1 & H2 & H3). exists lb'.
    split; [exact H1|]. split; [exact H2|]. rewrite H3, Hf1. reflexivity.
Qed.

(** What the client and the socket server guarantee, each by itself and
    over a network that loses and reorders nothing. *)

(** the client sends exactly [MAX_LOG_ENTRY + 1] packets, the uids from
    0 to [MAX_LOG_ENTRY] in order, each with the time of its sending, and
    terminates with the rate; if the sending took less than a millisecond
    it divides by zero instead. *)
Theorem client_functional sockfd clock :
  client_main sockfd clock =
  if sockfd <? 0 then Ok ClientNoSocket
  else if client_ms clock =? 0 then Err DivByZero
  else Ok (ClientDone
             ((fun u => client_payload u (clock (2 + u))) <$> seqZ 0 (MAX_LOG_ENTRY + 1))
             (MAX_LOG_ENTRY / client_ms clock)).
Proof.
  unfold client_main. destruct (sockfd <? 0); [reflexivity|].
  change 2 with (2 + 0) at 1. rewrite client_loop_spec.
  - destruct (client_ms clock =? 0); [reflexivity|]. rewrite bind_Ok.
    unfold client_packets. rewrite Z.sub_0_r. reflexivity.
  - rewrite MAX_LOG_ENTRY_eq. lia.
  - unfold client_fuel. rewrite MAX_LOG_ENTRY_eq. lia.
Qed.

(** the server never faults, whatever it receives: it logs each
    datagram under the uid it reads, when it fits the log, at its time of
    arrival, up to and including the first packet with the last uid, which
    ends the loop. A datagram of fewer than nine bytes, or a failed
    [recvfrom], is logged as packet 0. *)
Theorem server_functional rounds lb :
  log_ok lb ->
  (exists lb', server_loop rounds lb = Ok lb' /\ log_ok lb' /\
     log_flat lb' = server_log (server_takes rounds) (log_flat lb)) /\
  (forall d, (length (default [] d) <= 8)%nat -> datagram_uid d = 0).
Proof.
  intros Hok. split; [apply server_loop_spec, Hok|]. intros d Hd.
  unfold datagram_uid, field. change (8 * 1)%nat with 8%nat.
  rewrite drop_app_ge by exact Hd. rewrite drop_replicate, take_replicate.
  generalize (8 `min` (Z.to_nat MAXLINE - (8 - length (default [] d))))%nat.
  intros n. induction n as [|n IH]; [reflexivity|]. cbn [replicate le_val].
  rewrite IH. reflexivity.
Qed.

Lemma server_functional_witness :
  exists lb', server_loop [(None, 3)] [replicate (Z.to_nat MAX_ENTRIES_PER_LOG_BUFF) 0] = Ok lb'.
Proof.
  destruct (server_functional [(None, 3)] [replicate (Z.to_nat MAX_ENTRIES_PER_LOG_BUFF) 0])
    as [(lb' & H & _) _].
  - split; [reflexivity|]. apply Forall_singleton, length_replicate.
  - exists lb'. exact H.
Defined.

(** * Client to server *)

(** Storing [f u] in cell [u] for consecutive [u]. *)
Lemma foldl_inserts {A} (f : Z -> A) n : forall (k : nat) (l : list A),
  (k + n <= length l)%nat ->
  foldl (fun l u => <[Z.to_nat u := f u]> l) l (seqZ (Z.of_nat k) (Z.of_nat n)) =
  take k l ++ (f <$> seqZ (Z.of_nat k) (Z.of_nat n)) ++ drop (k + n) l.
Proof.
  induction n as [|n IH]; intros k l Hl.
  { rewrite Nat.add_0_r. change (seqZ (Z.of_nat k) (Z.of_nat 0)) with (@nil Z).
    cbn [foldl fmap list_fmap app]. rewrite take_drop. reflexivity. }
  rewrite seqZ_cons by lia. replace (Z.pred (Z.of_nat (S n))) with (Z.of_nat n) by lia.
  replace (Z.succ (Z.of_nat k)) with (Z.of_nat (S k)) by lia.
  cbn [foldl]. rewrite IH by (rewrite length_insert; lia). rewrite fmap_cons, Nat2Z.id.
  rewrite (take_S_r _ _ (f (Z.of_nat k))) by (apply list_lookup_insert_eq; lia).
  rewrite take_insert_ge by lia. rewrite drop_insert_lt by lia.
  rewrite <- app_assoc. replace (S k + n)%nat with (k + S n)%nat by lia. reflexivity.
Qed.

Lemma datagram_uid_payload p :
  Payload_ok p -> datagram_uid (Some (Payload_bytes p)) = uid p.
Proof.
  intros Hp. unfold datagram_uid. cbn [default from_option id].
  pose proof (zlen_Payload_bytes p Hp) as Hl. change sizeof_Payload with 1024 in Hl.
  rewrite field_app by (unfold zlen in Hl; lia).
  change (field (Payload_bytes p) 1) with (uid (Payload_of_bytes (Payload_bytes p))).
  rewrite Payload_of_bytes_bytes by exact Hp. reflexivity.
Qed.

(** The datagrams of a run of the client, the one with uid [u] delivered at
    [times u]. *)
Definition delivered (clock times : Z -> Z) (u : Z) : option (list byte) * Z :=
  (Some (Payload_bytes (client_payload u (clock (2 + u)))), times u).

Section lossless.
Context (clock times : Z -> Z) (Hclock : forall k, u64_ok (clock k)).

Lemma delivered_uid u :
  0 <= u <= MAX_LOG_ENTRY -> datagram_uid (fst (delivered clock times u)) = u.
Proof using Hclock.
  intros Hu. cbn [delivered fst]. rewrite datagram_uid_payload; [reflexivity|].
  apply client_payload_ok; [|apply Hclock]. unfold u64_ok.
  rewrite MAX_LOG_ENTRY_eq in *. lia.
Qed.

(** The server takes all packets but the last one. *)
Lemma server_takes_run n : forall u,
  0 <= u -> u + Z.of_nat n = MAX_LOG_ENTRY + 1 -> (0 < n)%nat -> u < MAX_LOG_ENTRY ->
  server_takes (delivered clock times <$> seqZ u (Z.of_nat n)) =
  delivered clock times <$> seqZ u (MAX_LOG_ENTRY - u).
Proof using Hclock.
  induction n as [|n IH]; intros u Hu Hn Hp Hlt; [lia|].
  rewrite (seqZ_cons u (Z.of_nat _)) by lia. rewrite (seqZ_cons u (_ - _)) by lia.
  replace (Z.pred (Z.of_nat (S n))) with (Z.of_nat n) by lia.
  rewrite !fmap_cons. cbn [server_takes]. rewrite delivered_uid by lia.
  destruct (Z.eqb_spec u (MAX_LOG_ENTRY - 1)) as [->|Hne].
  - replace (Z.pred _) with 0 by lia. reflexivity.
  - replace (Z.pred (MAX_LOG_ENTRY - u)) with (MAX_LOG_ENTRY - Z.succ u) by lia.
    f_equal. apply IH; lia.
Qed.

Lemma server_log_run l :
  length l = Z.to_nat MAX_LOG_ENTRY ->
  server_log (delivered clock times <$> seqZ 0 MAX_LOG_ENTRY) l =
  times <$> seqZ 0 MAX_LOG_ENTRY.
Proof using Hclock.
  intros Hl. unfold server_log. rewrite foldl_fmap.
  transitivity (foldl (fun l u => <[Z.to_nat u := times u]> l) l (seqZ 0 MAX_LOG_ENTRY)).
  - assert (Forall (fun u => 0 <= u < MAX_LOG_ENTRY) (seqZ 0 MAX_LOG_ENTRY)) as Hf.
    { apply Forall_forall. intros u Hu%elem_of_seqZ. lia. }
    clear Hl. revert l. induction Hf as [|u us Hu _ IH]; intros l; [reflexivity|].
    cbn [foldl]. rewrite IH. f_equal. rewrite delivered_uid by lia.
    unfold uid_entry. replace (u <? MAX_LOG_ENTRY) with true by lia. reflexivity.
  - pose proof (foldl_inserts times (Z.to_nat MAX_LOG_ENTRY) 0 l) as Hi.
    rewrite Z2Nat.id in Hi by (rewrite MAX_LOG_ENTRY_eq; lia).
    change (Z.of_nat 0) with 0 in Hi. rewrite Hi by lia. rewrite take_0, app_nil_l.
    rewrite drop_ge by lia. apply app_nil_r.
Qed.
End lossless.


