(* ===== verification/Params.v ===== *)
(** Command-line parameters of the XDP programs,
    [src/eBPF_app/common/common_params.c] and [common_defines.h]: the option
    tables, the usage text and the settings the options make. [getopt_long]
    and [if_nametoindex] are the C library's. *)
From Stdlib Require Import Strings.Ascii.
From S2P Require Import Prelude CLib.
#[local] Open Scope Z_scope.

(** * Constants (the uapi headers) *)

Definition XDP_FLAGS_UPDATE_IF_NOEXIST : Z := 1.
Definition XDP_FLAGS_SKB_MODE : Z := 2.
Definition XDP_FLAGS_DRV_MODE : Z := 4.
Definition XDP_FLAGS_HW_MODE : Z := 8.
Definition XDP_FLAGS_MODES : Z :=
  Z.lor (Z.lor XDP_FLAGS_SKB_MODE XDP_FLAGS_DRV_MODE) XDP_FLAGS_HW_MODE.
Definition XDP_COPY : Z := 2.
Definition XDP_ZEROCOPY : Z := 4.
Definition IF_NAMESIZE : Z := 16.
Definition EXIT_OK : Z := 0.
Definition EXIT_FAIL : Z := 1.
Definition EXIT_FAIL_OPTION : Z := 2.
Definition EXIT_FAIL_XDP : Z := 30.
Definition EXIT_FAIL_BPF : Z := 40.

(** * The option table *)

(** [struct option] (of the C library) and [struct option_wrapper]. The
    entry that ends a table has no name. *)
Record option_ := mk_option { name : option (list byte); has_arg : bool; val : Z }.
Record option_wrapper := mk_wrapper {
  w_option : option_;
  help : list byte;
  metavar : option (list byte);
  required : bool
}.

(** [for (i = 0; wrapper[i].option.name != 0; i++) {}]: the entries before
    the terminator, which must be there. *)
Fixpoint wrapper_entries (wrapper : list option_wrapper) : res (list option_wrapper) :=
  match wrapper with
  | [] => Err OutOfBounds
  | w :: wrapper =>
      match name (w_option w) with
      | None => Ok []
      | Some _ => l ← wrapper_entries wrapper; Ok (w :: l)
      end
  end.

(** The array handed to [getopt_long], or -1 when there is no memory. *)
Definition option_wrappers_to_options (malloc_ok : bool)
    (wrapper : list option_wrapper) : res (list option_ + Z) :=
  entries ← wrapper_entries wrapper;
  if malloc_ok then Ok (inl (fmap (M := list) w_option entries)) else Ok (inr (-1)).

(** What [getopt_long] does with the array: it reads entries until one has
    no name. *)
Fixpoint options_scan (options : list option_) : res nat :=
  match options with
  | [] => Err OutOfBounds
  | o :: options =>
      match name o with
      | None => Ok O
      | Some _ => n ← options_scan options; Ok (S n)
      end
  end.

(** * The usage text *)

Definition BUFSIZE : Z := 30.

(** One line of [_print_options], without the newline; [buf] is the
    uninitialised buffer. *)
Definition print_option (buf : list byte) (w : option_wrapper) (nm : list byte)
    : res (list byte) :=
  let prefix := if 64 <? val (w_option w)
                then bytes_of " -" ++ [byte_of_Z (val (w_option w))] ++ bytes_of ","
                else bytes_of "    " in
  '(buf, pos) ← snprintf buf 0 BUFSIZE (bytes_of " --" ++ nm);
  '(buf, _) ← match metavar w with
              | Some mv => snprintf buf pos (BUFSIZE - pos) (bytes_of " " ++ mv)
              | None => Ok (buf, 0)
              end;
  text ← c_string buf;
  Ok (prefix ++ pad_right 22 text ++ bytes_of "  " ++ help w).

Fixpoint _print_options (buf : list byte) (long_options : list option_wrapper)
    (required' : bool) : res (list (list byte)) :=
  match long_options with
  | [] => Err OutOfBounds
  | w :: long_options =>
      match name (w_option w) with
      | None => Ok []
      | Some nm =>
          if negb (Bool.eqb (required w) required')
          then _print_options buf long_options required'
          else
            line ← print_option buf w nm;
            lines ← _print_options buf long_options required';
            Ok (line :: lines)
      end
  end.

(** The lines [usage] prints. *)
Definition usage (buf prog_name doc : list byte) (long_options : list option_wrapper)
    (full : bool) : res (list (list byte)) :=
  let first := bytes_of "Usage: " ++ prog_name ++ bytes_of " [options]" in
  if negb full
  then Ok [first; bytes_of "Use --help (or -h) to see full option list."] else
  req ← _print_options buf long_options true;
  opt ← _print_options buf long_options false;
  Ok ([first; []; bytes_of "DOCUMENTATION:"; bytes_of " " ++ doc;
       bytes_of "Required options:"] ++ req ++ [[]; bytes_of "Other options:"] ++
      opt ++ [[]]).

(** * struct config, with the global [verbose] *)

Record config := mk_config {
  xdp_flags : Z;
  ifindex : Z;
  ifname_buf : list byte;
  redirect_ifindex : Z;
  redirect_ifname_buf : list byte;
  do_unload : bool;
  reuse_maps : bool;
  pin_dir : list byte;
  filename : list byte;
  progsec : list byte;
  src_mac : list byte;
  dest_mac : list byte;
  xsk_bind_flags : Z;
  xsk_if_queue : Z;
  xsk_poll_mode : bool;
  verbose : bool
}.

Definition set_xdp_flags (c : config) (v : Z) : config :=
  mk_config v (ifindex c) (ifname_buf c) (redirect_ifindex c) (redirect_ifname_buf c)
    (do_unload c) (reuse_maps c) (pin_dir c) (filename c) (progsec c) (src_mac c)
    (dest_mac c) (xsk_bind_flags c) (xsk_if_queue c) (xsk_poll_mode c) (verbose c).
Definition set_dev (c : config) (ix : Z) (nm : list byte) : config :=
  mk_config (xdp_flags c) ix nm (redirect_ifindex c) (redirect_ifname_buf c)
    (do_unload c) (reuse_maps c) (pin_dir c) (filename c) (progsec c) (src_mac c)
    (dest_mac c) (xsk_bind_flags c) (xsk_if_queue c) (xsk_poll_mode c) (verbose c).
Definition set_redirect (c : config) (ix : Z) (nm : list byte) : config :=
  mk_config (xdp_flags c) (ifindex c) (ifname_buf c) ix nm
    (do_unload c) (reuse_maps c) (pin_dir c) (filename c) (progsec c) (src_mac c)
    (dest_mac c) (xsk_bind_flags c) (xsk_if_queue c) (xsk_poll_mode c) (verbose c).
Definition set_switches (c : config) (unload reuse poll verb : bool) : config :=
  mk_config (xdp_flags c) (ifindex c) (ifname_buf c) (redirect_ifindex c)
    (redirect_ifname_buf c) unload reuse (pin_dir c) (filename c) (progsec c)
    (src_mac c) (dest_mac c) (xsk_bind_flags c) (xsk_if_queue c) poll verb.
Definition set_strings (c : config) (file sec src dst : list byte) : config :=
  mk_config (xdp_flags c) (ifindex c) (ifname_buf c) (redirect_ifindex c)
    (redirect_ifname_buf c) (do_unload c) (reuse_maps c) (pin_dir c) file sec src dst
    (xsk_bind_flags c) (xsk_if_queue c) (xsk_poll_mode c) (verbose c).
Definition set_xsk (c : config) (bind queue : Z) : config :=
  mk_config (xdp_flags c) (ifindex c) (ifname_buf c) (redirect_ifindex c)
    (redirect_ifname_buf c) (do_unload c) (reuse_maps c) (pin_dir c) (filename c)
    (progsec c) (src_mac c) (dest_mac c) bind queue (xsk_poll_mode c) (verbose c).

(** * parse_cmdline_args *)

(** [~m] of an [unsigned] mask, and [short &= int]. *)
Definition clear (flags m : Z) : Z := Z.land flags (u32 (Z.lnot m)).
Definition chr (c : Ascii.ascii) : Z := Z.of_nat (Ascii.nat_of_ascii c).
Arguments chr c%_char.

(** What the body of the loop does with one option: the settings after it,
    or the exit (with the usage text, [full_help]). *)
Definition parsed_opt : Type := (config + bool).

Section options.
Context (if_nametoindex : list byte -> Z).

Definition dev_option (optarg : list byte) : option (Z * list byte) :=
  if IF_NAMESIZE <=? zlen optarg then None else
  let ix := if_nametoindex optarg in
  if ix =? 0 then None else Some (ix, strncpy optarg (Z.to_nat IF_NAMESIZE)).


(** [arg] is [optarg], NULL for an option without an argument. *)
Definition parse_opt (cfg : config) (opt : Z) (arg : option (list byte))
    : res parsed_opt :=
  if opt =? chr "d" then
    optarg ← or_fault NullDeref arg;
    match dev_option optarg with
    | Some (ix, nm) => Ok (inl (set_dev cfg ix nm))
    | None => Ok (inr false)
    end
  else if opt =? chr "r" then
    optarg ← or_fault NullDeref arg;
    match dev_option optarg with
    | Some (ix, nm) => Ok (inl (set_redirect cfg ix nm))
    | None => Ok (inr false)
    end
  else if opt =? chr "A" then
    Ok (inl (set_xdp_flags cfg (clear (xdp_flags cfg) XDP_FLAGS_MODES)))
  else if opt =? chr "S" then
    let flags := Z.lor (clear (xdp_flags cfg) XDP_FLAGS_MODES) XDP_FLAGS_SKB_MODE in
    let bind := Z.lor (Z.land (xsk_bind_flags cfg) XDP_ZEROCOPY) XDP_COPY in
    Ok (inl (set_xsk (set_xdp_flags cfg flags) bind (xsk_if_queue cfg)))
  else if opt =? chr "N" then
    Ok (inl (set_xdp_flags cfg
      (Z.lor (clear (xdp_flags cfg) XDP_FLAGS_MODES) XDP_FLAGS_DRV_MODE)))
  else if opt =? 3 then
    Ok (inl (set_xdp_flags cfg
      (Z.lor (clear (xdp_flags cfg) XDP_FLAGS_MODES) XDP_FLAGS_HW_MODE)))
  else if opt =? chr "F" then
    Ok (inl (set_xdp_flags cfg (clear (xdp_flags cfg) XDP_FLAGS_UPDATE_IF_NOEXIST)))
  else if opt =? chr "M" then
    Ok (inl (set_switches cfg (do_unload cfg) true (xsk_poll_mode cfg) (verbose cfg)))
  else if opt =? chr "U" then
    Ok (inl (set_switches cfg true (reuse_maps cfg) (xsk_poll_mode cfg) (verbose cfg)))
  else if opt =? chr "p" then
    Ok (inl (set_switches cfg (do_unload cfg) (reuse_maps cfg) true (verbose cfg)))
  else if opt =? chr "q" then
    Ok (inl (set_switches cfg (do_unload cfg) (reuse_maps cfg) (xsk_poll_mode cfg) false))
  else if opt =? chr "Q" then
    optarg ← or_fault NullDeref arg;
    queue ← or_fault OutOfBounds (atoi optarg);
    Ok (inl (set_xsk cfg (xsk_bind_flags cfg) queue))
  else if opt =? 1 then
    optarg ← or_fault NullDeref arg;
    Ok (inl (set_strings cfg (strncpy optarg (length (filename cfg))) (progsec cfg)
      (src_mac cfg) (dest_mac cfg)))
  else if opt =? 2 then
    optarg ← or_fault NullDeref arg;
    Ok (inl (set_strings cfg (filename cfg) (strncpy optarg (length (progsec cfg)))
      (src_mac cfg) (dest_mac cfg)))
  else if opt =? chr "L" then
    optarg ← or_fault NullDeref arg;
    Ok (inl (set_strings cfg (filename cfg) (progsec cfg)
      (strncpy optarg (length (src_mac cfg))) (dest_mac cfg)))
  else if opt =? chr "R" then
    optarg ← or_fault NullDeref arg;
    Ok (inl (set_strings cfg (filename cfg) (progsec cfg) (src_mac cfg)
      (strncpy optarg (length (dest_mac cfg)))))
  else if opt =? chr "c" then
    Ok (inl (set_xsk cfg (Z.lor (Z.land (xsk_bind_flags cfg) XDP_ZEROCOPY) XDP_COPY)
      (xsk_if_queue cfg)))
  else if opt =? chr "z" then
    Ok (inl (set_xsk cfg (Z.lor (Z.land (xsk_bind_flags cfg) XDP_COPY) XDP_ZEROCOPY)
      (xsk_if_queue cfg)))
  else if opt =? chr "h" then Ok (inr true)
  else Ok (inr false).

(** The loop: [opts] are the options [getopt_long] gives, in order. *)
Fixpoint parse_opts (cfg : config) (opts : list (Z * option (list byte)))
    : res parsed_opt :=
  match opts with
  | [] => Ok (inl cfg)
  | (opt, arg) :: opts =>
      r ← parse_opt cfg opt arg;
      match r with
      | inl cfg => parse_opts cfg opts
      | inr full_help => Ok (inr full_help)
      end
  end.

(** What [parse_cmdline_args] comes to: the settings, or the program's exit
    with the text it prints. *)
Inductive cmdline := CmdConfig (cfg : config) | CmdExit (code : Z) (text : list (list byte)).

(** [getopt_long options] gives the options it recognises, or fails as
    reading the array does. *)
Definition parse_cmdline_args
    (getopt_long : list option_ -> res (list (Z * option (list byte))))
    (malloc_ok : bool) (buf prog_name doc : list byte)
    (options_wrapper : list option_wrapper) (cfg : config) : res cmdline :=
  r ← option_wrappers_to_options malloc_ok options_wrapper;
  match r with
  | inr _ => Ok (CmdExit EXIT_FAIL_OPTION [])
  | inl long_options =>
      opts ← getopt_long long_options;
      r ← parse_opts cfg opts;
      match r with
      | inl cfg => Ok (CmdConfig cfg)
      | inr full_help =>
          text ← usage buf prog_name doc options_wrapper full_help;
          Ok (CmdExit EXIT_FAIL_OPTION text)
      end
  end.
End options.
