(* ===== verification/ParamsProps.v ===== *)
(** What the command-line handling guarantees: the option array, the usage
    text, the settings. *)
From Stdlib Require Import Strings.Ascii.
From S2P Require Import Prelude CLib Params.
#[local] Open Scope Z_scope.

(** * The option array *)

Definition named (w : option_wrapper) : Prop := is_Some (name (w_option w)).
Definition terminator (w : option_wrapper) : Prop := name (w_option w) = None.

Lemma wrapper_entries_spec entries t rest :
  Forall named entries -> terminator t ->
  wrapper_entries (entries ++ t :: rest) = Ok entries.
Proof.
  intros He Ht. induction He as [|w l [nm Hw] _ IH]; cbn [app wrapper_entries].
  - rewrite Ht. reflexivity.
  - rewrite Hw, IH. reflexivity.
Qed.

(** The array built for [getopt_long] has one element per entry of the
    table, in order, but not the terminating element: reading it up to an
    element without a name, as [getopt_long] does for an option it does not
    know, leaves the array. *)
Theorem options_array_unterminated entries t rest :
  Forall named entries -> terminator t ->
  exists opts, option_wrappers_to_options true (entries ++ t :: rest) = Ok (inl opts) /\
    opts = w_option <$> entries /\ options_scan opts = Err OutOfBounds.
Proof.
  intros He Ht. exists (w_option <$> entries). unfold option_wrappers_to_options.
  rewrite wrapper_entries_spec by assumption. split; [reflexivity|]. split; [reflexivity|].
  clear Ht. induction He as [|w l [nm Hw] _ IH]; [reflexivity|].
  rewrite fmap_cons. cbn [options_scan]. rewrite Hw, IH. reflexivity.
Qed.

(** * The usage text *)

Definition meta_text (w : option_wrapper) : list byte :=
  match metavar w with Some mv => bytes_of " " ++ mv | None => [] end.

(** The column an option's name is printed in. *)
Definition option_text (w : option_wrapper) (nm : list byte) : list byte :=
  take 29 ((bytes_of " --" ++ nm) ++ meta_text w).

Lemma nul_free_option_text w nm :
  nul_free nm -> match metavar w with Some mv => nul_free mv | None => True end ->
  nul_free (option_text w nm).
Proof.
  intros Hn Hm. apply Forall_take. apply Forall_app. split.
  - apply Forall_app. split; [|exact Hn]. repeat constructor; discriminate.
  - unfold meta_text. destruct (metavar w); [|constructor].
    apply Forall_app. split; [|exact Hm]. repeat constructor; discriminate.
Qed.

(** [snprintf] into a 30-byte buffer: the text, cut to fit, its NUL, and
    what was behind. *)
Lemma snprintf_at buf off s :
  length buf = 30%nat -> 0 <= off < 30 ->
  exists k, snprintf buf off (BUFSIZE - off) s =
    Ok (take (Z.to_nat off) buf ++ take (29 - Z.to_nat off) s ++ NUL :: k, zlen s) /\
    length (take (Z.to_nat off) buf ++ take (29 - Z.to_nat off) s ++ NUL :: k) = 30%nat.
Proof.
  intros Hb Ho. unfold snprintf, BUFSIZE. rewrite u64_small by lia.
  replace (30 - off =? 0) with false by lia.
  replace (Z.to_nat (30 - off - 1)) with (29 - Z.to_nat off)%nat by lia.
  assert (length (take (29 - Z.to_nat off) s) <= 29 - Z.to_nat off)%nat as Ht
    by (rewrite length_take; lia).
  rewrite mwrite_Ok by (unfold in_block, zlen; rewrite length_app; simpl length; lia).
  rewrite bind_Ok, <- app_assoc. eexists. split; [reflexivity|].
  rewrite !length_app, !length_take. cbn [length].
  rewrite length_drop, ?length_app, !length_take in *. cbn [length]. lia.
Qed.

Lemma c_string_take s k : nul_free s -> c_string (s ++ NUL :: k) = Ok s.
Proof. apply c_string_app. Qed.

Lemma print_option_spec buf w nm :
  length buf = 30%nat -> nul_free nm -> zlen nm < 2 ^ 31 - 3 ->
  match metavar w with Some mv => nul_free mv | None => True end ->
  print_option buf w nm =
  if bool_decide (is_Some (metavar w)) && (27 <? zlen nm) then Err OutOfBounds
  else Ok ((if 64 <? val (w_option w)
            then bytes_of " -" ++ [byte_of_Z (val (w_option w))] ++ bytes_of ","
            else bytes_of "    ") ++
           pad_right 22 (option_text w nm) ++ bytes_of "  " ++ help w).
Proof.
  intros Hb Hn Hlt Hm. unfold print_option. set (s := bytes_of " --" ++ nm).
  pose proof (nul_free_option_text w nm Hn Hm) as Hnf. unfold option_text in *. fold s in Hnf |- *.
  assert (zlen s = 3 + zlen nm) as Hs by (unfold s; rewrite zlen_app; reflexivity).
  pose proof (zlen_nonneg nm).
  destruct (snprintf_at buf 0 s Hb ltac:(lia)) as (k & He & Hl).
  change (BUFSIZE - 0) with BUFSIZE in He. rewrite He, bind_Ok.
  change (take (Z.to_nat 0) buf) with (@nil byte) in *. rewrite app_nil_l in *.
  change (29 - Z.to_nat 0)%nat with 29%nat in *.
  unfold meta_text in *. destruct (metavar w) as [mv|].
  2:{ rewrite app_nil_r in *. rewrite bool_decide_eq_false_2 by (intros [? [=]]).
      cbn [andb]. rewrite bind_Ok, c_string_take by exact Hnf. reflexivity. }
  rewrite bool_decide_eq_true_2 by eauto. cbn [andb].
  destruct (Z.ltb_spec 27 (zlen nm)).
  { unfold snprintf. replace (u64 (BUFSIZE - zlen s) =? 0) with false
      by (unfold BUFSIZE; rewrite Hs; wrap_lia).
    unfold mwrite. replace ((0 <=? zlen s) && _) with false; [reflexivity|].
    symmetry. apply andb_false_iff. right. apply Z.leb_gt.
    unfold zlen in *. rewrite Hl, length_app. cbn [length]. lia. }
  destruct (Z.eqb_spec (zlen nm) 27) as [H27|H27].
  { replace (BUFSIZE - zlen s) with 0 by (unfold BUFSIZE; lia).
    cbn [snprintf]. change (snprintf _ _ 0 ?t) with (@Ok (list byte * Z)
      (take 29 s ++ NUL :: k, zlen (bytes_of " " ++ mv))).
    rewrite bind_Ok. rewrite take_app_le in Hnf |- * by (unfold zlen in *; lia).
    rewrite c_string_take by exact Hnf. reflexivity. }
  destruct (snprintf_at (take 29 s ++ NUL :: k) (zlen s) (bytes_of " " ++ mv) Hl ltac:(lia))
    as (k' & He' & _). rewrite He', bind_Ok.
  assert (take (Z.to_nat (zlen s)) (take 29 s ++ NUL :: k) = s) as ->.
  { rewrite (take_ge s) by (unfold zlen in *; lia). apply take_app_length'.
    unfold zlen. lia. }
  assert (take 29 (s ++ bytes_of " " ++ mv) =
    s ++ take (29 - Z.to_nat (zlen s)) (bytes_of " " ++ mv)) as Htk.
  { rewrite take_app, (take_ge s) by (unfold zlen in *; lia).
    unfold zlen. rewrite Nat2Z.id. reflexivity. }
  rewrite Htk in Hnf |- *. pose proof (c_string_take _ k' Hnf) as Hc.
  rewrite <- app_assoc in Hc. rewrite Hc. reflexivity.
Qed.

(** A line of the usage text: with a 30-byte buffer the column of the
    option is cut to 29 characters, and the line is produced without a
    fault, unless the option has a metavariable and its name more than 27
    characters: the second [snprintf] then writes beyond the buffer. *)
Theorem usage_line buf w nm :
  length buf = Z.to_nat BUFSIZE -> nul_free nm -> zlen nm < 2 ^ 31 - 3 ->
  match metavar w with Some mv => nul_free mv | None => True end ->
  print_option buf w nm =
  if bool_decide (is_Some (metavar w)) && (27 <? zlen nm) then Err OutOfBounds
  else Ok ((if 64 <? val (w_option w)
            then bytes_of " -" ++ [byte_of_Z (val (w_option w))] ++ bytes_of ","
            else bytes_of "    ") ++
           pad_right 22 (option_text w nm) ++ bytes_of "  " ++ help w).
Proof. apply print_option_spec. Qed.

(** The [--dev] option of the measurement program. *)
Definition dev_wrapper : option_wrapper :=
  mk_wrapper (mk_option (Some (bytes_of "dev")) true 100)
    (bytes_of "Operate on device <ifname>") (Some (bytes_of "<ifname>")) true.

Lemma usage_line_witness :
  print_option (replicate 30 Byte.xff) dev_wrapper (bytes_of "dev") =
  Ok (bytes_of " -d, --dev <ifname>         Operate on device <ifname>").
Proof.
  rewrite (usage_line (replicate 30 Byte.xff) dev_wrapper (bytes_of "dev")).
  - vm_compute. reflexivity.
  - reflexivity.
  - repeat constructor; discriminate.
  - vm_compute. reflexivity.
  - repeat constructor; discriminate.
Defined.

(** A table with a metavariable for [--dev] and its end. *)
Lemma options_array_unterminated_witness :
  exists opts, option_wrappers_to_options true
      ([dev_wrapper] ++ mk_wrapper (mk_option None false 0) [] None false :: []) = Ok (inl opts) /\
    options_scan opts = Err OutOfBounds.
Proof.
  destruct (options_array_unterminated [dev_wrapper]
    (mk_wrapper (mk_option None false 0) [] None false) []) as (opts & H1 & _ & H2).
  - repeat constructor. eexists. reflexivity.
  - reflexivity.
  - exists opts. split; [exact H1 | exact H2].
Defined.

(** * The settings *)

(** The XDP mode an option selects (as the mode bit), if it is a mode option. *)
Definition mode_of (opt : Z) : option Z :=
  if opt =? chr "A" then Some 0
  else if opt =? chr "S" then Some XDP_FLAGS_SKB_MODE
  else if opt =? chr "N" then Some XDP_FLAGS_DRV_MODE
  else if opt =? 3 then Some XDP_FLAGS_HW_MODE else None.

Definition mode_after (opts : list Z) (m : Z) : Z :=
  foldl (fun m opt => default m (mode_of opt)) m opts.

(** The binding flags an option asks for. *)
Definition asks_copy (opt : Z) : bool := (opt =? chr "S") || (opt =? chr "c").
Definition asks_zerocopy (opt : Z) : bool := opt =? chr "z".

Lemma land_clear f m k :
  Z.land (clear f m) k = Z.land f (Z.land (u32 (Z.lnot m)) k).
Proof. unfold clear. rewrite Z.land_assoc. reflexivity. Qed.

(** What one option does to the mode, to the [IF_NOEXIST] flag and to the
    binding flags. *)
Record flags_step (opt : Z) (c c' : config) : Prop := mk_flags_step {
  fs_mode : Z.land (xdp_flags c') XDP_FLAGS_MODES =
    default (Z.land (xdp_flags c) XDP_FLAGS_MODES) (mode_of opt);
  fs_noexist : Z.testbit (xdp_flags c') 0 =
    Z.testbit (xdp_flags c) 0 && negb (opt =? chr "F");
  fs_copy : Z.testbit (xsk_bind_flags c') 1 =
    Z.testbit (xsk_bind_flags c) 1 || asks_copy opt;
  fs_zerocopy : Z.testbit (xsk_bind_flags c') 2 =
    Z.testbit (xsk_bind_flags c) 2 || asks_zerocopy opt
}.

(** The flag words are small: the facts about them are facts about bits. *)
Lemma land_modes_clear f : Z.land (clear f XDP_FLAGS_MODES) XDP_FLAGS_MODES = 0.
Proof.
  rewrite land_clear.
  change (Z.land (u32 (Z.lnot XDP_FLAGS_MODES)) XDP_FLAGS_MODES) with 0. apply Z.land_0_r.
Qed.

Lemma land_modes_set f m : Z.land m XDP_FLAGS_MODES = m ->
  Z.land (Z.lor (clear f XDP_FLAGS_MODES) m) XDP_FLAGS_MODES = m.
Proof. intros Hm. rewrite Z.land_lor_distr_l, land_modes_clear, Hm. reflexivity. Qed.

Lemma land_modes_noexist f :
  Z.land (clear f XDP_FLAGS_UPDATE_IF_NOEXIST) XDP_FLAGS_MODES = Z.land f XDP_FLAGS_MODES.
Proof.
  rewrite land_clear. reflexivity.
Qed.

Lemma testbit0_clear f m : Z.testbit (clear f m) 0 =
  Z.testbit f 0 && Z.testbit (u32 (Z.lnot m)) 0.
Proof. apply Z.land_spec. Qed.

(** Evaluate the bits of constants and case over the others. *)
Ltac flag_bits :=
  cbn [set_xdp_flags set_xsk xdp_flags xsk_bind_flags];
  rewrite ?Z.lor_spec, ?testbit0_clear, ?Z.land_spec;
  repeat match goal with
  | |- context [Z.testbit (xdp_flags ?c) ?i] => destruct (Z.testbit (xdp_flags c) i)
  | |- context [Z.testbit (xsk_bind_flags ?c) ?i] => destruct (Z.testbit (xsk_bind_flags c) i)
  end; reflexivity.

Lemma parse_opt_flags ifx c opt arg c' :
  parse_opt ifx c opt arg = Ok (inl c') -> flags_step opt c c'.
Proof.
  unfold parse_opt.
  assert (forall d, mode_of opt = None -> asks_copy opt = false ->
    asks_zerocopy opt = false -> (opt =? chr "F") = false -> xdp_flags d = xdp_flags c ->
    xsk_bind_flags d = xsk_bind_flags c -> flags_step opt c d) as Hsame.
  { intros d Hm Hc Hz Hf Hx Hb. split; rewrite ?Hm, ?Hc, ?Hz, ?Hf, ?Hx, ?Hb,
      ?orb_false_r, ?andb_true_r; reflexivity. }
  repeat match goal with
  | |- (if opt =? ?k then _ else _) = _ -> _ =>
      destruct (Z.eqb_spec opt k) as [->|?]
  end; intros H; res_inv; try discriminate;
  repeat match type of H with
  | match ?o with _ => _ end = _ => destruct o; try discriminate
  end; try (injection H as <-); subst;
  try (apply Hsame; reflexivity); clear Hsame;
  (split; [first [apply land_modes_clear | apply land_modes_set; reflexivity
                 | apply land_modes_noexist | reflexivity] | flag_bits..]).
Qed.

(** The flags after any sequence of options: the XDP mode is the one
    the last mode option asked for (so never two modes at once), the
    program replaces a loaded one exactly when [--force] was among them,
    and each binding flag is set exactly when it was asked for or set
    before: asking for copy mode and for zero-copy mode, in either order,
    sets both. *)
Theorem options_flags ifx opts : forall cfg cfg',
  parse_opts ifx cfg opts = Ok (inl cfg') ->
  Z.land (xdp_flags cfg') XDP_FLAGS_MODES =
    mode_after opts.*1 (Z.land (xdp_flags cfg) XDP_FLAGS_MODES) /\
  Z.testbit (xdp_flags cfg') 0 =
    Z.testbit (xdp_flags cfg) 0 && negb (existsb (fun o => o =? chr "F") opts.*1) /\
  Z.testbit (xsk_bind_flags cfg') 1 =
    Z.testbit (xsk_bind_flags cfg) 1 || existsb asks_copy opts.*1 /\
  Z.testbit (xsk_bind_flags cfg') 2 =
    Z.testbit (xsk_bind_flags cfg) 2 || existsb asks_zerocopy opts.*1.
Proof.
  induction opts as [|[opt arg] opts IH]; intros cfg cfg' H; cbn [parse_opts] in H.
  { injection H as <-. cbn [mode_after foldl existsb fmap list_fmap negb].
    rewrite !orb_false_r, andb_true_r. auto. }
  apply bind_Ok_inv in H as ([c1|b] & H1 & H); [|discriminate].
  apply parse_opt_flags in H1 as [F1 F2 F3 F4]. apply IH in H as (G1 & G2 & G3 & G4).
  cbn [fmap list_fmap fst existsb mode_after foldl]. rewrite G1, G2, G3, G4, F1, F2, F3, F4.
  rewrite negb_orb, andb_assoc, !orb_assoc. auto.
Qed.

(** The settings [main] starts from: zero but for the interface and the
    section. *)
Definition initial_config : config :=
  mk_config 0 (-1) (replicate 16 NUL) 0 (replicate 16 NUL) false false
    (replicate 512 NUL) (replicate 512 NUL) (strncpy (bytes_of "xdp_sock") 32)
    (replicate 18 NUL) (replicate 18 NUL) 0 0 false true.

Lemma options_flags_witness :
  exists cfg', parse_opts (fun _ => 3) initial_config
      [(chr "N", None); (chr "z", None); (chr "c", None); (chr "S", None)] = Ok (inl cfg') /\
    Z.land (xdp_flags cfg') XDP_FLAGS_MODES = XDP_FLAGS_SKB_MODE /\
    Z.testbit (xsk_bind_flags cfg') 2 = true.
Proof.
  eexists. split; [reflexivity|].
  destruct (options_flags (fun _ => 3)
    [(chr "N", None); (chr "z", None); (chr "c", None); (chr "S", None)] initial_config _
    eq_refl) as (H1 & _ & _ & H2).
  split; [exact H1 | exact H2].
Defined.

(** Options with a text: a device name is only taken when it fits its
    buffer with its NUL and the system knows it; a file name is stored
    whole when it has fewer than [sizeof(cfg->filename)] characters, and
    otherwise leaves the buffer without a NUL, so that reading it as a
    string leaves it. *)
Theorem option_strings ifx cfg arg :
  nul_free arg ->
  (forall cfg', parse_opt ifx cfg (chr "d") (Some arg) = Ok (inl cfg') ->
     c_string (ifname_buf cfg') = Ok arg /\ ifindex cfg' = ifx arg /\ ifx arg <> 0) /\
  (parse_opt ifx cfg (chr "d") (Some arg) = Ok (inr false) <->
     IF_NAMESIZE <= zlen arg \/ ifx arg = 0) /\
  (exists cfg', parse_opt ifx cfg 1 (Some arg) = Ok (inl cfg') /\
     c_string (filename cfg') =
     if decide (length arg < length (filename cfg))%nat then Ok arg else Err OutOfBounds).
Proof.
  intros Hn. unfold parse_opt, dev_option, IF_NAMESIZE. cbn [or_fault].
  change (chr "d" =? chr "d") with true. rewrite bind_Ok.
  split; [|split].
  - intros cfg'. destruct (Z.leb_spec 16 (zlen arg)); [discriminate|].
    destruct (Z.eqb_spec (ifx arg) 0); [discriminate|]. intros [= <-].
    cbn [set_dev ifname_buf ifindex]. rewrite strncpy_c_string by exact Hn.
    rewrite decide_True by (unfold zlen in *; lia). auto.
  - destruct (Z.leb_spec 16 (zlen arg)); [split; [auto | reflexivity]|].
    destruct (Z.eqb_spec (ifx arg) 0); [split; [auto | reflexivity]|].
    split; [discriminate | lia].
  - eexists. split; [reflexivity|]. cbn [set_strings filename].
    apply strncpy_c_string, Hn.
Qed.

Lemma option_strings_witness :
  exists cfg', parse_opt (fun _ => 3) initial_config 1 (Some (bytes_of "prog.o")) = Ok (inl cfg') /\
    c_string (filename cfg') = Ok (bytes_of "prog.o").
Proof.
  destruct (option_strings (fun _ => 3) initial_config (bytes_of "prog.o"))
    as (_ & _ & cfg' & H1 & H2).
  - repeat constructor; discriminate.
  - exists cfg'. split; [exact H1|]. rewrite H2. vm_compute. reflexivity.
Defined.
