(* ===== verification/XdpLink.v ===== *)
(** Attaching and detaching the XDP program, and the small checks of
    [src/eBPF_app/common/common_user_bpf_xdp.c]. What libbpf and the kernel
    do with a device is the interface [XdpDevice]; its laws are what
    [dev_change_xdp_fd] of the kernel documents. *)
From S2P Require Import Prelude CLib BpfMap Params.
#[local] Open Scope Z_scope.

(** [K] is the state of the kernel. [bpf_set_link_xdp_fd] gives the error
    code, [bpf_get_link_xdp_id] the error code and the program's id. *)
Class XdpDevice (K : Type) := {
  bpf_set_link_xdp_fd : K -> Z -> Z -> Z -> res (Z * K);
  bpf_get_link_xdp_id : K -> Z -> Z -> res (Z * Z * K);
  (** The mode and the id of the program attached to a device. *)
  attached : K -> Z -> option (Z * Z);
  (** The id of the XDP program a descriptor stands for. *)
  prog_of : K -> Z -> option Z;
  (** The device exists, takes XDP programs, and can be asked for. *)
  link_ready : K -> Z -> Prop
}.

(** The mode bits of an explicit mode. *)
Definition explicit_mode (m : Z) : Prop :=
  m = XDP_FLAGS_SKB_MODE \/ m = XDP_FLAGS_DRV_MODE.
Definition mode_bits (flags : Z) : Z := Z.land flags XDP_FLAGS_MODES.
Definition noexist (flags : Z) : bool :=
  negb (Z.land flags XDP_FLAGS_UPDATE_IF_NOEXIST =? 0).
Definition XDP_FLAGS_MASK : Z := Z.lor XDP_FLAGS_UPDATE_IF_NOEXIST XDP_FLAGS_MODES.
(** An explicit mode and flags the kernel knows. *)
Definition plain_flags (flags : Z) : Prop :=
  explicit_mode (mode_bits flags) /\ Z.land flags XDP_FLAGS_MASK = flags.

(** From [k] to [k'] nothing changes but perhaps what is attached to [i]. *)
Definition keeps_links {K} `{XdpDevice K} (k k' : K) (i : Z) : Prop :=
  (forall j, j <> i -> attached k' j = attached k j) /\
  (forall fd, prog_of k' fd = prog_of k fd) /\
  (forall j, link_ready k j -> link_ready k' j).
Definition same_links {K} `{XdpDevice K} (k k' : K) (i : Z) : Prop :=
  keeps_links k k' i /\ attached k' i = attached k i.

Class XdpDeviceLaws (K : Type) `{XdpDevice K} := {
  (** ids are positive, descriptors are not negative *)
  attached_id k i m p : attached k i = Some (m, p) -> 0 < p;
  prog_of_range k fd p : prog_of k fd = Some p -> 0 <= fd /\ 0 < p;
  (** a program in the other mode is never replaced *)
  set_other_mode k i fd flags m p q :
    link_ready k i -> prog_of k fd = Some q -> plain_flags flags ->
    attached k i = Some (m, p) -> m <> mode_bits flags ->
    exists k', bpf_set_link_xdp_fd k i fd flags = Ok (- EEXIST, k') /\ same_links k k' i;
  (** nor, if asked not to, one in the same mode *)
  set_busy k i fd flags p q :
    link_ready k i -> prog_of k fd = Some q -> plain_flags flags -> noexist flags = true ->
    attached k i = Some (mode_bits flags, p) ->
    exists k', bpf_set_link_xdp_fd k i fd flags = Ok (- EBUSY, k') /\ same_links k k' i;
  (** otherwise it is attached *)
  set_attaches k i fd flags q :
    link_ready k i -> prog_of k fd = Some q -> plain_flags flags ->
    (attached k i = None \/
     noexist flags = false /\ exists p, attached k i = Some (mode_bits flags, p)) ->
    exists k', bpf_set_link_xdp_fd k i fd flags = Ok (0, k') /\
      attached k' i = Some (mode_bits flags, q) /\ keeps_links k k' i;
  (** removing removes the program of that mode, if there is one *)
  set_removes k i flags :
    link_ready k i -> plain_flags flags ->
    exists k', bpf_set_link_xdp_fd k i (-1) flags = Ok (0, k') /\
      attached k' i =
        (match attached k i with
         | Some (m, p) => if m =? mode_bits flags then None else Some (m, p)
         | None => None
         end) /\ keeps_links k k' i;
  (** asking gives the program, whatever its mode *)
  get_asks k i flags :
    link_ready k i -> plain_flags flags ->
    exists k', bpf_get_link_xdp_id k i flags =
      Ok (0, match attached k i with Some (m, p) => p | None => 0 end, k') /\
      same_links k k' i
}.

Section link.
Context {K : Type} `{XdpDevice K}.

Definition xdp_link_attach (k : K) (ifindex xdp_flags prog_fd : Z) : res (Z * K) :=
  '(err, k) ← bpf_set_link_xdp_fd k ifindex prog_fd xdp_flags;
  '(err, k) ←
    (if (err =? - EEXIST) && (Z.land xdp_flags XDP_FLAGS_UPDATE_IF_NOEXIST =? 0) then
      let old_flags := xdp_flags in
      let xdp_flags := clear xdp_flags XDP_FLAGS_MODES in
      let xdp_flags :=
        Z.lor xdp_flags (if negb (Z.land old_flags XDP_FLAGS_SKB_MODE =? 0)
                         then XDP_FLAGS_DRV_MODE else XDP_FLAGS_SKB_MODE) in
      '(err, k) ← bpf_set_link_xdp_fd k ifindex (-1) xdp_flags;
      if err =? 0 then bpf_set_link_xdp_fd k ifindex prog_fd old_flags else Ok (err, k)
    else Ok (err, k));
  if err <? 0 then Ok (EXIT_FAIL_XDP, k) else Ok (EXIT_OK, k).

Definition xdp_link_detach (k : K) (ifindex xdp_flags expected_prog_id : Z) : res (Z * K) :=
  '(err, curr_prog_id, k) ← bpf_get_link_xdp_id k ifindex xdp_flags;
  if negb (err =? 0) then Ok (EXIT_FAIL_XDP, k) else
  if curr_prog_id =? 0 then Ok (EXIT_OK, k) else
  if negb (expected_prog_id =? 0) && negb (curr_prog_id =? expected_prog_id)
  then Ok (EXIT_FAIL, k) else
  '(err, k) ← bpf_set_link_xdp_fd k ifindex (-1) xdp_flags;
  if err <? 0 then Ok (EXIT_FAIL_XDP, k) else Ok (EXIT_OK, k).
End link.

(** * Small functions of the file *)

Definition XDP_REDIRECT : Z := 4.
Definition XDP_UNKNOWN : Z := XDP_REDIRECT + 1.
Definition XDP_ACTION_MAX : Z := XDP_UNKNOWN + 1.

Definition xdp_action_names : list string :=
  ["XDP_ABORTED"; "XDP_DROP"; "XDP_PASS"; "XDP_TX"; "XDP_REDIRECT"; "XDP_UNKNOWN"]%string.

Definition action2str (action : Z) : res (option string) :=
  if action <? XDP_ACTION_MAX
  then s ← aget xdp_action_names action; Ok (Some s)
  else Ok None.

Record bpf_map_info := mk_map_info {
  mi_type : Z; mi_key_size : Z; mi_value_size : Z; mi_max_entries : Z
}.

Definition check_map_fd_info (info exp : bpf_map_info) : Z :=
  if negb (mi_key_size exp =? 0) && negb (mi_key_size exp =? mi_key_size info)
  then EXIT_FAIL else
  if negb (mi_value_size exp =? 0) && negb (mi_value_size exp =? mi_value_size info)
  then EXIT_FAIL else
  if negb (mi_max_entries exp =? 0) && negb (mi_max_entries exp =? mi_max_entries info)
  then EXIT_FAIL else
  if negb (mi_type exp =? 0) && negb (mi_type exp =? mi_type info)
  then EXIT_FAIL else 0.

(** * [xdp_stats_record_action] ([xdp_stats_kern.h]) *)

Definition XDP_ABORTED : Z := 0.
Record datarec := mk_datarec { rx_packets : Z; rx_bytes : Z }.

(** The map is the per-CPU array of this CPU, with [XDP_REDIRECT + 1]
    entries; the header's own [XDP_ACTION_MAX] is the number of actions. *)
Definition STATS_ACTION_MAX : Z := XDP_REDIRECT + 1.

(** The action to return and the map. *)
Definition xdp_stats_record_action {S} `{ArrayMap S datarec} (data_len action : Z)
    (xdp_stats_map : S) : Z * S :=
  if STATS_ACTION_MAX <=? action then (XDP_ABORTED, xdp_stats_map) else
  match am_lookup xdp_stats_map action with
  | None => (XDP_ABORTED, xdp_stats_map)
  | Some rec =>
      (action, am_store xdp_stats_map action
                 (mk_datarec (u64 (rx_packets rec + 1)) (u64 (rx_bytes rec + data_len))))
  end.

(** * Lemmas *)

Lemma plain_cases flags :
  plain_flags flags -> flags = 2 \/ flags = 3 \/ flags = 4 \/ flags = 5.
Proof.
  intros [He Hm]. assert (0 <= flags < 16) as Hr.
  { rewrite <- Hm. change XDP_FLAGS_MASK with (Z.ones 4). rewrite Z.land_ones by lia. lia. }
  assert (forallb (fun f => implb ((mode_bits f =? 2) || (mode_bits f =? 4))
    ((f =? 2) || (f =? 3) || (f =? 4) || (f =? 5))) (seqZ 0 16) = true) as Hall by reflexivity.
  rewrite forallb_forall in Hall.
  specialize (Hall flags (proj1 (list_elem_of_In _ _) (proj2 (elem_of_seqZ _ _ _) Hr))).
  destruct He as [He|He]; rewrite He in Hall; cbn in Hall; lia.
Qed.

Lemma same_links_refl {K} `{XdpDevice K} (k : K) i : same_links k k i.
Proof. unfold same_links, keeps_links. auto 10. Qed.

Lemma keeps_links_trans {K} `{XdpDevice K} (k k1 k2 : K) i :
  keeps_links k k1 i -> keeps_links k1 k2 i -> keeps_links k k2 i.
Proof.
  intros (H1 & H2 & H3) (H4 & H5 & H6). split; [|split].
  - intros j Hj. rewrite H4, H1 by exact Hj. reflexivity.
  - intros fd. rewrite H5, H2. reflexivity.
  - auto.
Qed.

(** What attaching comes to, from any state of the device. *)
Lemma attach_spec {K} `{XdpDeviceLaws K} k i flags fd q :
  link_ready k i -> prog_of k fd = Some q -> plain_flags flags ->
  (forall m p, attached k i = Some (m, p) -> explicit_mode m) ->
  if noexist flags && bool_decide (is_Some (attached k i))
  then exists k', xdp_link_attach k i flags fd = Ok (EXIT_FAIL_XDP, k') /\ same_links k k' i
  else exists k', xdp_link_attach k i flags fd = Ok (EXIT_OK, k') /\
    attached k' i = Some (mode_bits flags, q) /\ keeps_links k k' i.
Proof.
  intros Hr Hq Hf Hm. unfold xdp_link_attach.
  destruct (attached k i) as [[m p]|] eqn:Ha.
  2:{ rewrite bool_decide_eq_false_2 by (intros [? [=]]). rewrite andb_false_r.
      destruct (set_attaches k i fd flags q Hr Hq Hf (or_introl Ha)) as (k' & -> & Hk').
      exists k'. split; [reflexivity | exact Hk']. }
  rewrite bool_decide_eq_true_2 by eauto. rewrite andb_true_r.
  specialize (Hm m p eq_refl).
  destruct (Z.eqb_spec m (mode_bits flags)) as [->|Hne].
  { destruct (noexist flags) eqn:Hn.
    - destruct (set_busy k i fd flags p q Hr Hq Hf Hn Ha) as (k' & -> & Hk').
      exists k'. split; [reflexivity | exact Hk'].
    - destruct (set_attaches k i fd flags q Hr Hq Hf) as (k' & -> & Hk'); [right; eauto|].
      exists k'. split; [reflexivity | exact Hk']. }
  destruct (set_other_mode k i fd flags m p q Hr Hq Hf Ha Hne) as (k1 & -> & Hk1 & Ha1).
  rewrite bind_Ok. change (- EEXIST =? - EEXIST) with true. cbn [andb].
  replace (Z.land flags XDP_FLAGS_UPDATE_IF_NOEXIST =? 0) with (negb (noexist flags))
    by (unfold noexist; apply negb_involutive).
  destruct (noexist flags) eqn:Hn; cbn [negb]; [exists k1; split; [reflexivity | split; assumption]|].
  set (flags' := Z.lor _ _).
  assert (plain_flags flags' /\ mode_bits flags' = m) as [Hf' Hm'].
  { destruct (plain_cases flags Hf) as [E|[E|[E|E]]]; subst flags; destruct Hm as [Hm|Hm]; subst m;
      try (destruct (Hne eq_refl)); try discriminate Hn;
      (split; [split; [|reflexivity]|reflexivity]); (left; reflexivity) || (right; reflexivity). }
  destruct (set_removes k1 i flags' (proj2 (proj2 Hk1) _ Hr) Hf') as (k2 & -> & Ha2 & Hk2).
  rewrite Ha1, Ha, Hm', Z.eqb_refl in Ha2. rewrite bind_Ok. cbn [Z.eqb].
  pose proof (keeps_links_trans _ _ _ _ Hk1 Hk2) as Hk. pose proof Hk as (_ & Hp2 & Hr2).
  destruct (set_attaches k2 i fd flags q (Hr2 _ Hr)) as (k' & -> & Ha3 & Hk3);
    [rewrite Hp2; exact Hq | exact Hf | left; exact Ha2|].
  exists k'. split; [reflexivity|]. split; [exact Ha3 | exact (keeps_links_trans _ _ _ _ Hk Hk3)].
Qed.

(** What detaching comes to. *)
Lemma detach_spec {K} `{XdpDeviceLaws K} k i flags expected :
  link_ready k i -> plain_flags flags ->
  match attached k i with
  | None => exists k', xdp_link_detach k i flags expected = Ok (EXIT_OK, k') /\ same_links k k' i
  | Some (m, p) =>
      if negb (expected =? 0) && negb (p =? expected)
      then exists k', xdp_link_detach k i flags expected = Ok (EXIT_FAIL, k') /\ same_links k k' i
      else exists k', xdp_link_detach k i flags expected = Ok (EXIT_OK, k') /\ keeps_links k k' i /\
        attached k' i = (if m =? mode_bits flags then None else Some (m, p))
  end.
Proof.
  intros Hr Hf. unfold xdp_link_detach.
  destruct (get_asks k i flags Hr Hf) as (k1 & -> & Hk1 & Ha1). rewrite bind_Ok. cbn [Z.eqb negb].
  destruct (attached k i) as [[m p]|] eqn:Ha.
  2:{ cbn [Z.eqb]. exists k1. split; [reflexivity|]. split; [exact Hk1 | rewrite Ha; exact Ha1]. }
  pose proof (attached_id k i m p Ha). replace (p =? 0) with false by lia.
  destruct (negb (expected =? 0) && negb (p =? expected)).
  { exists k1. split; [reflexivity|]. split; [exact Hk1 | rewrite Ha; exact Ha1]. }
  destruct (set_removes k1 i flags (proj2 (proj2 Hk1) _ Hr) Hf) as (k' & -> & Ha2 & Hk2).
  exists k'. split; [reflexivity|]. split; [exact (keeps_links_trans _ _ _ _ Hk1 Hk2)|].
  rewrite Ha2, Ha1. reflexivity.
Qed.

(** What attaching and detaching guarantee, over any kernel that keeps to
    the laws of [XdpDevice], and the checks of the same file. *)

(** * A device table that keeps to the laws *)

Abbreviation devices := (gmap Z (Z * Z)).

(** Every descriptor stands for the program with the next number. *)
Definition demo_prog_of (fd : Z) : option Z := if 0 <=? fd then Some (fd + 1) else None.
Definition demo_attached (k : devices) (i : Z) : option (Z * Z) :=
  match k !! i with
  | Some (m, p) => if 0 <? p then Some (m, p) else None
  | None => None
  end.

Definition demo_set (k : devices) (i fd flags : Z) : Z * devices :=
  let m := mode_bits flags in
  match demo_attached k i with
  | Some (m', p) =>
      if 0 <=? fd then
        if negb (m' =? m) then (- EEXIST, k)
        else if noexist flags then (- EBUSY, k) else (0, <[i := (m, fd + 1)]> k)
      else if m' =? m then (0, delete i k) else (0, k)
  | None => if 0 <=? fd then (0, <[i := (m, fd + 1)]> k) else (0, k)
  end.

#[export] Instance demo_device : XdpDevice devices := {|
  bpf_set_link_xdp_fd k i fd flags := Ok (demo_set k i fd flags);
  bpf_get_link_xdp_id k i flags :=
    Ok (0, match demo_attached k i with Some (m, p) => p | None => 0 end, k);
  attached := demo_attached;
  prog_of _ := demo_prog_of;
  link_ready _ _ := True
|}.

Lemma demo_attached_insert k i m p : 0 < p -> demo_attached (<[i := (m, p)]> k) i = Some (m, p).
Proof. intros Hp. unfold demo_attached. rewrite lookup_insert_eq. replace (0 <? p) with true by lia. reflexivity. Qed.

Lemma demo_keeps_insert k i x : keeps_links k (<[i := x]> k) i.
Proof.
  split; [|split; [reflexivity | auto]]. intros j Hj. cbn. unfold demo_attached.
  rewrite lookup_insert_ne by congruence. reflexivity.
Qed.

#[export] Instance demo_device_laws : XdpDeviceLaws devices.
Proof.
  split.
  - intros k i m p. cbn. unfold demo_attached. destruct (k !! i) as [[m' p']|]; [|discriminate].
    destruct (Z.ltb_spec 0 p'); [|discriminate]. intros [= <- <-]. lia.
  - intros k fd p. cbn. unfold demo_prog_of. destruct (Z.leb_spec 0 fd); [|discriminate]. intros [= <-]. lia.
  - intros k i fd flags m p q _ Hq _ Ha Hne. exists k. split; [|apply same_links_refl].
    cbn in *. unfold demo_set, demo_prog_of in *. rewrite Ha. destruct (0 <=? fd); [|discriminate].
    apply Z.eqb_neq in Hne. rewrite Hne. reflexivity.
  - intros k i fd flags p q _ Hq _ Hn Ha. exists k. split; [|apply same_links_refl].
    cbn in *. unfold demo_set, demo_prog_of in *. rewrite Ha, Z.eqb_refl, Hn.
    destruct (0 <=? fd); [reflexivity | discriminate].
  - intros k i fd flags q _ Hq _ Hc. exists (<[i := (mode_bits flags, q)]> k).
    cbn in Hq. unfold demo_prog_of in Hq. destruct (Z.leb_spec 0 fd); [|discriminate].
    injection Hq as <-. split; [|split; [apply demo_attached_insert; lia | apply demo_keeps_insert]].
    cbn in *. unfold demo_set. replace (0 <=? fd) with true by lia.
    destruct Hc as [-> | (Hn & p & ->)]; [reflexivity|]. rewrite Z.eqb_refl, Hn. reflexivity.
  - intros k i flags _ _. cbn. unfold demo_set. cbn.
    destruct (demo_attached k i) as [[m p]|] eqn:Ha; [destruct (Z.eqb_spec m (mode_bits flags))|].
    + exists (delete i k). split; [reflexivity|]. split.
      * unfold demo_attached. rewrite lookup_delete_eq. reflexivity.
      * split; [|split; [reflexivity | auto]]. intros j Hj. cbn. unfold demo_attached.
        rewrite lookup_delete_ne by congruence. reflexivity.
    + exists k. split; [reflexivity|]. split; [exact Ha | apply same_links_refl].
    + exists k. split; [reflexivity|]. split; [exact Ha | apply same_links_refl].
  - intros k i flags _ _. exists k. split; [reflexivity | apply same_links_refl].
Qed.

(** * Attaching *)

(** attaching a program in an explicit mode, from whatever is attached: without
    [--force] a device that already has a program is left alone and the
    program exits with [EXIT_FAIL_XDP]; otherwise the program is attached
    in the mode asked for, in place of one in the same or in the opposite
    mode. No other device changes. *)
Theorem attach_correct {K} `{XdpDeviceLaws K} k i flags fd q :
  link_ready k i -> prog_of k fd = Some q -> plain_flags flags ->
  (forall m p, attached k i = Some (m, p) -> explicit_mode m) ->
  if noexist flags && bool_decide (is_Some (attached k i))
  then exists k', xdp_link_attach k i flags fd = Ok (EXIT_FAIL_XDP, k') /\ same_links k k' i
  else exists k', xdp_link_attach k i flags fd = Ok (EXIT_OK, k') /\
    attached k' i = Some (mode_bits flags, q) /\ keeps_links k k' i.
Proof. apply attach_spec. Qed.

Definition skb_device : devices := {[ 3 := (XDP_FLAGS_SKB_MODE, 7) ]}.

Lemma attach_correct_witness :
  exists k', xdp_link_attach skb_device 3 XDP_FLAGS_DRV_MODE 9 = Ok (EXIT_OK, k') /\
    attached k' 3 = Some (XDP_FLAGS_DRV_MODE, 10).
Proof.
  destruct (attach_correct skb_device 3 XDP_FLAGS_DRV_MODE 9 10) as (k' & H1 & H2 & _).
  - exact I.
  - reflexivity.
  - split; [right; reflexivity | reflexivity].
  - intros m p Hm. unfold attached in Hm. cbn in Hm. injection Hm as <- _. left. reflexivity.
  - exists k'. split; [exact H1 | exact H2].
Defined.

(** Detaching removes the program, unless the caller expected another
    one, which is then left attached; no other device changes. But a
    program attached in another mode than the one given stays attached,
    and detaching reports success all the same. *)
Theorem detach_correct {K} `{XdpDeviceLaws K} k i flags expected :
  link_ready k i -> plain_flags flags ->
  match attached k i with
  | None => exists k', xdp_link_detach k i flags expected = Ok (EXIT_OK, k') /\ same_links k k' i
  | Some (m, p) =>
      if negb (expected =? 0) && negb (p =? expected)
      then exists k', xdp_link_detach k i flags expected = Ok (EXIT_FAIL, k') /\ same_links k k' i
      else exists k', xdp_link_detach k i flags expected = Ok (EXIT_OK, k') /\ keeps_links k k' i /\
        attached k' i = (if m =? mode_bits flags then None else Some (m, p))
  end.
Proof. apply detach_spec. Qed.

Lemma detach_correct_witness :
  exists k', xdp_link_detach skb_device 3 XDP_FLAGS_SKB_MODE 0 = Ok (EXIT_OK, k') /\
    attached k' 3 = None.
Proof.
  assert (plain_flags XDP_FLAGS_SKB_MODE) as Hf by (split; [left; reflexivity | reflexivity]).
  assert (link_ready skb_device 3) as Hr by exact I.
  destruct (detach_correct skb_device 3 XDP_FLAGS_SKB_MODE 0 Hr Hf) as (k' & H1 & _ & H2).
  exists k'. split; [exact H1 | exact H2].
Defined.

(** * Checks and statistics *)

(** A map matches what is expected of it: every attribute that is given
    (not 0) is the same. *)
Definition attr_matches (info exp : Z) : Prop := exp = 0 \/ exp = info.

(** The check of a map's attributes succeeds exactly when all the given
    ones match; the statistics helper counts a packet under its action, and
    aborts without counting for a number that is no action; every action
    has a name. *)
Theorem checks_correct {S} `{ArrayMapLaws S datarec} info exp (m : S) len action :
  0 <= action -> am_max m = STATS_ACTION_MAX ->
  (check_map_fd_info info exp = 0 <->
   attr_matches (mi_key_size info) (mi_key_size exp) /\
   attr_matches (mi_value_size info) (mi_value_size exp) /\
   attr_matches (mi_max_entries info) (mi_max_entries exp) /\
   attr_matches (mi_type info) (mi_type exp)) /\
  (if action <? STATS_ACTION_MAX
   then exists rec m', am_lookup m action = Some rec /\
     xdp_stats_record_action len action m = (action, m') /\
     forall j, 0 <= j -> am_lookup m' j =
       if decide (action = j)
       then Some (mk_datarec (u64 (rx_packets rec + 1)) (u64 (rx_bytes rec + len)))
       else am_lookup m j
   else xdp_stats_record_action len action m = (XDP_ABORTED, m)) /\
  (exists o, action2str action = Ok o /\ (is_Some o <-> action < XDP_ACTION_MAX)).
Proof.
  intros Ha Hm. split; [|split].
  - unfold check_map_fd_info, attr_matches, EXIT_FAIL.
    repeat match goal with
    | |- context [negb (?e =? 0) && negb (?e =? ?i)] =>
        destruct (Z.eqb_spec e 0), (Z.eqb_spec e i); cbn [negb andb]
    end; split; intros; try discriminate; tauto.
  - unfold xdp_stats_record_action. destruct (Z.ltb_spec action STATS_ACTION_MAX).
    + replace (STATS_ACTION_MAX <=? action) with false by lia.
      destruct (am_lookup_in m action) as [rec Hr]; [lia|]. rewrite Hr.
      exists rec. eexists. split; [reflexivity|]. split; [reflexivity|].
      intros j Hj. apply am_lookup_store; lia.
    + replace (STATS_ACTION_MAX <=? action) with true by lia. reflexivity.
  - unfold action2str. destruct (Z.ltb_spec action XDP_ACTION_MAX) as [Hlt|Hge].
    + destruct (aget_in xdp_action_names action) as [s Hs].
      { change (zlen xdp_action_names) with 6. change XDP_ACTION_MAX with 6 in Hlt. lia. }
      rewrite Hs, bind_Ok. exists (Some s). split; [reflexivity|]. split; eauto.
    + exists None. split; [reflexivity|]. split; [intros [? [=]] | lia].
Qed.

Lemma checks_correct_witness :
  check_map_fd_info (mk_map_info 2 4 1024 32769) (mk_map_info 0 4 0 0) = 0.
Proof.
  apply (checks_correct (mk_map_info 2 4 1024 32769) (mk_map_info 0 4 0 0)
    (mk_list_map (replicate 5 (mk_datarec 0 0))) 0 2).
  - lia.
  - reflexivity.
  - unfold attr_matches. cbn. auto.
Defined.
