(* ===== verification/KmConc.v ===== *)
(** The module's [read] interrupted: the receive handler runs in soft-irq
    context and may run between any two steps of the process that reads.
    [read] is cut into its steps (one slot per step); the handler is one
    step, as on the single receiving CPU of the experiment. *)
From S2P Require Import Prelude CommonH KernelModule KmRing KmFifo KmProps.
#[local] Open Scope Z_scope.

(** * The reader as a step function *)

(** Where the process is inside [read]: before it, in the scan loop with
    its local variables, or in the clean-up loop with the indices left. *)
Inductive reader :=
| RIdle
| RScan (temp : list byte) (copied_index : list Z) (copied_pkts ci try : Z)
| RClean (copied_index : list Z).

(** One step: what is handed to user space, if anything, is the step's
    output. *)
Definition rd_step (copy_to_user : list byte -> Z) (st : km) (r : reader)
    : res (km * reader * option (list byte)) :=
  match r with
  | RIdle =>
      temp ← mwrite (buff_temp st) 0
               (replicate (Z.to_nat BUFFER_SIZE) Byte.x00);
      Ok (st, RScan temp (replicate (Z.to_nat PKTS_PER_BUFFER) (-1)) 0
                (current_index st) 0, None)
  | RScan temp copied_index copied_pkts ci try =>
      if (copied_pkts <? PKTS_PER_BUFFER) && (try <? MAX_PKT) then
        s ← aget (status st) ci;
        let next := u32 (ci + 1) mod MAX_PKT in
        if negb (s =? 0) then
          src ← mread (buff_from_here st) (ci * PKT_BUFFER_SIZE) PKT_BUFFER_SIZE;
          temp ← mwrite temp (copied_pkts * PKT_BUFFER_SIZE) src;
          copied_index ← aset copied_index copied_pkts (s32 ci);
          Ok (st, RScan temp copied_index (copied_pkts + 1) next (try + 1), None)
        else Ok (st, RScan temp copied_index copied_pkts next (try + 1), None)
      else
        let st := set_temp st temp in
        if negb (copy_to_user temp =? 0) then Ok (st, RIdle, None)
        else Ok (st, RClean copied_index, Some temp)
  | RClean [] => Ok (st, RIdle, None)
  | RClean (ix :: rest) =>
      if negb (ix =? -1) then
        buff ← mwrite (buff_from_here st) (ix * PKT_BUFFER_SIZE)
                 (replicate (Z.to_nat PKT_BUFFER_SIZE) Byte.x00);
        stat ← aset (status st) ix 0;
        Ok (set_cache st buff (current_index st) stat, RClean rest, None)
      else Ok (st, RClean rest, None)
  end.

(** The reader running alone until it is back. *)
Fixpoint rd_run (fuel : nat) (ctu : list byte -> Z) (st : km) (r : reader)
    (out : option (list byte)) : res (option (list byte) * km) :=
  match fuel with
  | O => Err OutOfFuel
  | S fuel =>
      '(st, r, o) ← rd_step ctu st r;
      let out := match o with Some b => Some b | None => out end in
      match r with
      | RIdle => Ok (out, st)
      | _ => rd_run fuel ctu st r out
      end
  end.

(** * Slots in use *)

Definition used (st : km) : list Z :=
  filter (fun i => busy (status st) i = true) (seqZ 0 MAX_PKT).

Definition cells_at (st : km) (ixs : list Z) : list (list byte) :=
  slot (buff_from_here st) <$> ixs.

Lemma elem_of_used st i :
  i ∈ used st <-> 0 <= i < MAX_PKT /\ busy (status st) i = true.
Proof. unfold used. rewrite list_elem_of_filter, elem_of_seqZ. tauto. Qed.

Lemma used_NoDup st : NoDup (used st).
Proof. apply NoDup_filter, NoDup_seqZ. Qed.

(** Slots in use that changed by one. *)
Lemma used_add st st' i :
  0 <= i < MAX_PKT -> busy (status st) i = false ->
  (forall j, 0 <= j < MAX_PKT ->
     busy (status st') j = if decide (i = j) then true else busy (status st) j) ->
  used st' ≡ₚ i :: used st.
Proof.
  intros Hi Hf Hb. apply NoDup_Permutation; [apply used_NoDup| |].
  - constructor; [|apply used_NoDup]. rewrite elem_of_used. intros [_ ?]. congruence.
  - intros j. rewrite elem_of_cons, !elem_of_used. split.
    + intros [Hj Hbj]. rewrite Hb in Hbj by exact Hj. case_decide; auto.
    + intros [->|[Hj Hbj]].
      * split; [exact Hi|]. rewrite Hb by exact Hi. rewrite decide_True; auto.
      * split; [exact Hj|]. rewrite Hb by exact Hj. case_decide; auto.
Qed.

#[export] Instance cells_at_Permutation st :
  Proper (Permutation ==> Permutation) (cells_at st).
Proof. intros l k Hp. unfold cells_at. rewrite Hp. reflexivity. Qed.

Lemma cells_at_ext st st' ixs :
  (forall i, i ∈ ixs -> slot (buff_from_here st') i = slot (buff_from_here st) i) ->
  cells_at st' ixs = cells_at st ixs.
Proof.
  intros H. unfold cells_at. apply list_fmap_ext. intros n i Hi. apply H.
  apply list_elem_of_lookup. eauto.
Qed.

(** * The handler, whatever the order of the slots *)

(** The packet [p] has been put into a free slot. *)
Definition rx_stored (p : list byte) (st st' : km) : Prop :=
  exists i, 0 <= i < MAX_PKT /\ busy (status st) i = false /\
    (forall j, 0 <= j < MAX_PKT ->
       busy (status st') j = if decide (i = j) then true else busy (status st) j) /\
    (forall j, 0 <= j < MAX_PKT -> j <> i ->
       slot (buff_from_here st') j = slot (buff_from_here st) j) /\
    Fifo.cell_of (slot (buff_from_here st') i) p.

(** The cache is as it was. *)
Definition same_cache (st st' : km) : Prop :=
  status st' = status st /\ buff_from_here st' = buff_from_here st.

(** There is a free slot. *)
Definition has_room (st : km) : bool :=
  match free_slots st (current_index st) (Z.to_nat MAX_PKT) with
  | [] => false
  | _ => true
  end.

Lemma slot_mwrite_small buff buff' i p :
  zlen buff = MAX_PKT * PKT_BUFFER_SIZE -> 0 <= i < MAX_PKT ->
  zlen p <= PKT_BUFFER_SIZE -> mwrite buff (i * PKT_BUFFER_SIZE) p = Ok buff' ->
  Fifo.cell_of (slot buff' i) p /\
  forall j, 0 <= j < MAX_PKT -> j <> i -> slot buff' j = slot buff j.
Proof.
  intros Hb Hi Hp Hw. split.
  - unfold Fifo.cell_of, slot. rewrite (window_mwrite_at _ _ _ _ _ Hw) by (km_consts; lia).
    apply prefix_app_r. reflexivity.
  - intros j Hj Hne. apply (window_mwrite_disjoint _ _ _ _ _ _ Hw); km_consts; lia.
Qed.

Lemma rx_effect_any st pkt p now :
  km_ok st -> skb_kind pkt (Some p) -> zlen p <= PKT_BUFFER_SIZE ->
  exists st', rxhPacketIn pkt now st = Ok (RX_HANDLER_PASS, st') /\ km_ok st' /\
    if has_room st then rx_stored p st st' else same_cache st st'.
Proof.
  intros Hok Hk Hp. unfold has_room.
  destruct (rx_measure_spec pkt p now st Hok Hk) as (st1 & Hok1 & Hb & Hs & Hc
    & _ & _ & _ & ->).
  destruct (free_slots st (current_index st) (Z.to_nat MAX_PKT)) as [|i rest] eqn:Hf.
  { eexists. split; [reflexivity|]. split; [destruct Hok1; split; auto | split; auto]. }
  assert (i ∈ free_slots st (current_index st) (Z.to_nat MAX_PKT)) as Hin
    by (rewrite Hf; left).
  unfold free_slots in Hin. apply list_elem_of_filter in Hin as [Hfree Hi].
  apply ring_range in Hi; [|apply (ok_cur _ Hok)].
  rewrite (rx_write_slot_Ok _ _ _ _ Hok1 Hk Hi), Hb.
  destruct (mwrite (buff_from_here st) (i * PKT_BUFFER_SIZE) p) as [buff|] eqn:Hw.
  2:{ rewrite mwrite_Ok in Hw; [discriminate|]. pose proof (ok_buff _ Hok).
      pose proof (zlen_nonneg p). unfold in_block. km_consts. lia. }
  rewrite !bind_Ok. eexists. split; [reflexivity|].
  destruct (slot_mwrite_small _ _ _ _ (ok_buff _ Hok) Hi Hp Hw) as [Hcell Hother].
  split.
  - pose proof (ok_buff _ Hok). destruct Hok1. split; cbn; auto with cmem.
    + rewrite (zlen_mwrite _ _ _ _ Hw). assumption.
    + unfold zlen in *. rewrite length_insert. auto.
  - exists i. cbn. split; [exact Hi|]. split; [exact Hfree|].
    split; [|split; [exact Hother | exact Hcell]].
    intros j Hj. rewrite busy_insert by (rewrite ?(ok_stat _ Hok1); lia).
    rewrite Hs. reflexivity.
Qed.

(** * The invariant of an interrupted read *)

(** The slots whose packet has been handed out but which are still marked. *)
Definition held (r : reader) : list Z :=
  match r with RClean todo => filter (fun ix => ix <> -1) todo | _ => [] end.

(** The slots whose packet is still to be handed out. *)
Definition kept (st : km) (r : reader) : list Z :=
  filter (fun i => i ∉ held r) (used st).

Definition slot_busy (st : km) (i : Z) : Prop :=
  0 <= i < MAX_PKT /\ busy (status st) i = true.

Inductive reader_ok (st : km) : reader -> Prop :=
| rok_idle : reader_ok st RIdle
| rok_scan c0 ixs try :
    0 <= c0 < MAX_PKT -> 0 <= try <= MAX_PKT -> zlen ixs <= PKTS_PER_BUFFER ->
    NoDup ixs -> Forall (fun i => i ∈ ring_from c0 (Z.to_nat try)) ixs ->
    Forall (slot_busy st) ixs ->
    reader_ok st
      (RScan (pad BUFFER_SIZE (slots_bytes (buff_from_here st) ixs))
         (ixs ++ replicate (Z.to_nat PKTS_PER_BUFFER - length ixs) (-1))
         (zlen ixs) ((c0 + try) mod MAX_PKT) try)
| rok_clean ixs m :
    NoDup ixs -> Forall (slot_busy st) ixs ->
    reader_ok st (RClean (ixs ++ replicate m (-1))).

Lemma held_clean st ixs m :
  Forall (slot_busy st) ixs -> held (RClean (ixs ++ replicate m (-1))) = ixs.
Proof.
  intros Hf. cbn [held]. rewrite filter_app.
  rewrite (filter_suffix _ ixs O).
  - rewrite filter_none, app_nil_r; [reflexivity|].
    intros x Hx. apply elem_of_replicate in Hx as [-> _]. auto.
  - intros k x Hk. split; [lia|]. intros _.
    apply Forall_lookup_1 with (1 := Hf) in Hk as [? _]. lia.
Qed.

Lemma elem_of_kept st r i : i ∈ kept st r <-> slot_busy st i /\ i ∉ held r.
Proof. unfold kept. rewrite list_elem_of_filter, elem_of_used. unfold slot_busy. tauto. Qed.

Lemma kept_NoDup st r : NoDup (kept st r).
Proof. apply NoDup_filter, used_NoDup. Qed.

Lemma kept_nothing_held st r : held r = [] -> kept st r = used st.
Proof.
  intros Hh. unfold kept. rewrite Hh. apply (filter_suffix _ _ O).
  intros k x _. split; [lia|]. intros _. apply not_elem_of_nil.
Qed.

(** The interrupted reader's state stays meaningful as long as its slots do. *)
Lemma reader_ok_ext st st' r :
  (forall j, slot_busy st j -> slot_busy st' j /\
     slot (buff_from_here st') j = slot (buff_from_here st) j) ->
  reader_ok st r -> reader_ok st' r.
Proof.
  intros Hkeep Hr.
  assert (forall ixs, Forall (slot_busy st) ixs -> Forall (slot_busy st') ixs) as Hall.
  { intros ixs Hf. eapply Forall_impl; [exact Hf|]. intros j Hj. apply Hkeep, Hj. }
  destruct Hr as [|c0 ixs try H1 H2 H3 H4 H5 H6|ixs m H1 H2]; [constructor| |].
  - replace (slots_bytes (buff_from_here st) ixs) with (slots_bytes (buff_from_here st') ixs);
      [constructor; auto|].
    unfold slots_bytes. f_equal. apply (cells_at_ext st st'). intros j Hj.
    apply Hkeep. eapply Forall_forall; eassumption.
  - constructor; auto.
Qed.

Lemma held_busy st r i : reader_ok st r -> i ∈ held r -> slot_busy st i.
Proof.
  intros Hr Hi. destruct Hr as [| |ixs m _ Hf]; [inversion Hi|inversion Hi|].
  rewrite (held_clean st) in Hi by exact Hf. eapply Forall_forall; eassumption.
Qed.

(** The packet the handler stores is added to those still to be handed out. *)
Lemma rx_keeps_reader p st st' r :
  rx_stored p st st' -> reader_ok st r ->
  reader_ok st' r /\
  exists c, Fifo.cell_of c p /\
    cells_at st' (kept st' r) ≡ₚ c :: cells_at st (kept st r).
Proof.
  intros (i & Hi & Hfree & Hbusy & Hslot & Hcell) Hr.
  assert (forall j, slot_busy st j -> slot_busy st' j /\
    slot (buff_from_here st') j = slot (buff_from_here st) j) as Hkeep.
  { intros j [Hj Hbj]. assert (j <> i) as Hne by congruence.
    split; [|apply Hslot; assumption].
    split; [exact Hj|]. rewrite Hbusy, decide_False by congruence. exact Hbj. }
  split; [apply (reader_ok_ext st); assumption|].
  exists (slot (buff_from_here st') i). split; [exact Hcell|].
  assert (kept st' r ≡ₚ i :: kept st r) as Hk.
  { apply NoDup_Permutation; [apply kept_NoDup| |].
    - constructor; [|apply kept_NoDup]. rewrite elem_of_kept. intros [[_ ?] _]. congruence.
    - intros j. rewrite elem_of_cons, !elem_of_kept. split.
      + intros [[Hj Hbj] Hh]. rewrite Hbusy in Hbj by exact Hj.
        case_decide as Hij; [left; congruence|]. right. split; [split; assumption | exact Hh].
      + intros [->|[Hj Hh]].
        * split; [split; [exact Hi|]; rewrite Hbusy, decide_True by auto; reflexivity|].
          intros Hin. apply (held_busy st) in Hin as [_ ?]; [congruence | exact Hr].
        * split; [apply Hkeep, Hj | exact Hh]. }
  rewrite Hk. unfold cells_at at 1. rewrite fmap_cons. constructor.
  fold (cells_at st' (kept st r)). rewrite (cells_at_ext st); [reflexivity|].
  intros j Hj. apply elem_of_kept in Hj as [Hj _]. apply Hkeep, Hj.
Qed.

Lemma same_cache_reader st st' r :
  same_cache st st' -> reader_ok st r ->
  reader_ok st' r /\ cells_at st' (kept st' r) = cells_at st (kept st r).
Proof.
  intros [Hs Hb] Hr. split.
  - apply (reader_ok_ext st); [|exact Hr]. intros j. unfold slot_busy. rewrite Hs, Hb. auto.
  - unfold kept, used, cells_at. rewrite Hs, Hb. reflexivity.
Qed.

(** * The reader's steps *)

Lemma mwrite_pad n l bs :
  zlen l + zlen bs <= n -> mwrite (pad n l) (zlen l) bs = Ok (pad n (l ++ bs)).
Proof.
  intros Hn. pose proof (zlen_nonneg l). pose proof (zlen_nonneg bs). unfold pad.
  rewrite mwrite_Ok by (unfold in_block; rewrite zlen_app, zlen_replicate;
                        unfold zlen in *; lia).
  unfold zlen in *. rewrite Nat2Z.id, take_app_length, drop_app_add, drop_replicate.
  rewrite length_app, <- app_assoc. do 4 f_equal. lia.
Qed.

Lemma aset_fill (l : list Z) n x :
  (length l < n)%nat ->
  aset (l ++ replicate (n - length l) (-1)) (zlen l) x =
  Ok ((l ++ [x]) ++ replicate (n - length (l ++ [x])) (-1)).
Proof.
  intros Hn. rewrite aset_Ok by (rewrite zlen_app, zlen_replicate; unfold zlen; lia).
  f_equal. unfold zlen. rewrite Nat2Z.id, length_app. cbn [length].
  replace (n - length l)%nat with (S (n - (length l + 1))) by lia.
  rewrite insert_app_r_alt by lia. rewrite Nat.sub_diag. cbn. rewrite <- app_assoc. reflexivity.
Qed.

Lemma slots_bytes_snoc buff ixs i :
  slots_bytes buff (ixs ++ [i]) = slots_bytes buff ixs ++ slot buff i.
Proof.
  unfold slots_bytes. rewrite fmap_app, join_app. cbn. rewrite app_nil_r. reflexivity.
Qed.

Lemma slot_busy_range st ixs :
  Forall (slot_busy st) ixs -> Forall (fun i => 0 <= i < MAX_PKT) ixs.
Proof. intros Hf. eapply Forall_impl; [exact Hf|]. intros i [? _]. assumption. Qed.

(** One iteration of the scan. *)
Lemma scan_step st ctu c0 ixs try :
  km_ok st -> 0 <= c0 < MAX_PKT -> 0 <= try < MAX_PKT -> zlen ixs < PKTS_PER_BUFFER ->
  NoDup ixs -> Forall (fun i => i ∈ ring_from c0 (Z.to_nat try)) ixs ->
  Forall (slot_busy st) ixs ->
  exists r', rd_step ctu st
      (RScan (pad BUFFER_SIZE (slots_bytes (buff_from_here st) ixs))
         (ixs ++ replicate (Z.to_nat PKTS_PER_BUFFER - length ixs) (-1))
         (zlen ixs) ((c0 + try) mod MAX_PKT) try) = Ok (st, r', None) /\
    reader_ok st r' /\ held r' = [].
Proof.
  intros Hok Hc Ht Hl Hnd Hr Hb. cbn [rd_step].
  set (ci := (c0 + try) mod MAX_PKT).
  assert (0 <= ci < MAX_PKT) as Hci by (unfold ci; km_consts; lia).
  replace (zlen ixs <? PKTS_PER_BUFFER) with true by lia.
  replace (try <? MAX_PKT) with true by lia. cbn [andb].
  destruct (aget_status st ci Hok Hci) as (s & -> & Hbs). rewrite bind_Ok.
  rewrite next_slot by exact Hci.
  replace ((ci + 1) mod MAX_PKT) with ((c0 + (try + 1)) mod MAX_PKT)
    by (unfold ci; km_consts; lia).
  pose proof (ring_snoc c0 (Z.to_nat try) Hc) as Hsnoc.
  rewrite Z2Nat.id in Hsnoc by lia. fold ci in Hsnoc.
  replace (S (Z.to_nat try)) with (Z.to_nat (try + 1)) in Hsnoc by lia.
  assert (Forall (fun i => i ∈ ring_from c0 (Z.to_nat (try + 1))) ixs) as Hr'.
  { eapply Forall_impl; [exact Hr|]. intros i Hi. cbn in *. rewrite Hsnoc.
    apply elem_of_app. left. exact Hi. }
  destruct (negb (s =? 0)).
  2:{ eexists. split; [reflexivity|]. split; [|reflexivity].
      apply rok_scan; auto; lia. }
  rewrite slot_mread, bind_Ok by (auto using ok_buff).
  pose proof (zlen_slots_bytes _ _ (ok_buff _ Hok) (slot_busy_range _ _ Hb)) as Hz.
  pose proof (length_slot _ _ (ok_buff _ Hok) Hci) as Hs.
  replace (zlen ixs * PKT_BUFFER_SIZE) with (zlen (slots_bytes (buff_from_here st) ixs)) by lia.
  rewrite mwrite_pad, bind_Ok by (unfold zlen at 2; rewrite Hs, Hz; km_consts; lia).
  rewrite s32_small by (km_consts; lia).
  rewrite aset_fill, bind_Ok by (unfold zlen in Hl; km_consts; lia).
  rewrite <- slots_bytes_snoc.
  replace (zlen ixs + 1) with (zlen (ixs ++ [ci])) by (rewrite zlen_app; reflexivity).
  eexists. split; [reflexivity|]. split; [|reflexivity].
  apply rok_scan; [exact Hc | lia | rewrite zlen_app; change (zlen [ci]) with 1; lia | | |].
  - apply NoDup_app. split; [exact Hnd|]. split; [|apply NoDup_singleton].
    intros i Hi Hin. apply list_elem_of_singleton in Hin as ->.
    pose proof (ring_NoDup c0 (Z.to_nat (try + 1)) Hc ltac:(lia)) as Hrd.
    rewrite Hsnoc in Hrd. apply NoDup_app in Hrd as (_ & Hd & _).
    apply (Hd ci); [|left]. exact (proj1 (Forall_forall _ _) Hr _ Hi).
  - apply Forall_app. split; [exact Hr'|]. apply Forall_singleton. rewrite Hsnoc.
    apply elem_of_app. right. left.
  - apply Forall_app. split; [exact Hb|]. apply Forall_singleton. split; assumption.
Qed.

(** One index cleaned up. *)
Lemma clean_step st ctu ix ixs m :
  km_ok st -> NoDup (ix :: ixs) -> Forall (slot_busy st) (ix :: ixs) ->
  exists st', rd_step ctu st (RClean ((ix :: ixs) ++ replicate m (-1))) =
      Ok (st', RClean (ixs ++ replicate m (-1)), None) /\
    km_ok st' /\ reader_ok st' (RClean (ixs ++ replicate m (-1))) /\
    cells_at st' (kept st' (RClean (ixs ++ replicate m (-1)))) ≡ₚ
    cells_at st (kept st (RClean ((ix :: ixs) ++ replicate m (-1)))).
Proof.
  intros Hok Hnd Hf. pose proof Hf as [[Hi Hb] Hf']%Forall_cons.
  pose proof Hnd as [Hni Hnd']%NoDup_cons.
  destruct (read_cleanup_spec [ix] st O Hok (proj2 (Forall_singleton _ _) Hi))
    as (st' & Hcl & Hok' & Hc & _ & _ & _ & _ & Hj).
  cbn [app read_cleanup replicate] in Hcl. cbn [rd_step app].
  replace (ix =? -1) with false in * by lia. cbn [negb] in *.
  apply bind_Ok_inv in Hcl as (buff & Hw & Hcl).
  apply bind_Ok_inv in Hcl as (stat & Ha & Hcl). injection Hcl as <-.
  rewrite Hw, bind_Ok, Ha, bind_Ok. eexists. split; [reflexivity|]. split; [exact Hok'|].
  set (st' := set_cache st buff (current_index st) stat) in *.
  assert (forall j, slot_busy st' j <-> slot_busy st j /\ j <> ix) as Hsb.
  { intros j. unfold slot_busy. split.
    - intros [Hjr Hbj]. destruct (Hj j Hjr) as [Hbj' _]. rewrite Hbj' in Hbj.
      case_decide as Hin; [discriminate|]. rewrite list_elem_of_singleton in Hin. auto.
    - intros [[Hjr Hbj] Hne]. split; [exact Hjr|]. destruct (Hj j Hjr) as [-> _].
      rewrite decide_False by (rewrite list_elem_of_singleton; exact Hne). exact Hbj. }
  assert (Forall (slot_busy st') ixs) as Hf2.
  { apply Forall_forall. intros j Hjin. apply Hsb. split.
    - eapply Forall_forall in Hf'; eassumption.
    - intros ->. contradiction. }
  split; [constructor; assumption|].
  assert (kept st' (RClean (ixs ++ replicate m (-1))) ≡ₚ
          kept st (RClean ((ix :: ixs) ++ replicate m (-1)))) as ->.
  { apply NoDup_Permutation; [apply kept_NoDup | apply kept_NoDup|]. intros j.
    rewrite !elem_of_kept, (held_clean st' ixs), (held_clean st (ix :: ixs)) by assumption.
    rewrite Hsb, not_elem_of_cons. tauto. }
  rewrite (cells_at_ext st); [reflexivity|]. intros j Hjk.
  apply elem_of_kept in Hjk as [[Hjr _] Hnh]. destruct (Hj j Hjr) as [_ ->].
  rewrite (held_clean st (ix :: ixs)) in Hnh by exact Hf.
  apply not_elem_of_cons in Hnh as [Hne _].
  rewrite decide_False by (rewrite list_elem_of_singleton; exact Hne). reflexivity.
Qed.

(** Any step of the reader: what it hands out is taken from what is kept. *)
Lemma rd_step_ok st ctu r :
  km_ok st -> reader_ok st r ->
  exists st' r' o cs, rd_step ctu st r = Ok (st', r', o) /\
    km_ok st' /\ reader_ok st' r' /\
    cells_at st (kept st r) ≡ₚ cs ++ cells_at st' (kept st' r') /\
    (length cs <= Z.to_nat PKTS_PER_BUFFER)%nat /\
    match o with
    | Some b => b = pad BUFFER_SIZE (mjoin cs)
    | None => cs = []
    end.
Proof.
  intros Hok Hr. destruct Hr as [|c0 ixs try Hc Ht Hl Hnd Hring Hb|ixs m Hnd Hb].
  - cbn [rd_step]. rewrite mwrite_all, bind_Ok
      by (rewrite (ok_temp _ Hok); apply zlen_replicate).
    eexists st, _, None, []. split; [reflexivity|]. split; [exact Hok|].
    split; [|split; [reflexivity | split; [cbn; lia | reflexivity]]].
    pose proof (ok_cur _ Hok) as Hcur.
    pose proof (rok_scan st (current_index st) [] 0 Hcur) as Hs.
    rewrite Z.add_0_r, Z.mod_small in Hs by exact Hcur. apply Hs;
      [km_consts; lia | vm_compute; discriminate | constructor..].
  - destruct (decide (zlen ixs < PKTS_PER_BUFFER /\ try < MAX_PKT)) as [[H1 H2]|Hend].
    + destruct (scan_step st ctu c0 ixs try Hok Hc ltac:(lia) H1 Hnd Hring Hb)
        as (r' & -> & Hr' & Hh).
      eexists st, r', None, []. split; [reflexivity|]. split; [exact Hok|].
      split; [exact Hr'|]. split; [|split; [cbn; lia | reflexivity]].
      rewrite !kept_nothing_held by (exact Hh || reflexivity). reflexivity.
    + cbn [rd_step]. replace ((zlen ixs <? PKTS_PER_BUFFER) && (try <? MAX_PKT)) with false
        by lia.
      set (temp := pad BUFFER_SIZE (slots_bytes (buff_from_here st) ixs)).
      assert (km_ok (set_temp st temp)) as Hok'.
      { pose proof (zlen_slots_bytes _ _ (ok_buff _ Hok) (slot_busy_range _ _ Hb)) as Hz.
        destruct Hok; split; auto. cbn. unfold temp, pad. rewrite zlen_app, zlen_replicate.
        unfold zlen in *. km_consts. lia. }
      destruct (negb (ctu temp =? 0)).
      * eexists _, RIdle, None, []. split; [reflexivity|]. split; [exact Hok'|].
        split; [constructor|]. split; [reflexivity | split; [cbn; lia | reflexivity]].
      * eexists _, _, (Some temp), (cells_at st ixs). split; [reflexivity|].
        split; [exact Hok'|]. split; [constructor; [exact Hnd | exact Hb]|].
        split; [|split; [|reflexivity]].
        2:{ unfold cells_at. rewrite length_fmap. unfold zlen in Hl. km_consts. lia. }
        rewrite (kept_nothing_held st (RScan _ _ _ _ _)) by reflexivity.
        unfold cells_at. cbn [set_temp buff_from_here]. rewrite <- fmap_app.
        apply fmap_Permutation. apply NoDup_Permutation; [apply used_NoDup| |].
        -- apply NoDup_app. split; [exact Hnd|]. split; [|apply kept_NoDup].
           intros j Hj Hk. apply elem_of_kept in Hk as [_ Hk].
           rewrite (held_clean st) in Hk by exact Hb. contradiction.
        -- intros j. rewrite elem_of_app, elem_of_kept, (held_clean st) by exact Hb.
           rewrite elem_of_used. fold (slot_busy st j).
           assert (slot_busy (set_temp st temp) j <-> slot_busy st j) as -> by reflexivity.
           split; [|intros [Hj|[Hj _]]; [|exact Hj]].
           ++ intros Hj. destruct (decide (j ∈ ixs)); auto.
           ++ exact (proj1 (Forall_forall _ _) Hb _ Hj).
  - destruct ixs as [|ix ixs].
    + destruct m as [|m]; cbn [app replicate rd_step].
      * eexists st, RIdle, None, []. split; [reflexivity|]. split; [exact Hok|].
        split; [constructor|]. split; [|split; [cbn; lia | reflexivity]].
        rewrite !kept_nothing_held by reflexivity. reflexivity.
      * replace (negb (-1 =? -1)) with false by reflexivity.
        eexists st, _, None, []. split; [reflexivity|]. split; [exact Hok|].
        split; [apply (rok_clean st [] m); constructor|].
        split; [|split; [cbn; lia | reflexivity]].
        rewrite (kept_nothing_held st (RClean (replicate m (-1))));
          [|apply (held_clean st [] m); constructor].
        rewrite (kept_nothing_held st (RClean (-1 :: replicate m (-1))));
          [reflexivity | apply (held_clean st [] (S m)); constructor].
    + destruct (clean_step st ctu ix ixs m Hok Hnd Hb) as (st' & -> & Hok' & Hr' & Hp).
      eexists st', _, None, []. split; [reflexivity|]. split; [exact Hok'|].
      split; [exact Hr'|]. split; [cbn [app]; symmetry; exact Hp|].
      split; [cbn; lia | reflexivity].
Qed.

(** What holds when the receive handler interrupts a [read]: the steps of
    the reader are those of [read]; no packet is lost or handed out twice;
    but packets can overtake each other. *)

(** * The steps are the steps of [read] *)

Lemma rd_run_scan ctu st k : forall temp copied n ci try t c m,
  read_scan k st temp copied n ci try = Ok (t, c, m) ->
  exists j ci' try', (m <? PKTS_PER_BUFFER) && (try' <? MAX_PKT) = false /\
    forall f out, rd_run (j + f) ctu st (RScan temp copied n ci try) out =
                  rd_run f ctu st (RScan t c m ci' try') out.
Proof.
  induction k as [|k IH]; intros temp copied n ci try t c m H; [discriminate|].
  cbn [read_scan] in H.
  destruct ((n <? PKTS_PER_BUFFER) && (try <? MAX_PKT)) eqn:Hc.
  2:{ injection H as <- <- <-. exists O, ci, try. auto. }
  apply bind_Ok_inv in H as (s & Hs & H). destruct (negb (s =? 0)) eqn:Hn.
  - apply bind_Ok_inv in H as (src & H1 & H). apply bind_Ok_inv in H as (temp' & H2 & H).
    apply bind_Ok_inv in H as (copied' & H3 & H).
    destruct (IH _ _ _ _ _ _ _ _ H) as (j & ci' & try' & He & Hj).
    exists (S j), ci', try'. split; [exact He|]. intros f out.
    cbn [rd_run Nat.add rd_step]. rewrite Hc, Hs, bind_Ok, Hn, H1, bind_Ok, H2, bind_Ok, H3,
      !bind_Ok. apply Hj.
  - destruct (IH _ _ _ _ _ _ _ _ H) as (j & ci' & try' & He & Hj).
    exists (S j), ci', try'. split; [exact He|]. intros f out.
    cbn [rd_run Nat.add rd_step]. rewrite Hc, Hs, bind_Ok, Hn, bind_Ok. apply Hj.
Qed.

Lemma rd_run_clean ctu c : forall st st' out,
  read_cleanup c st = Ok st' -> rd_run (S (length c)) ctu st (RClean c) out = Ok (out, st').
Proof.
  induction c as [|ix c IH]; intros st st' out H; cbn [read_cleanup] in H.
  - injection H as <-. reflexivity.
  - cbn [length rd_run rd_step]. destruct (negb (ix =? -1)).
    + apply bind_Ok_inv in H as (buff & H1 & H). apply bind_Ok_inv in H as (stat & H2 & H).
      rewrite H1, bind_Ok, H2, !bind_Ok. apply IH, H.
    + rewrite bind_Ok. apply IH, H.
Qed.

(** Run without interruption, the steps of the reader are exactly
    [read]: they end, in the state [read] ends in, having handed out what
    [read] hands out. *)
Theorem reader_steps_are_read ctu len off st :
  km_ok st -> u64 off < BUFFER_SIZE ->
  exists fuel r st', read ctu len off st = Ok (r, st') /\
    rd_run fuel ctu st RIdle None = Ok (rd_user r, st').
Proof.
  intros Hok Hoff. destruct (read_spec ctu len off st Hok Hoff) as (st' & Hr & _).
  pose proof Hr as Hr'. unfold read in Hr'.
  replace (BUFFER_SIZE <=? u64 off) with false in Hr' by lia.
  apply bind_Ok_inv in Hr' as (temp & Ht & Hr').
  apply bind_Ok_inv in Hr' as ([[t c] m] & Hs & Hr').
  destruct (rd_run_scan ctu st _ _ _ _ _ _ _ _ _ Hs) as (j & ci' & try' & He & Hj).
  exists (S (j + S (S (length c)))). eexists _, st'. split; [exact Hr|].
  cbn [rd_run rd_step]. rewrite Ht, !bind_Ok. rewrite Hj. cbn [rd_run rd_step].
  rewrite He. destruct (negb (ctu t =? 0)).
  - injection Hr' as <- <-. reflexivity.
  - apply bind_Ok_inv in Hr' as (st2 & Hcl & Hr'). injection Hr' as <- <-.
    rewrite bind_Ok. apply (rd_run_clean ctu c _ _ (Some t)), Hcl.
Qed.

Lemma reader_steps_are_read_witness :
  exists fuel r st', read ctu_ok 4096 0 km_fresh = Ok (r, st') /\
    rd_run fuel ctu_ok km_fresh RIdle None = Ok (rd_user r, st').
Proof.
  apply (reader_steps_are_read ctu_ok 4096 0 km_fresh).
  - apply (proj1 km_fresh_represents).
  - reflexivity.
Defined.

(** * Interleavings *)

(** The states reachable when steps of one reader and packets interleave in
    any way, with the packets that were stored and the buffers that were
    handed out, both in order. *)
Inductive interleaved : km -> reader -> list (list byte) -> list (list byte) -> Prop :=
| il_start st :
    km_ok st -> used st = [] -> interleaved st RIdle [] []
| il_packet st r stored out pkt p now v st' :
    interleaved st r stored out -> skb_kind pkt (Some p) -> zlen p <= PKT_BUFFER_SIZE ->
    rxhPacketIn pkt now st = Ok (v, st') ->
    interleaved st' r (if has_room st then stored ++ [p] else stored) out
| il_other st r stored out pkt now v st' :
    interleaved st r stored out -> skb_kind pkt None ->
    rxhPacketIn pkt now st = Ok (v, st') -> interleaved st' r stored out
| il_read ctu st r stored out st' r' o :
    interleaved st r stored out -> rd_step ctu st r = Ok (st', r', o) ->
    interleaved st' r' stored (out ++ match o with Some b => [b] | None => [] end).

(** The books balance: the stored packets are, each once, in the buffers
    handed out or still kept. *)
Definition balanced (st : km) (r : reader) (stored out : list (list byte)) : Prop :=
  exists handed cells,
    out = (fun cs => pad BUFFER_SIZE (mjoin cs)) <$> handed /\
    Forall (fun cs => (length cs <= Z.to_nat PKTS_PER_BUFFER)%nat) handed /\
    cells ≡ₚ mjoin handed ++ cells_at st (kept st r) /\
    Forall2 Fifo.cell_of cells stored.

Lemma balanced_read st r stored out st' r' o cs :
  balanced st r stored out ->
  cells_at st (kept st r) ≡ₚ cs ++ cells_at st' (kept st' r') ->
  (length cs <= Z.to_nat PKTS_PER_BUFFER)%nat ->
  match o with Some b => b = pad BUFFER_SIZE (mjoin cs) | None => cs = [] end ->
  balanced st' r' stored (out ++ match o with Some b => [b] | None => [] end).
Proof.
  intros (handed & cells & -> & Hf & Hp & Hc) Hk Hl Ho. destruct o as [b|].
  - subst b. exists (handed ++ [cs]), cells. split; [rewrite fmap_app; reflexivity|].
    split; [apply Forall_app; split; [exact Hf | apply Forall_singleton, Hl]|].
    split; [|exact Hc]. rewrite Hp, Hk, join_app. cbn [mjoin list_join].
    rewrite app_nil_r, <- app_assoc. reflexivity.
  - subst cs. exists handed, cells. rewrite app_nil_r. split; [reflexivity|].
    split; [exact Hf|]. split; [rewrite Hp, Hk; reflexivity | exact Hc].
Qed.

Lemma interleaved_inv st r stored out :
  interleaved st r stored out ->
  km_ok st /\ reader_ok st r /\ balanced st r stored out.
Proof.
  induction 1 as [st Hok Hu|st r stored out pkt p now v st' _ (Hok & Hr & Hb) Hk Hp Hrx
    |st r stored out pkt now v st' _ (Hok & Hr & Hb) Hk Hrx
    |ctu st r stored out st' r' o _ (Hok & Hr & Hb) Hs].
  - split; [exact Hok|]. split; [constructor|]. exists [], [].
    split; [reflexivity|]. split; [constructor|]. split; [|constructor].
    rewrite kept_nothing_held, Hu by reflexivity. reflexivity.
  - destruct (rx_effect_any st pkt p now Hok Hk Hp) as (st1 & Hrx' & Hok1 & He).
    rewrite Hrx in Hrx'. injection Hrx' as _ <-. split; [exact Hok1|].
    destruct Hb as (handed & cells & -> & Hf & Hpm & Hc). destruct (has_room st).
    + destruct (rx_keeps_reader p st st' r He Hr) as (Hr' & c & Hcp & Hkp).
      split; [exact Hr'|]. exists handed, (cells ++ [c]). split; [reflexivity|].
      split; [exact Hf|]. split; [|apply Forall2_app; [exact Hc | auto]].
      rewrite Hpm, Hkp, <- app_assoc. rewrite (Permutation_app_comm _ [c]). reflexivity.
    + destruct (same_cache_reader st st' r He Hr) as [Hr' Hkp].
      split; [exact Hr'|]. exists handed, cells. rewrite Hkp. auto.
  - rewrite (rx_ignored _ _ _ Hk) in Hrx. injection Hrx as _ <-. auto.
  - destruct (rd_step_ok st ctu r Hok Hr) as (st1 & r1 & o1 & cs & Hs' & Hok1 & Hr1 & Hk & Hl & Ho).
    rewrite Hs in Hs'. injection Hs' as <- <- <-. split; [exact Hok1|].
    split; [exact Hr1|]. eapply balanced_read; eassumption.
Qed.

(** C35: whatever the interleaving of packets that fit a slot with the steps
    of a reader, started on an empty cache: nothing faults at the next
    step, and every packet that was stored is, exactly once, either in a
    buffer handed out or still in the cache. *)
Theorem interrupted_read_conserves st r stored out :
  interleaved st r stored out ->
  balanced st r stored out /\
  (forall ctu, exists st' r' o, rd_step ctu st r = Ok (st', r', o)) /\
  (forall pkt p now, skb_kind pkt (Some p) -> zlen p <= PKT_BUFFER_SIZE ->
   exists st', rxhPacketIn pkt now st = Ok (RX_HANDLER_PASS, st')).
Proof.
  intros (Hok & Hr & Hb)%interleaved_inv. split; [exact Hb|]. split.
  - intros ctu. destruct (rd_step_ok st ctu r Hok Hr) as (st' & r' & o & cs & H & _). eauto.
  - intros pkt p now Hk Hp. destruct (rx_effect_any st pkt p now Hok Hk Hp) as (st' & H & _).
    eauto.
Qed.

Lemma km_fresh_unused : used km_fresh = [].
Proof. vm_compute. reflexivity. Qed.

Lemma interrupted_read_conserves_witness :
  interleaved km_fresh RIdle [] [] /\ balanced km_fresh RIdle [] [].
Proof.
  assert (interleaved km_fresh RIdle [] []) as H.
  { apply il_start; [apply (proj1 km_fresh_represents) | exact km_fresh_unused]. }
  split; [exact H|]. apply (interrupted_read_conserves km_fresh RIdle [] [] H).
Defined.

(** * Overtaking *)

(** A schedule: a packet arrives, or the reader makes a step. *)
Inductive sched := SRx (pkt : sk_buff) (now : Z) | SRead.

Fixpoint run_sched (ctu : list byte -> Z) (es : list sched) (st : km) (r : reader)
    (out : list (list byte)) : res (km * reader * list (list byte)) :=
  match es with
  | [] => Ok (st, r, out)
  | SRx pkt now :: es =>
      '(_, st) ← rxhPacketIn pkt now st;
      run_sched ctu es st r out
  | SRead :: es =>
      '(st, r, o) ← rd_step ctu st r;
      run_sched ctu es st r (match o with Some b => out ++ [b] | None => out end)
  end.

Definition handed_out (x : res (km * reader * list (list byte))) : res (list (list byte)) :=
  match x with Ok (_, _, out) => Ok out | Err e => Err e end.

(** Three packets that differ in their uid. *)
Definition numbered (u : Z) : list byte :=
  take 64 (Payload_bytes {| client_uid := 1; uid := u; type := PL_DATA; created_time := 1000;
    ks_time_arrival_1 := 0; ks_time_arrival_2 := 0; us_time_arrival_1 := 0;
    us_time_arrival_2 := 0; data := [] |}).

Definition numbered_cell (u : Z) : list byte := pad PKT_BUFFER_SIZE (numbered u).

(** Packet 1 is in the cache; the reader starts and passes one free slot;
    packets 2 and 3 arrive; the reader goes on. *)
Definition overtaking : list sched :=
  [SRx (udp_skb (numbered 1)) 10; SRead; SRead; SRx (udp_skb (numbered 2)) 11;
   SRx (udp_skb (numbered 3)) 12] ++ replicate 240 SRead.

(** An interrupted read can hand out packets in another order than they
    came in: in a run where packets 1, 2 and 3 arrive in this order, the
    first buffer handed out holds packet 3 and then packet 1, and packet 2
    is left for the next read. *)
Theorem interrupted_read_overtakes :
  handed_out (run_sched ctu_ok overtaking km_fresh RIdle []) =
  Ok [pad BUFFER_SIZE (numbered_cell 3 ++ numbered_cell 1)].
Proof. vm_compute. reflexivity. Qed.
