(* ===== verification/LibbpfObj.v ===== *)
(** The objects of libbpf ([src/eBPF_app/libbpf/src/libbpf.c]): programs,
    maps, the iterators over them, the lookups by name, and the table of
    section names from which the type of a program is guessed. *)
From S2P Require Import Prelude CLib.
#[local] Open Scope Z_scope.

(** * Errors *)

Definition LIBBPF_ERRNO__START : Z := 4000.
Definition LIBBPF_ERRNO__INTERNAL : Z := 4004.
Definition LIBBPF_ERRNO__RELOC : Z := 4005.
Definition LIBBPF_ERRNO__VERIFY : Z := 4007.
Definition LIBBPF_ERRNO__PROG2BIG : Z := 4008.
Definition LIBBPF_ERRNO__PROGTYPE : Z := 4010.
Definition LIBBPF_ERRNO__END : Z := 4014.

(** The messages; [LIBBPF_ERRNO__LOAD] has none. *)
Definition libbpf_strerror_table : list (option string) :=
  [Some "Something wrong in libelf"; Some "BPF object format invalid";
   Some "'version' section incorrect or lost"; Some "Endian mismatch";
   Some "Internal error in libbpf"; Some "Relocation failed"; None;
   Some "Kernel verifier blocks program loading"; Some "Program too big";
   Some "Incorrect kernel version"; Some "Kernel doesn't support this program type";
   Some "Wrong pid in netlink message"; Some "Invalid netlink sequence";
   Some "Incorrect netlink message parsing"]%string.

(** [libbpf_strerror(err, buf, size)]: the result and the buffer.
    [strerror_r] is the C library's: what it returns and the buffer it
    leaves. [buf] is [None] for a NULL pointer; printing a NULL string is
    undefined. *)
Definition libbpf_strerror (strerror_r : Z -> list byte -> Z * list byte)
    (err : Z) (buf : option (list byte)) : res (Z * option (list byte)) :=
  match buf with
  | None => Ok (-1, None)
  | Some buf =>
      let size := zlen buf in
      if size =? 0 then Ok (-1, Some buf) else
      let err := if 0 <? err then err else s32 (- err) in
      if err <? LIBBPF_ERRNO__START then
        let '(ret, buf) := strerror_r err buf in
        buf ← aset buf (size - 1) NUL;
        Ok (ret, Some buf)
      else if err <? LIBBPF_ERRNO__END then
        msg ← aget libbpf_strerror_table (err - LIBBPF_ERRNO__START);
        msg ← or_fault NullDeref msg;
        '(buf, _) ← snprintf buf 0 size (bytes_of msg);
        buf ← aset buf (size - 1) NUL;
        Ok (0, Some buf)
      else
        '(buf, _) ← snprintf buf 0 size
                      (bytes_of ("Unknown libbpf error " ++ pretty err));
        buf ← aset buf (size - 1) NUL;
        Ok (-1, Some buf)
  end.

(** * Data *)

(** [struct bpf_insn]. *)
Record bpf_insn := mk_insn {
  i_code : Z; i_dst : Z; i_src : Z; i_off : Z; i_imm : Z
}.

(** The member [type] of a [reloc_desc]: one of the three the code gives it,
    or, in an entry that was allocated and not filled in, some other number. *)
Inductive reloc_type := RELO_LD64 | RELO_CALL | RELO_DATA | RELO_JUNK.
#[export] Instance reloc_type_eq : EqDecision reloc_type.
Proof. solve_decision. Defined.

(** [rel_idx] is the union of [map_idx] and [text_off]. *)
Record reloc_desc := mk_reloc {
  rel_type : reloc_type; rel_insn_idx : Z; rel_idx : Z
}.

(** [instances] is [None] for [nr = -1] without a table. [func_info] and
    [line_info] are the records for the kernel, with their size and count;
    [preprocessor] is always [NULL] here: nothing calls
    [bpf_program__set_prep]. *)
Record bpf_program := mk_prog {
  p_idx : Z;
  p_name : option string;
  p_ifindex : Z;
  section_name : string;
  p_insns : option (list bpf_insn);
  main_prog_cnt : Z;
  p_type : Z;
  p_relocs : option (list reloc_desc);
  p_log_level : Z;
  p_instances : option (list Z);
  expected_attach_type : Z;
  attach_btf_id : Z;
  func_info : list byte; func_info_rec_size : Z; func_info_cnt : Z;
  line_info : list byte; line_info_rec_size : Z; line_info_cnt : Z;
  prog_flags : Z
}.

Inductive libbpf_map_type :=
| LIBBPF_MAP_UNSPEC | LIBBPF_MAP_DATA | LIBBPF_MAP_BSS | LIBBPF_MAP_RODATA.
#[export] Instance libbpf_map_type_eq : EqDecision libbpf_map_type.
Proof. solve_decision. Defined.

Record bpf_map_def := mk_def {
  d_type : Z; d_key_size : Z; d_value_size : Z; d_max_entries : Z; d_flags : Z
}.

Record bpf_map := mk_map {
  m_fd : Z;
  m_name : string;
  m_sec_idx : Z;
  m_ifindex : Z;
  inner_map_fd : Z;
  m_def : bpf_map_def;
  btf_key_type_id : Z;
  btf_value_type_id : Z;
  libbpf_type : libbpf_map_type;
  pin_path : option string;
  pinned : bool;
  reused : bool
}.

(** [obj_id] stands for the address of the object; [obj_btf] is the
    descriptor of its BTF, [obj_btf_ext] tells whether it has BTF.ext. *)
Record bpf_object := mk_obj {
  obj_id : Z;
  license : string;
  kern_version : Z;
  programs : list bpf_program;
  maps : list bpf_map;
  sec_rodata : list byte;
  sec_data : list byte;
  loaded : bool;
  has_pseudo_calls : bool;
  caps_name : bool;
  text_shndx : Z;
  btf_maps_shndx : Z;
  obj_btf : option Z;
  obj_btf_ext : bool
}.

(** ** Field updates *)

Definition set_prog (f : bpf_program -> bpf_program) (i : Z) (o : bpf_object) : bpf_object :=
  mk_obj (obj_id o) (license o) (kern_version o) (alter f (Z.to_nat i) (programs o))
    (maps o) (sec_rodata o) (sec_data o) (loaded o) (has_pseudo_calls o) (caps_name o)
    (text_shndx o) (btf_maps_shndx o) (obj_btf o) (obj_btf_ext o).
Definition set_maps (ms : list bpf_map) (o : bpf_object) : bpf_object :=
  mk_obj (obj_id o) (license o) (kern_version o) (programs o)
    ms (sec_rodata o) (sec_data o) (loaded o) (has_pseudo_calls o) (caps_name o)
    (text_shndx o) (btf_maps_shndx o) (obj_btf o) (obj_btf_ext o).
Definition set_programs (ps : list bpf_program) (o : bpf_object) : bpf_object :=
  mk_obj (obj_id o) (license o) (kern_version o) ps
    (maps o) (sec_rodata o) (sec_data o) (loaded o) (has_pseudo_calls o) (caps_name o)
    (text_shndx o) (btf_maps_shndx o) (obj_btf o) (obj_btf_ext o).
Definition set_loaded (o : bpf_object) : bpf_object :=
  mk_obj (obj_id o) (license o) (kern_version o) (programs o)
    (maps o) (sec_rodata o) (sec_data o) true (has_pseudo_calls o) (caps_name o)
    (text_shndx o) (btf_maps_shndx o) (obj_btf o) (obj_btf_ext o).

Definition set_fd (fd : Z) (m : bpf_map) : bpf_map :=
  mk_map fd (m_name m) (m_sec_idx m) (m_ifindex m) (inner_map_fd m) (m_def m)
    (btf_key_type_id m) (btf_value_type_id m) (libbpf_type m) (pin_path m)
    (pinned m) (reused m).
Definition set_pin (path : option string) (b : bool) (m : bpf_map) : bpf_map :=
  mk_map (m_fd m) (m_name m) (m_sec_idx m) (m_ifindex m) (inner_map_fd m) (m_def m)
    (btf_key_type_id m) (btf_value_type_id m) (libbpf_type m) path b (reused m).
Definition set_btf_ids (k v : Z) (m : bpf_map) : bpf_map :=
  mk_map (m_fd m) (m_name m) (m_sec_idx m) (m_ifindex m) (inner_map_fd m) (m_def m)
    k v (libbpf_type m) (pin_path m) (pinned m) (reused m).

Definition set_instances (l : option (list Z)) (p : bpf_program) : bpf_program :=
  mk_prog (p_idx p) (p_name p) (p_ifindex p) (section_name p) (p_insns p)
    (main_prog_cnt p) (p_type p) (p_relocs p) (p_log_level p) l
    (expected_attach_type p) (attach_btf_id p)
    (func_info p) (func_info_rec_size p) (func_info_cnt p)
    (line_info p) (line_info_rec_size p) (line_info_cnt p) (prog_flags p).
Definition set_code (insns : option (list bpf_insn)) (main : Z)
    (rel : option (list reloc_desc)) (p : bpf_program) : bpf_program :=
  mk_prog (p_idx p) (p_name p) (p_ifindex p) (section_name p) insns
    main (p_type p) rel (p_log_level p) (p_instances p)
    (expected_attach_type p) (attach_btf_id p)
    (func_info p) (func_info_rec_size p) (func_info_cnt p)
    (line_info p) (line_info_rec_size p) (line_info_cnt p) (prog_flags p).
Definition set_log (level flags : Z) (p : bpf_program) : bpf_program :=
  mk_prog (p_idx p) (p_name p) (p_ifindex p) (section_name p) (p_insns p)
    (main_prog_cnt p) (p_type p) (p_relocs p) level (p_instances p)
    (expected_attach_type p) (attach_btf_id p)
    (func_info p) (func_info_rec_size p) (func_info_cnt p)
    (line_info p) (line_info_rec_size p) (line_info_cnt p) flags.

(** * Setters and getters of the API *)

Definition bpf_program__set_ifindex (ifindex : Z) (p : bpf_program) : bpf_program :=
  mk_prog (p_idx p) (p_name p) (s32 ifindex) (section_name p) (p_insns p)
    (main_prog_cnt p) (p_type p) (p_relocs p) (p_log_level p) (p_instances p)
    (expected_attach_type p) (attach_btf_id p)
    (func_info p) (func_info_rec_size p) (func_info_cnt p)
    (line_info p) (line_info_rec_size p) (line_info_cnt p) (prog_flags p).
Definition bpf_program__set_type (type : Z) (p : bpf_program) : bpf_program :=
  mk_prog (p_idx p) (p_name p) (p_ifindex p) (section_name p) (p_insns p)
    (main_prog_cnt p) type (p_relocs p) (p_log_level p) (p_instances p)
    (expected_attach_type p) (attach_btf_id p)
    (func_info p) (func_info_rec_size p) (func_info_cnt p)
    (line_info p) (line_info_rec_size p) (line_info_cnt p) (prog_flags p).
Definition bpf_program__set_expected_attach_type (type : Z) (p : bpf_program)
    : bpf_program :=
  mk_prog (p_idx p) (p_name p) (p_ifindex p) (section_name p) (p_insns p)
    (main_prog_cnt p) (p_type p) (p_relocs p) (p_log_level p) (p_instances p)
    type (attach_btf_id p)
    (func_info p) (func_info_rec_size p) (func_info_cnt p)
    (line_info p) (line_info_rec_size p) (line_info_cnt p) (prog_flags p).
Definition bpf_program__get_type (p : bpf_program) : Z := p_type p.

(** [bpf_program__title(prog, false)]. *)
Definition bpf_program__title (p : bpf_program) : string := section_name p.

Definition bpf_program__nth_fd (p : option bpf_program) (n : Z) : Z :=
  match p with
  | None => - EINVAL
  | Some p =>
      let fds := default [] (p_instances p) in
      let nr := match p_instances p with Some fds => zlen fds | None => -1 end in
      if (nr <=? n) || (n <? 0) then - EINVAL else
      let fd := default (-1) (fds !! Z.to_nat n) in
      if fd <? 0 then - ENOENT else fd
  end.
Definition bpf_program__fd (p : option bpf_program) : Z := bpf_program__nth_fd p 0.

Definition BPF_MAP_TYPE_PERF_EVENT_ARRAY : Z := 4.
Definition BPF_MAP_TYPE_ARRAY_OF_MAPS : Z := 12.
Definition BPF_MAP_TYPE_HASH_OF_MAPS : Z := 13.

Definition bpf_map_type__is_map_in_map (type : Z) : bool :=
  (type =? BPF_MAP_TYPE_ARRAY_OF_MAPS) || (type =? BPF_MAP_TYPE_HASH_OF_MAPS).
Definition bpf_map__fd (m : option bpf_map) : Z :=
  match m with Some m => m_fd m | None => - EINVAL end.
Definition bpf_map__name (m : bpf_map) : string := m_name m.
Definition bpf_map__is_offload_neutral (m : bpf_map) : bool :=
  d_type (m_def m) =? BPF_MAP_TYPE_PERF_EVENT_ARRAY.
Definition bpf_map__is_internal (m : bpf_map) : bool :=
  negb (bool_decide (libbpf_type m = LIBBPF_MAP_UNSPEC)).
Definition bpf_map__set_ifindex (ifindex : Z) (m : bpf_map) : bpf_map :=
  mk_map (m_fd m) (m_name m) (m_sec_idx m) (s32 ifindex) (inner_map_fd m) (m_def m)
    (btf_key_type_id m) (btf_value_type_id m) (libbpf_type m) (pin_path m)
    (pinned m) (reused m).

(** [bpf_map__set_inner_map_fd]: the error code and the map. *)
Definition bpf_map__set_inner_map_fd (m : bpf_map) (fd : Z) : Z * bpf_map :=
  if negb (bpf_map_type__is_map_in_map (d_type (m_def m))) then (- EINVAL, m) else
  if negb (inner_map_fd m =? -1) then (- EINVAL, m) else
  (0, mk_map (m_fd m) (m_name m) (m_sec_idx m) (m_ifindex m) fd (m_def m)
        (btf_key_type_id m) (btf_value_type_id m) (libbpf_type m) (pin_path m)
        (pinned m) (reused m)).

(** * Iterators *)

(** A pointer to a program: the object it belongs to and its place in the
    array. *)
Definition prog_ptr : Type := Z * Z.

Definition bpf_program__is_function_storage (p : bpf_program) (o : bpf_object) : bool :=
  (p_idx p =? text_shndx o) && has_pseudo_calls o.

(** [__bpf_program__iter(p, obj, forward)]. The index is a signed number
    compared with an unsigned one. *)
Definition bpf_program__iter (p : option prog_ptr) (o : bpf_object) (forward : bool)
    : option prog_ptr :=
  let nr_programs := zlen (programs o) in
  if nr_programs =? 0 then None else
  match p with
  | None => Some (obj_id o, if forward then 0 else nr_programs - 1)
  | Some (owner, i) =>
      if negb (owner =? obj_id o) then None else
      let idx := i + (if forward then 1 else -1) in
      if (nr_programs <=? u64 idx) || (idx <? 0) then None else Some (obj_id o, idx)
  end.

(** [do { prog = __bpf_program__iter(prog, obj, forward); } while (...)];
    one more round than there are programs is always enough. *)
Fixpoint program_skip (fuel : nat) (p : option prog_ptr) (o : bpf_object)
    (forward : bool) : res (option prog_ptr) :=
  match fuel with
  | O => Err OutOfFuel
  | S fuel =>
      match bpf_program__iter p o forward with
      | None => Ok None
      | Some (owner, i) =>
          prog ← aget (programs o) i;
          if bpf_program__is_function_storage prog o
          then program_skip fuel (Some (owner, i)) o forward
          else Ok (Some (owner, i))
      end
  end.
Definition bpf_program__next (prev : option prog_ptr) (o : bpf_object)
    : res (option prog_ptr) :=
  program_skip (S (length (programs o))) prev o true.
Definition bpf_program__prev (next : option prog_ptr) (o : bpf_object)
    : res (option prog_ptr) :=
  program_skip (S (length (programs o))) next o false.

(** The programs [bpf_object__for_each_program] visits, in order. *)
Fixpoint programs_from (fuel : nat) (p : option prog_ptr) (o : bpf_object)
    : res (list Z) :=
  match fuel with
  | O => Err OutOfFuel
  | S fuel =>
      p ← bpf_program__next p o;
      match p with
      | None => Ok []
      | Some (owner, i) => l ← programs_from fuel (Some (owner, i)) o; Ok (i :: l)
      end
  end.
Definition bpf_object__for_each_program (o : bpf_object) : res (list Z) :=
  programs_from (S (length (programs o))) None o.

(** [__bpf_map__iter(m, obj, i)]. *)
Definition bpf_map__iter (m : Z) (o : bpf_object) (i : Z) : option Z :=
  if zlen (maps o) =? 0 then None else
  if (m <? 0) || (zlen (maps o) <=? m) then None else
  let idx := m + i in
  if (zlen (maps o) <=? u64 idx) || (idx <? 0) then None else Some idx.
Definition bpf_map__next (prev : option Z) (o : bpf_object) : option Z :=
  match prev with
  | None => if zlen (maps o) =? 0 then None else Some 0
  | Some m => bpf_map__iter m o 1
  end.
Definition bpf_map__prev (next : option Z) (o : bpf_object) : option Z :=
  match next with
  | None => if zlen (maps o) =? 0 then None else Some (zlen (maps o) - 1)
  | Some m => bpf_map__iter m o (-1)
  end.

(** The maps [bpf_object__for_each_map] visits, in order. *)
Fixpoint maps_from (fuel : nat) (m : option Z) (o : bpf_object) : res (list Z) :=
  match fuel with
  | O => Err OutOfFuel
  | S fuel =>
      match bpf_map__next m o with
      | None => Ok []
      | Some i => l ← maps_from fuel (Some i) o; Ok (i :: l)
      end
  end.
Definition bpf_object__for_each_map (o : bpf_object) : res (list Z) :=
  maps_from (S (length (maps o))) None o.

(** * Lookups *)

Fixpoint first_prog (test : bpf_program -> bool) (ixs : list Z) (o : bpf_object)
    : res (option Z) :=
  match ixs with
  | [] => Ok None
  | i :: ixs =>
      p ← aget (programs o) i;
      if test p then Ok (Some i) else first_prog test ixs o
  end.
Definition bpf_object__find_program_by_title (o : bpf_object) (title : string)
    : res (option Z) :=
  ixs ← bpf_object__for_each_program o;
  first_prog (fun p => String.eqb (section_name p) title) ixs o.

Fixpoint first_map (test : bpf_map -> bool) (ixs : list Z) (o : bpf_object)
    : res (option bpf_map) :=
  match ixs with
  | [] => Ok None
  | i :: ixs =>
      m ← aget (maps o) i;
      if test m then Ok (Some m) else first_map test ixs o
  end.
Definition bpf_object__find_map_by_name (o : bpf_object) (name : string)
    : res (option bpf_map) :=
  ixs ← bpf_object__for_each_map o;
  first_map (fun m => String.eqb (m_name m) name) ixs o.
Definition bpf_object__find_map_fd_by_name (o : bpf_object) (name : string) : res Z :=
  m ← bpf_object__find_map_by_name o name; Ok (bpf_map__fd m).

(** [bpf_object__find_prog_by_idx]: by section index, function storage
    included. *)
Definition bpf_object__find_prog_by_idx (o : bpf_object) (idx : Z) : option bpf_program :=
  List.find (fun p => p_idx p =? idx) (programs o).

(** * Section names *)

Definition BPF_PROG_TYPE_UNSPEC : Z := 0.
Definition BPF_PROG_TYPE_KPROBE : Z := 2.
Definition BPF_PROG_TYPE_XDP : Z := 6.
Definition BPF_PROG_TYPE_TRACING : Z := 26.

Record sec_name := mk_sec {
  sec : string; prog_type : Z; sec_expected : Z; is_attachable : bool;
  is_attach_btf : bool; attach_type : Z
}.

Definition BPF_PROG_SEC (s : string) (ptype : Z) : sec_name := mk_sec s ptype 0 false false 0.
Definition BPF_APROG_SEC (s : string) (ptype atype : Z) : sec_name :=
  mk_sec s ptype 0 true false atype.
Definition BPF_EAPROG_SEC (s : string) (ptype eatype : Z) : sec_name :=
  mk_sec s ptype eatype true false eatype.
Definition BPF_PROG_BTF (s : string) (ptype eatype : Z) : sec_name :=
  mk_sec s ptype eatype false true 0.
Definition BPF_APROG_COMPAT (s : string) (ptype : Z) : sec_name := BPF_PROG_SEC s ptype.

(** The types by their numbers in [uapi/linux/bpf.h]. *)
Definition section_names : list sec_name :=
  [BPF_PROG_SEC "socket" 1; BPF_PROG_SEC "kprobe/" 2; BPF_PROG_SEC "uprobe/" 2;
   BPF_PROG_SEC "kretprobe/" 2; BPF_PROG_SEC "uretprobe/" 2;
   BPF_PROG_SEC "classifier" 3; BPF_PROG_SEC "action" 4;
   BPF_PROG_SEC "tracepoint/" 5; BPF_PROG_SEC "tp/" 5;
   BPF_PROG_SEC "raw_tracepoint/" 17; BPF_PROG_SEC "raw_tp/" 17;
   BPF_PROG_BTF "tp_btf/" 26 23; BPF_PROG_SEC "xdp" 6;
   BPF_PROG_SEC "perf_event" 7; BPF_PROG_SEC "lwt_in" 10; BPF_PROG_SEC "lwt_out" 11;
   BPF_PROG_SEC "lwt_xmit" 12; BPF_PROG_SEC "lwt_seg6local" 19;
   BPF_APROG_SEC "cgroup_skb/ingress" 8 0; BPF_APROG_SEC "cgroup_skb/egress" 8 1;
   BPF_APROG_COMPAT "cgroup/skb" 8; BPF_APROG_SEC "cgroup/sock" 9 2;
   BPF_EAPROG_SEC "cgroup/post_bind4" 9 12; BPF_EAPROG_SEC "cgroup/post_bind6" 9 13;
   BPF_APROG_SEC "cgroup/dev" 15 6; BPF_APROG_SEC "sockops" 13 3;
   BPF_APROG_SEC "sk_skb/stream_parser" 14 4; BPF_APROG_SEC "sk_skb/stream_verdict" 14 5;
   BPF_APROG_COMPAT "sk_skb" 14; BPF_APROG_SEC "sk_msg" 16 7;
   BPF_APROG_SEC "lirc_mode2" 20 16; BPF_APROG_SEC "flow_dissector" 22 17;
   BPF_EAPROG_SEC "cgroup/bind4" 18 8; BPF_EAPROG_SEC "cgroup/bind6" 18 9;
   BPF_EAPROG_SEC "cgroup/connect4" 18 10; BPF_EAPROG_SEC "cgroup/connect6" 18 11;
   BPF_EAPROG_SEC "cgroup/sendmsg4" 18 14; BPF_EAPROG_SEC "cgroup/sendmsg6" 18 15;
   BPF_EAPROG_SEC "cgroup/recvmsg4" 18 19; BPF_EAPROG_SEC "cgroup/recvmsg6" 18 20;
   BPF_EAPROG_SEC "cgroup/sysctl" 23 18; BPF_EAPROG_SEC "cgroup/getsockopt" 25 21;
   BPF_EAPROG_SEC "cgroup/setsockopt" 25 22]%string.

(** [strncmp(name, sec, len(sec)) == 0]. *)
Definition sec_matches (name : string) (e : sec_name) : bool := String.prefix (sec e) name.

(** The error code, and the type and the expected attach type; these are
    left alone ([None]) on an error. *)
Definition libbpf_prog_type_by_name (name : option string) : Z * option (Z * Z) :=
  match name with
  | None => (- EINVAL, None)
  | Some name =>
      match List.find (sec_matches name) section_names with
      | Some e => (0, Some (prog_type e, sec_expected e))
      | None => (- ESRCH, None)
      end
  end.

Definition libbpf_attach_type_by_name (name : option string) : Z * option Z :=
  match name with
  | None => (- EINVAL, None)
  | Some name =>
      match List.find (sec_matches name) section_names with
      | Some e => if is_attachable e then (0, Some (attach_type e)) else (- EINVAL, None)
      | None => (- EINVAL, None)
      end
  end.

Definition MAX_TYPE_NAME_SIZE : Z := 32.

(** [libbpf_get_type_names]: the names appended to a buffer of [len]
    bytes, as far as the check lets it; [None] for NULL. Each [strcat] has
    to find room for its text and the NUL. *)
Fixpoint type_names_loop (es : list sec_name) (attach : bool) (len : Z) (buf : list byte)
    : res (option (list byte)) :=
  match es with
  | [] => Ok (Some buf)
  | e :: es =>
      if attach && negb (is_attachable e) then type_names_loop es attach len buf else
      if len <? zlen buf + zlen (bytes_of (sec e)) + 2 then Ok None else
      let buf := buf ++ bytes_of " " ++ bytes_of (sec e) in
      if len <? zlen buf + 1 then Err OutOfBounds else
      type_names_loop es attach len buf
  end.
Definition libbpf_get_type_names (malloc_ok attach : bool) : res (option (list byte)) :=
  if negb malloc_ok then Ok None else
  type_names_loop section_names attach (zlen section_names * MAX_TYPE_NAME_SIZE) [].

(** * Lemmas *)

Definition visible (o : bpf_object) (i : Z) : bool :=
  match programs o !! Z.to_nat i with
  | Some p => negb (bpf_program__is_function_storage p o)
  | None => false
  end.

Lemma iter_next o i :
  -1 <= i < 2 ^ 62 -> zlen (programs o) < 2 ^ 62 ->
  bpf_program__iter (if i =? -1 then None else Some (obj_id o, i)) o true =
  if i + 1 <? zlen (programs o) then Some (obj_id o, i + 1) else None.
Proof.
  intros Hi Hn. unfold bpf_program__iter. pose proof (zlen_nonneg (programs o)) as H0.
  destruct (Z.eqb_spec (zlen (programs o)) 0) as [Hz|Hz].
  { replace (i + 1 <? _) with false by lia. reflexivity. }
  destruct (Z.eqb_spec i (-1)) as [->|Hne].
  - replace (-1 + 1 <? _) with true by lia. reflexivity.
  - rewrite Z.eqb_refl. cbn [negb]. rewrite u64_small by lia.
    replace (i + 1 <? 0) with false by lia. rewrite orb_false_r.
    destruct (Z.leb_spec (zlen (programs o)) (i + 1)); destruct (Z.ltb_spec (i + 1)
      (zlen (programs o))); try lia; reflexivity.
Qed.

Definition ptr_at (o : bpf_object) (i : Z) : option prog_ptr :=
  if i =? -1 then None else Some (obj_id o, i).

(** The places after [i]. *)
Definition after (o : bpf_object) (i : Z) : list Z :=
  seqZ (i + 1) (zlen (programs o) - (i + 1)).

Lemma after_cons o i :
  i + 1 < zlen (programs o) -> after o i = (i + 1) :: after o (i + 1).
Proof.
  intros Hi. unfold after. rewrite seqZ_cons by lia.
  replace (Z.succ (i + 1)) with (i + 1 + 1) by lia.
  replace (Z.pred _) with (zlen (programs o) - (i + 1 + 1)) by lia. reflexivity.
Qed.

Lemma after_nil o i : zlen (programs o) <= i + 1 -> after o i = [].
Proof. intros Hi. unfold after. apply seqZ_nil. lia. Qed.

Lemma program_skip_spec fuel : forall o i,
  zlen (programs o) < 2 ^ 62 -> -1 <= i < zlen (programs o) ->
  zlen (programs o) - i <= Z.of_nat fuel ->
  program_skip fuel (ptr_at o i) o true =
  Ok (j ← List.find (visible o) (after o i); Some (obj_id o, j)).
Proof.
  induction fuel as [|fuel IH]; intros o i Hn Hi Hf; [lia|].
  cbn [program_skip]. unfold ptr_at. rewrite iter_next by lia.
  destruct (Z.ltb_spec (i + 1) (zlen (programs o))) as [Hl|Hl].
  2:{ rewrite after_nil by lia. reflexivity. }
  destruct (aget_in (programs o) (i + 1)) as [p Hp]; [lia|]. rewrite Hp, bind_Ok.
  rewrite after_cons by lia. cbn [List.find].
  assert (visible o (i + 1) = negb (bpf_program__is_function_storage p o)) as ->.
  { apply aget_Ok in Hp as [_ Hp]. unfold visible. rewrite Hp. reflexivity. }
  destruct (bpf_program__is_function_storage p o); cbn [negb]; [|reflexivity].
  rewrite <- IH by lia. unfold ptr_at. replace (i + 1 =? -1) with false by lia. reflexivity.
Qed.

Lemma find_after_inv o i j :
  List.find (visible o) (after o i) = Some j ->
  visible o j = true /\ i < j < zlen (programs o).
Proof.
  intros [Hin Hv]%List.find_some. split; [exact Hv|].
  apply list_elem_of_In, elem_of_seqZ in Hin. lia.
Qed.

(** The places visited after [i]. *)
Definition visible_after (o : bpf_object) (i : Z) : list Z :=
  filter (fun j => visible o j = true) (after o i).

Lemma visible_after_find o n : forall i,
  (Z.to_nat (zlen (programs o) - i) <= n)%nat ->
  visible_after o i =
  match List.find (visible o) (after o i) with
  | Some j => j :: visible_after o j
  | None => []
  end.
Proof.
  unfold visible_after. induction n as [|n IH]; intros i Hn.
  - rewrite !after_nil by lia. reflexivity.
  - destruct (Z.lt_ge_cases (i + 1) (zlen (programs o))) as [Hl|Hl].
    2:{ rewrite !after_nil by lia. reflexivity. }
    rewrite after_cons by lia. cbn [List.find]. rewrite filter_cons.
    destruct (visible o (i + 1)).
    + rewrite decide_True by reflexivity. reflexivity.
    + rewrite decide_False by discriminate. apply IH. lia.
Qed.

Lemma programs_from_spec fuel : forall o i,
  zlen (programs o) < 2 ^ 62 -> -1 <= i < zlen (programs o) ->
  zlen (programs o) - i <= Z.of_nat fuel ->
  programs_from fuel (ptr_at o i) o = Ok (visible_after o i).
Proof.
  induction fuel as [|fuel IH]; intros o i Hn Hi Hf; [lia|].
  cbn [programs_from]. unfold bpf_program__next.
  rewrite program_skip_spec by (unfold zlen in *; lia). rewrite bind_Ok.
  rewrite (visible_after_find o _ i (le_n _)).
  destruct (List.find (visible o) (after o i)) as [j|] eqn:Hj; [|reflexivity].
  apply find_after_inv in Hj as [_ Hj]. cbn [mbind option_bind].
  assert (Some (obj_id o, j) = ptr_at o j) as ->
    by (unfold ptr_at; replace (j =? -1) with false by lia; reflexivity).
  rewrite IH by lia. reflexivity.
Qed.

(** The loop over the programs visits those that do not just hold
    functions, in order. *)
Lemma for_each_program_spec o :
  zlen (programs o) < 2 ^ 62 ->
  bpf_object__for_each_program o = Ok (visible_after o (-1)).
Proof.
  intros Hn. unfold bpf_object__for_each_program. pose proof (zlen_nonneg (programs o)).
  apply (programs_from_spec _ o (-1)); unfold zlen in *; lia.
Qed.

Lemma elem_of_visible_after o i j :
  j ∈ visible_after o i <-> visible o j = true /\ i < j < zlen (programs o).
Proof.
  unfold visible_after, after. rewrite list_elem_of_filter, elem_of_seqZ.
  split; intros [? ?]; split; auto; lia.
Qed.

Lemma maps_from_spec fuel : forall o i,
  zlen (maps o) < 2 ^ 62 -> -1 <= i < zlen (maps o) ->
  zlen (maps o) - i <= Z.of_nat fuel ->
  maps_from fuel (if i =? -1 then None else Some i) o =
  Ok (seqZ (i + 1) (zlen (maps o) - (i + 1))).
Proof.
  induction fuel as [|fuel IH]; intros o i Hn Hi Hf; [lia|]. cbn [maps_from].
  assert (bpf_map__next (if i =? -1 then None else Some i) o =
          if i + 1 <? zlen (maps o) then Some (i + 1) else None) as ->.
  { unfold bpf_map__next, bpf_map__iter. destruct (Z.eqb_spec i (-1)) as [->|].
    - destruct (Z.eqb_spec (zlen (maps o)) 0), (Z.ltb_spec (-1 + 1) (zlen (maps o)));
        try lia; reflexivity.
    - replace (zlen (maps o) =? 0) with false by lia.
      replace ((i <? 0) || (zlen (maps o) <=? i)) with false by lia.
      rewrite u64_small by lia. replace (i + 1 <? 0) with false by lia. rewrite orb_false_r.
      destruct (Z.leb_spec (zlen (maps o)) (i + 1)), (Z.ltb_spec (i + 1) (zlen (maps o)));
        try lia; reflexivity. }
  destruct (Z.ltb_spec (i + 1) (zlen (maps o))) as [Hl|Hl].
  - rewrite seqZ_cons by lia.
    pose proof (IH o (i + 1) Hn) as IH'. replace (i + 1 =? -1) with false in IH' by lia.
    rewrite IH', bind_Ok by lia. do 3 f_equal; lia.
  - rewrite seqZ_nil by lia. reflexivity.
Qed.

Lemma for_each_map_spec o :
  zlen (maps o) < 2 ^ 62 ->
  bpf_object__for_each_map o = Ok (seqZ 0 (zlen (maps o))).
Proof.
  intros Hn. unfold bpf_object__for_each_map. pose proof (zlen_nonneg (maps o)).
  rewrite (maps_from_spec _ o (-1)) by (unfold zlen in *; lia). do 2 f_equal. lia.
Qed.

(** ** Lookups *)

Lemma first_prog_spec test o ixs :
  Forall (fun i => 0 <= i < zlen (programs o)) ixs ->
  first_prog test ixs o =
  Ok (List.find (fun i => match programs o !! Z.to_nat i with
                          | Some p => test p | None => false end) ixs).
Proof.
  induction 1 as [|i ixs Hi _ IH]; [reflexivity|]. cbn [first_prog List.find].
  destruct (aget_in (programs o) i Hi) as [p Hp]. rewrite Hp, bind_Ok.
  apply aget_Ok in Hp as [_ ->]. destruct (test p); [reflexivity | exact IH].
Qed.

Lemma first_map_spec test o pre suf :
  maps o = pre ++ suf ->
  first_map test (seqZ (zlen pre) (zlen suf)) o = Ok (List.find test suf).
Proof.
  revert pre. induction suf as [|m suf IH]; intros pre Hm; [reflexivity|].
  assert (zlen (m :: suf) = zlen suf + 1) as Hz by (unfold zlen; cbn; lia).
  pose proof (zlen_nonneg suf). pose proof (zlen_nonneg pre).
  rewrite seqZ_cons by lia. cbn [first_map List.find].
  assert (aget (maps o) (zlen pre) = Ok m) as ->.
  { apply aget_Ok. split; [lia|]. rewrite Hm. unfold zlen. rewrite Nat2Z.id.
    apply list_lookup_middle. reflexivity. }
  rewrite bind_Ok. destruct (test m); [reflexivity|].
  rewrite <- (IH (pre ++ [m])) by (rewrite <- app_assoc; exact Hm).
  rewrite zlen_app. change (zlen [m]) with 1. do 2 f_equal; lia.
Qed.

Lemma find_map_by_name_spec o name :
  zlen (maps o) < 2 ^ 62 ->
  bpf_object__find_map_by_name o name =
  Ok (List.find (fun m => String.eqb (m_name m) name) (maps o)).
Proof.
  intros Hn. unfold bpf_object__find_map_by_name. rewrite for_each_map_spec, bind_Ok by exact Hn.
  apply (first_map_spec _ o []). reflexivity.
Qed.

(** ** Section names *)

(** No entry of the table hides a later one that starts with it. *)
Fixpoint no_shadow (es : list sec_name) : bool :=
  match es with
  | [] => true
  | e :: es => forallb (fun e' => negb (sec_matches (sec e') e)) es && no_shadow es
  end.

Lemma no_shadow_find es e :
  no_shadow es = true -> e ∈ es -> List.find (sec_matches (sec e)) es = Some e.
Proof.
  induction es as [|d es IH]; intros Hns He; [inversion He|].
  cbn [no_shadow] in Hns. apply andb_true_iff in Hns as [Hd Hns]. cbn [List.find].
  rewrite forallb_forall in Hd. apply elem_of_cons in He as [->|He].
  - assert (sec_matches (sec d) d = true) as ->; [|reflexivity].
    unfold sec_matches. generalize (sec d). clear. intros s.
    induction s as [|a s IH]; [reflexivity|]. cbn. rewrite IH. destruct (Ascii.ascii_dec a a); congruence.
  - specialize (Hd e (proj1 (list_elem_of_In es e) He)).
    apply negb_true_iff in Hd. rewrite Hd. apply IH; assumption.
Qed.
