(* ===== verification/LibbpfLoad.v ===== *)
(** Loading an object into the kernel ([src/eBPF_app/libbpf/src/libbpf.c]
    and the two calls of [bpf.c] it makes): reusing and pinning maps,
    creating maps, relocating and loading programs, and undoing all of it
    when a step fails. The system calls are the interface [BpfSys]; its
    laws, [BpfSysLaws], say which descriptors each call opens and closes. *)
From S2P Require Import Prelude CLib LibbpfObj.
#[local] Open Scope Z_scope.

(** * The system *)

(** What [bpf_obj_get_info_by_fd] tells about a map. *)
Record map_info := mk_info {
  in_name : string; in_type : Z; in_key_size : Z; in_value_size : Z;
  in_max_entries : Z; in_flags : Z; in_btf_key : Z; in_btf_value : Z
}.

(** The attributes of [BPF_MAP_CREATE]. *)
Record map_attr := mk_map_attr {
  ma_name : option string; ma_type : Z; ma_flags : Z; ma_key_size : Z;
  ma_value_size : Z; ma_max_entries : Z; ma_ifindex : Z; ma_inner_map_fd : Z;
  ma_btf_fd : Z; ma_btf_key : Z; ma_btf_value : Z
}.

(** The attributes of [BPF_PROG_LOAD]; [pa_log] is the level and the size
    of the log buffer. *)
Record prog_attr := mk_prog_attr {
  pa_type : Z; pa_expected : Z; pa_attach_btf_id : Z; pa_ifindex : Z;
  pa_name : option string; pa_insns : list bpf_insn; pa_license : string;
  pa_kern_version : Z; pa_btf_fd : Z;
  pa_func_info : list byte; pa_func_rec : Z; pa_func_cnt : Z;
  pa_line_info : list byte; pa_line_rec : Z; pa_line_cnt : Z;
  pa_log : Z * Z; pa_flags : Z
}.

(** What the kernel answers to [BPF_PROG_LOAD]: the result, the sizes of
    the records it knows, and whether it wrote to the log. *)
Record load_answer := mk_answer {
  la_ret : sysret; la_func_rec : Z; la_line_rec : Z; la_log_written : bool
}.

Class BpfSys (K : Type) := {
  (** the descriptors that are open *)
  open_fds : K -> gset Z;
  (** [errno], as the last call that failed left it *)
  sys_errno : K -> Z;
  (** [malloc], [strdup]: whether there is memory *)
  sys_alloc : K -> bool * K;
  sys_obj_get : K -> string -> sysret * K;
  sys_obj_info : K -> Z -> option map_info;
  sys_open_root : K -> sysret * K;
  sys_dup3 : K -> Z -> Z -> sysret * K;
  sys_close : K -> Z -> sysret * K;
  sys_mkdir : K -> string -> sysret * K;
  sys_statfs : K -> string -> sysret;
  sys_unlink : K -> string -> sysret * K;
  sys_obj_pin : K -> Z -> string -> sysret * K;
  sys_map_create : K -> map_attr -> sysret * K;
  sys_map_update : K -> Z -> list byte -> sysret * K;
  sys_map_freeze : K -> Z -> sysret * K;
  sys_prog_load : K -> prog_attr -> load_answer * K;
  num_possible_cpus : K -> Z;
  (** whether the first byte of a fresh buffer happens not to be zero *)
  sys_garbage : K -> bool;
  (** [dirname] of the C library *)
  dirname : string -> string
}.

(** A call that gives a new descriptor or changes nothing. *)
Definition gives_fd {K} `{BpfSys K} (k : K) (r : sysret * K) : Prop :=
  match fst r with
  | ROk fd => 0 <= fd /\ (fd ∉ open_fds k) /\ open_fds (snd r) = {[ fd ]} ∪ open_fds k
  | RErr e => 0 < e /\ open_fds (snd r) = open_fds k
  end.
(** A call that leaves the descriptors alone. *)
Definition keeps_fds {K} `{BpfSys K} (k : K) (r : sysret * K) : Prop :=
  open_fds (snd r) = open_fds k /\ match fst r with ROk _ => True | RErr e => 0 < e end.

Definition UINT32_MAX : Z := 2 ^ 32 - 1.

Class BpfSysLaws (K : Type) `{BpfSys K} := {
  alloc_fds k : open_fds (snd (sys_alloc k)) = open_fds k;
  alloc_errno k : fst (sys_alloc k) = false -> sys_errno (snd (sys_alloc k)) = ENOMEM;
  obj_get_fds k p : gives_fd k (sys_obj_get k p);
  open_root_fds k : gives_fd k (sys_open_root k);
  map_create_fds k a : gives_fd k (sys_map_create k a);
  prog_load_fds k a :
    gives_fd k (la_ret (fst (sys_prog_load k a)), snd (sys_prog_load k a));
  mkdir_fds k p : keeps_fds k (sys_mkdir k p);
  unlink_fds k p : keeps_fds k (sys_unlink k p);
  obj_pin_fds k fd p : keeps_fds k (sys_obj_pin k fd p);
  map_update_fds k fd d : keeps_fds k (sys_map_update k fd d);
  map_freeze_fds k fd : keeps_fds k (sys_map_freeze k fd);
  (** [close] of an open descriptor closes it *)
  close_fds k fd :
    fd ∈ open_fds k -> fst (sys_close k fd) = ROk 0 /\
    open_fds (snd (sys_close k fd)) = (open_fds k) ∖ {[ fd ]};
  close_bad k fd :
    fd ∉ open_fds k -> open_fds (snd (sys_close k fd)) = open_fds k;
  (** [dup3] onto an open descriptor makes it another name for the first *)
  dup3_fds k fd new :
    keeps_fds k (sys_dup3 k fd new) /\
    match fst (sys_dup3 k fd new) with ROk v => v = new | RErr _ => True end;
  (** the kernel says how large the records are that it knows *)
  prog_load_recs k a : 0 <= la_func_rec (fst (sys_prog_load k a)) /\
    0 <= la_line_rec (fst (sys_prog_load k a));
  (** the verifier refuses a log of more than [UINT_MAX >> 2] bytes
      outright, so it does not run out of space in one *)
  prog_load_log k a :
    UINT32_MAX / 4 < snd (pa_log a) -> la_ret (fst (sys_prog_load k a)) <> RErr ENOSPC
}.

Section load.
Context {K : Type} `{BpfSys K}.

(** * Maps *)

(** [zclose(fd)]: the result of [close], if it is called. *)
Definition zclose (k : K) (fd : Z) : sysret * K :=
  if 0 <=? fd then sys_close k fd else (ROk 0, k).

(** [bpf_map__reuse_fd(map, fd)]: the error code, the map and the system. *)
Definition bpf_map__reuse_fd (k : K) (m : bpf_map) (fd : Z) : Z * bpf_map * K :=
  match sys_obj_info k fd with
  | None => (-1, m, k)
  | Some info =>
      let '(ok, k) := sys_alloc k in
      if negb ok then (- sys_errno k, m, k) else
      match sys_open_root k with
      | (RErr e, k) => (- e, m, k)
      | (ROk new_fd, k) =>
          match sys_dup3 k fd new_fd with
          | (RErr e, k) => (- e, m, snd (sys_close k (-1)))
          | (ROk new_fd, k) =>
              match zclose k (m_fd m) with
              | (RErr e, k) => (- e, set_fd (-1) m, snd (sys_close k new_fd))
              | (ROk _, k) =>
                  (0, mk_map new_fd (in_name info) (m_sec_idx m) (m_ifindex m)
                        (inner_map_fd m)
                        (mk_def (in_type info) (in_key_size info) (in_value_size info)
                           (in_max_entries info) (in_flags info))
                        (in_btf_key info) (in_btf_value info) (libbpf_type m)
                        (pin_path m) (pinned m) true, k)
              end
          end
      end
  end.

Definition make_parent_dir (k : K) (path : string) : Z * K :=
  let '(ok, k) := sys_alloc k in
  if negb ok then (- ENOMEM, k) else
  match sys_mkdir k (dirname path) with
  | (RErr e, k) => (if negb (e =? EEXIST) then - e else 0, k)
  | (ROk _, k) => (0, k)
  end.

Definition BPF_FS_MAGIC : Z := 0xcafe4a11.

Definition check_path (k : K) (path : option string) : Z * K :=
  match path with
  | None => (- EINVAL, k)
  | Some path =>
      let '(ok, k) := sys_alloc k in
      if negb ok then (- ENOMEM, k) else
      match sys_statfs k (dirname path) with
      | RErr e => (- e, k)
      | ROk f_type => (if negb (f_type =? BPF_FS_MAGIC) then - EINVAL else 0, k)
      end
  end.

(** The part of [bpf_map__pin] after the path has been settled. *)
Definition pin_at (k : K) (m : bpf_map) (path : string) : Z * bpf_map * K :=
  let '(err, k) := make_parent_dir k path in
  if negb (err =? 0) then (err, m, k) else
  let '(err, k) := check_path k (Some path) in
  if negb (err =? 0) then (err, m, k) else
  match sys_obj_pin k (m_fd m) path with
  | (RErr e, k) => (- e, m, k)
  | (ROk _, k) => (0, set_pin (pin_path m) true m, k)
  end.

Definition bpf_map__pin (k : K) (m : option bpf_map) (path : option string)
    : Z * option bpf_map * K :=
  match m with
  | None => (- EINVAL, None, k)
  | Some m =>
      match pin_path m, path with
      | Some own, _ =>
          if match path with Some p => negb (String.eqb p own) | None => false end
          then (- EINVAL, Some m, k) else
          if pinned m then (0, Some m, k) else
          let '(err, m, k) := pin_at k m own in (err, Some m, k)
      | None, None => (- EINVAL, Some m, k)
      | None, Some path =>
          if pinned m then (- EEXIST, Some m, k) else
          let '(ok, k) := sys_alloc k in
          if negb ok then (- sys_errno k, Some m, k) else
          let '(err, m, k) := pin_at k (set_pin (Some path) (pinned m) m) path in
          (err, Some m, k)
      end
  end.

Definition bpf_map__unpin (k : K) (m : option bpf_map) (path : option string)
    : Z * option bpf_map * K :=
  match m with
  | None => (- EINVAL, None, k)
  | Some m =>
      match pin_path m, path with
      | None, None => (- EINVAL, Some m, k)
      | own, _ =>
          if match own, path with
             | Some own, Some p => negb (String.eqb p own)
             | _, _ => false
             end then (- EINVAL, Some m, k) else
          let path := match own with Some own => Some own | None => path end in
          let '(err, k) := check_path k path in
          if negb (err =? 0) then (err, Some m, k) else
          match sys_unlink k (default ""%string path) with
          | (RErr e, k) => (- e, Some m, k)
          | (ROk _, k) => (0, Some (set_pin (pin_path m) false m), k)
          end
      end
  end.

Definition map_is_reuse_compat (k : K) (m : bpf_map) (map_fd : Z) : bool :=
  match sys_obj_info k map_fd with
  | None => false
  | Some info =>
      (in_type info =? d_type (m_def m)) && (in_key_size info =? d_key_size (m_def m)) &&
      (in_value_size info =? d_value_size (m_def m)) &&
      (in_max_entries info =? d_max_entries (m_def m)) &&
      (in_flags info =? d_flags (m_def m))
  end.

(** [bpf_object__reuse_map]: called when the map has a pin path. *)
Definition bpf_object__reuse_map (k : K) (m : bpf_map) (path : string)
    : Z * bpf_map * K :=
  match sys_obj_get k path with
  | (RErr e, k) => (if - e =? - ENOENT then 0 else - e, m, k)
  | (ROk pin_fd, k) =>
      if negb (map_is_reuse_compat k m pin_fd)
      then (- EINVAL, m, snd (sys_close k pin_fd)) else
      let '(err, m, k) := bpf_map__reuse_fd k m pin_fd in
      if negb (err =? 0) then (err, m, snd (sys_close k pin_fd)) else
      (0, set_pin (pin_path m) true m, k)
  end.

(** [bpf_object__populate_internal_map]. *)
Definition bpf_object__populate_internal_map (k : K) (o : bpf_object) (m : bpf_map)
    : Z * K :=
  if bool_decide (libbpf_type m = LIBBPF_MAP_BSS) then (0, k) else
  let d := if bool_decide (libbpf_type m = LIBBPF_MAP_DATA)
           then sec_data o else sec_rodata o in
  match sys_map_update k (m_fd m) d with
  | (RErr _, k) => (-1, k)
  | (ROk _, k) =>
      if bool_decide (libbpf_type m = LIBBPF_MAP_RODATA)
      then let '(_, k) := sys_map_freeze k (m_fd m) in (0, k)
      else (0, k)
  end.

(** [bpf_map_find_btf_info] is a parameter: it looks the map up in the BTF
    of the object and gives an error code and the ids. *)
Definition btf_lookup : Type := bpf_object -> bpf_map -> Z * (Z * Z).

(** [for (j = 0; j < i; j++) zclose(obj->maps[j].fd);]. *)
Fixpoint close_maps (k : K) (ms : list bpf_map) : list bpf_map * K :=
  match ms with
  | [] => ([], k)
  | m :: ms =>
      let '(_, k) := zclose k (m_fd m) in
      let '(ms, k) := close_maps k ms in
      (set_fd (-1) m :: ms, k)
  end.

(** [create_attr] lives across the iterations: the inner descriptor once
    set stays. *)
Definition fill_attr (o : bpf_object) (m : bpf_map) (max_entries : Z) (a : map_attr)
    : map_attr :=
  mk_map_attr (if caps_name o then Some (m_name m) else ma_name a)
    (d_type (m_def m)) (d_flags (m_def m)) (d_key_size (m_def m))
    (d_value_size (m_def m)) max_entries (m_ifindex m)
    (if bpf_map_type__is_map_in_map (d_type (m_def m)) && (0 <=? inner_map_fd m)
     then inner_map_fd m else ma_inner_map_fd a)
    0 0 0.
Definition with_btf (fd key val : Z) (a : map_attr) : map_attr :=
  mk_map_attr (ma_name a) (ma_type a) (ma_flags a) (ma_key_size a) (ma_value_size a)
    (ma_max_entries a) (ma_ifindex a) (ma_inner_map_fd a) fd key val.

(** [bpf_create_map_xattr] ([bpf.c]): the name is cut to fit. *)
Definition BPF_OBJ_NAME_LEN : nat := 16.
Definition obj_name (name : option string) : option string :=
  String.substring 0 (BPF_OBJ_NAME_LEN - 1) <$> name.
Definition bpf_create_map_xattr (k : K) (a : map_attr) : sysret * K :=
  sys_map_create k
    (mk_map_attr (obj_name (ma_name a)) (ma_type a) (ma_flags a) (ma_key_size a)
       (ma_value_size a) (ma_max_entries a) (ma_ifindex a) (ma_inner_map_fd a)
       (ma_btf_fd a) (ma_btf_key a) (ma_btf_value a)).

(** The descriptor: with BTF, then without. *)
Definition create_map (k : K) (o : bpf_object) (find_btf : btf_lookup) (m : bpf_map)
    (a : map_attr) : sysret * bpf_map * map_attr * K :=
  let '(m, a) :=
    match obj_btf o with
    | Some btf_fd =>
        let '(err, (key, val)) := find_btf o m in
        if err =? 0 then (set_btf_ids key val m, with_btf btf_fd key val a) else (m, a)
    | None => (m, a)
    end in
  let '(r, k) := bpf_create_map_xattr k a in
  match r with
  | ROk fd => (ROk fd, set_fd fd m, a, k)
  | RErr e =>
      if negb (ma_btf_key a =? 0) || negb (ma_btf_value a =? 0) then
        let a := with_btf 0 0 0 a in
        let m := set_btf_ids 0 0 m in
        let '(r, k) := bpf_create_map_xattr k a in
        (r, set_fd (match r with ROk fd => fd | RErr _ => -1 end) m, a, k)
      else (RErr e, set_fd (-1) m, a, k)
  end.

(** One iteration: go on with the map, the attributes and the number of
    CPUs; or stop with an error, after closing the maps before ([err_out])
    or not. *)
Inductive create_result :=
| CreateNext (m : bpf_map) (a : map_attr) (nr_cpus : Z)
| CreateErr (m : bpf_map) (err : Z) (close_all : bool).

Definition create_one (k : K) (o : bpf_object) (find_btf : btf_lookup) (m : bpf_map)
    (a : map_attr) (nr_cpus : Z) : create_result * K :=
  let '(err, m, k) :=
    match pin_path m with
    | Some path => bpf_object__reuse_map k m path
    | None => (0, m, k)
    end in
  if negb (err =? 0) then (CreateErr m err false, k) else
  if 0 <=? m_fd m then (CreateNext m a nr_cpus, k) else
  let def := m_def m in
  let percpu := (d_type def =? BPF_MAP_TYPE_PERF_EVENT_ARRAY) && (d_max_entries def =? 0) in
  let nr_cpus := if percpu && (nr_cpus =? 0) then num_possible_cpus k else nr_cpus in
  if percpu && (nr_cpus <? 0) then (CreateErr m nr_cpus true, k) else
  let a := fill_attr o m (if percpu then nr_cpus else d_max_entries def) a in
  let '(r, m, a, k) := create_map k o find_btf m a in
  match r with
  | RErr e => (CreateErr m (- e) true, k)
  | ROk fd =>
      let '(err, k) :=
        if bpf_map__is_internal m then bpf_object__populate_internal_map k o m else (0, k) in
      if err <? 0 then
        let '(_, k) := zclose k (m_fd m) in (CreateErr (set_fd (-1) m) err true, k)
      else
      match pin_path m with
      | Some _ =>
          if negb (pinned m) then
            let '(err, m', k) := bpf_map__pin k (Some m) None in
            if negb (err =? 0) then (CreateErr (default m m') err false, k)
            else (CreateNext (default m m') a nr_cpus, k)
          else (CreateNext m a nr_cpus, k)
      | None => (CreateNext m a nr_cpus, k)
      end
  end.

(** The loop: [done] are the maps before, in order. *)
Fixpoint create_loop (k : K) (o : bpf_object) (find_btf : btf_lookup)
    (done todo : list bpf_map) (a : map_attr) (nr_cpus : Z)
    : Z * list bpf_map * K :=
  match todo with
  | [] => (0, done, k)
  | m :: todo =>
      match create_one k o find_btf m a nr_cpus with
      | (CreateNext m a nr_cpus, k) =>
          create_loop k o find_btf (done ++ [m]) todo a nr_cpus
      | (CreateErr m err true, k) =>
          let '(done, k) := close_maps k done in (err, done ++ m :: todo, k)
      | (CreateErr m err false, k) => (err, done ++ m :: todo, k)
      end
  end.

Definition empty_attr : map_attr := mk_map_attr None 0 0 0 0 0 0 0 0 0 0.

Definition bpf_object__create_maps (k : K) (o : bpf_object) (find_btf : btf_lookup)
    : Z * bpf_object * K :=
  let '(err, ms, k) := create_loop k o find_btf [] (maps o) empty_attr 0 in
  (err, set_maps ms o, k).

(** * Relocation *)

(** What CO-RE and BTF.ext do to an object is a parameter. *)
Record btf_ext_ops := mk_btf_ext {
  relocate_core : bpf_object -> Z * bpf_object;
  reloc_btf_ext : bpf_object -> Z -> string -> Z -> Z * bpf_object
}.

Definition BPF_PSEUDO_MAP_FD : Z := 1.
Definition BPF_PSEUDO_MAP_VALUE : Z := 2.

Definition set_src (src : Z) (i : bpf_insn) : bpf_insn :=
  mk_insn (i_code i) (i_dst i) src (i_off i) (i_imm i).
Definition set_imm (imm : Z) (i : bpf_insn) : bpf_insn :=
  mk_insn (i_code i) (i_dst i) (i_src i) (i_off i) imm.

(** The [LD64] and [DATA] cases of [bpf_program__relocate]. *)
Definition reloc_map (o : bpf_object) (insns : list bpf_insn) (r : reloc_desc)
    : res (option (list bpf_insn)) :=
  let insn_idx := rel_insn_idx r in
  if zlen insns <=? insn_idx + 1 then Ok None else
  insn ← aget insns insn_idx;
  insns ←
    (if bool_decide (rel_type r = RELO_DATA) then
       insns ← aset insns insn_idx (set_src BPF_PSEUDO_MAP_VALUE insn);
       next ← aget insns (insn_idx + 1);
       aset insns (insn_idx + 1) (set_imm (i_imm insn) next)
     else aset insns insn_idx (set_src BPF_PSEUDO_MAP_FD insn));
  insn ← aget insns insn_idx;
  m ← aget (maps o) (rel_idx r);
  insns ← aset insns insn_idx (set_imm (m_fd m) insn);
  Ok (Some insns).

(** [bpf_program__reloc_text(prog, obj, relo)], [i] the place of [prog]. *)
Definition bpf_program__reloc_text (ops : btf_ext_ops) (k : K) (o : bpf_object) (i : Z)
    (r : reloc_desc) : res (Z * bpf_object * K) :=
  if negb (bool_decide (rel_type r = RELO_CALL))
  then Ok (- LIBBPF_ERRNO__RELOC, o, k) else
  prog ← aget (programs o) i;
  if p_idx prog =? text_shndx o then Ok (- LIBBPF_ERRNO__RELOC, o, k) else
  '(err, o, k) ←
    (if main_prog_cnt prog =? 0 then
       match bpf_object__find_prog_by_idx o (text_shndx o) with
       | None => Ok (- LIBBPF_ERRNO__RELOC, o, k)
       | Some text =>
           let '(ok, k) := sys_alloc k in
           if negb ok then Ok (- ENOMEM, o, k) else
           let cnt := zlen (default [] (p_insns prog)) in
           let '(err, o) :=
             if obj_btf_ext o then reloc_btf_ext ops o i (section_name text) cnt
             else (0, o) in
           if negb (err =? 0) then Ok (err, o, k) else
           Ok (0, set_prog (fun p =>
                  set_code (Some (default [] (p_insns p) ++ default [] (p_insns text)))
                    cnt (p_relocs p) p) i o, k)
       end
     else Ok (0, o, k));
  if negb (err =? 0) then Ok (err, o, k) else
  prog ← aget (programs o) i;
  insns ← or_fault NullDeref (p_insns prog);
  insn ← aget insns (rel_insn_idx r);
  insns ← aset insns (rel_insn_idx r)
            (set_imm (s32 (i_imm insn + main_prog_cnt prog - rel_insn_idx r)) insn);
  Ok (0, set_prog (fun p => set_code (Some insns) (main_prog_cnt p) (p_relocs p) p) i o, k).

Fixpoint reloc_loop (ops : btf_ext_ops) (k : K) (o : bpf_object) (i : Z)
    (rs : list reloc_desc) : res (Z * bpf_object * K) :=
  match rs with
  | [] => Ok (0, o, k)
  | r :: rs =>
      if bool_decide (rel_type r = RELO_CALL) then
        '(err, o, k) ← bpf_program__reloc_text ops k o i r;
        if negb (err =? 0) then Ok (err, o, k) else reloc_loop ops k o i rs
      else if bool_decide (rel_type r = RELO_JUNK) then reloc_loop ops k o i rs
      else
        prog ← aget (programs o) i;
        insns ← reloc_map o (default [] (p_insns prog)) r;
        match insns with
        | None => Ok (- LIBBPF_ERRNO__RELOC, o, k)
        | Some insns =>
            reloc_loop ops k
              (set_prog (fun p => set_code (Some insns) (main_prog_cnt p) (p_relocs p) p) i o)
              i rs
        end
  end.

Definition bpf_program__relocate (ops : btf_ext_ops) (k : K) (o : bpf_object) (i : Z)
    : res (Z * bpf_object * K) :=
  prog ← aget (programs o) i;
  let '(err, o) :=
    if obj_btf_ext o then reloc_btf_ext ops o i (section_name prog) 0 else (0, o) in
  if negb (err =? 0) then Ok (err, o, k) else
  prog ← aget (programs o) i;
  match p_relocs prog with
  | None => Ok (0, o, k)
  | Some rs =>
      '(err, o, k) ← reloc_loop ops k o i rs;
      if negb (err =? 0) then Ok (err, o, k) else
      Ok (0, set_prog (fun p => set_code (p_insns p) (main_prog_cnt p) None p) i o, k)
  end.

Fixpoint relocate_loop (ops : btf_ext_ops) (k : K) (o : bpf_object) (ixs : list Z)
    : res (Z * bpf_object * K) :=
  match ixs with
  | [] => Ok (0, o, k)
  | i :: ixs =>
      '(err, o, k) ← bpf_program__relocate ops k o i;
      if negb (err =? 0) then Ok (err, o, k) else relocate_loop ops k o ixs
  end.
Definition bpf_object__relocate (ops : btf_ext_ops) (k : K) (o : bpf_object)
    : res (Z * bpf_object * K) :=
  let '(err, o) := if obj_btf_ext o then relocate_core ops o else (0, o) in
  if negb (err =? 0) then Ok (err, o, k) else
  relocate_loop ops k o (seqZ 0 (zlen (programs o))).

(** * Programs *)

(** [alloc_zero_tailing_info]: each of [cnt] records of [actual] bytes with
    what follows its first [expected] bytes cleared. *)
Fixpoint zero_tails (records : list byte) (cnt : nat) (actual expected : Z)
    : res (list byte) :=
  match cnt with
  | O => Ok []
  | S cnt =>
      r ← mread records 0 actual;
      r ← mwrite r expected (replicate (Z.to_nat (actual - expected)) Byte.x00);
      rest ← zero_tails (drop (Z.to_nat actual) records) cnt actual expected;
      Ok (r ++ rest)
  end.
Definition alloc_zero_tailing_info (k : K) (records : list byte) (cnt actual expected : Z)
    : res (option (list byte) * K) :=
  let '(ok, k) := sys_alloc k in
  if negb ok then Ok (None, k) else
  info ← zero_tails records (Z.to_nat cnt) actual expected;
  Ok (Some info, k).

Definition set_func_info (info : list byte) (rec : Z) (a : prog_attr) : prog_attr :=
  mk_prog_attr (pa_type a) (pa_expected a) (pa_attach_btf_id a) (pa_ifindex a) (pa_name a)
    (pa_insns a) (pa_license a) (pa_kern_version a) (pa_btf_fd a) info rec (pa_func_cnt a)
    (pa_line_info a) (pa_line_rec a) (pa_line_cnt a) (pa_log a) (pa_flags a).
Definition set_line_info (info : list byte) (rec : Z) (a : prog_attr) : prog_attr :=
  mk_prog_attr (pa_type a) (pa_expected a) (pa_attach_btf_id a) (pa_ifindex a) (pa_name a)
    (pa_insns a) (pa_license a) (pa_kern_version a) (pa_btf_fd a) (pa_func_info a)
    (pa_func_rec a) (pa_func_cnt a) info rec (pa_line_cnt a) (pa_log a) (pa_flags a).
Definition set_pa_log (log : Z * Z) (a : prog_attr) : prog_attr :=
  mk_prog_attr (pa_type a) (pa_expected a) (pa_attach_btf_id a) (pa_ifindex a) (pa_name a)
    (pa_insns a) (pa_license a) (pa_kern_version a) (pa_btf_fd a) (pa_func_info a)
    (pa_func_rec a) (pa_func_cnt a) (pa_line_info a) (pa_line_rec a) (pa_line_cnt a)
    log (pa_flags a).
Definition set_pa_type (type expected : Z) (a : prog_attr) : prog_attr :=
  mk_prog_attr type expected (pa_attach_btf_id a) (pa_ifindex a) (pa_name a)
    (pa_insns a) (pa_license a) (pa_kern_version a) (pa_btf_fd a) (pa_func_info a)
    (pa_func_rec a) (pa_func_cnt a) (pa_line_info a) (pa_line_rec a) (pa_line_cnt a)
    (pa_log a) (pa_flags a).

(** The retries with corrected records: [load] is the caller's attribute,
    [a] the one handed to the kernel, in which it has left the record sizes
    it knows; [finfo] and [linfo] tell what has been corrected. Two rounds
    are all there can be. [None] stands for "goto done". *)
Fixpoint fix_records (fuel : nat) (k : K) (load a : prog_attr) (ans : load_answer)
    (finfo linfo : bool) : res (bool * prog_attr * load_answer * K) :=
  match fuel with
  | O => Err OutOfFuel
  | S fuel =>
      match la_ret ans with
      | ROk _ => Ok (true, a, ans, k)
      | RErr e =>
          if (e =? E2BIG) && (negb finfo || negb linfo) then
            if negb finfo && negb (pa_func_cnt a =? 0) && (pa_func_rec a <? pa_func_rec load)
            then
              '(info, k) ← alloc_zero_tailing_info k (pa_func_info load) (pa_func_cnt load)
                             (pa_func_rec load) (pa_func_rec a);
              match info with
              | None => Ok (true, a, mk_answer (RErr (sys_errno k)) 0 0 false, k)
              | Some info =>
                  let a := set_func_info info (pa_func_rec load) a in
                  let '(ans, k) := sys_prog_load k a in
                  let a := set_line_info (pa_line_info a) (la_line_rec ans)
                             (set_func_info (pa_func_info a) (la_func_rec ans) a) in
                  fix_records fuel k load a ans true linfo
              end
            else if negb linfo && negb (pa_line_cnt a =? 0) && (pa_line_rec a <? pa_line_rec load)
            then
              '(info, k) ← alloc_zero_tailing_info k (pa_line_info load) (pa_line_cnt load)
                             (pa_line_rec load) (pa_line_rec a);
              match info with
              | None => Ok (true, a, mk_answer (RErr (sys_errno k)) 0 0 false, k)
              | Some info =>
                  let a := set_line_info info (pa_line_rec load) a in
                  let '(ans, k) := sys_prog_load k a in
                  let a := set_line_info (pa_line_info a) (la_line_rec ans)
                             (set_func_info (pa_func_info a) (la_func_rec ans) a) in
                  fix_records fuel k load a ans finfo true
              end
            else Ok (false, a, ans, k)
          else Ok (false, a, ans, k)
      end
  end.

(** [bpf_load_program_xattr(load_attr, log_buf, log_buf_sz)]: the result,
    and whether the log buffer then holds a text. A refusal of the
    arguments leaves [errno] as it was. *)
Definition bpf_load_program_xattr (k : K) (load : prog_attr) (log_buf : bool)
    (log_buf_sz : Z) : res (sysret * bool * K) :=
  let garbage := sys_garbage k in
  if negb (eqb (negb log_buf) (log_buf_sz =? 0)) then Ok (RErr (sys_errno k), garbage, k) else
  let log_level := u32 (fst (pa_log load)) in
  if (7 <? log_level) || (negb (log_level =? 0) && negb log_buf)
  then Ok (RErr (sys_errno k), garbage, k) else
  let a := mk_prog_attr (pa_type load) (pa_expected load)
             (if pa_type load =? BPF_PROG_TYPE_TRACING then pa_attach_btf_id load else 0)
             (if pa_type load =? BPF_PROG_TYPE_TRACING then 0 else pa_ifindex load)
             (obj_name (pa_name load)) (pa_insns load) (pa_license load)
             (pa_kern_version load) (pa_btf_fd load) (pa_func_info load) (pa_func_rec load)
             (pa_func_cnt load) (pa_line_info load) (pa_line_rec load) (pa_line_cnt load)
             (if negb (log_level =? 0) then (log_level, log_buf_sz) else (0, 0))
             (pa_flags load) in
  let '(ans, k) := sys_prog_load k a in
  match la_ret ans with
  | ROk fd => Ok (ROk fd, la_log_written ans || garbage, k)
  | RErr _ =>
      let a := set_line_info (pa_line_info a) (la_line_rec ans)
                 (set_func_info (pa_func_info a) (la_func_rec ans) a) in
      '(done, a, ans, k) ← fix_records 3 k load a ans false false;
      if (done : bool) then Ok (la_ret ans, garbage, k) else
      if negb (log_level =? 0) || negb log_buf
      then Ok (la_ret ans, la_log_written ans || garbage, k) else
      let '(ans, k) := sys_prog_load k (set_pa_log (1, log_buf_sz) a) in
      Ok (la_ret ans, la_log_written ans, k)
  end.

Definition BPF_LOG_BUF_SIZE : Z := UINT32_MAX / 256.
Definition BPF_MAXINSNS : Z := 4096.

(** [load_program] from [retry_load] on: the result and the descriptor.
    The buffer doubles at every retry. *)
Fixpoint load_retry (fuel : nat) (k : K) (a : prog_attr) (log_buf_size : Z)
    : res (Z * option Z * K) :=
  match fuel with
  | O => Err OutOfFuel
  | S fuel =>
      let '(log_buf, k) := sys_alloc k in
      '(r, text, k) ← bpf_load_program_xattr k a log_buf log_buf_size;
      match r with
      | ROk fd => Ok (0, Some fd, k)
      | RErr e =>
          if e =? ENOSPC then load_retry fuel k a (s32 (log_buf_size * 2)) else
          if log_buf && text then Ok (- LIBBPF_ERRNO__VERIFY, None, k) else
          if BPF_MAXINSNS <=? zlen (pa_insns a)
          then Ok (- LIBBPF_ERRNO__PROG2BIG, None, k) else
          if negb (pa_type a =? BPF_PROG_TYPE_KPROBE) then
            '(r, _, k) ← bpf_load_program_xattr k
                           (set_pa_type BPF_PROG_TYPE_KPROBE 0 a) false 0;
            match r with
            | ROk fd => Ok (- LIBBPF_ERRNO__PROGTYPE, None, snd (sys_close k fd))
            | RErr _ => Ok (- e, None, k)
            end
          else Ok (- e, None, k)
      end
  end.

(** Doublings from [BPF_LOG_BUF_SIZE] until no log of that size exists. *)
Definition LOAD_FUEL : nat := 9.

Definition load_program (k : K) (o : bpf_object) (p : bpf_program)
    : res (Z * option Z * K) :=
  match p_insns p with
  | None | Some [] => Ok (- EINVAL, None, k)
  | Some insns =>
      let btf_fd := if obj_btf_ext o then default (-1) (obj_btf o) else -1 in
      load_retry LOAD_FUEL k
        (mk_prog_attr (p_type p) (expected_attach_type p) (attach_btf_id p) (p_ifindex p)
           (if caps_name o then p_name p else None) insns (license o) (kern_version o)
           (if 0 <=? btf_fd then btf_fd else 0)
           (func_info p) (func_info_rec_size p) (func_info_cnt p)
           (line_info p) (line_info_rec_size p) (line_info_cnt p)
           (p_log_level p, 0) (prog_flags p))
        BPF_LOG_BUF_SIZE
  end.

(** [bpf_program__load]: the error code and the program. *)
Definition bpf_program__load (k : K) (o : bpf_object) (p : bpf_program)
    : res (Z * bpf_program * K) :=
  let '(ok, p, k) :=
    match p_instances p with
    | Some _ => (true, p, k)
    | None =>
        let '(ok, k) := sys_alloc k in
        (ok, if ok then set_instances (Some [-1]) p else p, k)
    end in
  if negb ok then Ok (- ENOMEM, p, k) else
  '(err, fd, k) ← load_program k o p;
  let p := match fd with
           | Some fd => set_instances ((fun l => <[O := fd]> l) <$> p_instances p) p
           | None => p
           end in
  Ok (err, set_code None (main_prog_cnt p) (p_relocs p) p, k).

Fixpoint load_progs_loop (k : K) (o : bpf_object) (log_level : Z) (ixs : list Z)
    : res (Z * bpf_object * K) :=
  match ixs with
  | [] => Ok (0, o, k)
  | i :: ixs =>
      p ← aget (programs o) i;
      if bpf_program__is_function_storage p o then load_progs_loop k o log_level ixs else
      let p := set_log (Z.lor (p_log_level p) log_level) (prog_flags p) p in
      '(err, p, k) ← bpf_program__load k o p;
      let o := set_prog (fun _ => p) i o in
      if negb (err =? 0) then Ok (err, o, k) else load_progs_loop k o log_level ixs
  end.
Definition bpf_object__load_progs (k : K) (o : bpf_object) (log_level : Z)
    : res (Z * bpf_object * K) :=
  load_progs_loop k o log_level (seqZ 0 (zlen (programs o))).

(** * Unloading, and the whole load *)

Fixpoint close_list (k : K) (fds : list Z) : K :=
  match fds with
  | [] => k
  | fd :: fds => close_list (snd (zclose k fd)) fds
  end.
Definition bpf_program__unload (k : K) (p : bpf_program) : bpf_program * K :=
  (set_instances None p, close_list k (default [] (p_instances p))).

Fixpoint unload_progs (k : K) (ps : list bpf_program) : list bpf_program * K :=
  match ps with
  | [] => ([], k)
  | p :: ps =>
      let '(p, k) := bpf_program__unload k p in
      let '(ps, k) := unload_progs k ps in
      (p :: ps, k)
  end.

Definition bpf_object__unload (k : K) (o : bpf_object) : bpf_object * K :=
  let '(ms, k) := close_maps k (maps o) in
  let '(ps, k) := unload_progs k (programs o) in
  (set_programs ps (set_maps ms o), k).

(** "unpin any maps that were auto-pinned during load". *)
Fixpoint unpin_maps (k : K) (ms : list bpf_map) : list bpf_map * K :=
  match ms with
  | [] => ([], k)
  | m :: ms =>
      let '(m, k) :=
        if pinned m && negb (reused m)
        then let '(_, m', k) := bpf_map__unpin k (Some m) None in (default m m', k)
        else (m, k) in
      let '(ms, k) := unpin_maps k ms in
      (m :: ms, k)
  end.

(** [bpf_object__load_xattr] on an object ([attr->obj]). *)
Definition bpf_object__load_xattr (find_btf : btf_lookup) (ops : btf_ext_ops)
    (k : K) (o : bpf_object) (log_level : Z) : res (Z * bpf_object * K) :=
  if loaded o then Ok (- EINVAL, o, k) else
  let o := set_loaded o in
  let '(err, o, k) := bpf_object__create_maps k o find_btf in
  '(err, o, k) ←
    (if negb (err =? 0) then Ok (err, o, k) else
     '(err, o, k) ← bpf_object__relocate ops k o;
     if negb (err =? 0) then Ok (err, o, k) else bpf_object__load_progs k o log_level);
  if err =? 0 then Ok (0, o, k) else
  let '(ms, k) := unpin_maps k (maps o) in
  let '(o, k) := bpf_object__unload k (set_maps ms o) in
  Ok (err, o, k).

Definition bpf_object__load (find_btf : btf_lookup) (ops : btf_ext_ops) (k : K)
    (o : bpf_object) : res (Z * bpf_object * K) :=
  bpf_object__load_xattr find_btf ops k o 0.

(** [bpf_object__close]: what it does to the system. The ELF file is closed
    by then; [btf__free] closes the descriptor of the BTF, if it has one. *)
Definition bpf_object__close (k : K) (o : bpf_object) : K :=
  let '(o, k) := bpf_object__unload k o in
  match obj_btf o with
  | Some fd => if negb (fd =? -1) then snd (sys_close k fd) else k
  | None => k
  end.
End load.
