(* ===== verification/LibbpfRes.v ===== *)
(** Which descriptors an object of libbpf owns, and what each step of
    loading and unloading does to them. *)
From S2P Require Import Prelude CLib LibbpfObj LibbpfLoad.
#[local] Open Scope Z_scope.

(** Arithmetic on error codes. *)
Ltac errno_lia :=
  unfold ENOENT, ESRCH, E2BIG, ENOMEM, EBUSY, EEXIST, EINVAL, ENOSPC, ENAMETOOLONG,
    LIBBPF_ERRNO__INTERNAL, LIBBPF_ERRNO__RELOC, LIBBPF_ERRNO__VERIFY,
    LIBBPF_ERRNO__PROG2BIG, LIBBPF_ERRNO__PROGTYPE in *; lia.

Section owns.
Context {K : Type} `{BpfSysLaws K}.
Implicit Types (k : K) (base : gset Z) (l : list Z).

(** The descriptors in a list of fields; -1 is none. *)
Definition live (l : list Z) : list Z := filter (fun fd => 0 <= fd) l.

(** Of the open descriptors, [base] and, apart from these and each once,
    those in the fields [l]. *)
Definition owns base k l : Prop :=
  NoDup (live l) /\ open_fds k = base ∪ list_to_set (live l) /\
  base ## list_to_set (live l).

#[export] Instance live_Permutation : Proper (Permutation ==> Permutation) live.
Proof. intros l l' Hl. unfold live. rewrite Hl. reflexivity. Qed.

#[export] Instance owns_Permutation base k : Proper (Permutation ==> iff) (owns base k).
Proof.
  intros l l' Hl. unfold owns.
  assert ((list_to_set (live l) : gset Z) = list_to_set (live l')) as ->.
  { apply set_eq. intros x. rewrite !elem_of_list_to_set, Hl. reflexivity. }
  rewrite Hl. reflexivity.
Qed.

Lemma live_cons fd l : live (fd :: l) = if decide (0 <= fd) then fd :: live l else live l.
Proof. unfold live. rewrite filter_cons. reflexivity. Qed.

Lemma owns_neg base k fd l : fd < 0 -> owns base k (fd :: l) <-> owns base k l.
Proof. intros Hfd. unfold owns. rewrite live_cons, decide_False by lia. reflexivity. Qed.

Lemma owns_none base k l' l :
  Forall (fun fd => fd < 0) l' -> owns base k l -> owns base k (l' ++ l).
Proof. induction 1 as [|fd l' Hfd _ IH]; [auto|]. intros Ho. apply owns_neg; auto. Qed.

Lemma owns_keep base k k' l : open_fds k' = open_fds k -> owns base k l -> owns base k' l.
Proof. intros E (?&?&?). unfold owns. rewrite E. auto. Qed.

Lemma owns_give base k k' fd l :
  gives_fd k (ROk fd, k') -> owns base k l -> 0 <= fd /\ owns base k' (fd :: l).
Proof.
  unfold gives_fd, owns. cbn [fst snd]. intros (Hfd & Hnew & E) (Hnd & Ho & Hd).
  split; [exact Hfd|]. rewrite live_cons, decide_True by exact Hfd.
  rewrite Ho in Hnew. rewrite E, Ho. split; [|split].
  - constructor; [|exact Hnd]. intros Hin. apply Hnew. set_solver.
  - set_solver.
  - set_solver.
Qed.

(** A descriptor somebody else has. *)
Lemma owns_foreign base k k' fd l :
  gives_fd k (ROk fd, k') -> owns base k l ->
  owns (base ∪ {[ fd ]}) k' l /\ (fd ∉ base).
Proof.
  unfold gives_fd, owns. cbn [fst snd]. intros (_ & Hnew & E) (Hnd & Ho & Hd).
  rewrite Ho in Hnew. rewrite E, Ho. split; [|set_solver]. split; [exact Hnd|]. set_solver.
Qed.

Lemma owns_close base k fd l :
  owns base k (fd :: l) ->
  fst (zclose k fd) = ROk 0 /\ owns base (snd (zclose k fd)) l.
Proof.
  intros Ho. unfold zclose. destruct (Z.leb_spec 0 fd) as [Hfd|Hfd].
  2:{ apply owns_neg in Ho; [auto | lia]. }
  unfold owns in Ho. rewrite live_cons, decide_True in Ho by exact Hfd.
  destruct Ho as (Hnd & Ho & Hd). apply NoDup_cons in Hnd as [Hni Hnd].
  destruct (close_fds k fd) as [-> E]; [set_solver|]. split; [reflexivity|].
  unfold owns. rewrite E, Ho. split; [exact Hnd|]. split; [|set_solver].
  apply set_eq. intros x. rewrite list_to_set_cons.
  rewrite elem_of_difference, !elem_of_union, elem_of_list_to_set, elem_of_singleton.
  split; [tauto|]. intros [Hx|Hx]; split; try tauto; intros ->; [set_solver|].
  apply Hni. exact Hx.
Qed.

(** Each map's descriptor. *)
Definition map_fds (ms : list bpf_map) : list Z := m_fd <$> ms.
Definition prog_fds (ps : list bpf_program) : list Z :=
  mjoin ((fun p => default [] (p_instances p)) <$> ps).

Lemma map_fds_app ms ms' : map_fds (ms ++ ms') = map_fds ms ++ map_fds ms'.
Proof. apply fmap_app. Qed.

Lemma prog_fds_cons p ps : prog_fds (p :: ps) = default [] (p_instances p) ++ prog_fds ps.
Proof. reflexivity. Qed.

Lemma close_maps_spec base ms : forall k l,
  owns base k (map_fds ms ++ l) ->
  fst (close_maps k ms) = set_fd (-1) <$> ms /\ owns base (snd (close_maps k ms)) l.
Proof.
  induction ms as [|m ms IH]; intros k l Ho; [split; [reflexivity | exact Ho]|].
  cbn [close_maps]. change (map_fds (m :: ms) ++ l) with (m_fd m :: (map_fds ms ++ l)) in Ho.
  apply owns_close in Ho as [_ Ho]. destruct (zclose k (m_fd m)) as [r k1].
  cbn [snd] in Ho. specialize (IH k1 l Ho) as [IH1 IH2].
  destruct (close_maps k1 ms) as [ms' k2]. cbn [fst snd] in *. rewrite IH1. auto.
Qed.

Lemma close_list_spec base fds : forall k l,
  owns base k (fds ++ l) -> owns base (close_list k fds) l.
Proof.
  induction fds as [|fd fds IH]; intros k l Ho; [exact Ho|].
  cbn [close_list app] in *. apply IH, (owns_close base k fd), Ho.
Qed.

Lemma unload_progs_spec base ps : forall k l,
  owns base k (prog_fds ps ++ l) ->
  fst (unload_progs k ps) = set_instances None <$> ps /\
  owns base (snd (unload_progs k ps)) l.
Proof.
  induction ps as [|p ps IH]; intros k l Ho; [split; [reflexivity | exact Ho]|].
  cbn [unload_progs bpf_program__unload]. rewrite prog_fds_cons, <- app_assoc in Ho.
  apply close_list_spec in Ho. specialize (IH _ l Ho) as [IH1 IH2].
  destruct (unload_progs _ ps) as [ps' k2]. cbn [fst snd] in *. rewrite IH1. auto.
Qed.

Definition obj_fds (o : bpf_object) : list Z := map_fds (maps o) ++ prog_fds (programs o).

Lemma live_closed_maps ms : live (map_fds (set_fd (-1) <$> ms)) = [].
Proof. induction ms as [|m ms IH]; [reflexivity | exact IH]. Qed.

Lemma live_closed_progs ps : live (prog_fds (set_instances None <$> ps)) = [].
Proof. induction ps as [|p ps IH]; [reflexivity | exact IH]. Qed.

(** Unloading closes everything the object owns. *)
Lemma unload_spec base k o l :
  owns base k (obj_fds o ++ l) ->
  owns base (snd (bpf_object__unload k o)) l /\
  live (obj_fds (fst (bpf_object__unload k o))) = [].
Proof.
  intros Ho. unfold bpf_object__unload, obj_fds in *. rewrite <- app_assoc in Ho.
  destruct (close_maps_spec base (maps o) k _ Ho) as [Hm Ho1].
  destruct (close_maps k (maps o)) as [ms k1]. cbn [fst snd] in *.
  destruct (unload_progs_spec base (programs o) k1 l Ho1) as [Hp Ho2].
  destruct (unload_progs k1 (programs o)) as [ps k2]. cbn [fst snd maps programs set_programs
    set_maps] in *. split; [exact Ho2|]. subst ms ps. unfold live. rewrite filter_app.
  fold (live (map_fds (set_fd (-1) <$> maps o))).
  fold (live (prog_fds (set_instances None <$> programs o))).
  rewrite live_closed_maps, live_closed_progs. reflexivity.
Qed.

Lemma unload_btf k o : obj_btf (fst (bpf_object__unload k o)) = obj_btf o.
Proof.
  unfold bpf_object__unload. destruct (close_maps k (maps o)) as [ms k1].
  destruct (unload_progs k1 (programs o)). reflexivity.
Qed.

(** The descriptor of the BTF, which stays open as long as the object. *)
Definition btf_fds (o : bpf_object) : list Z :=
  match obj_btf o with Some fd => [fd] | None => [] end.

(** Closing an object closes all it owns. *)
Lemma close_spec base k o l :
  owns base k (obj_fds o ++ btf_fds o ++ l) -> Forall (fun fd => -1 <= fd) (btf_fds o) ->
  owns base (bpf_object__close k o) l.
Proof.
  intros Ho Hb. destruct (unload_spec base k o _ Ho) as [Ho1 _].
  unfold bpf_object__close. pose proof (unload_btf k o) as Hu.
  destruct (bpf_object__unload k o) as [o1 k1]. cbn [fst snd] in *. rewrite Hu.
  unfold btf_fds in Ho1, Hb. destruct (obj_btf o) as [fd|]; [|exact Ho1].
  apply Forall_cons in Hb as [Hb _]. destruct (Z.eqb_spec fd (-1)) as [->|Hne]; cbn [negb].
  - apply owns_neg in Ho1; [exact Ho1 | lia].
  - apply owns_close in Ho1 as [_ Ho1]. unfold zclose in Ho1.
    replace (0 <=? fd) with true in Ho1 by lia. exact Ho1.
Qed.

(** * Creating maps *)

Lemma alloc_owns base k l : owns base k l -> owns base (snd (sys_alloc k)) l.
Proof. apply owns_keep, alloc_fds. Qed.

Lemma bpf_create_map_owns base k a l :
  owns base k l ->
  match bpf_create_map_xattr k a with
  | (ROk fd, k') => 0 <= fd /\ owns base k' (fd :: l)
  | (RErr e, k') => 0 < e /\ owns base k' l
  end.
Proof.
  intros Ho. unfold bpf_create_map_xattr.
  match goal with |- context [sys_map_create k ?a] => pose proof (map_create_fds k a) as Hg;
    destruct (sys_map_create k a) as [[fd|e] k'] end.
  - apply (owns_give base k); assumption.
  - destruct Hg as [He Hg]. split; [exact He|]. eapply owns_keep; eassumption.
Qed.

(** Fields of a map that creating it does not change. *)
Definition same_map (m m' : bpf_map) : Prop :=
  pin_path m' = pin_path m /\ m_name m' = m_name m /\ m_def m' = m_def m /\
  m_ifindex m' = m_ifindex m /\ libbpf_type m' = libbpf_type m.

Lemma create_map_owns base k o find_btf m a l :
  owns base k l ->
  let '(r, m', a', k') := create_map k o find_btf m a in
  same_map m m' /\
  match r with
  | ROk fd => m_fd m' = fd /\ 0 <= fd /\ owns base k' (fd :: l)
  | RErr e => m_fd m' = -1 /\ 0 < e /\ owns base k' l
  end.
Proof.
  intros Ho. unfold create_map.
  assert (exists m1 a1, (match obj_btf o with
    | Some btf_fd => let '(err, (key, val)) := find_btf o m in
        if err =? 0 then (set_btf_ids key val m, with_btf btf_fd key val a) else (m, a)
    | None => (m, a) end) = (m1, a1) /\ same_map m m1) as (m1 & a1 & -> & Hm1).
  { unfold same_map. destruct (obj_btf o) as [fd|]; [|eauto 10].
    destruct (find_btf o m) as [err [key val]]. destruct (err =? 0); eauto 10. }
  pose proof (bpf_create_map_owns base k a1 l Ho) as Hc.
  destruct (bpf_create_map_xattr k a1) as [[fd|e] k1].
  - split; [exact Hm1 | auto].
  - destruct (negb (ma_btf_key a1 =? 0) || negb (ma_btf_value a1 =? 0)); [|auto].
    destruct Hc as [_ Hc]. pose proof (bpf_create_map_owns base k1 (with_btf 0 0 0 a1) l Hc) as Hc2.
    destruct (bpf_create_map_xattr k1 _) as [[fd|e2] k2]; auto.
Qed.

Lemma populate_owns base k o m l :
  owns base k l ->
  let '(err, k') := bpf_object__populate_internal_map k o m in owns base k' l.
Proof.
  intros Ho. unfold bpf_object__populate_internal_map.
  destruct (bool_decide (libbpf_type m = LIBBPF_MAP_BSS)); [exact Ho|].
  match goal with |- context [sys_map_update k ?fd ?d] =>
    pose proof (map_update_fds k fd d) as [Hu _]; destruct (sys_map_update k fd d) as [[v|e] k1] end;
    cbn [snd] in Hu; pose proof (owns_keep base k k1 l Hu Ho) as Ho1; [|exact Ho1].
  destruct (bool_decide _); [|exact Ho1].
  pose proof (map_freeze_fds k1 (m_fd m)) as [Hf _].
  destruct (sys_map_freeze k1 (m_fd m)) as [r k2]. apply (owns_keep base k1); assumption.
Qed.

(** One map that is not pinned: it has a descriptor afterwards, or the
    error is negative. *)
Lemma create_one_owns base k o find_btf m a n l :
  pin_path m = None -> owns base k (m_fd m :: l) ->
  match create_one k o find_btf m a n with
  | (CreateNext m' a' n', k') =>
      same_map m m' /\ 0 <= m_fd m' /\ owns base k' (m_fd m' :: l)
  | (CreateErr m' err _, k') =>
      same_map m m' /\ err < 0 /\ owns base k' (m_fd m' :: l)
  end.
Proof.
  intros Hp Ho. unfold create_one. rewrite Hp. cbn [Z.eqb negb].
  destruct (Z.leb_spec 0 (m_fd m)) as [Hfd|Hfd].
  { unfold same_map. auto 10. }
  apply owns_neg in Ho; [|exact Hfd].
  match goal with |- context [if ?c && (?n' <? 0) then _ else _] => set (n1 := n');
    destruct (c && (n1 <? 0)) eqn:E end.
  { apply andb_true_iff in E as [_ E]. unfold same_map. split; [auto 10|]. split; [lia|].
    apply owns_neg; [exact Hfd | exact Ho]. }
  match goal with |- context [create_map k o find_btf m ?a] =>
    pose proof (create_map_owns base k o find_btf m a l Ho) as Hc;
    destruct (create_map k o find_btf m a) as [[[r m1] a1] k1] end.
  destruct Hc as [Hm1 Hc]. destruct r as [fd|e].
  2:{ destruct Hc as (Hf & He & Ho1). split; [exact Hm1|]. split; [lia|]. rewrite Hf.
      apply owns_neg; [lia | exact Ho1]. }
  destruct Hc as (Hf & Hfd1 & Ho1).
  assert (exists err k2, (if bpf_map__is_internal m1
    then bpf_object__populate_internal_map k1 o m1 else (0, k1)) = (err, k2) /\
    owns base k2 (fd :: l)) as (err & k2 & -> & Ho2).
  { destruct (bpf_map__is_internal m1); [|eauto].
    pose proof (populate_owns base k1 o m1 (fd :: l) Ho1) as Hpo.
    destruct (bpf_object__populate_internal_map k1 o m1). eauto. }
  assert (pin_path m1 = None) as Hp1 by (destruct Hm1 as [-> _]; exact Hp).
  destruct (Z.ltb_spec err 0) as [He|He].
  - rewrite <- Hf in Ho2. apply owns_close in Ho2 as [_ Ho2].
    destruct (zclose k2 (m_fd m1)) as [r k3]. cbn [snd] in Ho2.
    split; [exact Hm1|]. split; [exact He|]. apply owns_neg; [cbn; lia | exact Ho2].
  - rewrite Hp1. split; [exact Hm1|]. rewrite Hf. auto.
Qed.

Lemma create_loop_owns base o find_btf todo : forall k done a n l,
  Forall (fun m => pin_path m = None) todo ->
  Forall (fun m => 0 <= m_fd m) done ->
  owns base k (map_fds (done ++ todo) ++ l) ->
  let '(err, ms, k') := create_loop k o find_btf done todo a n in
  owns base k' (map_fds ms ++ l) /\ err <= 0 /\
  Forall2 same_map (done ++ todo) ms /\
  (err = 0 -> Forall (fun m => 0 <= m_fd m) ms).
Proof.
  assert (forall ms : list bpf_map, Forall2 same_map ms ms) as Hrefl.
  { intros ms. apply Forall_Forall2_diag, Forall_forall. intros m _. unfold same_map. auto 10. }
  induction todo as [|m todo IH]; intros k done a n l Hp Hd Ho; cbn [create_loop].
  { rewrite app_nil_r in *. split; [exact Ho|]. split; [lia|]. split; [apply Hrefl|auto]. }
  apply Forall_cons in Hp as [Hpm Hp].
  assert (map_fds (done ++ m :: todo) ++ l ≡ₚ
          m_fd m :: map_fds done ++ map_fds todo ++ l) as Hperm.
  { rewrite map_fds_app. change (map_fds (m :: todo)) with (m_fd m :: map_fds todo).
    rewrite <- app_assoc. cbn. symmetry. apply Permutation_middle. }
  rewrite Hperm in Ho. pose proof (create_one_owns base k o find_btf m a n _ Hpm Ho) as Hc.
  destruct (create_one k o find_btf m a n) as [[m1 a1 n1|m1 err b] k1].
  - destruct Hc as (Hm1 & Hfd & Ho1).
    assert (owns base k1 (map_fds ((done ++ [m1]) ++ todo) ++ l)) as Ho2.
    { rewrite !map_fds_app, <- !app_assoc. change (map_fds [m1]) with [m_fd m1].
      cbn [app]. rewrite <- Permutation_middle. exact Ho1. }
    specialize (IH k1 (done ++ [m1]) a1 n1 l Hp).
    destruct (create_loop k1 o find_btf (done ++ [m1]) todo a1 n1) as [[err ms] k2].
    destruct IH as (H1 & H2 & H3 & H4); [apply Forall_app; auto | exact Ho2|].
    split; [exact H1|]. split; [exact H2|]. split; [|exact H4].
    rewrite <- app_assoc in H3. cbn [app] in H3.
    apply Forall2_app_inv_l in H3 as (x & y & Hx & Hy & ->).
    apply Forall2_cons_inv_l in Hy as (m2 & y' & Hm2 & Hy & ->).
    apply Forall2_app; [exact Hx|]. constructor; [|exact Hy].
    unfold same_map in *. naive_solver congruence.
  - destruct Hc as (Hm1 & He & Ho1). destruct b.
    + assert (owns base k1 (map_fds done ++ m_fd m1 :: map_fds todo ++ l)) as Ho2
        by (rewrite <- Permutation_middle; exact Ho1).
      destruct (close_maps_spec base done k1 _ Ho2) as [Hcl Ho3].
      destruct (close_maps k1 done) as [done' k2]. cbn [fst snd] in *. subst done'.
      split; [|split; [lia|split; [|lia]]].
      * rewrite map_fds_app. change (map_fds (m1 :: todo)) with (m_fd m1 :: map_fds todo).
        rewrite <- app_assoc. apply owns_none; [|exact Ho3].
        unfold map_fds. rewrite <- list_fmap_compose. apply Forall_fmap, Forall_forall.
        intros; cbn; lia.
      * apply Forall2_app; [|constructor; [exact Hm1|apply Hrefl]].
        apply Forall2_fmap_r, Forall_Forall2_diag, Forall_forall. intros. unfold same_map. auto 10.
    + split; [|split; [lia|split; [|lia]]].
      * rewrite map_fds_app. change (map_fds (m1 :: todo)) with (m_fd m1 :: map_fds todo).
        rewrite <- app_assoc. cbn [app]. rewrite <- Permutation_middle. exact Ho1.
      * apply Forall2_app; [apply Hrefl|constructor; [exact Hm1|apply Hrefl]].
Qed.

(** * Well-formed objects *)

Definition insns_len (p : bpf_program) : Z := zlen (default [] (p_insns p)).

(** A relocation entry that names an instruction and a map there are. The
    code checks the upper bound of the instruction for maps itself, and
    passes over an entry of no known type. *)
Definition reloc_ok (nmaps len : Z) (r : reloc_desc) : Prop :=
  (rel_type r <> RELO_JUNK -> 0 <= rel_insn_idx r) /\
  match rel_type r with
  | RELO_CALL => rel_insn_idx r < len
  | RELO_LD64 | RELO_DATA => 0 <= rel_idx r < nmaps
  | RELO_JUNK => True
  end.

Record prog_ok (nmaps : Z) (p : bpf_program) : Prop := {
  po_level : 0 <= p_log_level p <= 7;
  po_func : 0 <= func_info_cnt p /\ 0 <= func_info_rec_size p /\
    zlen (func_info p) = func_info_cnt p * func_info_rec_size p;
  po_line : 0 <= line_info_cnt p /\ 0 <= line_info_rec_size p /\
    zlen (line_info p) = line_info_cnt p * line_info_rec_size p;
  po_code : p_insns p = None -> p_relocs p = None;
  po_relocs : Forall (reloc_ok nmaps (insns_len p)) (default [] (p_relocs p))
}.
Definition obj_ok (o : bpf_object) : Prop :=
  Forall (prog_ok (zlen (maps o))) (programs o).

(** What relocation, CO-RE's included, leaves alone: everything but the
    instructions, which only get more, and the records for the kernel. *)
Definition same_prog (p p' : bpf_program) : Prop :=
  p_idx p' = p_idx p /\ section_name p' = section_name p /\
  p_type p' = p_type p /\ p_ifindex p' = p_ifindex p /\
  p_instances p' = p_instances p /\ insns_len p <= insns_len p'.
Definition same_obj (o o' : bpf_object) : Prop :=
  obj_id o' = obj_id o /\ maps o' = maps o /\ text_shndx o' = text_shndx o /\
  has_pseudo_calls o' = has_pseudo_calls o /\
  (loaded o' = loaded o /\ obj_btf o' = obj_btf o) /\
  Forall2 same_prog (programs o) (programs o').
Definition step_ok (o o' : bpf_object) : Prop := same_obj o o' /\ obj_ok o'.

(** The parameters for CO-RE and BTF.ext do only that. *)
Definition ops_ok (ops : btf_ext_ops) : Prop :=
  (forall o, obj_ok o -> step_ok o (snd (relocate_core ops o))) /\
  (forall o i s c, obj_ok o -> step_ok o (snd (reloc_btf_ext ops o i s c))).

Lemma same_prog_refl p : same_prog p p.
Proof. unfold same_prog. repeat split; lia. Qed.

Lemma same_prog_trans p q r : same_prog p q -> same_prog q r -> same_prog p r.
Proof. unfold same_prog. intros (?&?&?&?&?&?) (?&?&?&?&?&?). repeat split; lia || congruence. Qed.

Lemma same_obj_refl o : same_obj o o.
Proof.
  unfold same_obj. repeat split. apply Forall_Forall2_diag, Forall_forall.
  intros. apply same_prog_refl.
Qed.

Lemma same_obj_trans o1 o2 o3 : same_obj o1 o2 -> same_obj o2 o3 -> same_obj o1 o3.
Proof.
  intros (?&?&?&?&[]&Hf) (?&?&?&?&[]&Hg). repeat split; try congruence.
  revert Hg. generalize (programs o3). induction Hf as [|p q ps qs Hpq _ IH];
    intros rs Hg; inversion Hg; subst; constructor; eauto using same_prog_trans.
Qed.

Lemma step_refl o : obj_ok o -> step_ok o o.
Proof. split; [apply same_obj_refl | assumption]. Qed.

Lemma step_trans o1 o2 o3 : step_ok o1 o2 -> step_ok o2 o3 -> step_ok o1 o3.
Proof. intros [Hf _] [Hg Hok]. split; [eapply same_obj_trans; eassumption | exact Hok]. Qed.

Lemma same_obj_lookup o o' (i : nat) p :
  same_obj o o' -> programs o !! i = Some p ->
  exists p', programs o' !! i = Some p' /\ same_prog p p'.
Proof.
  intros (_&_&_&_&_&Hf) Hp. eapply Forall2_lookup_l in Hf as (p' & ? & ?); eauto.
Qed.

Lemma step_set_prog o i f p :
  obj_ok o -> programs o !! Z.to_nat i = Some p ->
  same_prog p (f p) -> prog_ok (zlen (maps o)) (f p) -> step_ok o (set_prog f i o).
Proof.
  intros Hok Hp Hs Hf. split.
  - unfold same_obj. cbn. repeat split. apply Forall2_alter_r.
    + apply Forall_Forall2_diag, Forall_forall. intros. apply same_prog_refl.
    + intros x y Hx Hy _. rewrite Hp in Hx, Hy. injection Hx as <-. injection Hy as <-. exact Hs.
  - unfold obj_ok. cbn. apply Forall_alter; [exact Hok|].
    intros x Hx _. rewrite Hp in Hx. injection Hx as <-. exact Hf.
Qed.

(** * Relocation *)

(** New instructions, at least as many, for a program. *)
Lemma code_longer n p insns main :
  prog_ok n p -> insns_len p <= zlen insns ->
  same_prog p (set_code (Some insns) main (p_relocs p) p) /\
  prog_ok n (set_code (Some insns) main (p_relocs p) p).
Proof.
  intros [H1' H2' H3' H4' H5'] Hlen. split.
  - unfold same_prog, insns_len in *. cbn. repeat split; lia.
  - split; cbn; auto; [discriminate|]. eapply Forall_impl; [exact H5'|].
    intros r [Hr1 Hr2]. split; [exact Hr1|]. unfold insns_len in *.
    destruct (rel_type r); cbn in *; lia.
Qed.

Lemma step_set_code o i p insns f :
  obj_ok o -> programs o !! Z.to_nat i = Some p -> insns_len p <= zlen insns ->
  (exists main, f p = set_code (Some insns) main (p_relocs p) p) ->
  step_ok o (set_prog f i o).
Proof.
  intros Hok Hp Hlen [main Hf]. pose proof Hok as Hok'.
  eapply Forall_lookup_1 in Hok' as Hpo; [|exact Hp].
  destruct (code_longer _ p insns main Hpo Hlen) as [Hs Hpo'].
  apply (step_set_prog _ _ _ p Hok Hp); rewrite Hf; assumption.
Qed.

Lemma prog_at o i : 0 <= i < zlen (programs o) ->
  exists p, aget (programs o) i = Ok p /\ programs o !! Z.to_nat i = Some p.
Proof.
  intros Hi. destruct (aget_in (programs o) i Hi) as [p Hp]. exists p.
  split; [exact Hp|]. apply aget_Ok in Hp. apply Hp.
Qed.

Lemma same_obj_zlen o o' : same_obj o o' -> zlen (programs o') = zlen (programs o).
Proof. intros (_&_&_&_&_&Hf). unfold zlen. erewrite <- Forall2_length; [reflexivity|exact Hf]. Qed.

Lemma reloc_map_ok o insns r :
  reloc_ok (zlen (maps o)) (zlen insns) r -> rel_type r <> RELO_CALL ->
  rel_type r <> RELO_JUNK ->
  exists x, reloc_map o insns r = Ok x /\
    match x with Some insns' => zlen insns' = zlen insns | None => True end.
Proof.
  intros [Hi Hr] Ht Hj. specialize (Hi Hj).
  assert (0 <= rel_idx r < zlen (maps o)) as Hr' by (destruct (rel_type r); easy).
  clear Hr. rename Hr' into Hr. unfold reloc_map.
  destruct (Z.leb_spec (zlen insns) (rel_insn_idx r + 1)) as [Hl|Hl]; [exists None; auto|].
  destruct (aget_in insns (rel_insn_idx r)) as [insn ->]; [lia|]. rewrite bind_Ok.
  assert (exists insns1, (if bool_decide (rel_type r = RELO_DATA) then
    insns0 ← aset insns (rel_insn_idx r) (set_src BPF_PSEUDO_MAP_VALUE insn);
    next ← aget insns0 (rel_insn_idx r + 1);
    aset insns0 (rel_insn_idx r + 1) (set_imm (i_imm insn) next)
    else aset insns (rel_insn_idx r) (set_src BPF_PSEUDO_MAP_FD insn)) = Ok insns1 /\
    zlen insns1 = zlen insns) as (insns1 & -> & Hz).
  { destruct (bool_decide _).
    - rewrite aset_Ok by lia. rewrite bind_Ok.
      set (l1 := <[_ := _]> insns). assert (zlen l1 = zlen insns) as Hz1
        by (unfold zlen, l1; rewrite length_insert; reflexivity).
      destruct (aget_in l1 (rel_insn_idx r + 1)) as [n ->]; [lia|]. rewrite bind_Ok.
      rewrite aset_Ok by lia. eexists. split; [reflexivity|].
      unfold zlen in *. rewrite length_insert. exact Hz1.
    - rewrite aset_Ok by lia. eexists. split; [reflexivity|].
      unfold zlen. rewrite length_insert. reflexivity. }
  rewrite bind_Ok. destruct (aget_in insns1 (rel_insn_idx r)) as [x ->]; [lia|]. rewrite bind_Ok.
  destruct (aget_in (maps o) (rel_idx r)) as [m ->]; [lia|]. rewrite bind_Ok.
  rewrite aset_Ok by lia. rewrite bind_Ok. eexists. split; [reflexivity|].
  unfold zlen in *. rewrite length_insert. exact Hz.
Qed.

Lemma reloc_text_ok ops k o i r :
  ops_ok ops -> obj_ok o -> 0 <= i < zlen (programs o) -> rel_type r = RELO_CALL ->
  (forall p, programs o !! Z.to_nat i = Some p ->
     p_insns p <> None /\ 0 <= rel_insn_idx r < insns_len p) ->
  exists err o' k', bpf_program__reloc_text ops k o i r = Ok (err, o', k') /\
    step_ok o o' /\ open_fds k' = open_fds k /\
    (forall p, programs o' !! Z.to_nat i = Some p -> err = 0 -> p_insns p <> None).
Proof.
  intros Hops Hok Hi Hr Hrange. unfold bpf_program__reloc_text.
  rewrite bool_decide_true by exact Hr. cbn [negb].
  destruct (prog_at o i Hi) as (prog & -> & Hp). rewrite bind_Ok.
  destruct (Hrange _ Hp) as [Hsome Hidx].
  destruct (p_idx prog =? text_shndx o); [eexists _, o, k; split; [reflexivity|];
    split; [apply step_refl, Hok|]; split; [reflexivity | intros; discriminate]|].
  match goal with |- context [if main_prog_cnt prog =? 0 then ?a else ?b] =>
    assert (exists err o1 k1, (if main_prog_cnt prog =? 0 then a else b) = Ok (err, o1, k1) /\
      step_ok o o1 /\ open_fds k1 = open_fds k /\
      (forall p, programs o1 !! Z.to_nat i = Some p ->
         err = 0 -> p_insns p <> None /\ insns_len prog <= insns_len p))
      as (err & o1 & k1 & -> & Hst & Hfds & Hlen) end.
  { destruct (main_prog_cnt prog =? 0).
    2:{ eexists _, o, k. split; [reflexivity|]. split; [apply step_refl, Hok|].
        split; [reflexivity|]. intros p Hp' _. rewrite Hp in Hp'. injection Hp' as <-. auto with lia. }
    destruct (bpf_object__find_prog_by_idx o (text_shndx o)) as [text|].
    2:{ eexists _, o, k. split; [reflexivity|]. split; [apply step_refl, Hok|].
        split; [reflexivity|]. discriminate. }
    pose proof (alloc_fds k) as Hal. destruct (sys_alloc k) as [[] k1]; cbn [fst snd negb] in *.
    2:{ eexists _, o, k1. split; [reflexivity|]. split; [apply step_refl, Hok|].
        split; [exact Hal|]. discriminate. }
    match goal with |- context [if obj_btf_ext o then ?a else ?b] =>
      assert (step_ok o (snd (if obj_btf_ext o then a else b))) as Hst1 by
        (destruct (obj_btf_ext o); [apply Hops, Hok | apply step_refl, Hok]);
      destruct (if obj_btf_ext o then a else b) as [err o1] end. cbn [snd] in Hst1.
    destruct (Z.eqb_spec err 0) as [->|He]; cbn [negb].
    2:{ eexists _, o1, k1. split; [reflexivity|]. split; [exact Hst1|].
        split; [exact Hal|]. intros; contradiction. }
    eexists _, _, k1. split; [reflexivity|].
    destruct (same_obj_lookup _ _ _ _ (proj1 Hst1) Hp) as (p1 & Hp1 & Hsp).
    split; [|split; [exact Hal|]].
    - eapply step_trans; [exact Hst1|].
      eapply (step_set_code _ _ p1 _ _ (proj2 Hst1) Hp1); [|eexists; reflexivity].
      unfold insns_len. rewrite zlen_app.
      pose proof (zlen_nonneg (default [] (p_insns text))). lia.
    - cbn. intros p Hp' _. rewrite list_lookup_alter, Hp1 in Hp'. rewrite decide_True in Hp' by reflexivity. cbn in Hp'. injection Hp' as <-.
      destruct Hsp as (_&_&_&_&_&Hl). unfold insns_len in *. cbn.
      rewrite zlen_app. pose proof (zlen_nonneg (default [] (p_insns text))).
      split; [discriminate | lia]. }
  rewrite bind_Ok. destruct (Z.eqb_spec err 0) as [->|He]; cbn [negb].
  2:{ eexists _, o1, k1. split; [reflexivity|]. split; [exact Hst|].
      split; [exact Hfds | intros; contradiction]. }
  pose proof (same_obj_zlen _ _ (proj1 Hst)) as Hz.
  destruct (prog_at o1 i) as (p1 & -> & Hp1); [lia|]. rewrite bind_Ok.
  destruct (Hlen p1 Hp1 eq_refl) as [Hs1 Hl1]. destruct (p_insns p1) as [insns|] eqn:Hins; [|easy].
  cbn [or_fault]. rewrite bind_Ok. unfold insns_len in Hl1 at 2. rewrite Hins in Hl1. cbn in Hl1.
  destruct (aget_in insns (rel_insn_idx r)) as [x ->]; [lia|]. rewrite bind_Ok.
  rewrite aset_Ok by lia. rewrite bind_Ok. eexists _, _, k1. split; [reflexivity|].
  split; [|split; [exact Hfds|]].
  2:{ cbn. intros p. rewrite list_lookup_alter, decide_True by reflexivity.
      rewrite Hp1. cbn. intros [= <-]. discriminate. }
  eapply step_trans; [exact Hst|].
  eapply (step_set_code _ _ p1 _ _ (proj2 Hst) Hp1); [|eexists; reflexivity].
  unfold insns_len, zlen. rewrite length_insert, Hins. reflexivity.
Qed.

Lemma reloc_ok_longer n len len' r : reloc_ok n len r -> len <= len' -> reloc_ok n len' r.
Proof. intros [Hr1 Hr2] Hl. split; [exact Hr1|]. destruct (rel_type r); lia. Qed.

(** What a step of relocation gives: a result, an object that differs only
    in its code, and no change to the descriptors. *)
Definition relocates k o (x : res (Z * bpf_object * K)) : Prop :=
  exists err o' k', x = Ok (err, o', k') /\ step_ok o o' /\ open_fds k' = open_fds k.

Lemma relocates_trans k o err o1 k1 x :
  step_ok o o1 -> open_fds k1 = open_fds k ->
  (err = 0 -> relocates k1 o1 x) ->
  relocates k o (if negb (err =? 0) then Ok (err, o1, k1) else x).
Proof.
  intros Hst Hf Hx. destruct (Z.eqb_spec err 0) as [He|He]; cbn [negb].
  - destruct (Hx He) as (err' & o' & k' & -> & Hst' & Hf').
    exists err', o', k'. split; [reflexivity|]. split; [eapply step_trans; eassumption | congruence].
  - exists err, o1, k1. auto.
Qed.

Lemma reloc_loop_ok ops i rs : forall k o,
  ops_ok ops -> obj_ok o -> 0 <= i < zlen (programs o) ->
  (forall p, programs o !! Z.to_nat i = Some p -> p_insns p <> None /\
     Forall (reloc_ok (zlen (maps o)) (insns_len p)) rs) ->
  relocates k o (reloc_loop ops k o i rs).
Proof.
  induction rs as [|r rs IH]; intros k o Hops Hok Hi Hrs; cbn [reloc_loop].
  { eexists _, o, k. split; [reflexivity|]. split; [apply step_refl, Hok | reflexivity]. }
  destruct (prog_at o i Hi) as (p & Hget & Hp). destruct (Hrs p Hp) as [Hsome Hall].
  apply Forall_cons in Hall as [Hr Hall].
  assert (forall o1, step_ok o o1 -> (forall p1, programs o1 !! Z.to_nat i = Some p1 ->
    p_insns p1 <> None) -> forall k1, relocates k1 o1 (reloc_loop ops k1 o1 i rs)) as Hnext.
  { intros o1 Hst Hs1 k1. apply IH; [exact Hops|apply Hst| |].
    - rewrite (same_obj_zlen o) by apply Hst. exact Hi.
    - intros p1 Hp1. destruct (same_obj_lookup o o1 _ p (proj1 Hst) Hp) as (p1' & Hp1' & Hsp).
      rewrite Hp1 in Hp1'. injection Hp1' as <-. split; [exact (Hs1 p1 Hp1)|].
      destruct Hst as [(_&->&_) _]. destruct Hsp as (_&_&_&_&_&Hl).
      eapply Forall_impl; [exact Hall|]. intros r' Hr'. eapply reloc_ok_longer; eassumption. }
  case_bool_decide as Ht.
  - destruct (reloc_text_ok ops k o i r Hops Hok Hi Ht) as (err & o1 & k1 & Hx & Hst & Hf & Hs1).
    { intros p' Hp'. rewrite Hp in Hp'. injection Hp' as <-. split; [exact Hsome|].
      destruct Hr as [Hr1 Hr2]. rewrite Ht in Hr1, Hr2. split; [apply Hr1; discriminate | exact Hr2]. }
    rewrite Hx, bind_Ok. apply relocates_trans; auto.
  - case_bool_decide as Hj.
    { apply Hnext; [apply step_refl, Hok|]. intros p1 Hp1. rewrite Hp in Hp1.
      injection Hp1 as <-. exact Hsome. }
    rewrite Hget, bind_Ok. destruct (p_insns p) as [insns|] eqn:Hins; [|easy].
    change (default [] (Some insns)) with insns.
    unfold insns_len in Hr. rewrite Hins in Hr. change (default [] (Some insns)) with insns in Hr.
    destruct (reloc_map_ok o insns r Hr Ht Hj) as (x & -> & Hx). rewrite bind_Ok.
    destruct x as [insns'|].
    2:{ eexists _, o, k. split; [reflexivity|]. split; [apply step_refl, Hok | reflexivity]. }
    match goal with |- context [reloc_loop _ _ ?x _ _] => set (o1 := x) end.
    assert (step_ok o o1) as Hst.
    { apply (step_set_code _ _ p insns' _ Hok Hp); [|eexists; reflexivity].
      unfold insns_len. rewrite Hins, Hx. reflexivity. }
    destruct (Hnext o1 Hst) with (k1 := k) as (err & o2 & k2 & -> & Hst2 & Hf2).
    { unfold o1. cbn. intros p1. rewrite list_lookup_alter, decide_True by reflexivity.
      rewrite Hp. cbn. intros [= <-]. discriminate. }
    eexists _, o2, k2. split; [reflexivity|]. split; [eapply step_trans; eassumption | exact Hf2].
Qed.

Lemma program_relocate_ok ops k o i :
  ops_ok ops -> obj_ok o -> 0 <= i < zlen (programs o) ->
  relocates k o (bpf_program__relocate ops k o i).
Proof.
  intros Hops Hok Hi. unfold bpf_program__relocate.
  destruct (prog_at o i Hi) as (p & -> & Hp). rewrite bind_Ok.
  match goal with |- context [if obj_btf_ext o then ?a else ?b] =>
    assert (step_ok o (snd (if obj_btf_ext o then a else b))) as Hst1 by
      (destruct (obj_btf_ext o); [apply Hops, Hok | apply step_refl, Hok]);
    destruct (if obj_btf_ext o then a else b) as [err o1] end. cbn [snd] in Hst1.
  apply relocates_trans; [exact Hst1 | reflexivity|]. intros _.
  pose proof (same_obj_zlen _ _ (proj1 Hst1)) as Hz. destruct Hst1 as [_ Hok1].
  destruct (prog_at o1 i) as (p1 & -> & Hp1); [lia|]. rewrite bind_Ok.
  destruct (p_relocs p1) as [rs|] eqn:Hrs.
  2:{ eexists _, o1, k. split; [reflexivity|]. split; [apply step_refl, Hok1 | reflexivity]. }
  pose proof Hok1 as Hok1'. eapply Forall_lookup_1 in Hok1' as [H1' H2' H3' H4' H5']; [|exact Hp1].
  destruct (reloc_loop_ok ops i rs k o1 Hops Hok1) as (err2 & o2 & k2 & -> & Hst2 & Hf2); [lia| |].
  { intros p' Hp'. rewrite Hp1 in Hp'. injection Hp' as <-. rewrite Hrs in *.
    split; [|exact H5']. intros Hn. specialize (H4' Hn). discriminate. }
  rewrite bind_Ok. apply relocates_trans; [exact Hst2 | exact Hf2 |]. intros _.
  eexists _, _, k2. split; [reflexivity|]. split; [|reflexivity].
  pose proof (same_obj_zlen _ _ (proj1 Hst2)) as Hz2. destruct Hst2 as [_ Hok2].
  destruct (prog_at o2 i) as (p2 & _ & Hp2); [lia|].
  apply (step_set_prog _ _ _ p2 Hok2 Hp2).
  - unfold same_prog, insns_len. cbn. repeat split; lia.
  - eapply Forall_lookup_1 in Hok2 as [H1 H2 H3 H4 H5]; [|exact Hp2].
    split; cbn; auto.
Qed.

Lemma relocate_loop_ok ops ixs : forall k o,
  ops_ok ops -> obj_ok o -> Forall (fun i => 0 <= i < zlen (programs o)) ixs ->
  relocates k o (relocate_loop ops k o ixs).
Proof.
  induction ixs as [|i ixs IH]; intros k o Hops Hok Hi; cbn [relocate_loop].
  { eexists _, o, k. split; [reflexivity|]. split; [apply step_refl, Hok | reflexivity]. }
  apply Forall_cons in Hi as [Hi Hix].
  destruct (program_relocate_ok ops k o i Hops Hok Hi) as (err & o1 & k1 & -> & Hst & Hf).
  rewrite bind_Ok. apply relocates_trans; [exact Hst | exact Hf|]. intros _.
  apply IH; [exact Hops | apply Hst|]. rewrite (same_obj_zlen o) by apply Hst. exact Hix.
Qed.

Lemma relocate_ok ops k o :
  ops_ok ops -> obj_ok o -> relocates k o (bpf_object__relocate ops k o).
Proof.
  intros Hops Hok. unfold bpf_object__relocate.
  match goal with |- context [if obj_btf_ext o then ?a else ?b] =>
    assert (step_ok o (snd (if obj_btf_ext o then a else b))) as Hst1 by
      (destruct (obj_btf_ext o); [apply Hops, Hok | apply step_refl, Hok]);
    destruct (if obj_btf_ext o then a else b) as [err o1] end. cbn [snd] in Hst1.
  apply relocates_trans; [exact Hst1 | reflexivity|]. intros _.
  apply relocate_loop_ok; [exact Hops | apply Hst1|].
  apply Forall_forall. intros i Hi. apply elem_of_seqZ in Hi. lia.
Qed.

(** * Loading programs *)

(** What a call that gives a descriptor or an error does to [l]. *)
Definition got base k (r : sysret) l : Prop :=
  match r with ROk fd => 0 <= fd /\ owns base k (fd :: l) | RErr _ => owns base k l end.
Definition positive (r : sysret) : Prop :=
  match r with ROk _ => True | RErr e => 0 < e end.

Lemma prog_load_got base k a l :
  owns base k l ->
  got base (snd (sys_prog_load k a)) (la_ret (fst (sys_prog_load k a))) l /\
  positive (la_ret (fst (sys_prog_load k a))).
Proof.
  intros Ho. pose proof (prog_load_fds k a) as Hg.
  destruct (la_ret (fst (sys_prog_load k a))) as [fd|e]; cbn [got positive].
  - split; [|exact I]. apply (owns_give base k); assumption.
  - destruct Hg as [He Hg]. split; [|exact He]. eapply owns_keep; eassumption.
Qed.

Lemma zero_tails_ok cnt : forall records actual expected,
  zlen records = Z.of_nat cnt * actual -> 0 <= expected <= actual ->
  exists bs, zero_tails records cnt actual expected = Ok bs.
Proof.
  induction cnt as [|cnt IH]; intros records actual expected Hl He; cbn [zero_tails]; [eauto|].
  rewrite Nat2Z.inj_succ, Z.mul_succ_l in Hl.
  assert (0 <= Z.of_nat cnt * actual) by (apply Z.mul_nonneg_nonneg; lia).
  rewrite mread_Ok by (unfold in_block; lia). rewrite bind_Ok, mwrite_Ok.
  - rewrite bind_Ok. destruct (IH (drop (Z.to_nat actual) records) actual expected) as [l ->].
    + unfold zlen in *. rewrite length_drop. lia.
    + exact He.
    + rewrite bind_Ok. eauto.
  - unfold in_block. rewrite zlen_replicate. unfold zlen in *.
    rewrite length_take, length_drop. lia.
Qed.

(** The records of the attribute are as many as it says. *)
Definition records_ok (a : prog_attr) : Prop :=
  0 <= pa_func_cnt a /\ 0 <= pa_line_cnt a /\
  zlen (pa_func_info a) = pa_func_cnt a * pa_func_rec a /\
  zlen (pa_line_info a) = pa_line_cnt a * pa_line_rec a.

Lemma alloc_zero_ok base k l records cnt actual expected :
  0 <= cnt -> zlen records = cnt * actual -> 0 <= expected <= actual -> owns base k l ->
  exists info k', alloc_zero_tailing_info k records cnt actual expected = Ok (info, k') /\
    owns base k' l /\ (info = None -> sys_errno k' = ENOMEM).
Proof.
  intros Hc Hl He Ho. unfold alloc_zero_tailing_info.
  pose proof (alloc_owns base k l Ho) as Ho1. pose proof (alloc_errno k) as Hn.
  destruct (sys_alloc k) as [[] k1]; cbn [fst snd negb] in *; [|eauto 10].
  destruct (zero_tails_ok (Z.to_nat cnt) records actual expected) as [x ->];
    [rewrite Z2Nat.id by exact Hc; exact Hl|exact He|].
  rewrite bind_Ok. eexists _, k1. split; [reflexivity|]. split; [exact Ho1 | discriminate].
Qed.

Definition todo_records (finfo linfo : bool) : nat :=
  (if finfo then 0 else 1) + (if linfo then 0 else 1).
Definition no_space (a : prog_attr) (r : sysret) : Prop :=
  UINT32_MAX / 4 < snd (pa_log a) -> r <> RErr ENOSPC.

Lemma fix_records_ok base l load fuel : forall k a ans finfo linfo,
  records_ok load -> 0 <= pa_func_rec a -> 0 <= pa_line_rec a ->
  got base k (la_ret ans) l -> positive (la_ret ans) -> no_space a (la_ret ans) ->
  (todo_records finfo linfo < fuel)%nat ->
  exists done a' ans' k',
    fix_records fuel k load a ans finfo linfo = Ok (done, a', ans', k') /\
    got base k' (la_ret ans') l /\ positive (la_ret ans') /\ no_space a (la_ret ans') /\
    (if (done : bool) then la_ret ans' <> RErr ENOSPC else exists e, la_ret ans' = RErr e).
Proof.
  induction fuel as [|fuel IH]; intros k a ans finfo linfo Hrec Hf Hl Hg Hp Hn Hfuel; [lia|].
  cbn [fix_records].
  destruct (la_ret ans) as [fd|e] eqn:Hr.
  { eexists _, a, ans, k. split; [reflexivity|]. rewrite Hr. auto. }
  assert (exists done a' ans' k', Ok (false, a, ans, k) = Ok (done, a', ans', k') /\
    got base k' (la_ret ans') l /\ positive (la_ret ans') /\ no_space a (la_ret ans') /\
    (if (done : bool) then la_ret ans' <> RErr ENOSPC else exists e, la_ret ans' = RErr e))
    as Hstop.
  { eexists _, a, ans, k. split; [reflexivity|]. rewrite Hr. eauto. }
  destruct ((e =? E2BIG) && (negb finfo || negb linfo)); [|exact Hstop].
  cbn [got] in Hg. destruct Hrec as (Hc1 & Hc2 & Hz1 & Hz2).
  assert (forall k1 (a1 : prog_attr) finfo1 linfo1, owns base k1 l -> pa_log a1 = pa_log a ->
    (todo_records finfo1 linfo1 < fuel)%nat ->
    exists done a' ans' k',
      (let '(ans, k) := sys_prog_load k1 a1 in
       let a := set_line_info (pa_line_info a1) (la_line_rec ans)
                  (set_func_info (pa_func_info a1) (la_func_rec ans) a1) in
       fix_records fuel k load a ans finfo1 linfo1) = Ok (done, a', ans', k') /\
      got base k' (la_ret ans') l /\ positive (la_ret ans') /\ no_space a (la_ret ans') /\
      (if (done : bool) then la_ret ans' <> RErr ENOSPC else exists e, la_ret ans' = RErr e))
    as Hagain.
  { intros k1 a1 f1 l1 Ho1 Hlog Hfl. pose proof (prog_load_got base k1 a1 l Ho1) as [Hg1 Hp1].
    pose proof (prog_load_recs k1 a1) as [Hr1 Hr2]. pose proof (prog_load_log k1 a1) as Hl1.
    destruct (sys_prog_load k1 a1) as [ans1 k2]. cbn [fst snd] in *.
    destruct (IH k2 (set_line_info (pa_line_info a1) (la_line_rec ans1)
                (set_func_info (pa_func_info a1) (la_func_rec ans1) a1)) ans1 f1 l1)
      as (d & a' & ans' & k' & Hx & H1 & H2 & H3 & H4); cbn;
      [unfold records_ok; auto|assumption..| |exact Hfl|].
    { unfold no_space. cbn. exact Hl1. }
    exists d, a', ans', k'. split; [exact Hx|]. split; [exact H1|]. split; [exact H2|].
    split; [|exact H4]. unfold no_space in *. cbn in H3. rewrite <- Hlog. exact H3. }
  destruct (negb finfo && negb (pa_func_cnt a =? 0) && (pa_func_rec a <? pa_func_rec load)) eqn:E1;
    [|destruct (negb linfo && negb (pa_line_cnt a =? 0) && (pa_line_rec a <? pa_line_rec load)) eqn:E2;
      [|exact Hstop]].
  - destruct (alloc_zero_ok base k l (pa_func_info load) (pa_func_cnt load) (pa_func_rec load)
      (pa_func_rec a)) as (info & k1 & -> & Ho1 & Hi); [lia|exact Hz1|lia|exact Hg|].
    rewrite bind_Ok. destruct info as [info|].
    + apply Hagain; [exact Ho1|reflexivity|]. destruct finfo; [discriminate|].
      unfold todo_records in *. lia.
    + eexists _, a, _, k1. split; [reflexivity|]. cbn. rewrite Hi by reflexivity.
      unfold no_space. split; [exact Ho1|]. split; [reflexivity|]. split; intros; discriminate.
  - destruct (alloc_zero_ok base k l (pa_line_info load) (pa_line_cnt load) (pa_line_rec load)
      (pa_line_rec a)) as (info & k1 & -> & Ho1 & Hi); [lia|exact Hz2|lia|exact Hg|].
    rewrite bind_Ok. destruct info as [info|].
    + apply Hagain; [exact Ho1|reflexivity|]. destruct linfo; [rewrite andb_false_l in E2; discriminate|].
      unfold todo_records in *. lia.
    + eexists _, a, _, k1. split; [reflexivity|]. cbn. rewrite Hi by reflexivity.
      unfold no_space. split; [exact Ho1|]. split; [reflexivity|]. split; intros; discriminate.
Qed.

Lemma load_program_xattr_ok base k l load log_buf sz :
  records_ok load -> owns base k l ->
  exists r text k', bpf_load_program_xattr k load log_buf sz = Ok (r, text, k') /\
    got base k' r l /\
    (0 <= fst (pa_log load) <= 7 -> sz <> 0 -> log_buf = true \/ sys_errno k = ENOMEM ->
     positive r /\ (UINT32_MAX / 4 < sz -> r <> RErr ENOSPC)).
Proof.
  intros Hrec Ho. unfold bpf_load_program_xattr.
  destruct (eqb (negb log_buf) (sz =? 0)) eqn:Eb; cbn [negb].
  2:{ eexists _, _, k. split; [reflexivity|]. split; [exact Ho|]. intros _ Hsz Hl.
      destruct log_buf; [replace (sz =? 0) with false in Eb by lia; discriminate|].
      destruct Hl as [|Hl]; [discriminate|]. rewrite Hl. split; [reflexivity | discriminate]. }
  match goal with |- context [if ?c || ?d then Ok (RErr (sys_errno k), _, _) else _] =>
    destruct (c || d) eqn:Elv end.
  { eexists _, _, k. split; [reflexivity|]. split; [exact Ho|]. intros Hlv Hsz Hl.
    rewrite u32_small in Elv by lia. replace (7 <? fst (pa_log load)) with false in Elv by lia.
    destruct log_buf; [rewrite andb_false_r in Elv; discriminate|].
    destruct Hl as [|Hl]; [discriminate|]. rewrite Hl. split; [reflexivity | discriminate]. }
  match goal with |- context [sys_prog_load k ?x] => set (a := x) end.
  pose proof (prog_load_got base k a l Ho) as [Hg Hp].
  pose proof (prog_load_recs k a) as [Hr1 Hr2]. pose proof (prog_load_log k a) as Hl1.
  destruct (sys_prog_load k a) as [ans k1]. cbn [fst snd] in *.
  destruct (la_ret ans) as [fd|e] eqn:Hr.
  { eexists _, _, k1. split; [reflexivity|]. split; [exact Hg|]. intros; split; [exact I|discriminate]. }
  destruct (fix_records_ok base l load 3 k1
    (set_line_info (pa_line_info a) (la_line_rec ans) (set_func_info (pa_func_info a)
       (la_func_rec ans) a)) ans false false)
    as (d & a' & ans' & k' & Hx & H1 & H2 & H3 & H4); cbn [set_line_info set_func_info pa_func_rec
      pa_line_rec]; auto; try (rewrite Hr; auto).
  rewrite Hx, bind_Ok. destruct d.
  { eexists _, _, k'. split; [reflexivity|]. split; [exact H1|]. auto. }
  destruct H4 as [e' He']. rewrite He' in *.
  destruct (negb (u32 (fst (pa_log load)) =? 0) || negb log_buf) eqn:Elog.
  { eexists _, _, k'. split; [reflexivity|]. split; [exact H1|]. intros Hlv Hsz Hl.
    split; [exact H2|]. intros Hbig. apply H3. unfold a. cbn.
    destruct log_buf; [|replace (sz =? 0) with false in Eb by lia; discriminate].
    rewrite orb_false_r in Elog. rewrite Elog. exact Hbig. }
  match goal with |- context [sys_prog_load k' ?x] => set (a2 := x) end.
  pose proof (prog_load_got base k' a2 l H1) as [Hg2 Hp2]. pose proof (prog_load_log k' a2) as Hl2.
  destruct (sys_prog_load k' a2) as [ans2 k2]. cbn [fst snd] in *.
  eexists _, _, k2. split; [reflexivity|]. split; [exact Hg2|]. intros. split; [exact Hp2|].
  exact Hl2.
Qed.

(** The ways to fail after the kernel has refused the program. *)
Lemma load_fails base l a e (log_text : bool) k :
  records_ok a -> 0 < e -> owns base k l ->
  exists err fd k',
    (if log_text then Ok (- LIBBPF_ERRNO__VERIFY, None, k) else
     if BPF_MAXINSNS <=? zlen (pa_insns a) then Ok (- LIBBPF_ERRNO__PROG2BIG, None, k) else
     if negb (pa_type a =? BPF_PROG_TYPE_KPROBE) then
       '(r, _, k) ← bpf_load_program_xattr k (set_pa_type BPF_PROG_TYPE_KPROBE 0 a) false 0;
       match r with
       | ROk fd => Ok (- LIBBPF_ERRNO__PROGTYPE, None, snd (sys_close k fd))
       | RErr _ => Ok (- e, None, k)
       end
     else Ok (- e, None, k)) = Ok (err, fd, k') /\
    match fd with
    | Some fd => err = 0 /\ 0 <= fd /\ owns base k' (fd :: l)
    | None => err < 0 /\ owns base k' l
    end.
Proof.
  intros Hrec He Ho. destruct log_text; [eexists _, _, k; split; [reflexivity|]; split; [reflexivity|exact Ho]|].
  destruct (BPF_MAXINSNS <=? zlen (pa_insns a)); [eexists _, _, k; split; [reflexivity|]; split; [reflexivity|exact Ho]|].
  destruct (negb (pa_type a =? BPF_PROG_TYPE_KPROBE));
    [|eexists _, _, k; split; [reflexivity|]; split; [lia | exact Ho]].
  destruct (load_program_xattr_ok base k l (set_pa_type BPF_PROG_TYPE_KPROBE 0 a) false 0)
    as (r & text & k1 & -> & Hg & _); [exact Hrec | exact Ho |]. rewrite bind_Ok.
  destruct r as [fd|e']; cbn [got] in Hg.
  - eexists _, _, _. split; [reflexivity|]. split; [reflexivity|]. destruct Hg as [Hfd Hg].
    apply owns_close in Hg as [_ Hg]. unfold zclose in Hg.
    replace (0 <=? fd) with true in Hg by lia. exact Hg.
  - eexists _, _, k1. split; [reflexivity|]. split; [lia | exact Hg].
Qed.

Lemma load_retry_ok base l a n : forall fuel k size,
  records_ok a -> 0 <= fst (pa_log a) <= 7 -> owns base k l ->
  0 < size < 2 ^ 31 -> UINT32_MAX / 4 < size * 2 ^ Z.of_nat n -> (n < fuel)%nat ->
  exists err fd k', load_retry fuel k a size = Ok (err, fd, k') /\
    match fd with
    | Some fd => err = 0 /\ 0 <= fd /\ owns base k' (fd :: l)
    | None => err < 0 /\ owns base k' l
    end.
Proof.
  induction n as [|n IH]; intros [|fuel] k size Hrec Hlv Ho Hs Hn Hf; try lia;
    cbn [load_retry]; pose proof (alloc_owns base k l Ho) as Ho1;
    pose proof (alloc_errno k) as Hen; destruct (sys_alloc k) as [log_buf k1]; cbn [fst snd] in *;
    destruct (load_program_xattr_ok base k1 l a log_buf size Hrec Ho1)
      as (r & text & k2 & -> & Hg & Hpos); rewrite bind_Ok;
    (destruct Hpos as [Hp Hsp]; [exact Hlv|lia|destruct log_buf; auto|]);
    (destruct r as [fd|e]; [eexists _, _, k2; split; [reflexivity|]; cbn in Hg; tauto|]);
    cbn [got positive] in *.
  - destruct (Z.eqb_spec e ENOSPC) as [->|He]; [exfalso; apply Hsp; [lia | reflexivity]|].
    apply load_fails; assumption.
  - destruct (Z.eqb_spec e ENOSPC) as [->|He]; [|apply load_fails; assumption].
    assert (size <= UINT32_MAX / 4) as Hle.
    { destruct (Z.lt_ge_cases (UINT32_MAX / 4) size) as [Hc|Hc]; [|exact Hc].
      destruct (Hsp Hc). reflexivity. }
    change (UINT32_MAX / 4) with 1073741823 in *. rewrite s32_small by lia.
    apply IH; try assumption; try lia.
    rewrite Nat2Z.inj_succ, Z.pow_succ_r in Hn by lia. lia.
Qed.

(** * Programs of an object *)

Definition loaded_prog (p : bpf_program) : Prop :=
  exists fd, p_instances p = Some [fd] /\ 0 <= fd.

Lemma program_load_ok base k o p l n :
  prog_ok n p -> p_instances p = None -> owns base k l ->
  exists err p' k', bpf_program__load k o p = Ok (err, p', k') /\
    owns base k' (default [] (p_instances p') ++ l) /\ p_idx p' = p_idx p /\
    section_name p' = section_name p /\
    err <= 0 /\ (err = 0 -> loaded_prog p').
Proof.
  intros [Hlv Hfn Hln Hc Hr] Hi Ho. unfold bpf_program__load. rewrite Hi.
  pose proof (alloc_owns base k l Ho) as Ho1.
  destruct (sys_alloc k) as [[] k1]; cbn [fst snd negb] in *.
  2:{ eexists _, p, k1. split; [reflexivity|]. rewrite Hi. split; [exact Ho1|].
      split; [reflexivity|]. split; [reflexivity|]. split; [|intros]; errno_lia. }
  unfold load_program. cbn [p_insns set_instances].
  assert (forall (q : bpf_program) k2, p_instances q = Some [-1] -> owns base k2 l ->
    owns base k2 (default [] (p_instances q) ++ l)) as Hneg.
  { intros q k2 -> Ho2. apply owns_neg; [lia | exact Ho2]. }
  destruct (p_insns p) as [[|x insns]|] eqn:Hins.
  1,3: rewrite bind_Ok; eexists _, _, k1; split; [reflexivity|];
    split; [apply Hneg; [reflexivity|exact Ho1]|]; repeat split; try errno_lia; intros; errno_lia.
  match goal with |- context [load_retry _ k1 ?x _] => set (a := x) end.
  destruct (load_retry_ok base l a 7 LOAD_FUEL k1 BPF_LOG_BUF_SIZE)
    as (err & fd & k2 & -> & Hres); [|exact Hlv|exact Ho1|vm_compute; auto..|].
  { unfold a, records_ok. cbn. tauto. }
  rewrite bind_Ok. destruct fd as [fd|].
  - destruct Hres as (-> & Hfd & Ho2). eexists _, _, k2. split; [reflexivity|].
    split; [exact Ho2|]. split; [reflexivity|]. split; [reflexivity|]. split; [lia|].
    intros _. exists fd. auto.
  - destruct Hres as (He & Ho2). eexists _, _, k2. split; [reflexivity|].
    split; [apply Hneg; [reflexivity|exact Ho2]|]. repeat split; try errno_lia; intros; errno_lia.
Qed.

Lemma prog_fds_alter ps (i : nat) p :
  ps !! i = Some p ->
  exists rest, prog_fds ps ≡ₚ default [] (p_instances p) ++ rest /\
    forall q, prog_fds (alter (fun _ => q) i ps) ≡ₚ default [] (p_instances q) ++ rest.
Proof.
  revert i. induction ps as [|x ps IH]; intros [|i] Hp; [discriminate..| |].
  - injection Hp as ->. exists (prog_fds ps). split; [reflexivity|]. intros q. reflexivity.
  - destruct (IH i Hp) as (rest & H1 & H2). exists (default [] (p_instances x) ++ rest). split.
    + rewrite prog_fds_cons, H1, !app_assoc. apply Permutation_app_tail, Permutation_app_comm.
    + intros q. change (alter (fun _ => q) (S i) (x :: ps)) with (x :: alter (fun _ => q) i ps).
      rewrite prog_fds_cons, H2, !app_assoc. apply Permutation_app_tail, Permutation_app_comm.
Qed.

Lemma lor_level a b : 0 <= a <= 7 -> 0 <= b <= 7 -> 0 <= Z.lor a b <= 7.
Proof.
  intros Ha Hb. split; [apply Z.lor_nonneg; lia|].
  destruct (Z.eq_dec (Z.lor a b) 0) as [->|Hne]; [lia|].
  assert (Z.lor a b < 2 ^ 3); [|lia]. apply Z.log2_lt_pow2.
  - pose proof (proj2 (Z.lor_nonneg a b)). lia.
  - rewrite Z.log2_lor by lia. apply Z.max_lub_lt;
      (eapply Z.le_lt_trans; [apply Z.log2_le_mono; [apply Ha || apply Hb]|reflexivity]).
Qed.

(** Programs that are not just storage for functions. *)
Definition real_prog (o : bpf_object) (p : bpf_program) : Prop :=
  bpf_program__is_function_storage p o = false.

(** What identifies the programs of an object. *)
Definition prog_key (p : bpf_program) : string * Z := (section_name p, p_idx p).
Definition same_frame (o o' : bpf_object) : Prop :=
  obj_id o' = obj_id o /\ text_shndx o' = text_shndx o /\
  (has_pseudo_calls o' = has_pseudo_calls o /\ obj_btf o' = obj_btf o) /\
  prog_key <$> programs o' = prog_key <$> programs o.

Lemma same_frame_trans o1 o2 o3 : same_frame o1 o2 -> same_frame o2 o3 -> same_frame o1 o3.
Proof. intros (?&?&[]&?) (?&?&[]&?). repeat split; congruence. Qed.

Lemma same_obj_frame o o' : same_obj o o' -> same_frame o o'.
Proof.
  intros (?&?&?&?&[]&Hf). repeat split; auto. unfold prog_key.
  induction Hf as [|p p' ps ps' (Hi&Hs&_) _ IH]; [reflexivity|].
  rewrite !fmap_cons, IH, Hi, Hs. reflexivity.
Qed.

Lemma load_progs_loop_ok base l lvl n : forall k o (i : nat),
  0 <= lvl <= 7 -> length (programs o) = (i + n)%nat -> owns base k (obj_fds o ++ l) ->
  (forall (j : nat) p, (i <= j)%nat -> programs o !! j = Some p ->
     prog_ok (zlen (maps o)) p /\ p_instances p = None) ->
  (forall (j : nat) p, (j < i)%nat -> programs o !! j = Some p -> real_prog o p -> loaded_prog p) ->
  exists err o' k', load_progs_loop k o lvl (seqZ (Z.of_nat i) (Z.of_nat n)) = Ok (err, o', k') /\
    owns base k' (obj_fds o' ++ l) /\ maps o' = maps o /\ err <= 0 /\
    same_frame o o' /\
    (err = 0 -> forall p, p ∈ programs o' -> real_prog o' p -> loaded_prog p).
Proof.
  induction n as [|n IH]; intros k o i Hlv Hn Ho Hfrom Hdone.
  { cbn. eexists _, o, k. split; [reflexivity|]. split; [exact Ho|]. split; [reflexivity|].
    split; [lia|]. split; [repeat split|].
    intros _ p Hp Hr. apply list_elem_of_lookup in Hp as [j Hj].
    apply (Hdone j); auto. apply lookup_lt_Some in Hj. lia. }
  rewrite seqZ_cons by lia. replace (Z.succ (Z.of_nat i)) with (Z.of_nat (S i)) by lia.
  replace (Z.pred (Z.of_nat (S n))) with (Z.of_nat n) by lia. cbn [load_progs_loop].
  destruct (prog_at o (Z.of_nat i)) as (p & -> & Hp); [unfold zlen; lia|].
  rewrite Nat2Z.id in Hp. rewrite bind_Ok.
  destruct (Hfrom i p (le_n i) Hp) as [Hpok Hinst].
  destruct (bpf_program__is_function_storage p o) eqn:Hst.
  { apply IH; auto; [lia| |].
    - intros j q Hj Hq. apply (Hfrom j q); [lia | exact Hq].
    - intros j q Hj Hq Hr. destruct (decide (j = i)) as [->|].
      + unfold real_prog in Hr. congruence.
      + apply (Hdone j); auto. lia. }
  set (p1 := set_log _ _ p).
  assert (prog_ok (zlen (maps o)) p1) as Hpok1.
  { destruct Hpok. split; cbn; auto. apply lor_level; assumption. }
  destruct (prog_fds_alter _ i p Hp) as (rest & Hrest & Halt).
  assert (owns base k ((map_fds (maps o) ++ rest) ++ l)) as Ho1.
  { unfold obj_fds in Ho. rewrite Hrest, Hinst in Ho. exact Ho. }
  destruct (program_load_ok base k o p1 ((map_fds (maps o) ++ rest) ++ l) _ Hpok1 Hinst Ho1)
    as (err & p' & k1 & -> & Ho2 & Hidx & Hsec & He & Hld). rewrite bind_Ok.
  set (o1 := set_prog (fun _ => p') (Z.of_nat i) o).
  assert (owns base k1 (obj_fds o1 ++ l)) as Ho3.
  { unfold obj_fds, o1. cbn [maps programs set_prog]. rewrite Nat2Z.id, Halt.
    rewrite <- !app_assoc in *. rewrite Permutation_app_swap_app. exact Ho2. }
  assert (same_frame o o1) as Hfr.
  { repeat split. unfold o1. cbn. rewrite Nat2Z.id. apply list_eq. intros j.
    rewrite !list_lookup_fmap, list_lookup_alter. case_decide as Hj; [subst j|reflexivity].
    rewrite Hp. unfold prog_key. cbn. rewrite Hsec, Hidx. reflexivity. }
  destruct (Z.eqb_spec err 0) as [->|Hne]; cbn [negb].
  2:{ eexists _, o1, k1. split; [reflexivity|].
      split; [exact Ho3|]. split; [reflexivity|]. split; [lia|]. split; [exact Hfr|].
      intros; contradiction. }
  destruct (IH k1 o1 (S i) Hlv) as (err2 & o2 & k2 & Hx & H1 & H2 & H3 & H4 & H5);
    [unfold o1; cbn; rewrite length_alter; lia | exact Ho3 | | |].
  - intros j q Hj Hq. unfold o1 in Hq. cbn in Hq. rewrite Nat2Z.id, list_lookup_alter_ne in Hq by lia.
    apply (Hfrom j); [lia | exact Hq].
  - intros j q Hj Hq Hr. unfold o1 in Hq. cbn in Hq. rewrite Nat2Z.id, list_lookup_alter in Hq.
    case_decide as Hij; [|apply (Hdone j); auto; lia].
    subst j. rewrite Hp in Hq. injection Hq as <-. apply Hld. reflexivity.
  - eexists _, o2, k2. split; [exact Hx|]. split; [exact H1|]. split; [exact H2|].
    split; [exact H3|]. split; [eapply same_frame_trans; eassumption | exact H5].
Qed.

(** * The whole load *)

(** An object as [open] gives it: no map is pinned, no program loaded. *)
Record opened (o : bpf_object) : Prop := {
  op_new : loaded o = false;
  op_ok : obj_ok o;
  op_unpinned : Forall (fun m => pin_path m = None) (maps o);
  op_unloaded : Forall (fun p => p_instances p = None) (programs o)
}.

Lemma unpin_unpinned ms : forall k, Forall (fun m => pin_path m = None) ms ->
  unpin_maps k ms = (ms, k).
Proof.
  induction ms as [|m ms IH]; intros k Hms; [reflexivity|].
  apply Forall_cons in Hms as [Hm Hms]. cbn [unpin_maps bpf_map__unpin]. rewrite Hm.
  destruct (pinned m && negb (reused m)); rewrite IH by exact Hms; reflexivity.
Qed.

Definition all_loaded (o : bpf_object) : Prop :=
  Forall (fun m => 0 <= m_fd m) (maps o) /\
  forall p, p ∈ programs o -> real_prog o p -> loaded_prog p.

Lemma prog_ok_maps o ms :
  obj_ok o -> zlen ms = zlen (maps o) -> obj_ok (set_maps ms o).
Proof. unfold obj_ok. cbn. intros Hok ->. exact Hok. Qed.

(** Loading: every map and every program gets a descriptor, which the
    object then owns; or, on any error, all of them are closed again. *)
Lemma load_ok base find_btf ops k o l :
  opened o -> ops_ok ops -> owns base k (obj_fds o ++ l) ->
  exists err o' k', bpf_object__load find_btf ops k o = Ok (err, o', k') /\
    (err = 0 -> owns base k' (obj_fds o' ++ l) /\ all_loaded o' /\ same_frame o o' /\
       Forall2 same_map (maps o) (maps o')) /\
    (err <> 0 -> owns base k' l /\ live (obj_fds o') = [] /\ obj_btf o' = obj_btf o).
Proof.
  intros [Hnew Hok Hpin Hunl] Hops Ho.
  unfold bpf_object__load, bpf_object__load_xattr. rewrite Hnew.
  unfold bpf_object__create_maps. cbn [maps set_loaded].
  assert (owns base k (map_fds ([] ++ maps o) ++ (prog_fds (programs o) ++ l))) as Ho0
    by (unfold obj_fds in Ho; rewrite <- app_assoc in Ho; exact Ho).
  pose proof (create_loop_owns base (set_loaded o) find_btf (maps o) k [] empty_attr 0
    _ Hpin (Forall_nil_2 _) Ho0) as Hc.
  destruct (create_loop k (set_loaded o) find_btf [] (maps o) empty_attr 0) as [[err ms] k1].
  destruct Hc as (Ho1 & He & Hms & Hfd). cbn [app] in Hms.
  assert (Forall (fun m => pin_path m = None) ms) as Hpin1.
  { clear - Hpin Hms. induction Hms as [|m m' xs ys [Hm _] _ IH]; [constructor|].
    apply Forall_cons in Hpin as [H1 H2]. constructor; [congruence | auto]. }
  set (o1 := set_maps ms (set_loaded o)).
  assert (obj_ok o1) as Hok1.
  { apply (prog_ok_maps (set_loaded o)); [exact Hok|]. unfold zlen. cbn.
    erewrite <- Forall2_length; [reflexivity | exact Hms]. }
  assert (owns base k1 (obj_fds o1 ++ l)) as Hown1
    by (unfold obj_fds; rewrite <- app_assoc; exact Ho1).
  assert (forall err o2 k2, owns base k2 (obj_fds o2 ++ l) ->
    Forall (fun m => pin_path m = None) (maps o2) -> obj_btf o2 = obj_btf o -> err <> 0 ->
    exists err' o' k',
      (let '(ms, k) := unpin_maps k2 (maps o2) in
       let '(o, k) := bpf_object__unload k (set_maps ms o2) in
       Ok (err, o, k)) = Ok (err', o', k') /\
      (err' = 0 -> owns base k' (obj_fds o' ++ l) /\ all_loaded o' /\ same_frame o o' /\
         Forall2 same_map (maps o) (maps o')) /\
      (err' <> 0 -> owns base k' l /\ live (obj_fds o') = [] /\ obj_btf o' = obj_btf o)) as Hfail.
  { intros err' o2 k2 Ho2 Hp2 Hb2 Hne. rewrite unpin_unpinned by exact Hp2.
    assert (obj_fds (set_maps (maps o2) o2) = obj_fds o2) as Hsame by reflexivity.
    rewrite <- Hsame in Ho2. destruct (unload_spec base k2 _ l Ho2) as [Hu1 Hu2].
    pose proof (unload_btf k2 (set_maps (maps o2) o2)) as Hb3.
    destruct (bpf_object__unload k2 (set_maps (maps o2) o2)) as [o3 k3]. cbn [fst snd] in *.
    eexists _, o3, k3. split; [reflexivity|]. split; [contradiction|].
    rewrite Hb3. auto. }
  destruct (Z.eqb_spec err 0) as [->|Hne]; cbn [negb].
  2:{ rewrite bind_Ok. replace (err =? 0) with false by lia. apply Hfail; auto. }
  destruct (relocate_ok ops k1 o1 Hops Hok1) as (err2 & o2 & k2 & -> & [Hsm Hok2] & Hf2).
  assert (owns base k2 (obj_fds o2 ++ l)) as Hown2.
  { apply (owns_keep base k1); [exact Hf2|]. unfold obj_fds. destruct Hsm as (_&->&_&_&_&Hps).
    replace (prog_fds (programs o2)) with (prog_fds (programs o1)); [exact Hown1|].
    unfold prog_fds. f_equal. clear - Hps. induction Hps as [|p q ps qs (_&_&_&_&Hi&_) _ IH];
      [reflexivity|]. rewrite !fmap_cons, IH, Hi. reflexivity. }
  pose proof (same_obj_frame _ _ Hsm) as Hfr. destruct Hsm as (_&Hmaps&_&_&[_ Hbtf]&Hps).
  rewrite bind_Ok. destruct (Z.eqb_spec err2 0) as [->|Hne]; cbn [negb].
  2:{ rewrite bind_Ok. replace (err2 =? 0) with false by lia.
      apply Hfail; [exact Hown2 | rewrite Hmaps; exact Hpin1 | exact Hbtf | exact Hne]. }
  unfold bpf_object__load_progs.
  destruct (load_progs_loop_ok base l 0 (length (programs o2)) k2 o2 O)
    as (err3 & o3 & k3 & Hx & H1 & H2 & H3 & H4 & H5); [lia|lia|exact Hown2| |lia|].
  { intros j p _ Hj. split; [eapply Forall_lookup_1; [exact Hok2 | exact Hj]|].
    eapply Forall2_lookup_r in Hps as (p0 & Hp0 & (_&_&_&_&Hi&_)); [|exact Hj].
    rewrite Hi. exact (Forall_lookup_1 _ _ j p0 Hunl Hp0). }
  change (Z.of_nat 0) with 0 in Hx. fold (zlen (programs o2)) in Hx. rewrite Hx, bind_Ok.
  destruct (Z.eqb_spec err3 0) as [->|Hne].
  - eexists _, o3, k3. split; [reflexivity|]. split; [|congruence]. intros _.
    split; [exact H1|]. split; [split; [rewrite H2, Hmaps; apply Hfd; reflexivity | apply H5; reflexivity]|].
    split; [|rewrite H2, Hmaps; exact Hms].
    eapply same_frame_trans; [|exact H4]. eapply same_frame_trans; [|exact Hfr].
    repeat split.
  - apply Hfail; [exact H1 | rewrite H2, Hmaps; exact Hpin1 | | exact Hne].
    destruct H4 as (_&_&[_ ->]&_). exact Hbtf.
Qed.
End owns.
