(* ===== verification/BpfLoad.v ===== *)
(** Loading object files: [bpf_prog_load_xattr] of libbpf, the loaders of
    [src/eBPF_app/common/common_user_bpf_xdp.c], and the variant that pins
    maps, [src/eBPF_app/common/common_libbpf.c]. *)
From S2P Require Import Prelude CLib Params XdpLink LibbpfObj LibbpfLoad.
#[local] Open Scope Z_scope.

(** What [bpf_object__open_xattr] gives: NULL, an error pointer, or an
    object. Reading the ELF file is a parameter. *)
Inductive open_ret := OpenNull | OpenErr (e : Z) | OpenOk (o : bpf_object).

(** [IS_ERR_OR_NULL(obj)] false: the object. *)
Definition opened_object (r : open_ret) : option bpf_object :=
  match r with OpenOk o => Some o | _ => None end.

(** [struct bpf_prog_load_attr] and [bpf_object_open_attr]. *)
Record bpf_prog_load_attr := mk_load_attr {
  at_file : option string; at_prog_type : Z; at_expected : Z; at_ifindex : Z;
  at_log_level : Z; at_prog_flags : Z
}.

Definition PATH_MAX : Z := 4096.

(** The path "dir/name", or [None] when it does not fit [PATH_MAX] bytes. *)
Definition map_path (dir name : string) : string := (dir ++ "/" ++ name)%string.

Section loaders.
Context {K : Type} `{BpfSys K} `{XdpDevice K}.
Context (open_xattr : K -> string -> Z -> res (open_ret * K)).
Context (find_btf : btf_lookup) (ops : btf_ext_ops).

(** * Loops over an object *)

(** [bpf_object__for_each_map(map, obj) ...] with a body that changes only
    the map. *)
Fixpoint alter_maps (f : bpf_map -> bpf_map) (ixs : list Z) (o : bpf_object) : bpf_object :=
  match ixs with
  | [] => o
  | i :: ixs => alter_maps f ixs (set_maps (alter f (Z.to_nat i) (maps o)) o)
  end.
Definition each_map (f : bpf_map -> bpf_map) (o : bpf_object) : res bpf_object :=
  ixs ← bpf_object__for_each_map o; Ok (alter_maps f ixs o).

Definition offload_map (ifindex : Z) (m : bpf_map) : bpf_map :=
  if bpf_map__is_offload_neutral m then m else bpf_map__set_ifindex ifindex m.

(** * [bpf_prog_load_xattr] (libbpf) *)

(** The loop over the programs: [None] for a program of unknown type. *)
Fixpoint setup_progs (attr : bpf_prog_load_attr) (ixs : list Z) (o : bpf_object)
    (first_prog : option Z) : res (option (bpf_object * option Z)) :=
  match ixs with
  | [] => Ok (Some (o, first_prog))
  | i :: ixs =>
      let o := if negb (at_prog_type attr =? BPF_PROG_TYPE_UNSPEC)
               then set_prog (fun p => bpf_program__set_expected_attach_type (at_expected attr)
                                         (bpf_program__set_type (at_prog_type attr) p)) i o
               else o in
      p ← aget (programs o) i;
      if bpf_program__get_type p =? BPF_PROG_TYPE_UNSPEC then Ok None else
      let o := set_prog (fun p => set_log (at_log_level attr) (at_prog_flags attr)
                                    (bpf_program__set_ifindex (at_ifindex attr) p)) i o in
      setup_progs attr ixs o (match first_prog with Some f => Some f | None => Some i end)
  end.

(** The error code, and on success the object and the first program's
    descriptor. *)
Definition bpf_prog_load_xattr (k : K) (attr : option bpf_prog_load_attr)
    : res (Z * option (bpf_object * Z) * K) :=
  match attr with
  | None => Ok (- EINVAL, None, k)
  | Some attr =>
      match at_file attr with
      | None => Ok (- EINVAL, None, k)
      | Some file =>
          '(r, k) ← open_xattr k file (at_prog_type attr);
          match opened_object r with
          | None => Ok (- ENOENT, None, k)
          | Some o =>
              ixs ← bpf_object__for_each_program o;
              r ← setup_progs attr ixs o None;
              match r with
              | None => Ok (- EINVAL, None, bpf_object__close k o)
              | Some (o, first_prog) =>
                  o ← each_map (offload_map (at_ifindex attr)) o;
                  match first_prog with
                  | None => Ok (- ENOENT, None, bpf_object__close k o)
                  | Some first =>
                      '(err, o, k) ← bpf_object__load find_btf ops k o;
                      if negb (err =? 0) then Ok (- EINVAL, None, bpf_object__close k o) else
                      Ok (0, Some (o, bpf_program__fd (programs o !! Z.to_nat first)), k)
                  end
              end
          end
      end
  end.

(** * The loaders of [common_user_bpf_xdp.c] *)

Definition load_bpf_object_file (k : K) (filename : string) (ifindex : Z)
    : res (option bpf_object * K) :=
  '(err, r, k) ← bpf_prog_load_xattr k
     (Some (mk_load_attr (Some filename) BPF_PROG_TYPE_XDP 0 ifindex 0 0));
  if negb (err =? 0) then Ok (None, k) else Ok (fmap (M := option) fst r, k).

(** The loop over the programs of [open_bpf_object]. *)
Fixpoint xdp_progs (ifindex : Z) (ixs : list Z) (o : bpf_object) (first_prog : option Z)
    : bpf_object * option Z :=
  match ixs with
  | [] => (o, first_prog)
  | i :: ixs =>
      let o := set_prog (fun p => bpf_program__set_ifindex ifindex
                           (bpf_program__set_type BPF_PROG_TYPE_XDP p)) i o in
      xdp_progs ifindex ixs o (match first_prog with Some f => Some f | None => Some i end)
  end.

Definition open_bpf_object (k : K) (file : string) (ifindex : Z)
    : res (option bpf_object * K) :=
  '(r, k) ← open_xattr k file BPF_PROG_TYPE_XDP;
  match opened_object r with
  | None => Ok (None, k)
  | Some o =>
      ixs ← bpf_object__for_each_program o;
      let '(o, first_prog) := xdp_progs ifindex ixs o None in
      o ← each_map (offload_map ifindex) o;
      Ok (match first_prog with None => None | Some _ => Some o end, k)
  end.

(** [reuse_maps]: the error code, the object and the system. *)
Fixpoint reuse_loop (k : K) (path : string) (ixs : list Z) (o : bpf_object)
    : res (Z * bpf_object * K) :=
  match ixs with
  | [] => Ok (0, o, k)
  | i :: ixs =>
      m ← aget (maps o) i;
      let buf := map_path path (bpf_map__name m) in
      if PATH_MAX <=? zlen (bytes_of buf) then Ok (- ENAMETOOLONG, o, k) else
      match sys_obj_get k buf with
      | (RErr _, k) => Ok (-1, o, k)
      | (ROk pinned_map_fd, k) =>
          let '(err, m, k) := bpf_map__reuse_fd k m pinned_map_fd in
          let o := set_maps (<[Z.to_nat i := m]> (maps o)) o in
          if negb (err =? 0) then Ok (err, o, k) else reuse_loop k path ixs o
      end
  end.
Definition reuse_maps (k : K) (o : option bpf_object) (path : option string)
    : res (Z * option bpf_object * K) :=
  match o, path with
  | None, _ => Ok (- ENOENT, None, k)
  | Some o, None => Ok (- EINVAL, Some o, k)
  | Some o, Some path =>
      ixs ← bpf_object__for_each_map o;
      '(err, o, k) ← reuse_loop k path ixs o;
      Ok (err, Some o, k)
  end.

Definition load_bpf_object_file_reuse_maps (k : K) (file : string) (ifindex : Z)
    (pin_dir : string) : res (option bpf_object * K) :=
  '(o, k) ← open_bpf_object k file ifindex;
  match o with
  | None => Ok (None, k)
  | Some o =>
      '(err, o, k) ← reuse_maps k (Some o) (Some pin_dir);
      if negb (err =? 0) then Ok (None, k) else
      match o with
      | None => Ok (None, k)
      | Some o =>
          '(err, o, k) ← bpf_object__load find_btf ops k o;
          Ok (if negb (err =? 0) then None else Some o, k)
      end
  end.

(** What a function that may call [exit] comes to. *)
Inductive outcome (A : Type) := Returns (a : A) | Exits (code : Z).
Arguments Returns {A} _.
Arguments Exits {A} _.

Definition set_progsec (c : config) (sec : list byte) : config :=
  set_strings c (filename c) sec (src_mac c) (dest_mac c).

(** [load_bpf_and_xdp_attach]: the object and the settings. *)
Definition load_bpf_and_xdp_attach (k : K) (cfg : config)
    : res (outcome (bpf_object * config) * K) :=
  let offload_ifindex :=
    if negb (Z.land (xdp_flags cfg) XDP_FLAGS_HW_MODE =? 0) then ifindex cfg else 0 in
  file ← c_string (filename cfg);
  '(bpf_obj, k) ←
    (if Params.reuse_maps cfg
     then dir ← c_string (pin_dir cfg);
          load_bpf_object_file_reuse_maps k (string_of file) offload_ifindex (string_of dir)
     else load_bpf_object_file k (string_of file) offload_ifindex);
  match bpf_obj with
  | None => Ok (Exits EXIT_FAIL_BPF, k)
  | Some o =>
      sec0 ← aget (progsec cfg) 0;
      bpf_prog ←
        (if negb (bool_decide (sec0 = NUL))
         then title ← c_string (progsec cfg);
              bpf_object__find_program_by_title o (string_of title)
         else p ← bpf_program__next None o; Ok (fmap (M := option) snd p));
      match bpf_prog with
      | None => Ok (Exits EXIT_FAIL_BPF, k)
      | Some i =>
          p ← aget (programs o) i;
          let cfg := set_progsec cfg
                       (strncpy (bytes_of (bpf_program__title p)) (length (progsec cfg))) in
          let prog_fd := bpf_program__fd (Some p) in
          if prog_fd <=? 0 then Ok (Exits EXIT_FAIL_BPF, k) else
          '(err, k) ← xdp_link_attach k (ifindex cfg) (xdp_flags cfg) prog_fd;
          if negb (err =? 0) then Ok (Exits err, k) else Ok (Returns (o, cfg), k)
      end
  end.

(** [open_bpf_map_file]: the descriptor or an error, and what has been
    found out about the map when [want_info]. A path that does not fit is
    cut. *)
Definition open_bpf_map_file (k : K) (dir mapname : string) (want_info : bool)
    : Z * option map_info * K :=
  let path := String.substring 0 (Z.to_nat (PATH_MAX - 1)) (map_path dir mapname) in
  match sys_obj_get k path with
  | (RErr _, k) => (-1, None, k)
  | (ROk fd, k) =>
      if want_info then
        match sys_obj_info k fd with
        | None => (EXIT_FAIL_BPF, None, k)
        | Some info => (fd, Some info, k)
        end
      else (fd, None, k)
  end.

(** * [bpf_prog_load_xattr_maps] ([common_libbpf.c]) *)

Record bpf_pinned_map := mk_pinned {
  pn_name : string; pn_filename : string; pn_map_fd : Z
}.
Definition set_map_fd (fd : Z) (p : bpf_pinned_map) : bpf_pinned_map :=
  mk_pinned (pn_name p) (pn_filename p) fd.

(** The inner loop of the first pass. [mapname] is the pointer taken before
    the loop; [bpf_map__reuse_fd] frees the string it points to, after
    which comparing with it reads freed memory. *)
Fixpoint reuse_pinned (k : K) (m : bpf_map) (mapname : option string)
    (pins : list bpf_pinned_map) : res (bpf_map * list bpf_pinned_map * K) :=
  match pins with
  | [] => Ok (m, [], k)
  | pin :: pins =>
      name ← or_fault UseAfterFree mapname;
      if negb (String.eqb name (pn_name pin)) then
        '(m, pins, k) ← reuse_pinned k m mapname pins; Ok (m, pin :: pins, k)
      else
        match sys_obj_get k (pn_filename pin) with
        | (ROk fd, k) =>
            if 0 <? fd then
              let '(err, m, k) := bpf_map__reuse_fd k m fd in
              let mapname := if err =? 0 then None else mapname in
              '(m, pins, k) ← reuse_pinned k m mapname pins;
              Ok (m, set_map_fd fd pin :: pins, k)
            else '(m, pins, k) ← reuse_pinned k m mapname pins; Ok (m, pin :: pins, k)
        | (RErr _, k) =>
            '(m, pins, k) ← reuse_pinned k m mapname pins; Ok (m, pin :: pins, k)
        end
  end.

Fixpoint reuse_pinned_maps (k : K) (ifindex : Z) (ixs : list Z) (o : bpf_object)
    (pins : list bpf_pinned_map) : res (bpf_object * list bpf_pinned_map * K) :=
  match ixs with
  | [] => Ok (o, pins, k)
  | i :: ixs =>
      m ← aget (maps o) i;
      let m := offload_map ifindex m in
      '(m, pins, k) ← reuse_pinned k m (Some (bpf_map__name m)) pins;
      reuse_pinned_maps k ifindex ixs (set_maps (<[Z.to_nat i := m]> (maps o)) o) pins
  end.

(** The inner loop of the second pass: pin what was not there. *)
Fixpoint pin_map (k : K) (m : bpf_map) (pins : list bpf_pinned_map)
    : bpf_map * list bpf_pinned_map * K :=
  match pins with
  | [] => (m, [], k)
  | pin :: pins =>
      if negb (String.eqb (bpf_map__name m) (pn_name pin)) || negb (pn_map_fd pin =? -1) then
        let '(m, pins, k) := pin_map k m pins in (m, pin :: pins, k)
      else
        let '(err, m', k) := bpf_map__pin k (Some m) (Some (pn_filename pin)) in
        let m := default m m' in
        let pin := if negb (err =? 0) then pin else set_map_fd (bpf_map__fd (Some m)) pin in
        let '(m, pins, k) := pin_map k m pins in (m, pin :: pins, k)
  end.
Fixpoint pin_maps (k : K) (ixs : list Z) (o : bpf_object) (pins : list bpf_pinned_map)
    : res (bpf_object * list bpf_pinned_map * K) :=
  match ixs with
  | [] => Ok (o, pins, k)
  | i :: ixs =>
      m ← aget (maps o) i;
      let '(m, pins, k) := pin_map k m pins in
      pin_maps k ixs (set_maps (<[Z.to_nat i := m]> (maps o)) o) pins
  end.

Fixpoint setup_pinned (attr : bpf_prog_load_attr) (ixs : list Z) (o : bpf_object)
    (first_prog : option Z) : bpf_object * option Z :=
  match ixs with
  | [] => (o, first_prog)
  | i :: ixs =>
      let o := set_prog (fun p => bpf_program__set_expected_attach_type (at_expected attr)
                 (bpf_program__set_type (at_prog_type attr)
                    (bpf_program__set_ifindex (at_ifindex attr) p))) i o in
      setup_pinned attr ixs o (match first_prog with Some f => Some f | None => Some i end)
  end.

(** The error code, the pinned maps, and on success the object and the
    first program's descriptor. [attr] is read before it is checked. *)
Definition bpf_prog_load_xattr_maps (k : K) (attr : option bpf_prog_load_attr)
    (pins : list bpf_pinned_map)
    : res (Z * list bpf_pinned_map * option (bpf_object * Z) * K) :=
  attr ← or_fault NullDeref attr;
  match at_file attr with
  | None => Ok (- EINVAL, pins, None, k)
  | Some file =>
      '(r, k) ← open_xattr k file (at_prog_type attr);
      match opened_object r with
      | None => Ok (- ENOENT, pins, None, k)
      | Some o =>
          ixs ← bpf_object__for_each_program o;
          let '(o, first_prog) := setup_pinned attr ixs o None in
          let pins := fmap (M := list) (set_map_fd (-1)) pins in
          ms ← bpf_object__for_each_map o;
          '(o, pins, k) ← reuse_pinned_maps k (at_ifindex attr) ms o pins;
          match first_prog with
          | None => Ok (- ENOENT, pins, None, bpf_object__close k o)
          | Some first =>
              '(err, o, k) ← bpf_object__load find_btf ops k o;
              if negb (err =? 0) then Ok (- EINVAL, pins, None, bpf_object__close k o) else
              '(o, pins, k) ← pin_maps k ms o pins;
              Ok (0, pins, Some (o, bpf_program__fd (programs o !! Z.to_nat first)), k)
          end
      end
  end.
End loaders.
