(* ===== verification/BpfLoadProps.v ===== *)
(** What the loaders guarantee about descriptors and attached programs,
    over any system that keeps to the laws of [BpfSys]. *)
From S2P Require Import Prelude CLib Params XdpLink LibbpfObj LibbpfLoad LibbpfRes BpfLoad.
#[local] Open Scope Z_scope.

Section props.
Context {K : Type} `{LS : BpfSysLaws K}.
Implicit Types (k : K) (base : gset Z) (l : list Z).

(** * Preparing an object *)

Lemma alter_maps_spec f : forall suf pre o,
  maps o = pre ++ suf ->
  alter_maps f (seqZ (zlen pre) (zlen suf)) o = set_maps (pre ++ (f <$> suf)) o.
Proof.
  induction suf as [|m suf IH]; intros pre o Hm.
  - rewrite fmap_nil, <- Hm. destruct o. reflexivity.
  - assert (zlen (m :: suf) = zlen suf + 1) as Hz by (unfold zlen; cbn; lia).
    pose proof (zlen_nonneg suf). pose proof (zlen_nonneg pre).
    rewrite seqZ_cons by lia. cbn [alter_maps].
    assert (alter f (Z.to_nat (zlen pre)) (maps o) = (pre ++ [f m]) ++ suf) as ->.
    { rewrite Hm. unfold zlen. rewrite Nat2Z.id, <- app_assoc. apply list_eq. intros j.
      rewrite list_lookup_alter. case_decide as Hj.
      - subst j. rewrite (list_lookup_middle pre suf m) by reflexivity.
        symmetry. apply list_lookup_middle. reflexivity.
      - destruct (Nat.lt_ge_cases j (length pre)).
        + rewrite !lookup_app_l by lia. reflexivity.
        + rewrite !lookup_app_r by lia. destruct (j - length pre)%nat eqn:E; [lia | reflexivity]. }
    replace (Z.succ (zlen pre)) with (zlen (pre ++ [f m])) by (rewrite zlen_app; reflexivity).
    replace (Z.pred (zlen (m :: suf))) with (zlen suf) by lia.
    rewrite (IH (pre ++ [f m])) by reflexivity. rewrite <- app_assoc. reflexivity.
Qed.

Lemma each_map_spec f o :
  zlen (maps o) < 2 ^ 62 -> each_map f o = Ok (set_maps (f <$> maps o) o).
Proof.
  intros Hn. unfold each_map. rewrite for_each_map_spec, bind_Ok by exact Hn.
  f_equal. apply (alter_maps_spec f (maps o) []). reflexivity.
Qed.

(** A fresh object: as [open] gives it, with no descriptor but that of the
    BTF, if it has one. *)
Record fresh_obj (o : bpf_object) : Prop := {
  fo_opened : opened o;
  fo_nofd : Forall (fun m => m_fd m = -1) (maps o);
  fo_btf : Forall (fun fd => -1 <= fd) (btf_fds o);
  fo_small : zlen (maps o) < 2 ^ 62 /\ zlen (programs o) < 2 ^ 62
}.

Lemma fresh_live o : fresh_obj o -> live (obj_fds o) = [].
Proof.
  intros [[_ _ _ Hi] Hm _ _]. unfold live, obj_fds. rewrite filter_app.
  assert (filter (fun fd => 0 <= fd) (map_fds (maps o)) = []) as ->.
  { induction Hm as [|m ms Hm _ IH]; [reflexivity|].
    unfold map_fds in *. rewrite fmap_cons, filter_cons, Hm. exact IH. }
  induction Hi as [|p ps Hp _ IH]; [reflexivity|].
  rewrite prog_fds_cons, Hp. exact IH.
Qed.

Lemma live_app l1 l2 : live (l1 ++ l2) = live l1 ++ live l2.
Proof. unfold live. apply filter_app. Qed.

Lemma owns_idle base k l l' : live l' = [] -> owns base k (l' ++ l) <-> owns base k l.
Proof. intros Hl. unfold owns. rewrite live_app, Hl. reflexivity. Qed.

Lemma fresh_owns base k o :
  fresh_obj o -> owns base k (btf_fds o) -> owns base k (obj_fds o ++ btf_fds o).
Proof. intros Hf. apply owns_idle, fresh_live, Hf. Qed.

(** Changing what the loaders change. *)
Lemma fresh_set_prog o i f :
  fresh_obj o ->
  (forall p, prog_key (f p) = prog_key p /\ p_instances (f p) = p_instances p /\
     (prog_ok (zlen (maps o)) p -> prog_ok (zlen (maps o)) (f p))) ->
  fresh_obj (set_prog f i o) /\ same_frame o (set_prog f i o) /\
  maps (set_prog f i o) = maps o.
Proof.
  intros [[Hl Hok Hp Hi] Hm Hb [Hs1 Hs2]] Hf. split; [split|split].
  - split; cbn; auto.
    + unfold obj_ok. cbn. apply Forall_alter; [exact Hok|]. intros p Hp' Hpo. apply Hf, Hpo.
    + apply Forall_alter; [exact Hi|]. intros p _ Hpi. destruct (Hf p) as (_ & -> & _). exact Hpi.
  - exact Hm.
  - exact Hb.
  - cbn. unfold zlen in *. rewrite length_alter. auto.
  - repeat split. cbn. apply list_eq. intros j. rewrite !list_lookup_fmap, list_lookup_alter.
    case_decide as Hj; [subst j|reflexivity].
    destruct (programs o !! Z.to_nat i) as [p|]; [|reflexivity].
    cbn. destruct (Hf p) as (-> & _). reflexivity.
  - reflexivity.
Qed.

Lemma prog_ok_set_log n lvl fl p : 0 <= lvl <= 7 -> prog_ok n p -> prog_ok n (set_log lvl fl p).
Proof. intros Hl []. split; cbn; auto. Qed.

Lemma fresh_offload ifx o :
  fresh_obj o ->
  fresh_obj (set_maps (offload_map ifx <$> maps o) o) /\
  same_frame o (set_maps (offload_map ifx <$> maps o) o).
Proof.
  intros [[Hl Hok Hp Hi] Hm Hb [Hs1 Hs2]].
  assert (zlen (offload_map ifx <$> maps o) = zlen (maps o)) as Hz
    by (unfold zlen; rewrite length_fmap; reflexivity).
  split; [split|repeat split].
  - split; cbn; auto.
    + apply prog_ok_maps; assumption.
    + apply Forall_fmap. eapply Forall_impl; [exact Hp|]. intros m Hpm. cbn.
      unfold offload_map. destruct (bpf_map__is_offload_neutral m); exact Hpm.
  - cbn. apply Forall_fmap. eapply Forall_impl; [exact Hm|]. intros m Hpm. cbn.
    unfold offload_map. destruct (bpf_map__is_offload_neutral m); exact Hpm.
  - exact Hb.
  - cbn [maps programs set_maps]. rewrite Hz. auto.
Qed.

Definition first_of (first : option Z) (ixs : list Z) : option Z :=
  match first with Some f => Some f | None => head ixs end.

Lemma setup_progs_ok attr ixs : forall o first,
  fresh_obj o -> at_prog_type attr <> BPF_PROG_TYPE_UNSPEC -> 0 <= at_log_level attr <= 7 ->
  Forall (fun i => 0 <= i < zlen (programs o)) ixs ->
  exists o', setup_progs attr ixs o first = Ok (Some (o', first_of first ixs)) /\
    fresh_obj o' /\ same_frame o o' /\ maps o' = maps o.
Proof.
  induction ixs as [|i ixs IH]; intros o first Hfr Ht Hlv Hix; cbn [setup_progs].
  { exists o. split; [destruct first; reflexivity|]. repeat split; auto; apply Hfr. }
  apply Forall_cons in Hix as [Hi Hix]. rewrite (proj2 (Z.eqb_neq _ _) Ht). cbn [negb].
  match goal with |- context [setup_progs _ _ (set_prog ?g i (set_prog ?f i o)) _] =>
    destruct (fresh_set_prog o i f Hfr) as (Hfr1 & Hsf1 & Hm1);
      [intros p; split; [reflexivity|]; split; [reflexivity|];
       intros []; split; cbn; auto|];
    destruct (fresh_set_prog (set_prog f i o) i g Hfr1) as (Hfr2 & Hsf2 & Hm2);
      [intros p; split; [reflexivity|]; split; [reflexivity|];
       intros []; split; cbn; auto|];
    set (o2 := set_prog g i (set_prog f i o)) in *; set (o1 := set_prog f i o) in * end.
  assert (0 <= i < zlen (programs o1)) as Hi1
    by (unfold o1, zlen in *; cbn; rewrite length_alter; exact Hi).
  destruct (prog_at o1 i Hi1) as (p & -> & Hp). rewrite bind_Ok.
  assert (bpf_program__get_type p = at_prog_type attr) as ->.
  { unfold o1 in Hp. cbn in Hp. rewrite list_lookup_alter, decide_True in Hp by reflexivity.
    destruct (programs o !! Z.to_nat i); [|discriminate]. cbn in Hp. injection Hp as <-. reflexivity. }
  rewrite (proj2 (Z.eqb_neq _ _) Ht).
  destruct (IH o2 (match first with Some f => Some f | None => Some i end)) as (o' & Hx & Hfr' & Hsf' & Hm');
    [exact Hfr2|exact Ht|exact Hlv| |].
  { eapply Forall_impl; [exact Hix|]. intros j. unfold o2, o1, zlen. cbn. rewrite !length_alter. auto. }
  exists o'. split; [rewrite Hx; destruct first; reflexivity|]. split; [exact Hfr'|].
  split; [|congruence]. eapply same_frame_trans; [exact Hsf1|].
  eapply same_frame_trans; eassumption.
Qed.

(** * Loading a file *)

Context (find_btf : btf_lookup) (ops : btf_ext_ops).

(** An object loaded from a file, with nothing else opened. *)
Definition loaded_obj base k (o : bpf_object) : Prop :=
  owns base k (obj_fds o ++ btf_fds o) /\ all_loaded o /\ zlen (programs o) < 2 ^ 62 /\
  zlen (maps o) < 2 ^ 62.

Lemma frame_zlen o o' : same_frame o o' -> zlen (programs o') = zlen (programs o).
Proof.
  intros (_&_&_&Hk). apply (f_equal length) in Hk. rewrite !length_fmap in Hk.
  unfold zlen. lia.
Qed.

(** An object that is closed gives back what is left: its BTF. *)
Definition only_btf base k (o : bpf_object) : Prop :=
  owns base k (btf_fds o) /\ live (obj_fds o) = [] /\ Forall (fun fd => -1 <= fd) (btf_fds o).

Lemma fresh_load base k o :
  fresh_obj o -> ops_ok ops -> owns base k (btf_fds o) ->
  exists err o' k', bpf_object__load find_btf ops k o = Ok (err, o', k') /\
    (err = 0 -> loaded_obj base k' o' /\ same_frame o o') /\
    (err <> 0 -> only_btf base k' o' /\ btf_fds o' = btf_fds o).
Proof.
  intros Hfr Hops Hob. pose proof Hfr as [Hop _ Hb [Hs1 Hs2]].
  destruct (load_ok base find_btf ops k o _ Hop Hops (fresh_owns base k o Hfr Hob))
    as (err & o' & k' & Hx & Hok & Hbad).
  exists err, o', k'. split; [exact Hx|]. split.
  - intros He. destruct (Hok He) as (Ho & Hall & Hsf & Hms). split; [|exact Hsf].
    split; [|split; [exact Hall|]].
    { destruct Hsf as (_&_&[_ Hbtf]&_). unfold btf_fds in *. rewrite Hbtf. exact Ho. }
    rewrite (frame_zlen _ _ Hsf). split; [exact Hs2|]. unfold zlen in *.
    erewrite <- Forall2_length; [exact Hs1 | exact Hms].
  - intros He. destruct (Hbad He) as (Ho & Hl & Hbtf). unfold only_btf, btf_fds in *.
    rewrite Hbtf. auto.
Qed.

Lemma close_only_btf base k o : only_btf base k o -> open_fds (bpf_object__close k o) = base.
Proof.
  intros (Ho & Hl & Hb). destruct (close_spec base k o []) as (_ & -> & _).
  - rewrite app_nil_r. apply owns_idle; assumption.
  - exact Hb.
  - cbn. set_solver.
Qed.

Lemma fresh_close base k o :
  fresh_obj o -> owns base k (btf_fds o) -> open_fds (bpf_object__close k o) = base.
Proof.
  intros Hf Ho. apply close_only_btf. split; [exact Ho|].
  split; [apply fresh_live, Hf | apply Hf].
Qed.

(** * Choosing the program *)

(** The first program that is not just storage and has the title, if one is
    asked for. *)
Definition selection (o : bpf_object) (title : list byte) : option Z :=
  List.find (fun i => match programs o !! Z.to_nat i with
                      | Some p => bool_decide (title = []) ||
                                  String.eqb (section_name p) (string_of title)
                      | None => false
                      end) (visible_after o (-1)).

Lemma selection_inv o title i :
  selection o title = Some i ->
  0 <= i < zlen (programs o) /\
  exists p, programs o !! Z.to_nat i = Some p /\ real_prog o p.
Proof.
  intros [Hin _]%List.find_some. apply list_elem_of_In, elem_of_visible_after in Hin as [Hv Hi].
  split; [lia|]. unfold visible in Hv. destruct (programs o !! Z.to_nat i) as [p|]; [|discriminate].
  exists p. split; [reflexivity|]. apply negb_true_iff in Hv. exact Hv.
Qed.

Lemma c_string_first b m s : c_string (b :: m) = Ok s -> (b = NUL <-> s = []).
Proof.
  cbn [c_string]. case_decide as Hb.
  - intros [= <-]. tauto.
  - intros H'. apply bind_Ok_inv in H' as (s' & _ & [= <-]). split; [contradiction | discriminate].
Qed.

Lemma choose_ok o buf title :
  zlen (programs o) < 2 ^ 62 -> c_string buf = Ok title ->
  (sec0 ← aget buf 0;
   (if negb (bool_decide (sec0 = NUL))
    then title ← c_string buf; bpf_object__find_program_by_title o (string_of title)
    else p ← bpf_program__next None o; Ok (fmap (M := option) snd p))) =
  Ok (selection o title).
Proof.
  intros Hn Hc. destruct buf as [|b buf]; [discriminate|].
  change (aget (b :: buf) 0) with (Ok b : res byte). rewrite bind_Ok, Hc, bind_Ok.
  apply c_string_first in Hc. unfold selection. destruct (bool_decide (b = NUL)) eqn:Eb; cbn [negb].
  - apply bool_decide_eq_true in Eb. apply Hc in Eb as ->.
    unfold bpf_program__next. rewrite (program_skip_spec _ o (-1)) by
      (pose proof (zlen_nonneg (programs o)); unfold zlen in *; lia).
    rewrite bind_Ok. f_equal. rewrite (visible_after_find o _ (-1) (le_n _)).
    destruct (List.find (visible o) (after o (-1))) as [j|] eqn:Hj; [|reflexivity].
    apply find_after_inv in Hj as [Hv _]. cbn [List.find]. unfold visible in Hv.
    destruct (programs o !! Z.to_nat j); [reflexivity | discriminate].
  - apply bool_decide_eq_false in Eb. assert (title <> []) as Ht by tauto.
    unfold bpf_object__find_program_by_title. rewrite for_each_program_spec, bind_Ok by exact Hn.
    rewrite first_prog_spec.
    + f_equal. rewrite bool_decide_false by exact Ht. reflexivity.
    + apply Forall_forall. intros i [_ Hi]%elem_of_visible_after. lia.
Qed.

(** * Files *)

Context (open_xattr : K -> string -> Z -> res (open_ret * K)).

(** Opening the file gives a fresh object, that owns the descriptor of its
    BTF, or nothing. *)
Definition open_ok k file : Prop :=
  forall t, exists r k', open_xattr k file t = Ok (r, k') /\
    match opened_object r with
    | Some o => fresh_obj o /\ owns (open_fds k) k' (btf_fds o)
    | None => open_fds k' = open_fds k
    end.

Lemma same_frame_btf o o' : same_frame o o' -> btf_fds o' = btf_fds o.
Proof. intros (_&_&[_ Hb]&_). unfold btf_fds. rewrite Hb. reflexivity. Qed.

Lemma prog_load_xattr_ok k file attr :
  open_ok k file -> ops_ok ops -> at_file attr = Some file ->
  at_prog_type attr <> BPF_PROG_TYPE_UNSPEC -> 0 <= at_log_level attr <= 7 ->
  exists err r k', bpf_prog_load_xattr open_xattr find_btf ops k (Some attr) = Ok (err, r, k') /\
    match r with
    | Some (o, fd) => err = 0 /\ loaded_obj (open_fds k) k' o
    | None => err < 0 /\ open_fds k' = open_fds k
    end.
Proof.
  intros Hopen Hops Hfile Ht Hlv. unfold bpf_prog_load_xattr. rewrite Hfile.
  destruct (Hopen (at_prog_type attr)) as (r & k1 & -> & Hr). rewrite bind_Ok.
  destruct (opened_object r) as [o|];
    [|eexists _, None, k1; split; [reflexivity|]; split; [reflexivity | exact Hr]].
  destruct Hr as [Hfr Hob]. pose proof Hfr as [_ _ _ [Hs1 Hs2]].
  rewrite for_each_program_spec, bind_Ok by exact Hs2.
  destruct (setup_progs_ok attr (visible_after o (-1)) o None Hfr Ht Hlv)
    as (o1 & -> & Hfr1 & Hsf1 & Hm1).
  { apply Forall_forall. intros i [_ Hi]%elem_of_visible_after. lia. }
  rewrite bind_Ok, each_map_spec, bind_Ok by (rewrite Hm1; exact Hs1).
  destruct (fresh_offload (at_ifindex attr) o1 Hfr1) as [Hfr2 Hsf2].
  set (o2 := set_maps _ o1) in *. cbn [first_of].
  assert (owns (open_fds k) k1 (btf_fds o2)) as Hob2
    by (rewrite (same_frame_btf _ _ Hsf2), (same_frame_btf _ _ Hsf1); exact Hob).
  destruct (head (visible_after o (-1))) as [first|].
  2:{ eexists _, None, _. split; [reflexivity|]. split; [reflexivity|].
      apply fresh_close; assumption. }
  destruct (fresh_load (open_fds k) k1 o2 Hfr2 Hops Hob2) as (err & o3 & k2 & -> & Hgood & Hbad).
  rewrite bind_Ok. destruct (Z.eqb_spec err 0) as [->|He]; cbn [negb].
  - destruct (Hgood eq_refl) as [Hl _].
    eexists _, (Some _), k2. split; [reflexivity|]. split; [reflexivity | exact Hl].
  - eexists _, None, _. split; [reflexivity|].
    split; [reflexivity|]. apply close_only_btf, (Hbad He).
Qed.

Lemma load_bpf_object_file_ok k file ifx :
  open_ok k file -> ops_ok ops ->
  exists r k', load_bpf_object_file open_xattr find_btf ops k file ifx = Ok (r, k') /\
    match r with
    | Some o => loaded_obj (open_fds k) k' o
    | None => open_fds k' = open_fds k
    end.
Proof.
  intros Hopen Hops. unfold load_bpf_object_file.
  destruct (prog_load_xattr_ok k file (mk_load_attr (Some file) BPF_PROG_TYPE_XDP 0 ifx 0 0))
    as (err & r & k' & -> & Hr); [exact Hopen|exact Hops|reflexivity|discriminate|cbn; lia|].
  rewrite bind_Ok. destruct r as [[o fd]|].
  - destruct Hr as [-> Hr]. cbn. eexists _, k'. split; [reflexivity | exact Hr].
  - destruct Hr as [He Hr]. replace (err =? 0) with false by lia. cbn [negb].
    eexists _, k'. split; [reflexivity | exact Hr].
Qed.
End props.

(** * Loading and attaching *)

Lemma loaded_fd p fd : p_instances p = Some [fd] -> 0 <= fd -> bpf_program__fd (Some p) = fd.
Proof.
  intros Hfd Hpos. unfold bpf_program__fd, bpf_program__nth_fd. rewrite Hfd.
  change (default (-1) (default [] (Some [fd]) !! Z.to_nat 0)) with fd.
  change (zlen [fd]) with 1. cbn [orb Z.leb Z.ltb Z.compare].
  replace (fd <? 0) with false by lia. reflexivity.
Qed.

(** The device programs are offloaded to, if asked for. *)
Definition offload_ifindex (cfg : config) : Z :=
  if negb (Z.land (xdp_flags cfg) XDP_FLAGS_HW_MODE =? 0) then ifindex cfg else 0.

(** What [load_bpf_and_xdp_attach] comes to, by what loading gives. *)
Definition load_attach_outcome {K} `{BpfSys K} `{XdpDevice K} open_xattr find_btf ops (k : K)
    (cfg : config) (title : list byte) (ro : option bpf_object) (k1 : K) : Prop :=
  let result r k' := load_bpf_and_xdp_attach open_xattr find_btf ops k cfg = Ok (r, k') in
  match ro with
  | None => result (Exits _ EXIT_FAIL_BPF) k1 /\ open_fds k1 = open_fds k
  | Some o => loaded_obj (open_fds k) k1 o /\
     match selection o title with
     | None => result (Exits _ EXIT_FAIL_BPF) k1
     | Some i => exists p fd, programs o !! Z.to_nat i = Some p /\ p_instances p = Some [fd] /\
         if fd =? 0 then result (Exits _ EXIT_FAIL_BPF) k1 else
         (forall m q, attached k1 (ifindex cfg) = Some (m, q) -> explicit_mode m) ->
         link_ready k1 (ifindex cfg) -> forall q, prog_of k1 fd = Some q ->
         exists k', keeps_links k1 k' (ifindex cfg) /\
           if noexist (xdp_flags cfg) && bool_decide (is_Some (attached k1 (ifindex cfg)))
           then result (Exits _ EXIT_FAIL_XDP) k' /\
             attached k' (ifindex cfg) = attached k1 (ifindex cfg)
           else result (Returns _ (o, set_progsec cfg (strncpy (bytes_of (section_name p))
                                                         (length (progsec cfg))))) k' /\
             attached k' (ifindex cfg) = Some (mode_bits (xdp_flags cfg), q)
     end
  end.

Lemma load_attach_spec {K} `{BpfSysLaws K} `{XdpDeviceLaws K} open_xattr find_btf ops k cfg
    file title :
  open_ok open_xattr k (string_of file) -> ops_ok ops -> Params.reuse_maps cfg = false ->
  c_string (filename cfg) = Ok file -> c_string (progsec cfg) = Ok title ->
  plain_flags (xdp_flags cfg) ->
  exists ro k1, load_bpf_object_file open_xattr find_btf ops k (string_of file)
                  (offload_ifindex cfg) = Ok (ro, k1) /\
    load_attach_outcome open_xattr find_btf ops k cfg title ro k1.
Proof.
  intros Hopen Hops Hre Hfile Htitle Hmode.
  destruct (load_bpf_object_file_ok find_btf ops open_xattr k (string_of file)
    (offload_ifindex cfg) Hopen Hops) as (ro & k1 & Hload & Hr).
  exists ro, k1. split; [exact Hload|]. unfold load_attach_outcome, load_bpf_and_xdp_attach.
  rewrite Hfile, bind_Ok, Hre. fold (offload_ifindex cfg). rewrite Hload, bind_Ok.
  destruct ro as [o|]; [|auto]. split; [exact Hr|].
  pose proof Hr as (_ & (_ & Hall) & Hn & _).
  pose proof (choose_ok o (progsec cfg) title Hn Htitle) as Hch.
  destruct (aget (progsec cfg) 0) as [sec0|]; [|discriminate].
  rewrite bind_Ok in Hch. rewrite bind_Ok, Hch, bind_Ok.
  destruct (selection o title) as [i|] eqn:Hsel; [|reflexivity].
  pose proof (selection_inv o title i Hsel) as (Hi & p & Hp & Hreal).
  destruct (prog_at o i Hi) as (p' & -> & Hp'). rewrite Hp in Hp'. injection Hp' as <-.
  rewrite bind_Ok.
  destruct (Hall p) as (fd & Hfd & Hpos); [apply list_elem_of_lookup; eauto | exact Hreal |].
  exists p, fd. split; [exact Hp|]. split; [exact Hfd|]. rewrite (loaded_fd p fd Hfd Hpos).
  destruct (Z.eqb_spec fd 0) as [->|Hne]; [reflexivity|].
  replace (fd <=? 0) with false by lia. cbn [ifindex xdp_flags set_progsec set_strings].
  intros Hm Hready q Hq.
  pose proof (attach_spec k1 (ifindex cfg) (xdp_flags cfg) fd q Hready Hq Hmode Hm) as Hat.
  destruct (noexist (xdp_flags cfg) && bool_decide (is_Some (attached k1 (ifindex cfg))));
    destruct Hat as (k' & -> & Hk1 & Hk2).
  - exists k'. auto.
  - exists k'. auto.
Qed.
