(* ===== verification/DemoSys.v ===== *)
(** A small kernel that keeps to the laws of [BpfSys] and [XdpDevice]: a
    table of descriptors, pinned maps and devices. It shows that the laws
    can hold, and runs the loaders on concrete objects. *)
From S2P Require Import Prelude CLib Params XdpLink LibbpfObj LibbpfLoad BpfLoad.
#[local] Open Scope Z_scope.

Record demo := mk_demo {
  fds : gset Z;
  pins : list (string * Z);
  devs : devices;
  refuse_load : bool
}.

(** The least descriptor above all that are open. *)
Definition max_fd (X : gset Z) : Z := foldr Z.max 0 (elements X).
Definition new_fd (d : demo) : Z := max_fd (fds d) + 1.

Definition set_fds (X : gset Z) (d : demo) : demo := mk_demo X (pins d) (devs d) (refuse_load d).
Definition add_fd (d : demo) : sysret * demo :=
  (ROk (new_fd d), set_fds ({[ new_fd d ]} ∪ fds d) d).

Definition demo_info : map_info := mk_info "pkt_payload" 2 4 1064 65536 0 0 0.

Definition demo_close (d : demo) (fd : Z) : sysret * demo :=
  if decide (fd ∈ fds d) then (ROk 0, set_fds (fds d ∖ {[ fd ]}) d) else (RErr 9, d).

#[export] Instance demo_sys : BpfSys demo := {|
  open_fds := fds;
  sys_errno _ := ENOMEM;
  sys_alloc d := (true, d);
  sys_obj_get d path :=
    if existsb (fun p => String.eqb (fst p) path) (pins d) then add_fd d else (RErr ENOENT, d);
  sys_obj_info d fd := if decide (fd ∈ fds d) then Some demo_info else None;
  sys_open_root := add_fd;
  sys_dup3 d fd new := if decide (new ∈ fds d) then (ROk new, d) else (RErr 9, d);
  sys_close := demo_close;
  sys_mkdir d _ := (RErr EEXIST, d);
  sys_statfs _ _ := ROk BPF_FS_MAGIC;
  sys_unlink d path := (ROk 0, d);
  sys_obj_pin d fd path := (ROk 0, mk_demo (fds d) ((path, fd) :: pins d) (devs d) (refuse_load d));
  sys_map_create d _ := add_fd d;
  sys_map_update d _ _ := (ROk 0, d);
  sys_map_freeze d _ := (ROk 0, d);
  sys_prog_load d a :=
    if refuse_load d then (mk_answer (RErr EINVAL) 0 0 true, d)
    else let '(r, d) := add_fd d in (mk_answer r 0 0 false, d);
  num_possible_cpus _ := 4;
  sys_garbage _ := false;
  dirname p := p
|}.

Lemma foldr_max_le (l : list Z) x : x ∈ l -> x <= foldr Z.max 0 l.
Proof. induction 1 as [x l|x y l _ IH]; cbn; lia. Qed.

Lemma new_fd_fresh d : 0 <= new_fd d /\ (new_fd d ∉ fds d).
Proof.
  unfold new_fd, max_fd. split.
  - induction (elements (fds d)); cbn; lia.
  - intros Hin. apply elem_of_elements, foldr_max_le in Hin. lia.
Qed.

Lemma add_fd_gives d : gives_fd d (add_fd d).
Proof.
  unfold gives_fd, add_fd. cbn [fst snd]. pose proof (new_fd_fresh d). split; [tauto|].
  split; [tauto | reflexivity].
Qed.

#[export] Instance demo_sys_laws : BpfSysLaws demo.
Proof.
  split; try reflexivity; try (intros; apply add_fd_gives); try (intros; split; [reflexivity | exact I]).
  - intros k p. cbn. destruct (existsb _ _); [apply add_fd_gives|]. split; reflexivity.
  - intros k a. cbn. destruct (refuse_load k); [split; reflexivity|]. apply add_fd_gives.
  - intros; split; reflexivity.
  - intros k fd Hfd. cbn in *. unfold demo_close. rewrite decide_True by exact Hfd.
    split; reflexivity.
  - intros k fd Hfd. cbn in *. unfold demo_close. rewrite decide_False by exact Hfd. reflexivity.
  - intros k fd new. cbn. case_decide; (split; [split; [reflexivity|]|]); cbn; auto; lia.
  - intros k a. cbn. destruct (refuse_load k); cbn; lia.
  - intros k a _. cbn. destruct (refuse_load k); discriminate.
Qed.

Definition with_devs (d : demo) (k : devices) : demo :=
  mk_demo (fds d) (pins d) k (refuse_load d).
#[export] Instance demo_sys_device : XdpDevice demo := {|
  bpf_set_link_xdp_fd d i fd flags :=
    '(r, k) ← bpf_set_link_xdp_fd (devs d) i fd flags; Ok (r, with_devs d k);
  bpf_get_link_xdp_id d i flags :=
    '(r, p, k) ← bpf_get_link_xdp_id (devs d) i flags; Ok (r, p, with_devs d k);
  attached d := attached (devs d);
  prog_of d := prog_of (devs d);
  link_ready d := link_ready (devs d)
|}.

Lemma demo_keeps d k i : keeps_links (devs d) k i -> keeps_links d (with_devs d k) i.
Proof. exact (fun H => H). Qed.
Lemma demo_same d k i : same_links (devs d) k i -> same_links d (with_devs d k) i.
Proof. exact (fun H => H). Qed.

#[export] Instance demo_sys_device_laws : XdpDeviceLaws demo.
Proof.
  split; unfold bpf_set_link_xdp_fd, bpf_get_link_xdp_id, attached, prog_of, link_ready;
    cbn [demo_sys_device]; intros k.
  - apply (attached_id (devs k)).
  - apply (prog_of_range (devs k)).
  - intros i fd flags m p q H1 H2 H3 H4 H5.
    destruct (set_other_mode (devs k) i fd flags m p q H1 H2 H3 H4 H5) as (k' & -> & H).
    eexists. split; [reflexivity | exact (demo_same _ _ _ H)].
  - intros i fd flags p q H1 H2 H3 H4 H5.
    destruct (set_busy (devs k) i fd flags p q H1 H2 H3 H4 H5) as (k' & -> & H).
    eexists. split; [reflexivity | exact (demo_same _ _ _ H)].
  - intros i fd flags q H1 H2 H3 H4.
    destruct (set_attaches (devs k) i fd flags q H1 H2 H3 H4) as (k' & -> & H5 & H6).
    eexists. split; [reflexivity|]. split; [exact H5 | exact (demo_keeps _ _ _ H6)].
  - intros i flags H1 H2. destruct (set_removes (devs k) i flags H1 H2) as (k' & -> & H5 & H6).
    eexists. split; [reflexivity|]. split; [exact H5 | exact (demo_keeps _ _ _ H6)].
  - intros i flags H1 H2. destruct (get_asks (devs k) i flags H1 H2) as (k' & -> & H).
    eexists. split; [reflexivity | exact (demo_same _ _ _ H)].
Qed.

(** * The object of the experiment *)

Definition demo_prog (idx : Z) (sec : string) : bpf_program :=
  mk_prog idx (Some "xdp_sock_prog"%string) 0 sec
    (Some [mk_insn 24 1 0 0 0; mk_insn 0 0 0 0 0; mk_insn 149 0 0 0 0]) 0 0
    (Some [mk_reloc RELO_LD64 0 1]) 0 None 0 0 [] 0 0 [] 0 0 0.
Definition demo_map (nm : string) : bpf_map :=
  mk_map (-1) nm 4 0 (-1) (mk_def 2 4 8 65536 0) 0 0 LIBBPF_MAP_UNSPEC None false false.

(** Two programs and three maps, as [ebpf_measure_kern.c] defines them. *)
Definition demo_obj : bpf_object :=
  mk_obj 1 "GPL" 0 [demo_prog 3 "xdp_other"; demo_prog 5 "xdp_sock"]
    [demo_map "uid_timestamps"; demo_map "pkt_payload"; demo_map "xdp_stats_map"]
    [] [] false false true 1 0 None false.

Definition demo_open (d : demo) (file : string) (t : Z) : res (open_ret * demo) :=
  Ok (OpenOk demo_obj, d).
Definition no_btf : btf_lookup := fun _ _ => (- ENOENT, (0, 0)).
Definition no_core : btf_ext_ops :=
  mk_btf_ext (fun o => (0, o)) (fun o _ _ _ => (0, o)).

Definition demo_start : demo := mk_demo {[ 0; 1; 2 ]} [] ∅ false.
Definition demo_refuses : demo := mk_demo {[ 0; 1; 2 ]} [] ∅ true.
