(* ===== verification/LoaderProps.v ===== *)
(** The theorems about loading: an object loads completely or leaves no
    descriptor behind; the program asked for is the one attached; reusing
    pinned maps leaks their descriptors; the pinning loader reads freed
    memory. *)
From S2P Require Import Prelude CLib Params XdpLink LibbpfObj LibbpfLoad LibbpfRes BpfLoad BpfLoadProps DemoSys.
#[local] Open Scope Z_scope.

(** * All or nothing *)


Lemma demo_obj_fresh : fresh_obj demo_obj.
Proof.
  assert (forall i s, prog_ok 3 (demo_prog i s)) as Hp.
  { intros i s. split; cbn; [lia|auto with lia|auto with lia|discriminate|].
    repeat constructor; cbn; lia. }
  split; [split|..]; cbn; auto.
  - unfold obj_ok. cbn. repeat (constructor; try apply Hp).
  - unfold zlen. cbn. lia.
Qed.

Lemma no_core_ok : ops_ok no_core.
Proof. split; intros; apply step_refl; assumption. Qed.


(** * Loading and attaching *)

(** [load_bpf_and_xdp_attach], not reusing maps, in an explicit mode.
    Either the object cannot be loaded, the program exits with
    [EXIT_FAIL_BPF] and nothing stays open; or the object is loaded, and
    the first program with the section name asked for (the first one at
    all, for an empty name) is attached in that mode, unless there is no
    such program (EXIT_FAIL_BPF), its descriptor is 0 (the same), or the
    device has a program already and replacing it was not forced
    (EXIT_FAIL_XDP, and the device keeps its program). *)
Theorem load_attach_correct {K} `{BpfSysLaws K} `{XdpDeviceLaws K} open_xattr find_btf ops k cfg
    file title :
  open_ok open_xattr k (string_of file) -> ops_ok ops -> Params.reuse_maps cfg = false ->
  c_string (filename cfg) = Ok file -> c_string (progsec cfg) = Ok title ->
  plain_flags (xdp_flags cfg) ->
  exists ro k1, load_bpf_object_file open_xattr find_btf ops k (string_of file)
                  (offload_ifindex cfg) = Ok (ro, k1) /\
    load_attach_outcome open_xattr find_btf ops k cfg title ro k1.
Proof. apply load_attach_spec. Qed.

(** The settings of [ebpf_measure -d eth0 -S --filename ebpf_measure_kern.o]. *)
Definition demo_cfg : config :=
  mk_config XDP_FLAGS_SKB_MODE 3 [] 0 [] false false [NUL]
    (strncpy (bytes_of "ebpf_measure_kern.o") 512) (strncpy (bytes_of "xdp_sock") 32)
    [] [] 0 0 false true.
Arguments demo_cfg : simpl never.

Lemma demo_open_ok k file : open_ok demo_open k file.
Proof.
  intros t. eexists _, k. split; [reflexivity|]. split; [exact demo_obj_fresh|].
  split; [constructor|]. cbn. split; set_solver.
Qed.

Definition demo_attach : res (outcome (bpf_object * config) * demo) :=
  load_bpf_and_xdp_attach demo_open no_btf no_core demo_start demo_cfg.

Lemma demo_loads :
  match demo_attach with Ok (Returns _ _, k) => devs k !! 3 | _ => None end =
  Some (XDP_FLAGS_SKB_MODE, 8).
Proof. vm_compute. reflexivity. Qed.

Lemma load_attach_correct_witness :
  exists ro k1, load_bpf_object_file demo_open no_btf no_core demo_start
      (string_of (bytes_of "ebpf_measure_kern.o")) (offload_ifindex demo_cfg) = Ok (ro, k1) /\
    load_attach_outcome demo_open no_btf no_core demo_start demo_cfg (bytes_of "xdp_sock") ro k1 /\
    match demo_attach with Ok (Returns _ _, k) => devs k !! 3 | _ => None end =
      Some (XDP_FLAGS_SKB_MODE, 8).
Proof.
  destruct (load_attach_correct demo_open no_btf no_core demo_start demo_cfg
    (bytes_of "ebpf_measure_kern.o") (bytes_of "xdp_sock") (demo_open_ok _ _) no_core_ok)
    as (ro & k1 & Hl & Ho); [vm_compute; reflexivity..|split; [left|]; reflexivity|].
  exists ro, k1. split; [exact Hl|]. split; [exact Ho | exact demo_loads].
Defined.

(** * Reusing pinned maps *)

Section reuse.
Context {K : Type} `{LS : BpfSysLaws K}.
Implicit Types (k : K) (base : gset Z) (l : list Z).

(** A map that takes over a descriptor: its own copy of it is new. *)
Lemma reuse_fd_owns base k m fd l m' k' :
  owns base k (m_fd m :: l) -> bpf_map__reuse_fd k m fd = (0, m', k') ->
  0 <= m_fd m' /\ owns base k' (m_fd m' :: l) /\ reused m' = true.
Proof.
  intros Ho. unfold bpf_map__reuse_fd. destruct (sys_obj_info k fd) as [info|]; [|discriminate].
  pose proof (alloc_owns base k _ Ho) as Ho1. pose proof (alloc_errno k) as Hen.
  destruct (sys_alloc k) as [[] k1]; cbn [fst snd negb] in *;
    [|rewrite Hen by reflexivity; discriminate].
  pose proof (open_root_fds k1) as Hg. destruct (sys_open_root k1) as [[new|e] k2];
    [|intros [= He _ _]; destruct Hg as [Hp _]; cbn in Hp; lia].
  destruct (owns_give base k1 k2 new _ Hg Ho1) as [Hnew Ho2].
  pose proof (dup3_fds k2 fd new) as [[Hd Hp] Hv].
  destruct (sys_dup3 k2 fd new) as [[v|e] k3]; [|intros [= He _ _]; cbn in Hp; lia].
  cbn in Hv, Hd. subst v. pose proof (owns_keep base k2 k3 _ Hd Ho2) as Ho3.
  rewrite (Permutation_swap (m_fd m) new l) in Ho3. apply owns_close in Ho3 as [Hc Ho3].
  destruct (zclose k3 (m_fd m)) as [r k4]. cbn [fst snd] in *. subst r.
  intros [= <- <-]. auto.
Qed.

Lemma reuse_loop_leaks path n : forall base k (i : nat) o o' k' l,
  length (maps o) = (i + n)%nat -> owns base k (map_fds (maps o) ++ l) ->
  reuse_loop k path (seqZ (Z.of_nat i) (Z.of_nat n)) o = Ok (0, o', k') ->
  exists leaked, length leaked = n /\ NoDup leaked /\ base ## list_to_set leaked /\
    owns (base ∪ list_to_set leaked) k' (map_fds (maps o') ++ l) /\
    programs o' = programs o /\ length (maps o') = length (maps o) /\
    (forall j : nat, (j < i)%nat -> maps o' !! j = maps o !! j) /\
    (forall (j : nat) m, (i <= j)%nat -> maps o' !! j = Some m -> 0 <= m_fd m).
Proof.
  induction n as [|n IH]; intros base k i o o' k' l Hn Ho Hx.
  { cbn in Hx. injection Hx as <- <-. exists []. cbn. rewrite union_empty_r_L.
    split; [reflexivity|]. split; [constructor|]. split; [set_solver|]. split; [exact Ho|].
    split; [reflexivity|]. split; [reflexivity|]. split; [reflexivity|]. intros j m Hj Hm.
    apply lookup_lt_Some in Hm. lia. }
  rewrite seqZ_cons in Hx by lia. replace (Z.succ (Z.of_nat i)) with (Z.of_nat (S i)) in Hx by lia.
  replace (Z.pred (Z.of_nat (S n))) with (Z.of_nat n) in Hx by lia. cbn [reuse_loop] in Hx.
  destruct (lookup_lt_is_Some_2 (maps o) i) as [m Hm]; [lia|].
  assert (aget (maps o) (Z.of_nat i) = Ok m) as Hget
    by (apply aget_Ok; rewrite Nat2Z.id; auto with lia).
  rewrite Hget, bind_Ok, Nat2Z.id in Hx.
  destruct (PATH_MAX <=? _); [discriminate|].
  pose proof (obj_get_fds k (map_path path (bpf_map__name m))) as Hg.
  destruct (sys_obj_get k (map_path path (bpf_map__name m))) as [[fd|e] k1]; [|discriminate].
  destruct (owns_foreign base k k1 fd _ Hg Ho) as [Ho1 Hnew].
  destruct (bpf_map__reuse_fd k1 m fd) as [[err m'] k2] eqn:Hre.
  destruct (Z.eqb_spec err 0) as [->|]; cbn [negb] in Hx; [|congruence].
  assert (maps o = take i (maps o) ++ m :: drop (S i) (maps o)) as Hsplit
    by (symmetry; apply take_drop_middle, Hm).
  assert (<[i := m']> (maps o) = take i (maps o) ++ m' :: drop (S i) (maps o)) as Hins
    by (apply insert_take_drop; lia).
  rewrite Hsplit in Ho1. rewrite map_fds_app in Ho1. cbn in Ho1.
  rewrite <- app_assoc in Ho1. cbn in Ho1. rewrite <- Permutation_middle in Ho1.
  destruct (reuse_fd_owns _ _ _ _ _ _ _ Ho1 Hre) as (Hfd & Ho2 & _).
  destruct (IH (base ∪ {[ fd ]}) k2 (S i) (set_maps (<[i := m']> (maps o)) o) o' k' l)
    as (leaked & H1 & H2 & H3 & H4 & H5 & H6 & H7 & H8); [cbn; rewrite length_insert; lia| |exact Hx|].
  { cbn. rewrite Hins, map_fds_app. cbn. rewrite <- app_assoc. cbn.
    rewrite <- Permutation_middle. exact Ho2. }
  exists (fd :: leaked). split; [cbn; lia|]. split; [constructor; [|exact H2]; set_solver|].
  split; [set_solver|]. split; [|split; [exact H5|split; [|split]]].
  - cbn. rewrite assoc_L by apply _. exact H4.
  - rewrite H6. cbn. apply length_insert.
  - intros j Hj. rewrite H7 by lia. cbn. apply list_lookup_insert_ne. lia.
  - intros j q Hj Hq. destruct (decide (j = i)) as [->|]; [|apply (H8 j); [lia | exact Hq]].
    rewrite H7 in Hq by lia. cbn in Hq. rewrite list_lookup_insert_eq in Hq by lia.
    injection Hq as <-. exact Hfd.
Qed.
End reuse.

(** When [reuse_maps] succeeds on a fresh object, every map has a
    descriptor of its own, a copy of the pinned map's; the descriptors of
    the pinned maps themselves, one per map, stay open and are in no field
    of the object: nothing can close them any more. *)
Theorem reuse_maps_leaks {K} `{BpfSysLaws K} base k o path o' k' :
  fresh_obj o -> owns base k (btf_fds o) -> reuse_maps k (Some o) (Some path) = Ok (0, Some o', k') ->
  Forall (fun m => 0 <= m_fd m) (maps o') /\ length (maps o') = length (maps o) /\
  exists leaked, length leaked = length (maps o) /\ NoDup leaked /\
    base ## list_to_set leaked /\
    owns (base ∪ list_to_set leaked) k' (obj_fds o' ++ btf_fds o).
Proof.
  intros Hfr Hob Hx. pose proof Hfr as [_ _ _ [Hs1 _]]. unfold reuse_maps in Hx.
  rewrite for_each_map_spec, bind_Ok in Hx by exact Hs1.
  apply bind_Ok_inv in Hx as ([[err o1] k1] & Hx & [= -> -> ->]).
  pose proof (fresh_owns base k o Hfr Hob) as Ho. unfold obj_fds in Ho. rewrite <- app_assoc in Ho.
  change 0 with (Z.of_nat 0) in Hx at 1.
  destruct (reuse_loop_leaks path (length (maps o)) base k O o o' k' _ eq_refl Ho Hx)
    as (leaked & H1 & H2 & H3 & H4 & H5 & H6 & _ & H7).
  split; [|split; [exact H6|]].
  - apply Forall_lookup. intros j m Hj. apply (H7 j m); [lia | exact Hj].
  - exists leaked. split; [exact H1|]. split; [exact H2|]. split; [exact H3|].
    unfold obj_fds. rewrite H5, <- app_assoc. exact H4.
Qed.

(** The kernel with the maps of the experiment pinned. *)
Definition demo_pinned : demo :=
  mk_demo {[ 0; 1; 2 ]}
    [("/uid_timestamps", 0); ("/pkt_payload", 0); ("/xdp_stats_map", 0)]%string ∅ false.
Definition demo_reuse : res (Z * option bpf_object * demo) :=
  reuse_maps demo_pinned (Some demo_obj) (Some ""%string).
Definition reuse_summary (x : res (Z * option bpf_object * demo)) : option (Z * list Z * Z) :=
  match x with
  | Ok (err, Some o, d) => Some (err, map_fds (maps o), Z.of_nat (size (fds d)))
  | _ => None
  end.

Lemma demo_reuse_value : reuse_summary demo_reuse = Some (0, [4; 6; 8], 9).
Proof. vm_compute. reflexivity. Qed.

Lemma reuse_maps_leaks_witness :
  exists o' k', demo_reuse = Ok (0, Some o', k') /\
    exists leaked, length leaked = 3%nat /\ owns (fds demo_pinned ∪ list_to_set leaked) k' (obj_fds o').
Proof.
  pose proof demo_reuse_value as Hv. destruct demo_reuse as [[[err [o'|]] k']|e] eqn:Hx;
    try discriminate.
  cbn [reuse_summary] in Hv. injection Hv as -> _ _. exists o', k'. split; [reflexivity|].
  destruct (reuse_maps_leaks (fds demo_pinned) demo_pinned demo_obj "" o' k' demo_obj_fresh)
    as (_ & _ & leaked & Hl & _ & _ & Ho);
    [split; [constructor|]; cbn; split; set_solver | exact Hx |].
  exists leaked. split; [exact Hl|]. rewrite app_nil_r in Ho. exact Ho.
Defined.

(** * The loader that pins maps *)

Lemma setup_pinned_maps attr ixs : forall o first,
  maps (fst (setup_pinned attr ixs o first)) = maps o.
Proof. induction ixs as [|i ixs IH]; intros o first; [reflexivity|]. cbn [setup_pinned]. rewrite IH. reflexivity. Qed.


Definition demo_attr : bpf_prog_load_attr :=
  mk_load_attr (Some "ebpf_measure_kern.o"%string) BPF_PROG_TYPE_XDP 0 0 0 0.

Definition demo_pin1 : bpf_pinned_map := mk_pinned "uid_timestamps" "/uid_timestamps" 0.
Definition demo_pin2 : bpf_pinned_map := mk_pinned "pkt_payload" "/pkt_payload" 0.
Definition demo_got : demo := snd (sys_obj_get demo_pinned "/uid_timestamps").
Definition demo_taken : Z * bpf_map * demo :=
  bpf_map__reuse_fd demo_got (demo_map "uid_timestamps") 3.

