(* ===== verification/EbpfMain.v ===== *)
(** [main] of the eBPF measurement program,
    [src/eBPF_app/eBPF_measure/ebpf_measure_user.c]: options, loading and
    attaching (or unloading), the polling loop, both log files, detaching. *)
From S2P Require Import Prelude CommonH CLib BpfMap EbpfUser Params XdpLink LibbpfObj LibbpfLoad LibbpfRes BpfLoad BpfLoadProps DemoSys LoaderProps.
From Stdlib Require Import Strings.Ascii.
#[local] Open Scope Z_scope.

Definition EXIT_FAILURE : Z := 1.

(** * The options *)

Definition long_opt (nm : string) (arg : bool) (v : Z) (help : string)
    (metavar : option string) (req : bool) : option_wrapper :=
  mk_wrapper (mk_option (Some (bytes_of nm)) arg v) (bytes_of help) (bytes_of <$> metavar) req.

Definition long_options : list option_wrapper :=
  [long_opt "help" false (chr "h"%char) "Show help" None false;
   long_opt "dev" true (chr "d"%char) "Operate on device <ifname>" (Some "<ifname>") true;
   long_opt "skb-mode" false (chr "S"%char) "Install XDP program in SKB (AKA generic) mode" None false;
   long_opt "native-mode" false (chr "N"%char) "Install XDP program in native mode" None false;
   long_opt "auto-mode" false (chr "A"%char) "Auto-detect SKB or native mode" None false;
   long_opt "force" false (chr "F"%char) "Force install, replacing existing program on interface"
     None false;
   long_opt "copy" false (chr "c"%char) "Force copy mode" None false;
   long_opt "zero-copy" false (chr "z"%char) "Force zero-copy mode" None false;
   long_opt "queue" true (chr "Q"%char) "Configure interface receive queue for AF_XDP, default=0"
     None false;
   long_opt "poll-mode" false (chr "p"%char) "Use the poll() API waiting for packets to arrive"
     None false;
   long_opt "unload" false (chr "U"%char) "Unload XDP program instead of loading" None false;
   long_opt "quiet" false (chr "q"%char) "Quiet mode (no output)" None false;
   long_opt "filename" true 1 "Load program from <file>" (Some "<file>") false;
   long_opt "progsec" true 2 "Load program in <section> of the ELF file" (Some "<section>") false;
   mk_wrapper (mk_option None false 0) [] None false]%string.

(** [struct config cfg = { .ifindex = -1, .progsec = "xdp_sock" }]. *)
Definition initial_config : config :=
  mk_config 0 (-1) (replicate 16 NUL) 0 (replicate 16 NUL) false false (replicate 512 NUL)
    (replicate 512 NUL) (strncpy (bytes_of "xdp_sock") 32) (replicate 18 NUL)
    (replicate 18 NUL) 0 0 false true.

(** * main *)

(** The exit code, the text of [usage], and the two log files with the
    number of zero entries reported. *)
Record main_result := mk_main {
  mr_code : Z;
  mr_text : list (list byte);
  mr_log : option (list string * Z);
  mr_kern : option (list string)
}.
Definition exit_with (code : Z) : main_result := mk_main code [] None None.

Section main.
Context {K P T : Type} `{BpfSys K} `{XdpDevice K} `{ArrayMap P (list byte)} `{ArrayMap T Z}.
Context (open_xattr : K -> string -> Z -> res (open_ret * K)).
Context (find_btf : btf_lookup) (ops : btf_ext_ops).
Context (if_nametoindex : list byte -> Z).
Context (getopt_long : list option_ -> res (list (Z * option (list byte)))).
(** Whether the array of options can be allocated, the uninitialised buffer
    of [usage], and the rows [malloc] gives for the log. *)
Context (options_ok : bool) (usage_buf : list byte) (malloc : Z -> option (list Z)).
(** What the maps hold at every poll and at the end, by descriptor; whether
    the log files can be opened. *)
Context (polls : Z -> list (P * Z)) (times : Z -> T) (fopen_us fopen_kern : bool).

(** The descriptors of the two maps, or the exit code. Without a file they
    keep the value of an uninitialised global. *)
Definition setup_maps (k : K) (cfg : config) : res ((Z * Z + Z) * K) :=
  first ← aget (filename cfg) 0;
  if bool_decide (first = NUL) then Ok (inl (0, 0), k) else
  '(r, k) ← load_bpf_and_xdp_attach open_xattr find_btf ops k cfg;
  match r with
  | Exits _ code => Ok (inr code, k)
  | Returns _ (bpf_obj, _) =>
      time_map ← bpf_object__find_map_by_name bpf_obj "uid_timestamps";
      let time_xsks_map_fd := bpf_map__fd time_map in
      if time_xsks_map_fd <? 0 then Ok (inr EXIT_FAILURE, k) else
      pkt_map ← bpf_object__find_map_by_name bpf_obj "pkt_payload";
      let pkt_map_fd := bpf_map__fd pkt_map in
      if pkt_map_fd <? 0 then Ok (inr EXIT_FAILURE, k) else
      Ok (inl (time_xsks_map_fd, pkt_map_fd), k)
  end.

(** From the allocation of the log on. *)
Definition measure (k : K) (cfg : config) (time_fd pkt_fd : Z) : res (main_result * K) :=
  match malloc_log_buffs malloc with
  | inr _ => Ok (exit_with (-1), k)
  | inl log_buffs =>
      '(_, log_buffs) ← fetch_loop (polls pkt_fd) 0 log_buffs;
      if negb fopen_us then Err NullDeref else
      log ← export_user_log log_buffs;
      if negb fopen_kern then Err NullDeref else
      let kern := export_kern_log (times time_fd) in
      '(_, k) ← xdp_link_detach k (ifindex cfg) (xdp_flags cfg) 0;
      Ok (mk_main EXIT_OK [] (Some log) (Some kern), k)
  end.

Definition main (k : K) (argc : Z) (argv0 : list byte) : res (main_result * K) :=
  cmd ← parse_cmdline_args if_nametoindex getopt_long options_ok usage_buf argv0
          (bytes_of "__doc__") long_options initial_config;
  match cmd with
  | CmdExit code text => Ok (mk_main code text None None, k)
  | CmdConfig cfg =>
      if ifindex cfg =? -1 then
        text ← usage usage_buf argv0 (bytes_of "__doc__") long_options (argc =? 1);
        Ok (mk_main EXIT_FAIL_OPTION text None None, k)
      else if do_unload cfg then
        '(r, k) ← xdp_link_detach k (ifindex cfg) (xdp_flags cfg) 0;
        Ok (exit_with r, k)
      else
        '(r, k) ← setup_maps k cfg;
        match r with
        | inr code => Ok (exit_with code, k)
        | inl (time_fd, pkt_fd) => measure k cfg time_fd pkt_fd
        end
  end.
End main.

(** What [main] of the eBPF measurement program comes to. *)

Section main_props.
Context {K P T : Type} `{LK : BpfSysLaws K} `{LD : XdpDeviceLaws K}.
Context `{LP : ArrayMapLaws P (list byte)} `{LT : ArrayMapLaws T Z}.
Context (open_xattr : K -> string -> Z -> res (open_ret * K)).
Context (find_btf : btf_lookup) (ops : btf_ext_ops).

(** The log that [main] writes: what the polls of the payload map left in
    the rows [malloc] gave, and the time map as it is at the end. *)
Definition logs_of (malloc : Z -> option (list Z)) (pm : list (P * Z)) (tm : T)
    (r : main_result) : Prop :=
  exists lb0 lb next, malloc_log_buffs malloc = inl lb0 /\
    fetch_loop pm 0 lb0 = Ok (next, lb) /\ log_ok lb /\
    mr_log r = Some (lu_line <$> log_flat lb, count_zero (log_flat lb)) /\
    mr_kern r = Some (lu_line <$> omap (am_lookup tm) (seqZ 0 MAX_LOG_ENTRY)) /\
    (zlen pm <= MAX_LOG_ENTRY ->
     (forall i p, pm !! i = Some p -> carries (fst p) (Z.of_nat i)) ->
     log_flat lb = list_inserts 0 pm.*2 (log_flat lb0)).

Lemma malloc_rows malloc lb0 :
  rows_ok malloc -> malloc_log_buffs malloc = inl lb0 -> log_ok lb0.
Proof.
  intros Hm Hl. pose proof (malloc_loop_spec malloc (Z.to_nat NUM_LOG_BUFF) Hm 0 []
    ltac:(lia) eq_refl (Forall_nil_2 _)) as Hs.
  unfold malloc_log_buffs in Hl. rewrite Hl in Hs. destruct Hs as [Hz Hf].
  split; [|exact Hf]. rewrite Hz, NUM_LOG_BUFF_eq. reflexivity.
Qed.

Lemma measure_ok malloc polls times k cfg time_fd pkt_fd mode fd :
  rows_ok malloc -> plain_flags (xdp_flags cfg) -> link_ready k (ifindex cfg) ->
  mode = mode_bits (xdp_flags cfg) -> attached k (ifindex cfg) = Some (mode, fd) ->
  Forall (fun p => payload_map_ok (fst p)) (polls pkt_fd) ->
  zlen (polls pkt_fd) < 2 ^ 32 ->
  exists r k', measure malloc polls times true true k cfg time_fd pkt_fd = Ok (r, k') /\
    ((mr_code r = -1 /\ attached k' (ifindex cfg) = Some (mode, fd)) \/
     (mr_code r = EXIT_OK /\ attached k' (ifindex cfg) = None /\
      logs_of malloc (polls pkt_fd) (times time_fd) r)).
Proof.
  intros Hrows Hmode Hready -> Hatt Hpm Hn. unfold measure.
  destruct (malloc_log_buffs malloc) as [lb0|freed] eqn:Hlb0.
  2:{ eexists _, k. split; [reflexivity|]. left. auto. }
  pose proof (malloc_rows malloc lb0 Hrows Hlb0) as Hok0.
  destruct (fetch_loop_total (polls pkt_fd) 0 lb0 Hpm Hok0) as (next & lb & Hf & Hok & _); [lia|lia|].
  rewrite Hf, bind_Ok. cbn [negb].
  destruct (exports_spec lb (times time_fd) Hok) as (-> & Hk & _). rewrite bind_Ok.
  pose proof (detach_spec k (ifindex cfg) (xdp_flags cfg) 0 Hready Hmode) as Hdet.
  rewrite Hatt in Hdet. cbn [Z.eqb negb andb] in Hdet.
  destruct Hdet as (k2 & -> & _ & Hnone). rewrite bind_Ok. rewrite Z.eqb_refl in Hnone.
  eexists _, k2. split; [reflexivity|]. right. split; [reflexivity|]. split; [exact Hnone|].
  exists lb0, lb, next. split; [exact Hlb0|]. split; [exact Hf|]. split; [exact Hok|].
  split; [reflexivity|]. split; [cbn; rewrite Hk; reflexivity|]. intros Hle Hc.
  destruct (fetch_loop_progress (polls pkt_fd) 0 lb0 Hpm Hok0) as (lb2 & Hf2 & _ & Hfl); [lia|lia|exact Hc|].
  rewrite Hf in Hf2. injection Hf2 as _ ->. exact Hfl.
Qed.

(** Loading a file attaches nothing to the device, which can be asked for
    afterwards; the descriptors of the programs loaded are programs. *)
Definition quiet_load k (cfg : config) (file : list byte) : Prop :=
  forall r k1, load_bpf_object_file open_xattr find_btf ops k (string_of file)
                 (offload_ifindex cfg) = Ok (r, k1) ->
  attached k1 (ifindex cfg) = attached k (ifindex cfg) /\ link_ready k1 (ifindex cfg) /\
  forall o p fd, r = Some o -> p ∈ programs o -> p_instances p = Some [fd] -> fd <> 0 ->
    is_Some (prog_of k1 fd).

(** The settings of a run that measures: a file without reused maps, an
    explicit mode, a device with nothing or a program in such a mode. *)
Record measuring k (cfg : config) (file title : list byte) : Prop := {
  ms_reuse : Params.reuse_maps cfg = false;
  ms_file : c_string (filename cfg) = Ok file;
  ms_some : file <> [];
  ms_title : c_string (progsec cfg) = Ok title;
  ms_mode : plain_flags (xdp_flags cfg);
  ms_dev : forall m q, attached k (ifindex cfg) = Some (m, q) -> explicit_mode m;
  ms_quiet : quiet_load k cfg file
}.

Lemma setup_maps_ok k cfg file title :
  measuring k cfg file title -> open_ok open_xattr k (string_of file) -> ops_ok ops ->
  exists r k', setup_maps open_xattr find_btf ops k cfg = Ok (r, k') /\
    match r with
    | inr code =>
        ((code = EXIT_FAIL_BPF \/ code = EXIT_FAIL_XDP) /\
         attached k' (ifindex cfg) = attached k (ifindex cfg)) \/
        (code = EXIT_FAILURE /\ exists q,
         attached k' (ifindex cfg) = Some (mode_bits (xdp_flags cfg), q))
    | inl (time_fd, pkt_fd) =>
        0 <= time_fd /\ 0 <= pkt_fd /\ link_ready k' (ifindex cfg) /\
        exists q, attached k' (ifindex cfg) = Some (mode_bits (xdp_flags cfg), q)
    end.
Proof.
  intros [Hre Hfile Hne Htitle Hmode Hdev Hq] Hopen Hops. unfold setup_maps.
  assert (exists b, aget (filename cfg) 0 = Ok b /\ b <> NUL) as (b & -> & Hb).
  { destruct (filename cfg) as [|b m]; [discriminate|]. exists b. split; [reflexivity|].
    intros ->. apply Hne. apply c_string_first in Hfile. tauto. }
  rewrite bind_Ok, bool_decide_false by exact Hb.
  destruct (load_attach_spec open_xattr find_btf ops k cfg file title Hopen Hops Hre Hfile Htitle Hmode)
    as (ro & k1 & Hload & Hr). destruct (Hq ro k1 Hload) as (Hatt1 & Hready & Hprogs).
  unfold load_attach_outcome in Hr. destruct ro as [o|].
  2:{ destruct Hr as (-> & _). eexists _, k1. split; [reflexivity|]. cbn. auto. }
  destruct Hr as ((_ & [Hmaps _] & _ & Hsm) & Hr).
  destruct (selection o title) as [i|].
  2:{ rewrite Hr. eexists _, k1. split; [reflexivity|]. cbn. auto. }
  destruct Hr as (p & fd & Hp & Hfd & Hr). destruct (Z.eqb_spec fd 0) as [Hz|Hz].
  { rewrite Hr. eexists _, k1. split; [reflexivity|]. cbn. auto. }
  assert (forall m q, attached k1 (ifindex cfg) = Some (m, q) -> explicit_mode m) as Hdev1
    by (rewrite Hatt1; exact Hdev).
  destruct (Hprogs o p fd eq_refl) as [q Hpq];
    [apply list_elem_of_lookup; eauto | exact Hfd | exact Hz|].
  destruct (Hr Hdev1 Hready q Hpq) as (k' & (_ & _ & Hk') & Hres). clear Hr.
  destruct (noexist (xdp_flags cfg) && bool_decide (is_Some (attached k1 (ifindex cfg)))).
  { destruct Hres as (-> & Hsame). eexists _, k'. split; [reflexivity|]. cbn. left.
    rewrite Hsame. auto. }
  destruct Hres as (-> & Hatt). rewrite bind_Ok.
  assert (forall nm, exists x, bpf_object__find_map_by_name o nm = Ok x /\
    (0 <= bpf_map__fd x \/ bpf_map__fd x < 0)) as Hfind.
  { intros nm. rewrite find_map_by_name_spec by exact Hsm. eexists. split; [reflexivity|]. lia. }
  destruct (Hfind "uid_timestamps"%string) as (tm & -> & Htm). rewrite bind_Ok.
  destruct (Z.ltb_spec (bpf_map__fd tm) 0); [eexists _, k'; split; [reflexivity|]; cbn; eauto 10|].
  destruct (Hfind "pkt_payload"%string) as (pm & -> & Hpm). rewrite bind_Ok.
  destruct (Z.ltb_spec (bpf_map__fd pm) 0); [eexists _, k'; split; [reflexivity|]; cbn; eauto 10|].
  eexists _, k'. split; [reflexivity|]. cbn. eauto 10.
Qed.

End main_props.

(** * A run *)

(** [ebpf_measure -d eth0 -S --filename ebpf_measure_kern.o]. *)
Definition run_getopt (_ : list option_) : res (list (Z * option (list byte))) :=
  Ok [(chr "d"%char, Some (bytes_of "eth0")); (chr "S"%char, None);
      (1, Some (bytes_of "ebpf_measure_kern.o"))].
Definition run_parse : res cmdline :=
  parse_cmdline_args (fun _ => 3) run_getopt true (replicate 30 NUL) (bytes_of "ebpf_measure")
    (bytes_of "__doc__") long_options initial_config.
Definition run_cfg : config :=
  match run_parse with Ok (CmdConfig c) => c | _ => initial_config end.
Definition run_malloc (_ : Z) : option (list Z) :=
  Some (replicate (Z.to_nat MAX_ENTRIES_PER_LOG_BUFF) 0).
Definition run_polls (_ : Z) : list (list_map (list byte) * Z) := [(mk_list_map [], 5)].
Definition run_times (_ : Z) : list_map Z := mk_list_map [].

Lemma run_quiet :
  match load_bpf_object_file demo_open no_btf no_core demo_start
          (string_of (bytes_of "ebpf_measure_kern.o")) (offload_ifindex run_cfg) with
  | Ok (ro, d) => devs d !! 3 = None /\
      match ro with
      | Some o => forallb (fun p => match p_instances p with Some [fd] => 0 <=? fd | _ => true end)
                    (programs o) = true
      | None => True
      end
  | Err _ => False
  end.
Proof. vm_compute. split; reflexivity. Qed.

Lemma run_measuring :
  measuring demo_open no_btf no_core demo_start run_cfg (bytes_of "ebpf_measure_kern.o")
    (bytes_of "xdp_sock").
Proof.
  split; try (vm_compute; reflexivity).
  - discriminate.
  - split; [left|]; vm_compute; reflexivity.
  - intros m q Hm. vm_compute in Hm. discriminate.
  - intros r k1 Hx. pose proof run_quiet as Hq. rewrite Hx in Hq. destruct Hq as [Hd Hp].
    assert (ifindex run_cfg = 3) as -> by (vm_compute; reflexivity). split; [|split; [exact I|]].
    + cbn. unfold demo_attached. rewrite Hd. reflexivity.
    + intros o p fd -> Hin Hfd _. rewrite forallb_forall in Hp.
      specialize (Hp p (proj1 (list_elem_of_In _ _) Hin)). rewrite Hfd in Hp.
      cbn. unfold demo_prog_of. rewrite Hp. eauto.
Qed.

Lemma run_rows : rows_ok run_malloc.
Proof. intros i r Hr. unfold run_malloc in Hr. apply (inj Some) in Hr. subst r. apply length_replicate. Qed.

