(* ===== verification/HashMap.v ===== *)
(** The hash map of libbpf ([src/eBPF_app/libbpf/src/hashmap.c], [hashmap.h]):
    buckets of chained entries, growing by powers of two, with four
    strategies of insertion. *)
From S2P Require Import Prelude CLib.
#[local] Open Scope Z_scope.

(** * The callbacks *)

(** [hash_fn] and [equal_fn], for one kind of key. *)
Class HashKey (A : Type) := { hash_fn : A -> Z; equal_fn : A -> A -> bool }.

(** What the map needs of them. *)
Class HashKeyLaws (A : Type) `{HashKey A} := {
  equal_refl a : equal_fn a a = true;
  equal_sym a b : equal_fn a b = true -> equal_fn b a = true;
  equal_trans a b c : equal_fn a b = true -> equal_fn b c = true -> equal_fn a c = true;
  equal_hash a b : equal_fn a b = true -> hash_fn a = hash_fn b
}.

(** * Data *)

(** [buckets]: NULL, an array of chains, or a pointer to an array that has
    been freed. *)
Inductive buckets_ptr (A V : Type) :=
| BNull
| BLive (bs : list (list (A * V)))
| BFreed.
Arguments BNull {A V}.
Arguments BLive {A V} _.
Arguments BFreed {A V}.

Record hashmap (A V : Type) := mk_hashmap {
  buckets : buckets_ptr A V; cap : Z; cap_bits : Z; sz : Z
}.
Arguments mk_hashmap {A V} _ _ _ _.
Arguments buckets {A V} _.
Arguments cap {A V} _.
Arguments cap_bits {A V} _.
Arguments sz {A V} _.

Inductive insert_strategy := HASHMAP_ADD | HASHMAP_SET | HASHMAP_UPDATE | HASHMAP_APPEND.
#[export] Instance insert_strategy_eq : EqDecision insert_strategy.
Proof. solve_decision. Defined.

Definition HASHMAP_MIN_CAP_BITS : Z := 2.

(** The upper [bits] bits of the product. For [bits = 0], the bits of an
    empty map, C leaves the shift undefined; here it is what the machine
    does, and nothing uses the result. *)
Definition hash_bits (h bits : Z) : Z :=
  Z.shiftr (u64 (h * 11400714819323198485)) ((64 - bits) mod 64).

Section hashmap.
Context {A V : Type} `{HashKey A}.
Implicit Types (m : hashmap A V) (key : A) (value : V).

Definition hashmap__init : hashmap A V := mk_hashmap BNull 0 0 0.
(** [hashmap__new]: [None] for [ERR_PTR(-ENOMEM)]. *)
Definition hashmap__new (malloc_ok : bool) : option (hashmap A V) :=
  if malloc_ok then Some hashmap__init else None.
(** [hashmap__clear]: the entries are not freed, and the pointer stays. *)
Definition hashmap__clear m : hashmap A V :=
  mk_hashmap (match buckets m with BNull => BNull | _ => BFreed end) 0 0 0.
Definition hashmap__size m : Z := sz m.
Definition hashmap__capacity m : Z := cap m.

Definition hashmap_needs_to_grow m : bool :=
  (cap m =? 0) || (cap m <? u64 (u64 (sz m + 1) * 4) / 3).

(** [hashmap_add_entry(&bs[h], e)]. *)
Definition add_entry (bs : list (list (A * V))) (h : Z) (e : A * V)
    : res (list (list (A * V))) :=
  chain ← aget bs h; aset bs h (e :: chain).

(** The entries, in the order of [hashmap__for_each_entry]. *)
Fixpoint rehash (es : list (A * V)) (bits : Z) (bs : list (list (A * V)))
    : res (list (list (A * V))) :=
  match es with
  | [] => Ok bs
  | e :: es =>
      bs ← add_entry bs (hash_bits (hash_fn (fst e)) bits) e;
      rehash es bits bs
  end.
Definition for_each_entry m : res (list (A * V)) :=
  match buckets m with
  | BNull => if cap m =? 0 then Ok [] else Err NullDeref
  | BFreed => if cap m =? 0 then Ok [] else Err UseAfterFree
  | BLive bs => if cap m <=? zlen bs then Ok (mjoin (take (Z.to_nat (cap m)) bs))
                else Err OutOfBounds
  end.

(** [hashmap_grow]: the error code and the map. *)
Definition hashmap_grow (calloc_ok : bool) m : res (Z * hashmap A V) :=
  let new_cap_bits := cap_bits m + 1 in
  let new_cap_bits := if new_cap_bits <? HASHMAP_MIN_CAP_BITS
                      then HASHMAP_MIN_CAP_BITS else new_cap_bits in
  let new_cap := u64 (Z.shiftl 1 new_cap_bits) in
  if negb calloc_ok then Ok (- ENOMEM, m) else
  es ← for_each_entry m;
  bs ← rehash es new_cap_bits (replicate (Z.to_nat new_cap) []);
  Ok (0, mk_hashmap (BLive bs) new_cap new_cap_bits (sz m)).

(** The place of the first entry with this key in a chain. *)
Fixpoint chain_find (chain : list (A * V)) key (i : nat) : option (nat * (A * V)) :=
  match chain with
  | [] => None
  | e :: chain => if equal_fn (fst e) key then Some (i, e) else chain_find chain key (S i)
  end.

(** [hashmap_find_entry(map, key, hash, ...)]. *)
Definition hashmap_find_entry m key (hash : Z) : res (option (nat * (A * V))) :=
  match buckets m with
  | BNull => Ok None
  | BFreed => Err UseAfterFree
  | BLive bs => chain ← aget bs hash; Ok (chain_find chain key O)
  end.

Definition update_chain m (hash : Z) (f : list (A * V) -> list (A * V)) (size : Z)
    : res (hashmap A V) :=
  match buckets m with
  | BLive bs =>
      chain ← aget bs hash;
      bs ← aset bs hash (f chain);
      Ok (mk_hashmap (BLive bs) (cap m) (cap_bits m) size)
  | BNull => Err NullDeref
  | BFreed => Err UseAfterFree
  end.

(** [hashmap__insert]: the error code, the entry that was there ([old_key],
    [old_value]) and the map. *)
Definition hashmap__insert (calloc_ok malloc_ok : bool) m key value
    (strategy : insert_strategy) : res (Z * option (A * V) * hashmap A V) :=
  let h := hash_bits (hash_fn key) (cap_bits m) in
  found ← (if bool_decide (strategy = HASHMAP_APPEND) then Ok None
           else hashmap_find_entry m key h);
  let add (_ : unit) :=
    if bool_decide (strategy = HASHMAP_UPDATE) then Ok (- ENOENT, None, m) else
    '(err, m) ← (if hashmap_needs_to_grow m then hashmap_grow calloc_ok m else Ok (0, m));
    if negb (err =? 0) then Ok (err, None, m) else
    let h := hash_bits (hash_fn key) (cap_bits m) in
    if negb malloc_ok then Ok (- ENOMEM, None, m) else
    m ← update_chain m h (fun chain => (key, value) :: chain) (u64 (sz m + 1));
    Ok (0, None, m) in
  match found with
  | Some (i, e) =>
      match strategy with
      | HASHMAP_SET | HASHMAP_UPDATE =>
          m ← update_chain m h (fun chain => <[i := (key, value)]> chain) (sz m);
          Ok (0, Some e, m)
      | HASHMAP_ADD => Ok (- EEXIST, Some e, m)
      | HASHMAP_APPEND => add tt
      end
  | None => add tt
  end.

Definition hashmap__add (calloc_ok malloc_ok : bool) m key value : res (Z * hashmap A V) :=
  '(err, _, m) ← hashmap__insert calloc_ok malloc_ok m key value HASHMAP_ADD; Ok (err, m).
Definition hashmap__set (calloc_ok malloc_ok : bool) m key value :=
  hashmap__insert calloc_ok malloc_ok m key value HASHMAP_SET.
Definition hashmap__update (calloc_ok malloc_ok : bool) m key value :=
  hashmap__insert calloc_ok malloc_ok m key value HASHMAP_UPDATE.
Definition hashmap__append (calloc_ok malloc_ok : bool) m key value : res (Z * hashmap A V) :=
  '(err, _, m) ← hashmap__insert calloc_ok malloc_ok m key value HASHMAP_APPEND; Ok (err, m).

Definition hashmap__find m key : res (option V) :=
  found ← hashmap_find_entry m key (hash_bits (hash_fn key) (cap_bits m));
  Ok (match found with Some (_, (_, v)) => Some v | None => None end).

(** [hashmap__delete]: the entry removed, if there was one, and the map. *)
Definition hashmap__delete m key : res (option (A * V) * hashmap A V) :=
  let h := hash_bits (hash_fn key) (cap_bits m) in
  found ← hashmap_find_entry m key h;
  match found with
  | None => Ok (None, m)
  | Some (i, e) =>
      m ← update_chain m h (fun chain => delete i chain) (u64 (sz m - 1));
      Ok (Some e, m)
  end.

(** [hashmap__for_each_key_entry]: the entries with this key. *)
Definition for_each_key_entry m key : res (list (A * V)) :=
  match buckets m with
  | BNull => Ok []
  | BFreed => Err UseAfterFree
  | BLive bs =>
      chain ← aget bs (hash_bits (hash_fn key) (cap_bits m));
      Ok (filter (fun e => equal_fn (fst e) key = true) chain)
  end.
End hashmap.

(** The keys of the deduplication of BTF: numbers, cast to pointers. *)
Definition btf_dedup_identity_hash_fn (key : Z) : Z := u64 key.
Definition btf_dedup_equal_fn (k1 k2 : Z) : bool := k1 =? k2.
#[export] Instance identity_key : HashKey Z :=
  {| hash_fn := btf_dedup_identity_hash_fn; equal_fn := btf_dedup_equal_fn |}.
