(* ===== verification/HashMapProps.v ===== *)
(** The hash map implements a bag of entries: every run of operations, with
    memory running out at any point, gives what the operations mean on a
    bag, and touches no memory it should not. *)
From S2P Require Import Prelude CLib HashMap.
#[local] Open Scope Z_scope.

(** * Operations and their meaning on a bag of entries *)

Inductive map_op (A V : Type) :=
| OInsert (calloc_ok malloc_ok : bool) (strategy : insert_strategy) (key : A) (value : V)
| OFind (key : A)
| ODelete (key : A)
| OForEach
| OForKey (key : A)
| OSize.
Arguments OInsert {A V} _ _ _ _ _.
Arguments OFind {A V} _.
Arguments ODelete {A V} _.
Arguments OForEach {A V}.
Arguments OForKey {A V} _.
Arguments OSize {A V}.

Inductive map_ret (A V : Type) :=
| RInsert (err : Z) (old : option (A * V))
| RFind (value : option V)
| RDelete (old : option (A * V))
| REntries (es : list (A * V))
| RSize (n : Z).
Arguments RInsert {A V} _ _.
Arguments RFind {A V} _.
Arguments RDelete {A V} _.
Arguments REntries {A V} _.
Arguments RSize {A V} _.

Section spec.
Context {A V : Type} `{HashKey A}.
Implicit Types (m : hashmap A V) (l : list (A * V)) (e : A * V) (bs : list (list (A * V))).

Definition run_op m (op : map_op A V) : res (map_ret A V * hashmap A V) :=
  match op with
  | OInsert c w s k v =>
      '(err, old, m) ← hashmap__insert c w m k v s; Ok (RInsert err old, m)
  | OFind k => v ← hashmap__find m k; Ok (RFind v, m)
  | ODelete k => '(old, m) ← hashmap__delete m k; Ok (RDelete old, m)
  | OForEach => es ← for_each_entry m; Ok (REntries es, m)
  | OForKey k => es ← for_each_key_entry m k; Ok (REntries es, m)
  | OSize => Ok (RSize (hashmap__size m), m)
  end.

Fixpoint run_ops m (ops : list (map_op A V)) : res (list (map_ret A V) * hashmap A V) :=
  match ops with
  | [] => Ok ([], m)
  | op :: ops =>
      '(r, m) ← run_op m op;
      '(rs, m) ← run_ops m ops;
      Ok (r :: rs, m)
  end.

Definition matches (k : A) e : Prop := equal_fn (fst e) k = true.
#[export] Instance matches_dec k e : Decision (matches k e).
Proof. unfold matches. apply _. Defined.
Definition absent (k : A) l : Prop := Forall (fun e => ~ matches k e) l.

(** What an operation returns on a bag, and the bag it leaves. *)
Inductive bag_step : list (A * V) -> map_op A V -> map_ret A V -> list (A * V) -> Prop :=
| BS_new l c w s k v l' :
    s <> HASHMAP_UPDATE -> s = HASHMAP_APPEND \/ absent k l -> w = true ->
    l' ≡ₚ (k, v) :: l -> bag_step l (OInsert c w s k v) (RInsert 0 None) l'
| BS_no_memory l c w s k v l' :
    s <> HASHMAP_UPDATE -> s = HASHMAP_APPEND \/ absent k l -> c && w = false ->
    l' ≡ₚ l -> bag_step l (OInsert c w s k v) (RInsert (- ENOMEM) None) l'
| BS_replace l c w s k v e r l' :
    s = HASHMAP_SET \/ s = HASHMAP_UPDATE -> l ≡ₚ e :: r -> matches k e ->
    l' ≡ₚ (k, v) :: r -> bag_step l (OInsert c w s k v) (RInsert 0 (Some e)) l'
| BS_exists l c w k v e l' :
    e ∈ l -> matches k e -> l' ≡ₚ l ->
    bag_step l (OInsert c w HASHMAP_ADD k v) (RInsert (- EEXIST) (Some e)) l'
| BS_missing l c w k v l' :
    absent k l -> l' ≡ₚ l ->
    bag_step l (OInsert c w HASHMAP_UPDATE k v) (RInsert (- ENOENT) None) l'
| BS_found l k e l' :
    e ∈ l -> matches k e -> l' ≡ₚ l -> bag_step l (OFind k) (RFind (Some (snd e))) l'
| BS_not_found l k l' :
    absent k l -> l' ≡ₚ l -> bag_step l (OFind k) (RFind None) l'
| BS_delete l k e l' :
    l ≡ₚ e :: l' -> matches k e -> bag_step l (ODelete k) (RDelete (Some e)) l'
| BS_delete_none l k l' :
    absent k l -> l' ≡ₚ l -> bag_step l (ODelete k) (RDelete None) l'
| BS_entries l es l' :
    es ≡ₚ l -> l' ≡ₚ l -> bag_step l OForEach (REntries es) l'
| BS_key_entries l k es l' :
    es ≡ₚ filter (matches k) l -> l' ≡ₚ l -> bag_step l (OForKey k) (REntries es) l'
| BS_size l l' : l' ≡ₚ l -> bag_step l OSize (RSize (zlen l)) l'.

Inductive bag_run : list (A * V) -> list (map_op A V) -> list (map_ret A V)
                    -> list (A * V) -> Prop :=
| BR_nil l : bag_run l [] [] l
| BR_cons l op r l1 ops rs l2 :
    bag_step l op r l1 -> bag_run l1 ops rs l2 -> bag_run l (op :: ops) (r :: rs) l2.

(** No two entries of the bag have equal keys. *)
Definition unique l : Prop := forall k, (length (filter (matches k) l) <= 1)%nat.

Definition not_append (op : map_op A V) : Prop :=
  match op with OInsert _ _ s _ _ => s <> HASHMAP_APPEND | _ => True end.

(** * The invariant *)

Definition entries m : list (A * V) :=
  match buckets m with BLive bs => mjoin bs | _ => [] end.

(** Every entry is in the bucket of its hash. *)
Definition placed (bits : Z) bs : Prop :=
  forall i chain e, bs !! i = Some chain -> e ∈ chain ->
  Z.of_nat i = hash_bits (hash_fn (fst e)) bits.

Definition bits_ok (bits : Z) bs : Prop := 2 <= bits <= 61 /\ zlen bs = 2 ^ bits /\ placed bits bs.

Definition wf m : Prop :=
  sz m = zlen (entries m) /\
  match buckets m with
  | BNull => cap m = 0 /\ cap_bits m = 0
  | BLive bs => cap m = 2 ^ cap_bits m /\ bits_ok (cap_bits m) bs
  | BFreed => False
  end.

Lemma wf_init : wf hashmap__init.
Proof. split; [reflexivity|]. split; reflexivity. Qed.

Lemma hash_bits_range h bits : 2 <= bits <= 61 -> 0 <= hash_bits h bits < 2 ^ bits.
Proof.
  intros Hb. unfold hash_bits. rewrite (Z.mod_small (64 - bits)) by lia.
  rewrite Z.shiftr_div_pow2 by lia. pose proof (u64_range (h * 11400714819323198485)).
  split; [apply Z.div_pos; [lia | apply Z.pow_pos_nonneg; lia]|].
  apply Z.div_lt_upper_bound; [apply Z.pow_pos_nonneg; lia|].
  rewrite <- Z.pow_add_r by lia. replace (64 - bits + bits) with 64 by lia. lia.
Qed.

Lemma bits_pow bits : 2 <= bits <= 61 -> 4 <= 2 ^ bits <= 2 ^ 61.
Proof.
  intros. split; [apply (Z.pow_le_mono_r 2 2) | apply (Z.pow_le_mono_r 2 bits 61)]; lia.
Qed.

(** * Chains and buckets *)

Definition others bs (i : nat) : list (A * V) := mjoin (take i bs) ++ mjoin (drop (S i) bs).

Lemma mjoin_at bs i chain :
  bs !! i = Some chain -> mjoin bs = mjoin (take i bs) ++ chain ++ mjoin (drop (S i) bs).
Proof.
  intros Hi. rewrite <- (take_drop_middle bs i chain Hi) at 1.
  rewrite join_app. reflexivity.
Qed.

Lemma mjoin_bag bs i chain : bs !! i = Some chain -> mjoin bs ≡ₚ chain ++ others bs i.
Proof. intros Hi. rewrite (mjoin_at _ _ _ Hi). unfold others. solve_Permutation. Qed.

Lemma mjoin_insert bs i chain :
  (i < length bs)%nat -> mjoin (<[i := chain]> bs) ≡ₚ chain ++ others bs i.
Proof.
  intros Hi. rewrite (mjoin_at _ i chain) by (apply list_lookup_insert_eq; lia).
  rewrite take_insert_ge by lia. rewrite drop_insert_lt by lia.
  unfold others. solve_Permutation.
Qed.

Lemma placed_insert bits bs i chain :
  placed bits bs ->
  Forall (fun e => Z.of_nat i = hash_bits (hash_fn (fst e)) bits) chain ->
  placed bits (<[i := chain]> bs).
Proof.
  intros Hp Hc j c e Hj He.
  apply list_lookup_insert_Some in Hj as [(<- & <- & _)|[_ Hj]]; [|exact (Hp _ _ _ Hj He)].
  rewrite Forall_forall in Hc. exact (Hc _ He).
Qed.

Lemma chain_find_Some chain k i j e :
  chain_find chain k i = Some (j, e) ->
  exists l1 l2, chain = l1 ++ e :: l2 /\ j = (i + length l1)%nat /\ matches k e.
Proof.
  revert i; induction chain as [|e' chain IH]; intros i; cbn [chain_find]; [discriminate|].
  destruct (equal_fn (fst e') k) eqn:E.
  - intros [= <- <-]. exists [], chain. split; [reflexivity|]. split; [cbn; lia | exact E].
  - intros (l1 & l2 & -> & -> & Hm)%IH. exists (e' :: l1), l2.
    split; [reflexivity|]. split; [cbn; lia | exact Hm].
Qed.

Lemma chain_find_None chain k i : chain_find chain k i = None -> absent k chain.
Proof.
  revert i; induction chain as [|e' chain IH]; intros i; cbn [chain_find]; [constructor|].
  destruct (equal_fn (fst e') k) eqn:E; [discriminate|]. intros Hn%IH.
  constructor; [unfold matches; congruence | exact Hn].
Qed.

Lemma absent_perm k l l' : l ≡ₚ l' -> absent k l -> absent k l'.
Proof. unfold absent. intros Hp. rewrite Hp. auto. Qed.
End spec.

Section laws.
Context {A V : Type} `{HashKeyLaws A}.
Implicit Types (m : hashmap A V) (l : list (A * V)) (e : A * V) (bs : list (list (A * V))).

(** * One bucket holds all entries with a key *)

Lemma placed_elsewhere bits bs i chain k :
  placed bits bs -> Z.of_nat i <> hash_bits (hash_fn k) bits ->
  bs !! i = Some chain -> absent k chain.
Proof.
  intros Hp Hi Hc. apply Forall_forall. intros e He Hm.
  apply Hi. rewrite (Hp _ _ _ Hc He). rewrite (equal_hash _ _ Hm). reflexivity.
Qed.

Lemma absent_join k bs :
  (forall i chain, bs !! i = Some chain -> absent k chain) -> absent k (mjoin bs).
Proof.
  induction bs as [|c bs IH]; intros Hall; [constructor|].
  apply Forall_app. split; [exact (Hall O c eq_refl)|].
  apply IH. intros i chain Hi. exact (Hall (S i) chain Hi).
Qed.

Lemma absent_others bits bs k :
  placed bits bs -> absent k (others bs (Z.to_nat (hash_bits (hash_fn k) bits))).
Proof.
  intros Hp. apply Forall_app. split; apply absent_join; intros j c Hj.
  - apply lookup_take_Some in Hj as [Hj Hlt]. eapply placed_elsewhere; [exact Hp| |exact Hj]. lia.
  - rewrite lookup_drop in Hj. eapply placed_elsewhere; [exact Hp| |exact Hj]. lia.
Qed.

Lemma bucket_in bits bs k :
  bits_ok bits bs ->
  exists chain, bs !! Z.to_nat (hash_bits (hash_fn k) bits) = Some chain /\
    aget bs (hash_bits (hash_fn k) bits) = Ok chain.
Proof.
  intros (Hb & Hl & _). pose proof (hash_bits_range (hash_fn k) bits Hb) as Hr.
  destruct (aget_in bs (hash_bits (hash_fn k) bits)) as [chain Hc]; [lia|].
  exists chain. split; [apply aget_Ok in Hc; tauto | exact Hc].
Qed.

Lemma absent_chain bits bs k chain :
  placed bits bs -> bs !! Z.to_nat (hash_bits (hash_fn k) bits) = Some chain ->
  absent k chain -> absent k (mjoin bs).
Proof.
  intros Hp Hc Ha. eapply absent_perm; [symmetry; apply mjoin_bag, Hc|].
  apply Forall_app. split; [exact Ha | exact (absent_others _ _ _ Hp)].
Qed.

Lemma filter_absent k l : absent k l -> filter (matches k) l = [].
Proof. intros Ha. apply filter_none. intros e He. unfold absent in Ha. rewrite Forall_forall in Ha. exact (Ha e He). Qed.

Lemma filter_bucket bits bs k chain :
  placed bits bs -> bs !! Z.to_nat (hash_bits (hash_fn k) bits) = Some chain ->
  filter (matches k) chain ≡ₚ filter (matches k) (mjoin bs).
Proof.
  intros Hp Hc. rewrite (mjoin_bag _ _ _ Hc), filter_app.
  rewrite (filter_absent k (others _ _)) by exact (absent_others _ _ _ Hp).
  rewrite app_nil_r. reflexivity.
Qed.

(** Replacing the chain of a key by one whose entries belong there. *)
Lemma bucket_replace bits bs k chain chain' :
  bits_ok bits bs -> bs !! Z.to_nat (hash_bits (hash_fn k) bits) = Some chain ->
  Forall (fun e => e ∈ chain \/ hash_fn (fst e) = hash_fn k) chain' ->
  let h := hash_bits (hash_fn k) bits in
  exists bs', aset bs h chain' = Ok bs' /\ bits_ok bits bs' /\
    mjoin bs' ≡ₚ chain' ++ others bs (Z.to_nat h).
Proof.
  intros (Hb & Hl & Hp) Hc Hin h.
  pose proof (hash_bits_range (hash_fn k) bits Hb) as Hr. fold h in Hr.
  exists (<[Z.to_nat h := chain']> bs). rewrite aset_Ok by lia.
  split; [reflexivity|]. split.
  - split; [exact Hb|]. split; [unfold zlen in *; rewrite length_insert; exact Hl|].
    apply placed_insert; [exact Hp|].
    eapply Forall_impl; [exact Hin|]. intros e [He|He].
    + exact (Hp _ _ _ Hc He).
    + rewrite He. fold h. lia.
  - apply mjoin_insert. unfold zlen in Hl. lia.
Qed.

(** * Growing *)

Lemma rehash_ok es bits : forall bs,
  bits_ok bits bs ->
  exists bs', rehash es bits bs = Ok bs' /\ bits_ok bits bs' /\ mjoin bs' ≡ₚ es ++ mjoin bs.
Proof.
  induction es as [|e es IH]; intros bs Hok; cbn [rehash]; [eauto|].
  destruct (bucket_in bits bs (fst e) Hok) as (chain & Hl & Hg).
  destruct (bucket_replace bits bs (fst e) chain (e :: chain) Hok Hl) as (bs1 & Hs & Hok1 & Hbag).
  { constructor; [right; reflexivity|]. apply Forall_forall. auto. }
  unfold add_entry. rewrite Hg, bind_Ok, Hs, bind_Ok.
  destruct (IH bs1 Hok1) as (bs2 & -> & Hok2 & Hbag2).
  exists bs2. split; [reflexivity|]. split; [exact Hok2|].
  rewrite Hbag2, Hbag. rewrite (mjoin_bag _ _ _ Hl). solve_Permutation.
Qed.

Lemma join_replicate_nil n : mjoin (replicate n (@nil (A * V))) = [].
Proof. induction n; [reflexivity | exact IHn]. Qed.

Lemma bits_ok_empty bits :
  2 <= bits <= 61 -> bits_ok bits (replicate (Z.to_nat (2 ^ bits)) (@nil (A * V))).
Proof.
  intros Hb. pose proof (bits_pow bits Hb). split; [exact Hb|]. split.
  - rewrite zlen_replicate. lia.
  - intros i chain e [-> _]%lookup_replicate_1 He. apply not_elem_of_nil in He. destruct He.
Qed.

Lemma for_each_entry_ok m : wf m -> for_each_entry m = Ok (entries m).
Proof.
  intros (_ & Hb). unfold for_each_entry, entries. destruct (buckets m) as [|bs|]; [|clear - Hb|destruct Hb].
  - destruct Hb as [-> _]. reflexivity.
  - destruct Hb as (-> & _ & Hl & _). replace (2 ^ cap_bits m <=? zlen bs) with true by lia.
    rewrite take_ge by (unfold zlen in Hl; lia). reflexivity.
Qed.

Lemma grow_ok m :
  wf m -> sz m < 2 ^ 60 -> hashmap_needs_to_grow m = true ->
  exists m', hashmap_grow true m = Ok (0, m') /\ wf m' /\ buckets m' <> BNull /\
    entries m' ≡ₚ entries m.
Proof.
  intros Hwf Hsz Hg. pose proof (for_each_entry_ok m Hwf) as Hes.
  unfold hashmap_grow. cbn [negb].
  set (nb := if cap_bits m + 1 <? HASHMAP_MIN_CAP_BITS then _ else _).
  assert (2 <= nb <= 61) as Hnb.
  { destruct Hwf as [Hs Hb]. pose proof (zlen_nonneg (entries m)).
    unfold nb, HASHMAP_MIN_CAP_BITS. destruct (buckets m) as [|bs|]; [destruct Hb as [_ ->]; vm_compute; split; discriminate| |destruct Hb].
    destruct Hb as (Hc & Hbits & Hl & _). pose proof (bits_pow _ Hbits).
    unfold hashmap_needs_to_grow in Hg.
    rewrite (u64_small (sz m + 1)) in Hg by lia. rewrite u64_small in Hg by lia.
    assert (cap_bits m < 61); [|destruct (Z.ltb_spec (cap_bits m + 1) 2); lia].
    apply (Z.pow_lt_mono_r_iff 2); [lia | lia |]. rewrite <- Hc. lia. }
  assert (u64 (Z.shiftl 1 nb) = 2 ^ nb) as Hcap.
  { rewrite Z.shiftl_mul_pow2 by lia. pose proof (bits_pow nb Hnb). rewrite u64_small by lia. lia. }
  rewrite Hcap, Hes, bind_Ok.
  destruct (rehash_ok (entries m) nb _ (bits_ok_empty nb Hnb)) as (bs' & -> & Hok & Hbag).
  rewrite bind_Ok. rewrite join_replicate_nil, app_nil_r in Hbag.
  eexists. split; [reflexivity|]. split; [|split; [discriminate | exact Hbag]].
  split; [|split; [reflexivity | exact Hok]]. cbn.
  destruct Hwf as [-> _]. unfold zlen. change (entries (mk_hashmap _ _ _ _)) with (mjoin bs').
  rewrite Hbag. reflexivity.
Qed.

(** * The operations *)

Definition bucket_of m k : nat := Z.to_nat (hash_bits (hash_fn k) (cap_bits m)).

Lemma find_entry_ok m k :
  wf m ->
  exists found, hashmap_find_entry m k (hash_bits (hash_fn k) (cap_bits m)) = Ok found /\
  match found with
  | None => absent k (entries m)
  | Some (i, e) => matches k e /\ exists bs l1 l2, buckets m = BLive bs /\
      bs !! bucket_of m k = Some (l1 ++ e :: l2) /\ i = length l1
  end.
Proof.
  intros [_ Hb]. unfold hashmap_find_entry, entries.
  destruct (buckets m) as [|bs|] eqn:E; [|clear E|destruct Hb].
  - exists None. split; [reflexivity | constructor].
  - destruct Hb as [_ Hok]. destruct (bucket_in _ _ k Hok) as (chain & Hl & ->).
    rewrite bind_Ok. eexists. split; [reflexivity|].
    destruct (chain_find chain k 0) as [[i e]|] eqn:Ef.
    + apply chain_find_Some in Ef as (l1 & l2 & -> & -> & Hm). split; [exact Hm|].
      exists bs, l1, l2. auto.
    + apply chain_find_None in Ef. eapply absent_chain; [apply Hok | exact Hl | exact Ef].
Qed.

(** An entry found in its bucket, and the rest of the bag. *)
Lemma found_bag m k bs l1 l2 e :
  buckets m = BLive bs -> bs !! bucket_of m k = Some (l1 ++ e :: l2) ->
  entries m ≡ₚ e :: (l1 ++ l2) ++ others bs (bucket_of m k).
Proof.
  intros Hb Hl. unfold entries. rewrite Hb, (mjoin_bag _ _ _ Hl). solve_Permutation.
Qed.

Lemma update_ok m bs k chain f size :
  wf m -> buckets m = BLive bs -> bs !! bucket_of m k = Some chain ->
  Forall (fun e => e ∈ chain \/ hash_fn (fst e) = hash_fn k) (f chain) ->
  size = zlen (f chain ++ others bs (bucket_of m k)) ->
  exists m', update_chain m (hash_bits (hash_fn k) (cap_bits m)) f size = Ok m' /\ wf m' /\
    entries m' ≡ₚ f chain ++ others bs (bucket_of m k).
Proof.
  intros [Hs Hw] Hb Hl Hf Hsize. rewrite Hb in Hw. destruct Hw as [Hc Hok].
  unfold update_chain. rewrite Hb.
  destruct (bucket_in _ _ k Hok) as (chain' & Hl' & ->). unfold bucket_of in *.
  rewrite Hl in Hl'. injection Hl' as <-. rewrite bind_Ok.
  destruct (bucket_replace _ _ k _ (f chain) Hok Hl Hf) as (bs' & -> & Hok' & Hbag).
  rewrite bind_Ok. eexists. split; [reflexivity|]. split; [|exact Hbag].
  split; [|split; [exact Hc | exact Hok']]. cbn. rewrite Hsize. unfold zlen.
  change (entries (mk_hashmap _ _ _ _)) with (mjoin bs'). rewrite Hbag. reflexivity.
Qed.

Lemma find_refines m k :
  wf m -> exists v, hashmap__find m k = Ok v /\ bag_step (entries m) (OFind k) (RFind v) (entries m).
Proof.
  intros Hwf. unfold hashmap__find.
  destruct (find_entry_ok m k Hwf) as (found & -> & Hf). rewrite bind_Ok.
  destruct found as [[i e]|].
  - destruct Hf as (Hm & bs & l1 & l2 & Hb & Hl & _). exists (Some (snd e)).
    split; [destruct e; reflexivity|]. apply BS_found; [|exact Hm | reflexivity].
    rewrite (found_bag _ _ _ _ _ _ Hb Hl). left.
  - exists None. split; [reflexivity|]. apply BS_not_found; [exact Hf | reflexivity].
Qed.

Lemma delete_refines m k :
  wf m -> sz m < 2 ^ 60 ->
  exists old m', hashmap__delete m k = Ok (old, m') /\ wf m' /\
    bag_step (entries m) (ODelete k) (RDelete old) (entries m').
Proof.
  intros Hwf Hsz. unfold hashmap__delete.
  destruct (find_entry_ok m k Hwf) as (found & -> & Hf). rewrite bind_Ok.
  destruct found as [[i e]|].
  - destruct Hf as (Hm & bs & l1 & l2 & Hb & Hl & ->).
    pose proof (found_bag _ _ _ _ _ _ Hb Hl) as Hbag.
    assert (sz m = 1 + zlen ((l1 ++ l2) ++ others bs (bucket_of m k))) as Hlen.
    { destruct Hwf as [-> _]. unfold zlen. rewrite Hbag. cbn [length]. lia. }
    pose proof (zlen_nonneg ((l1 ++ l2) ++ others bs (bucket_of m k))).
    destruct (update_ok m bs k _ (fun chain => delete (length l1) chain) (u64 (sz m - 1))
      Hwf Hb Hl) as (m' & -> & Hwf' & Hbag').
    + rewrite delete_middle. apply Forall_forall. intros x Hx. left. set_solver.
    + rewrite delete_middle, u64_small by lia. lia.
    + rewrite bind_Ok. exists (Some e), m'. split; [reflexivity|]. split; [exact Hwf'|].
      apply BS_delete; [|exact Hm]. rewrite Hbag', delete_middle. exact Hbag.
  - exists None, m. split; [reflexivity|]. split; [exact Hwf|].
    apply BS_delete_none; [exact Hf | reflexivity].
Qed.

(** The part of [hashmap__insert] that adds an entry. *)
Lemma add_refines m c w k v :
  wf m -> sz m < 2 ^ 60 ->
  exists r m',
    ('(err, m) ← (if hashmap_needs_to_grow m then hashmap_grow c m else Ok (0, m));
     if negb (err =? 0) then Ok (err, None, m) else
     if negb w then Ok (- ENOMEM, None, m) else
     m ← update_chain m (hash_bits (hash_fn k) (cap_bits m)) (fun chain => (k, v) :: chain)
           (u64 (sz m + 1));
     Ok (0, None, m)) = Ok (r, @None (A * V), m') /\ wf m' /\
    ((r = 0 /\ w = true /\ entries m' ≡ₚ (k, v) :: entries m) \/
     (r = - ENOMEM /\ c && w = false /\ entries m' ≡ₚ entries m)).
Proof.
  intros Hwf Hsz.
  assert (exists err m1, (if hashmap_needs_to_grow m then hashmap_grow c m else Ok (0, m))
            = Ok (err, m1) /\ wf m1 /\ entries m1 ≡ₚ entries m /\
            ((err = 0 /\ buckets m1 <> BNull) \/ (err = - ENOMEM /\ c = false)))
    as (err & m1 & -> & Hwf1 & Hbag1 & Herr).
  { destruct (hashmap_needs_to_grow m) eqn:Hg.
    - destruct c.
      + destruct (grow_ok m Hwf Hsz Hg) as (m1 & -> & Hw1 & Hn1 & Hb1). eauto 10.
      + exists (- ENOMEM), m. unfold hashmap_grow. cbn. eauto 10.
    - exists 0, m. split; [reflexivity|]. split; [exact Hwf|]. split; [reflexivity|].
      left. split; [reflexivity|]. intros Hb. destruct Hwf as [_ Hw]. rewrite Hb in Hw.
      unfold hashmap_needs_to_grow in Hg. destruct Hw as [Hc _]. rewrite Hc in Hg. discriminate. }
  rewrite bind_Ok. destruct Herr as [[-> Hn]|[-> ->]]; cbn [negb Z.eqb].
  2: { exists (- ENOMEM), m1. cbn. auto 10. }
  destruct w; cbn [negb]; [|exists (- ENOMEM), m1; rewrite andb_false_r; auto 10].
  destruct (buckets m1) as [|bs|] eqn:Hb; [congruence| |destruct Hwf1 as [_ Hw]; rewrite Hb in Hw; destruct Hw].
  assert (zlen (entries m1) = zlen (entries m)) as Hlen by (unfold zlen; rewrite Hbag1; reflexivity).
  assert (bits_ok (cap_bits m1) bs) as Hok by (destruct Hwf1 as [_ Hw]; rewrite Hb in Hw; apply Hw).
  destruct (bucket_in _ _ k Hok) as (chain & Hl & _).
  assert (entries m1 ≡ₚ chain ++ others bs (bucket_of m1 k)) as Hbag2
    by (unfold entries; rewrite Hb; exact (mjoin_bag _ _ _ Hl)).
  destruct (update_ok m1 bs k chain (fun chain => (k, v) :: chain) (u64 (sz m1 + 1)) Hwf1 Hb Hl)
    as (m2 & -> & Hwf2 & Hbag3).
  - constructor; [right; reflexivity|]. apply Forall_forall. auto.
  - destruct Hwf as [Hs _], Hwf1 as [-> _]. pose proof (zlen_nonneg (entries m1)).
    rewrite u64_small by lia. unfold zlen. rewrite Hbag2. cbn [length app]. lia.
  - rewrite bind_Ok. exists 0, m2. split; [reflexivity|]. split; [exact Hwf2|]. left.
    split; [reflexivity|]. split; [reflexivity|]. rewrite Hbag3, <- Hbag1, Hbag2. reflexivity.
Qed.

Lemma insert_refines m c w s k v :
  wf m -> sz m < 2 ^ 60 ->
  exists err old m', hashmap__insert c w m k v s = Ok (err, old, m') /\ wf m' /\
    bag_step (entries m) (OInsert c w s k v) (RInsert err old) (entries m').
Proof.
  intros Hwf Hsz. unfold hashmap__insert.
  assert (forall (Hs : s <> HASHMAP_UPDATE) (Ha : s = HASHMAP_APPEND \/ absent k (entries m))
    r m', ((r = 0 /\ w = true /\ entries m' ≡ₚ (k, v) :: entries m) \/
     (r = - ENOMEM /\ c && w = false /\ entries m' ≡ₚ entries m)) ->
    bag_step (entries m) (OInsert c w s k v) (RInsert r None) (entries m')) as Hadd.
  { intros Hs Ha r m' [(-> & Hw & Hb)|(-> & Hw & Hb)]; [apply BS_new | apply BS_no_memory]; auto. }
  pose proof (add_refines m c w k v Hwf Hsz) as (r & m' & Heq & Hwf' & Hr).
  destruct (decide (s = HASHMAP_APPEND)) as [Happ|Happ].
  { rewrite (bool_decide_true (s = HASHMAP_APPEND)) by exact Happ. rewrite bind_Ok. rewrite (bool_decide_false (s = HASHMAP_UPDATE)) by (subst s; discriminate).
    rewrite Heq. exists r, None, m'. split; [reflexivity|]. split; [exact Hwf'|].
    apply Hadd; [subst s; discriminate | left; exact Happ | exact Hr]. }
  rewrite (bool_decide_false (s = HASHMAP_APPEND)) by exact Happ.
  destruct (find_entry_ok m k Hwf) as (found & -> & Hf). rewrite bind_Ok.
  destruct found as [[i e]|].
  - destruct Hf as (Hm & bs & l1 & l2 & Hb & Hl & ->).
    pose proof (found_bag _ _ _ _ _ _ Hb Hl) as Hbag.
    destruct (update_ok m bs k _ (fun chain => <[length l1 := (k, v)]> chain) (sz m) Hwf Hb Hl)
      as (m2 & Hup & Hwf2 & Hbag2).
    { rewrite insert_app_r_alt, Nat.sub_diag by lia. cbn. apply Forall_forall. intros x Hx.
      apply elem_of_app in Hx as [Hx|[->|Hx]%elem_of_cons]; [left; set_solver | right; reflexivity | left; set_solver]. }
    { destruct Hwf as [-> _]. unfold zlen. rewrite Hbag, length_app, length_insert. cbn [length]. rewrite !length_app. cbn [length]. lia. }
    rewrite insert_app_r_alt, Nat.sub_diag in Hbag2 by lia.
    destruct s; [| | |congruence].
    + exists (- EEXIST), (Some e), m. split; [reflexivity|]. split; [exact Hwf|].
      apply BS_exists; [rewrite Hbag; left | exact Hm | reflexivity].
    + rewrite Hup, bind_Ok. exists 0, (Some e), m2. split; [reflexivity|]. split; [exact Hwf2|].
      eapply BS_replace; [auto | exact Hbag | exact Hm |]. rewrite Hbag2. cbn. solve_Permutation.
    + rewrite Hup, bind_Ok. exists 0, (Some e), m2. split; [reflexivity|]. split; [exact Hwf2|].
      eapply BS_replace; [auto | exact Hbag | exact Hm |]. rewrite Hbag2. cbn. solve_Permutation.
  - case_bool_decide as Hs.
    + exists (- ENOENT), None, m. split; [reflexivity|]. split; [exact Hwf|]. subst s.
      apply BS_missing; [exact Hf | reflexivity].
    + rewrite Heq. exists r, None, m'. split; [reflexivity|]. split; [exact Hwf'|].
      apply Hadd; [exact Hs | right; exact Hf | exact Hr].
Qed.

Lemma key_entries_refine m k :
  wf m -> exists es, for_each_key_entry m k = Ok es /\
    es ≡ₚ filter (matches k) (entries m).
Proof.
  intros [_ Hb]. unfold for_each_key_entry, entries.
  destruct (buckets m) as [|bs|]; [eauto| |destruct Hb].
  destruct Hb as [_ Hok]. destruct (bucket_in _ _ k Hok) as (chain & Hl & ->).
  rewrite bind_Ok. eexists. split; [reflexivity|].
  exact (filter_bucket _ _ _ _ (proj2 (proj2 Hok)) Hl).
Qed.

Lemma bag_step_length l op r l' : bag_step l op r l' -> (length l' <= length l + 1)%nat.
Proof.
  destruct 1; repeat match goal with E : _ ≡ₚ _ |- _ => apply Permutation_length in E end;
    cbn [length] in *; lia.
Qed.

Lemma run_op_refines m op :
  wf m -> sz m < 2 ^ 60 ->
  exists r m', run_op m op = Ok (r, m') /\ wf m' /\ bag_step (entries m) op r (entries m').
Proof.
  intros Hwf Hsz. destruct op as [c w s k v|k|k| |k|]; cbn [run_op].
  - destruct (insert_refines m c w s k v Hwf Hsz) as (err & old & m' & -> & H1 & H2).
    rewrite bind_Ok. eauto.
  - destruct (find_refines m k Hwf) as (v & -> & Hs). rewrite bind_Ok. eauto.
  - destruct (delete_refines m k Hwf Hsz) as (old & m' & -> & H1 & H2). rewrite bind_Ok. eauto.
  - rewrite for_each_entry_ok by exact Hwf. rewrite bind_Ok. do 2 eexists.
    split; [reflexivity|]. split; [exact Hwf|]. apply BS_entries; reflexivity.
  - destruct (key_entries_refine m k Hwf) as (es & -> & Hp). rewrite bind_Ok. do 2 eexists.
    split; [reflexivity|]. split; [exact Hwf|]. apply BS_key_entries; [exact Hp | reflexivity].
  - do 2 eexists. split; [reflexivity|]. split; [exact Hwf|].
    unfold hashmap__size. destruct Hwf as [-> _]. apply BS_size. reflexivity.
Qed.

Lemma run_ops_refines ops : forall m,
  wf m -> sz m + zlen ops < 2 ^ 60 ->
  exists rs m', run_ops m ops = Ok (rs, m') /\ wf m' /\ bag_run (entries m) ops rs (entries m').
Proof.
  induction ops as [|op ops IH]; intros m Hwf Hsz; cbn [run_ops].
  { do 2 eexists. split; [reflexivity|]. split; [exact Hwf | constructor]. }
  unfold zlen in Hsz; cbn [length] in Hsz.
  destruct (run_op_refines m op Hwf) as (r & m1 & -> & Hwf1 & Hstep); [lia|]. rewrite bind_Ok.
  destruct (IH m1 Hwf1) as (rs & m2 & -> & Hwf2 & Hrun).
  { pose proof (bag_step_length _ _ _ _ Hstep) as Hl. destruct Hwf as [Hs _], Hwf1 as [Hs1 _].
    unfold zlen in *. lia. }
  rewrite bind_Ok. do 2 eexists. split; [reflexivity|]. split; [exact Hwf2|].
  econstructor; [exact Hstep | exact Hrun].
Qed.

(** * Keys stay unique without HASHMAP_APPEND *)

Lemma unique_perm l l' : l ≡ₚ l' -> unique l -> unique l'.
Proof. intros Hp Hu k. rewrite <- Hp. exact (Hu k). Qed.

Lemma absent_equal k k' l : equal_fn k k' = true -> absent k l -> absent k' l.
Proof.
  intros He Ha. eapply Forall_impl; [exact Ha|]. unfold matches. intros e Hn Hm. apply Hn.
  apply equal_trans with k'; [exact Hm | apply equal_sym; exact He].
Qed.

Lemma unique_cons k v l : absent k l -> unique l -> unique ((k, v) :: l).
Proof.
  intros Ha Hu k'. rewrite filter_cons. destruct (decide (matches k' (k, v))) as [Hm|_]; [|apply Hu].
  rewrite (filter_absent k' l) by exact (absent_equal k k' l Hm Ha). cbn. lia.
Qed.

Lemma unique_replace k v e l : matches k e -> unique (e :: l) -> unique ((k, v) :: l).
Proof.
  intros Hm Hu k'. specialize (Hu k'). rewrite filter_cons in *.
  destruct (decide (matches k' (k, v))) as [Hk|]; [|destruct (decide (matches k' e)); cbn in *; lia].
  destruct (decide (matches k' e)) as [|Hn]; [exact Hu|]. destruct Hn.
  unfold matches in *. apply equal_trans with k; [exact Hm | exact Hk].
Qed.

Lemma unique_tail e l : unique (e :: l) -> unique l.
Proof.
  intros Hu k. specialize (Hu k). rewrite filter_cons in Hu.
  destruct (decide (matches k e)); cbn in Hu; lia.
Qed.

Lemma bag_step_unique l op r l' : bag_step l op r l' -> not_append op -> unique l -> unique l'.
Proof.
  destruct 1; cbn [not_append]; intros Hop Hu;
    try (match goal with E : l' ≡ₚ l |- _ => apply (unique_perm _ _ (symmetry E)), Hu end).
  - eapply unique_perm; [symmetry; eassumption|]. apply unique_cons; [tauto | exact Hu].
  - eapply unique_perm; [symmetry; eassumption|].
    eapply unique_replace; [eassumption|]. eapply unique_perm; eassumption.
  - eapply unique_tail, unique_perm; eassumption.
Qed.

Lemma bag_run_unique l ops rs l' :
  bag_run l ops rs l' -> Forall not_append ops -> unique l -> unique l'.
Proof.
  induction 1 as [|l op r l1 ops rs l2 Hs _ IH]; [auto|].
  intros [Hop Hops]%Forall_cons Hu. apply IH; [exact Hops|].
  exact (bag_step_unique _ _ _ _ Hs Hop Hu).
Qed.
End laws.

(** * Claims *)

(** C15: any run of fewer than 2^60 operations on a new map - insertions
    with the four strategies, look-ups, deletions and iterations, with
    memory running out at any point - never touches memory it should not
    and gives what the operations mean on a bag of entries; unless
    HASHMAP_APPEND is used, no two entries ever have equal keys. *)
Theorem hashmap_refines_bag {A V} `{HashKeyLaws A} (ops : list (map_op A V)) :
  zlen ops < 2 ^ 60 ->
  exists rs m, run_ops hashmap__init ops = Ok (rs, m) /\ wf m /\
    bag_run [] ops rs (entries m) /\ (Forall not_append ops -> unique (entries m)).
Proof.
  intros Hn. destruct (run_ops_refines ops hashmap__init wf_init) as (rs & m & Hr & Hw & Hb).
  { cbn. exact Hn. }
  exists rs, m. split; [exact Hr|]. split; [exact Hw|]. split; [exact Hb|].
  intros Hops. apply (bag_run_unique _ _ _ _ Hb Hops). intros k. cbn. lia.
Qed.

#[export] Instance identity_key_laws : HashKeyLaws Z.
Proof. split; cbn; unfold btf_dedup_equal_fn, btf_dedup_identity_hash_fn; intros; try lia. f_equal. lia. Qed.

Lemma hashmap_refines_bag_witness :
  let ops := [OInsert true true HASHMAP_ADD 7 70; OInsert true true HASHMAP_SET 7 71;
              OInsert true false HASHMAP_ADD 8 80; OFind 7; ODelete 7; OSize] in
  zlen ops < 2 ^ 60 /\
  exists rs m, run_ops hashmap__init ops = Ok (rs, m) /\ wf m /\
    bag_run [] ops rs (entries m) /\ (Forall not_append ops -> unique (entries m)).
Proof. cbv zeta. split; [reflexivity|]. apply hashmap_refines_bag. reflexivity. Defined.

(** Two traps. After [hashmap__clear] a map that had buckets still
    points to them: every look-up, deletion and insertion that looks for
    its key reads freed memory. And [hashmap__find] does not always return
    the entry appended last: here the fourth append makes the map grow,
    which turns the chain of the key 7 around. *)
Theorem hashmap_traps {A V} `{HashKey A} (m : hashmap A V) bs c w k v s :
  buckets m = BLive bs ->
  hashmap__find (hashmap__clear m) k = Err UseAfterFree /\
  hashmap__delete (hashmap__clear m) k = Err UseAfterFree /\
  (s <> HASHMAP_APPEND -> hashmap__insert c w (hashmap__clear m) k v s = Err UseAfterFree) /\
  exists rs m', run_ops hashmap__init
    [OInsert true true HASHMAP_APPEND 7 1; OInsert true true HASHMAP_APPEND 7 2; OFind 7;
     OInsert true true HASHMAP_APPEND 8 0; OInsert true true HASHMAP_APPEND 9 0; OFind 7]
    = Ok (rs, m') /\ rs !! 2%nat = Some (RFind (Some 2)) /\ rs !! 5%nat = Some (RFind (Some 1)).
Proof.
  intros Hb. unfold hashmap__find, hashmap__delete, hashmap__insert, hashmap_find_entry, hashmap__clear.
  cbn [buckets cap_bits]. rewrite Hb. split; [reflexivity|]. split; [reflexivity|]. split.
  - intros Hs. rewrite (bool_decide_false (s = HASHMAP_APPEND)) by exact Hs. reflexivity.
  - do 2 eexists. split; [vm_compute; reflexivity|]. split; reflexivity.
Qed.

Lemma hashmap_traps_witness :
  exists m, hashmap__add true true hashmap__init 7 70 = Ok (0, m) /\
    hashmap__find m 7 = Ok (Some 70) /\ hashmap__find (hashmap__clear m) 7 = Err UseAfterFree.
Proof.
  eexists. split; [vm_compute; reflexivity|]. split; [reflexivity|].
  refine (proj1 (hashmap_traps _ _ true true 7 0 HASHMAP_ADD _)). reflexivity.
Defined.
