(* ===== verification/LibbpfProps.v ===== *)
(** The guess of a program's type from its section name, and the messages
    of libbpf's errors. *)
From S2P Require Import Prelude CLib LibbpfObj.
#[local] Open Scope Z_scope.

(** * Prefixes of a name *)

Lemma prefix_spec s name : String.prefix s name = true <-> exists k, name = (s ++ k)%string.
Proof.
  revert name; induction s as [|a s IH]; intros name; cbn.
  - destruct name; split; eauto.
  - destruct name as [|b name]; [split; [discriminate | intros [k [=]]]|].
    cbn. destruct (Ascii.ascii_dec a b) as [->|Hn].
    + etransitivity; [exact (IH name)|]. split; intros [k Hk]; exists k; change (String b s +:+ k)%string with (String b (s +:+ k))%string in *; congruence.
    + split; [discriminate | intros [k Hk]; change (String a s +:+ k)%string with (String a (s +:+ k))%string in Hk; congruence].
Qed.

Lemma prefix_refl s : String.prefix s s = true.
Proof. induction s as [|a s IH]; [reflexivity|]. cbn. rewrite IH. destruct (Ascii.ascii_dec a a); congruence. Qed.

(** Of two prefixes of one string, one is a prefix of the other. *)
Lemma prefix_total a b name :
  String.prefix a name = true -> String.prefix b name = true ->
  String.prefix a b = true \/ String.prefix b a = true.
Proof.
  revert b name; induction a as [|x a IH]; intros b name Ha Hb; [left; destruct b; reflexivity|].
  destruct b as [|y b]; [right; reflexivity|].
  destruct name as [|z name]; [discriminate|]. cbn in *.
  destruct (Ascii.ascii_dec x z) as [->|]; [|discriminate].
  destruct (Ascii.ascii_dec y z) as [->|]; [|discriminate].
  destruct (Ascii.ascii_dec z z); [|congruence]. exact (IH b name Ha Hb).
Qed.

(** In a table without shadowing the first match is the longest one. *)
Lemma find_longest es name :
  no_shadow es = true ->
  match List.find (sec_matches name) es with
  | Some e => e ∈ es /\ sec_matches name e = true /\
      forall e', e' ∈ es -> sec_matches name e' = true -> sec_matches (sec e) e' = true
  | None => forall e, e ∈ es -> sec_matches name e = false
  end.
Proof.
  induction es as [|d es IH]; intros Hns; cbn [List.find]; [intros e He; inversion He|].
  cbn [no_shadow] in Hns. apply andb_true_iff in Hns as [Hd Hns]. specialize (IH Hns).
  rewrite forallb_forall in Hd.
  destruct (sec_matches name d) eqn:Hm.
  - split; [left|]. split; [exact Hm|]. intros e' [->|He']%elem_of_cons Hm'.
    + apply prefix_refl.
    + destruct (prefix_total (sec d) (sec e') name Hm Hm') as [Hp|Hp]; [|exact Hp].
      specialize (Hd e' (proj1 (list_elem_of_In es e') He')). unfold sec_matches in Hd.
      rewrite Hp in Hd. discriminate.
  - destruct (List.find (sec_matches name) es) as [e|].
    + destruct IH as (He & Hme & Hl). split; [right; exact He|]. split; [exact Hme|].
      intros e' [->|He']%elem_of_cons Hm'; [congruence | exact (Hl e' He' Hm')].
    + intros e [->|He]%elem_of_cons; [exact Hm | exact (IH e He)].
Qed.

Lemma section_names_no_shadow : no_shadow section_names = true.
Proof. vm_compute. reflexivity. Qed.

(** * Claims *)

(** A section name gets the type of the entry of the table with the
    longest name that it starts with, wherever that stands in the table;
    so the full name of an entry gets that entry's own types, whatever
    starts with "xdp" is an XDP program, and a name that starts with none
    is refused with ESRCH (for the type) or EINVAL (for the attach type). *)
Theorem section_name_longest_match name :
  match libbpf_prog_type_by_name (Some name) with
  | (r, Some (type, expected)) => r = 0 /\ exists e, e ∈ section_names /\
      sec_matches name e = true /\ type = prog_type e /\ expected = sec_expected e /\
      (forall e', e' ∈ section_names -> sec_matches name e' = true -> sec_matches (sec e) e' = true) /\
      libbpf_attach_type_by_name (Some name) =
        (if is_attachable e then (0, Some (attach_type e)) else (- EINVAL, None))
  | (r, None) => r = - ESRCH /\ libbpf_attach_type_by_name (Some name) = (- EINVAL, None) /\
      forall e, e ∈ section_names -> sec_matches name e = false
  end /\
  (forall e, e ∈ section_names ->
     libbpf_prog_type_by_name (Some (sec e)) = (0, Some (prog_type e, sec_expected e))) /\
  libbpf_prog_type_by_name (Some ("xdp" ++ name)%string) = (0, Some (BPF_PROG_TYPE_XDP, 0)).
Proof.
  pose proof (find_longest section_names name section_names_no_shadow) as Hf.
  unfold libbpf_prog_type_by_name, libbpf_attach_type_by_name. split; [|split].
  - destruct (List.find (sec_matches name) section_names) as [e|]; [|auto].
    destruct Hf as (He & Hm & Hl). split; [reflexivity|]. exists e. auto 10.
  - intros e He. rewrite no_shadow_find by (exact section_names_no_shadow || exact He). reflexivity.
  - destruct name; reflexivity.
Qed.

(** ** Error messages *)

(** A buffer that holds a string. *)
Definition terminated (buf : list byte) : Prop := exists s, c_string buf = Ok s.

Lemma terminated_last buf : zlen buf <> 0 ->
  exists buf', aset buf (zlen buf - 1) NUL = Ok buf' /\ zlen buf' = zlen buf /\ terminated buf'.
Proof.
  intros Hn. pose proof (zlen_nonneg buf).
  eexists. split; [apply aset_Ok; lia|]. split; [unfold zlen; rewrite length_insert; reflexivity|].
  destruct buf as [|b buf _] using rev_ind; [destruct (Hn eq_refl)|].
  replace (Z.to_nat (zlen (buf ++ [b]) - 1)) with (length buf)
    by (rewrite zlen_app; unfold zlen; cbn; lia).
  rewrite insert_app_r_alt, Nat.sub_diag by lia. cbn. clear.
  induction buf as [|c buf [s Hs]]; [exists []; reflexivity|]. cbn.
  unfold terminated in *. cbn [c_string]. destruct (decide (c = NUL)); [eauto|].
  rewrite Hs. eauto.
Qed.

Lemma snprintf_fits buf s : zlen buf <> 0 -> zlen buf < 2 ^ 64 ->
  exists buf' n, snprintf buf 0 (zlen buf) s = Ok (buf', n) /\ zlen buf' = zlen buf.
Proof.
  intros Hn Hlt. pose proof (zlen_nonneg buf). unfold snprintf. rewrite u64_small by lia.
  replace (zlen buf =? 0) with false by lia.
  destruct (mwrite buf 0 (take (Z.to_nat (zlen buf - 1)) s ++ [NUL])) as [buf'|f] eqn:E.
  - rewrite bind_Ok. do 2 eexists. split; [reflexivity | exact (zlen_mwrite _ _ _ _ E)].
  - rewrite mwrite_Ok in E; [discriminate|]. unfold in_block, zlen in *.
    rewrite length_app, length_take. cbn [length]. lia.
Qed.

(** Every error of libbpf but one has a message. *)
Lemma strerror_message e : 4000 <= e < 4014 -> e <> 4006 ->
  exists msg, aget libbpf_strerror_table (e - 4000) = Ok (Some msg).
Proof.
  intros He Hne. assert (Forall (fun i => i = 6 \/ exists msg, aget libbpf_strerror_table i = Ok (Some msg))
    (seqZ 0 14)) as Hall by (cbn; repeat (constructor; [eauto|]); constructor).
  rewrite Forall_forall in Hall.
  destruct (Hall (e - 4000)) as [H|H]; [apply elem_of_seqZ; lia | lia | exact H].
Qed.

(** [libbpf_strerror], given a buffer that is not empty and a
    [strerror_r] that stays inside it, leaves a string in the buffer
    whatever the error - except for [LIBBPF_ERRNO__LOAD] (4006), negated or
    not, for which the table holds a NULL pointer that is then printed. *)
Theorem libbpf_strerror_terminates strerror_r err buf :
  zlen buf <> 0 -> zlen buf < 2 ^ 64 -> - 2 ^ 31 <= err < 2 ^ 31 ->
  (forall e b, zlen (snd (strerror_r e b)) = zlen b) ->
  if (Z.abs err =? 4006)
  then libbpf_strerror strerror_r err (Some buf) = Err NullDeref
  else exists r buf', libbpf_strerror strerror_r err (Some buf) = Ok (r, Some buf') /\
    zlen buf' = zlen buf /\ terminated buf'.
Proof.
  intros Hn Hlt Herr Hs. unfold libbpf_strerror. replace (zlen buf =? 0) with false by lia.
  set (e := if 0 <? err then err else s32 (- err)).
  assert (e < LIBBPF_ERRNO__START \/ e = Z.abs err) as He
    by (unfold e, LIBBPF_ERRNO__START; destruct (Z.ltb_spec 0 err); wrap_lia).
  assert (e = 4006 <-> Z.abs err = 4006) as H6
    by (unfold e; destruct (Z.ltb_spec 0 err); wrap_lia).
  unfold LIBBPF_ERRNO__START, LIBBPF_ERRNO__END in *.
  destruct (Z.ltb_spec e 4000) as [Hlow|Hhigh].
  { replace (Z.abs err =? 4006) with false by lia.
    pose proof (Hs e buf) as Hl. destruct (strerror_r e buf) as [ret buf1]. cbn in Hl.
    rewrite <- Hl in Hn |- *. destruct (terminated_last buf1 Hn) as (buf' & -> & ? & ?).
    rewrite bind_Ok. eauto 10. }
  assert (forall (s : list byte) (ret : Z), exists buf',
    ('(b, _) ← snprintf buf 0 (zlen buf) s;
     b ← aset b (zlen buf - 1) NUL; Ok (ret, Some b)) = Ok (ret, Some buf') /\
    zlen buf' = zlen buf /\ terminated buf') as Hprint.
  { intros s ret. destruct (snprintf_fits buf s Hn Hlt) as (buf1 & n & -> & Hl). rewrite bind_Ok.
    rewrite <- Hl in *. destruct (terminated_last buf1 Hn) as (buf' & -> & Hl' & Ht).
    rewrite bind_Ok. exists buf'. auto. }
  destruct (Z.ltb_spec e 4014) as [Hin|Hout].
  2:{ replace (Z.abs err =? 4006) with false by lia.
    destruct (Hprint (bytes_of ("Unknown libbpf error " ++ pretty e)%string) (-1)) as (buf1 & H). exists (-1), buf1. exact H. }
  destruct (Z.eqb_spec (Z.abs err) 4006) as [Ha|Ha].
  { apply H6 in Ha. rewrite Ha. reflexivity. }
  destruct (strerror_message e) as (msg & ->); [lia | intros E; apply Ha, H6, E|].
  rewrite bind_Ok. cbn [or_fault]. rewrite bind_Ok.
  destruct (Hprint (bytes_of msg) 0) as (buf' & H). eauto.
Qed.

Lemma libbpf_strerror_terminates_witness :
  exists r buf', libbpf_strerror (fun _ b => (0, b)) (-4000) (Some (replicate 30 Byte.x41)) =
    Ok (r, Some buf') /\ zlen buf' = 30 /\ terminated buf'.
Proof.
  refine (libbpf_strerror_terminates (fun _ b => (0, b)) (-4000) (replicate 30 Byte.x41) _ _ _ _).
  - discriminate.
  - reflexivity.
  - lia.
  - reflexivity.
Defined.
