(* ===== verification/Nlattr.v ===== *)
(** Netlink attributes ([src/eBPF_app/libbpf/src/nlattr.c], [nlattr.h]):
    type-length-value records in a buffer, each padded to four bytes.
    A pointer into a message is an offset into the buffer it is in. *)
From S2P Require Import Prelude CLib.
#[local] Open Scope Z_scope.

(** * Layout *)

Definition NLMSG_HDRLEN : Z := 16.
Definition NLA_HDRLEN : Z := 4.
(** [NLMSG_ALIGN], [NLA_ALIGN]: rounding up to four. *)
Definition NLA_ALIGN (len : Z) : Z := Z.land (len + 3) (Z.lnot 3).
Definition NLMSG_ALIGN (len : Z) : Z := u32 (NLA_ALIGN len).

Definition NLA_TYPE_MASK : Z := Z.lnot (Z.lor (2 ^ 15) (2 ^ 14)).
Definition NLM_F_CAPPED : Z := 256.
Definition NLM_F_ACK_TLVS : Z := 512.
Definition NLMSGERR_ATTR_MSG : Z := 1.
Definition NLMSGERR_ATTR_OFFS : Z := 2.
Definition NLMSGERR_ATTR_MAX : Z := 3.

(** The fields of a [struct nlmsghdr] at [nh]. *)
Definition nlmsg_len_field (m : list byte) (nh : Z) : res Z := load32 m nh.
Definition nlmsg_type (m : list byte) (nh : Z) : res Z := load16 m (nh + 4).
Definition nlmsg_flags (m : list byte) (nh : Z) : res Z := load16 m (nh + 6).
Definition nlmsg_seq (m : list byte) (nh : Z) : res Z := load32 m (nh + 8).
Definition nlmsg_pid (m : list byte) (nh : Z) : res Z := load32 m (nh + 12).
(** [NLMSG_DATA] *)
Definition nlmsg_data (nh : Z) : Z := nh + NLMSG_HDRLEN.

(** * Policies *)

Inductive nla_kind :=
| LIBBPF_NLA_UNSPEC | LIBBPF_NLA_U8 | LIBBPF_NLA_U16 | LIBBPF_NLA_U32 | LIBBPF_NLA_U64
| LIBBPF_NLA_STRING | LIBBPF_NLA_FLAG | LIBBPF_NLA_MSECS | LIBBPF_NLA_NESTED.
#[export] Instance nla_kind_eq : EqDecision nla_kind.
Proof. solve_decision. Defined.

Record libbpf_nla_policy := mk_policy { pt_type : nla_kind; pt_minlen : Z; pt_maxlen : Z }.

Definition nla_attr_minlen (k : nla_kind) : Z :=
  match k with
  | LIBBPF_NLA_U8 => 1 | LIBBPF_NLA_U16 => 2 | LIBBPF_NLA_U32 => 4 | LIBBPF_NLA_U64 => 8
  | LIBBPF_NLA_STRING => 1
  | _ => 0
  end.

(** * Attributes *)

Definition nla_len (m : list byte) (nla : Z) : res Z := load16 m nla.
Definition nla_type (m : list byte) (nla : Z) : res Z :=
  t ← load16 m (nla + 2); Ok (Z.land t NLA_TYPE_MASK).
Definition libbpf_nla_data (nla : Z) : Z := nla + NLA_HDRLEN.
Definition libbpf_nla_len (m : list byte) (nla : Z) : res Z :=
  len ← nla_len m nla; Ok (len - NLA_HDRLEN).
Definition libbpf_nla_getattr_u8 (m : list byte) (nla : Z) : res Z := load8 m (libbpf_nla_data nla).
Definition libbpf_nla_getattr_u32 (m : list byte) (nla : Z) : res Z := load32 m (libbpf_nla_data nla).
Definition libbpf_nla_getattr_str (m : list byte) (nla : Z) : res (list byte) :=
  c_string (drop (Z.to_nat (libbpf_nla_data nla)) m).

(** The next attribute, and what remains. *)
Definition nla_next (m : list byte) (nla remaining : Z) : res (Z * Z) :=
  len ← nla_len m nla;
  let totlen := NLA_ALIGN len in
  Ok (nla + totlen, remaining - totlen).

(** [remaining >= sizeof( *nla)] compares an [int] with a [size_t]: a
    negative [remaining] is converted to a huge one and passes. *)
Definition nla_ok (m : list byte) (nla remaining : Z) : res bool :=
  if negb (4 <=? u64 remaining) then Ok false else
  len ← nla_len m nla;
  Ok ((4 <=? len) && (len <=? remaining)).

(** 0, or -1 for an attribute against the policy. *)
Definition validate_nla (m : list byte) (nla maxtype : Z) (policy : list libbpf_nla_policy)
    : res Z :=
  type ← nla_type m nla;
  if (type <? 0) || (maxtype <? type) then Ok 0 else
  pt ← aget policy type;
  let minlen := if negb (pt_minlen pt =? 0) then pt_minlen pt
                else nla_attr_minlen (pt_type pt) in
  len ← libbpf_nla_len m nla;
  if len <? minlen then Ok (-1) else
  if negb (pt_maxlen pt =? 0) && (pt_maxlen pt <? len) then Ok (-1) else
  if bool_decide (pt_type pt = LIBBPF_NLA_STRING) then
    b ← aget m (libbpf_nla_data nla + (len - 1));
    Ok (if bool_decide (b = NUL) then 0 else -1)
  else Ok 0.

(** The loop of [libbpf_nla_parse]. [tb] holds the offsets of the
    attributes found, by their types. *)
Fixpoint parse_loop (fuel : nat) (m : list byte) (maxtype : Z) (nla rem : Z)
    (policy : option (list libbpf_nla_policy)) (tb : list (option Z))
    : res (Z * list (option Z)) :=
  match fuel with
  | O => Err OutOfFuel
  | S fuel =>
      ok ← nla_ok m nla rem;
      if negb ok then Ok (0, tb) else
      type ← nla_type m nla;
      let next tb := '(nla, rem) ← nla_next m nla rem; parse_loop fuel m maxtype nla rem policy tb in
      if maxtype <? type then next tb else
      err ← match policy with Some p => validate_nla m nla maxtype p | None => Ok 0 end;
      if err <? 0 then Ok (err, tb) else
      tb ← aset tb type (Some nla);
      next tb
  end.
(** Every attribute takes at least four bytes. *)
Definition libbpf_nla_parse (m : list byte) (maxtype head len : Z)
    (policy : option (list libbpf_nla_policy)) : res (Z * list (option Z)) :=
  parse_loop (S (Z.to_nat len)) m maxtype head len policy
    (replicate (Z.to_nat (maxtype + 1)) None).

Definition libbpf_nla_parse_nested (m : list byte) (maxtype nla : Z)
    (policy : option (list libbpf_nla_policy)) : res (Z * list (option Z)) :=
  len ← libbpf_nla_len m nla;
  libbpf_nla_parse m maxtype (libbpf_nla_data nla) len policy.

(** * The kernel's error message *)

Definition extack_policy : list libbpf_nla_policy :=
  [mk_policy LIBBPF_NLA_UNSPEC 0 0; mk_policy LIBBPF_NLA_STRING 0 0;
   mk_policy LIBBPF_NLA_U32 0 0; mk_policy LIBBPF_NLA_UNSPEC 0 0].

(** [nlmsg_len(nlh)]: a [__u32] less the length of the header. *)
Definition nlmsg_len (m : list byte) (nlh : Z) : res Z :=
  len ← nlmsg_len_field m nlh; Ok (s32 (u32 (len - NLMSG_HDRLEN))).

(** [libbpf_nla_dump_errormsg]: the message printed, if one is: [Some None]
    when a NULL pointer is printed. *)
Definition libbpf_nla_dump_errormsg (m : list byte) (nlh : Z)
    : res (option (option (list byte))) :=
  flags ← nlmsg_flags m nlh;
  if Z.land flags NLM_F_ACK_TLVS =? 0 then Ok None else
  let err := nlmsg_data nlh in
  let hlen := 20 in
  hlen ← (if Z.land flags NLM_F_CAPPED =? 0
          then l ← nlmsg_len m (err + 4); Ok (hlen + l) else Ok hlen);
  len ← nlmsg_len_field m nlh;
  let alen := s32 (u32 (len - hlen)) in
  '(e, tb) ← libbpf_nla_parse m NLMSGERR_ATTR_MAX (err + hlen) alen (Some extack_policy);
  if negb (e =? 0) then Ok None else
  msg ← aget tb NLMSGERR_ATTR_MSG;
  match msg with
  | None => Ok (Some None)
  | Some nla => s ← libbpf_nla_getattr_str m nla; Ok (Some (Some s))
  end.
