(* ===== verification/NlattrProps.v ===== *)
(** Parsing netlink attributes: parsing what was encoded gives the
    attributes back, and parsing any bytes stays inside the buffer if that
    goes on for five bytes after the attributes. *)
From S2P Require Import Prelude CLib Nlattr.
#[local] Open Scope Z_scope.

(** * Arithmetic of the layout *)

Lemma nla_align_eq len : NLA_ALIGN len = 4 * ((len + 3) / 4).
Proof.
  unfold NLA_ALIGN. rewrite <- Z.ldiff_land. change 3 with (Z.ones 2) at 2.
  rewrite Z.ldiff_ones_r, Z.shiftl_mul_pow2, Z.shiftr_div_pow2 by lia. lia.
Qed.

Lemma nla_align_bounds len : len <= NLA_ALIGN len <= len + 3.
Proof. rewrite nla_align_eq. lia. Qed.

Lemma nla_align_mod len : NLA_ALIGN len mod 4 = 0.
Proof. rewrite nla_align_eq. lia. Qed.

Lemma nla_type_mask_mod z : 0 <= z < 2 ^ 16 -> Z.land z NLA_TYPE_MASK = z mod 2 ^ 14.
Proof.
  intros Hz. unfold NLA_TYPE_MASK. change (Z.lor (2 ^ 15) (2 ^ 14)) with (Z.shiftl 3 14).
  apply Z.bits_inj'. intros i Hi. rewrite Z.land_spec, Z.lnot_spec, Z.shiftl_spec by lia.
  destruct (Z.ltb_spec i 14) as [Hlt|Hge].
  - rewrite Z.mod_pow2_bits_low by lia. rewrite (Z.testbit_neg_r 3) by lia. apply andb_true_r.
  - rewrite Z.mod_pow2_bits_high by lia.
    destruct (Z.ltb_spec i 16).
    + assert (Z.testbit 3 (i - 14) = true) as ->; [|apply andb_false_r].
      assert (i - 14 = 0 \/ i - 14 = 1) as [-> | ->] by lia; reflexivity.
    + rewrite <- (Z.mod_small z (2 ^ 16)) by lia. rewrite Z.mod_pow2_bits_high by lia. reflexivity.
Qed.

(** * Attributes and their encoding *)

(** [a_bits]: the nested and byte-order bits. *)
Record attr := mk_attr { a_type : Z; a_bits : Z; a_data : list byte }.

Definition attr_ok (a : attr) : Prop :=
  0 <= a_type a < 2 ^ 14 /\ 0 <= a_bits a < 4 /\ 4 + zlen (a_data a) < 2 ^ 16.

Definition pad (n : Z) : list byte := replicate (Z.to_nat (NLA_ALIGN n - n)) NUL.

Definition encode_attr (a : attr) : list byte :=
  le_bytes 2 (4 + zlen (a_data a)) ++ le_bytes 2 (a_type a + a_bits a * 2 ^ 14) ++
  a_data a ++ pad (zlen (a_data a)).
Definition encode_attrs (l : list attr) : list byte := mjoin (encode_attr <$> l).

(** The last attribute of a type. *)
Fixpoint last_attr (l : list attr) (t : Z) : option attr :=
  match l with
  | [] => None
  | a :: l => match last_attr l t with
              | Some b => Some b
              | None => if a_type a =? t then Some a else None
              end
  end.

(** The attribute [a] is at [off]. *)
Definition attr_at (m : list byte) (off : Z) (a : attr) : Prop :=
  mread m off (zlen (encode_attr a)) = Ok (encode_attr a).

Lemma zlen_nla_pad n : zlen (pad n) = NLA_ALIGN n - n.
Proof. unfold pad. rewrite zlen_replicate. pose proof (nla_align_bounds n). lia. Qed.

Lemma zlen_encode_attr a : zlen (encode_attr a) = NLA_ALIGN (4 + zlen (a_data a)).
Proof.
  unfold encode_attr. rewrite !zlen_app, !zlen_le_bytes, zlen_nla_pad, !nla_align_eq. lia.
Qed.

Lemma zlen_encode_attrs_cons a l :
  zlen (encode_attrs (a :: l)) = zlen (encode_attr a) + zlen (encode_attrs l).
Proof. apply (zlen_app (encode_attr a) (encode_attrs l)). Qed.

(** What is at an attribute. *)
Lemma attr_at_spec m off a :
  attr_ok a -> attr_at m off a ->
  nla_len m off = Ok (4 + zlen (a_data a)) /\ nla_type m off = Ok (a_type a) /\
  mread m (libbpf_nla_data off) (zlen (a_data a)) = Ok (a_data a).
Proof.
  intros (Ht & Hb & Hl) H. pose proof (zlen_nonneg (a_data a)).
  unfold attr_at, encode_attr in H. apply mread_split in H as [H1 H].
  rewrite zlen_le_bytes in *. apply mread_split in H as [H2 H]. rewrite zlen_le_bytes in *.
  apply mread_split in H as [H3 _]. change (Z.of_nat 2) with 2 in *. split; [|split].
  - apply mread_load16; [exact H1 | lia].
  - unfold nla_type. rewrite (mread_load16 _ _ _ H2) by lia.
    rewrite bind_Ok, nla_type_mask_mod by lia. f_equal. lia.
  - unfold libbpf_nla_data, NLA_HDRLEN. rewrite <- H3. f_equal. cbn. lia.
Qed.

Lemma attr_at_cons m off a l :
  mread m off (zlen (encode_attrs (a :: l))) = Ok (encode_attrs (a :: l)) ->
  attr_at m off a /\
  mread m (off + zlen (encode_attr a)) (zlen (encode_attrs l)) = Ok (encode_attrs l).
Proof. apply (mread_split m off (encode_attr a) (encode_attrs l)). Qed.

(** * Parsing what was encoded *)

Lemma nla_ok_done m nla : nla_ok m nla 0 = Ok false.
Proof. reflexivity. Qed.

Lemma nla_ok_attr m nla rem a :
  attr_ok a -> attr_at m nla a -> zlen (encode_attr a) <= rem < 2 ^ 31 -> nla_ok m nla rem = Ok true.
Proof.
  intros Ha Hat Hr. destruct (attr_at_spec m nla a Ha Hat) as (Hl & _).
  rewrite zlen_encode_attr in Hr. pose proof (nla_align_bounds (4 + zlen (a_data a))).
  pose proof (zlen_nonneg (a_data a)).
  unfold nla_ok. rewrite u64_small by lia. replace (4 <=? rem) with true by lia. cbn [negb].
  rewrite Hl, bind_Ok. f_equal. lia.
Qed.

Lemma parse_loop_encoded m maxtype l : forall fuel nla tb,
  Forall attr_ok l -> mread m nla (zlen (encode_attrs l)) = Ok (encode_attrs l) ->
  zlen (encode_attrs l) < 2 ^ 31 -> zlen tb = maxtype + 1 -> (length l < fuel)%nat ->
  exists tb', parse_loop fuel m maxtype nla (zlen (encode_attrs l)) None tb = Ok (0, tb') /\
    zlen tb' = zlen tb /\
    forall t, 0 <= t <= maxtype ->
      match last_attr l t with
      | Some a => exists off, tb' !! Z.to_nat t = Some (Some off) /\ attr_at m off a
      | None => tb' !! Z.to_nat t = tb !! Z.to_nat t
      end.
Proof.
  induction l as [|a l IH]; intros fuel nla tb Hok Hm Hlen Htb Hf;
    (destruct fuel as [|fuel]; [lia|]); cbn [parse_loop].
  { exists tb. split; [reflexivity|]. split; reflexivity. }
  apply Forall_cons in Hok as [Ha Hok]. apply attr_at_cons in Hm as [Hat Hm].
  pose proof (zlen_encode_attrs_cons a l) as Hz. rewrite Hz in *.
  pose proof (zlen_nonneg (encode_attrs l)). pose proof (zlen_nonneg (encode_attr a)).
  rewrite (nla_ok_attr m nla _ a Ha Hat) by lia. rewrite bind_Ok. cbn [negb].
  destruct (attr_at_spec m nla a Ha Hat) as (Hl & Ht & _). rewrite Ht, bind_Ok.
  unfold nla_next. rewrite Hl, bind_Ok. rewrite bind_Ok.
  rewrite <- zlen_encode_attr.
  replace (zlen (encode_attr a) + zlen (encode_attrs l) - zlen (encode_attr a))
    with (zlen (encode_attrs l)) by lia.
  cbn [length] in Hf. destruct Ha as [Hta _].
  destruct (Z.ltb_spec maxtype (a_type a)) as [Hbig|Hsmall].
  - destruct (IH fuel _ tb Hok Hm) as (tb' & -> & Hl' & Hall); [lia | exact Htb | lia|].
    exists tb'. split; [reflexivity|]. split; [exact Hl'|]. intros t Hr. specialize (Hall t Hr).
    cbn [last_attr]. destruct (last_attr l t); [exact Hall|].
    replace (a_type a =? t) with false by lia. exact Hall.
  - rewrite bind_Ok. change (0 <? 0) with false. cbn [negb].
    rewrite aset_Ok by lia. rewrite !bind_Ok.
    destruct (IH fuel _ (<[Z.to_nat (a_type a) := Some nla]> tb) Hok Hm) as (tb' & -> & Hl' & Hall);
      [lia | unfold zlen in *; rewrite length_insert; exact Htb | lia|].
    exists tb'. split; [reflexivity|].
    split; [rewrite Hl'; unfold zlen; rewrite length_insert; reflexivity|].
    intros t Hr. specialize (Hall t Hr). cbn [last_attr].
    destruct (last_attr l t); [exact Hall|]. destruct (Z.eqb_spec (a_type a) t) as [<-|Hne].
    + exists nla. split; [|exact Hat]. rewrite Hall. apply list_lookup_insert_eq. unfold zlen in Htb. lia.
    + rewrite Hall. apply list_lookup_insert_ne. lia.
Qed.

Lemma length_attrs_le l : Z.of_nat (length l) <= zlen (encode_attrs l).
Proof.
  induction l as [|a l IH]; [reflexivity|]. rewrite zlen_encode_attrs_cons, zlen_encode_attr.
  pose proof (nla_align_bounds (4 + zlen (a_data a))). pose proof (zlen_nonneg (a_data a)).
  cbn [length]. lia.
Qed.

(** [tb] is the index of the attributes [l] in [m]: for every type, where
    the last attribute of that type is. *)
Definition indexes (m : list byte) (l : list attr) (maxtype : Z) (tb : list (option Z)) : Prop :=
  zlen tb = maxtype + 1 /\
  forall t, 0 <= t <= maxtype ->
    match last_attr l t with
    | Some a => exists off, aget tb t = Ok (Some off) /\ attr_at m off a
    | None => aget tb t = Ok None
    end.

Lemma parse_encoded m maxtype l head :
  Forall attr_ok l -> mread m head (zlen (encode_attrs l)) = Ok (encode_attrs l) ->
  zlen (encode_attrs l) < 2 ^ 31 -> 0 <= maxtype ->
  exists tb, libbpf_nla_parse m maxtype head (zlen (encode_attrs l)) None = Ok (0, tb) /\
    indexes m l maxtype tb.
Proof.
  intros Hok Hm Hlen Hmax. unfold libbpf_nla_parse.
  destruct (parse_loop_encoded m maxtype l (S (Z.to_nat (zlen (encode_attrs l)))) head
    (replicate (Z.to_nat (maxtype + 1)) None) Hok Hm Hlen) as (tb & -> & Hl & Hall).
  - rewrite zlen_replicate. lia.
  - pose proof (length_attrs_le l). lia.
  - exists tb. rewrite zlen_replicate in Hl. split; [reflexivity|]. split; [lia|].
    intros t Ht. specialize (Hall t Ht). destruct (last_attr l t).
    + destruct Hall as (off & Htb & Hat). exists off. split; [|exact Hat].
      apply aget_Ok. split; [lia | exact Htb].
    + apply aget_Ok. split; [lia|]. rewrite Hall. apply lookup_replicate_2. lia.
Qed.

(** * Parsing any bytes *)

(** What a parse says of an attribute it kept for type [t]. *)
Definition kept (m : list byte) (maxtype first stop : Z)
    (policy : option (list libbpf_nla_policy)) (t off : Z) : Prop :=
  first <= off /\ exists len, nla_len m off = Ok len /\ 4 <= len /\ off + len <= stop /\
  nla_type m off = Ok t /\
  match policy with Some p => validate_nla m off maxtype p = Ok 0 | None => True end.

Definition policy_ok (maxtype : Z) (policy : option (list libbpf_nla_policy)) : Prop :=
  match policy with
  | Some p => zlen p = maxtype + 1 /\
      Forall (fun pt => pt_type pt = LIBBPF_NLA_STRING -> 0 <= pt_minlen pt) p
  | None => True
  end.

Lemma validate_nla_safe m nla maxtype p len :
  policy_ok maxtype (Some p) -> 0 <= nla -> nla_len m nla = Ok len -> 4 <= len ->
  nla + len <= zlen m -> exists e, validate_nla m nla maxtype p = Ok e /\ (e = 0 \/ e = -1).
Proof.
  intros [Hp Hmin] Hn Hl H4 Hin. unfold validate_nla, nla_type.
  destruct (load16_in m (nla + 2)) as [ty Hty]; [blia|]. rewrite Hty, !bind_Ok.
  pose proof (load16_range _ _ _ Hty) as Hr. rewrite nla_type_mask_mod by lia.
  set (t := ty mod 2 ^ 14). assert (0 <= t) by (unfold t; lia).
  destruct ((t <? 0) || (maxtype <? t)) eqn:E; [eauto|].
  destruct (aget_in p t) as [pt Hpt]; [lia|]. rewrite Hpt, bind_Ok.
  unfold libbpf_nla_len. rewrite Hl, !bind_Ok. unfold NLA_HDRLEN.
  destruct (Z.ltb_spec (len - 4) (if negb (pt_minlen pt =? 0) then pt_minlen pt
    else nla_attr_minlen (pt_type pt))) as [|Hge]; [eauto|].
  destruct (negb (pt_maxlen pt =? 0) && (pt_maxlen pt <? len - 4)); [eauto|].
  destruct (bool_decide (pt_type pt = LIBBPF_NLA_STRING)) eqn:Es; [|eauto].
  apply bool_decide_eq_true in Es. rewrite Es in Hge. cbn [nla_attr_minlen] in Hge.
  apply aget_Ok in Hpt as [_ Hpt].
  pose proof (proj1 (Forall_lookup _ _) Hmin _ _ Hpt Es) as Hm.
  assert (1 <= len - 4) by (destruct (Z.eqb_spec (pt_minlen pt) 0); cbn [negb] in Hge; lia).
  destruct (aget_in m (libbpf_nla_data nla + (len - 4 - 1))) as [b ->];
    [unfold libbpf_nla_data, NLA_HDRLEN; lia|].
  rewrite bind_Ok. destruct (bool_decide (b = NUL)); eauto.
Qed.

(** One test of the loop: what it needs, and what it tells. *)
Lemma nla_ok_safe m nla rem :
  0 <= nla -> -4 < rem < 2 ^ 31 -> nla + rem + 5 <= zlen m ->
  nla_ok m nla rem = Ok false \/
  nla_ok m nla rem = Ok true /\ exists len, nla_len m nla = Ok len /\ 4 <= len <= rem.
Proof.
  intros Hn Hr Hin. unfold nla_ok.
  destruct (4 <=? u64 rem) eqn:E; cbn [negb]; [|auto].
  destruct (load16_in m nla) as [len Hl].
  { unfold in_block. destruct (Z.ltb_spec rem 0); [lia|]. rewrite u64_small in E by lia. lia. }
  unfold nla_len. rewrite Hl, bind_Ok.
  destruct (Z.leb_spec 4 len), (Z.leb_spec len rem); cbn [andb]; eauto 6.
Qed.

Lemma kept_next m maxtype nla d stop policy t off :
  0 <= d -> kept m maxtype (nla + d) stop policy t off -> kept m maxtype nla stop policy t off.
Proof. intros Hd [Hf H]. split; [lia | exact H]. Qed.

Lemma parse_loop_safe m maxtype policy : 0 <= maxtype -> policy_ok maxtype policy ->
  forall fuel nla rem tb,
  0 <= nla -> -4 < rem < 2 ^ 31 -> nla + rem + 5 <= zlen m -> (Z.to_nat rem < fuel)%nat ->
  zlen tb = maxtype + 1 ->
  exists err tb', parse_loop fuel m maxtype nla rem policy tb = Ok (err, tb') /\
    (err = 0 \/ err = -1) /\ zlen tb' = maxtype + 1 /\
    forall t off, aget tb' t = Ok (Some off) ->
      aget tb t = Ok (Some off) \/ kept m maxtype nla (nla + rem) policy t off.
Proof.
  intros Hmax Hpol. induction fuel as [|fuel IH]; intros nla rem tb Hn Hr Hin Hf Htb; [lia|].
  cbn [parse_loop].
  destruct (nla_ok_safe m nla rem Hn Hr Hin) as [-> | (-> & len & Hl & Hlen)]; rewrite bind_Ok;
    cbn [negb]; [eauto 10|].
  pose proof (nla_align_bounds len) as Hal.
  destruct (load16_in m (nla + 2)) as [ty Hty]; [blia|].
  assert (nla_type m nla = Ok (Z.land ty NLA_TYPE_MASK)) as Ht by (unfold nla_type; rewrite Hty; reflexivity).
  pose proof (load16_range _ _ _ Hty). rewrite nla_type_mask_mod in Ht by lia.
  set (t0 := ty mod 2 ^ 14) in *. assert (0 <= t0) by (unfold t0; lia).
  rewrite Ht, bind_Ok. unfold nla_next. rewrite Hl.
  assert (forall tb1, zlen tb1 = maxtype + 1 ->
    (forall t off, aget tb1 t = Ok (Some off) ->
       aget tb t = Ok (Some off) \/ kept m maxtype nla (nla + rem) policy t off) ->
    exists err tb', ('(nla, rem) ← (len ← Ok len; Ok (nla + NLA_ALIGN len, rem - NLA_ALIGN len));
      parse_loop fuel m maxtype nla rem policy tb1) = Ok (err, tb') /\
    (err = 0 \/ err = -1) /\ zlen tb' = maxtype + 1 /\
    forall t off, aget tb' t = Ok (Some off) ->
      aget tb t = Ok (Some off) \/ kept m maxtype nla (nla + rem) policy t off) as Hnext.
  { intros tb1 Htb1 Hk1. rewrite !bind_Ok.
    destruct (IH (nla + NLA_ALIGN len) (rem - NLA_ALIGN len) tb1) as (err & tb' & -> & He & Hz & Hk);
      [lia | lia | lia | lia | exact Htb1|].
    exists err, tb'. split; [reflexivity|]. split; [exact He|]. split; [exact Hz|].
    intros t off Ho. destruct (Hk t off Ho) as [H1|H1]; [exact (Hk1 t off H1)|].
    right. apply kept_next in H1; [|lia].
    replace (nla + NLA_ALIGN len + (rem - NLA_ALIGN len)) with (nla + rem) in H1 by lia. exact H1. }
  destruct (Z.ltb_spec maxtype t0) as [|Hsmall]; [apply Hnext; auto|].
  assert (exists e, (match policy with Some p => validate_nla m nla maxtype p | None => Ok 0 end) = Ok e
    /\ (e = 0 \/ e = -1)) as (e & He & Hcase).
  { destruct policy as [p|]; [|eauto].
    destruct (validate_nla_safe m nla maxtype p len Hpol) as (e & He & Hc); eauto; lia. }
  rewrite He, bind_Ok. destruct Hcase as [-> | ->]; cbn [Z.ltb Z.compare]; [|eauto 10].
  rewrite aset_Ok by lia. rewrite bind_Ok.
  assert (aset tb t0 (Some nla) = Ok (<[Z.to_nat t0 := Some nla]> tb)) as Hset by (apply aset_Ok; lia).
  apply Hnext; [rewrite (zlen_aset _ _ _ _ Hset); exact Htb|].
  intros t off Ho. rewrite (aget_aset _ _ _ _ _ Hset) in Ho.
  destruct (decide (t0 = t)) as [<-|]; [|left; exact Ho]. injection Ho as <-.
  right. split; [lia|]. exists len. split; [exact Hl|]. split; [lia|]. split; [lia|].
  split; [exact Ht|]. destruct policy; [exact He | exact I].
Qed.

Lemma parse_nested_encoded m maxtype a l off :
  attr_ok a -> attr_at m off a -> a_data a = encode_attrs l -> Forall attr_ok l -> 0 <= maxtype ->
  exists tb, libbpf_nla_parse_nested m maxtype off None = Ok (0, tb) /\ indexes m l maxtype tb.
Proof.
  intros Ha Hat Hd Hok Hmax. destruct (attr_at_spec m off a Ha Hat) as (Hl & _ & Hm).
  destruct Ha as (_ & _ & Hlt). pose proof (zlen_nonneg (a_data a)).
  unfold libbpf_nla_parse_nested, libbpf_nla_len. rewrite Hl, !bind_Ok.
  replace (4 + zlen (a_data a) - NLA_HDRLEN) with (zlen (a_data a)) by (unfold NLA_HDRLEN; lia).
  rewrite Hd in *. apply parse_encoded; [exact Hok | exact Hm | lia | exact Hmax].
Qed.

(** * Claims *)

(** C32: parsing attributes that were encoded, wherever they are in the
    buffer and whatever is around them, finds for every type the last
    attribute of that type, with its length and its data; when the data are
    attributes themselves, parsing them as nested attributes finds those. *)
Theorem nla_parse_roundtrip m maxtype l head :
  Forall attr_ok l -> mread m head (zlen (encode_attrs l)) = Ok (encode_attrs l) ->
  zlen (encode_attrs l) < 2 ^ 31 -> 0 <= maxtype ->
  exists tb, libbpf_nla_parse m maxtype head (zlen (encode_attrs l)) None = Ok (0, tb) /\
  forall t, 0 <= t <= maxtype ->
    match last_attr l t with
    | None => aget tb t = Ok None
    | Some a => exists off, aget tb t = Ok (Some off) /\
        libbpf_nla_len m off = Ok (zlen (a_data a)) /\
        mread m (libbpf_nla_data off) (zlen (a_data a)) = Ok (a_data a) /\
        forall inner imax, a_data a = encode_attrs inner -> Forall attr_ok inner -> 0 <= imax ->
          exists itb, libbpf_nla_parse_nested m imax off None = Ok (0, itb) /\
            indexes m inner imax itb
    end.
Proof.
  intros Hok Hm Hlen Hmax. destruct (parse_encoded m maxtype l head Hok Hm Hlen Hmax) as (tb & Hp & _ & Hi).
  exists tb. split; [exact Hp|]. intros t Ht. specialize (Hi t Ht).
  destruct (last_attr l t) as [a|] eqn:Ea; [|exact Hi]. destruct Hi as (off & Htb & Hat).
  assert (attr_ok a) as Ha.
  { rewrite Forall_forall in Hok. apply Hok. clear -Ea. induction l as [|b l IH]; [discriminate|].
    cbn [last_attr] in Ea. destruct (last_attr l t); [right; auto|].
    destruct (a_type b =? t); [injection Ea as <-; left | discriminate]. }
  destruct (attr_at_spec m off a Ha Hat) as (Hl & _ & Hd). exists off. split; [exact Htb|].
  split; [|split; [exact Hd|]].
  - unfold libbpf_nla_len. rewrite Hl, bind_Ok. f_equal. unfold NLA_HDRLEN. lia.
  - intros inner imax He Hin Hi. exact (parse_nested_encoded m imax a inner off Ha Hat He Hin Hi).
Qed.

Lemma nla_parse_roundtrip_witness :
  let l := [mk_attr 43 2 (encode_attrs [mk_attr 1 0 (le_bytes 4 9)]); mk_attr 3 0 [Byte.x41]] in
  let m := [Byte.x55] ++ encode_attrs l in
  exists tb, libbpf_nla_parse m 53 1 (zlen (encode_attrs l)) None = Ok (0, tb) /\
    aget tb 43 = Ok (Some 1) /\ aget tb 3 = Ok (Some 13).
Proof.
  cbv zeta. set (l := [_; _]).
  assert (Forall attr_ok l) as Hok
    by (repeat constructor; cbn; lia).
  destruct (nla_parse_roundtrip ([Byte.x55] ++ encode_attrs l) 53 l 1 Hok eq_refl eq_refl)
    as (tb & Hp & _); [lia|].
  exists tb. split; [exact Hp|]. vm_compute in Hp. injection Hp as <-. split; reflexivity.
Defined.

(** C31: parsing [len] bytes of anything from [head] on, with or without a
    policy, ends with 0 or -1 and reads only inside the buffer, provided
    the buffer goes on for five bytes after them; every attribute kept lies
    in the [len] bytes, has the type it is kept for and passed the policy.
    The five bytes are needed: after an attribute whose padding is cut off
    what remains is negative, which the test for a further header takes for
    a huge number, so that the length of one more attribute is read. *)
Theorem nla_parse_safe m maxtype head len policy :
  0 <= maxtype -> policy_ok maxtype policy -> 0 <= head -> 0 <= len < 2 ^ 31 ->
  head + len + 5 <= zlen m ->
  (exists err tb, libbpf_nla_parse m maxtype head len policy = Ok (err, tb) /\
    (err = 0 \/ err = -1) /\ zlen tb = maxtype + 1 /\
    forall t off, aget tb t = Ok (Some off) -> kept m maxtype head (head + len) policy t off) /\
  libbpf_nla_parse ([Byte.x05; Byte.x00; Byte.x01; Byte.x00; Byte.x41] ++ replicate 4 NUL)
    1 0 5 None = Err OutOfBounds.
Proof.
  intros Hmax Hpol Hh Hlen Hin. split; [|reflexivity]. unfold libbpf_nla_parse.
  destruct (parse_loop_safe m maxtype policy Hmax Hpol (S (Z.to_nat len)) head len
    (replicate (Z.to_nat (maxtype + 1)) None)) as (err & tb & Hp & He & Hz & Hk);
    [lia | lia | lia | lia | rewrite zlen_replicate; lia|].
  exists err, tb. split; [exact Hp|]. split; [exact He|]. split; [exact Hz|].
  intros t off Ho. destruct (Hk t off Ho) as [H|H]; [|exact H].
  apply aget_Ok in H as [_ H]. apply lookup_replicate_1 in H as [[=] _].
Qed.

Lemma nla_parse_safe_witness :
  exists err tb, libbpf_nla_parse (replicate 20 Byte.x07) 3 0 15 (Some extack_policy) = Ok (err, tb) /\
    (err = 0 \/ err = -1).
Proof.
  destruct (nla_parse_safe (replicate 20 Byte.x07) 3 0 15 (Some extack_policy))
    as [(err & tb & Hp & He & _) _]; try lia.
  - split; [reflexivity|]. repeat constructor; cbn; lia.
  - reflexivity || (vm_compute; discriminate).
  - exists err, tb. auto.
Defined.

(** What [libbpf_nla_dump_errormsg] prints for an index of attributes. *)
Definition printed (m : list byte) (r : Z * list (option Z)) : res (option (option (list byte))) :=
  let '(e, tb) := r in
  if negb (e =? 0) then Ok None else
  msg ← aget tb NLMSGERR_ATTR_MSG;
  match msg with
  | None => Ok (Some None)
  | Some nla => s ← libbpf_nla_getattr_str m nla; Ok (Some (Some s))
  end.

(** An error message of 36 bytes with no attributes, followed in the buffer
    by 16 bytes that are not part of it. *)
Definition capped_error : list byte :=
  le_bytes 4 36 ++ le_bytes 2 2 ++ le_bytes 2 (NLM_F_CAPPED + NLM_F_ACK_TLVS) ++ replicate 28 NUL ++
  encode_attr (mk_attr 1 0 [Byte.x6f; Byte.x6c; Byte.x64; NUL]) ++ replicate 13 NUL.

(** Of an error message whose copy of the request is capped,
    [libbpf_nla_dump_errormsg] parses sixteen bytes more than its
    attributes have: the length of the message's own header is not
    subtracted. So it prints a text that stands behind the message, where
    there is none in it; and where there is none at all, it prints a NULL
    pointer. *)
Theorem extack_reads_beyond m nh len :
  nlmsg_flags m nh = Ok (NLM_F_CAPPED + NLM_F_ACK_TLVS) -> nlmsg_len_field m nh = Ok len ->
  36 <= len < 2 ^ 31 ->
  libbpf_nla_dump_errormsg m nh =
    (r ← libbpf_nla_parse m NLMSGERR_ATTR_MAX (nh + 36) (len - 36 + 16) (Some extack_policy);
     printed m r) /\
  (r ← libbpf_nla_parse capped_error NLMSGERR_ATTR_MAX 36 0 (Some extack_policy);
   printed capped_error r) = Ok (Some None) /\
  libbpf_nla_dump_errormsg capped_error 0 = Ok (Some (Some [Byte.x6f; Byte.x6c; Byte.x64])) /\
  libbpf_nla_dump_errormsg (take 36 capped_error ++ replicate 21 NUL) 0 = Ok (Some None).
Proof.
  intros Hf Hl Hr. split; [|repeat split; vm_compute; reflexivity].
  unfold libbpf_nla_dump_errormsg. rewrite Hf, bind_Ok.
  change (Z.land (NLM_F_CAPPED + NLM_F_ACK_TLVS) NLM_F_ACK_TLVS =? 0) with false.
  change (Z.land (NLM_F_CAPPED + NLM_F_ACK_TLVS) NLM_F_CAPPED =? 0) with false. cbn match.
  rewrite bind_Ok, Hl, bind_Ok.
  replace (s32 (u32 (len - 20))) with (len - 36 + 16) by wrap_lia.
  replace (nlmsg_data nh + 20) with (nh + 36) by (unfold nlmsg_data, NLMSG_HDRLEN; lia).
  destruct (libbpf_nla_parse m _ _ _ _) as [[e tb]|]; reflexivity.
Qed.

Lemma extack_reads_beyond_witness :
  libbpf_nla_dump_errormsg capped_error 0 = Ok (Some (Some [Byte.x6f; Byte.x6c; Byte.x64])).
Proof. refine (proj1 (proj2 (proj2 (extack_reads_beyond capped_error 0 36 _ _ _)))); [reflexivity | reflexivity | lia]. Defined.
