(* ===== verification/Netlink.v ===== *)
(** Netlink ([src/eBPF_app/libbpf/src/netlink.c]): the socket, the loop over
    the kernel's answers, the message that attaches an XDP program to a
    device, and the dumps that ask for what is attached. *)
From S2P Require Import Prelude CLib Params XdpLink LibbpfObj Nlattr.
#[local] Open Scope Z_scope.

(** * The socket layer of the kernel *)

(** [nl_getsockname] gives the result, the length of the address and the
    port; [nl_recv] an error number or the bytes of the next datagram, cut
    to the size of the buffer; [nl_pending] is how often [nl_recv] on this
    socket will come back: after that it blocks. *)
Class Netlink (K : Type) := {
  nl_socket : K -> sysret * K;
  nl_ext_ack : K -> Z -> sysret * K;
  nl_bind : K -> Z -> sysret * K;
  nl_getsockname : K -> Z -> sysret * Z * Z * K;
  nl_send : K -> Z -> list byte -> sysret * K;
  nl_recv : K -> Z -> Z -> (Z + list byte) * K;
  nl_close : K -> Z -> K;
  nl_time : K -> Z;
  nl_pending : K -> Z -> nat
}.

Definition NLM_F_REQUEST : Z := 1.
Definition NLM_F_MULTI : Z := 2.
Definition NLM_F_ACK : Z := 4.
Definition NLM_F_DUMP : Z := Z.lor 256 512.
Definition NLMSG_ERROR : Z := 2.
Definition NLMSG_DONE : Z := 3.
Definition LIBBPF_ERRNO__WRNGPID : Z := 4011.
Definition LIBBPF_ERRNO__INVSEQ : Z := 4012.
Definition LIBBPF_ERRNO__NLPARSE : Z := 4013.
Definition sizeof_sockaddr_nl : Z := 12.
Definition sizeof_ifinfomsg : Z := 16.
Definition sizeof_tcmsg : Z := 20.
Definition IFLA_MAX : Z := 53.
Definition IFLA_XDP : Z := 43.
Definition IFLA_XDP_FD : Z := 1.
Definition IFLA_XDP_ATTACHED : Z := 2.
Definition IFLA_XDP_FLAGS : Z := 3.
Definition IFLA_XDP_PROG_ID : Z := 4.
Definition IFLA_XDP_DRV_PROG_ID : Z := 5.
Definition IFLA_XDP_SKB_PROG_ID : Z := 6.
Definition IFLA_XDP_HW_PROG_ID : Z := 7.
Definition IFLA_XDP_MAX : Z := 7.
Definition XDP_ATTACHED_NONE : Z := 0.
Definition XDP_ATTACHED_DRV : Z := 1.
Definition XDP_ATTACHED_SKB : Z := 2.
Definition XDP_ATTACHED_MULTI : Z := 4.
Definition RTM_GETLINK : Z := 18.
Definition RTM_SETLINK : Z := 19.
Definition RTM_GETQDISC : Z := 38.
Definition RTM_GETTCLASS : Z := 42.
Definition RTM_GETTFILTER : Z := 46.
Definition AF_PACKET : Z := 17.
Definition NLA_F_NESTED : Z := 2 ^ 15.
Definition EMSGSIZE : Z := 90.

(** Stores into a message. *)
Definition store16 (m : list byte) (off v : Z) : res (list byte) := mwrite m off (le_bytes 2 v).
Definition store32 (m : list byte) (off v : Z) : res (list byte) := mwrite m off (le_bytes 4 v).

Definition NLMSG_LENGTH (len : Z) : Z := len + NLMSG_HDRLEN.

Definition NLMSG_OK (m : list byte) (nh len : Z) : res bool :=
  if len <? NLMSG_HDRLEN then Ok false else
  l ← nlmsg_len_field m nh;
  Ok ((NLMSG_HDRLEN <=? l) && (l <=? u32 len)).

Section netlink.
Context {K : Type} `{Netlink K}.
(** What a local buffer holds before it is filled. *)
Context (stack : list byte).

(** The socket, or an error, and the port. *)
Definition libbpf_netlink_open (k : K) : Z * Z * K :=
  match nl_socket k with
  | (RErr e, k) => (- e, 0, k)
  | (ROk sock, k) =>
      let '(_, k) := nl_ext_ack k sock in
      match nl_bind k sock with
      | (RErr e, k) => (- e, 0, nl_close k sock)
      | (ROk _, k) =>
          match nl_getsockname k sock with
          | (RErr e, _, _, k) => (- e, 0, nl_close k sock)
          | (ROk _, addrlen, pid, k) =>
              if negb (addrlen =? sizeof_sockaddr_nl)
              then (- LIBBPF_ERRNO__INTERNAL, 0, nl_close k sock)
              else (sock, pid, k)
          end
      end
  end.

(** What one datagram comes to: the function returns, or goes on with or
    without [multipart]. *)
Inductive recv_step := RecvReturn (ret : Z) | RecvMore (multipart : bool).

Section recv.
Context {C : Type}.
(** [_fn], with [fn] in it; [None] for NULL. *)
Context (dump : option (list byte -> Z -> C -> res (Z * C))).

Fixpoint messages_loop (fuel : nat) (m : list byte) (nl_pid seq nh len : Z) (multipart : bool)
    (cookie : C) : res (recv_step * C) :=
  match fuel with
  | O => Err OutOfFuel
  | S fuel =>
      ok ← NLMSG_OK m nh len;
      if negb ok then Ok (RecvMore multipart, cookie) else
      pid ← nlmsg_pid m nh;
      if negb (pid =? nl_pid) then Ok (RecvReturn (- LIBBPF_ERRNO__WRNGPID), cookie) else
      sq ← nlmsg_seq m nh;
      if negb (sq =? u32 seq) then Ok (RecvReturn (- LIBBPF_ERRNO__INVSEQ), cookie) else
      flags ← nlmsg_flags m nh;
      let multipart := multipart || negb (Z.land flags NLM_F_MULTI =? 0) in
      type ← nlmsg_type m nh;
      let next cookie :=
        l ← nlmsg_len_field m nh;
        messages_loop fuel m nl_pid seq (nh + NLMSG_ALIGN l)
          (s32 (u32 (len - NLMSG_ALIGN l))) multipart cookie in
      if type =? NLMSG_ERROR then
        error ← load32 m (nlmsg_data nh);
        if s32 error =? 0 then next cookie else
        _ ← libbpf_nla_dump_errormsg m nh;
        Ok (RecvReturn (s32 error), cookie)
      else if type =? NLMSG_DONE then Ok (RecvReturn 0, cookie)
      else match dump with
           | None => next cookie
           | Some fn =>
               '(ret, cookie) ← fn m nh cookie;
               if negb (ret =? 0) then Ok (RecvReturn ret, cookie) else next cookie
           end
  end.

Definition RECV_BUF : Z := 4096.

(** Out of fuel: [recv] blocks, since nothing will come any more. *)
Fixpoint recv_loop (fuel : nat) (k : K) (sock nl_pid seq : Z) (buf : list byte) (cookie : C)
    : res (Z * C * K) :=
  match fuel with
  | O => Err OutOfFuel
  | S fuel =>
      match nl_recv k sock RECV_BUF with
      | (inl e, k) => Ok (- e, cookie, k)
      | (inr data, k) =>
          let len := zlen data in
          if len =? 0 then Ok (0, cookie, k) else
          let buf := data ++ drop (length data) buf in
          '(step, cookie) ← messages_loop (S (Z.to_nat len)) buf nl_pid seq 0 len false cookie;
          match step with
          | RecvReturn ret => Ok (ret, cookie, k)
          | RecvMore true => recv_loop fuel k sock nl_pid seq buf cookie
          | RecvMore false => Ok (0, cookie, k)
          end
      end
  end.

Definition bpf_netlink_recv (k : K) (sock nl_pid seq : Z) (cookie : C) : res (Z * C * K) :=
  recv_loop (nl_pending k sock) k sock nl_pid seq stack cookie.
End recv.

(** * Attaching *)

Definition sizeof_req : nat := 96.

(** The request in its buffer, and its length. *)
Definition setlink_request (ifindex fd flags : Z) : res (list byte * Z) :=
  let req := replicate sizeof_req NUL in
  req ← store32 req 0 (NLMSG_LENGTH sizeof_ifinfomsg);
  req ← store16 req 6 (Z.lor NLM_F_REQUEST NLM_F_ACK);
  req ← store16 req 4 RTM_SETLINK;
  req ← store32 req 12 0;
  req ← store32 req 8 1;
  req ← mwrite req 16 [NUL];
  req ← store32 req 20 ifindex;
  (* the nested attribute for XDP *)
  len ← load32 req 0;
  let nla := NLMSG_ALIGN len in
  req ← store16 req (nla + 2) (Z.lor NLA_F_NESTED IFLA_XDP);
  req ← store16 req nla NLA_HDRLEN;
  (* the descriptor *)
  l ← load16 req nla;
  let nla_xdp := nla + l in
  req ← store16 req (nla_xdp + 2) IFLA_XDP_FD;
  req ← store16 req nla_xdp (NLA_HDRLEN + 4);
  req ← store32 req (nla_xdp + NLA_HDRLEN) fd;
  l ← load16 req nla; lx ← load16 req nla_xdp;
  req ← store16 req nla (l + lx);
  (* the flags, if any *)
  req ← (if negb (flags =? 0) then
           l ← load16 req nla;
           let nla_xdp := nla + l in
           req ← store16 req (nla_xdp + 2) IFLA_XDP_FLAGS;
           req ← store16 req nla_xdp (NLA_HDRLEN + 4);
           req ← store32 req (nla_xdp + NLA_HDRLEN) flags;
           l ← load16 req nla; lx ← load16 req nla_xdp;
           store16 req nla (l + lx)
         else Ok req);
  len ← load32 req 0; l ← load16 req nla;
  req ← store32 req 0 (len + NLA_ALIGN l);
  len ← load32 req 0;
  Ok (req, len).

Definition bpf_set_link_xdp_fd (k : K) (ifindex fd flags : Z) : res (Z * K) :=
  let '(sock, nl_pid, k) := libbpf_netlink_open k in
  if sock <? 0 then Ok (sock, k) else
  '(req, len) ← setlink_request ifindex fd flags;
  bytes ← mread req 0 len;
  match nl_send k sock bytes with
  | (RErr e, k) => Ok (- e, nl_close k sock)
  | (ROk _, k) =>
      '(ret, _, k) ← bpf_netlink_recv (C := unit) None k sock nl_pid 1 tt;
      Ok (ret, nl_close k sock)
  end.

(** * Asking *)

Section dumps.
Context {C : Type}.
(** A [libbpf_dump_nlmsg_t]: it gets the cookie, the place of the message
    after the header, and the index of its attributes. *)
Context (fn : list byte -> Z -> list (option Z) -> C -> res (Z * C)).

(** [__dump_link_nlmsg], and with another header and another index the
    other three of the file. *)
Definition dump_nlmsg (hdr maxtype : Z) (m : list byte) (nlh : Z) (cookie : C) : res (Z * C) :=
  let ifi := nlmsg_data nlh in
  l ← nlmsg_len_field m nlh;
  let len := s32 (u32 (l - NLMSG_LENGTH hdr)) in
  let attr := ifi + NLMSG_ALIGN hdr in
  '(err, tb) ← libbpf_nla_parse m maxtype attr len None;
  if negb (err =? 0) then Ok (- LIBBPF_ERRNO__NLPARSE, cookie) else fn m ifi tb cookie.
Definition dump_link_nlmsg := dump_nlmsg sizeof_ifinfomsg IFLA_MAX.

(** A request of a header and a [struct ifinfomsg], all else zero. *)
Definition getlink_request (seq : Z) : list byte :=
  le_bytes 4 (NLMSG_LENGTH sizeof_ifinfomsg) ++ le_bytes 2 RTM_GETLINK ++
  le_bytes 2 (Z.lor NLM_F_DUMP NLM_F_REQUEST) ++ le_bytes 4 seq ++ le_bytes 4 0 ++
  [byte_of_Z AF_PACKET] ++ replicate 15 NUL.

Definition libbpf_nl_get_link (k : K) (sock nl_pid : Z) (cookie : C) : res (Z * C * K) :=
  let seq := nl_time k in
  match nl_send k sock (getlink_request seq) with
  | (RErr e, k) => Ok (- e, cookie, k)
  | (ROk _, k) => bpf_netlink_recv (Some dump_link_nlmsg) k sock nl_pid seq cookie
  end.

(** The requests with a [struct tcmsg]. *)
Definition tc_request (type seq ifindex parent : Z) : list byte :=
  le_bytes 4 (NLMSG_LENGTH sizeof_tcmsg) ++ le_bytes 2 type ++
  le_bytes 2 (Z.lor NLM_F_DUMP NLM_F_REQUEST) ++ le_bytes 4 seq ++ le_bytes 4 0 ++
  replicate 4 NUL ++ le_bytes 4 ifindex ++ le_bytes 4 0 ++ le_bytes 4 parent ++ le_bytes 4 0.

(** [TCA_MAX] is the C library's. *)
Context (TCA_MAX : Z).
Definition dump_class_nlmsg := dump_nlmsg sizeof_tcmsg TCA_MAX.
Definition dump_qdisc_nlmsg := dump_nlmsg sizeof_tcmsg TCA_MAX.
Definition dump_filter_nlmsg := dump_nlmsg sizeof_tcmsg TCA_MAX.
Definition nl_get_tc (dump : list byte -> Z -> C -> res (Z * C)) (type : Z) (k : K)
    (sock nl_pid ifindex parent : Z) (cookie : C) : res (Z * C * K) :=
  let seq := nl_time k in
  match nl_send k sock (tc_request type seq ifindex parent) with
  | (RErr e, k) => Ok (- e, cookie, k)
  | (ROk _, k) => bpf_netlink_recv (Some dump) k sock nl_pid seq cookie
  end.
Definition libbpf_nl_get_class (k : K) (sock nl_pid ifindex : Z) (cookie : C) :=
  nl_get_tc dump_class_nlmsg RTM_GETTCLASS k sock nl_pid ifindex 0 cookie.
Definition libbpf_nl_get_qdisc (k : K) (sock nl_pid ifindex : Z) (cookie : C) :=
  nl_get_tc dump_qdisc_nlmsg RTM_GETQDISC k sock nl_pid ifindex 0 cookie.
Definition libbpf_nl_get_filter (k : K) (sock nl_pid ifindex handle : Z) (cookie : C) :=
  nl_get_tc dump_filter_nlmsg RTM_GETTFILTER k sock nl_pid ifindex handle cookie.
End dumps.

Record xdp_link_info := mk_xdp_info {
  prog_id : Z; drv_prog_id : Z; hw_prog_id : Z; skb_prog_id : Z; attach_mode : Z
}.
Record xdp_id_md := mk_id_md { md_ifindex : Z; md_flags : Z; md_info : xdp_link_info }.

Definition set_info (c : xdp_id_md) (i : xdp_link_info) : xdp_id_md :=
  mk_id_md (md_ifindex c) (md_flags c) i.

(** One of the program ids: stored if the attribute is there. *)
Definition store_id (m : list byte) (tb : list (option Z)) (type : Z)
    (set : Z -> xdp_link_info -> xdp_link_info) (c : xdp_id_md) : res xdp_id_md :=
  a ← aget tb type;
  match a with
  | None => Ok c
  | Some nla => v ← libbpf_nla_getattr_u32 m nla; Ok (set_info c (set v (md_info c)))
  end.

Definition get_xdp_info (m : list byte) (ifinfo : Z) (tb : list (option Z)) (c : xdp_id_md)
    : res (Z * xdp_id_md) :=
  idx ← load32 m (ifinfo + 4);
  if negb (md_ifindex c =? 0) && negb (md_ifindex c =? s32 idx) then Ok (0, c) else
  xdp ← aget tb IFLA_XDP;
  match xdp with
  | None => Ok (0, c)
  | Some nla =>
      '(ret, xdp_tb) ← libbpf_nla_parse_nested m IFLA_XDP_MAX nla None;
      if negb (ret =? 0) then Ok (ret, c) else
      att ← aget xdp_tb IFLA_XDP_ATTACHED;
      match att with
      | None => Ok (0, c)
      | Some a =>
          mode ← libbpf_nla_getattr_u8 m a;
          let i := md_info c in
          let c := set_info c (mk_xdp_info (prog_id i) (drv_prog_id i) (hw_prog_id i)
                                 (skb_prog_id i) mode) in
          if mode =? XDP_ATTACHED_NONE then Ok (0, c) else
          c ← store_id m xdp_tb IFLA_XDP_PROG_ID (fun v i =>
                mk_xdp_info v (drv_prog_id i) (hw_prog_id i) (skb_prog_id i) (attach_mode i)) c;
          c ← store_id m xdp_tb IFLA_XDP_SKB_PROG_ID (fun v i =>
                mk_xdp_info (prog_id i) (drv_prog_id i) (hw_prog_id i) v (attach_mode i)) c;
          c ← store_id m xdp_tb IFLA_XDP_DRV_PROG_ID (fun v i =>
                mk_xdp_info (prog_id i) v (hw_prog_id i) (skb_prog_id i) (attach_mode i)) c;
          c ← store_id m xdp_tb IFLA_XDP_HW_PROG_ID (fun v i =>
                mk_xdp_info (prog_id i) (drv_prog_id i) v (skb_prog_id i) (attach_mode i)) c;
          Ok (0, c)
      end
  end.

(** A [struct xdp_link_info] in memory: 20 bytes, three of them padding. *)
Definition info_bytes (i : xdp_link_info) : list byte :=
  le_bytes 4 (prog_id i) ++ le_bytes 4 (drv_prog_id i) ++ le_bytes 4 (hw_prog_id i) ++
  le_bytes 4 (skb_prog_id i) ++ [byte_of_Z (attach_mode i)] ++ replicate 3 NUL.

(** [bpf_get_link_xdp_info]: the error code, and on success the memory
    that [info] then holds. *)
Definition bpf_get_link_xdp_info (k : K) (ifindex : Z) (info_size : Z) (flags : Z)
    : res (Z * list byte * K) :=
  if negb (clear flags XDP_FLAGS_MASK =? 0) || (info_size =? 0) then Ok (- EINVAL, [], k) else
  let flags := Z.land flags XDP_FLAGS_MODES in
  let mask := u32 (flags - 1) in
  if negb (flags =? 0) && negb (Z.land flags mask =? 0) then Ok (- EINVAL, [], k) else
  let '(sock, nl_pid, k) := libbpf_netlink_open k in
  if sock <? 0 then Ok (sock, [], k) else
  let c := mk_id_md ifindex flags (mk_xdp_info 0 0 0 0 0) in
  '(ret, c, k) ← libbpf_nl_get_link get_xdp_info k sock nl_pid c;
  let sz := Z.min info_size 20 in
  let info := if ret =? 0
              then take (Z.to_nat sz) (info_bytes (md_info c)) ++
                   replicate (Z.to_nat (info_size - sz)) NUL
              else [] in
  Ok (ret, info, nl_close k sock).

Definition get_xdp_id (info : list byte) (flags : Z) : res Z :=
  mode ← load8 info 16;
  if negb (mode =? XDP_ATTACHED_MULTI) then load32 info 0
  else if negb (Z.land flags XDP_FLAGS_DRV_MODE =? 0) then load32 info 4
  else if negb (Z.land flags XDP_FLAGS_HW_MODE =? 0) then load32 info 8
  else if negb (Z.land flags XDP_FLAGS_SKB_MODE =? 0) then load32 info 12
  else Ok 0.

(** [bpf_get_link_xdp_id]: [prog_id] is written on success only. *)
Definition bpf_get_link_xdp_id (k : K) (ifindex flags : Z) : res (Z * Z * K) :=
  '(ret, info, k) ← bpf_get_link_xdp_info k ifindex 20 flags;
  if ret =? 0 then id ← get_xdp_id info flags; Ok (ret, id, k) else Ok (ret, 0, k).
End netlink.
