(* ===== verification/NetlinkSpec.v ===== *)
(** The messages of netlink as values, what a reader makes of them, and how
    the code reads them: the loop over the kernel's answers computes, on the
    bytes of any messages, what it should on the messages. *)
From S2P Require Import Prelude CLib Params XdpLink LibbpfObj Nlattr NlattrProps Netlink.
#[local] Open Scope Z_scope.

(** * Messages *)

Record nlmsg := mk_msg { n_type : Z; n_flags : Z; n_seq : Z; n_pid : Z; n_data : list byte }.

Definition msg_ok (x : nlmsg) : Prop :=
  0 <= n_type x < 2 ^ 16 /\ 0 <= n_flags x < 2 ^ 16 /\ 0 <= n_seq x < 2 ^ 32 /\
  0 <= n_pid x < 2 ^ 32.

Definition encode_msg (x : nlmsg) : list byte :=
  le_bytes 4 (16 + zlen (n_data x)) ++ le_bytes 2 (n_type x) ++ le_bytes 2 (n_flags x) ++
  le_bytes 4 (n_seq x) ++ le_bytes 4 (n_pid x) ++ n_data x ++ pad (zlen (n_data x)).
Definition encode_msgs (l : list nlmsg) : list byte := mjoin (encode_msg <$> l).

Definition msg_at (m : list byte) (nh : Z) (x : nlmsg) : Prop :=
  mread m nh (zlen (encode_msg x)) = Ok (encode_msg x).

Lemma zlen_encode_msg x : zlen (encode_msg x) = 16 + NLA_ALIGN (zlen (n_data x)).
Proof. unfold encode_msg. rewrite !zlen_app, !zlen_le_bytes, zlen_nla_pad. lia. Qed.

Lemma zlen_encode_msgs_cons x l : zlen (encode_msgs (x :: l)) = zlen (encode_msg x) + zlen (encode_msgs l).
Proof. apply (zlen_app (encode_msg x) (encode_msgs l)). Qed.

Lemma msg_at_cons m nh x l :
  mread m nh (zlen (encode_msgs (x :: l))) = Ok (encode_msgs (x :: l)) ->
  msg_at m nh x /\ mread m (nh + zlen (encode_msg x)) (zlen (encode_msgs l)) = Ok (encode_msgs l).
Proof. apply (mread_split m nh (encode_msg x) (encode_msgs l)). Qed.

(** The fields of a message, as the code reads them. *)
Lemma msg_at_spec m nh x :
  msg_ok x -> zlen (encode_msg x) < 2 ^ 31 -> msg_at m nh x ->
  nlmsg_len_field m nh = Ok (16 + zlen (n_data x)) /\ nlmsg_type m nh = Ok (n_type x) /\
  nlmsg_flags m nh = Ok (n_flags x) /\ nlmsg_seq m nh = Ok (n_seq x) /\
  nlmsg_pid m nh = Ok (n_pid x) /\
  mread m (nlmsg_data nh) (zlen (n_data x)) = Ok (n_data x) /\
  0 <= nh /\ nh + zlen (encode_msg x) <= zlen m.
Proof.
  intros (Ht & Hf & Hs & Hp) Hlen H. pose proof (zlen_nonneg (n_data x)).
  pose proof (mread_Ok_inv _ _ _ _ H) as [(Hn & _ & Hin) _].
  rewrite zlen_encode_msg in Hlen. pose proof (nla_align_bounds (zlen (n_data x))).
  unfold msg_at, encode_msg in H.
  repeat (apply mread_split in H as [? H]; rewrite ?zlen_le_bytes in * ).
  change (Z.of_nat 2) with 2 in *. change (Z.of_nat 4) with 4 in *.
  unfold nlmsg_len_field, nlmsg_type, nlmsg_flags, nlmsg_seq, nlmsg_pid, nlmsg_data, NLMSG_HDRLEN.
  replace (nh + 4 + 2) with (nh + 6) in * by lia. replace (nh + 6 + 2) with (nh + 8) in * by lia.
  replace (nh + 8 + 4) with (nh + 12) in * by lia. replace (nh + 12 + 4) with (nh + 16) in * by lia.
  repeat split; try assumption;
    first [apply mread_load32 | apply mread_load16]; assumption || lia.
Qed.

Lemma load32_prefix m off p z k :
  mread m off (zlen p) = Ok p -> p = le_bytes 4 z ++ k -> 0 <= z < 2 ^ 32 -> load32 m off = Ok z.
Proof.
  intros Hm -> Hz. apply mread_split in Hm as [Hm _]. rewrite zlen_le_bytes in Hm.
  apply mread_load32; [exact Hm | exact Hz].
Qed.

(** * What a reader makes of messages *)

(** A handler of the other messages: what it returns, and the new cookie. *)
Section process.
Context {C : Type} (handler : nlmsg -> C -> Z * C).

(** The error number of a message of type NLMSG_ERROR. *)
Definition error_of (x : nlmsg) : Z := s32 (le_val (take 4 (n_data x))).

Fixpoint process_msgs (pid seq : Z) (l : list nlmsg) (multi : bool) (c : C) : recv_step * C :=
  match l with
  | [] => (RecvMore multi, c)
  | x :: l =>
      if negb (n_pid x =? pid) then (RecvReturn (- LIBBPF_ERRNO__WRNGPID), c) else
      if negb (n_seq x =? u32 seq) then (RecvReturn (- LIBBPF_ERRNO__INVSEQ), c) else
      let multi := multi || negb (Z.land (n_flags x) NLM_F_MULTI =? 0) in
      if n_type x =? NLMSG_ERROR then
        if error_of x =? 0 then process_msgs pid seq l multi c else (RecvReturn (error_of x), c)
      else if n_type x =? NLMSG_DONE then (RecvReturn 0, c)
      else let '(ret, c) := handler x c in
           if negb (ret =? 0) then (RecvReturn ret, c) else process_msgs pid seq l multi c
  end.

(** Datagrams, one after the other; [None] when it would wait for more. *)
Fixpoint process (pid seq : Z) (ds : list (list nlmsg)) (c : C) : option (Z * C) :=
  match ds with
  | [] => None
  | l :: ds =>
      match process_msgs pid seq l false c with
      | (RecvReturn ret, c) => Some (ret, c)
      | (RecvMore true, c) => process pid seq ds c
      | (RecvMore false, c) => Some (0, c)
      end
  end.
End process.

(** ** Error messages *)

(** An error message that carries its number, and whose attributes can be
    printed with 21 bytes of the buffer behind it: either it says it has no
    attributes, or what it says of its request is true. *)
Definition error_ok (x : nlmsg) : Prop :=
  4 <= zlen (n_data x) /\
  (Z.land (n_flags x) NLM_F_ACK_TLVS = 0 \/
   20 <= zlen (n_data x) /\
   (Z.land (n_flags x) NLM_F_CAPPED <> 0 \/
    exists inner, le_val (take 4 (drop 4 (n_data x))) = inner /\
      16 <= inner /\ 4 + inner <= zlen (n_data x))).

Lemma c_string_in m i : m !! i = Some NUL -> exists s, c_string m = Ok s.
Proof.
  revert i; induction m as [|b m IH]; intros i Hi; [discriminate|]. cbn [c_string].
  destruct (decide (b = NUL)) as [|Hne]; [eauto|].
  destruct i as [|i]; [cbn in Hi; congruence|]. destruct (IH i Hi) as [s ->]. eauto.
Qed.

(** An attribute kept as the message text is a string. *)
Lemma kept_string m first stop off :
  0 <= first -> stop <= zlen m ->
  kept m NLMSGERR_ATTR_MAX first stop (Some extack_policy) NLMSGERR_ATTR_MSG off ->
  exists s, libbpf_nla_getattr_str m off = Ok s.
Proof.
  intros Hf Hs (Hoff & len & Hl & H4 & Hin & Ht & Hv). unfold validate_nla in Hv.
  rewrite Ht, bind_Ok in Hv.
  change ((NLMSGERR_ATTR_MSG <? 0) || (NLMSGERR_ATTR_MAX <? NLMSGERR_ATTR_MSG)) with false in Hv.
  change (aget extack_policy NLMSGERR_ATTR_MSG) with (Ok (mk_policy LIBBPF_NLA_STRING 0 0)) in Hv.
  cbn match in Hv. rewrite bind_Ok in Hv. unfold libbpf_nla_len in Hv. rewrite Hl, !bind_Ok in Hv.
  cbn [pt_type pt_minlen pt_maxlen nla_attr_minlen negb Z.eqb andb] in Hv.
  destruct (Z.ltb_spec (len - NLA_HDRLEN) 1) as [|Hge]; [discriminate|].
  rewrite bool_decide_eq_true_2 in Hv by reflexivity.
  destruct (aget m (libbpf_nla_data off + (len - NLA_HDRLEN - 1))) as [b|] eqn:Eb; [|discriminate].
  rewrite bind_Ok in Hv. apply aget_Ok in Eb as [_ Eb].
  case_bool_decide as Hb; [|discriminate]. subst b.
  unfold libbpf_nla_getattr_str, libbpf_nla_data, NLA_HDRLEN in *.
  apply (c_string_in _ (Z.to_nat (len - 5))). rewrite lookup_drop, <- Eb. f_equal. lia.
Qed.

Lemma dump_errormsg_safe m nh x :
  msg_ok x -> zlen (encode_msg x) < 2 ^ 31 - 16 -> msg_at m nh x -> error_ok x ->
  nh + 16 + zlen (n_data x) + 21 <= zlen m ->
  exists r, libbpf_nla_dump_errormsg m nh = Ok r.
Proof.
  intros Hx Hlen Hat [H4 Herr] Hin.
  destruct (msg_at_spec m nh x Hx ltac:(lia) Hat) as (Hl & _ & Hf & _ & _ & Hd & Hnh & Hend).
  rewrite zlen_encode_msg in Hlen. pose proof (nla_align_bounds (zlen (n_data x))).
  unfold libbpf_nla_dump_errormsg. rewrite Hf, bind_Ok.
  destruct (Z.eqb_spec (Z.land (n_flags x) NLM_F_ACK_TLVS) 0) as [|Htlv]; [eauto|].
  destruct Herr as [|[H20 Hcap]]; [contradiction|].
  assert (exists hlen, (if Z.land (n_flags x) NLM_F_CAPPED =? 0
     then l ← nlmsg_len m (nlmsg_data nh + 4); Ok (20 + l) else Ok 20) = Ok hlen /\
     20 <= hlen <= zlen (n_data x)) as (hlen & -> & Hh).
  { destruct (Z.eqb_spec (Z.land (n_flags x) NLM_F_CAPPED) 0) as [Hc|Hc]; [|exists 20; split; [reflexivity | lia]].
    destruct Hcap as [|(inner & Hi & H16 & Hle)]; [contradiction|].
    pose proof (mread_sub _ _ _ _ 4 4 Hd ltac:(lia) ltac:(lia) ltac:(lia)) as H44.
    unfold nlmsg_len, nlmsg_len_field, load32. rewrite H44, !bind_Ok. change (Z.to_nat 4) with 4%nat.
    rewrite Hi. unfold NLMSG_HDRLEN. exists (4 + inner). split; [f_equal; wrap_lia | lia]. }
  rewrite bind_Ok, Hl, bind_Ok. unfold nlmsg_data, NLMSG_HDRLEN in *.
  replace (s32 (u32 (16 + zlen (n_data x) - hlen))) with (16 + zlen (n_data x) - hlen) by wrap_lia.
  unfold libbpf_nla_parse.
  assert (policy_ok NLMSGERR_ATTR_MAX (Some extack_policy)) as Hpol
    by (split; [reflexivity|]; repeat constructor; cbn; lia).
  destruct (parse_loop_safe m NLMSGERR_ATTR_MAX (Some extack_policy) ltac:(unfold NLMSGERR_ATTR_MAX; lia) Hpol
    (S (Z.to_nat (16 + zlen (n_data x) - hlen))) (nh + 16 + hlen) (16 + zlen (n_data x) - hlen)
    (replicate (Z.to_nat (NLMSGERR_ATTR_MAX + 1)) None)) as (err & tb & -> & He & Hz & Hk);
    [lia | lia | lia | lia | reflexivity |].
  rewrite bind_Ok. destruct (negb (err =? 0)); [eauto|].
  destruct (aget_in tb NLMSGERR_ATTR_MSG) as [a Ha]; [rewrite Hz; split; [|reflexivity]; discriminate|].
  rewrite Ha, bind_Ok. destruct a as [off|]; [|eauto].
  destruct (Hk _ _ Ha) as [Hr|Hr]; [apply aget_Ok in Hr as [_ Hr]; discriminate|].
  apply kept_string in Hr as [s ->]; [eauto | lia | lia].
Qed.

(** * The loop over the answers *)

Section loop.
Context {C : Type}.
Context (dump : option (list byte -> Z -> C -> res (Z * C))) (handler : nlmsg -> C -> Z * C).
(** The messages the handler is about. *)
Context (good : nlmsg -> Prop).

(** On those the code's callback does what the handler says. *)
Definition handles : Prop :=
  forall m nh x c, msg_ok x -> good x -> msg_at m nh x -> zlen m <= 2 ^ 20 ->
  match dump with
  | Some fn => fn m nh c = Ok (handler x c)
  | None => handler x c = (0, c)
  end.

Definition stream_ok (l : list nlmsg) : Prop :=
  Forall (fun x => msg_ok x /\
    if n_type x =? NLMSG_ERROR then error_ok x
    else n_type x = NLMSG_DONE \/ good x) l.

Lemma messages_loop_spec (Hh : handles) m pid seq l : forall fuel nh multi c,
  stream_ok l -> mread m nh (zlen (encode_msgs l)) = Ok (encode_msgs l) ->
  0 <= nh -> nh + zlen (encode_msgs l) + 21 <= zlen m -> zlen m <= 2 ^ 20 -> (length l < fuel)%nat ->
  messages_loop dump fuel m pid seq nh (zlen (encode_msgs l)) multi c =
  Ok (process_msgs handler pid seq l multi c).
Proof.
  induction l as [|x l IH]; intros fuel nh multi c Hok Hm Hnh Hin Hmax Hf;
    (destruct fuel as [|fuel]; [lia|]); cbn [messages_loop process_msgs]; [reflexivity|].
  apply Forall_cons in Hok as [[Hx Hkind] Hok]. apply msg_at_cons in Hm as [Hat Hm].
  pose proof (zlen_encode_msgs_cons x l) as Hz. pose proof (zlen_encode_msg x) as Hzx.
  pose proof (zlen_nonneg (encode_msgs l)). pose proof (nla_align_bounds (zlen (n_data x))).
  pose proof (zlen_nonneg (n_data x)).
  destruct (msg_at_spec m nh x Hx ltac:(lia) Hat) as (Hl & Ht & Hfl & Hs & Hp & Hd & _ & _).
  unfold NLMSG_OK, NLMSG_HDRLEN. rewrite Hz.
  replace (zlen (encode_msg x) + zlen (encode_msgs l) <? 16) with false by lia.
  rewrite Hl, !bind_Ok.
  rewrite u32_small by lia.
  replace ((16 <=? 16 + zlen (n_data x)) &&
    (16 + zlen (n_data x) <=? zlen (encode_msg x) + zlen (encode_msgs l))) with true by lia.
  cbn [negb]. rewrite Hp, bind_Ok. destruct (n_pid x =? pid); cbn [negb]; [|reflexivity].
  rewrite Hs, bind_Ok. destruct (n_seq x =? u32 seq); cbn [negb]; [|reflexivity].
  rewrite Hfl, bind_Ok, Ht, bind_Ok.
  set (multi' := multi || _). cbn [length] in Hf.
  assert (forall c, (l0 ← Ok (16 + zlen (n_data x));
    messages_loop dump fuel m pid seq (nh + NLMSG_ALIGN l0)
      (s32 (u32 (zlen (encode_msg x) + zlen (encode_msgs l) - NLMSG_ALIGN l0))) multi' c) =
    Ok (process_msgs handler pid seq l multi' c)) as Hnext.
  { intros c1. rewrite bind_Ok.
    replace (NLMSG_ALIGN (16 + zlen (n_data x))) with (zlen (encode_msg x))
      by (unfold NLMSG_ALIGN; rewrite Hzx, !nla_align_eq in *; rewrite u32_small; lia).
    replace (s32 (u32 (zlen (encode_msg x) + zlen (encode_msgs l) - zlen (encode_msg x))))
      with (zlen (encode_msgs l)) by wrap_lia.
    apply IH; (assumption || lia). }
  destruct (n_type x =? NLMSG_ERROR) eqn:Herr.
  - destruct Hkind as [H4 Hrest]. assert (load32 m (nlmsg_data nh) = Ok (le_val (take 4 (n_data x)))) as ->.
    { pose proof (mread_sub _ _ _ _ 0 4 Hd ltac:(lia) ltac:(lia) ltac:(lia)) as Hld.
      unfold load32. rewrite Z.add_0_r in Hld. rewrite Hld. reflexivity. }
    rewrite bind_Ok. unfold error_of. destruct (s32 (le_val (take 4 (n_data x))) =? 0); [apply Hnext|].
    destruct (dump_errormsg_safe m nh x) as [r ->]; [exact Hx | lia | exact Hat | split; assumption | lia |].
    reflexivity.
  - destruct (Z.eqb_spec (n_type x) NLMSG_DONE) as [|Hnd]; [reflexivity|].
    destruct Hkind as [|Hgood]; [contradiction|].
    specialize (Hh m nh x c Hx Hgood Hat Hmax). destruct dump as [fn|].
    + rewrite Hh, bind_Ok. destruct (handler x c) as [ret c1].
      destruct (ret =? 0); cbn [negb]; [apply Hnext | reflexivity].
    + rewrite Hh. cbn [Z.eqb negb]. apply Hnext.
Qed.

(** ** Datagrams from the socket *)

Context {K : Type} `{Netlink K}.

(** What the socket delivers: these datagrams, and then the state [k']. *)
Inductive delivers (sock : Z) : K -> list (list nlmsg) -> K -> Prop :=
| dl_done k : delivers sock k [] k
| dl_next k l k1 ds k' :
    nl_recv k sock RECV_BUF = (inr (encode_msgs l), k1) ->
    nl_pending k sock = S (nl_pending k1 sock) ->
    l <> [] -> zlen (encode_msgs l) + 21 <= RECV_BUF ->
    delivers sock k1 ds k' -> delivers sock k (l :: ds) k'.

Lemma length_msgs_le l : Z.of_nat (length l) <= zlen (encode_msgs l).
Proof.
  induction l as [|x l IH]; [reflexivity|]. rewrite zlen_encode_msgs_cons, zlen_encode_msg.
  pose proof (nla_align_bounds (zlen (n_data x))). pose proof (zlen_nonneg (n_data x)).
  cbn [length]. lia.
Qed.

Lemma encode_msgs_nil l : zlen (encode_msgs l) = 0 -> l = [].
Proof. intros Hz. pose proof (length_msgs_le l). destruct l; [reflexivity | cbn [length] in *; lia]. Qed.

Lemma recv_loop_spec (Hh : handles) sock pid seq : forall ds k k' buf c ret c',
  delivers sock k ds k' -> Forall stream_ok ds -> zlen buf = RECV_BUF ->
  process handler pid seq ds c = Some (ret, c') ->
  exists k1, recv_loop dump (nl_pending k sock) k sock pid seq buf c = Ok (ret, c', k1) /\
    exists ds1 ds2, ds = ds1 ++ ds2 /\ delivers sock k ds1 k1 /\ delivers sock k1 ds2 k'.
Proof.
  induction ds as [|l ds IH]; intros k k' buf c ret c' Hdl Hok Hbuf Hp; [discriminate|].
  inversion Hdl as [|k0 l0 k1 ds0 k0' Hrecv Hpend Hne Hsize Hrest]; subst.
  rewrite Hpend. cbn [recv_loop]. rewrite Hrecv.
  destruct (Z.eqb_spec (zlen (encode_msgs l)) 0) as [Hz|Hz]; [destruct (Hne (encode_msgs_nil l Hz))|].
  apply Forall_cons in Hok as [Hl Hok]. pose proof (zlen_nonneg (encode_msgs l)).
  set (buf' := encode_msgs l ++ drop (length (encode_msgs l)) buf).
  assert (zlen buf' = RECV_BUF) as Hbuf'.
  { unfold buf'. rewrite zlen_app. unfold zlen in *. rewrite length_drop. lia. }
  assert (mread buf' 0 (zlen (encode_msgs l)) = Ok (encode_msgs l)) as Hm.
  { rewrite mread_Ok by (unfold in_block; lia). unfold buf', zlen. rewrite Nat2Z.id.
    change (Z.to_nat 0) with O. rewrite drop_0, take_app_length. reflexivity. }
  rewrite (messages_loop_spec Hh buf' pid seq l) by
    (first [assumption | lia | pose proof (length_msgs_le l); lia | unfold RECV_BUF in *; lia]).
  rewrite bind_Ok. cbn [process] in Hp.
  destruct (process_msgs handler pid seq l false c) as [[r|[|]] c1].
  - injection Hp as -> ->. exists k1. split; [reflexivity|]. exists [l], ds.
    split; [reflexivity|]. split; [econstructor; eauto; constructor | exact Hrest].
  - destruct (IH k1 k' buf' c1 ret c' Hrest Hok Hbuf' Hp) as (k2 & -> & ds1 & ds2 & -> & Hd1 & Hd2).
    exists k2. split; [reflexivity|]. exists (l :: ds1), ds2. split; [reflexivity|].
    split; [econstructor; eauto | exact Hd2].
  - injection Hp as <- ->. exists k1. split; [reflexivity|]. exists [l], ds.
    split; [reflexivity|]. split; [econstructor; eauto; constructor | exact Hrest].
Qed.
End loop.
