(* ===== verification/RtNetlink.v ===== *)
(** What the kernel's rtnetlink does with the two requests the code sends,
    as an interface over the socket layer, and that the code over it is an
    [XdpDevice]: the interface the attaching code is verified against. *)
From S2P Require Import Prelude CLib Params XdpLink LibbpfObj Nlattr NlattrProps Netlink NetlinkSpec.
#[local] Open Scope Z_scope.

(** * The messages of the two requests *)

Definition ifinfo_bytes (family index : Z) : list byte :=
  [byte_of_Z family] ++ replicate 3 NUL ++ le_bytes 4 index ++ replicate 8 NUL.

Definition setlink_msg (i fd flags : Z) : nlmsg :=
  mk_msg RTM_SETLINK (Z.lor NLM_F_REQUEST NLM_F_ACK) 1 0
    (ifinfo_bytes 0 i ++ encode_attrs [mk_attr IFLA_XDP 2
       (encode_attrs (mk_attr IFLA_XDP_FD 0 (le_bytes 4 fd) ::
          (if flags =? 0 then [] else [mk_attr IFLA_XDP_FLAGS 0 (le_bytes 4 flags)])))]).
Definition getlink_msg (seq : Z) : nlmsg :=
  mk_msg RTM_GETLINK (Z.lor NLM_F_DUMP NLM_F_REQUEST) seq 0 (ifinfo_bytes AF_PACKET 0).

(** The code's buffer writes make exactly these messages. *)
Lemma setlink_request_spec i fd flags :
  exists req len, setlink_request i fd flags = Ok (req, len) /\
    mread req 0 len = Ok (encode_msg (setlink_msg i fd flags)).
Proof.
  unfold setlink_request, setlink_msg, encode_msg, encode_attrs, encode_attr, ifinfo_bytes, store32.
  cbn [n_data n_type n_flags n_seq n_pid a_data a_type a_bits].
  assert (forall z, exists a b c d, le_bytes 4 z = [a; b; c; d]) as H4 by (intros z; cbn; eauto).
  destruct (H4 i) as (i1 & i2 & i3 & i4 & ->), (H4 fd) as (f1 & f2 & f3 & f4 & ->).
  destruct (H4 flags) as (g1 & g2 & g3 & g4 & ->).
  destruct (flags =? 0); eexists _, _; (split; [vm_compute; reflexivity | vm_compute; reflexivity]).
Qed.

Lemma getlink_request_spec seq : getlink_request seq = encode_msg (getlink_msg seq).
Proof. reflexivity. Qed.

(** * The kernel's side *)

(** [dev_change_xdp_fd]: the result, and what is then attached. [q] is the
    program, or [None] to remove. *)
Definition dev_change (att : option (Z * Z)) (q : option Z) (flags : Z) : Z * option (Z * Z) :=
  match q, att with
  | Some q, Some (m, p) =>
      if negb (m =? mode_bits flags) then (- EEXIST, att)
      else if noexist flags then (- EBUSY, att) else (0, Some (mode_bits flags, q))
  | Some q, None => (0, Some (mode_bits flags, q))
  | None, Some (m, p) => if m =? mode_bits flags then (0, None) else (0, att)
  | None, None => (0, None)
  end.

(** The answer to a request that asks for one. *)
Definition is_ack (x : nlmsg) (pid seq err : Z) : Prop :=
  msg_ok x /\ error_ok x /\ n_type x = NLMSG_ERROR /\ Z.land (n_flags x) NLM_F_MULTI = 0 /\
  n_pid x = pid /\ n_seq x = seq /\ error_of x = err.

Definition mode_byte (m : Z) : Z :=
  if m =? XDP_FLAGS_SKB_MODE then XDP_ATTACHED_SKB
  else if m =? XDP_FLAGS_DRV_MODE then XDP_ATTACHED_DRV else 3.

Lemma mode_byte_cases m : mode_byte m = 1 \/ mode_byte m = 2 \/ mode_byte m = 3.
Proof. unfold mode_byte. destruct (m =? _); [auto|]. destruct (m =? _); auto. Qed.

(** The nested attributes [xl] say what is attached to a device. *)
Definition has_data (xl : list attr) (t : Z) (d : option (list byte)) : Prop :=
  a_data <$> last_attr xl t = d.
Definition describes (xl : list attr) (att : option (Z * Z)) : Prop :=
  match att with
  | None => has_data xl IFLA_XDP_ATTACHED (Some [byte_of_Z XDP_ATTACHED_NONE])
  | Some (m, p) =>
      has_data xl IFLA_XDP_ATTACHED (Some [byte_of_Z (mode_byte m)]) /\
      has_data xl IFLA_XDP_PROG_ID (Some (le_bytes 4 p)) /\
      has_data xl IFLA_XDP_SKB_PROG_ID (if mode_byte m =? 2 then Some (le_bytes 4 p) else None) /\
      has_data xl IFLA_XDP_DRV_PROG_ID (if mode_byte m =? 1 then Some (le_bytes 4 p) else None) /\
      has_data xl IFLA_XDP_HW_PROG_ID (if mode_byte m =? 3 then Some (le_bytes 4 p) else None)
  end.

(** The message about the device [i], to which [att] is attached. *)
Definition link_about (x : nlmsg) (i : Z) (att : option (Z * Z)) : Prop :=
  exists hd attrs xa xl, n_data x = hd ++ encode_attrs attrs /\
    zlen hd = 16 /\ le_val (take 4 (drop 4 hd)) = i /\ Forall attr_ok attrs /\
    last_attr attrs IFLA_XDP = Some xa /\ a_data xa = encode_attrs xl /\
    Forall attr_ok xl /\ describes xl att.

(** The answer to a request for all devices: datagrams of messages about
    devices, the last of which ends with NLMSG_DONE. *)
Definition part_of_dump (pid seq : Z) (x : nlmsg) : Prop :=
  msg_ok x /\ n_pid x = pid /\ n_seq x = u32 seq /\ Z.land (n_flags x) NLM_F_MULTI <> 0.
Definition is_dump (att : Z -> option (Z * Z)) (pid seq i : Z) (ds : list (list nlmsg)) : Prop :=
  exists ds0 last done, ds = ds0 ++ [last ++ [done]] /\
    part_of_dump pid seq done /\ n_type done = NLMSG_DONE /\ Forall (fun l => l <> []) ds0 /\
    Forall (fun x => part_of_dump pid seq x /\ n_type x <> NLMSG_ERROR /\ n_type x <> NLMSG_DONE /\
              exists j, 0 < j < 2 ^ 31 /\ link_about x j (att j)) (mjoin ds0 ++ last) /\
    exists x, x ∈ mjoin ds0 ++ last /\ link_about x i (att i).

(** [rt_attached]: the mode and the id of the program of a device;
    [rt_prog_of]: the id of the XDP program a descriptor stands for;
    [rt_ready]: the device exists and takes programs, and sockets can be
    had; [rt_open], [rt_bound]: a socket, and one with a port. *)
Class RtNetlink (K : Type) `{Netlink K} := {
  rt_attached : K -> Z -> option (Z * Z);
  rt_prog_of : K -> Z -> option Z;
  rt_ready : K -> Z -> Prop;
  rt_open : K -> Z -> Prop;
  rt_bound : K -> Z -> Z -> Prop
}.

Definition rt_keeps {K} `{RtNetlink K} (k k' : K) (i : Z) : Prop :=
  (forall j, j <> i -> rt_attached k' j = rt_attached k j) /\
  (forall fd, rt_prog_of k' fd = rt_prog_of k fd) /\
  (forall j, rt_ready k j -> rt_ready k' j).
Definition rt_same {K} `{RtNetlink K} (k k' : K) : Prop :=
  (forall j, rt_attached k' j = rt_attached k j) /\
  (forall fd, rt_prog_of k' fd = rt_prog_of k fd) /\
  (forall j, rt_ready k j -> rt_ready k' j).

Class RtNetlinkLaws (K : Type) `{RtNetlink K} := {
  rt_range k i : rt_ready k i -> 0 < i < 2 ^ 31;
  rt_ids k i m p : rt_attached k i = Some (m, p) -> 0 < p < 2 ^ 32;
  rt_progs k fd p : rt_prog_of k fd = Some p -> 0 <= fd < 2 ^ 31 /\ 0 < p < 2 ^ 32;
  rt_socket k i : rt_ready k i ->
    exists s k', nl_socket k = (ROk s, k') /\ 0 <= s /\ rt_same k k' /\ rt_open k' s;
  rt_ext_ack k s : rt_open k s ->
    exists r k', nl_ext_ack k s = (r, k') /\ rt_same k k' /\ rt_open k' s;
  rt_bind k s : rt_open k s ->
    exists v k', nl_bind k s = (ROk v, k') /\ rt_same k k' /\ rt_open k' s;
  rt_getsockname k s : rt_open k s ->
    exists v pid k', nl_getsockname k s = (ROk v, sizeof_sockaddr_nl, pid, k') /\
      rt_same k k' /\ rt_bound k' s pid;
  rt_recv k s pid n : rt_bound k s pid ->
    rt_same k (snd (nl_recv k s n)) /\ rt_bound (snd (nl_recv k s n)) s pid;
  rt_close k s pid : rt_bound k s pid -> rt_same k (nl_close k s);
  (** a request to attach or to remove is answered after it is done *)
  rt_setlink k s pid i fd flags q :
    rt_bound k s pid -> rt_ready k i -> plain_flags flags ->
    (q = None /\ fd = -1 \/ q <> None /\ rt_prog_of k fd = q) ->
    exists v k1 ack k2, nl_send k s (encode_msg (setlink_msg i fd flags)) = (ROk v, k1) /\
      delivers s k1 [[ack]] k2 /\ is_ack ack pid 1 (fst (dev_change (rt_attached k i) q flags)) /\
      rt_attached k1 i = snd (dev_change (rt_attached k i) q flags) /\
      rt_keeps k k1 i /\ rt_bound k1 s pid;
  (** a request for the devices is answered with all of them *)
  rt_getlink k s pid i :
    rt_bound k s pid -> rt_ready k i ->
    exists v k1 ds k2, nl_send k s (encode_msg (getlink_msg (nl_time k))) = (ROk v, k1) /\
      delivers s k1 ds k2 /\ is_dump (rt_attached k) pid (nl_time k) i ds /\
      rt_same k k1 /\ rt_bound k1 s pid
}.

(** A small kernel that decodes the two netlink requests from their bytes
    and answers them: the laws of [RtNetlink] can hold, and the netlink code
    runs against it. *)

(** Three devices, numbered from 1; the answers not read yet. *)
Record net := mk_net { nd_links : gmap Z (Z * Z); nd_queue : list (list byte) }.

Definition net_attached (k : net) (i : Z) : option (Z * Z) :=
  match nd_links k !! i with
  | Some (m, p) => if (0 <? p) && (p <? 2 ^ 32) then Some (m, p) else None
  | None => None
  end.
Definition net_prog (fd : Z) : option Z :=
  if (0 <=? fd) && (fd <? 2 ^ 31) then Some (fd + 1) else None.

Definition or_zero (r : res Z) : Z := match r with Ok z => z | Err _ => 0 end.

Definition net_ack (err seq : Z) (request : list byte) : nlmsg :=
  mk_msg NLMSG_ERROR NLM_F_CAPPED seq 77 (le_bytes 4 err ++ take 16 request).

Definition net_attrs (att : option (Z * Z)) : list attr :=
  match att with
  | None => [mk_attr IFLA_XDP_ATTACHED 0 [byte_of_Z XDP_ATTACHED_NONE]]
  | Some (m, p) =>
      [mk_attr IFLA_XDP_ATTACHED 0 [byte_of_Z (mode_byte m)];
       mk_attr IFLA_XDP_PROG_ID 0 (le_bytes 4 p);
       mk_attr (if mode_byte m =? 2 then IFLA_XDP_SKB_PROG_ID
                else if mode_byte m =? 1 then IFLA_XDP_DRV_PROG_ID else IFLA_XDP_HW_PROG_ID)
         0 (le_bytes 4 p)]
  end.
Definition net_link (k : net) (seq i : Z) : nlmsg :=
  mk_msg 16 NLM_F_MULTI seq 77
    (ifinfo_bytes 0 i ++ encode_attrs [mk_attr IFLA_XDP 0 (encode_attrs (net_attrs (net_attached k i)))]).
Definition net_done (seq : Z) : nlmsg := mk_msg NLMSG_DONE NLM_F_MULTI seq 77 (le_bytes 4 0).

Definition net_setlink (k : net) (b : list byte) : net :=
  let i := or_zero (load32 b 20) in
  let fd := s32 (or_zero (load32 b 40)) in
  let flags := if zlen b =? 52 then or_zero (load32 b 48) else 0 in
  let '(err, att) := dev_change (net_attached k i) (if fd <? 0 then None else net_prog fd) flags in
  mk_net (match att with Some x => <[i := x]> (nd_links k) | None => delete i (nd_links k) end)
    [encode_msgs [net_ack err (or_zero (load32 b 8)) b]].
Definition net_getlink (k : net) (b : list byte) : net :=
  let seq := or_zero (load32 b 8) in
  mk_net (nd_links k)
    [encode_msgs [net_link k seq 1; net_link k seq 2];
     encode_msgs [net_link k seq 3; net_done seq]].

#[export] Instance net_netlink : Netlink net := {|
  nl_socket k := (ROk 5, k);
  nl_ext_ack k _ := (ROk 0, k);
  nl_bind k _ := (ROk 0, k);
  nl_getsockname k _ := (ROk 0, sizeof_sockaddr_nl, 77, k);
  nl_send k _ b :=
    if or_zero (load16 b 4) =? RTM_SETLINK then (ROk (zlen b), net_setlink k b)
    else if or_zero (load16 b 4) =? RTM_GETLINK then (ROk (zlen b), net_getlink k b)
    else (RErr EINVAL, k);
  nl_recv k _ n :=
    match nd_queue k with
    | [] => (inl 11, k)
    | d :: q => (inr (take (Z.to_nat n) d), mk_net (nd_links k) q)
    end;
  nl_close k _ := mk_net (nd_links k) [];
  nl_time _ := 1000;
  nl_pending k _ := length (nd_queue k)
|}.

#[export] Instance net_rt : RtNetlink net := {|
  rt_attached := net_attached;
  rt_prog_of _ := net_prog;
  rt_ready _ i := 1 <= i <= 3;
  rt_open _ s := s = 5;
  rt_bound _ s pid := s = 5 /\ pid = 77
|}.

Lemma net_same_links k q : rt_same k (mk_net (nd_links k) q).
Proof. unfold rt_same. cbn. auto. Qed.
Lemma net_refl (k : net) : rt_same k k.
Proof. unfold rt_same. auto. Qed.

Lemma four_bytes z : exists a b c d, le_bytes 4 z = [a; b; c; d].
Proof. cbn. eauto. Qed.

(** What the kernel reads in the request. *)
Lemma net_decode i fd flags :
  let b := encode_msg (setlink_msg i fd flags) in
  or_zero (load16 b 4) = RTM_SETLINK /\ or_zero (load32 b 8) = 1 /\
  or_zero (load32 b 20) = u32 i /\ or_zero (load32 b 40) = u32 fd /\
  (if zlen b =? 52 then or_zero (load32 b 48) else 0) = (if flags =? 0 then 0 else u32 flags).
Proof.
  assert (forall z a b c d, le_bytes 4 z = [a; b; c; d] -> le_val [a; b; c; d] = u32 z) as Hv.
  { intros z a b c d E. rewrite <- E, le_val_bytes. reflexivity. }
  unfold setlink_msg, encode_msg, encode_attrs, encode_attr, ifinfo_bytes.
  cbn [n_data n_type n_flags n_seq n_pid a_data a_type a_bits].
  destruct (four_bytes i) as (i1 & i2 & i3 & i4 & Ei), (four_bytes fd) as (f1 & f2 & f3 & f4 & Ef).
  destruct (four_bytes flags) as (g1 & g2 & g3 & g4 & Eg). rewrite Ei, Ef, Eg.
  rewrite <- (Hv _ _ _ _ _ Ei), <- (Hv _ _ _ _ _ Ef), <- (Hv _ _ _ _ _ Eg).
  destruct (flags =? 0); vm_compute; auto.
Qed.

Lemma net_decode_get seq : 0 <= seq < 2 ^ 32 ->
  or_zero (load16 (encode_msg (getlink_msg seq)) 4) = RTM_GETLINK /\
  or_zero (load32 (encode_msg (getlink_msg seq)) 8) = seq.
Proof.
  intros Hs. assert (le_val (le_bytes 4 seq) = seq) as Hv by (rewrite le_val_bytes; apply Z.mod_small, Hs).
  unfold getlink_msg, encode_msg, ifinfo_bytes. cbn [n_data n_type n_flags n_seq n_pid].
  destruct (four_bytes seq) as (a & b & c & d & E). rewrite E in *. rewrite <- Hv. vm_compute. auto.
Qed.

Lemma net_attached_range k i m p : net_attached k i = Some (m, p) -> 0 < p < 2 ^ 32.
Proof.
  unfold net_attached. destruct (nd_links k !! i) as [[m' p']|]; [|discriminate].
  destruct ((0 <? p') && (p' <? 2 ^ 32)) eqn:E; [|discriminate]. intros [= _ <-]. lia.
Qed.

Lemma net_attrs_ok att : Forall attr_ok (net_attrs att).
Proof.
  assert (forall t d, 0 <= t < 8 -> zlen d <= 4 -> attr_ok (mk_attr t 0 d)) as Hok
    by (intros t d Ht Hd; unfold attr_ok; cbn [a_type a_bits a_data]; lia).
  destruct att as [[m p]|]; unfold net_attrs;
    repeat (apply Forall_cons_2; [apply Hok|]); try apply Forall_nil_2;
    try (rewrite zlen_le_bytes; lia); try (split; discriminate || reflexivity); try discriminate.
  destruct (mode_byte_cases m) as [E|[E|E]]; rewrite E; split; discriminate || reflexivity.
Qed.

Lemma net_describes att : describes (net_attrs att) att.
Proof.
  destruct att as [[m p]|]; [|reflexivity]. unfold describes, has_data, net_attrs.
  destruct (mode_byte_cases m) as [E|[E|E]]; rewrite E; cbn; auto 10.
Qed.

Lemma net_link_about k seq i : 0 < i < 2 ^ 31 -> link_about (net_link k seq i) i (net_attached k i).
Proof.
  intros Hi. exists (ifinfo_bytes 0 i). do 3 eexists. split; [reflexivity|]. split; [reflexivity|].
  split.
  { destruct (four_bytes i) as (a & b & c & d & E). unfold ifinfo_bytes. rewrite E.
    change (le_val [a; b; c; d] = i). rewrite <- E, le_val_bytes. apply Z.mod_small. lia. }
  split; [|split; [reflexivity|]; split; [reflexivity|]; split; [apply net_attrs_ok | apply net_describes]].
  constructor; [|constructor]. unfold attr_ok, IFLA_XDP. cbn [a_type a_bits a_data].
  split; [lia|]. split; [lia|]. destruct (net_attached k i) as [[m p]|]; vm_compute; reflexivity.
Qed.

(** * The laws *)

Lemma net_link_part k i : 0 < i < 2 ^ 31 ->
  part_of_dump 77 1000 (net_link k 1000 i) /\ zlen (encode_msg (net_link k 1000 i)) <= 100.
Proof.
  intros Hi. split.
  - split; [|split; [reflexivity|]; split; [reflexivity | discriminate]].
    unfold msg_ok, net_link, NLM_F_MULTI. cbn [n_type n_flags n_seq n_pid]. lia.
  - rewrite zlen_encode_msg. unfold net_link. cbn [n_data].
    destruct (net_attached k i) as [[m p]|]; vm_compute; discriminate.
Qed.

Lemma net_deliver s k d q l :
  nd_queue k = encode_msgs l :: q -> l <> [] -> zlen (encode_msgs l) <= 4000 ->
  d = mk_net (nd_links k) q ->
  nl_recv k s RECV_BUF = (inr (encode_msgs l), d) /\ nl_pending k s = S (nl_pending d s) /\
  l <> [] /\ zlen (encode_msgs l) + 21 <= RECV_BUF.
Proof.
  intros Hq Hl Hz ->. cbn [nl_recv net_netlink nl_pending]. rewrite Hq. unfold RECV_BUF.
  rewrite take_ge by (unfold zlen in Hz; lia). cbn. split; [reflexivity|]. split; [reflexivity|].
  split; [exact Hl | lia].
Qed.

Lemma net_ack_ok err seq i fd flags :
  - 2 ^ 31 <= err < 2 ^ 31 -> 0 <= seq < 2 ^ 32 ->
  let x := net_ack err seq (encode_msg (setlink_msg i fd flags)) in
  is_ack x 77 seq err /\ zlen (encode_msgs [x]) <= 4000.
Proof.
  intros He Hs x. assert (zlen (n_data x) = 20) as Hz.
  { unfold x, net_ack. cbn [n_data]. rewrite zlen_app, zlen_le_bytes. unfold zlen.
    rewrite length_take. pose proof (zlen_encode_msg (setlink_msg i fd flags)) as Hl.
    pose proof (nla_align_bounds (zlen (n_data (setlink_msg i fd flags)))).
    pose proof (zlen_nonneg (n_data (setlink_msg i fd flags))).
    unfold zlen in Hl at 1. lia. }
  split.
  - split; [unfold msg_ok, x, net_ack, NLMSG_ERROR, NLM_F_CAPPED; cbn [n_type n_flags n_seq n_pid]; lia|]. split.
    { split; [lia|]. left. reflexivity. }
    split; [reflexivity|]. split; [reflexivity|]. split; [reflexivity|]. split; [reflexivity|].
    unfold error_of, x, net_ack. cbn [n_data].
    rewrite take_app_le by (rewrite length_le_bytes; lia). rewrite take_ge by (rewrite length_le_bytes; lia).
    rewrite le_val_bytes. change (256 ^ Z.of_nat 4) with (2 ^ 32). wrap_lia.
  - change (encode_msgs [x]) with (encode_msg x ++ []). rewrite app_nil_r, zlen_encode_msg, Hz.
    discriminate.
Qed.

Lemma dev_change_range k i q flags p m :
  (forall x, q = Some x -> 0 < x < 2 ^ 32) ->
  snd (dev_change (net_attached k i) q flags) = Some (m, p) -> 0 < p < 2 ^ 32.
Proof.
  intros Hq. pose proof (net_attached_range k i) as Ha.
  destruct q as [q|], (net_attached k i) as [[m' p']|]; cbn; repeat case_match; cbn;
    intros E; simplify_eq; eauto; naive_solver.
Qed.

Lemma dev_change_err att q flags : - 2 ^ 31 <= fst (dev_change att q flags) < 2 ^ 31.
Proof. unfold dev_change, EEXIST, EBUSY. repeat case_match; cbn; lia. Qed.

Lemma net_setlink_ok k i fd flags q :
  1 <= i <= 3 -> plain_flags flags -> (q = None /\ fd = -1 \/ q <> None /\ net_prog fd = q) ->
  exists l, net_setlink k (encode_msg (setlink_msg i fd flags)) =
    mk_net l [encode_msgs [net_ack (fst (dev_change (net_attached k i) q flags)) 1
                             (encode_msg (setlink_msg i fd flags))]] /\
    (forall j qu, net_attached (mk_net l qu) j =
       if decide (j = i) then snd (dev_change (net_attached k i) q flags) else net_attached k j).
Proof.
  intros Hi Hf Hq. unfold net_setlink.
  destruct (net_decode i fd flags) as (_ & -> & -> & -> & ->).
  assert (- 1 <= fd < 2 ^ 31 /\ (if fd <? 0 then None else net_prog fd) = q /\
    forall x, q = Some x -> 0 < x < 2 ^ 32) as (Hfd & Hq2 & Hqr).
  { destruct Hq as [[-> ->]|[Hn Hp]]; [split; [lia|]; split; [reflexivity | discriminate]|].
    unfold net_prog in *. destruct ((0 <=? fd) && (fd <? 2 ^ 31)) eqn:E; [|congruence].
    split; [lia|]. replace (fd <? 0) with false by lia. split; [exact Hp|].
    intros x Hx. rewrite <- Hp in Hx. injection Hx as <-. lia. }
  replace (u32 i) with i by wrap_lia. replace (s32 (u32 fd)) with fd by wrap_lia.
  replace (if flags =? 0 then 0 else u32 flags) with flags
    by (destruct (plain_cases flags Hf) as [E|[E|[E|E]]]; subst flags; reflexivity).
  rewrite Hq2. pose proof (dev_change_range k i q flags) as Hr.
  destruct (dev_change (net_attached k i) q flags) as [err att].
  eexists. split; [reflexivity|]. intros j qu. cbn [fst snd] in *.
  unfold net_attached at 1. cbn [nd_links]. destruct (decide (j = i)) as [->|Hne].
  - destruct att as [[m p]|]; [rewrite lookup_insert_eq | rewrite lookup_delete_eq; reflexivity].
    specialize (Hr p m Hqr eq_refl). replace ((0 <? p) && (p <? 2 ^ 32)) with true by lia. reflexivity.
  - destruct att as [x|]; [rewrite lookup_insert_ne by congruence | rewrite lookup_delete_ne by congruence];
      reflexivity.
Qed.

#[export] Instance net_laws : RtNetlinkLaws net.
Proof.
  split.
  - intros k i. cbn. lia.
  - exact net_attached_range.
  - intros k fd p. cbn. unfold net_prog. destruct ((0 <=? fd) && (fd <? 2 ^ 31)) eqn:E; [|discriminate].
    intros [= <-]. lia.
  - intros k i _. exists 5, k. split; [reflexivity|]. split; [lia|]. split; [apply net_refl | reflexivity].
  - intros k s Ho. do 2 eexists. split; [reflexivity|]. split; [apply net_refl | exact Ho].
  - intros k s Ho. do 2 eexists. split; [reflexivity|]. split; [apply net_refl | exact Ho].
  - intros k s Ho. do 3 eexists. split; [reflexivity|]. split; [apply net_refl | split; [exact Ho | reflexivity]].
  - intros k s pid n Hb. split; [|exact Hb]. cbn.
    destruct (nd_queue k); [apply net_refl | apply net_same_links].
  - intros k s pid _. apply net_same_links.
  - intros k s pid i fd flags q [-> ->] Hi Hf Hq. cbn in Hi, Hq.
    destruct (net_setlink_ok k i fd flags q Hi Hf Hq) as (l & Hset & Hatt).
    destruct (net_ack_ok (fst (dev_change (net_attached k i) q flags)) 1 i fd flags
      (dev_change_err _ _ _) ltac:(lia)) as [Hack Hlen].
    do 4 eexists. split; [|split; [|split; [exact Hack|]]].
    + cbn [nl_send net_netlink]. rewrite (proj1 (net_decode i fd flags)). rewrite Hset. reflexivity.
    + destruct (net_deliver 5 (mk_net l [encode_msgs [net_ack (fst (dev_change (net_attached k i) q flags)) 1
        (encode_msg (setlink_msg i fd flags))]]) _ [] _ eq_refl ltac:(discriminate) Hlen eq_refl)
        as (H1 & H2 & H3 & H4).
      econstructor; [exact H1 | exact H2 | exact H3 | exact H4 | constructor].
    + split; [|split; [|split; reflexivity]].
      * cbn. rewrite Hatt. rewrite decide_True by reflexivity. reflexivity.
      * split; [|split; [reflexivity | auto]]. intros j Hj. cbn. rewrite Hatt.
        rewrite decide_False by exact Hj. reflexivity.
  - intros k s pid i [-> ->] Hi. cbn in Hi. change (nl_time k) with 1000.
    destruct (net_decode_get 1000 ltac:(lia)) as [H1 H2].
    assert (forall i, 0 < i < 2 ^ 31 -> zlen (encode_msg (net_link k 1000 i)) <= 100) as Hsz
      by (intros j Hj; apply net_link_part, Hj).
    set (ds := [[net_link k 1000 1; net_link k 1000 2]; [net_link k 1000 3; net_done 1000]]).
    exists (zlen (encode_msg (getlink_msg 1000))), (net_getlink k (encode_msg (getlink_msg 1000))), ds.
    eexists. split; [|split; [|split; [|split; [apply net_same_links | split; reflexivity]]]].
    + cbn [nl_send net_netlink]. rewrite H1. reflexivity.
    + unfold net_getlink. rewrite H2.
      destruct (net_deliver 5 (mk_net (nd_links k) [encode_msgs [net_link k 1000 1; net_link k 1000 2];
        encode_msgs [net_link k 1000 3; net_done 1000]]) _ _ _ eq_refl ltac:(discriminate)
        ltac:(rewrite !zlen_encode_msgs_cons; pose proof (Hsz 1); pose proof (Hsz 2); change (zlen (encode_msgs [])) with 0; lia)
        eq_refl) as (A1 & A2 & A3 & A4).
      econstructor; [exact A1 | exact A2 | exact A3 | exact A4|].
      destruct (net_deliver 5 (mk_net (nd_links k) [encode_msgs [net_link k 1000 3; net_done 1000]]) _ [] _ eq_refl
        ltac:(discriminate)
        ltac:(rewrite !zlen_encode_msgs_cons; pose proof (Hsz 3); change (zlen (encode_msgs [])) with 0;
              change (zlen (encode_msg (net_done 1000))) with 20; lia)
        eq_refl) as (C1 & C2 & C3 & C4).
      econstructor; [exact C1 | exact C2 | exact C3 | exact C4 | constructor].
    + assert (forall j, 0 < j < 2 ^ 31 -> part_of_dump 77 1000 (net_link k 1000 j) /\
        n_type (net_link k 1000 j) <> NLMSG_ERROR /\ n_type (net_link k 1000 j) <> NLMSG_DONE /\
        exists j', 0 < j' < 2 ^ 31 /\ link_about (net_link k 1000 j) j' (net_attached k j')) as Hl.
      { intros j Hj. split; [apply net_link_part, Hj|]. split; [discriminate|]. split; [discriminate|].
        exists j. split; [exact Hj | apply net_link_about, Hj]. }
      exists [[net_link k 1000 1; net_link k 1000 2]], [net_link k 1000 3], (net_done 1000).
      split; [reflexivity|]. split; [split; [unfold msg_ok, net_done, NLMSG_DONE, NLM_F_MULTI; cbn [n_type n_flags n_seq n_pid]; lia|]; repeat split; discriminate|].
      split; [reflexivity|]. split; [constructor; [discriminate | constructor]|].
      split; [repeat (apply Forall_cons_2; [apply Hl; lia|]); constructor|].
      exists (net_link k 1000 i). split; [|apply net_link_about; lia].
      cbn. assert (i = 1 \/ i = 2 \/ i = 3) as [E|[E|E]] by lia; rewrite E; set_solver.
Qed.
