(* ===== verification/NetlinkProps.v ===== *)
(** The netlink code over a kernel with the laws of [RtNetlink] keeps to the
    laws of [XdpDevice]: setting a program sends the right message and
    returns the kernel's answer, asking finds the device in the dump. *)
From S2P Require Import Prelude CLib Params XdpLink LibbpfObj Nlattr NlattrProps Netlink NetlinkSpec RtNetlink.
#[local] Open Scope Z_scope.

Section over_kernel.
Context {K : Type} `{RtNetlinkLaws K}.
Context (stack : list byte) (Hstack : zlen stack = RECV_BUF).
Implicit Types (k : K).

Lemma rt_same_refl k : rt_same k k.
Proof. unfold rt_same. auto. Qed.
Lemma rt_same_trans k k1 k2 : rt_same k k1 -> rt_same k1 k2 -> rt_same k k2.
Proof.
  intros (A1 & P1 & R1) (A2 & P2 & R2). split; [|split; [|auto]].
  - intros j. rewrite A2, A1. reflexivity.
  - intros fd. rewrite P2, P1. reflexivity.
Qed.
Lemma rt_keeps_same k k1 k2 i : rt_keeps k k1 i -> rt_same k1 k2 -> rt_keeps k k2 i.
Proof.
  intros (A1 & P1 & R1) (A2 & P2 & R2). split; [|split; [|auto]].
  - intros j Hj. rewrite A2, A1 by exact Hj. reflexivity.
  - intros fd. rewrite P2, P1. reflexivity.
Qed.
Lemma rt_same_keeps k k1 k2 i : rt_same k k1 -> rt_keeps k1 k2 i -> rt_keeps k k2 i.
Proof.
  intros (A1 & P1 & R1) (A2 & P2 & R2). split; [|split; [|auto]].
  - intros j Hj. rewrite A2, A1 by exact Hj. reflexivity.
  - intros fd. rewrite P2, P1. reflexivity.
Qed.
Lemma rt_same_links k k' i : rt_same k k' -> rt_keeps k k' i /\ rt_attached k' i = rt_attached k i.
Proof. intros (A1 & P1 & R1). split; [split; [|split]|]; auto. Qed.

(** * The socket *)

Lemma open_ok k i :
  rt_ready k i ->
  exists s pid k', libbpf_netlink_open k = (s, pid, k') /\ 0 <= s /\ rt_same k k' /\ rt_bound k' s pid.
Proof.
  intros Hr. unfold libbpf_netlink_open.
  destruct (rt_socket k i Hr) as (s & k1 & -> & Hs & E1 & O1).
  destruct (rt_ext_ack k1 s O1) as (r & k2 & -> & E2 & O2).
  destruct (rt_bind k2 s O2) as (v & k3 & -> & E3 & O3).
  destruct (rt_getsockname k3 s O3) as (w & pid & k4 & -> & E4 & B).
  rewrite Z.eqb_refl. cbn [negb]. exists s, pid, k4. split; [reflexivity|]. split; [exact Hs|].
  split; [|exact B]. eauto using rt_same_trans.
Qed.

Lemma delivers_same s pid ds k k' :
  delivers s k ds k' -> rt_bound k s pid -> rt_same k k' /\ rt_bound k' s pid.
Proof.
  induction 1 as [k|k l k1 ds k' Hrecv _ _ _ _ IH]; intros Hb; [split; [apply rt_same_refl | exact Hb]|].
  pose proof (rt_recv k s pid RECV_BUF Hb) as [E1 B1]. rewrite Hrecv in E1, B1. cbn [snd] in E1, B1.
  destruct (IH B1) as [E2 B2]. split; [eauto using rt_same_trans | exact B2].
Qed.

(** * Attaching *)

Lemma process_ack (x : nlmsg) pid err :
  is_ack x pid 1 err -> process (fun _ c => (0, c)) pid 1 [[x]] tt = Some (err, tt).
Proof.
  intros (_ & _ & Ht & Hm & Hp & Hs & He). cbn [process process_msgs].
  rewrite Hp, Z.eqb_refl, Hs. change (1 =? u32 1) with true. cbn [negb].
  rewrite Hm, Ht, He, Z.eqb_refl. destruct (Z.eqb_spec err 0) as [->|]; reflexivity.
Qed.

Lemma set_link_ok k i fd flags q :
  rt_ready k i -> plain_flags flags ->
  (q = None /\ fd = -1 \/ q <> None /\ rt_prog_of k fd = q) ->
  exists k', bpf_set_link_xdp_fd stack k i fd flags =
      Ok (fst (dev_change (rt_attached k i) q flags), k') /\
    rt_attached k' i = snd (dev_change (rt_attached k i) q flags) /\ rt_keeps k k' i.
Proof.
  intros Hr Hf Hq. unfold bpf_set_link_xdp_fd.
  destruct (open_ok k i Hr) as (s & pid & k1 & -> & Hs & E1 & B1).
  replace (s <? 0) with false by lia.
  destruct (setlink_request_spec i fd flags) as (req & len & -> & Hm). rewrite bind_Ok, Hm, bind_Ok.
  pose proof E1 as (A1 & P1 & R1).
  destruct (rt_setlink k1 s pid i fd flags q B1 (R1 _ Hr) Hf) as
    (v & k2 & ack & k3 & -> & Hdl & Hack & Hatt & Hk & B2); [rewrite P1; exact Hq|].
  rewrite A1 in Hack, Hatt. set (dc := dev_change _ _ _) in *.
  assert (Forall (stream_ok (fun _ => True)) [[ack]]) as Hstream.
  { destruct Hack as (Hok & He & Ht & _). constructor; [|constructor]. constructor; [|constructor].
    split; [exact Hok|]. rewrite Ht. exact He. }
  destruct (recv_loop_spec (C := unit) None (fun _ c => (0, c)) (fun _ => True) ltac:(intros m nh x [] _ _ _ _; reflexivity)
    s pid 1 [[ack]] k2 k3 stack tt (fst dc) tt Hdl Hstream Hstack (process_ack ack pid _ Hack))
    as (k4 & Hrecv & ds1 & ds2 & Hds & Hd1 & _).
  unfold bpf_netlink_recv. rewrite Hrecv, bind_Ok.
  destruct (delivers_same s pid ds1 k2 k4 Hd1 B2) as [E4 B4].
  pose proof (rt_same_trans _ _ _ E4 (rt_close k4 s pid B4)) as E5.
  eexists. split; [reflexivity|]. split.
  - rewrite (proj1 E5). exact Hatt.
  - eauto using rt_same_keeps, rt_keeps_same.
Qed.

(** * Asking *)

(** What [get_xdp_info] stores for a device. *)
Definition info_of (old : xdp_link_info) (att : option (Z * Z)) : xdp_link_info :=
  match att with
  | None => mk_xdp_info (prog_id old) (drv_prog_id old) (hw_prog_id old) (skb_prog_id old) 0
  | Some (m, p) =>
      mk_xdp_info p (if mode_byte m =? 1 then p else drv_prog_id old)
        (if mode_byte m =? 3 then p else hw_prog_id old)
        (if mode_byte m =? 2 then p else skb_prog_id old) (mode_byte m)
  end.
Definition index_of (x : nlmsg) : Z := le_val (take 4 (drop 4 (n_data x))).
Definition info_handler (att : Z -> option (Z * Z)) (x : nlmsg) (c : xdp_id_md) : Z * xdp_id_md :=
  if negb (md_ifindex c =? 0) && negb (md_ifindex c =? index_of x) then (0, c)
  else (0, set_info c (info_of (md_info c) (att (index_of x)))).

Lemma last_attr_ok l t a : Forall attr_ok l -> last_attr l t = Some a -> attr_ok a.
Proof.
  induction 1 as [|b l Hb _ IH]; [discriminate|]. cbn [last_attr].
  destruct (last_attr l t); [exact IH|]. destruct (a_type b =? t); [intros [= <-]; exact Hb | discriminate].
Qed.

(** The data of an attribute of a nested index. *)
Lemma index_data m xl tb t d :
  indexes m xl IFLA_XDP_MAX tb -> Forall attr_ok xl -> 0 <= t <= IFLA_XDP_MAX -> has_data xl t d ->
  match d with
  | Some bs => exists off, aget tb t = Ok (Some off) /\ mread m (libbpf_nla_data off) (zlen bs) = Ok bs
  | None => aget tb t = Ok None
  end.
Proof.
  intros [_ Hi] Hok Ht Hd. specialize (Hi t Ht). unfold has_data in Hd.
  destruct (last_attr xl t) as [a|] eqn:Ea; cbn in Hd; subst d; [|exact Hi].
  destruct Hi as (off & Htb & Hat). exists off. split; [exact Htb|].
  exact (proj2 (proj2 (attr_at_spec m off a (last_attr_ok xl t a Hok Ea) Hat))).
Qed.

Lemma store_id_data m xl tb t set c (p : Z) (b : bool) :
  indexes m xl IFLA_XDP_MAX tb -> Forall attr_ok xl -> 0 <= t <= IFLA_XDP_MAX -> 0 < p < 2 ^ 32 ->
  has_data xl t (if b then Some (le_bytes 4 p) else None) ->
  store_id m tb t set c = Ok (if b then set_info c (set p (md_info c)) else c).
Proof.
  intros Hi Hok Ht Hp Hd. pose proof (index_data m xl tb t _ Hi Hok Ht Hd) as Hx.
  unfold store_id. destruct b; cbn beta iota in Hx.
  - destruct Hx as (off & -> & Hm). rewrite bind_Ok. unfold libbpf_nla_getattr_u32.
    rewrite zlen_le_bytes in Hm. rewrite (mread_load32 _ _ _ Hm) by lia. reflexivity.
  - rewrite Hx. reflexivity.
Qed.

(** The rest of [get_xdp_info], once the nested attribute is found. *)
Lemma get_xdp_info_at m ifi tb c off xa xl j (att : option (Z * Z)) :
  load32 m (ifi + 4) = Ok j -> 0 < j < 2 ^ 31 ->
  aget tb IFLA_XDP = Ok (Some off) -> attr_at m off xa -> attr_ok xa ->
  a_data xa = encode_attrs xl -> Forall attr_ok xl -> describes xl att ->
  (forall mo p, att = Some (mo, p) -> 0 < p < 2 ^ 32) ->
  get_xdp_info m ifi tb c =
    Ok (if negb (md_ifindex c =? 0) && negb (md_ifindex c =? j) then (0, c)
        else (0, set_info c (info_of (md_info c) att))).
Proof.
  intros Hj Hjr Htb Hat Hxa Hd Hxl Hdesc Hp. unfold get_xdp_info. rewrite Hj, bind_Ok.
  rewrite s32_small by lia.
  destruct (negb (md_ifindex c =? 0) && negb (md_ifindex c =? j)); [reflexivity|].
  rewrite Htb, bind_Ok.
  destruct (parse_nested_encoded m IFLA_XDP_MAX xa xl off Hxa Hat Hd Hxl) as (itb & -> & Hi);
    [unfold IFLA_XDP_MAX; lia|].
  rewrite bind_Ok. cbn [Z.eqb negb].
  assert (forall b, has_data xl IFLA_XDP_ATTACHED (Some [byte_of_Z b]) -> 0 <= b < 256 ->
    exists a, aget itb IFLA_XDP_ATTACHED = Ok (Some a) /\ libbpf_nla_getattr_u8 m a = Ok b) as Hatt.
  { intros b Hb Hr. destruct (index_data m xl itb IFLA_XDP_ATTACHED _ Hi Hxl ltac:(unfold IFLA_XDP_MAX, IFLA_XDP_ATTACHED; lia) Hb)
      as (a & Ha & Hm). exists a. split; [exact Ha|]. unfold libbpf_nla_getattr_u8, load8.
    rewrite (aget_mread _ _ _ Hm), bind_Ok, byte_val_of_Z. f_equal. lia. }
  destruct att as [[mo p]|].
  - destruct Hdesc as (H1a & Hid & Hskb & Hdrv & Hhw). specialize (Hp mo p eq_refl).
    assert (0 <= mode_byte mo < 256) as Hmb by (destruct (mode_byte_cases mo) as [E|[E|E]]; rewrite E; lia).
    destruct (Hatt _ H1a Hmb) as (a & -> & Hu8). rewrite bind_Ok, Hu8, bind_Ok.
    replace (mode_byte mo =? XDP_ATTACHED_NONE) with false
      by (unfold XDP_ATTACHED_NONE; destruct (mode_byte_cases mo) as [E|[E|E]]; rewrite E; reflexivity).
    rewrite (store_id_data m xl itb _ _ _ p true Hi Hxl) by (assumption || (unfold IFLA_XDP_MAX, IFLA_XDP_PROG_ID; lia)).
    rewrite bind_Ok.
    rewrite (store_id_data m xl itb _ _ _ p _ Hi Hxl) by (eassumption || (unfold IFLA_XDP_MAX, IFLA_XDP_SKB_PROG_ID; lia)).
    rewrite bind_Ok.
    rewrite (store_id_data m xl itb _ _ _ p _ Hi Hxl) by (eassumption || (unfold IFLA_XDP_MAX, IFLA_XDP_DRV_PROG_ID; lia)).
    rewrite bind_Ok.
    rewrite (store_id_data m xl itb _ _ _ p _ Hi Hxl) by (eassumption || (unfold IFLA_XDP_MAX, IFLA_XDP_HW_PROG_ID; lia)).
    rewrite bind_Ok. unfold info_of.
    destruct (mode_byte_cases mo) as [E|[E|E]]; rewrite E; destruct c as [ci cf [c1 c2 c3 c4 c5]]; reflexivity.
  - destruct (Hatt _ Hdesc) as (a & -> & Hu8); [unfold XDP_ATTACHED_NONE; lia|].
    rewrite bind_Ok, Hu8, bind_Ok. rewrite Z.eqb_refl. reflexivity.
Qed.

Definition good_link (att : Z -> option (Z * Z)) (x : nlmsg) : Prop :=
  exists j, 0 < j < 2 ^ 31 /\ link_about x j (att j).

Lemma link_index x j att : link_about x j att -> index_of x = j.
Proof.
  intros (hd & attrs & xa & xl & Hd & Hl & Hi & _). unfold index_of. rewrite Hd, <- Hi.
  unfold zlen in Hl. rewrite drop_app_le by lia. rewrite take_app_le by (rewrite length_drop; lia).
  reflexivity.
Qed.

Lemma dump_handles att :
  (forall j mo p, att j = Some (mo, p) -> 0 < p < 2 ^ 32) ->
  handles (Some (dump_link_nlmsg get_xdp_info)) (info_handler att) (good_link att).
Proof.
  intros Hids m nh x c Hx (j & Hj & Hab) Hat Hmax.
  pose proof (link_index x j _ Hab) as Hidx.
  destruct Hab as (hd & attrs & xa & xl & Hd & Hlen & Hi & Hok & Hlast & Hxd & Hxl & Hdesc).
  pose proof (mread_Ok_inv _ _ _ _ Hat) as [(Hn & _ & Hin) _].
  pose proof (zlen_encode_msg x) as Hz. pose proof (nla_align_bounds (zlen (n_data x))) as Hal.
  assert (zlen (n_data x) = 16 + zlen (encode_attrs attrs)) as Hzd by (rewrite Hd, zlen_app; lia).
  pose proof (zlen_nonneg (encode_attrs attrs)).
  destruct (msg_at_spec m nh x Hx ltac:(lia) Hat) as (Hl & _ & _ & _ & _ & Hm & _ & _).
  unfold dump_link_nlmsg, dump_nlmsg. rewrite Hl, bind_Ok, Hzd.
  change (NLMSG_LENGTH sizeof_ifinfomsg) with 32. change (NLMSG_ALIGN sizeof_ifinfomsg) with 16.
  replace (s32 (u32 (16 + (16 + zlen (encode_attrs attrs)) - 32))) with (zlen (encode_attrs attrs)) by wrap_lia.
  rewrite Hd in Hm. pose proof (mread_split _ _ _ _ Hm) as [Hhd Hattrs]. rewrite Hlen in Hattrs.
  destruct (parse_encoded m IFLA_MAX attrs (nlmsg_data nh + 16) Hok Hattrs) as (tb & -> & _ & Htb);
    [lia | unfold IFLA_MAX; lia|].
  rewrite bind_Ok. cbn [Z.eqb negb].
  specialize (Htb IFLA_XDP ltac:(unfold IFLA_XDP, IFLA_MAX; lia)). rewrite Hlast in Htb.
  destruct Htb as (off & Hoff & Hxat).
  assert (load32 m (nlmsg_data nh + 4) = Ok j) as Hj4.
  { rewrite Hlen in Hhd. pose proof (mread_sub _ _ _ _ 4 4 Hhd ltac:(lia) ltac:(lia) ltac:(lia)) as Hs.
    unfold load32. rewrite Hs, bind_Ok. change (Z.to_nat 4) with 4%nat. rewrite Hi. reflexivity. }
  rewrite (get_xdp_info_at m _ tb c off xa xl j (att j) Hj4 Hj Hoff Hxat
    (last_attr_ok _ _ _ Hok Hlast) Hxd Hxl Hdesc (Hids j)).
  unfold info_handler. rewrite Hidx. reflexivity.
Qed.

(** ** The whole dump *)

Definition dump_step (att : Z -> option (Z * Z)) (c : xdp_id_md) (x : nlmsg) : xdp_id_md :=
  snd (info_handler att x c).
Definition dump_link att pid seq (x : nlmsg) : Prop :=
  part_of_dump pid seq x /\ n_type x <> NLMSG_ERROR /\ n_type x <> NLMSG_DONE /\ good_link att x.

Lemma process_links att pid seq r l : forall multi c,
  Forall (dump_link att pid seq) l ->
  process_msgs (info_handler att) pid seq (l ++ r) multi c =
  process_msgs (info_handler att) pid seq r (multi || negb (bool_decide (l = []))) (foldl (dump_step att) c l).
Proof.
  induction l as [|x l IH]; intros multi c Hl; cbn [app process_msgs foldl].
  { rewrite bool_decide_eq_true_2 by reflexivity. rewrite orb_false_r. reflexivity. }
  apply Forall_cons in Hl as [((_ & Hp & Hs & Hm) & He & Hd & _) Hl].
  rewrite Hp, Hs, !Z.eqb_refl. cbn [negb].
  rewrite (proj2 (Z.eqb_neq _ _) He), (proj2 (Z.eqb_neq _ _) Hd), (proj2 (Z.eqb_neq _ _) Hm). cbn [negb].
  unfold dump_step at 2. destruct (info_handler att x c) as [ret c1] eqn:Ei.
  assert (ret = 0) as ->.
  { unfold info_handler in Ei. destruct (_ && _); injection Ei as <- _; reflexivity. }
  cbn [Z.eqb negb snd]. rewrite IH by exact Hl. rewrite !orb_true_r. reflexivity.
Qed.

Lemma process_dump att pid seq ds0 last dn c :
  Forall (fun l => l <> []) ds0 -> Forall (dump_link att pid seq) (mjoin ds0 ++ last) ->
  part_of_dump pid seq dn -> n_type dn = NLMSG_DONE ->
  process (info_handler att) pid seq (ds0 ++ [last ++ [dn]]) c =
  Some (0, foldl (dump_step att) c (mjoin ds0 ++ last)).
Proof.
  intros Hne Hl Hdn Ht. revert c. induction ds0 as [|l ds0 IH]; intros c; cbn [app process].
  - rewrite process_links by exact Hl. destruct Hdn as (_ & Hp & Hs & _). cbn [process_msgs].
    rewrite Hp, Hs, !Z.eqb_refl. cbn [negb].
    assert (n_type dn =? NLMSG_ERROR = false) as -> by (rewrite Ht; reflexivity).
    rewrite Ht. reflexivity.
  - apply Forall_cons in Hne as [Hnl Hne].
    change (mjoin (l :: ds0)) with (l ++ mjoin ds0) in *.
    rewrite <- app_assoc in Hl |- *. apply Forall_app in Hl as [Hll Hl].
    rewrite <- (app_nil_r l) at 1. rewrite process_links by exact Hll.
    rewrite bool_decide_eq_false_2 by exact Hnl. cbn [orb negb process_msgs].
    rewrite IH by assumption. rewrite (foldl_app _ l). reflexivity.
Qed.

Lemma info_of_idem old att : info_of (info_of old att) att = info_of old att.
Proof.
  destruct att as [[m p]|]; cbn; [|reflexivity].
  destruct (mode_byte_cases m) as [E|[E|E]]; rewrite E; reflexivity.
Qed.

Lemma fold_info att i l : forall c,
  i <> 0 -> md_ifindex c = i ->
  let c' := foldl (dump_step att) c l in
  md_ifindex c' = i /\
  (md_info c' = info_of (md_info c) (att i) \/
   md_info c' = md_info c /\ Forall (fun x => index_of x <> i) l).
Proof.
  induction l as [|x l IH]; intros c Hi Hc; cbn [foldl]; [auto|].
  destruct (IH (dump_step att c x) Hi) as [H1' H2'].
  { unfold dump_step, info_handler. destruct (_ && _); exact Hc. }
  split; [exact H1'|].
  assert (md_info (dump_step att c x) =
    if i =? index_of x then info_of (md_info c) (att i) else md_info c) as Hx.
  { unfold dump_step, info_handler. rewrite Hc. replace (negb (i =? 0)) with true by lia.
    destruct (Z.eqb_spec i (index_of x)) as [->|]; reflexivity. }
  rewrite Hx in H2'. destruct (Z.eqb_spec i (index_of x)) as [Heq|Hne].
  - left. destruct H2' as [E|[E _]]; (etransitivity; [exact E|]); [apply info_of_idem | reflexivity].
  - destruct H2' as [E|[E F]]; [left; exact E | right; split; [exact E | constructor; [congruence | exact F]]].
Qed.

Lemma get_xdp_id_info i flags :
  0 <= prog_id i < 2 ^ 32 -> 0 <= attach_mode i < 4 -> get_xdp_id (info_bytes i) flags = Ok (prog_id i).
Proof.
  intros Hp Hm. unfold get_xdp_id.
  assert (load8 (info_bytes i) 16 = Ok (attach_mode i)) as ->.
  { unfold load8. change (aget (info_bytes i) 16) with (Ok (byte_of_Z (attach_mode i))).
    rewrite bind_Ok, byte_val_of_Z. f_equal. lia. }
  rewrite bind_Ok. replace (attach_mode i =? XDP_ATTACHED_MULTI) with false by (unfold XDP_ATTACHED_MULTI; lia).
  cbn [negb]. apply mread_load32; [reflexivity | lia].
Qed.

Lemma get_link_ok k i flags :
  rt_ready k i -> plain_flags flags ->
  exists k', bpf_get_link_xdp_id stack k i flags =
      Ok (0, match rt_attached k i with Some (m, p) => p | None => 0 end, k') /\ rt_same k k'.
Proof.
  intros Hr Hf. unfold bpf_get_link_xdp_id, bpf_get_link_xdp_info.
  assert (negb (clear flags XDP_FLAGS_MASK =? 0) || (20 =? 0) = false) as ->
    by (destruct (plain_cases flags Hf) as [E|[E|[E|E]]]; rewrite E; reflexivity).
  assert (negb (Z.land flags XDP_FLAGS_MODES =? 0) &&
    negb (Z.land (Z.land flags XDP_FLAGS_MODES) (u32 (Z.land flags XDP_FLAGS_MODES - 1)) =? 0) = false) as ->
    by (destruct (plain_cases flags Hf) as [E|[E|[E|E]]]; rewrite E; reflexivity).
  destruct (open_ok k i Hr) as (s & pid & k1 & -> & Hs & E1 & B1).
  replace (s <? 0) with false by lia. pose proof E1 as (A1 & P1 & R1).
  unfold libbpf_nl_get_link. rewrite getlink_request_spec.
  destruct (rt_getlink k1 s pid i B1 (R1 _ Hr)) as (v & k2 & ds & k3 & -> & Hdl & Hdump & E2 & B2).
  destruct Hdump as (ds0 & last & dn & -> & Hdn & Htdn & Hne & Hlinks & x & Hx & Hxi).
  set (c := mk_id_md i (Z.land flags XDP_FLAGS_MODES) (mk_xdp_info 0 0 0 0 0)).
  pose proof (process_dump (rt_attached k1) pid (nl_time k1) ds0 last dn c Hne Hlinks Hdn Htdn) as Hproc.
  assert (Forall (stream_ok (good_link (rt_attached k1))) (ds0 ++ [last ++ [dn]])) as Hstream.
  { assert (Forall (fun x => dump_link (rt_attached k1) pid (nl_time k1) x \/ x = dn)
      (mjoin (ds0 ++ [last ++ [dn]]))) as Hall.
    { rewrite join_app. cbn. rewrite app_nil_r, app_assoc. apply Forall_app.
      split; [eapply Forall_impl; [exact Hlinks | auto] | constructor; [auto | constructor]]. }
    apply Forall_forall. intros l Hl. apply Forall_forall. intros y Hy.
    rewrite Forall_forall in Hall. destruct (Hall y) as [Hly|Hly]; [apply list_elem_of_join; eauto| |].
    - destruct Hly as ((Hok & _) & He & _ & Hg). split; [exact Hok|].
      rewrite (proj2 (Z.eqb_neq _ _) He). auto.
    - subst y. split; [apply Hdn|]. rewrite Htdn. cbn. auto. }
  destruct (recv_loop_spec (Some (dump_link_nlmsg get_xdp_info)) (info_handler (rt_attached k1))
    (good_link (rt_attached k1)) (dump_handles (rt_attached k1) ltac:(intros; eapply rt_ids; eassumption))
    s pid (nl_time k1) _ k2 k3 stack c 0 _ Hdl Hstream Hstack Hproc) as (k4 & Hrecv & ds1 & ds2 & _ & Hd1 & _).
  unfold bpf_netlink_recv. rewrite Hrecv, bind_Ok. cbn [Z.eqb].
  destruct (fold_info (rt_attached k1) i (mjoin ds0 ++ last) c) as [_ Hinfo];
    [pose proof (rt_range k i Hr); lia | reflexivity|].
  destruct Hinfo as [Hinfo|[_ Hno]].
  2:{ rewrite Forall_forall in Hno. destruct (Hno x Hx (link_index x i _ Hxi)). }
  rewrite Hinfo. set (info := info_of _ _) in *.
  replace (take (Z.to_nat (Z.min 20 20)) (info_bytes info) ++ replicate (Z.to_nat (20 - Z.min 20 20)) NUL)
    with (info_bytes info) by reflexivity.
  rewrite bind_Ok. cbn [Z.eqb].
  rewrite get_xdp_id_info.
  - rewrite bind_Ok. eexists. split.
    + unfold info. rewrite A1. destruct (rt_attached k i) as [[m p]|]; reflexivity.
    + destruct (delivers_same s pid ds1 k2 k4 Hd1 B2) as [E4 B4].
      eauto using rt_same_trans, rt_close.
  - unfold info. pose proof (rt_ids k1 i) as Hids. destruct (rt_attached k1 i) as [[m p]|]; cbn; [|lia].
    specialize (Hids m p eq_refl). lia.
  - unfold info. destruct (rt_attached k1 i) as [[m p]|]; cbn; [|lia].
    destruct (mode_byte_cases m) as [E|[E|E]]; rewrite E; lia.
Qed.
End over_kernel.

(** * The device the netlink code makes of a kernel *)

Definition netlink_device {K} `{RtNetlink K} (stack : list byte) : XdpDevice K := {|
  XdpLink.bpf_set_link_xdp_fd := Netlink.bpf_set_link_xdp_fd stack;
  XdpLink.bpf_get_link_xdp_id := Netlink.bpf_get_link_xdp_id stack;
  attached := rt_attached;
  prog_of := rt_prog_of;
  link_ready := rt_ready
|}.

(** C17: over any kernel that answers the two requests as rtnetlink does, the
    netlink code is a device that keeps to the laws the attaching code
    relies on: setting a program sends exactly the message that asks for it
    and returns the kernel's answer, whatever that says; removing removes;
    asking goes through the messages of all devices, over as many datagrams
    as the kernel takes, and returns the program of the device asked for.
    Nothing faults and nothing blocks. *)
Theorem netlink_device_laws {K} `{RtNetlinkLaws K} (stack : list byte) :
  zlen stack = RECV_BUF -> XdpDeviceLaws K (H := netlink_device stack).
Proof.
  intros Hst. pose proof (set_link_ok stack Hst) as Hset. split; cbn.
  - intros k i m p Ha. pose proof (rt_ids k i m p Ha). lia.
  - intros k fd p Hp. pose proof (rt_progs k fd p Hp). lia.
  - intros k i fd flags m p q Hr Hq Hf Ha Hne.
    destruct (Hset k i fd flags (Some q) Hr Hf) as (k' & -> & Hatt & Hk); [right; split; [discriminate | exact Hq]|].
    rewrite Ha in *. cbn in *. rewrite (proj2 (Z.eqb_neq _ _) Hne) in *. cbn in *.
    exists k'. split; [reflexivity|]. split; [exact Hk|]. cbn. rewrite Hatt, Ha. reflexivity.
  - intros k i fd flags p q Hr Hq Hf Hn Ha.
    destruct (Hset k i fd flags (Some q) Hr Hf) as (k' & -> & Hatt & Hk); [right; split; [discriminate | exact Hq]|].
    rewrite Ha in *. cbn in *. rewrite Z.eqb_refl, Hn in *. cbn in *.
    exists k'. split; [reflexivity|]. split; [exact Hk|]. cbn. rewrite Hatt, Ha. reflexivity.
  - intros k i fd flags q Hr Hq Hf Hc.
    destruct (Hset k i fd flags (Some q) Hr Hf) as (k' & -> & Hatt & Hk); [right; split; [discriminate | exact Hq]|].
    exists k'. destruct Hc as [Ha|(Hn & p & Ha)]; rewrite Ha in *; cbn in *;
      [|rewrite Z.eqb_refl, Hn in *; cbn in *]; (split; [reflexivity|]); split; assumption.
  - intros k i flags Hr Hf.
    destruct (Hset k i (-1) flags None Hr Hf) as (k' & -> & Hatt & Hk); [left; auto|].
    exists k'. rewrite Hatt. destruct (rt_attached k i) as [[m p]|]; cbn;
      [destruct (m =? mode_bits flags)|]; cbn; (split; [reflexivity|]); (split; [reflexivity | exact Hk]).
  - intros k i flags Hr Hf. destruct (get_link_ok stack Hst k i flags Hr Hf) as (k' & -> & Hs).
    exists k'. split; [reflexivity|]. exact (rt_same_links k k' i Hs).
Qed.

(** Attaching over netlink: what a run leaves attached. *)
Definition net_run (k : net) (i flags fd : Z) : res (Z * Z * Z) :=
  let dev := netlink_device (K := net) (replicate 4096 NUL) in
  '(r, k) ← xdp_link_attach (H := dev) k i flags fd;
  '(e, p, _) ← Netlink.bpf_get_link_xdp_id (replicate 4096 NUL) k i flags;
  Ok (r, e, p).

Lemma net_run_forced :
  net_run (mk_net {[ 2 := (XDP_FLAGS_DRV_MODE, 40) ]} []) 2 XDP_FLAGS_SKB_MODE 9 = Ok (EXIT_OK, 0, 10).
Proof. vm_compute. reflexivity. Qed.

Lemma netlink_device_laws_witness :
  XdpDeviceLaws net (H := netlink_device (replicate 4096 NUL)) /\
  net_run (mk_net {[ 2 := (XDP_FLAGS_DRV_MODE, 40) ]} []) 2 XDP_FLAGS_SKB_MODE 9 = Ok (EXIT_OK, 0, 10).
Proof. split; [apply netlink_device_laws; reflexivity | exact net_run_forced]. Defined.
