(* ===== verification/XskRing.v ===== *)
(** The rings of AF_XDP ([src/eBPF_app/libbpf/src/xsk.h]): a producer and a
    consumer share an array and two free-running 32-bit counters, and each
    keeps a copy of the other's counter. The operations of both sides are
    in the header; a program uses one side of each of its four rings, the
    kernel the other. *)
From S2P Require Import Prelude.
#[local] Open Scope Z_scope.

(** The private half of a ring ([struct xsk_ring_prod], [struct
    xsk_ring_cons]: the same members) and the half in shared memory. *)
Record xsk_ring := mk_ring { cached_prod : Z; cached_cons : Z; mask : Z; size : Z }.
Record ring_mem (A : Type) := mk_mem {
  producer : Z; consumer : Z; flags : Z; ring : list A
}.
Arguments mk_mem {A}.
Arguments producer {A}.
Arguments consumer {A}.
Arguments flags {A}.
Arguments ring {A}.

Definition set_cached_prod (v : Z) (r : xsk_ring) : xsk_ring :=
  mk_ring v (cached_cons r) (mask r) (size r).
Definition set_cached_cons (v : Z) (r : xsk_ring) : xsk_ring :=
  mk_ring (cached_prod r) v (mask r) (size r).

Definition XDP_RING_NEED_WAKEUP : Z := 1.

(** The entry of an index; the caller reads or writes it. *)
Definition xsk_ring_prod__fill_addr (fill : xsk_ring) (idx : Z) : Z := Z.land idx (mask fill).
Definition xsk_ring_cons__comp_addr (comp : xsk_ring) (idx : Z) : Z := Z.land idx (mask comp).
Definition xsk_ring_prod__tx_desc (tx : xsk_ring) (idx : Z) : Z := Z.land idx (mask tx).
Definition xsk_ring_cons__rx_desc (rx : xsk_ring) (idx : Z) : Z := Z.land idx (mask rx).

(** Addresses in packet memory: a frame, and in the upper bits an offset
    into it. *)
Definition XSK_UNALIGNED_BUF_OFFSET_SHIFT : Z := 48.
Definition XSK_UNALIGNED_BUF_ADDR_MASK : Z := u64 (Z.shiftl 1 XSK_UNALIGNED_BUF_OFFSET_SHIFT - 1).
Definition xsk_umem__get_data (umem_area addr : Z) : Z := umem_area + addr.
Definition xsk_umem__extract_addr (addr : Z) : Z := Z.land addr XSK_UNALIGNED_BUF_ADDR_MASK.
Definition xsk_umem__extract_offset (addr : Z) : Z := Z.shiftr addr XSK_UNALIGNED_BUF_OFFSET_SHIFT.
Definition xsk_umem__add_offset_to_addr (addr : Z) : Z :=
  u64 (xsk_umem__extract_addr addr + xsk_umem__extract_offset addr).

Section ring.
Context {A : Type}.
Implicit Types (r : xsk_ring) (m : ring_mem A).

Definition xsk_ring_prod__needs_wakeup m : bool :=
  negb (Z.land (flags m) XDP_RING_NEED_WAKEUP =? 0).

Definition xsk_prod_nb_free r m (nb : Z) : Z * xsk_ring :=
  let free_entries := u32 (cached_cons r - cached_prod r) in
  if nb <=? free_entries then (free_entries, r) else
  let r := set_cached_cons (u32 (consumer m + size r)) r in
  (u32 (cached_cons r - cached_prod r), r).

Definition xsk_cons_nb_avail r m (nb : Z) : Z * xsk_ring :=
  let entries := u32 (cached_prod r - cached_cons r) in
  let '(entries, r) :=
    if entries =? 0 then
      let r := set_cached_prod (producer m) r in
      (u32 (cached_prod r - cached_cons r), r)
    else (entries, r) in
  (if nb <? entries then nb else entries, r).

(** [nb] is a [size_t], the two functions above take a [__u32]. With the
    count comes the index the first entry has, if there is one. *)
Definition xsk_ring_prod__reserve r m (nb : Z) : Z * option Z * xsk_ring :=
  let '(free, r) := xsk_prod_nb_free r m (u32 nb) in
  if free <? nb then (0, None, r) else
  (nb, Some (cached_prod r), set_cached_prod (u32 (cached_prod r + nb)) r).

Definition xsk_ring_prod__submit m (nb : Z) : ring_mem A :=
  mk_mem (u32 (producer m + nb)) (consumer m) (flags m) (ring m).

Definition xsk_ring_cons__peek r m (nb : Z) : Z * option Z * xsk_ring :=
  let '(entries, r) := xsk_cons_nb_avail r m (u32 nb) in
  if 0 <? entries then
    (entries, Some (cached_cons r), set_cached_cons (u32 (cached_cons r + entries)) r)
  else (entries, None, r).

Definition xsk_ring_cons__release m (nb : Z) : ring_mem A :=
  mk_mem (producer m) (u32 (consumer m + nb)) (flags m) (ring m).

(** * A producer and a consumer at work *)

(** What the two programs do: each call of the header, and each access to
    an entry they hold. A call reads at most one shared counter and writes
    at most one, which nobody else writes, so that calls of the two sides
    can be taken as happening one after the other. *)
Inductive action :=
| Reserve (nb : Z)
| Put (i : nat) (x : A)
| Submit (nb : Z)
| Peek (nb : Z)
| Get (i : nat)
| Release (nb : Z).

Inductive output :=
| Count (n : Z)
| Entry (x : A)
| Done.

(** Both sides: the rings, and what the two programs remember: the index of
    the first entry each holds, which entries the producer has filled, how
    many the consumer holds. *)
Record channel := mk_channel {
  prod : xsk_ring; cons : xsk_ring; mem : ring_mem A;
  p_first : Z; p_filled : list bool;
  c_first : Z; c_held : Z
}.

(** The discipline of the programs: they access only entries they hold,
    submit what they filled and release what they peeked. *)
Definition allowed (s : channel) (a : action) : bool :=
  match a with
  | Reserve nb => (0 <=? nb) && (nb <? 2 ^ 64)
  | Put i _ => (i <? length (p_filled s))%nat
  | Submit nb => (0 <=? nb) && (nb <=? zlen (p_filled s)) &&
      forallb id (take (Z.to_nat nb) (p_filled s))
  | Peek nb => (0 <=? nb) && (nb <? 2 ^ 32)
  | Get i => Z.of_nat i <? c_held s
  | Release nb => (0 <=? nb) && (nb <=? c_held s)
  end.

(** [first] stays the first entry held when more are added. *)
Definition first_held (held : bool) (first : Z) (idx : option Z) : Z :=
  if held then first else match idx with Some i => i | None => first end.

Definition set_mem_ring (l : list A) m : ring_mem A :=
  mk_mem (producer m) (consumer m) (flags m) l.

Definition step (s : channel) (a : action) : res (output * channel) :=
  match a with
  | Reserve nb =>
      let '(n, idx, r) := xsk_ring_prod__reserve (prod s) (mem s) nb in
      Ok (Count n, mk_channel r (cons s) (mem s)
            (first_held (0 <? zlen (p_filled s)) (p_first s) idx)
            (p_filled s ++ replicate (Z.to_nat n) false) (c_first s) (c_held s))
  | Put i x =>
      let pos := xsk_ring_prod__fill_addr (prod s) (u32 (p_first s + Z.of_nat i)) in
      l ← aset (ring (mem s)) pos x;
      Ok (Done, mk_channel (prod s) (cons s) (set_mem_ring l (mem s))
            (p_first s) (<[ i := true ]> (p_filled s)) (c_first s) (c_held s))
  | Submit nb =>
      Ok (Done, mk_channel (prod s) (cons s) (xsk_ring_prod__submit (mem s) nb)
            (u32 (p_first s + nb)) (drop (Z.to_nat nb) (p_filled s)) (c_first s) (c_held s))
  | Peek nb =>
      let '(n, idx, r) := xsk_ring_cons__peek (cons s) (mem s) nb in
      Ok (Count n, mk_channel (prod s) r (mem s) (p_first s) (p_filled s)
            (first_held (0 <? c_held s) (c_first s) idx) (c_held s + n))
  | Get i =>
      let pos := xsk_ring_cons__comp_addr (cons s) (u32 (c_first s + Z.of_nat i)) in
      x ← aget (ring (mem s)) pos;
      Ok (Entry x, s)
  | Release nb =>
      Ok (Done, mk_channel (prod s) (cons s) (xsk_ring_cons__release (mem s) nb)
            (p_first s) (p_filled s) (u32 (c_first s + nb)) (c_held s - nb))
  end.

(** A run; [None] if a program breaks the discipline. *)
Fixpoint run (s : channel) (acts : list action) : option (res (list output * channel)) :=
  match acts with
  | [] => Some (Ok ([], s))
  | a :: acts =>
      if negb (allowed s a) then None else
      match step s a with
      | Err f => Some (Err f)
      | Ok (o, s) =>
          match run s acts with
          | Some (Ok (outs, s)) => Some (Ok (o :: outs, s))
          | other => other
          end
      end
  end.

(** A new ring of [n] entries over zeroed counters, as [xsk_umem__create]
    and [xsk_socket__create] set it up. *)
Definition new_channel (l : list A) : channel :=
  mk_channel (mk_ring 0 (zlen l) (zlen l - 1) (zlen l)) (mk_ring 0 0 (zlen l - 1) (zlen l))
    (mk_mem 0 0 0 l) 0 [] 0 0.
End ring.
Arguments action : clear implicits.
Arguments output : clear implicits.
Arguments channel : clear implicits.

(** * The specification: a bounded queue *)

(** [queued] is what was submitted and not yet released, of which the first
    [taken] are with the consumer; [staged] is what is reserved. *)
Record queue (A : Type) := mk_queue {
  bound : Z; queued : list A; staged : list (option A); taken : Z
}.
Arguments mk_queue {A}.
Arguments bound {A}.
Arguments queued {A}.
Arguments staged {A}.
Arguments taken {A}.

Inductive qstep {A} : queue A -> action A -> output A -> queue A -> Prop :=
| q_reserve N q st t nb :
    0 <= nb -> zlen q + zlen st + nb <= N ->
    qstep (mk_queue N q st t) (Reserve nb) (Count nb)
      (mk_queue N q (st ++ replicate (Z.to_nat nb) None) t)
| q_full N q st t nb :
    N < zlen q + zlen st + nb ->
    qstep (mk_queue N q st t) (Reserve nb) (Count 0) (mk_queue N q st t)
| q_put N q st t i x :
    (i < length st)%nat ->
    qstep (mk_queue N q st t) (Put i x) Done (mk_queue N q (<[ i := Some x ]> st) t)
| q_submit N q xs st t :
    qstep (mk_queue N q ((Some <$> xs) ++ st) t) (Submit (zlen xs)) Done
      (mk_queue N (q ++ xs) st t)
| q_peek N q st t nb n :
    0 <= n <= nb -> t + n <= zlen q -> (n = 0 -> nb = 0 \/ t = zlen q) ->
    qstep (mk_queue N q st t) (Peek nb) (Count n) (mk_queue N q st (t + n))
| q_get N q st t i x :
    Z.of_nat i < t -> q !! i = Some x ->
    qstep (mk_queue N q st t) (Get i) (Entry x) (mk_queue N q st t)
| q_release N q st t nb :
    0 <= nb <= t ->
    qstep (mk_queue N q st t) (Release nb) Done
      (mk_queue N (drop (Z.to_nat nb) q) st (t - nb)).

Inductive qrun {A} : queue A -> list (action A) -> list (output A) -> queue A -> Prop :=
| qrun_nil q : qrun q [] [] q
| qrun_cons q a o q' acts outs q'' :
    qstep q a o q' -> qrun q' acts outs q'' -> qrun q (a :: acts) (o :: outs) q''.
