(* ===== verification/XskRingProps.v ===== *)
(** The rings implement a bounded queue: any run of a producer and a
    consumer, however long and however their calls are interleaved, gives
    what the queue gives. *)
From S2P Require Import Prelude XskRing.
#[local] Open Scope Z_scope.

(** * Counters that wrap, positions in the ring *)

Lemma land_mask idx k : 0 <= k -> Z.land idx (2 ^ k - 1) = idx mod 2 ^ k.
Proof. intros Hk. rewrite <- Z.land_ones by lia. f_equal. rewrite Z.ones_equiv. lia. Qed.

Lemma u32_mod_pow x k : 0 <= k <= 32 -> u32 x mod 2 ^ k = x mod 2 ^ k.
Proof.
  intros Hk. unfold u32. apply Z.mod_mod_divide.
  exists (2 ^ (32 - k)). rewrite <- Z.pow_add_r by lia. f_equal. lia.
Qed.

Lemma u32_add_l x y : u32 (u32 x + y) = u32 (x + y).
Proof. unfold u32. apply Zplus_mod_idemp_l. Qed.
Lemma u32_sub x y : u32 (u32 x - u32 y) = u32 (x - y).
Proof. unfold u32. symmetry. apply Zminus_mod. Qed.
Lemma u32_diff x y : 0 <= x - y < 2 ^ 32 -> u32 (u32 x - u32 y) = x - y.
Proof. intros Hd. rewrite u32_sub. apply u32_small; exact Hd. Qed.

(** Two positions less than a ring apart are different entries. *)
Lemma mod_near_inj N a b : 0 < N -> - N < a - b < N -> a mod N = b mod N -> a = b.
Proof.
  intros HN Hd He.
  assert (Hz : (a - b) mod N = 0) by (rewrite Zminus_mod, He, Z.sub_diag; reflexivity).
  apply Z.mod_divide in Hz; [|lia]. destruct Hz as [c Hc].
  assert (c = 0) by nia. lia.
Qed.

Lemma lookup_replicate_None {A} n i (x : A) :
  replicate n (@None A) !! i = Some (Some x) -> False.
Proof. intros Hx. apply lookup_replicate in Hx. destruct Hx; discriminate. Qed.

Section refine.
Context {A : Type}.
Implicit Types (s : channel A) (q : queue A).

(** * The representation *)

(** [l] holds the entries [xs] from position [at_] on, round the ring. *)
Definition holds (l : list A) (at_ : Z) (xs : list (option A)) : Prop :=
  forall i x, xs !! i = Some (Some x) ->
    l !! Z.to_nat ((at_ + Z.of_nat i) mod zlen l) = Some x.

(** [P] entries have been submitted and [C] released since the start, [P0]
    and [C0] are the values of [P] and [C] the other side last saw. *)
Record repr (k : Z) s q (P C P0 C0 : Z) : Prop := {
  r_k : 0 <= k <= 31;
  r_bound : bound q = 2 ^ k;
  r_len : zlen (ring (mem s)) = 2 ^ k;
  r_masks : mask (prod s) = 2 ^ k - 1 /\ mask (cons s) = 2 ^ k - 1;
  r_size : size (prod s) = 2 ^ k;
  r_producer : producer (mem s) = u32 P;
  r_consumer : consumer (mem s) = u32 C;
  r_queued : zlen (queued q) = P - C;
  r_prod : cached_prod (prod s) = u32 (P + zlen (staged q));
  r_prod_saw : cached_cons (prod s) = u32 (C0 + 2 ^ k);
  r_room : C0 <= C /\ P + zlen (staged q) <= C0 + 2 ^ k;
  r_cons : cached_cons (cons s) = u32 (C + taken q);
  r_cons_saw : cached_prod (cons s) = u32 P0;
  r_avail : 0 <= taken q /\ C + taken q <= P0 <= P;
  r_first : staged q = [] \/ p_first s = u32 P;
  r_filled : p_filled s = (fun o => bool_decide (is_Some o)) <$> staged q;
  r_c_first : taken q = 0 \/ c_first s = u32 C;
  r_held : c_held s = taken q;
  r_data : holds (ring (mem s)) C ((Some <$> queued q) ++ staged q)
}.

Definition represents (k : Z) s q : Prop := exists P C P0 C0, repr k s q P C P0 C0.

Lemma repr_pow k s q P C P0 C0 : repr k s q P C P0 C0 -> 0 < 2 ^ k <= 2 ^ 31.
Proof. intros R. destruct (r_k _ _ _ _ _ _ _ R). split; [lia|]. apply Z.pow_le_mono_r; lia. Qed.

Lemma zlen_filled s q k P C P0 C0 :
  repr k s q P C P0 C0 -> zlen (p_filled s) = zlen (staged q).
Proof. intros R. rewrite (r_filled _ _ _ _ _ _ _ R). unfold zlen. by rewrite length_fmap. Qed.

(** * What the two counting functions find *)

Lemma nb_free_spec k s q P C P0 C0 nb :
  repr k s q P C P0 C0 ->
  exists C1, xsk_prod_nb_free (prod s) (mem s) nb =
      (C1 + 2 ^ k - (P + zlen (staged q)), set_cached_cons (u32 (C1 + 2 ^ k)) (prod s)) /\
    C0 <= C1 <= C /\ (C1 = C \/ nb <= C1 + 2 ^ k - (P + zlen (staged q))).
Proof.
  intros R. pose proof (repr_pow _ _ _ _ _ _ _ R). destruct R. unfold xsk_prod_nb_free.
  pose proof (zlen_nonneg (queued q)). pose proof (zlen_nonneg (staged q)).
  rewrite r_prod0, r_prod_saw0, u32_diff by lia.
  destruct (Z.leb_spec nb (C0 + 2 ^ k - (P + zlen (staged q)))) as [Hle|Hgt].
  - exists C0. split; [|lia]. f_equal. rewrite <- r_prod_saw0. by destruct (prod s).
  - exists C. cbn [cached_cons cached_prod set_cached_cons].
    rewrite r_consumer0, r_size0, r_prod0, u32_add_l, u32_diff by lia. split; [|lia]. reflexivity.
Qed.

Lemma nb_avail_spec k s q P C P0 C0 nb :
  repr k s q P C P0 C0 -> 0 <= nb ->
  exists P1, xsk_cons_nb_avail (cons s) (mem s) nb =
      (Z.min nb (P1 - (C + taken q)), set_cached_prod (u32 P1) (cons s)) /\
    P0 <= P1 <= P /\ (P1 = P \/ 0 < P1 - (C + taken q)).
Proof.
  intros R Hnb. pose proof (repr_pow _ _ _ _ _ _ _ R). destruct R. unfold xsk_cons_nb_avail.
  pose proof (zlen_nonneg (queued q)). pose proof (zlen_nonneg (staged q)).
  rewrite r_cons0, r_cons_saw0, u32_diff by lia.
  assert (Hmin : forall n, (if nb <? n then nb else n) = Z.min nb n)
    by (intros n; destruct (Z.ltb_spec nb n); lia).
  destruct (Z.eqb_spec (P0 - (C + taken q)) 0) as [Heq|Hne].
  - exists P. cbn [cached_cons cached_prod set_cached_prod].
    rewrite r_producer0, r_cons0, u32_diff, Hmin by lia. split; [reflexivity | lia].
  - exists P0. rewrite Hmin. split; [|lia]. f_equal. rewrite <- r_cons_saw0. by destruct (cons s).
Qed.

(** * Entries of the ring *)

Lemma position k s q P C P0 C0 x i :
  repr k s q P C P0 C0 ->
  Z.land (u32 (u32 x + i)) (2 ^ k - 1) = (x + i) mod zlen (ring (mem s)).
Proof.
  intros R. destruct (r_k _ _ _ _ _ _ _ R).
  rewrite land_mask, u32_add_l, u32_mod_pow, (r_len _ _ _ _ _ _ _ R) by lia. reflexivity.
Qed.

Lemma holds_insert l at_ xs (i : nat) x j :
  holds l at_ xs -> zlen xs <= zlen l -> (i < length xs)%nat ->
  j = Z.to_nat ((at_ + Z.of_nat i) mod zlen l) ->
  holds (<[ j := x ]> l) at_ (<[ i := Some x ]> xs).
Proof.
  intros Hh Hlen Hi -> i' y Hy.
  assert (Hz : zlen (<[Z.to_nat ((at_ + Z.of_nat i) mod zlen l):=x]> l) = zlen l)
    by (unfold zlen; by rewrite length_insert).
  rewrite Hz. unfold zlen in Hlen.
  assert (Hpos : forall v, 0 <= v mod zlen l < zlen l) by (intros v; apply Z.mod_pos_bound; unfold zlen; lia).
  pose proof (Hpos (at_ + Z.of_nat i)) as Hp1. pose proof (Hpos (at_ + Z.of_nat i')) as Hp2.
  destruct (decide (i = i')) as [<-|Hne].
  - rewrite list_lookup_insert_eq in Hy by lia. injection Hy as <-.
    apply list_lookup_insert_eq. unfold zlen in *. lia.
  - rewrite list_lookup_insert_ne in Hy by exact Hne.
    rewrite list_lookup_insert_ne; [exact (Hh _ _ Hy)|]. intros He.
    apply Hne, Nat2Z.inj. apply lookup_lt_Some in Hy.
    assert (at_ + Z.of_nat i = at_ + Z.of_nat i'); [|lia].
    apply (mod_near_inj (zlen l)); [unfold zlen; lia | unfold zlen; lia |].
    apply Z2Nat.inj; lia.
Qed.

Lemma holds_drop l at_ xs n : holds l at_ xs -> holds l (at_ + Z.of_nat n) (drop n xs).
Proof.
  intros Hh i x Hx. rewrite lookup_drop in Hx. rewrite <- (Hh _ _ Hx). do 3 f_equal. lia.
Qed.

Lemma holds_app_None l at_ xs n : holds l at_ xs -> holds l at_ (xs ++ replicate n None).
Proof.
  intros Hh i x Hx. apply lookup_app_Some in Hx as [Hx|[_ Hx]]; [exact (Hh _ _ Hx)|].
  by apply lookup_replicate_None in Hx.
Qed.

(** * Each call is a step of the queue *)

Definition simulates k s q a (r : res (output A * channel A)) : Prop :=
  exists o s' q', r = Ok (o, s') /\ qstep q a o q' /\ represents k s' q'.

(** The members a step leaves alone. *)
Ltac kept := cbn in *; first [assumption | lia | split; assumption | idtac].

Lemma reserve_sim k s q nb :
  represents k s q -> 0 <= nb < 2 ^ 64 -> simulates k s q (Reserve nb) (step s (Reserve nb)).
Proof.
  intros (P & C & P0 & C0 & R) Hnb. pose proof (repr_pow _ _ _ _ _ _ _ R) as Hpow.
  pose proof (zlen_filled _ _ _ _ _ _ _ R) as Hfl.
  destruct (nb_free_spec _ _ _ _ _ _ _ (u32 nb) R) as (C1 & Hfree & HC1 & Hlow).
  destruct R. destruct q as [N q st t]; cbn in *. subst N.
  pose proof (zlen_nonneg q). pose proof (zlen_nonneg st).
  unfold simulates, step, xsk_ring_prod__reserve. rewrite Hfree.
  destruct (Z.ltb_spec (C1 + 2 ^ k - (P + zlen st)) nb) as [Hlt|Hge].
  - do 3 eexists. split; [reflexivity|]. split.
    { apply q_full. destruct Hlow as [->|Hlow]; [lia|].
      destruct (Z.lt_ge_cases nb (2 ^ 32)) as [Hs|Hs]; [rewrite u32_small in Hlow by lia|]; lia. }
    exists P, C, P0, C1. split; kept.
    + rewrite Hfl. unfold first_held. destruct r_first0; [left; assumption|]. right.
      by destruct (0 <? zlen st).
    + rewrite app_nil_r. exact r_filled0.
  - assert (Hsm : 0 <= nb < 2 ^ 32) by lia.
    do 3 eexists. split; [reflexivity|]. split; [apply q_reserve; lia|].
    exists P, C, P0, C1. split; kept.
    + rewrite zlen_app, zlen_replicate, Z2Nat.id, r_prod0, u32_add_l by lia. f_equal. lia.
    + rewrite zlen_app, zlen_replicate, Z2Nat.id by lia. lia.
    + right. rewrite Hfl. unfold first_held. destruct (Z.ltb_spec 0 (zlen st)) as [Hp|Hz].
      * destruct r_first0 as [->|?]; [done | assumption].
      * rewrite r_prod0. f_equal. lia.
    + rewrite fmap_app, r_filled0. f_equal. rewrite fmap_replicate. reflexivity.
    + rewrite app_assoc. by apply holds_app_None.
Qed.

Lemma put_sim k s q i x :
  represents k s q -> (i < length (p_filled s))%nat ->
  simulates k s q (Put i x) (step s (Put i x)).
Proof.
  intros (P & C & P0 & C0 & R) Hi. pose proof (repr_pow _ _ _ _ _ _ _ R) as Hpow.
  rewrite (r_filled _ _ _ _ _ _ _ R), length_fmap in Hi.
  assert (Hpos : xsk_ring_prod__fill_addr (prod s) (u32 (p_first s + Z.of_nat i)) =
    (P + Z.of_nat i) mod zlen (ring (mem s))).
  { unfold xsk_ring_prod__fill_addr. destruct (r_masks _ _ _ _ _ _ _ R) as [-> _].
    destruct (r_first _ _ _ _ _ _ _ R) as [Hn| ->]; [rewrite Hn in Hi; cbn in Hi; lia|].
    exact (position _ _ _ _ _ _ _ _ _ R). }
  destruct R. destruct q as [N q st t]; cbn in *. subst N.
  assert (Hr : 0 <= (P + Z.of_nat i) mod zlen (ring (mem s)) < zlen (ring (mem s)))
    by (apply Z.mod_pos_bound; lia).
  unfold simulates, step. rewrite Hpos, aset_Ok by exact Hr. cbn [mbind res_bind].
  do 3 eexists. split; [reflexivity|]. split; [by apply q_put|].
  exists P, C, P0, C0. split; kept.
  - unfold zlen in *. by rewrite length_insert.
  - unfold zlen. by rewrite length_insert.
  - unfold zlen in *. by rewrite length_insert.
  - right. destruct r_first0 as [->|?]; [cbn in Hi; lia | assumption].
  - rewrite r_filled0, list_fmap_insert. reflexivity.
  - pose proof (insert_app_r (Some <$> q) st i (Some x)) as Hins. rewrite length_fmap in Hins.
    rewrite <- Hins. unfold zlen in *. apply holds_insert; [assumption | | |].
    + unfold zlen. rewrite length_app, length_fmap. lia.
    + rewrite length_app, length_fmap. lia.
    + do 2 f_equal. lia.
Qed.

Lemma staged_filled (st : list (option A)) (n : nat) :
  forallb id (take n ((fun o => bool_decide (is_Some o)) <$> st)) = true ->
  exists xs, take n st = Some <$> xs.
Proof.
  revert n. induction st as [|o st IH]; intros [|n]; cbn; try (by exists []).
  intros [Ho Hn]%andb_true_iff. destruct (IH _ Hn) as [xs Hxs].
  apply bool_decide_eq_true in Ho. destruct Ho as [x ->]. exists (x :: xs). by rewrite Hxs.
Qed.

Lemma submit_sim k s q nb :
  represents k s q -> 0 <= nb <= zlen (p_filled s) ->
  forallb id (take (Z.to_nat nb) (p_filled s)) = true ->
  simulates k s q (Submit nb) (step s (Submit nb)).
Proof.
  intros (P & C & P0 & C0 & R) Hnb Hf. pose proof (repr_pow _ _ _ _ _ _ _ R) as Hpow.
  rewrite (zlen_filled _ _ _ _ _ _ _ R) in Hnb.
  rewrite (r_filled _ _ _ _ _ _ _ R) in Hf. apply staged_filled in Hf as [xs Hxs].
  destruct R. destruct q as [N q st t]; cbn in *. subst N.
  assert (Hlen : zlen xs = nb).
  { unfold zlen in *. rewrite <- (length_fmap Some xs), <- Hxs, length_take. lia. }
  assert (Hst : st = (Some <$> xs) ++ drop (Z.to_nat nb) st) by (by rewrite <- Hxs, take_drop).
  set (rest := drop (Z.to_nat nb) st) in *. clearbody rest. subst st. clear Hxs.
  rewrite zlen_app in *. assert (Hz : zlen (@Some A <$> xs) = nb) by (unfold zlen in *; by rewrite length_fmap).
  subst nb. do 3 eexists. split; [reflexivity|]. split; [apply q_submit|].
  exists (P + zlen xs), C, P0, C0. split; kept.
  - rewrite r_producer0. apply u32_add_l.
  - rewrite zlen_app. lia.
  - rewrite r_prod0. f_equal. lia.
  - destruct r_first0 as [Hn| ->]; [|right; apply u32_add_l].
    left. by apply app_nil in Hn as [_ Hn].
  - rewrite r_filled0, fmap_app, drop_app_length'; [reflexivity|].
    unfold zlen. rewrite !length_fmap. lia.
  - rewrite fmap_app, <- app_assoc. exact r_data0.
Qed.

Lemma peek_sim k s q nb :
  represents k s q -> 0 <= nb < 2 ^ 32 -> simulates k s q (Peek nb) (step s (Peek nb)).
Proof.
  intros (P & C & P0 & C0 & R) Hnb. pose proof (repr_pow _ _ _ _ _ _ _ R) as Hpow.
  destruct (nb_avail_spec _ _ _ _ _ _ _ nb R ltac:(lia)) as (P1 & Hav & HP1 & Hex).
  destruct R. destruct q as [N q st t]; cbn in *. subst N.
  unfold simulates, step, xsk_ring_cons__peek. rewrite u32_small, Hav by lia.
  remember (Z.min nb (P1 - (C + t))) as n eqn:Hmin.
  assert (Hn : 0 <= n <= nb /\ t + n <= zlen q /\ (n = 0 -> nb = 0 \/ t = zlen q)) by lia.
  assert (Hroom : C + (t + n) <= P1) by lia. clear Hmin.
  destruct (Z.ltb_spec 0 n) as [Hp|Hz];
    (do 3 eexists; split; [reflexivity|]; split; [apply q_peek; tauto|]);
    exists P, C, P1, C0; split; kept.
  - rewrite r_cons0, u32_add_l. f_equal. lia.
  - right. rewrite r_held0. destruct (Z.ltb_spec 0 t); [|cbn; rewrite r_cons0; f_equal; lia].
    destruct r_c_first0; [lia | assumption].
  - rewrite r_cons0. f_equal. lia.
  - rewrite r_held0. destruct (Z.ltb_spec 0 t); [|left; lia].
    destruct r_c_first0; [lia | right; assumption].
Qed.

Lemma get_sim k s q i :
  represents k s q -> Z.of_nat i < c_held s -> simulates k s q (Get i) (step s (Get i)).
Proof.
  intros Hrep Hi. destruct (Hrep) as (P & C & P0 & C0 & R).
  pose proof (repr_pow _ _ _ _ _ _ _ R) as Hpow.
  assert (Hpos : xsk_ring_cons__comp_addr (cons s) (u32 (c_first s + Z.of_nat i)) =
    (C + Z.of_nat i) mod zlen (ring (mem s))).
  { unfold xsk_ring_cons__comp_addr. destruct (r_masks _ _ _ _ _ _ _ R) as [_ ->].
    destruct (r_c_first _ _ _ _ _ _ _ R) as [Hn| ->]; [rewrite (r_held _ _ _ _ _ _ _ R) in Hi; lia|].
    exact (position _ _ _ _ _ _ _ _ _ R). }
  destruct R. destruct q as [N q st t]; cbn in *. subst N.
  assert (Hq : (i < length q)%nat) by (unfold zlen in *; lia).
  apply lookup_lt_is_Some in Hq as [x Hx].
  assert (Hl : ring (mem s) !! Z.to_nat ((C + Z.of_nat i) mod zlen (ring (mem s))) = Some x).
  { apply r_data0. apply lookup_app_l_Some. by rewrite list_lookup_fmap, Hx. }
  exists (Entry x), s, (mk_queue (2 ^ k) q st t). split; [|split; [apply q_get; [lia | exact Hx] | exact Hrep]].
  unfold step. rewrite Hpos, (proj2 (aget_Ok _ _ x)); [reflexivity|].
  split; [apply Z.mod_pos_bound; lia | exact Hl].
Qed.

Lemma release_sim k s q nb :
  represents k s q -> 0 <= nb <= c_held s -> simulates k s q (Release nb) (step s (Release nb)).
Proof.
  intros (P & C & P0 & C0 & R) Hnb. pose proof (repr_pow _ _ _ _ _ _ _ R) as Hpow.
  destruct R. destruct q as [N q st t]; cbn in *. subst N.
  do 3 eexists. split; [reflexivity|]. split; [apply q_release; lia|].
  exists P, (C + nb), P0, C0. split; kept.
  - rewrite r_consumer0. apply u32_add_l.
  - unfold zlen in *. rewrite length_drop. lia.
  - rewrite r_cons0. f_equal. lia.
  - destruct r_c_first0 as [->| ->]; [left; lia | right; apply u32_add_l].
  - apply (holds_drop _ _ _ (Z.to_nat nb)) in r_data0.
    rewrite Z2Nat.id, drop_app_le, <- fmap_drop in r_data0; [exact r_data0| |lia].
    unfold zlen in *. rewrite length_fmap. lia.
Qed.

Lemma step_sim k s q a :
  represents k s q -> allowed s a = true -> simulates k s q a (step s a).
Proof.
  intros Hrep Ha. destruct a as [nb|i x|nb|nb|i|nb]; cbn [allowed] in Ha.
  - apply reserve_sim; [exact Hrep | lia].
  - apply put_sim; [exact Hrep|]. by apply Nat.ltb_lt.
  - apply andb_true_iff in Ha as [Hb Hf]. apply submit_sim; [exact Hrep | lia | exact Hf].
  - apply peek_sim; [exact Hrep | lia].
  - apply get_sim; [exact Hrep | lia].
  - apply release_sim; [exact Hrep | lia].
Qed.

Lemma run_sim k acts : forall s q,
  represents k s q ->
  match run s acts with
  | None => True
  | Some (Err _) => False
  | Some (Ok (outs, s')) => exists q', qrun q acts outs q' /\ represents k s' q'
  end.
Proof.
  induction acts as [|a acts IH]; intros s q Hrep; cbn [run].
  - exists q. split; [constructor | exact Hrep].
  - destruct (allowed s a) eqn:Ha; cbn [negb]; [|exact I].
    destruct (step_sim _ _ _ _ Hrep Ha) as (o & s' & q' & -> & Hstep & Hrep').
    specialize (IH _ _ Hrep'). destruct (run s' acts) as [[[outs s'']|]|]; try exact IH.
    destruct IH as (q'' & Hrun & Hrep''). exists q''. split; [econstructor; eassumption | exact Hrep''].
Qed.

Lemma new_channel_represents k (l : list A) :
  0 <= k <= 31 -> zlen l = 2 ^ k -> represents k (new_channel l) (mk_queue (2 ^ k) [] [] 0).
Proof.
  intros Hk Hl. pose proof (Z.pow_le_mono_r 2 k 31). pose proof (Z.pow_pos_nonneg 2 k).
  exists 0, 0, 0, 0. split; cbn; try assumption; try lia; try reflexivity; auto; try (by rewrite Hl).
  - rewrite Hl, u32_small; [reflexivity | lia].
  - change (zlen []) with 0. lia.
  - intros i x Hx. by rewrite lookup_nil in Hx.
Qed.
End refine.

(** C16: Over a ring of [2^k] entries, however long a producer and a consumer
    run and however their calls are interleaved, no access leaves the ring,
    and every call gives what a bounded queue gives: a reservation succeeds
    exactly when there is room, whatever the counters have wrapped to, and
    the consumer gets the submitted entries in order. *)
Theorem xsk_ring_refines_queue {A} (k : Z) (l : list A) (acts : list (action A))
    (Hk : 0 <= k <= 31) (Hl : zlen l = 2 ^ k) :
  match run (new_channel l) acts with
  | None => True
  | Some (Err _) => False
  | Some (Ok (outs, _)) => exists q', qrun (mk_queue (2 ^ k) [] [] 0) acts outs q'
  end.
Proof.
  pose proof (run_sim k acts _ _ (new_channel_represents k l Hk Hl)) as Hrun.
  destruct (run (new_channel l) acts) as [[[outs s]|]|]; [|exact Hrun | exact I].
  destruct Hrun as (q' & Hq & _). by exists q'.
Qed.

(** Three entries through a ring of two: the third has to wait for room. *)
Definition wrap_run : list (action Z) :=
  [Reserve 2; Put 0 10; Put 1 11; Submit 2; Reserve 1; Peek 5; Get 1; Release 1;
   Reserve 1; Put 0 12; Submit 1; Release 1; Peek 1; Get 0].

Lemma xsk_ring_refines_queue_witness :
  option_map (fmap fst) (run (new_channel [0; 0]) wrap_run) =
    Some (Ok [Count 2; Done; Done; Done; Count 0; Count 2; Entry 11; Done;
              Count 1; Done; Done; Done; Count 1; Entry 12]) /\
  exists q', qrun (mk_queue 2 [] [] 0) wrap_run
    [Count 2; Done; Done; Done; Count 0; Count 2; Entry 11; Done;
     Count 1; Done; Done; Done; Count 1; Entry 12] q'.
Proof.
  split; [reflexivity|].
  exact (xsk_ring_refines_queue 1 [0; 0] wrap_run ltac:(lia) eq_refl).
Defined.

(** A count of [2^32] or more is cut to 32 bits: asking for [2^32] entries
    gives none although there are some. *)
Lemma peek_cuts_count {A} r (m : ring_mem A) :
  xsk_ring_cons__peek r m (2 ^ 32) = (0, None, snd (xsk_cons_nb_avail r m 0)).
Proof.
  unfold xsk_ring_cons__peek. change (u32 (2 ^ 32)) with 0. unfold xsk_cons_nb_avail.
  set (e := if u32 (cached_prod r - cached_cons r) =? 0 then _ else _).
  assert (He : 0 <= fst e).
  { unfold e. destruct (_ =? 0); cbn [fst]; apply u32_range. }
  destruct e as [n r']. cbn [fst] in He. destruct (Z.ltb_spec 0 n); [reflexivity|].
  replace n with 0 by lia. reflexivity.
Qed.

(** An address made of a frame and an offset comes apart again. *)
Lemma unaligned_addr_parts base off :
  0 <= base < 2 ^ 48 -> 0 <= off < 2 ^ 16 ->
  let addr := Z.lor (Z.shiftl off 48) base in
  xsk_umem__extract_addr addr = base /\ xsk_umem__extract_offset addr = off /\
  xsk_umem__add_offset_to_addr addr = base + off.
Proof.
  intros Hb Ho addr. unfold addr. rewrite lor_add_shift by lia.
  assert (Ha : xsk_umem__extract_addr (off * 2 ^ 48 + base) = base).
  { unfold xsk_umem__extract_addr. change XSK_UNALIGNED_BUF_ADDR_MASK with (2 ^ 48 - 1).
    rewrite land_mask by lia. pow2. lia. }
  assert (Hf : xsk_umem__extract_offset (off * 2 ^ 48 + base) = off).
  { unfold xsk_umem__extract_offset, XSK_UNALIGNED_BUF_OFFSET_SHIFT. rewrite Z.shiftr_div_pow2 by lia. pow2. lia. }
  split; [exact Ha|]. split; [exact Hf|]. unfold xsk_umem__add_offset_to_addr. rewrite Ha, Hf.
  apply u64_small. lia.
Qed.
