(* ===== verification/XskProg.v ===== *)
(** The XDP program libbpf loads for AF_XDP sockets ([xsk_load_xdp_prog] of
    [src/eBPF_app/libbpf/src/xsk.c]): it is given as instructions, with the
    C program they are meant to be in a comment. The instructions are built
    with the macros of [src/eBPF_app/libbpf/include/linux/filter.h]; here
    are those, an interpreter for the instructions in use, and the C
    program. *)
From S2P Require Import Prelude LibbpfObj.
#[local] Open Scope Z_scope.

(** * Instructions *)

Definition BPF_LD : Z := 0x00.
Definition BPF_LDX : Z := 0x01.
Definition BPF_ST : Z := 0x02.
Definition BPF_STX : Z := 0x03.
Definition BPF_ALU : Z := 0x04.
Definition BPF_JMP : Z := 0x05.
Definition BPF_JMP32 : Z := 0x06.
Definition BPF_ALU64 : Z := 0x07.
Definition BPF_W : Z := 0x00.
Definition BPF_DW : Z := 0x18.
Definition BPF_IMM : Z := 0x00.
Definition BPF_MEM : Z := 0x60.
Definition BPF_ADD : Z := 0x00.
Definition BPF_MOV : Z := 0xb0.
Definition BPF_JEQ : Z := 0x10.
Definition BPF_JSGT : Z := 0x60.
Definition BPF_CALL : Z := 0x80.
Definition BPF_EXIT : Z := 0x90.
Definition BPF_K : Z := 0x00.
Definition BPF_X : Z := 0x08.
Definition BPF_CLASS (code : Z) : Z := Z.land code 0x07.
Definition BPF_SIZE (code : Z) : Z := Z.land code 0x18.
Definition BPF_MODE (code : Z) : Z := Z.land code 0xe0.
Definition BPF_OP (code : Z) : Z := Z.land code 0xf0.
Definition BPF_SRC (code : Z) : Z := Z.land code 0x08.

Definition BPF_PSEUDO_MAP_FD : Z := 1.
Definition BPF_PSEUDO_MAP_VALUE : Z := 2.
Definition BPF_FUNC_unspec : Z := 0.
Definition BPF_FUNC_map_lookup_elem : Z := 1.
Definition BPF_FUNC_redirect_map : Z := 51.

#[local] Notation "a .| b" := (Z.lor a b) (at level 50, left associativity).

Definition BPF_ALU64_IMM (OP DST IMM : Z) : bpf_insn :=
  mk_insn (BPF_ALU64 .| BPF_OP OP .| BPF_K) DST 0 0 IMM.
Definition BPF_MOV64_IMM (DST IMM : Z) : bpf_insn :=
  mk_insn (BPF_ALU64 .| BPF_MOV .| BPF_K) DST 0 0 IMM.
Definition BPF_EXIT_INSN : bpf_insn := mk_insn (BPF_JMP .| BPF_EXIT) 0 0 0 0.
Definition BPF_EMIT_CALL (FUNC : Z) : bpf_insn :=
  mk_insn (BPF_JMP .| BPF_CALL) 0 0 0 (FUNC - BPF_FUNC_unspec).
Definition BPF_LDX_MEM (SIZE DST SRC OFF : Z) : bpf_insn :=
  mk_insn (BPF_LDX .| BPF_SIZE SIZE .| BPF_MEM) DST SRC OFF 0.
Definition BPF_STX_MEM (SIZE DST SRC OFF : Z) : bpf_insn :=
  mk_insn (BPF_STX .| BPF_SIZE SIZE .| BPF_MEM) DST SRC OFF 0.
Definition BPF_ST_MEM (SIZE DST OFF IMM : Z) : bpf_insn :=
  mk_insn (BPF_ST .| BPF_SIZE SIZE .| BPF_MEM) DST 0 OFF IMM.
Definition BPF_MOV64_REG (DST SRC : Z) : bpf_insn :=
  mk_insn (BPF_ALU64 .| BPF_MOV .| BPF_X) DST SRC 0 0.
Definition BPF_MOV32_IMM (DST IMM : Z) : bpf_insn :=
  mk_insn (BPF_ALU .| BPF_MOV .| BPF_K) DST 0 0 IMM.
(** Two instructions. *)
Definition BPF_LD_IMM64_RAW_FULL (DST SRC OFF1 OFF2 IMM1 IMM2 : Z) : list bpf_insn :=
  [mk_insn (BPF_LD .| BPF_DW .| BPF_IMM) DST SRC OFF1 IMM1; mk_insn 0 0 0 OFF2 IMM2].
Definition BPF_LD_MAP_FD (DST MAP_FD : Z) : list bpf_insn :=
  BPF_LD_IMM64_RAW_FULL DST BPF_PSEUDO_MAP_FD 0 0 MAP_FD 0.
Definition BPF_LD_MAP_VALUE (DST MAP_FD VALUE_OFF : Z) : list bpf_insn :=
  BPF_LD_IMM64_RAW_FULL DST BPF_PSEUDO_MAP_VALUE 0 0 MAP_FD VALUE_OFF.
Definition BPF_JMP_IMM (OP DST IMM OFF : Z) : bpf_insn :=
  mk_insn (BPF_JMP .| BPF_OP OP .| BPF_K) DST 0 OFF IMM.
Definition BPF_JMP32_IMM (OP DST IMM OFF : Z) : bpf_insn :=
  mk_insn (BPF_JMP32 .| BPF_OP OP .| BPF_K) DST 0 OFF IMM.

(** The array [prog] of [xsk_load_xdp_prog]. *)
Definition xsk_prog (xsks_map_fd : Z) : list bpf_insn :=
  [BPF_LDX_MEM BPF_W 2 1 16; BPF_STX_MEM BPF_W 10 2 (-4)]
  ++ BPF_LD_MAP_FD 1 xsks_map_fd
  ++ [BPF_MOV64_IMM 3 2; BPF_EMIT_CALL BPF_FUNC_redirect_map;
      BPF_JMP32_IMM BPF_JSGT 0 0 13;
      BPF_MOV64_REG 2 10; BPF_ALU64_IMM BPF_ADD 2 (-4)]
  ++ BPF_LD_MAP_FD 1 xsks_map_fd
  ++ [BPF_EMIT_CALL BPF_FUNC_map_lookup_elem;
      BPF_MOV64_REG 1 0; BPF_MOV64_IMM 0 2; BPF_JMP_IMM BPF_JEQ 1 0 5;
      BPF_LDX_MEM BPF_W 2 10 (-4)]
  ++ BPF_LD_MAP_FD 1 xsks_map_fd
  ++ [BPF_MOV64_IMM 3 0; BPF_EMIT_CALL BPF_FUNC_redirect_map; BPF_EXIT_INSN].

(** * What the program calls *)

Definition XDP_ABORTED : Z := 0.
Definition XDP_PASS : Z := 2.
Definition XDP_REDIRECT : Z := 4.

(** The two helper functions, over the kernel's state. *)
Class XskHelpers (K : Type) := {
  bpf_redirect_map : K -> Z -> Z -> Z -> Z * K;
  bpf_map_lookup_elem : K -> Z -> Z -> bool
}.

(** * The machine *)

(** The contents of a register: a number, or a pointer to the context, to
    the frame, to a map or to an entry of a map. *)
Inductive value := Num (z : Z) | Ctx | Frame (off : Z) | MapPtr (fd : Z) | MapValue.

Record machine (K : Type) := mk_machine {
  regs : gmap Z value; frame : gmap Z Z; kern : K
}.
Arguments mk_machine {K}.
Arguments regs {K}.
Arguments frame {K}.
Arguments kern {K}.

(** What one instruction does: it ends the program, or gives the distance
    to the next one. Instructions that the kernel's verifier refuses fault. *)
Inductive outcome (K : Type) := Exit (r0 : Z) (k : K) | Next (skip : Z) (m : machine K).
Arguments Exit {K}.
Arguments Next {K}.

Section machine.
Context {K : Type} `{XskHelpers K} (rx_queue_index : Z).
Implicit Types (m : machine K) (i : bpf_insn).

Definition reg m (r : Z) : res value := or_fault OutOfBounds (regs m !! r).
Definition set_reg (r : Z) (v : value) m : machine K :=
  mk_machine (<[ r := v ]> (regs m)) (frame m) (kern m).
Definition num (v : value) : res Z := match v with Num z => Ok z | _ => Err OutOfBounds end.

(** The calls clobber [r1] to [r5]. *)
Definition after_call (r0 : value) (k : K) m : machine K :=
  mk_machine (<[ 0 := r0 ]> (delete 1 (delete 2 (delete 3 (delete 4 (delete 5 (regs m)))))))
    (frame m) k.

Definition call m (func : Z) : res (machine K) :=
  if func =? BPF_FUNC_redirect_map then
    p ← reg m 1; key ← reg m 2 ≫= num; fl ← reg m 3 ≫= num;
    match p with
    | MapPtr fd =>
        let '(ret, k) := bpf_redirect_map (kern m) fd (u32 key) fl in
        Ok (after_call (Num (u64 ret)) k m)
    | _ => Err OutOfBounds
    end
  else if func =? BPF_FUNC_map_lookup_elem then
    p ← reg m 1; kp ← reg m 2;
    match p, kp with
    | MapPtr fd, Frame off =>
        key ← or_fault OutOfBounds (frame m !! off);
        Ok (after_call (if bpf_map_lookup_elem (kern m) fd key then MapValue else Num 0)
              (kern m) m)
    | _, _ => Err OutOfBounds
    end
  else Err OutOfBounds.

Definition alu64 (op : Z) (dst : res value) (src : value) : res value :=
  if op =? BPF_MOV then Ok src
  else if op =? BPF_ADD then
    d ← dst; s ← num src;
    match d with
    | Num a => Ok (Num (u64 (a + s)))
    | Frame o => Ok (Frame (o + s32 s))
    | _ => Err OutOfBounds
    end
  else Err OutOfBounds.

Definition exec m i (next : option bpf_insn) : res (outcome K) :=
  let op := BPF_OP (i_code i) in
  let class := BPF_CLASS (i_code i) in
  if class =? BPF_ALU64 then
    src ← (if BPF_SRC (i_code i) =? BPF_X then reg m (i_src i) else Ok (Num (u64 (i_imm i))));
    v ← alu64 op (reg m (i_dst i)) src;
    Ok (Next 1 (set_reg (i_dst i) v m))
  else if class =? BPF_LDX then
    if negb ((BPF_MODE (i_code i) =? BPF_MEM) && (BPF_SIZE (i_code i) =? BPF_W))
    then Err OutOfBounds else
    b ← reg m (i_src i);
    z ← match b with
        | Ctx => if i_off i =? 16 then Ok rx_queue_index else Err OutOfBounds
        | Frame o => or_fault OutOfBounds (frame m !! (o + i_off i))
        | _ => Err OutOfBounds
        end;
    Ok (Next 1 (set_reg (i_dst i) (Num z) m))
  else if class =? BPF_STX then
    if negb ((BPF_MODE (i_code i) =? BPF_MEM) && (BPF_SIZE (i_code i) =? BPF_W))
    then Err OutOfBounds else
    b ← reg m (i_dst i); z ← reg m (i_src i) ≫= num;
    match b with
    | Frame o => Ok (Next 1 (mk_machine (regs m) (<[ o + i_off i := u32 z ]> (frame m)) (kern m)))
    | _ => Err OutOfBounds
    end
  else if class =? BPF_LD then
    if negb ((BPF_SIZE (i_code i) =? BPF_DW) && (BPF_MODE (i_code i) =? BPF_IMM)
             && (i_src i =? BPF_PSEUDO_MAP_FD) && bool_decide (is_Some next))
    then Err OutOfBounds else
    Ok (Next 2 (set_reg (i_dst i) (MapPtr (i_imm i)) m))
  else if class =? BPF_JMP then
    if op =? BPF_CALL then m ← call m (i_imm i); Ok (Next 1 m)
    else if op =? BPF_EXIT then r ← reg m 0 ≫= num; Ok (Exit r (kern m))
    else if op =? BPF_JEQ then
      v ← reg m (i_dst i);
      let eq := match v with Num z => z =? u64 (i_imm i) | _ => false end in
      Ok (Next (if eq then 1 + i_off i else 1) m)
    else Err OutOfBounds
  else if class =? BPF_JMP32 then
    if op =? BPF_JSGT then
      z ← reg m (i_dst i) ≫= num;
      Ok (Next (if s32 (i_imm i) <? s32 z then 1 + i_off i else 1) m)
    else Err OutOfBounds
  else Err OutOfBounds.

Fixpoint interp (fuel : nat) (prog : list bpf_insn) (pc : Z) m : res (Z * K) :=
  match fuel with
  | O => Err OutOfFuel
  | S fuel =>
      i ← aget prog pc;
      o ← exec m i (prog !! Z.to_nat (pc + 1));
      match o with
      | Exit r k => Ok (r, k)
      | Next skip m => interp fuel prog (pc + skip) m
      end
  end.

(** The action a program gives for a packet of the queue; the kernel takes
    the low 32 bits of [r0]. *)
Definition run_prog (prog : list bpf_insn) (k : K) : res (Z * K) :=
  '(r, k) ← interp (length prog) prog 0
              (mk_machine {[ 1 := Ctx; 10 := Frame 0 ]} ∅ k);
  Ok (u32 r, k).

(** * The C program of the comment *)

Definition xdp_sock_prog (xsks_map : Z) (k : K) : Z * K :=
  let index := rx_queue_index in
  let '(ret, k) := bpf_redirect_map k xsks_map index XDP_PASS in
  if 0 <? s32 ret then (u32 (s32 ret), k) else
  if bpf_map_lookup_elem k xsks_map index then
    let '(ret, k) := bpf_redirect_map k xsks_map index 0 in (u32 (s32 ret), k)
  else (XDP_PASS, k).
End machine.

(** * The instructions are the program *)

Section correct.
Context {K : Type} `{XskHelpers K} (queue fd : Z).
Implicit Types (k : K) (m : machine K).

Lemma interp_next fuel prog pc m i skip m' :
  aget prog pc = Ok i -> exec queue m i (prog !! Z.to_nat (pc + 1)) = Ok (Next skip m') ->
  interp queue (S fuel) prog pc m = interp queue fuel prog (pc + skip) m'.
Proof. intros Hi He. cbn [interp]. rewrite Hi. cbn. rewrite He. reflexivity. Qed.

Lemma interp_exit fuel prog pc m i r k :
  aget prog pc = Ok i -> exec queue m i (prog !! Z.to_nat (pc + 1)) = Ok (Exit r k) ->
  interp queue (S fuel) prog pc m = Ok (r, k).
Proof. intros Hi He. cbn [interp]. rewrite Hi. cbn. rewrite He. reflexivity. Qed.

Lemma exec_redirect m next map key fl ret k :
  reg m 1 = Ok (MapPtr map) -> reg m 2 = Ok (Num key) -> reg m 3 = Ok (Num fl) ->
  bpf_redirect_map (kern m) map (u32 key) fl = (ret, k) ->
  exec queue m (BPF_EMIT_CALL BPF_FUNC_redirect_map) next =
    Ok (Next 1 (after_call (Num (u64 ret)) k m)).
Proof.
  intros H1 H2 H3 Hc. unfold exec, call. cbn -[reg after_call u64 u32].
  rewrite H1, H2, H3. cbn -[reg after_call u64 u32]. rewrite Hc. reflexivity.
Qed.

Lemma exec_lookup m next map off key k b :
  reg m 1 = Ok (MapPtr map) -> reg m 2 = Ok (Frame off) -> frame m !! off = Some key ->
  kern m = k -> bpf_map_lookup_elem k map key = b ->
  exec queue m (BPF_EMIT_CALL BPF_FUNC_map_lookup_elem) next =
    Ok (Next 1 (after_call (if b then MapValue else Num 0) k m)).
Proof.
  intros H1 H2 Hf <- <-. unfold exec, call. cbn -[reg after_call].
  rewrite H1, H2. cbn -[reg after_call]. rewrite Hf. reflexivity.
Qed.

Lemma exec_jsgt m next z off :
  reg m 0 = Ok (Num z) ->
  exec queue m (BPF_JMP32_IMM BPF_JSGT 0 0 off) next =
    Ok (Next (if 0 <? s32 z then 1 + off else 1) m).
Proof. intros H1. unfold exec. cbn -[reg s32]. rewrite H1. reflexivity. Qed.

Lemma exec_jeq m next r v off :
  reg m r = Ok v ->
  exec queue m (BPF_JMP_IMM BPF_JEQ r 0 off) next =
    Ok (Next (if match v with Num z => z =? 0 | _ => false end then 1 + off else 1) m).
Proof. intros H1. unfold exec. cbn -[reg u64]. rewrite H1. reflexivity. Qed.
End correct.

Ltac one_insn := erewrite interp_next by reflexivity.
Ltac redirect E :=
  erewrite interp_next; [|reflexivity | eapply exec_redirect; [reflexivity..|exact E]].

Lemma s32_u64 z : s32 (u64 z) = s32 z.
Proof. wrap_lia. Qed.
Lemma u32_u64 z : u32 (u64 z) = u32 z.
Proof. wrap_lia. Qed.
Lemma u32_s32 z : u32 (s32 z) = u32 z.
Proof. wrap_lia. Qed.

Lemma xsk_prog_correct_aux {K} `{XskHelpers K} (queue fd : Z) (k : K) :
  0 <= queue < 2 ^ 32 -> run_prog queue (xsk_prog fd) k = Ok (xdp_sock_prog queue fd k).
Proof.
  intros Hq. assert (Hu : u32 queue = queue) by (apply u32_small; exact Hq).
  unfold run_prog, xdp_sock_prog. change (length (xsk_prog fd)) with 21%nat.
  do 4 one_insn. destruct (bpf_redirect_map k fd queue XDP_PASS) as [ret k1] eqn:E1.
  rewrite <- Hu in E1. redirect E1.
  erewrite interp_next; [|reflexivity|apply exec_jsgt; reflexivity]. rewrite s32_u64.
  destruct (0 <? s32 ret).
  { erewrite interp_exit by reflexivity. cbn [mbind res_bind]. by rewrite u32_u64, u32_s32. }
  do 3 one_insn.
  destruct (bpf_map_lookup_elem k1 fd queue) eqn:Hl; rewrite <- Hu in Hl;
    (erewrite interp_next; [|reflexivity|eapply exec_lookup; [reflexivity..|exact Hl]]).
  2:{ do 2 one_insn. erewrite interp_next; [|reflexivity|apply exec_jeq; reflexivity].
      erewrite interp_exit by reflexivity. reflexivity. }
  do 2 one_insn. erewrite interp_next; [|reflexivity|apply exec_jeq; reflexivity].
  destruct (bpf_redirect_map k1 fd queue 0) as [ret' k2] eqn:E2. rewrite <- Hu in E2.
  rewrite <- Hu in E2. do 3 one_insn. redirect E2.
  erewrite interp_exit by reflexivity. cbn [mbind res_bind]. by rewrite u32_u64, u32_s32.
Qed.

(** * What it means for a packet *)

(** What the kernel documents of [bpf_redirect_map]: since 5.3 the low two
    bits of the flags are returned when there is no entry; before, flags
    were an error. *)
Definition redirect_since_5_3 {K} `{XskHelpers K} : Prop :=
  forall k fd q fl, bpf_redirect_map k fd q fl =
    (if bpf_map_lookup_elem k fd q then XDP_REDIRECT else Z.land fl 3, k).
Definition redirect_before_5_3 {K} `{XskHelpers K} : Prop :=
  forall k fd q fl, bpf_redirect_map k fd q fl =
    (if (fl =? 0) && bpf_map_lookup_elem k fd q then XDP_REDIRECT else XDP_ABORTED, k).

(** On both kinds of kernel a packet of a queue with a socket is redirected
    to it, and any other packet passed on. *)
Lemma xsk_prog_redirects {K} `{XskHelpers K} (queue fd : Z) (k : K) :
  0 <= queue < 2 ^ 32 -> redirect_since_5_3 \/ redirect_before_5_3 ->
  run_prog queue (xsk_prog fd) k =
    Ok (if bpf_map_lookup_elem k fd queue then XDP_REDIRECT else XDP_PASS, k).
Proof.
  intros Hq Hr. rewrite (xsk_prog_correct_aux _ _ _ Hq). unfold xdp_sock_prog. f_equal.
  destruct Hr as [Hr|Hr]; rewrite !Hr; destruct (bpf_map_lookup_elem k fd queue) eqn:E;
    cbn; rewrite ?E, ?Hr, ?E; reflexivity.
Qed.

(** C18: The instructions libbpf loads for AF_XDP do what the C program of the
    comment beside them does, whatever the helper functions return. On a
    kernel that keeps to their documentation, of before or since Linux 5.3,
    they redirect the packets of a queue that has a socket and pass on all
    others. *)
Theorem xsk_prog_correct {K} `{XskHelpers K} (queue fd : Z) (k : K) (Hq : 0 <= queue < 2 ^ 32) :
  run_prog queue (xsk_prog fd) k = Ok (xdp_sock_prog queue fd k) /\
  (redirect_since_5_3 \/ redirect_before_5_3 ->
   run_prog queue (xsk_prog fd) k =
     Ok (if bpf_map_lookup_elem k fd queue then XDP_REDIRECT else XDP_PASS, k)).
Proof. split; [by apply xsk_prog_correct_aux | by apply xsk_prog_redirects]. Qed.

(** A kernel before 5.3 with a socket on queue 3 of map 7. *)
#[local] Instance demo_helpers : XskHelpers unit := {|
  bpf_map_lookup_elem _ fd q := (fd =? 7) && (q =? 3);
  bpf_redirect_map k fd q fl :=
    (if (fl =? 0) && ((fd =? 7) && (q =? 3)) then XDP_REDIRECT else XDP_ABORTED, k)
|}.

Lemma xsk_prog_correct_witness :
  run_prog 3 (xsk_prog 7) tt = Ok (XDP_REDIRECT, tt) /\
  run_prog 4 (xsk_prog 7) tt = Ok (XDP_PASS, tt).
Proof.
  split.
  - exact (proj2 (xsk_prog_correct 3 7 tt ltac:(lia)) (or_intror (fun _ _ _ _ => eq_refl))).
  - exact (proj2 (xsk_prog_correct 4 7 tt ltac:(lia)) (or_intror (fun _ _ _ _ => eq_refl))).
Defined.
