(* ===== verification/Xsk.v ===== *)
(** AF_XDP sockets ([src/eBPF_app/libbpf/src/xsk.c]): registering packet
    memory, creating and deleting sockets with their rings, and loading and
    sharing the XDP program that feeds them. *)
From S2P Require Import Prelude CLib XdpLink LibbpfObj LibbpfLoad XskRing XskProg.
#[local] Open Scope Z_scope.

(** * The system *)

Inductive sockopt :=
| XDP_UMEM_REG (addr len chunk_size headroom flags : Z)
| XDP_UMEM_FILL_RING (n : Z)
| XDP_UMEM_COMPLETION_RING (n : Z)
| XDP_RX_RING (n : Z)
| XDP_TX_RING (n : Z).

Record sockaddr_xdp := mk_sockaddr {
  sxdp_ifindex : Z; sxdp_queue_id : Z; sxdp_flags : Z; sxdp_shared_umem_fd : Z
}.

Definition AF_INET : Z := 2.
Definition AF_XDP : Z := 44.
Definition XDP_PGOFF_RX_RING : Z := 0.
Definition XDP_PGOFF_TX_RING : Z := 0x80000000.
Definition XDP_UMEM_PGOFF_FILL_RING : Z := 0x100000000.
Definition XDP_UMEM_PGOFF_COMPLETION_RING : Z := 0x180000000.
Definition XDP_SHARED_UMEM : Z := 1.
Definition EFAULT : Z := 14.
Definition EOPNOTSUPP : Z := 95.
Definition IFNAMSIZ : Z := 16.
Definition BPF_MAP_TYPE_XSKMAP : Z := 17.

(** What these functions ask of the kernel, on top of [BpfSys]. *)
Class XskSys (K : Type) `{BpfSys K} := {
  (** the memory that is mapped: start and length *)
  mappings : K -> gset (Z * Z);
  getpagesize : K -> Z;
  sys_socket : K -> Z -> sysret * K;
  sys_setsockopt : K -> Z -> sockopt -> sysret * K;
  (** [XDP_MMAP_OFFSETS]: the 64-bit words the kernel writes *)
  sys_mmap_offsets : K -> Z -> sysret * list Z * K;
  sys_mmap : K -> Z -> Z -> Z -> sysret * K;
  sys_munmap : K -> Z -> Z -> sysret * K;
  sys_bind : K -> Z -> sockaddr_xdp -> sysret * K;
  sys_if_nametoindex : K -> list byte -> sysret * K;
  (** [SIOCETHTOOL] with [ETHTOOL_GCHANNELS]: the result and [max_combined] *)
  sys_channels : K -> Z -> list byte -> sysret * Z * K;
  sys_map_update_elem : K -> Z -> list byte -> list byte -> sysret * K;
  sys_map_delete_elem : K -> Z -> list byte -> sysret * K;
  sys_map_fd_by_id : K -> Z -> sysret * K;
  sys_prog_fd_by_id : K -> Z -> sysret * K;
  (** [bpf_obj_get_info_by_fd] on a program, with room for some map ids:
      the number of its maps and the ids that fit *)
  sys_prog_maps : K -> Z -> Z -> sysret * Z * list Z * K
}.

(** * Data *)

(** A ring as the program has it: the private half, and where the shared
    half is mapped. *)
Record user_ring := mk_uring {
  u_ring : xsk_ring; at_producer : Z; at_consumer : Z; at_flags : Z; at_ring : Z
}.

Record xsk_umem_config := mk_ucfg {
  fill_size : Z; comp_size : Z; frame_size : Z; frame_headroom : Z; u_flags : Z
}.

Record xsk_umem := mk_umem { umem_area : Z; u_config : xsk_umem_config; u_fd : Z; refcount : Z }.
Definition set_refcount (n : Z) (u : xsk_umem) : xsk_umem :=
  mk_umem (umem_area u) (u_config u) (u_fd u) n.

Record xsk_socket_config := mk_scfg {
  rx_size : Z; tx_size : Z; libbpf_flags : Z; xdp_flags : Z; bind_flags : Z
}.

Record xsk_socket := mk_sock {
  outstanding_tx : Z; x_config : xsk_socket_config; x_fd : Z; x_ifindex : Z;
  prog_fd : Z; xsks_map_fd : Z; queue_id : Z; x_ifname : list byte
}.
Definition set_map_fd (fd : Z) (x : xsk_socket) : xsk_socket :=
  mk_sock (outstanding_tx x) (x_config x) (x_fd x) (x_ifindex x) (prog_fd x) fd
    (queue_id x) (x_ifname x).
Definition set_prog_fd (fd : Z) (x : xsk_socket) : xsk_socket :=
  mk_sock (outstanding_tx x) (x_config x) (x_fd x) (x_ifindex x) fd (xsks_map_fd x)
    (queue_id x) (x_ifname x).

Definition XSK_RING_CONS__DEFAULT_NUM_DESCS : Z := 2048.
Definition XSK_RING_PROD__DEFAULT_NUM_DESCS : Z := 2048.
Definition XSK_UMEM__DEFAULT_FRAME_SIZE : Z := Z.shiftl 1 12.
Definition XSK_UMEM__DEFAULT_FRAME_HEADROOM : Z := 0.
Definition XSK_UMEM__DEFAULT_FLAGS : Z := 0.
Definition XSK_LIBBPF_FLAGS__INHIBIT_PROG_LOAD : Z := 1.

Definition xsk_set_umem_config (usr_cfg : option xsk_umem_config) : xsk_umem_config :=
  match usr_cfg with
  | None => mk_ucfg XSK_RING_PROD__DEFAULT_NUM_DESCS XSK_RING_CONS__DEFAULT_NUM_DESCS
              XSK_UMEM__DEFAULT_FRAME_SIZE XSK_UMEM__DEFAULT_FRAME_HEADROOM
              XSK_UMEM__DEFAULT_FLAGS
  | Some c => mk_ucfg (fill_size c) (comp_size c) (frame_size c) (frame_headroom c) (u_flags c)
  end.

Definition inhibits (flags : Z) : bool :=
  negb (Z.land flags XSK_LIBBPF_FLAGS__INHIBIT_PROG_LOAD =? 0).

(** The error code, and the settings if there is none. *)
Definition xsk_set_xdp_socket_config (usr_cfg : option xsk_socket_config)
    : Z * option xsk_socket_config :=
  match usr_cfg with
  | None => (0, Some (mk_scfg XSK_RING_CONS__DEFAULT_NUM_DESCS
                        XSK_RING_PROD__DEFAULT_NUM_DESCS 0 0 0))
  | Some c =>
      if negb (Z.land (libbpf_flags c) (Z.lnot XSK_LIBBPF_FLAGS__INHIBIT_PROG_LOAD) =? 0)
      then (- EINVAL, None) else
      (0, Some (mk_scfg (rx_size c) (tx_size c) (libbpf_flags c) (xdp_flags c) (bind_flags c)))
  end.

(** [struct xdp_mmap_offsets] as its sixteen words: for each of the rx, tx,
    fill and completion ring the offsets of the producer, the consumer, the
    entries and the flags. *)
Record ring_offset := mk_off { o_producer : Z; o_consumer : Z; o_desc : Z; o_flags : Z }.
Record mmap_offsets := mk_offs {
  off_rx : ring_offset; off_tx : ring_offset; off_fr : ring_offset; off_cr : ring_offset
}.
Definition word (w : list Z) (i : nat) : Z := default 0 (w !! i).
Definition offset_at (w : list Z) (i : nat) : ring_offset :=
  mk_off (word w i) (word w (i + 1)) (word w (i + 2)) (word w (i + 3)).
Definition offsets_of (w : list Z) : mmap_offsets :=
  mk_offs (offset_at w 0) (offset_at w 4) (offset_at w 8) (offset_at w 12).

(** The twelve words of the layout before Linux 5.4, without flags. *)
Definition xsk_mmap_offsets_v1 (off : list Z) : list Z :=
  let off_v1 := take 12 off in
  let ring (i : nat) := [word off_v1 i; word off_v1 (i + 1); word off_v1 (i + 2);
                         u64 (word off_v1 (i + 1) + 4)] in
  ring 0%nat ++ ring 3%nat ++ ring 6%nat ++ ring 9%nat.

Section xsk.
Context {K : Type} `{XskSys K}.

Definition xsk_umem__fd (umem : option xsk_umem) : Z :=
  match umem with Some u => u_fd u | None => - EINVAL end.
Definition xsk_socket__fd (xsk : option xsk_socket) : Z :=
  match xsk with Some x => x_fd x | None => - EINVAL end.

Definition xsk_page_aligned (k : K) (buffer : Z) : bool :=
  Z.land buffer (getpagesize k - 1) =? 0.

(** The error code, the offsets and the system; [optlen] is eight bytes for
    each word written. *)
Definition xsk_get_mmap_offsets (k : K) (fd : Z) : Z * list Z * K :=
  match sys_mmap_offsets k fd with
  | (RErr _, off, k) => (-1, off, k)
  | (ROk _, off, k) =>
      let optlen := 8 * zlen off in
      if optlen =? 128 then (0, off, k) else
      if optlen =? 96 then (0, xsk_mmap_offsets_v1 off, k) else (- EINVAL, off, k)
  end.

(** * Packet memory *)

Definition set_up_ring (r : user_ring) (n map : Z) (off : ring_offset) (cached_cons : Z) : user_ring :=
  mk_uring (mk_ring (cached_prod (u_ring r)) cached_cons (u32 (n - 1)) n)
    (map + o_producer off) (map + o_consumer off) (map + o_flags off) (map + o_desc off).
Definition ring_bytes (off : ring_offset) (n entry : Z) : Z := u64 (o_desc off + n * entry).

(** What creating packet memory leaves behind. *)
Record umem_result := mk_ures {
  ur_err : Z; ur_umem : option xsk_umem; ur_fill : option user_ring; ur_comp : option user_ring;
  ur_sys : K
}.

Definition xsk_umem__create_v0_0_4 (k : K) (umem_ptr : bool) (umem_area size : Z)
    (fill comp : option user_ring) (usr_config : option xsk_umem_config) : umem_result :=
  let fails err fill k := mk_ures err None fill comp k in
  match fill, comp with
  | Some f, Some c =>
      if (umem_area =? 0) || negb umem_ptr then fails (- EFAULT) fill k else
      if (size =? 0) && negb (xsk_page_aligned k umem_area) then fails (- EINVAL) fill k else
      let '(mem, k) := sys_alloc k in
      if negb mem then fails (- ENOMEM) fill k else
      match sys_socket k AF_XDP with
      | (RErr e, k) => fails (- e) fill k
      | (ROk fd, k) =>
          let out_socket err fill k := fails err fill (snd (sys_close k fd)) in
          let cfg := xsk_set_umem_config usr_config in
          match sys_setsockopt k fd (XDP_UMEM_REG umem_area size (frame_size cfg)
                                       (frame_headroom cfg) (u_flags cfg)) with
          | (RErr e, k) => out_socket (- e) fill k
          | (ROk _, k) =>
          match sys_setsockopt k fd (XDP_UMEM_FILL_RING (fill_size cfg)) with
          | (RErr e, k) => out_socket (- e) fill k
          | (ROk _, k) =>
          match sys_setsockopt k fd (XDP_UMEM_COMPLETION_RING (comp_size cfg)) with
          | (RErr e, k) => out_socket (- e) fill k
          | (ROk _, k) =>
          let '(err, off, k) := xsk_get_mmap_offsets k fd in
          if negb (err =? 0) then out_socket (- sys_errno k) fill k else
          let off := offsets_of off in
          let fill_len := ring_bytes (off_fr off) (fill_size cfg) 8 in
          match sys_mmap k fill_len fd XDP_UMEM_PGOFF_FILL_RING with
          | (RErr e, k) => out_socket (- e) fill k
          | (ROk map, k) =>
              let f := set_up_ring f (fill_size cfg) map (off_fr off) (fill_size cfg) in
              match sys_mmap k (ring_bytes (off_cr off) (comp_size cfg) 8) fd
                      XDP_UMEM_PGOFF_COMPLETION_RING with
              | (RErr e, k) =>
                  (* [map] is [MAP_FAILED] by now *)
                  let '(_, k) := sys_munmap k (-1) fill_len in
                  out_socket (- e) (Some f) k
              | (ROk map, k) =>
                  let c := set_up_ring c (comp_size cfg) map (off_cr off) (cached_cons (u_ring c)) in
                  mk_ures 0 (Some (mk_umem umem_area cfg fd 0)) (Some f) (Some c) k
              end
          end
          end
          end
          end
      end
  | _, _ => fails (- EFAULT) fill k
  end.

(** The older version: the configuration has no flags member, and must not
    be NULL. *)
Definition xsk_umem__create_v0_0_2 (k : K) (umem_ptr : bool) (umem_area size : Z)
    (fill comp : option user_ring) (usr_config : option xsk_umem_config) : res umem_result :=
  match usr_config with
  | None => Err NullDeref
  | Some c =>
      let config := mk_ucfg (fill_size c) (comp_size c) (frame_size c) (frame_headroom c) 0 in
      Ok (xsk_umem__create_v0_0_4 k umem_ptr umem_area size fill comp (Some config))
  end.

(** [umem] is NULL, or points to the memory object, whose members [fill] and
    [comp] point to rings of the caller. The result: the error code, whether
    the object is freed, the system. *)
Definition xsk_umem__delete (k : K) (umem : option (xsk_umem * user_ring * user_ring)) : Z * bool * K :=
  match umem with
  | None => (0, false, k)
  | Some (u, fill, comp) =>
      if negb (refcount u =? 0) then (- EBUSY, false, k) else
      let '(err, off, k) := xsk_get_mmap_offsets k (u_fd u) in
      let off := offsets_of off in
      let k :=
        if err =? 0 then
          let '(_, k) := sys_munmap k (at_ring fill - o_desc (off_fr off))
                           (ring_bytes (off_fr off) (fill_size (u_config u)) 8) in
          snd (sys_munmap k (at_ring comp - o_desc (off_cr off))
                 (ring_bytes (off_cr off) (comp_size (u_config u)) 8))
        else k in
      (0, true, snd (sys_close k (u_fd u)))
  end.

(** * The program and its map *)

Context `{XdpDevice K}.

(** Two calls of [bpf.c]. *)
Definition bpf_create_map_name (k : K) (map_type : Z) (name : string)
    (key_size value_size max_entries map_flags : Z) : sysret * K :=
  bpf_create_map_xattr k
    (mk_map_attr (Some name) map_type map_flags key_size value_size max_entries 0 0 0 0 0).
Definition bpf_load_program (k : K) (type : Z) (insns : list bpf_insn) (license : string)
    (kern_version : Z) (log_buf : bool) (log_buf_sz : Z) : res (sysret * bool * K) :=
  bpf_load_program_xattr k
    (mk_prog_attr type 0 0 0 None insns license kern_version 0 [] 0 0 [] 0 0 (0, 0) 0)
    log_buf log_buf_sz.

Definition xsk_load_xdp_prog (k : K) (xsk : xsk_socket) : res (Z * xsk_socket * K) :=
  let log_buf_size := 16 * 1024 in
  '(r, _, k) ← bpf_load_program k BPF_PROG_TYPE_XDP (xsk_prog (xsks_map_fd xsk))
                 "LGPL-2.1 or BSD-2-Clause" 0 true log_buf_size;
  match r with
  | RErr _ => Ok (-1, xsk, k)
  | ROk prog_fd =>
      '(err, k) ← bpf_set_link_xdp_fd k (x_ifindex xsk) prog_fd (xdp_flags (x_config xsk));
      if negb (err =? 0) then Ok (err, xsk, snd (sys_close k prog_fd)) else
      Ok (0, set_prog_fd prog_fd xsk, k)
  end.

Definition xsk_get_max_queues (k : K) (xsk : xsk_socket) : Z * K :=
  match sys_socket k AF_INET with
  | (RErr e, k) => (- e, k)
  | (ROk fd, k) =>
      let ifr_name := take (Z.to_nat (IFNAMSIZ - 1)) (x_ifname xsk) ++ [NUL] in
      let '(r, max_combined, k) := sys_channels k fd ifr_name in
      let ret :=
        match r with
        | RErr e => if e =? EOPNOTSUPP then 1 else - e
        | ROk _ => if max_combined =? 0 then 1 else s32 max_combined
        end in
      (ret, snd (sys_close k fd))
  end.

Definition xsk_create_bpf_maps (k : K) (xsk : xsk_socket) : Z * xsk_socket * K :=
  let '(max_queues, k) := xsk_get_max_queues k xsk in
  if max_queues <? 0 then (max_queues, xsk, k) else
  match bpf_create_map_name k BPF_MAP_TYPE_XSKMAP "xsks_map" 4 4 max_queues 0 with
  | (RErr _, k) => (-1, xsk, k)
  | (ROk fd, k) => (0, set_map_fd fd xsk, k)
  end.

Definition xsk_delete_bpf_maps (k : K) (xsk : xsk_socket) : K :=
  let '(_, k) := sys_map_delete_elem k (xsks_map_fd xsk) (le_bytes 4 (queue_id xsk)) in
  snd (sys_close k (xsks_map_fd xsk)).

(** The loop over the ids of the program's maps. *)
Fixpoint lookup_loop (n : nat) (k : K) (map_ids : list Z) (i : Z) (xsk : xsk_socket)
    : res (xsk_socket * K) :=
  match n with
  | O => Ok (xsk, k)
  | S n =>
      id ← aget map_ids i;
      match sys_map_fd_by_id k id with
      | (RErr _, k) => lookup_loop n k map_ids (i + 1) xsk
      | (ROk fd, k) =>
          match sys_obj_info k fd with
          | None => lookup_loop n (snd (sys_close k fd)) map_ids (i + 1) xsk
          | Some map_info =>
              if String.eqb (in_name map_info) "xsks_map"
              then lookup_loop n k map_ids (i + 1) (set_map_fd fd xsk)
              else lookup_loop n (snd (sys_close k fd)) map_ids (i + 1) xsk
          end
      end
  end.

Definition xsk_lookup_bpf_maps (k : K) (xsk : xsk_socket) : res (Z * xsk_socket * K) :=
  match sys_prog_maps k (prog_fd xsk) 0 with
  | (RErr _, _, _, k) => Ok (-1, xsk, k)
  | (ROk _, num_maps, _, k) =>
      let '(mem, k) := sys_alloc k in
      if negb mem then Ok (- ENOMEM, xsk, k) else
      match sys_prog_maps k (prog_fd xsk) num_maps with
      | (RErr _, _, _, k) => Ok (-1, xsk, k)
      | (ROk _, nr_map_ids, map_ids, k) =>
          let map_ids := take (Z.to_nat num_maps) (map_ids ++ replicate (Z.to_nat num_maps) 0) in
          '(xsk, k) ← lookup_loop (Z.to_nat nr_map_ids) k map_ids 0 (set_map_fd (-1) xsk);
          Ok (if xsks_map_fd xsk =? -1 then - ENOENT else 0, xsk, k)
      end
  end.

Definition xsk_set_bpf_maps (k : K) (xsk : xsk_socket) : Z * K :=
  match sys_map_update_elem k (xsks_map_fd xsk) (le_bytes 4 (queue_id xsk))
          (le_bytes 4 (x_fd xsk)) with
  | (RErr _, k) => (-1, k)
  | (ROk _, k) => (0, k)
  end.

(** The first half of [xsk_setup_xdp_prog]: load a program if the device has
    none, or find the map of the one it has. *)
Definition obtain_xdp_prog (k : K) (xsk : xsk_socket) (prog_id : Z) : res (Z * xsk_socket * K) :=
  if prog_id =? 0 then
    let '(err, xsk, k) := xsk_create_bpf_maps k xsk in
    if negb (err =? 0) then Ok (err, xsk, k) else
    '(err, xsk, k) ← xsk_load_xdp_prog k xsk;
    if negb (err =? 0) then Ok (err, xsk, xsk_delete_bpf_maps k xsk) else Ok (0, xsk, k)
  else
    match sys_prog_fd_by_id k prog_id with
    | (RErr e, k) => Ok (- e, set_prog_fd (-1) xsk, k)
    | (ROk fd, k) =>
        '(err, xsk, k) ← xsk_lookup_bpf_maps k (set_prog_fd fd xsk);
        if negb (err =? 0) then Ok (err, xsk, snd (sys_close k (prog_fd xsk)))
        else Ok (0, xsk, k)
    end.

(** [rx] is whether the socket receives ([xsk->rx] is not NULL). *)
Definition xsk_setup_xdp_prog (k : K) (xsk : xsk_socket) (rx : bool) : res (Z * xsk_socket * K) :=
  '(err, prog_id, k) ← bpf_get_link_xdp_id k (x_ifindex xsk) (xdp_flags (x_config xsk));
  if negb (err =? 0) then Ok (err, xsk, k) else
  '(err, xsk, k) ← obtain_xdp_prog k xsk prog_id;
  if negb (err =? 0) then Ok (err, xsk, k) else
  let '(err, k) := if rx then xsk_set_bpf_maps k xsk else (0, k) in
  if negb (err =? 0) then
    let k := xsk_delete_bpf_maps k xsk in
    Ok (err, xsk, snd (sys_close k (prog_fd xsk)))
  else Ok (0, xsk, k).

(** * Sockets *)

Record sock_result := mk_sres {
  sr_err : Z; sr_sock : option xsk_socket; sr_rx : option user_ring; sr_tx : option user_ring;
  sr_umem : option xsk_umem; sr_sys : K
}.

Definition desc_sz : Z := 16.
Definition unmap_ring (k : K) (base : Z) (off : ring_offset) (n : Z) : K :=
  snd (sys_munmap k base (ring_bytes off n desc_sz)).

(** The mapping of one ring of a socket, if it is asked for: the error, the
    ring, where it is mapped, the system. *)
Definition map_ring (k : K) (fd pgoff : Z) (off : ring_offset) (n : Z) (r : option user_ring)
    (cached : user_ring -> Z) : Z * option user_ring * Z * K :=
  match r with
  | None => (0, None, 0, k)
  | Some r =>
      match sys_mmap k (ring_bytes off n desc_sz) fd pgoff with
      | (RErr e, k) => (- e, Some r, 0, k)
      | (ROk map, k) => (0, Some (set_up_ring r n map off (cached r)), map, k)
      end
  end.

Definition set_ring_size (k : K) (fd : Z) (asked : bool) (opt : sockopt) : Z * K :=
  if asked then
    match sys_setsockopt k fd opt with
    | (RErr e, k) => (- e, k)
    | (ROk _, k) => (0, k)
    end
  else (0, k).

(** Binding the socket and setting up the program. *)
Definition bind_socket (k : K) (xsk : xsk_socket) (umem : xsk_umem) (rx : bool)
    : res (Z * xsk_socket * K) :=
  let cfg := x_config xsk in
  let sxdp :=
    if 1 <? refcount umem
    then mk_sockaddr (x_ifindex xsk) (queue_id xsk) XDP_SHARED_UMEM (u_fd umem)
    else mk_sockaddr (x_ifindex xsk) (queue_id xsk) (bind_flags cfg) 0 in
  match sys_bind k (x_fd xsk) sxdp with
  | (RErr e, k) => Ok (- e, xsk, k)
  | (ROk _, k) =>
      let xsk := set_prog_fd (-1) xsk in
      if inhibits (libbpf_flags cfg) then Ok (0, xsk, k) else xsk_setup_xdp_prog k xsk rx
  end.

(** From the point on where the socket's descriptor [fd] is there. *)
Definition socket_rest (k : K) (xsk : xsk_socket) (ifname : list byte) (umem : xsk_umem)
    (rx tx : option user_ring) : res sock_result :=
  let cfg := x_config xsk in
  let fd := x_fd xsk in
  let out_socket err rx tx k :=
    let umem := set_refcount (refcount umem - 1) umem in
    mk_sres err None rx tx (Some umem)
      (if negb (refcount umem =? 0) then snd (sys_close k fd) else k) in
  name ← c_string ifname;
  let '(idx, k) := sys_if_nametoindex k name in
  match idx with
  | RErr e => Ok (out_socket (- e) rx tx k)
  | ROk ifindex =>
      name ← mread ifname 0 (IFNAMSIZ - 1);
      let xsk := mk_sock 0 cfg fd ifindex (prog_fd xsk) (xsks_map_fd xsk) (queue_id xsk)
                   (name ++ [NUL]) in
      let '(err, k) := set_ring_size k fd (bool_decide (is_Some rx)) (XDP_RX_RING (rx_size cfg)) in
      if negb (err =? 0) then Ok (out_socket err rx tx k) else
      let '(err, k) := set_ring_size k fd (bool_decide (is_Some tx)) (XDP_TX_RING (tx_size cfg)) in
      if negb (err =? 0) then Ok (out_socket err rx tx k) else
      let '(err, off, k) := xsk_get_mmap_offsets k fd in
      if negb (err =? 0) then Ok (out_socket (- sys_errno k) rx tx k) else
      let off := offsets_of off in
      let '(err, rx, rx_map, k) :=
        map_ring k fd XDP_PGOFF_RX_RING (off_rx off) (rx_size cfg) rx
          (fun r => cached_cons (u_ring r)) in
      if negb (err =? 0) then Ok (out_socket err rx tx k) else
      let out_mmap_rx err tx k :=
        out_socket err rx tx
          (if bool_decide (is_Some rx) then unmap_ring k rx_map (off_rx off) (rx_size cfg) else k) in
      let '(err, tx, tx_map, k) :=
        map_ring k fd XDP_PGOFF_TX_RING (off_tx off) (tx_size cfg) tx (fun _ => tx_size cfg) in
      if negb (err =? 0) then Ok (out_mmap_rx err tx k) else
      let out_mmap_tx err k :=
        out_mmap_rx err tx
          (if bool_decide (is_Some tx) then unmap_ring k tx_map (off_tx off) (tx_size cfg) else k) in
      '(err, xsk, k) ← bind_socket k xsk umem (bool_decide (is_Some rx));
      if negb (err =? 0) then Ok (out_mmap_tx err k) else
      Ok (mk_sres 0 (Some xsk) rx tx (Some umem) k)
  end.

(** [xsk_ptr] is whether that pointer is not NULL. *)
Definition xsk_socket__create (k : K) (xsk_ptr : bool) (ifname : list byte) (queue : Z)
    (umem : option xsk_umem) (rx tx : option user_ring) (usr_config : option xsk_socket_config)
    : res sock_result :=
  let fails err umem k := Ok (mk_sres err None rx tx umem k) in
  match umem with
  | None => fails (- EFAULT) None k
  | Some umem =>
  if negb xsk_ptr || negb (bool_decide (is_Some rx) || bool_decide (is_Some tx))
  then fails (- EFAULT) (Some umem) k else
  let '(mem, k) := sys_alloc k in
  if negb mem then fails (- ENOMEM) (Some umem) k else
  match xsk_set_xdp_socket_config usr_config with
  | (err, None) => fails err (Some umem) k
  | (_, Some cfg) =>
      if negb (refcount umem =? 0) && negb (inhibits (libbpf_flags cfg))
      then fails (- EBUSY) (Some umem) k else
      let shared := 0 <? refcount umem in
      let umem := set_refcount (refcount umem + 1) umem in
      match (if shared then sys_socket k AF_XDP else (ROk (u_fd umem), k)) with
      | (RErr e, k) => fails (- e) (Some umem) k
      | (ROk fd, k) =>
          socket_rest k (mk_sock 0 cfg fd 0 0 0 queue (replicate 16 NUL)) ifname umem rx tx
      end
  end
  end.

(** The socket with what its members [rx], [tx] and [umem] point to. *)
Definition xsk_socket__delete (k : K) (xsk : option xsk_socket) (rx tx : option user_ring)
    (umem : xsk_umem) : xsk_umem * K :=
  match xsk with
  | None => (umem, k)
  | Some x =>
      let k := if negb (prog_fd x =? -1)
               then snd (sys_close (xsk_delete_bpf_maps k x) (prog_fd x)) else k in
      let '(err, off, k) := xsk_get_mmap_offsets k (x_fd x) in
      let off := offsets_of off in
      let unmap (r : option user_ring) off n k :=
        match r with
        | Some r => unmap_ring k (at_ring r - o_desc off) off n
        | None => k
        end in
      let k :=
        if err =? 0 then
          unmap tx (off_tx off) (tx_size (x_config x))
            (unmap rx (off_rx off) (rx_size (x_config x)) k)
        else k in
      let umem := set_refcount (refcount umem - 1) umem in
      (umem, if negb (x_fd x =? u_fd umem) then snd (sys_close k (x_fd x)) else k)
  end.
End xsk.
