(* ===== verification/XskRes.v ===== *)
(** Which descriptors and mappings an AF_XDP socket and its packet memory
    own, and what each call of [Xsk] does to them, over any kernel with the
    documented behaviour. *)
From S2P Require Import Prelude CLib XdpLink LibbpfObj LibbpfLoad LibbpfRes XskRing XskProg Xsk.
#[local] Open Scope Z_scope.

(** Neither descriptors nor mappings change. *)
Definition kept {K} `{XskSys K} (k k' : K) : Prop :=
  open_fds k' = open_fds k /\ mappings k' = mappings k.
(** A call that gives a descriptor or changes nothing. *)
Definition gives {K} `{XskSys K} (k : K) (r : sysret * K) : Prop :=
  gives_fd k r /\ mappings (snd r) = mappings k.
Definition keeps {K} `{XskSys K} (k : K) (r : sysret * K) : Prop :=
  kept k (snd r) /\ match fst r with ROk _ => True | RErr e => 0 < e end.

Class XskSysLaws (K : Type) `{XskSys K} `{XdpDevice K} := {
  xsk_sys_laws :: BpfSysLaws K;
  alloc_maps k : mappings (snd (sys_alloc k)) = mappings k;
  close_maps k fd : mappings (snd (sys_close k fd)) = mappings k;
  map_create_maps k a : mappings (snd (sys_map_create k a)) = mappings k;
  prog_load_maps k a : mappings (snd (sys_prog_load k a)) = mappings k;
  socket_gives k f : gives k (sys_socket k f);
  setsockopt_keeps k fd o : keeps k (sys_setsockopt k fd o);
  mmap_offsets_keeps k fd : kept k (snd (sys_mmap_offsets k fd));
  bind_keeps k fd a : keeps k (sys_bind k fd a);
  nametoindex_keeps k n : keeps k (sys_if_nametoindex k n);
  channels_keeps k fd n : kept k (snd (sys_channels k fd n)) /\
    match fst (fst (sys_channels k fd n)) with ROk _ => True | RErr e => 0 < e end;
  update_elem_keeps k fd a b : keeps k (sys_map_update_elem k fd a b);
  delete_elem_keeps k fd a : keeps k (sys_map_delete_elem k fd a);
  map_fd_by_id_gives k i : gives k (sys_map_fd_by_id k i);
  prog_fd_by_id_gives k i : gives k (sys_prog_fd_by_id k i);
  prog_maps_keeps k fd n : kept k (snd (sys_prog_maps k fd n));
  (** a program keeps its maps from one call to the next *)
  prog_maps_same k fd r n l k1 r2 n2 l2 k2 :
    sys_prog_maps k fd 0 = (ROk r, n, l, k1) ->
    sys_prog_maps (snd (sys_alloc k1)) fd n = (ROk r2, n2, l2, k2) -> n2 = n;
  (** a new mapping starts where none does *)
  mmap_gives k len fd off :
    open_fds (snd (sys_mmap k len fd off)) = open_fds k /\
    match fst (sys_mmap k len fd off) with
    | ROk a => 0 <= a /\ ((a, len) ∉ mappings k) /\
        mappings (snd (sys_mmap k len fd off)) = {[ (a, len) ]} ∪ mappings k
    | RErr e => 0 < e /\ mappings (snd (sys_mmap k len fd off)) = mappings k
    end;
  munmap_takes k a len :
    open_fds (snd (sys_munmap k a len)) = open_fds k /\
    ((a, len) ∈ mappings k ->
     mappings (snd (sys_munmap k a len)) = mappings k ∖ {[ (a, len) ]});
  (** [MAP_FAILED] is no mapping *)
  munmap_failed k len : mappings (snd (sys_munmap k (-1) len)) = mappings k;
  (** the offsets are constants of the kernel *)
  mmap_offsets_fixed k fd r off k1 k' fd' r' off' k1' :
    sys_mmap_offsets k fd = (ROk r, off, k1) -> sys_mmap_offsets k' fd' = (ROk r', off', k1') ->
    off = off';
  (** the device calls return, and open nothing that stays open *)
  set_link_keeps k i fd fl :
    exists e k', bpf_set_link_xdp_fd k i fd fl = Ok (e, k') /\ kept k k';
  get_link_keeps k i fl :
    exists e p k', bpf_get_link_xdp_id k i fl = Ok (e, p, k') /\ kept k k'
}.

Section res.
Context {K : Type} `{XskSysLaws K}.
Implicit Types (k : K) (F : gset Z) (M : gset (Z * Z)) (fds : list Z) (ms : list (Z * Z)).

(** Of the descriptors and mappings, [F] and [M] and, apart from these and
    each once, the ones listed. *)
Definition has F M k fds ms : Prop :=
  owns F k fds /\ NoDup ms /\ mappings k = M ∪ list_to_set ms /\ M ## list_to_set ms.

Lemma has_start k : has (open_fds k) (mappings k) k [] [].
Proof.
  split; [|split; [constructor | split; set_solver]].
  split; [constructor | split; set_solver].
Qed.

Lemma has_nothing F M k : has F M k [] [] -> open_fds k = F /\ mappings k = M.
Proof. intros ((_ & Hf & _) & _ & Hm & _). rewrite Hf, Hm. set_solver. Qed.

#[export] Instance has_Permutation F M k :
  Proper (Permutation ==> Permutation ==> iff) (has F M k).
Proof.
  intros l l' Hl ms ms' Hm. unfold has. rewrite Hl.
  assert ((list_to_set ms : gset (Z * Z)) = list_to_set ms') as ->.
  { apply set_eq. intros x. rewrite !elem_of_list_to_set, Hm. reflexivity. }
  rewrite Hm. reflexivity.
Qed.

Lemma has_keep F M k k' l ms : kept k k' -> has F M k l ms -> has F M k' l ms.
Proof.
  intros [Ef Em] (Ho & Hm). split; [exact (owns_keep _ _ _ _ Ef Ho)|]. rewrite Em. exact Hm.
Qed.

Lemma keeps_has F M k r l ms :
  keeps k r -> has F M k l ms ->
  has F M (snd r) l ms /\ match fst r with ROk _ => True | RErr e => 0 < e end.
Proof. intros [Hk He] Hh. split; [exact (has_keep _ _ _ _ _ _ Hk Hh) | exact He]. Qed.

Lemma gives_has F M k r l ms :
  gives k r -> has F M k l ms ->
  match fst r with
  | ROk fd => 0 <= fd /\ has F M (snd r) (fd :: l) ms
  | RErr e => 0 < e /\ has F M (snd r) l ms
  end.
Proof.
  intros [Hg Em] (Ho & Hm). destruct r as [[fd|e] k']; cbn [fst snd] in *.
  - destruct (owns_give _ _ _ _ _ Hg Ho) as [Hfd Ho']. split; [exact Hfd|].
    split; [exact Ho' | rewrite Em; exact Hm].
  - destruct Hg as [He Ef]. split; [exact He|]. apply (has_keep F M k); [split; assumption|].
    split; assumption.
Qed.

Lemma close_has F M k fd l ms :
  0 <= fd -> has F M k (fd :: l) ms -> has F M (snd (sys_close k fd)) l ms.
Proof.
  intros Hfd (Ho & Hm). apply owns_close in Ho as [_ Ho]. unfold zclose in Ho.
  rewrite (proj2 (Z.leb_le 0 fd) Hfd) in Ho. split; [exact Ho|]. rewrite close_maps. exact Hm.
Qed.

Lemma alloc_has F M k l ms : has F M k l ms -> has F M (snd (sys_alloc k)) l ms.
Proof. apply has_keep. split; [apply alloc_fds | apply alloc_maps]. Qed.

Lemma mmap_has F M k len fd off l ms :
  has F M k l ms ->
  match fst (sys_mmap k len fd off) with
  | ROk a => 0 <= a /\ has F M (snd (sys_mmap k len fd off)) l ((a, len) :: ms)
  | RErr e => 0 < e /\ has F M (snd (sys_mmap k len fd off)) l ms
  end.
Proof.
  intros (Ho & Hnd & Hm & Hd). destruct (mmap_gives k len fd off) as [Ef Hr].
  destruct (sys_mmap k len fd off) as [[a|e] k']; cbn [fst snd] in *.
  - destruct Hr as (Ha & Hnew & Em). split; [exact Ha|]. split; [exact (owns_keep _ _ _ _ Ef Ho)|].
    rewrite Hm in Hnew, Em. split; [constructor; [set_solver | exact Hnd]|]. split; set_solver.
  - destruct Hr as [He Em]. split; [exact He|].
    apply (has_keep F M k); [split; assumption|]. repeat split; assumption || apply Ho.
Qed.

Lemma munmap_has F M k a len l ms :
  has F M k l ((a, len) :: ms) -> has F M (snd (sys_munmap k a len)) l ms.
Proof.
  intros (Ho & Hnd & Hm & Hd). destruct (munmap_takes k a len) as [Ef Hr].
  apply NoDup_cons in Hnd as [Hni Hnd]. specialize (Hr ltac:(set_solver)).
  split; [exact (owns_keep _ _ _ _ Ef Ho)|]. split; [exact Hnd|]. split; [|set_solver].
  rewrite Hr, Hm. rewrite <- (elem_of_list_to_set (C := gset (Z * Z))) in Hni. set_solver.
Qed.

Lemma munmap_failed_has F M k len l ms :
  has F M k l ms -> has F M (snd (sys_munmap k (-1) len)) l ms.
Proof.
  apply has_keep. split; [exact (proj1 (munmap_takes k (-1) len)) | apply munmap_failed].
Qed.

Lemma get_offsets_has F M k fd l ms :
  has F M k l ms -> has F M (snd (xsk_get_mmap_offsets k fd)) l ms.
Proof.
  intros Hh. apply (has_keep F M k); [|exact Hh]. pose proof (mmap_offsets_keeps k fd) as Hk.
  unfold xsk_get_mmap_offsets. destruct (sys_mmap_offsets k fd) as [[[?|?] off] k']; [|exact Hk].
  destruct (_ =? 128); [exact Hk|]. destruct (_ =? 96); exact Hk.
Qed.

(** The offsets the code gets whenever it gets any. *)
Definition kernel_says (off : list Z) : Prop :=
  exists k fd k1, xsk_get_mmap_offsets k fd = (0, off, k1).

Lemma kernel_says_unique off off' : kernel_says off -> kernel_says off' -> off = off'.
Proof.
  intros (k & fd & k1 & E) (k' & fd' & k1' & E').
  unfold xsk_get_mmap_offsets in E, E'.
  destruct (sys_mmap_offsets k fd) as [[[?|?] w] k2] eqn:Ew; [|discriminate].
  destruct (sys_mmap_offsets k' fd') as [[[?|?] w'] k2'] eqn:Ew'; [|discriminate].
  rewrite <- (mmap_offsets_fixed _ _ _ _ _ _ _ _ _ _ Ew Ew') in E'.
  destruct (8 * zlen w =? 128); [congruence|]. destruct (8 * zlen w =? 96); congruence.
Qed.

(** The kernel tells the offsets whenever it is asked about the socket. *)
Definition offsets_told (fd : Z) : Prop := forall k, fst (fst (xsk_get_mmap_offsets k fd)) = 0.

(** The mapping a ring lies in. *)
Definition ring_mapping (off : ring_offset) (n entry : Z) (r : user_ring) : Z * Z :=
  (at_ring r - o_desc off, ring_bytes off n entry).

Lemma ring_mapping_set_up r n map off cached entry :
  ring_mapping off n entry (set_up_ring r n map off cached) = (map, ring_bytes off n entry).
Proof. unfold ring_mapping. cbn. f_equal. lia. Qed.

(** Packet memory [u] with its rings is among what is owned. *)
Definition umem_owned F M k fds ms (u : xsk_umem) (fill comp : user_ring) : Prop :=
  0 <= u_fd u /\ exists off, kernel_says off /\
  has F M k (u_fd u :: fds)
    (ring_mapping (off_cr (offsets_of off)) (comp_size (u_config u)) 8 comp ::
     ring_mapping (off_fr (offsets_of off)) (fill_size (u_config u)) 8 fill :: ms).

(** A failing call undoes what was done so far, up to a mapping [leak]. *)
Definition umem_failed F M (fds : list Z) ms (r : umem_result) (leak : list (Z * Z)) : Prop :=
  ur_umem r = None /\ has F M (ur_sys r) fds (leak ++ ms).

(** The mapping of the fill ring is left over when that of the completion
    ring fails. *)
Definition comp_map_failed (leak : list (Z * Z)) (err : Z) : Prop :=
  leak = [] \/ exists k len fd e m, leak = [m] /\
    fst (sys_mmap k len fd XDP_UMEM_PGOFF_COMPLETION_RING) = RErr e /\ err = - e.

#[local] Ltac sockopt_step Hs fails :=
  match goal with |- context [sys_setsockopt ?k ?fd ?o] =>
    pose proof (keeps_has _ _ _ _ _ _ (setsockopt_keeps k fd o) Hs) as [Hs' _];
    clear Hs; rename Hs' into Hs;
    destruct (sys_setsockopt k fd o) as [[?|?] ?]; cbn [fst snd] in Hs; [|fails]
  end.

(** The private halves of the rings after setting up, given what the caller
    had in them before. *)
Definition rings_start (cfg : xsk_umem_config) (fill0 comp0 : option user_ring)
    (fill comp : user_ring) : Prop :=
  exists f0 c0, fill0 = Some f0 /\ comp0 = Some c0 /\
  u_ring fill = mk_ring (cached_prod (u_ring f0)) (fill_size cfg) (u32 (fill_size cfg - 1)) (fill_size cfg) /\
  u_ring comp = mk_ring (cached_prod (u_ring c0)) (cached_cons (u_ring c0))
                  (u32 (comp_size cfg - 1)) (comp_size cfg).

Lemma umem_create_ok F M k l ms ptr area size fill comp cfg :
  has F M k l ms ->
  let r := xsk_umem__create_v0_0_4 k ptr area size fill comp cfg in
  (exists u f c, ur_umem r = Some u /\ ur_fill r = Some f /\ ur_comp r = Some c /\
     ur_err r = 0 /\ refcount u = 0 /\ umem_owned F M (ur_sys r) l ms u f c /\
     rings_start (u_config u) fill comp f c) \/
  (exists leak, umem_failed F M l ms r leak /\ comp_map_failed leak (ur_err r)).
Proof.
  intros Hh. unfold xsk_umem__create_v0_0_4.
  assert (Hnone : forall err fl co k', has F M k' l ms ->
    exists leak, umem_failed F M l ms (mk_ures err None fl co k') leak /\
      comp_map_failed leak (ur_err (mk_ures err None fl co k'))).
  { intros err fl co k' Hk'. exists []. split; [split; [reflexivity | exact Hk'] | by left]. }
  destruct fill as [f|]; [|right; by apply Hnone].
  destruct comp as [c|]; [|right; by apply Hnone].
  destruct ((area =? 0) || negb ptr); [right; by apply Hnone|].
  destruct ((size =? 0) && _); [right; by apply Hnone|].
  apply alloc_has in Hh. destruct (sys_alloc k) as [mem k1]; cbn [snd] in Hh.
  destruct mem; cbn [negb]; [|right; by apply Hnone].
  pose proof (gives_has _ _ _ _ _ _ (socket_gives k1 AF_XDP) Hh) as Hs.
  destruct (sys_socket k1 AF_XDP) as [[fd|e] k2]; cbn [fst snd] in Hs; [|right; apply Hnone; tauto].
  destruct Hs as [Hfd Hs]. clear Hh k k1.
  assert (Hout : forall err fl co k', has F M k' (fd :: l) ms ->
    exists leak, umem_failed F M l ms (mk_ures err None fl co (snd (sys_close k' fd))) leak /\
      comp_map_failed leak (ur_err (mk_ures err None fl co (snd (sys_close k' fd))))).
  { intros err fl co k' Hk'. apply Hnone. by apply close_has. }
  do 3 sockopt_step Hs ltac:(right; by apply Hout).
  set (cf := xsk_set_umem_config cfg).
  apply (get_offsets_has _ _ _ fd) in Hs.
  destruct (xsk_get_mmap_offsets _ fd) as [[err off] k3] eqn:Eoff; cbn [snd] in Hs.
  destruct (Z.eqb_spec err 0) as [->|]; cbn [negb]; [|right; by apply Hout].
  assert (Hsay : kernel_says off) by (do 3 eexists; exact Eoff).
  set (o := offsets_of off).
  set (fill_len := ring_bytes (off_fr o) (fill_size cf) 8).
  pose proof (mmap_has _ _ _ fill_len fd XDP_UMEM_PGOFF_FILL_RING _ _ Hs) as Hm.
  destruct (sys_mmap k3 _ fd _) as [[fm|e] k4]; cbn [fst snd] in Hm; [|right; apply Hout; tauto].
  destruct Hm as [_ Hm]. set (comp_len := ring_bytes (off_cr o) (comp_size cf) 8).
  pose proof (mmap_has _ _ _ comp_len fd XDP_UMEM_PGOFF_COMPLETION_RING _ _ Hm) as Hc.
  destruct (sys_mmap k4 _ fd _) as [[cm|e] k5] eqn:Emap; cbn [fst snd] in Hc.
  - left. do 3 eexists. do 5 (split; [reflexivity|]). split; [|by exists f, c]. split; [exact Hfd|].
    exists off. split; [exact Hsay|]. cbn [u_config ur_sys]. rewrite !ring_mapping_set_up. apply Hc.
  - right. destruct Hc as [_ Hc]. apply (munmap_failed_has _ _ _ fill_len) in Hc.
    destruct (sys_munmap k5 (-1) fill_len) as [rr k6]; cbn [snd] in Hc.
    exists [(fm, fill_len)]. split; [split; [reflexivity | by apply close_has]|].
    right. do 5 eexists. split; [reflexivity|]. split; [|reflexivity].
    by rewrite Emap.
Qed.

Lemma umem_delete_ok F M k l ms u f c :
  refcount u = 0 -> umem_owned F M k l ms u f c ->
  let '(err, freed, k') := xsk_umem__delete k (Some (u, f, c)) in
  err = 0 /\ freed = true /\
  exists left_over, has F M k' l (left_over ++ ms) /\
    (offsets_told (u_fd u) -> left_over = []).
Proof.
  intros Hr (Hfd & off & Hsay & Hh). unfold xsk_umem__delete. rewrite Hr. cbn [Z.eqb negb].
  pose proof (get_offsets_has _ _ _ (u_fd u) _ _ Hh) as Hg.
  destruct (xsk_get_mmap_offsets k (u_fd u)) as [[err w] k1] eqn:E; cbn [fst snd] in *.
  split; [reflexivity|]. split; [reflexivity|].
  destruct (Z.eqb_spec err 0) as [->|Hne].
  - assert (w = off) as -> by (eapply kernel_says_unique; [do 3 eexists; exact E | exact Hsay]).
    exists []. split; [|reflexivity]. rewrite perm_swap in Hg. apply munmap_has in Hg.
    destruct (sys_munmap k1 _ _) as [rr k2]; cbn [snd] in Hg. apply munmap_has in Hg.
    by apply close_has.
  - eexists [_; _]. split; [apply close_has; [exact Hfd | exact Hg]|].
    intros Ht. specialize (Ht k). rewrite E in Ht. done.
Qed.

(** * The program and its map *)

Lemma prog_load_has F M k a l ms :
  has F M k l ms ->
  match la_ret (fst (sys_prog_load k a)) with
  | ROk fd => 0 <= fd /\ has F M (snd (sys_prog_load k a)) (fd :: l) ms
  | RErr e => 0 < e /\ has F M (snd (sys_prog_load k a)) l ms
  end.
Proof.
  apply (gives_has F M k (la_ret (fst (sys_prog_load k a)), snd (sys_prog_load k a))).
  split; [apply prog_load_fds | apply prog_load_maps].
Qed.

Lemma load_program_has F M k a sz l ms :
  pa_log a = (0, 0) -> pa_func_cnt a = 0 -> pa_line_cnt a = 0 -> sz <> 0 -> has F M k l ms ->
  exists r text k', bpf_load_program_xattr k a true sz = Ok (r, text, k') /\
    match r with
    | ROk fd => 0 <= fd /\ has F M k' (fd :: l) ms
    | RErr e => has F M k' l ms
    end.
Proof.
  intros Hlog Hfc Hlc Hsz Hh. unfold bpf_load_program_xattr.
  rewrite Hlog, Hfc, Hlc. replace (sz =? 0) with false by lia. cbn [fst negb Bool.eqb].
  change (u32 0) with 0. cbn [Z.ltb Z.compare orb Z.eqb negb andb].
  match goal with |- context [sys_prog_load k ?b] =>
    pose proof (prog_load_has F M k b l ms Hh) as Hp; destruct (sys_prog_load k b) as [ans k1] end.
  cbn [fst snd] in Hp. destruct (la_ret ans) as [fd|e] eqn:Ea.
  { do 3 eexists. split; [reflexivity | exact Hp]. }
  cbn [fix_records]. rewrite Ea.
  cbn [pa_func_cnt pa_line_cnt set_func_info set_line_info Z.eqb negb andb orb].
  rewrite andb_true_r.
  match goal with |- context [if ?c then Ok (false, ?b, ans, k1) else Ok (false, ?b, ans, k1)] =>
    replace (if c then Ok (false, b, ans, k1) else Ok (false, b, ans, k1))
      with (@Ok (bool * prog_attr * load_answer * K) (false, b, ans, k1)) by (destruct c; reflexivity) end.
  cbn [mbind res_bind].
  match goal with |- context [sys_prog_load k1 ?b] =>
    pose proof (prog_load_has F M k1 b l ms (proj2 Hp)) as Hp2; destruct (sys_prog_load k1 b) as [ans2 k2] end.
  cbn [fst snd] in Hp2. do 3 eexists. split; [reflexivity|]. destruct (la_ret ans2); [exact Hp2 | tauto].
Qed.

Lemma load_xdp_prog_ok F M k x l ms :
  has F M k l ms ->
  exists err x' k', xsk_load_xdp_prog k x = Ok (err, x', k') /\
    (err = 0 -> exists fd, x' = set_prog_fd fd x /\ 0 <= fd /\ has F M k' (fd :: l) ms) /\
    (err <> 0 -> x' = x /\ has F M k' l ms).
Proof.
  intros Hh. unfold xsk_load_xdp_prog, bpf_load_program.
  match goal with |- context [bpf_load_program_xattr k ?a true ?sz] =>
    destruct (load_program_has F M k a sz l ms) as (r & text & k1 & -> & Hr);
      [reflexivity.. | lia | exact Hh |] end.
  cbn [mbind res_bind]. destruct r as [fd|e].
  2:{ do 3 eexists. split; [reflexivity|]. split; [lia | tauto]. }
  destruct Hr as [Hfd Hr].
  destruct (set_link_keeps k1 (x_ifindex x) fd (xdp_flags (x_config x))) as (err & k2 & -> & Hk).
  apply (has_keep _ _ _ _ _ _ Hk) in Hr. cbn [mbind res_bind].
  destruct (Z.eqb_spec err 0) as [->|Hne]; cbn [negb].
  - do 3 eexists. split; [reflexivity|]. split; [|done]. eauto.
  - do 3 eexists. split; [reflexivity|]. split; [done|]. split; [done | by apply close_has].
Qed.

Lemma max_queues_ok F M k x l ms :
  has F M k l ms -> has F M (snd (xsk_get_max_queues k x)) l ms.
Proof.
  intros Hh. unfold xsk_get_max_queues.
  pose proof (gives_has _ _ _ _ _ _ (socket_gives k AF_INET) Hh) as Hs.
  destruct (sys_socket k AF_INET) as [[fd|e] k1]; cbn [fst snd] in *; [|tauto].
  destruct Hs as [Hfd Hs].
  match goal with |- context [sys_channels k1 fd ?n] =>
    destruct (channels_keeps k1 fd n) as [Hk _]; destruct (sys_channels k1 fd n) as [[r mc] k2] end.
  cbn [fst snd] in *. apply close_has; [exact Hfd|]. by apply (has_keep F M k1).
Qed.

Lemma create_bpf_maps_ok F M k x l ms :
  has F M k l ms ->
  let '(err, x', k') := xsk_create_bpf_maps k x in
  (err = 0 -> exists fd, x' = set_map_fd fd x /\ 0 <= fd /\ has F M k' (fd :: l) ms) /\
  (err <> 0 -> x' = x /\ has F M k' l ms).
Proof.
  intros Hh. unfold xsk_create_bpf_maps, bpf_create_map_name. apply (max_queues_ok _ _ _ x) in Hh.
  destruct (xsk_get_max_queues k x) as [mq k1]; cbn [snd] in Hh.
  destruct (Z.ltb_spec mq 0); [split; [lia | auto]|].
  match goal with |- context [bpf_create_map_xattr k1 ?a] =>
    assert (Hg : gives k1 (bpf_create_map_xattr k1 a))
      by (split; [apply map_create_fds | apply map_create_maps]);
    pose proof (gives_has _ _ _ _ _ _ Hg Hh) as Hm; destruct (bpf_create_map_xattr k1 a) as [[fd|e] k2] end;
    cbn [fst snd] in Hm; split; try done; try tauto. eauto.
Qed.

Lemma delete_bpf_maps_ok F M k x l ms :
  0 <= xsks_map_fd x -> has F M k (xsks_map_fd x :: l) ms -> has F M (xsk_delete_bpf_maps k x) l ms.
Proof.
  intros Hfd Hh. unfold xsk_delete_bpf_maps.
  destruct (keeps_has _ _ _ _ _ _ (delete_elem_keeps k (xsks_map_fd x) (le_bytes 4 (queue_id x))) Hh) as [Hd _].
  destruct (sys_map_delete_elem _ _ _) as [r k1]. by apply close_has.
Qed.

(** A descriptor of a map that has the name of the socket map. *)
Definition named_xsks_map (fd : Z) : Prop :=
  0 <= fd /\ exists k info, sys_obj_info k fd = Some info /\ in_name info = "xsks_map"%string.

(** The loop keeps the descriptors of all maps with the name, the last one
    in the socket. *)
Lemma lookup_loop_ok F M ms ids n : forall k i x l,
  0 <= i -> i + Z.of_nat n <= zlen ids -> has F M k l ms ->
  exists found k', lookup_loop n k ids i x = Ok (set_map_fd (hd (xsks_map_fd x) found) x, k') /\
    has F M k' (found ++ l) ms /\ Forall named_xsks_map found.
Proof.
  induction n as [|n IH]; intros k i x l Hi Hn Hh; cbn [lookup_loop].
  { exists [], k. split; [by destruct x | auto]. }
  destruct (aget_in ids i) as [id ->]; [lia|]. cbn [mbind res_bind].
  pose proof (gives_has _ _ _ _ _ _ (map_fd_by_id_gives k id) Hh) as Hg.
  destruct (sys_map_fd_by_id k id) as [[fd|e] k1]; cbn [fst snd] in Hg.
  2:{ apply IH; [lia | lia | tauto]. }
  destruct Hg as [Hfd Hg].
  destruct (sys_obj_info k1 fd) as [info|] eqn:Einfo.
  2:{ apply IH; [lia | lia | by apply close_has]. }
  destruct (String.eqb_spec (in_name info) "xsks_map") as [Hname|_].
  2:{ apply IH; [lia | lia | by apply close_has]. }
  destruct (IH k1 (i + 1) (set_map_fd fd x) (fd :: l)) as (found & k' & E & Hf & Hall);
    [lia | lia | exact Hg |].
  exists (found ++ [fd]), k'. rewrite E. split; [|split].
  - f_equal. f_equal. destruct found; reflexivity.
  - rewrite <- app_assoc. exact Hf.
  - apply Forall_app. split; [exact Hall|]. apply Forall_singleton. split; eauto.
Qed.

Lemma lookup_bpf_maps_ok F M k x l ms :
  has F M k l ms ->
  exists err x' k', xsk_lookup_bpf_maps k x = Ok (err, x', k') /\ prog_fd x' = prog_fd x /\
    (err = 0 -> exists fd leaked, x' = set_map_fd fd x /\ 0 <= fd /\
       has F M k' (fd :: leaked ++ l) ms /\ Forall named_xsks_map leaked) /\
    (err <> 0 -> has F M k' l ms).
Proof.
  intros Hh. unfold xsk_lookup_bpf_maps.
  pose proof (has_keep _ _ _ _ _ _ (prog_maps_keeps k (prog_fd x) 0) Hh) as Hh1.
  destruct (sys_prog_maps k (prog_fd x) 0) as [[[[r|e] n] l0] k1] eqn:E1; cbn [snd] in Hh1.
  2:{ do 3 eexists. split; [reflexivity|]. split; [reflexivity|]. split; [done | auto]. }
  apply alloc_has in Hh1. pose proof (fun r2 n2 l2 k2 => prog_maps_same _ _ _ _ _ _ r2 n2 l2 k2 E1) as Hsame.
  destruct (sys_alloc k1) as [mem k2]; cbn [snd] in *.
  destruct mem; cbn [negb].
  2:{ do 3 eexists. split; [reflexivity|]. split; [reflexivity|]. split; [done | auto]. }
  pose proof (has_keep _ _ _ _ _ _ (prog_maps_keeps k2 (prog_fd x) n) Hh1) as Hh2.
  destruct (sys_prog_maps k2 (prog_fd x) n) as [[[[r2|e2] n2] l2] k3] eqn:E2; cbn [snd] in Hh2.
  2:{ do 3 eexists. split; [reflexivity|]. split; [reflexivity|]. split; [done | auto]. }
  pose proof (Hsame _ _ _ _ eq_refl) as ->. set (ids := take _ _).
  assert (Hlen : zlen ids = Z.of_nat (Z.to_nat n))
    by (unfold ids, zlen; rewrite length_take, length_app, length_replicate; lia).
  destruct (lookup_loop_ok F M ms ids (Z.to_nat n) k3 0 (set_map_fd (-1) x) l)
    as (found & k' & -> & Hf & Hall); [lia | lia | exact Hh2 |].
  cbn [mbind res_bind]. do 3 eexists. split; [reflexivity|]. split; [reflexivity|].
  destruct found as [|fd leaked]; cbn [hd xsks_map_fd set_map_fd].
  - rewrite Z.eqb_refl. split; [done | auto].
  - apply Forall_cons in Hall as [[Hfd _] Hall]. replace (fd =? -1) with false by lia.
    split; [|done]. intros _. exists fd, leaked. auto.
Qed.

Lemma set_bpf_maps_ok F M k x l ms :
  has F M k l ms -> has F M (snd (xsk_set_bpf_maps k x)) l ms.
Proof.
  intros Hh. unfold xsk_set_bpf_maps.
  match goal with |- context [sys_map_update_elem k ?f ?a ?b] =>
    destruct (keeps_has _ _ _ _ _ _ (update_elem_keeps k f a b) Hh) as [Hu _];
    destruct (sys_map_update_elem k f a b) as [[?|?] k1] end; exact Hu.
Qed.

(** What [xsk_setup_xdp_prog] leaves: the program and the map in the
    socket, and [leaked], the descriptors of further maps of the name. *)
Definition set_up_with F M k (x x' : xsk_socket) leaked fds ms : Prop :=
  exists pfd mfd, x' = set_prog_fd pfd (set_map_fd mfd x) /\ 0 <= pfd /\ 0 <= mfd /\
    has F M k (pfd :: mfd :: leaked ++ fds) ms.

Lemma obtain_xdp_prog_ok F M k x id l ms :
  has F M k l ms ->
  exists err x' k' leaked, obtain_xdp_prog k x id = Ok (err, x', k') /\
    Forall named_xsks_map leaked /\
    (err = 0 -> set_up_with F M k' x x' leaked l ms) /\
    (err <> 0 -> has F M k' (leaked ++ l) ms).
Proof.
  intros Hh. unfold obtain_xdp_prog.
  destruct (id =? 0).
  - pose proof (create_bpf_maps_ok F M k x l ms Hh) as Hc.
    destruct (xsk_create_bpf_maps k x) as [[err x1] k2]. destruct Hc as [Hok Hbad].
    destruct (Z.eqb_spec err 0) as [->|Hne]; cbn [negb].
    2:{ do 3 eexists. exists []. split; [reflexivity|]. split; [constructor|]. split; [done | apply Hbad]. }
    destruct (Hok eq_refl) as (mfd & -> & Hmfd & Hc). clear Hok Hbad.
    destruct (load_xdp_prog_ok F M k2 (set_map_fd mfd x) (mfd :: l) ms Hc)
      as (err & x2 & k3 & -> & Hok & Hbad). cbn [mbind res_bind].
    destruct (Z.eqb_spec err 0) as [->|Hne]; cbn [negb].
    + destruct (Hok eq_refl) as (pfd & -> & Hpfd & Hl).
      do 3 eexists. exists []. split; [reflexivity|]. split; [constructor|]. split; [|done].
      intros _. exists pfd, mfd. auto.
    + destruct (Hbad Hne) as [-> Hl]. do 3 eexists. exists []. split; [reflexivity|].
      split; [constructor|]. split; [done|]. intros _. apply delete_bpf_maps_ok; assumption.
  - pose proof (gives_has _ _ _ _ _ _ (prog_fd_by_id_gives k id) Hh) as Hg.
    destruct (sys_prog_fd_by_id k id) as [[pfd|e] k2]; cbn [fst snd] in Hg.
    2:{ do 3 eexists. exists []. split; [reflexivity|]. split; [constructor|]. split; [lia | tauto]. }
    destruct Hg as [Hpfd Hg].
    destruct (lookup_bpf_maps_ok F M k2 (set_prog_fd pfd x) (pfd :: l) ms Hg)
      as (err & x1 & k3 & -> & Hp & Hok & Hbad). cbn [mbind res_bind].
    destruct (Z.eqb_spec err 0) as [->|Hne]; cbn [negb].
    + destruct (Hok eq_refl) as (mfd & leaked & -> & Hmfd & Hl & Hall).
      do 3 eexists. exists leaked. split; [reflexivity|]. split; [exact Hall|]. split; [|done].
      intros _. exists pfd, mfd. split; [reflexivity|]. split; [exact Hpfd|]. split; [exact Hmfd|].
      rewrite perm_swap, Permutation_middle. exact Hl.
    + do 3 eexists. exists []. split; [reflexivity|]. split; [constructor|]. split; [done|].
      intros _. rewrite Hp. apply close_has; [exact Hpfd | exact (Hbad Hne)].
Qed.

Lemma setup_xdp_prog_ok F M k x rx l ms :
  has F M k l ms ->
  exists err x' k' leaked, xsk_setup_xdp_prog k x rx = Ok (err, x', k') /\
    Forall named_xsks_map leaked /\
    (err = 0 -> set_up_with F M k' x x' leaked l ms) /\
    (err <> 0 -> has F M k' (leaked ++ l) ms).
Proof.
  intros Hh. unfold xsk_setup_xdp_prog.
  destruct (get_link_keeps k (x_ifindex x) (xdp_flags (x_config x))) as (err & id & k1 & -> & Hk).
  apply (has_keep _ _ _ _ _ _ Hk) in Hh. cbn [mbind res_bind].
  destruct (Z.eqb_spec err 0) as [->|Hne]; cbn [negb].
  2:{ do 3 eexists. exists []. split; [reflexivity|]. split; [constructor|]. split; [done | auto]. }
  destruct (obtain_xdp_prog_ok F M k1 x id l ms Hh) as (err & x1 & k2 & leaked & -> & Hall & Hok & Hbad).
  cbn [mbind res_bind].
  destruct (Z.eqb_spec err 0) as [->|Hne]; cbn [negb].
  2:{ do 3 eexists. exists leaked. split; [reflexivity|]. split; [exact Hall|]. split; [done | auto]. }
  destruct (Hok eq_refl) as (pfd & mfd & -> & Hpfd & Hmfd & Hl). clear Hok Hbad.
  assert (Hs : exists err k3, (if rx then xsk_set_bpf_maps k2 (set_prog_fd pfd (set_map_fd mfd x))
    else (0, k2)) = (err, k3) /\ has F M k3 (pfd :: mfd :: leaked ++ l) ms).
  { destruct rx; [|eauto]. apply (set_bpf_maps_ok _ _ _ (set_prog_fd pfd (set_map_fd mfd x))) in Hl.
    destruct (xsk_set_bpf_maps _ _) as [err k3]. eauto. }
  destruct Hs as (err & k3 & -> & Hs).
  destruct (Z.eqb_spec err 0) as [->|Hne]; cbn [negb]; do 3 eexists; exists leaked;
    (split; [reflexivity|]; split; [exact Hall|]; split; [|try done]).
  - intros _. exists pfd, mfd. auto.
  - done.
  - intros _. apply close_has; [exact Hpfd|]. rewrite perm_swap in Hs.
    by apply delete_bpf_maps_ok.
Qed.

(** * Sockets *)

(** The mapping of a ring, if there is one. *)
Definition opt_mapping (off : ring_offset) (n : Z) (r : option user_ring) : list (Z * Z) :=
  match r with Some r => [ring_mapping off n desc_sz r] | None => [] end.
Definition sock_mappings (o : mmap_offsets) (cfg : xsk_socket_config) (rx tx : option user_ring)
    : list (Z * Z) :=
  opt_mapping (off_tx o) (tx_size cfg) tx ++ opt_mapping (off_rx o) (rx_size cfg) rx.
(** The descriptors of the program and the map, if the socket has them. *)
Definition sock_prog_fds (x : xsk_socket) : list Z :=
  if prog_fd x =? -1 then [] else [prog_fd x; xsks_map_fd x].
(** A socket with a descriptor of its own, or with that of the memory. *)
Definition own_fd (u : xsk_umem) (x : xsk_socket) : list Z :=
  if x_fd x =? u_fd u then [] else [x_fd x].

Lemma set_ring_size_ok F M k fd asked opt l ms :
  has F M k l ms -> has F M (snd (set_ring_size k fd asked opt)) l ms.
Proof.
  intros Hh. unfold set_ring_size. destruct asked; [|exact Hh].
  destruct (keeps_has _ _ _ _ _ _ (setsockopt_keeps k fd opt) Hh) as [Hk _].
  destruct (sys_setsockopt k fd opt) as [[?|?] ?]; exact Hk.
Qed.

Lemma map_ring_ok F M k fd pgoff off n r cached l ms :
  has F M k l ms ->
  let '(err, r', base, k') := map_ring k fd pgoff off n r cached in
  (err = 0 -> has F M k' l (opt_mapping off n r' ++ ms) /\
     (* and it can be undone *)
     forall k2 l2 ms2, has F M k2 l2 (opt_mapping off n r' ++ ms2) ->
       has F M (if bool_decide (is_Some r') then unmap_ring k2 base off n else k2) l2 ms2) /\
  (err <> 0 -> has F M k' l ms).
Proof.
  intros Hh. unfold map_ring. destruct r as [r|]; [|split; [|done]; intros _; split; auto].
  pose proof (mmap_has F M k (ring_bytes off n desc_sz) fd pgoff l ms Hh) as Hm.
  destruct (sys_mmap k _ fd pgoff) as [[a|e] k1]; cbn [fst snd] in Hm; split; try done; try lia; try tauto.
  intros _. cbn [opt_mapping]. rewrite ring_mapping_set_up. split; [tauto|].
  intros k2 l2 ms2. apply munmap_has.
Qed.

Definition prog_fds_valid (x : xsk_socket) : Prop :=
  prog_fd x = -1 \/ 0 <= prog_fd x /\ 0 <= xsks_map_fd x.

Lemma bind_socket_ok F M k x umem rx l ms :
  has F M k l ms ->
  exists err x' k' leaked, bind_socket k x umem rx = Ok (err, x', k') /\
    Forall named_xsks_map leaked /\
    (err = 0 -> x_fd x' = x_fd x /\ x_config x' = x_config x /\ prog_fds_valid x' /\
       has F M k' (sock_prog_fds x' ++ leaked ++ l) ms) /\
    (err <> 0 -> has F M k' (leaked ++ l) ms).
Proof.
  intros Hh. unfold bind_socket. set (a := if 1 <? refcount umem then _ else _).
  destruct (keeps_has _ _ _ _ _ _ (bind_keeps k (x_fd x) a) Hh) as [Hb He].
  destruct (sys_bind k (x_fd x) a) as [[v|e] k1]; cbn [fst snd] in *.
  2:{ do 3 eexists. exists []. split; [reflexivity|]. split; [constructor|]. split; [lia | auto]. }
  destruct (inhibits _).
  { do 3 eexists. exists []. split; [reflexivity|]. split; [constructor|]. split; [|done]. intros _.
    do 2 (split; [reflexivity|]). split; [by left | exact Hb]. }
  destruct (setup_xdp_prog_ok F M k1 (set_prog_fd (-1) x) rx l ms Hb)
    as (err & x' & k' & leaked & -> & Hall & Hok & Hbad).
  exists err, x', k', leaked. split; [reflexivity|]. split; [exact Hall|].
  split; [|exact Hbad]. intros He0. destruct (Hok He0) as (pfd & mfd & -> & Hp & Hm & Hl).
  split; [reflexivity|]. split; [reflexivity|]. split; [by right|].
  unfold sock_prog_fds. cbn [prog_fd set_prog_fd].
  replace (pfd =? -1) with false by lia. exact Hl.
Qed.

(** What creating a socket comes to. [fds] are other descriptors, [own] is
    the socket's own one if it has one. *)
Definition socket_result F M (cfg : xsk_socket_config) fd (umem : xsk_umem)
    (own fds : list Z) ms (r : sock_result) : Prop :=
  exists leaked, Forall named_xsks_map leaked /\
  match sr_sock r with
  | Some x =>
      sr_err r = 0 /\ x_fd x = fd /\ x_config x = cfg /\ prog_fds_valid x /\ sr_umem r = Some umem /\
      exists off, kernel_says off /\
        has F M (sr_sys r) (sock_prog_fds x ++ leaked ++ own ++ fds)
          (sock_mappings (offsets_of off) cfg (sr_rx r) (sr_tx r) ++ ms)
  | None =>
      sr_umem r = Some (set_refcount (refcount umem - 1) umem) /\
      has F M (sr_sys r) (leaked ++ fds) ms
  end.

Lemma socket_rest_ok F M k x ifname umem rx tx fds ms (shared : bool) name :
  let own := if shared then [x_fd x] else [] in
  (shared = true <-> refcount umem <> 1) -> 0 <= x_fd x ->
  c_string ifname = Ok name -> IFNAMSIZ - 1 <= zlen ifname ->
  has F M k (own ++ fds) ms ->
  exists r, socket_rest k x ifname umem rx tx = Ok r /\
    socket_result F M (x_config x) (x_fd x) umem own fds ms r.
Proof.
  intros own Hshared Hfd Hname Hlen Hh. unfold socket_rest.
  assert (Hout : forall err rx tx k' leaked, Forall named_xsks_map leaked ->
    has F M k' (leaked ++ own ++ fds) ms ->
    socket_result F M (x_config x) (x_fd x) umem own fds ms
      (mk_sres err None rx tx (Some (set_refcount (refcount umem - 1) umem))
         (if negb (refcount (set_refcount (refcount umem - 1) umem) =? 0)
          then snd (sys_close k' (x_fd x)) else k'))).
  { intros err rx' tx' k' leaked Hall Hk'. exists leaked. split; [exact Hall|]. split; [reflexivity|].
    cbn [sr_sys refcount set_refcount]. destruct (Z.eqb_spec (refcount umem - 1) 0) as [Hz|Hz]; cbn [negb].
    - destruct shared; [exfalso; lia | exact Hk'].
    - destruct shared; [|exfalso; destruct Hshared as [_ Hs]; discriminate (Hs ltac:(lia))].
      apply close_has; [exact Hfd|]. unfold own in Hk'. by rewrite Permutation_middle. }
  assert (Hout0 : forall err rx tx k', has F M k' (own ++ fds) ms ->
    exists r, Ok (mk_sres err None rx tx (Some (set_refcount (refcount umem - 1) umem))
      (if negb (refcount (set_refcount (refcount umem - 1) umem) =? 0)
       then snd (sys_close k' (x_fd x)) else k')) = Ok r /\
      socket_result F M (x_config x) (x_fd x) umem own fds ms r).
  { intros err rx' tx' k' Hk'. eexists. split; [reflexivity|]. by apply (Hout _ _ _ _ []). }
  rewrite Hname. cbn [mbind res_bind].
  destruct (keeps_has _ _ _ _ _ _ (nametoindex_keeps k name) Hh) as [Hi _].
  destruct (sys_if_nametoindex k name) as [[ifindex|e] k1]; cbn [snd] in Hi; [|by apply Hout0].
  rewrite mread_Ok by (unfold in_block; unfold IFNAMSIZ in *; lia). cbn [mbind res_bind].
  set (x1 := mk_sock _ _ _ _ _ _ _ _).
  do 2 (match goal with |- context [set_ring_size ?k ?f ?b ?o] =>
    apply (set_ring_size_ok F M k f b o) in Hi; destruct (set_ring_size k f b o) as [? ?]; cbn [snd] in Hi end;
    match goal with |- context [negb (?e =? 0)] => destruct (e =? 0); cbn [negb]; [|by apply Hout0] end).
  apply (get_offsets_has _ _ _ (x_fd x)) in Hi.
  destruct (xsk_get_mmap_offsets _ (x_fd x)) as [[err off] k3] eqn:Eoff; cbn [snd] in Hi.
  destruct (Z.eqb_spec err 0) as [->|]; cbn [negb]; [|by apply Hout0].
  assert (Hsay : kernel_says off) by (do 3 eexists; exact Eoff). clear Eoff.
  match goal with |- context [map_ring ?k ?f ?p ?o ?n rx ?c] =>
    pose proof (map_ring_ok F M k f p o n rx c _ ms Hi) as Hrx;
    destruct (map_ring k f p o n rx c) as [[[err rx1] rxm] k4] end.
  destruct Hrx as (Hrx & Hrxbad).
  destruct (Z.eqb_spec err 0) as [->|Hne]; cbn [negb]; [|apply Hout0; auto].
  destruct (Hrx eq_refl) as [Hr Hundo_rx]. clear Hrx Hrxbad Hi.
  match goal with |- context [map_ring ?k ?f ?p ?o ?n tx ?c] =>
    pose proof (map_ring_ok F M k f p o n tx c _ _ Hr) as Htx;
    destruct (map_ring k f p o n tx c) as [[[err tx1] txm] k5] end.
  destruct Htx as (Htx & Htxbad).
  destruct (Z.eqb_spec err 0) as [->|Hne]; cbn [negb]; [|apply Hout0, Hundo_rx; auto].
  destruct (Htx eq_refl) as [Ht Hundo_tx]. clear Htx Htxbad Hr.
  destruct (bind_socket_ok F M k5 x1 umem (bool_decide (is_Some rx1)) _ _ Ht)
    as (err & x2 & k6 & leaked & -> & Hall & Hok & Hbad). cbn [mbind res_bind].
  destruct (Z.eqb_spec err 0) as [->|Hne]; cbn [negb]; eexists; (split; [reflexivity|]).
  - destruct (Hok eq_refl) as (Hx2 & Hc2 & Hv2 & Hb). exists leaked. split; [exact Hall|]. cbn [sr_sock].
    do 5 (split; [first [exact Hx2 | exact Hc2 | exact Hv2 | reflexivity]|]).
    exists off. split; [exact Hsay|]. unfold sock_mappings. rewrite <- app_assoc. exact Hb.
  - apply (Hout _ _ _ _ leaked Hall). apply Hundo_rx, Hundo_tx. exact (Hbad Hne).
Qed.

Lemma unmap_opt_ok F M k off n r l ms :
  has F M k l (opt_mapping off n r ++ ms) ->
  has F M (match r with
           | Some r => unmap_ring k (at_ring r - o_desc off) off n
           | None => k
           end) l ms.
Proof. destruct r as [r|]; [apply munmap_has | auto]. Qed.

(** Deleting a socket gives back what it owns; if the kernel does not tell
    the offsets any more its mappings stay. *)
Lemma socket_delete_ok F M k x rx tx u fds ms off :
  kernel_says off -> 0 <= x_fd x ->
  prog_fds_valid x ->
  has F M k (sock_prog_fds x ++ own_fd u x ++ fds)
    (sock_mappings (offsets_of off) (x_config x) rx tx ++ ms) ->
  let '(u', k') := xsk_socket__delete k (Some x) rx tx u in
  u' = set_refcount (refcount u - 1) u /\
  exists left_over, has F M k' fds (left_over ++ ms) /\ (offsets_told (x_fd x) -> left_over = []).
Proof.
  intros Hsay Hfd Hprog Hh. unfold xsk_socket__delete.
  set (k1 := if negb (prog_fd x =? -1) then _ else k).
  assert (Hk1 : has F M k1 (own_fd u x ++ fds)
    (sock_mappings (offsets_of off) (x_config x) rx tx ++ ms)).
  { unfold k1, sock_prog_fds in *. destruct (Z.eqb_spec (prog_fd x) (-1)) as [_|Hne]; [exact Hh|].
    destruct Hprog as [Hp|[Hp Hm]]; [contradiction|]. cbn [negb app] in *.
    apply close_has; [exact Hp|]. apply delete_bpf_maps_ok; [exact Hm|].
    rewrite perm_swap. exact Hh. }
  apply (get_offsets_has _ _ _ (x_fd x)) in Hk1.
  destruct (xsk_get_mmap_offsets k1 (x_fd x)) as [[err w] k2] eqn:E; cbn [snd] in Hk1.
  set (o := offsets_of w).
  split; [reflexivity|].
  assert (Hclose : forall k' ms', has F M k' (own_fd u x ++ fds) ms' ->
    has F M (if negb (x_fd x =? u_fd u) then snd (sys_close k' (x_fd x)) else k') fds ms').
  { intros k' ms' Hk'. unfold own_fd in Hk'. destruct (x_fd x =? u_fd u); [exact Hk'|].
    cbn [negb app] in *. by apply close_has. }
  destruct (Z.eqb_spec err 0) as [->|Hne].
  - assert (w = off) as -> by (eapply kernel_says_unique; [do 3 eexists; exact E | exact Hsay]).
    exists []. split; [|done]. cbn [u_fd set_refcount]. apply Hclose.
    apply unmap_opt_ok, unmap_opt_ok. unfold sock_mappings in Hk1.
    rewrite <- app_assoc, (Permutation_app_swap_app (opt_mapping _ _ tx)) in Hk1. exact Hk1.
  - eexists. split; [by apply Hclose|]. intros Ht. specialize (Ht k1). rewrite E in Ht. done.
Qed.

(** Whether the packet memory is already used by a socket. *)
Definition shared_umem (u : xsk_umem) : bool := 0 <? refcount u.

(** What creating a socket comes to, whether it succeeds or not. *)
Definition created F M (u : xsk_umem) ms (r : sock_result) leaked : Prop :=
  Forall named_xsks_map leaked /\
  match sr_sock r with
  | Some x =>
      sr_err r = 0 /\ 0 <= x_fd x /\ (shared_umem u = false -> x_fd x = u_fd u) /\
      prog_fds_valid x /\
      sr_umem r = Some (set_refcount (refcount u + 1) u) /\
      exists off, kernel_says off /\
        has F M (sr_sys r) (sock_prog_fds x ++ leaked ++ (if shared_umem u then [x_fd x] else []))
          (sock_mappings (offsets_of off) (x_config x) (sr_rx r) (sr_tx r) ++ ms)
  | None =>
      has F M (sr_sys r) leaked ms /\
      (sr_umem r = Some u \/
       (* the descriptor of a second socket could not be had *)
       shared_umem u = true /\ sr_umem r = Some (set_refcount (refcount u + 1) u) /\
       exists k' e, fst (sys_socket k' AF_XDP) = RErr e /\ sr_err r = - e)
  end.

Lemma socket_create_ok F M k ifname name queue u rx tx cfg ms :
  0 <= refcount u -> 0 <= u_fd u ->
  c_string ifname = Ok name -> IFNAMSIZ - 1 <= zlen ifname ->
  has F M k [] ms ->
  exists r leaked, xsk_socket__create k true ifname queue (Some u) rx tx cfg = Ok r /\
    created F M u ms r leaked.
Proof.
  intros Href Hufd Hname Hlen Hh. unfold xsk_socket__create.
  assert (Hfail : forall err k', has F M k' [] ms -> exists r leaked,
    Ok (mk_sres err None rx tx (Some u) k') = Ok r /\ created F M u ms r leaked).
  { intros err k' Hk'. exists (mk_sres err None rx tx (Some u) k'), []. split; [reflexivity|].
    split; [constructor|]. split; [exact Hk' | left; reflexivity]. }
  destruct (negb true || _); [by apply Hfail|].
  apply alloc_has in Hh. destruct (sys_alloc k) as [mem k1]; cbn [snd] in Hh.
  destruct mem; cbn [negb]; [|by apply Hfail].
  destruct (xsk_set_xdp_socket_config cfg) as [err [cf|]]; [|by apply Hfail].
  destruct (negb (refcount u =? 0) && _); [by apply Hfail|].
  fold (shared_umem u). set (u1 := set_refcount (refcount u + 1) u).
  assert (Hrest : forall fd k2, 0 <= fd -> (shared_umem u = false -> fd = u_fd u) ->
    has F M k2 (if shared_umem u then [fd] else []) ms -> exists r leaked,
    socket_rest k2 (mk_sock 0 cf fd 0 0 0 queue (replicate 16 NUL)) ifname u1 rx tx = Ok r /\
    created F M u ms r leaked).
  { intros fd k2 Hfd Hown Hk2.
    destruct (socket_rest_ok F M k2 (mk_sock 0 cf fd 0 0 0 queue (replicate 16 NUL)) ifname u1 rx tx
      [] ms (shared_umem u) name) as (r & -> & leaked & Hall & Hr);
      [unfold u1, shared_umem; cbn [refcount set_refcount]; destruct (Z.ltb_spec 0 (refcount u));
         split; intros; try done; lia | exact Hfd | exact Hname | exact Hlen | by rewrite app_nil_r |].
    exists r, leaked. split; [reflexivity|]. split; [exact Hall|].
    destruct (sr_sock r) as [x|].
    - destruct Hr as (He & Hx & Hc & Hv & Hu & off & Hsay & Hr). cbn [x_fd x_config] in *. subst fd cf.
      split; [exact He|]. split; [exact Hfd|]. split; [exact Hown|]. split; [exact Hv|].
      split; [exact Hu|]. exists off. split; [exact Hsay|]. by rewrite app_nil_r in Hr.
    - destruct Hr as [Hu Hr]. rewrite app_nil_r in Hr. split; [exact Hr|]. left. rewrite Hu.
      unfold u1, set_refcount. cbn. f_equal. destruct u as [ar co ff rc]; cbn. f_equal. lia. }
  destruct (shared_umem u) eqn:Esh; [|by apply Hrest].
  pose proof (gives_has _ _ _ _ _ _ (socket_gives k1 AF_XDP) Hh) as Hs.
  destruct (sys_socket k1 AF_XDP) as [[fd|e] k2] eqn:Esock; cbn [fst snd] in Hs.
  - apply Hrest; [apply Hs | done | apply Hs].
  - eexists _, []. split; [reflexivity|]. split; [constructor|]. split; [apply Hs|]. right.
    split; [exact Esh|]. split; [reflexivity|]. exists k1, e. by rewrite Esock.
Qed.
End res.
