(* ===== verification/XskProps.v ===== *)
(** What creating and deleting AF_XDP sockets guarantees, and a small kernel
    that keeps to the laws relied on. *)
From S2P Require Import Prelude CLib XdpLink LibbpfObj LibbpfLoad LibbpfRes XskRing XskRingProps XskProg Xsk XskRes.
#[local] Open Scope Z_scope.

(** * A kernel for the examples *)

(** Descriptors, mappings, devices; [comp_fails] makes the mapping of
    completion rings fail. *)
Record xdemo := mk_xdemo {
  xd_fds : gset Z; xd_maps : gset (Z * Z); xd_devs : devices; comp_fails : bool
}.
Definition set_xd_fds (X : gset Z) (d : xdemo) : xdemo :=
  mk_xdemo X (xd_maps d) (xd_devs d) (comp_fails d).
Definition set_xd_maps (X : gset (Z * Z)) (d : xdemo) : xdemo :=
  mk_xdemo (xd_fds d) X (xd_devs d) (comp_fails d).

Definition above (l : list Z) : Z := foldr Z.max 0 l + 1.
Lemma above_lt l x : x ∈ l -> x < above l.
Proof. unfold above. induction 1 as [x l|x y l _ IH]; cbn; lia. Qed.
Lemma above_pos l : 0 < above l.
Proof. unfold above. induction l; cbn; lia. Qed.

Definition xd_open (d : xdemo) : sysret * xdemo :=
  let fd := above (elements (xd_fds d)) in (ROk fd, set_xd_fds ({[ fd ]} ∪ xd_fds d) d).
Definition xd_close (d : xdemo) (fd : Z) : sysret * xdemo :=
  if decide (fd ∈ xd_fds d) then (ROk 0, set_xd_fds (xd_fds d ∖ {[ fd ]}) d) else (RErr 9, d).

#[export] Instance xdemo_sys : BpfSys xdemo := {|
  open_fds := xd_fds;
  sys_errno _ := ENOMEM;
  sys_alloc d := (true, d);
  sys_obj_get d _ := (RErr ENOENT, d);
  sys_obj_info d fd :=
    Some (if fd =? 9 then mk_info "events" 4 4 4 8 0 0 0 else mk_info "xsks_map" 17 4 4 1 0 0 0);
  sys_open_root := xd_open;
  sys_dup3 d fd new := (RErr 9, d);
  sys_close := xd_close;
  sys_mkdir d _ := (RErr EEXIST, d);
  sys_statfs _ _ := ROk 0;
  sys_unlink d _ := (ROk 0, d);
  sys_obj_pin d _ _ := (RErr ENOENT, d);
  sys_map_create d _ := xd_open d;
  sys_map_update d _ _ := (ROk 0, d);
  sys_map_freeze d _ := (ROk 0, d);
  sys_prog_load d _ := let '(r, d) := xd_open d in (mk_answer r 0 0 false, d);
  num_possible_cpus _ := 4;
  sys_garbage _ := false;
  dirname p := p
|}.

(** No mapping starts below address zero. *)
Definition real_maps (d : xdemo) : gset (Z * Z) := filter (fun p => 0 <= fst p) (xd_maps d).

Definition xd_mmap (d : xdemo) (len fd off : Z) : sysret * xdemo :=
  if comp_fails d && (off =? XDP_UMEM_PGOFF_COMPLETION_RING) then (RErr ENOMEM, d) else
  let a := above (fst <$> elements (xd_maps d)) in
  (ROk a, set_xd_maps ({[ (a, len) ]} ∪ xd_maps d) d).

#[export] Instance xdemo_xsk : XskSys xdemo := {|
  mappings := real_maps;
  getpagesize _ := 4096;
  sys_socket d _ := xd_open d;
  sys_setsockopt d _ _ := (ROk 0, d);
  sys_mmap_offsets d _ := (ROk 0, [0; 64; 320; 128; 0; 64; 320; 128; 0; 64; 320; 128; 0; 64; 320; 128], d);
  sys_mmap := xd_mmap;
  sys_munmap d a len :=
    if a <? 0 then (RErr EINVAL, d) else (ROk 0, set_xd_maps (xd_maps d ∖ {[ (a, len) ]}) d);
  sys_bind d _ _ := (ROk 0, d);
  sys_if_nametoindex d n := if decide (n = bytes_of "eth0") then (ROk 2, d) else (RErr 19, d);
  sys_channels d _ _ := (ROk 0, 4, d);
  sys_map_update_elem d _ _ _ := (ROk 0, d);
  sys_map_delete_elem d _ _ := (ROk 0, d);
  sys_map_fd_by_id d _ := xd_open d;
  sys_prog_fd_by_id d _ := xd_open d;
  sys_prog_maps d _ _ := (ROk 0, 1, [1], d)
|}.

Definition with_xdevs (d : xdemo) (k : devices) : xdemo :=
  mk_xdemo (xd_fds d) (xd_maps d) k (comp_fails d).
#[export] Instance xdemo_device : XdpDevice xdemo := {|
  bpf_set_link_xdp_fd d i fd flags :=
    '(r, k) ← bpf_set_link_xdp_fd (xd_devs d) i fd flags; Ok (r, with_xdevs d k);
  bpf_get_link_xdp_id d i flags :=
    '(r, p, k) ← bpf_get_link_xdp_id (xd_devs d) i flags; Ok (r, p, with_xdevs d k);
  attached d := attached (xd_devs d);
  prog_of d := prog_of (xd_devs d);
  link_ready d := link_ready (xd_devs d)
|}.

Lemma xd_open_gives d : gives d (xd_open d).
Proof.
  split; [|reflexivity]. unfold gives_fd, xd_open. cbn.
  pose proof (above_pos (elements (xd_fds d))). split; [lia|]. split; [|reflexivity].
  intros Hin. apply elem_of_elements, above_lt in Hin. lia.
Qed.

#[export] Instance xdemo_bpf_laws : BpfSysLaws xdemo.
Proof.
  split; try reflexivity; try (intros k a; apply (xd_open_gives k));
    try (intros; split; [reflexivity | exact I]).
  - intros k p. split; reflexivity.
  - intros k. apply xd_open_gives.
  - intros k p. split; reflexivity.
  - intros k fd p. split; reflexivity.
  - intros k fd Hfd. cbn in *. unfold xd_close. rewrite decide_True by exact Hfd. split; reflexivity.
  - intros k fd Hfd. cbn in *. unfold xd_close. rewrite decide_False by exact Hfd. reflexivity.
  - intros k fd new. split; [split; reflexivity | exact I].
  - intros k a. cbn. lia.
  - intros k a _. cbn. discriminate.
Qed.

#[export] Instance xdemo_laws : XskSysLaws xdemo.
Proof.
  split; try exact _; try reflexivity; try (intros; apply xd_open_gives);
    try (intros; split; [split; reflexivity | exact I]); try (intros; split; reflexivity).
  - intros k fd. cbn. unfold xd_close. by case_decide.
  - intros k n. cbn. by case_decide.
  - intros k fd r n l k1 r2 n2 l2 k2. cbn. congruence.
  - intros k len fd off. cbn. unfold xd_mmap. destruct (comp_fails k && _); [by split|].
    split; [reflexivity|]. cbn [fst snd]. set (a := above _).
    assert (Ha : 0 < a) by apply above_pos. split; [lia|]. split.
    + intros Hin. unfold real_maps in Hin. apply elem_of_filter in Hin as [_ Hin].
      assert (a < a); [|lia]. apply above_lt. apply list_elem_of_fmap.
      exists (a, len). split; [reflexivity|]. by apply elem_of_elements.
    + unfold real_maps. cbn. apply set_eq. intros [b n].
      rewrite elem_of_filter, !elem_of_union, elem_of_filter, elem_of_singleton. cbn.
      split; [tauto|]. intros [Hb|?]; [|tauto]. split; [|by left]. injection Hb as -> _. lia.
  - intros k a len. cbn. destruct (Z.ltb_spec a 0); (split; [reflexivity|]); intros Hin;
      unfold real_maps in *; cbn in *.
    + apply elem_of_filter in Hin as [Hin _]. cbn in Hin. lia.
    + set_solver.
  - intros k fd r off k1 k' fd' r' off' k1'. cbn. congruence.
  - intros k i fd fl. cbn. destruct (demo_set _ _ _ _). do 2 eexists. split; [reflexivity | by split].
  - intros k i fl. cbn. do 3 eexists. split; [reflexivity | by split].
Qed.


(** * Packet memory *)

(** What [xsk_umem__create] comes to: memory that is owned, with rings that
    work if the caller handed in zeroed ones, and that can be deleted; or
    nothing, but perhaps a left-over mapping. *)
Definition umem_life {K} `{XskSys K} (k : K) (fill comp : option user_ring) (r : umem_result) : Prop :=
  (exists u f c, ur_umem r = Some u /\ ur_fill r = Some f /\ ur_comp r = Some c /\
     ur_err r = 0 /\ umem_owned (open_fds k) (mappings k) (ur_sys r) [] [] u f c /\
     rings_start (u_config u) fill comp f c /\
     forall k2, umem_owned (open_fds k) (mappings k) k2 [] [] u f c ->
       let '(err, freed, k') := xsk_umem__delete k2 (Some (u, f, c)) in
       err = 0 /\ freed = true /\ open_fds k' = open_fds k /\
       (offsets_told (K := K) (u_fd u) -> mappings k' = mappings k)) \/
  (exists leak, ur_umem r = None /\ open_fds (ur_sys r) = open_fds k /\
     mappings (ur_sys r) = mappings k ∪ list_to_set leak /\ comp_map_failed (K := K) leak (ur_err r)).

(** Registering packet memory either succeeds, with one new descriptor
    and two new mappings that deleting gives back, or leaves descriptors and
    mappings as they were; only when mapping the completion ring fails, the
    mapping of the fill ring is left over (the code unmaps [MAP_FAILED]). *)
Theorem xsk_umem_created {K} `{XskSysLaws K} (k : K) ptr area size fill comp cfg :
  umem_life k fill comp (xsk_umem__create_v0_0_4 k ptr area size fill comp cfg).
Proof.
  destruct (umem_create_ok _ _ _ [] [] ptr area size fill comp cfg (has_start k))
    as [(u & f & c & Hu & Hf & Hc & He & Hr & Ho & Hs)|(leak & [Hn Hh] & Hleak)].
  - left. exists u, f, c. do 6 (split; [assumption|]). intros k2 Hk2.
    pose proof (umem_delete_ok _ _ _ _ _ _ _ _ Hr Hk2) as Hd.
    destruct (xsk_umem__delete k2 _) as [[err freed] k']. destruct Hd as (-> & -> & left_over & Hd & Ht).
    split; [reflexivity|]. split; [reflexivity|]. split.
    + destruct Hd as ((_ & Hfd & _) & _). rewrite Hfd. cbn. set_solver.
    + intros Htold. rewrite (Ht Htold) in Hd. apply has_nothing in Hd. tauto.
  - right. exists leak. split; [exact Hn|]. rewrite app_nil_r in Hh.
    destruct Hh as ((_ & Hfd & _) & _ & Hm & _). split; [rewrite Hfd; cbn; set_solver|]. auto.
Qed.

Definition zero_ring : user_ring := mk_uring (mk_ring 0 0 0 0) 0 0 0 0.
Definition demo_cfg : xsk_umem_config := mk_ucfg 4 4 2048 0 0.
Definition xdemo_start (fails : bool) : xdemo := mk_xdemo {[ 0; 1; 2 ]} ∅ ∅ fails.
Definition demo_umem (fails : bool) : umem_result :=
  xsk_umem__create_v0_0_4 (xdemo_start fails) true 0x10000 8192 (Some zero_ring) (Some zero_ring)
    (Some demo_cfg).

(** Both outcomes: the memory, and the left-over mapping. *)
Lemma xsk_umem_created_witness :
  umem_life (xdemo_start false) (Some zero_ring) (Some zero_ring) (demo_umem false) /\
  ur_err (demo_umem false) = 0 /\
  umem_life (xdemo_start true) (Some zero_ring) (Some zero_ring) (demo_umem true) /\
  (ur_err (demo_umem true), elements (mappings (ur_sys (demo_umem true)))) = (- ENOMEM, [(1, 352)]).
Proof.
  split; [apply xsk_umem_created|]. split; [vm_compute; reflexivity|].
  split; [apply xsk_umem_created|]. vm_compute. reflexivity.
Defined.

(** The rings of a new memory object are those of an empty channel, if the
    caller's were zeroed and the size is a power of two. *)
Lemma new_rings_are_empty cfg fill comp (l l' : list Z) k k' :
  0 <= k <= 31 -> 0 <= k' <= 31 ->
  fill_size cfg = 2 ^ k -> comp_size cfg = 2 ^ k' -> zlen l = 2 ^ k -> zlen l' = 2 ^ k' ->
  rings_start cfg (Some zero_ring) (Some zero_ring) fill comp ->
  u_ring fill = prod (new_channel l) /\ u_ring comp = cons (new_channel l').
Proof.
  intros Hk Hk' Hf Hc Hl Hl' (f0 & c0 & [= <-] & [= <-] & -> & ->).
  cbn. rewrite Hf, Hc, Hl, Hl'.
  pose proof (Z.pow_pos_nonneg 2 k). pose proof (Z.pow_pos_nonneg 2 k').
  pose proof (Z.pow_le_mono_r 2 k 31). pose proof (Z.pow_le_mono_r 2 k' 31).
  rewrite !u32_small by lia. split; reflexivity.
Qed.

(** The older version of the call, still exported, has to be given a
    configuration: where the header allows NULL it reads through it. *)
Lemma umem_v0_0_2_null {K} `{XskSys K} (k : K) ptr area size fill comp :
  xsk_umem__create_v0_0_2 k ptr area size fill comp None = Err NullDeref.
Proof. reflexivity. Qed.

(** A kernel that answers the offsets with an unknown length leaves [errno]
    as it was: with [errno] zero the caller is told of success. *)
Lemma offsets_unknown_length {K} `{XskSys K} (k k1 : K) fd v off :
  sys_mmap_offsets k fd = (ROk v, off, k1) -> zlen off <> 16 -> zlen off <> 12 ->
  xsk_get_mmap_offsets k fd = (- EINVAL, off, k1).
Proof.
  intros E H16 H12. unfold xsk_get_mmap_offsets. rewrite E.
  replace (8 * zlen off =? 128) with false by lia. by replace (8 * zlen off =? 96) with false by lia.
Qed.

(** * Sockets *)

(** C19: Creating a socket either succeeds or gives back what it took: its
    descriptors and mappings, and the count of the memory's users. There
    are two exceptions: when the descriptor of a second socket cannot be
    had, the count stays raised; and of several maps named [xsks_map] of a
    program that is already attached all descriptors but the last leak.
    Deleting the socket gives back the rest. *)
Theorem xsk_socket_life {K} `{XskSysLaws K} (k : K) ifname name queue u rx tx cfg
    (Href : 0 <= refcount u) (Hfd : u_fd u ∈ open_fds k) (Hfd0 : 0 <= u_fd u)
    (Hname : c_string ifname = Ok name) (Hlen : IFNAMSIZ - 1 <= zlen ifname) :
  exists r leaked, xsk_socket__create k true ifname queue (Some u) rx tx cfg = Ok r /\
    created (open_fds k) (mappings k) u [] r leaked /\
    forall x u1, sr_sock r = Some x -> sr_umem r = Some u1 ->
      let '(u', k') := xsk_socket__delete (sr_sys r) (Some x) (sr_rx r) (sr_tx r) u1 in
      u' = u /\ open_fds k' = open_fds k ∪ list_to_set leaked /\
      (offsets_told (K := K) (x_fd x) -> mappings k' = mappings k).
Proof.
  destruct (socket_create_ok (open_fds k) (mappings k) k ifname name queue u rx tx cfg [] Href Hfd0
    Hname Hlen (has_start k)) as (r & leaked & Hc & Hcr).
  exists r, leaked. split; [exact Hc|]. split; [exact Hcr|]. intros x u1 Hx Hu1.
  destruct Hcr as [Hall Hcr]. rewrite Hx in Hcr.
  destruct Hcr as (_ & Hxfd & Hown & Hv & Hu & off & Hsay & Hh). rewrite Hu1 in Hu. injection Hu as ->.
  assert (Hsame : own_fd (set_refcount (refcount u + 1) u) x = if shared_umem u then [x_fd x] else []).
  { unfold own_fd. cbn [u_fd set_refcount]. destruct (shared_umem u).
    - destruct (Z.eqb_spec (x_fd x) (u_fd u)) as [E|_]; [exfalso|reflexivity].
      destruct Hh as ((_ & _ & Hd) & _). apply (Hd (u_fd u)); [exact Hfd|].
      apply elem_of_list_to_set, list_elem_of_filter. split; [exact Hfd0|].
      rewrite !elem_of_app, E. right. right. left.
    - rewrite (Hown eq_refl), Z.eqb_refl. reflexivity. }
  pose proof (socket_delete_ok (open_fds k) (mappings k) (sr_sys r) x (sr_rx r) (sr_tx r)
    (set_refcount (refcount u + 1) u) leaked [] off Hsay Hxfd Hv) as Hd.
  rewrite Hsame in Hd. specialize (Hd ltac:(rewrite (Permutation_app_comm _ leaked); exact Hh)).
  destruct (xsk_socket__delete _ _ _ _ _) as [u' k']. destruct Hd as (-> & left_over & Hd & Ht).
  split; [|split].
  - destruct u as [a c f n]. unfold set_refcount. cbn. f_equal. lia.
  - destruct Hd as ((_ & Hf & _) & _). rewrite Hf. do 2 f_equal.
    clear - Hall. induction Hall as [|fd l [Hfd _] _ IH]; [reflexivity|].
    rewrite live_cons, decide_True by exact Hfd. by rewrite IH.
  - intros Htold. rewrite (Ht Htold) in Hd. destruct Hd as (_ & _ & -> & _). cbn. set_solver.
Qed.

Definition demo_u : xsk_umem := mk_umem 0x10000 demo_cfg 3 0.
Definition eth0_buffer : list byte := bytes_of "eth0" ++ replicate 12 NUL.
Definition xdemo_umem : xdemo := set_xd_fds {[ 0; 1; 2; 3 ]} (xdemo_start false).

(** A socket on the memory of descriptor 3, deleted again. *)
Lemma xsk_socket_life_witness :
  (exists r leaked,
    xsk_socket__create xdemo_umem true eth0_buffer 0 (Some demo_u) (Some zero_ring) None None = Ok r /\
    created (open_fds xdemo_umem) (mappings xdemo_umem) demo_u [] r leaked /\
    forall x u1, sr_sock r = Some x -> sr_umem r = Some u1 ->
      let '(u', k') := xsk_socket__delete (sr_sys r) (Some x) (sr_rx r) (sr_tx r) u1 in
      u' = demo_u /\ open_fds k' = open_fds xdemo_umem ∪ list_to_set leaked /\
      (offsets_told (K := xdemo) (x_fd x) -> mappings k' = mappings xdemo_umem)) /\
  (match xsk_socket__create xdemo_umem true eth0_buffer 0 (Some demo_u) (Some zero_ring) None None with
   | Ok r => (sr_err r, (fun x => (x_fd x, xsks_map_fd x, prog_fd x)) <$> sr_sock r)
   | Err _ => (1, None)
   end) = (0, Some (3, 4, 5)).
Proof.
  split; [|vm_compute; reflexivity].
  apply (xsk_socket_life xdemo_umem eth0_buffer (bytes_of "eth0") 0 demo_u (Some zero_ring) None None).
  - vm_compute. discriminate.
  - apply (bool_decide_unpack _). vm_compute. reflexivity.
  - vm_compute. discriminate.
  - reflexivity.
  - vm_compute. discriminate.
Defined.

(** The name of the device is copied by fifteen bytes, however short it is:
    a string that ends before reads beyond its buffer. *)
Lemma short_name_overread {K} `{XskSys K} `{XdpDevice K} (k k1 : K) x ifname name u rx tx i :
  c_string ifname = Ok name -> zlen ifname < IFNAMSIZ - 1 ->
  sys_if_nametoindex k name = (ROk i, k1) ->
  socket_rest k x ifname u rx tx = Err OutOfBounds.
Proof.
  intros Hn Hlen Hi. unfold socket_rest. rewrite Hn. cbn [mbind res_bind]. rewrite Hi.
  rewrite mread_Err; [reflexivity|]. unfold in_block, IFNAMSIZ in *. lia.
Qed.
