(* ===== verification/LineInfo.v ===== *)
(** Line information of a loaded program
    ([src/eBPF_app/libbpf/src/bpf_prog_linfo.c]): the records the kernel
    hands out, split by JITed function, and the searches by instruction and
    by address. A pointer into an array of records is an offset. *)
From S2P Require Import Prelude LibbpfObj LibbpfLoad.
#[local] Open Scope Z_scope.

(** The members of [struct bpf_prog_info] in use; a pointer is NULL or the
    block it points to. *)
Record bpf_prog_info := mk_pinfo {
  nr_line_info : Z; line_info_rec_size : Z; line_info : option (list byte);
  nr_jited_line_info : Z; jited_line_info_rec_size : Z; jited_line_info : option (list byte);
  nr_jited_ksyms : Z; jited_ksyms : option (list byte);
  nr_jited_func_lens : Z; jited_func_lens : option (list byte)
}.

(** [struct bpf_prog_linfo]: without information on the JITed code the last
    members are NULL or zero. *)
Record bpf_prog_linfo := mk_plinfo {
  raw_linfo : list byte; raw_jited_linfo : list byte;
  nr_jited_linfo_per_func : list Z; jited_linfo_func_idx : list Z;
  nr_linfo : Z; nr_jited_func : Z; rec_size : Z; jited_rec_size : Z
}.

(** [offsetof(struct bpf_line_info, file_name_off)]. *)
Definition file_name_off : Z := 4.

(** The loop of [dissect_jited_func]: [p] is the offset of [jited_linfo];
    the result is [None] for [errout]. *)
Fixpoint dissect_loop (fuel : nat) (l : bpf_prog_linfo) (ksym_func ksym_len : list byte)
    (p prev_i i f : Z) : res (option (bpf_prog_linfo * Z * Z)) :=
  match fuel with
  | O => Err OutOfFuel
  | S fuel =>
      if negb ((i <? nr_linfo l) && (f <? nr_jited_func l)) then Ok (Some (l, prev_i, f)) else
      last_jited_linfo ← load64 (raw_jited_linfo l) p;
      let p := p + jited_rec_size l in
      jited_linfo ← load64 (raw_jited_linfo l) p;
      func ← load64 ksym_func (8 * f);
      if func =? jited_linfo then
        idx ← aset (jited_linfo_func_idx l) f i;
        prev_func ← load64 ksym_func (8 * (f - 1));
        prev_len ← load32 ksym_len (4 * (f - 1));
        if prev_len <? u64 (last_jited_linfo - prev_func + 1) then Ok None else
        nrs ← aset (nr_jited_linfo_per_func l) (f - 1) (i - prev_i);
        dissect_loop fuel
          (mk_plinfo (raw_linfo l) (raw_jited_linfo l) nrs idx (nr_linfo l) (nr_jited_func l)
             (rec_size l) (jited_rec_size l))
          ksym_func ksym_len p i (i + 1) (f + 1)
      else if jited_linfo <=? last_jited_linfo then Ok None
      else dissect_loop fuel l ksym_func ksym_len p prev_i (i + 1) f
  end.

(** The result is [None] for [-EINVAL]. *)
Definition dissect_jited_func (l : bpf_prog_linfo) (ksym_func ksym_len : list byte)
    : res (option bpf_prog_linfo) :=
  func ← load64 ksym_func 0;
  jited_linfo ← load64 (raw_jited_linfo l) 0;
  if negb (func =? jited_linfo) then Ok None else
  idx ← aset (jited_linfo_func_idx l) 0 0;
  let l := mk_plinfo (raw_linfo l) (raw_jited_linfo l) (nr_jited_linfo_per_func l) idx (nr_linfo l)
             (nr_jited_func l) (rec_size l) (jited_rec_size l) in
  r ← dissect_loop (Z.to_nat (nr_linfo l)) l ksym_func ksym_len 0 0 1 1;
  match r with
  | None => Ok None
  | Some (l, prev_i, f) =>
      if negb (f =? nr_jited_func l) then Ok None else
      nrs ← aset (nr_jited_linfo_per_func l) (nr_jited_func l - 1) (nr_linfo l - prev_i);
      Ok (Some (mk_plinfo (raw_linfo l) (raw_jited_linfo l) nrs (jited_linfo_func_idx l) (nr_linfo l)
                  (nr_jited_func l) (rec_size l) (jited_rec_size l)))
  end.

Section linfo.
(** What [malloc]ed memory holds, and whether each allocation succeeds. *)
Context {K : Type} `{BpfSys K} (junk : Z).

Definition deref (p : option (list byte)) : res (list byte) := or_fault NullDeref p.

Definition bpf_prog_linfo__new (k : K) (info : bpf_prog_info) : res (option bpf_prog_linfo * K) :=
  let nr := nr_line_info info in
  if nr =? 0 then Ok (None, k) else
  if line_info_rec_size info <? file_name_off then Ok (None, k) else
  let '(m1, k) := sys_alloc k in
  if negb m1 then Ok (None, k) else
  let data_sz := u64 (nr * line_info_rec_size info) in
  let '(m2, k) := sys_alloc k in
  if negb m2 then Ok (None, k) else
  src ← deref (line_info info);
  raw ← mread src 0 data_sz;
  let nr_func := nr_jited_ksyms info in
  if (nr_func =? 0) || negb (bool_decide (is_Some (jited_line_info info)))
     || negb (nr_jited_line_info info =? nr)
     || (jited_line_info_rec_size info <? 8)
     || negb (nr_jited_func_lens info =? nr_func)
     || negb (bool_decide (is_Some (jited_ksyms info)))
     || negb (bool_decide (is_Some (jited_func_lens info)))
  then Ok (Some (mk_plinfo raw [] [] [] nr 0 (line_info_rec_size info) 0), k) else
  let data_sz := u64 (nr * jited_line_info_rec_size info) in
  let '(m3, k) := sys_alloc k in
  if negb m3 then Ok (None, k) else
  jsrc ← deref (jited_line_info info);
  jraw ← mread jsrc 0 data_sz;
  let '(m4, k) := sys_alloc k in
  if negb m4 then Ok (None, k) else
  let '(m5, k) := sys_alloc k in
  if negb m5 then Ok (None, k) else
  ksyms ← deref (jited_ksyms info);
  lens ← deref (jited_func_lens info);
  let arr := replicate (Z.to_nat nr_func) junk in
  r ← dissect_jited_func (mk_plinfo raw jraw arr arr nr nr_func (line_info_rec_size info)
                            (jited_line_info_rec_size info)) ksyms lens;
  Ok (r, k).
End linfo.

(** * Searching *)

(** The loop of [bpf_prog_linfo__lfind_addr_func]: [j] and [r] are the
    offsets of the two records. *)
Fixpoint addr_loop (n : nat) (l : bpf_prog_linfo) (addr j r : Z) : res Z :=
  match n with
  | O => Ok r
  | S n =>
      jited_linfo ← load64 (raw_jited_linfo l) j;
      if addr <? jited_linfo then Ok r else
      addr_loop n l addr (j + jited_rec_size l) (r + rec_size l)
  end.

(** The offset of the record in [raw_linfo], or NULL. *)
Definition bpf_prog_linfo__lfind_addr_func (l : bpf_prog_linfo) (addr func_idx nr_skip : Z)
    : res (option Z) :=
  if nr_jited_func l <=? func_idx then Ok None else
  nr ← aget (nr_jited_linfo_per_func l) func_idx;
  if nr <=? nr_skip then Ok None else
  idx ← aget (jited_linfo_func_idx l) func_idx;
  let start := u32 (idx + nr_skip) in
  let j := u32 (start * jited_rec_size l) in
  jited_linfo ← load64 (raw_jited_linfo l) j;
  if addr <? jited_linfo then Ok None else
  let r := u32 (start * rec_size l) in
  r ← addr_loop (Z.to_nat (nr - nr_skip)) l addr j r;
  Ok (Some (r - rec_size l)).

Fixpoint insn_loop (n : nat) (l : bpf_prog_linfo) (insn_off r : Z) : res Z :=
  match n with
  | O => Ok r
  | S n =>
      off ← load32 (raw_linfo l) r;
      if insn_off <? off then Ok r else insn_loop n l insn_off (r + rec_size l)
  end.

Definition bpf_prog_linfo__lfind (l : bpf_prog_linfo) (insn_off nr_skip : Z) : res (option Z) :=
  let nr := nr_linfo l in
  if nr <=? nr_skip then Ok None else
  let r := u32 (nr_skip * rec_size l) in
  off ← load32 (raw_linfo l) r;
  if insn_off <? off then Ok None else
  r ← insn_loop (Z.to_nat (nr - nr_skip)) l insn_off r;
  Ok (Some (r - rec_size l)).
