(* ===== verification/LineInfoProps.v ===== *)
(** Line information: from the records the kernel hands out, through the
    division by functions, to the record a search finds. *)
From S2P Require Import Prelude LibbpfObj LibbpfLoad DemoSys LineInfo.
#[local] Open Scope Z_scope.

(** * Records in a block *)

(** The words [vs], read by [load], lie at [at_] and every [rec] bytes on. *)
Definition words_at (load : Z -> res Z) (at_ rec : Z) (vs : list Z) : Prop :=
  forall i v, vs !! i = Some v -> load (at_ + rec * Z.of_nat i) = Ok v.

Lemma words_at_tail load at_ rec v vs :
  words_at load at_ rec (v :: vs) -> load at_ = Ok v /\ words_at load (at_ + rec) rec vs.
Proof.
  intros Hw. split.
  - rewrite <- (Hw 0%nat v eq_refl). f_equal. lia.
  - intros i w Hi. rewrite <- (Hw (S i) w Hi). f_equal. lia.
Qed.

Lemma words_at_drop load at_ rec vs n :
  words_at load at_ rec vs -> words_at load (at_ + rec * Z.of_nat n) rec (drop n vs).
Proof.
  intros Hw i v Hi. rewrite lookup_drop in Hi. rewrite <- (Hw _ _ Hi). f_equal. lia.
Qed.

(** * Searching *)

(** How many of the words from the front do not exceed [key]. *)
Fixpoint count_le (key : Z) (vs : list Z) : nat :=
  match vs with
  | [] => 0
  | v :: vs => if key <? v then 0 else S (count_le key vs)
  end.

Lemma insn_loop_spec l key vs : forall r,
  words_at (load32 (raw_linfo l)) r (rec_size l) vs ->
  insn_loop (length vs) l key r = Ok (r + rec_size l * Z.of_nat (count_le key vs)).
Proof.
  induction vs as [|v vs IH]; intros r Hw; cbn [insn_loop length count_le].
  - f_equal. lia.
  - apply words_at_tail in Hw as [-> Hw]. cbn [mbind res_bind].
    destruct (key <? v); [f_equal; lia|]. rewrite (IH _ Hw). f_equal. lia.
Qed.

Lemma addr_loop_spec l key vs : forall j r,
  words_at (load64 (raw_jited_linfo l)) j (jited_rec_size l) vs ->
  addr_loop (length vs) l key j r = Ok (r + rec_size l * Z.of_nat (count_le key vs)).
Proof.
  induction vs as [|v vs IH]; intros j r Hw; cbn [addr_loop length count_le].
  - f_equal. lia.
  - apply words_at_tail in Hw as [-> Hw]. cbn [mbind res_bind].
    destruct (key <? v); [f_equal; lia|]. rewrite (IH _ _ Hw). f_equal. lia.
Qed.

(** [i] is where a search for [key] from [skip] on ends: at the last of the
    words that do not exceed it, before the first one that does. *)
Definition found_at (vs : list Z) (skip : nat) (key : Z) (i : nat) : Prop :=
  (skip <= i < length vs)%nat /\
  (forall j v, (skip <= j <= i)%nat -> vs !! j = Some v -> v <= key) /\
  (forall v, vs !! S i = Some v -> key < v).

Lemma count_le_found key vs :
  (forall v, vs !! 0%nat = Some v -> v <= key) -> vs <> [] ->
  exists i, count_le key vs = S i /\ found_at vs 0 key i.
Proof.
  induction vs as [|v vs IH]; intros Hv Hne; [done|]. cbn [count_le].
  destruct (Z.ltb_spec key v) as [Hlt|Hge]; [specialize (Hv v eq_refl); lia|].
  destruct vs as [|w vs].
  - exists 0%nat. split; [reflexivity|]. split; [cbn; lia|]. split.
    + intros j u Hj Hu. replace j with 0%nat in Hu by lia. by injection Hu as <-.
    + intros u Hu. done.
  - destruct (Z.ltb_spec key w) as [Hw|Hw].
    + exists 0%nat. cbn [count_le]. replace (key <? w) with true by lia. split; [reflexivity|].
      split; [cbn; lia|]. split.
      * intros j u Hj Hu. replace j with 0%nat in Hu by lia. by injection Hu as <-.
      * intros u Hu. by injection Hu as <-.
    + destruct IH as (i & -> & (Hi & Hle & Hgt)); [intros u Hu; by injection Hu as <- | done |].
      exists (S i). split; [reflexivity|]. split; [cbn in *; lia|]. split; [|exact Hgt].
      intros [|j] u Hj Hu; [by injection Hu as <-|]. apply (Hle j); [lia | exact Hu].
Qed.

Lemma found_at_drop vs skip key i :
  found_at (drop skip vs) 0 key i -> found_at vs skip key (skip + i).
Proof.
  intros (Hi & Hle & Hgt). rewrite length_drop in Hi. split; [lia|]. split.
  - intros j v Hj Hv. apply (Hle (j - skip)%nat); [lia|]. rewrite lookup_drop.
    by replace (skip + (j - skip))%nat with j by lia.
  - intros v Hv. apply Hgt. rewrite lookup_drop. by replace (skip + S i)%nat with (S (skip + i)) by lia.
Qed.

(** In increasing words it is the last that does not exceed the key. *)
Lemma found_at_sorted vs skip key i :
  (forall j x y, vs !! j = Some x -> vs !! S j = Some y -> x < y) ->
  found_at vs skip key i -> forall j v, vs !! j = Some v -> v <= key -> (j <= i)%nat.
Proof.
  intros Hs (Hi & _ & Hgt) j v Hj Hv. destruct (decide (j <= i)%nat) as [|Hlt]; [assumption|exfalso].
  assert (Hup : forall d x, vs !! (S i + d)%nat = Some x -> key < x).
  { induction d as [|d IHd]; intros x Hx; [apply Hgt; by rewrite Nat.add_0_r in Hx|].
    destruct (vs !! (S i + d)%nat) as [y|] eqn:Ey.
    - specialize (IHd y eq_refl). rewrite Nat.add_succ_r in Hx. pose proof (Hs _ _ _ Ey Hx). lia.
    - apply lookup_ge_None in Ey. apply lookup_lt_Some in Hx. lia. }
  replace j with (S i + (j - S i))%nat in Hj by lia. apply Hup in Hj. lia.
Qed.

(** The search by instruction. *)
Lemma lfind_ok l vs key (skip : nat) :
  words_at (load32 (raw_linfo l)) 0 (rec_size l) vs -> nr_linfo l = zlen vs ->
  0 <= rec_size l -> rec_size l * zlen vs <= 2 ^ 32 ->
  exists o, bpf_prog_linfo__lfind l key (Z.of_nat skip) = Ok o /\
    match o with
    | None => forall v, vs !! skip = Some v -> key < v
    | Some r => exists i, r = rec_size l * Z.of_nat i /\ found_at vs skip key i
    end.
Proof.
  intros Hw Hnr Hrec Hsz. unfold bpf_prog_linfo__lfind. rewrite Hnr. unfold zlen in *.
  destruct (Z.leb_spec (Z.of_nat (length vs)) (Z.of_nat skip)) as [Hle|Hlt].
  { exists None. split; [reflexivity|]. intros v Hv. apply lookup_lt_Some in Hv. lia. }
  rewrite u32_small by nia. apply (words_at_drop _ _ _ _ skip) in Hw. rewrite Z.add_0_l, Z.mul_comm in Hw.
  destruct (drop skip vs) as [|v ws] eqn:Ed.
  { apply (f_equal length) in Ed. rewrite length_drop in Ed. cbn in Ed. lia. }
  assert (Hv : vs !! skip = Some v) by (rewrite <- (Nat.add_0_r skip), <- lookup_drop, Ed; reflexivity).
  destruct (words_at_tail _ _ _ _ _ Hw) as [-> _]. cbn [mbind res_bind].
  destruct (Z.ltb_spec key v) as [Hkv|Hkv].
  { exists None. split; [reflexivity|]. intros u Hu. rewrite Hv in Hu. by injection Hu as <-. }
  replace (Z.to_nat (Z.of_nat (length vs) - Z.of_nat skip)) with (length (v :: ws))
    by (rewrite <- Ed, length_drop; lia).
  rewrite (insn_loop_spec _ _ _ _ Hw).
  destruct (count_le_found key (v :: ws)) as (i & -> & Hf); [intros u Hu; by injection Hu as <- | done |].
  cbn [mbind res_bind]. eexists. split; [reflexivity|]. exists (skip + i)%nat. split; [lia|].
  apply found_at_drop. by rewrite Ed.
Qed.

(** The search by address, in a function that has the records of the
    addresses [addrs] from the record [start] on. *)
Lemma lfind_addr_func_ok l f start addrs key (skip : nat) :
  0 <= f < nr_jited_func l ->
  aget (nr_jited_linfo_per_func l) f = Ok (zlen addrs) -> aget (jited_linfo_func_idx l) f = Ok start ->
  words_at (load64 (raw_jited_linfo l)) (jited_rec_size l * start) (jited_rec_size l) addrs ->
  0 <= start -> 0 <= rec_size l -> 0 <= jited_rec_size l -> start + zlen addrs < 2 ^ 32 ->
  rec_size l * (start + zlen addrs) <= 2 ^ 32 -> jited_rec_size l * (start + zlen addrs) <= 2 ^ 32 ->
  exists o, bpf_prog_linfo__lfind_addr_func l key f (Z.of_nat skip) = Ok o /\
    match o with
    | None => forall v, addrs !! skip = Some v -> key < v
    | Some r => exists i, r = rec_size l * (start + Z.of_nat i) /\ found_at addrs skip key i
    end.
Proof.
  intros Hf Hnr Hidx Hw Hs Hrec Hjrec Hsmall Hsz Hjsz. unfold bpf_prog_linfo__lfind_addr_func.
  replace (nr_jited_func l <=? f) with false by lia. rewrite Hnr. cbn [mbind res_bind].
  unfold zlen in *.
  destruct (Z.leb_spec (Z.of_nat (length addrs)) (Z.of_nat skip)) as [Hle|Hlt].
  { exists None. split; [reflexivity|]. intros v Hv. apply lookup_lt_Some in Hv. lia. }
  rewrite Hidx. cbn [mbind res_bind]. rewrite (u32_small (start + _)) by lia.
  assert (Hb : 0 <= (start + Z.of_nat skip) * rec_size l < 2 ^ 32 \/ rec_size l = 0) by nia.
  assert (Hjb : 0 <= (start + Z.of_nat skip) * jited_rec_size l < 2 ^ 32 \/ jited_rec_size l = 0) by nia.
  rewrite !u32_small by (destruct Hb as [Hb|Hb], Hjb as [Hjb|Hjb]; rewrite ?Hb, ?Hjb, ?Z.mul_0_r; lia).
  clear Hb Hjb. apply (words_at_drop _ _ _ _ skip) in Hw.
  replace (jited_rec_size l * start + jited_rec_size l * Z.of_nat skip)
    with ((start + Z.of_nat skip) * jited_rec_size l) in Hw by lia.
  destruct (drop skip addrs) as [|v ws] eqn:Ed.
  { apply (f_equal length) in Ed. rewrite length_drop in Ed. cbn in Ed. lia. }
  assert (Hv : addrs !! skip = Some v) by (rewrite <- (Nat.add_0_r skip), <- lookup_drop, Ed; reflexivity).
  destruct (words_at_tail _ _ _ _ _ Hw) as [-> _]. cbn [mbind res_bind].
  destruct (Z.ltb_spec key v) as [Hkv|Hkv].
  { exists None. split; [reflexivity|]. intros u Hu. rewrite Hv in Hu. by injection Hu as <-. }
  replace (Z.to_nat (Z.of_nat (length addrs) - Z.of_nat skip)) with (length (v :: ws))
    by (rewrite <- Ed, length_drop; lia).
  rewrite (addr_loop_spec _ _ _ _ _ Hw).
  destruct (count_le_found key (v :: ws)) as (i & -> & Hfo); [intros u Hu; by injection Hu as <- | done |].
  cbn [mbind res_bind]. eexists. split; [reflexivity|]. exists (skip + i)%nat. split; [lia|].
  apply found_at_drop. by rewrite Ed.
Qed.

(** * The division by functions *)

(** Where each function's records start. *)
Fixpoint starts (s : Z) (funcs : list (list Z)) : list Z :=
  match funcs with
  | [] => []
  | a :: funcs => s :: starts (s + zlen a) funcs
  end.

Lemma starts_app s fs gs : starts s (fs ++ gs) = starts s fs ++ starts (s + zlen (concat fs)) gs.
Proof.
  revert s. induction fs as [|a fs IH]; intros s; cbn [starts app concat].
  - f_equal. unfold zlen. cbn. lia.
  - rewrite IH, zlen_app. f_equal. f_equal. f_equal. lia.
Qed.

Lemma length_starts s fs : length (starts s fs) = length fs.
Proof. revert s. induction fs; intros s; cbn; [reflexivity | by rewrite IHfs]. Qed.

(** A function as the kernel reports it: its addresses increase and lie
    within its length; the next function does not start inside. *)
Record good_func (addrs : list Z) (len : Z) (next : option Z) : Prop := {
  gf_rise : forall i x y, addrs !! i = Some x -> addrs !! S i = Some y -> x < y;
  gf_len : forall x y, head addrs = Some x -> last addrs = Some y -> 0 <= y - x /\ y - x + 1 <= len;
  gf_next : forall i x, addrs !! i = Some x -> next <> Some x
}.

Definition first_addr (addrs : list Z) : Z := hd 0 addrs.

(** All functions, with what [ksym_func] and [ksym_len] say of them. *)
Definition layout (funcs : list (list Z)) (lens : list Z) : Prop :=
  length lens = length funcs /\ Forall (fun a => a <> []) funcs /\
  Forall (fun len => 0 <= len < 2 ^ 32) lens /\
  forall f addrs len, funcs !! f = Some addrs -> lens !! f = Some len ->
    good_func addrs len (first_addr <$> funcs !! S f).

Lemma aset_app {A} (l k : list A) x y :
  aset (l ++ x :: k) (zlen l) y = Ok (l ++ y :: k).
Proof.
  rewrite aset_Ok by (unfold zlen; rewrite length_app; cbn; lia).
  unfold zlen. rewrite Nat2Z.id, insert_app_r_alt, Nat.sub_diag by lia. reflexivity.
Qed.

Lemma lookup_after {A} (l : list A) z y k : (l ++ z :: y :: k) !! S (length l) = Some y.
Proof.
  replace (l ++ z :: y :: k) with ((l ++ [z]) ++ y :: k) by (by rewrite <- app_assoc).
  apply list_lookup_middle. rewrite length_app. cbn. lia.
Qed.

Section dissect.
Variables (funcs : list (list Z)) (lens : list Z) (ks ls : list byte) (n jrec : Z).
Hypothesis Hlay : layout funcs lens.
Hypothesis Hks : words_at (load64 ks) 0 8 (first_addr <$> funcs).
Hypothesis Hls : words_at (load32 ls) 0 4 lens.
Hypothesis Hcount : n = zlen (concat funcs).

(** The records and the counts are those of [funcs]. *)
Definition reports (l : bpf_prog_linfo) : Prop :=
  nr_linfo l = n /\ nr_jited_func l = zlen funcs /\ jited_rec_size l = jrec /\
  words_at (load64 (raw_jited_linfo l)) 0 jrec (concat funcs).

(** The loop touches the two arrays only. *)
Definition same_but_arrays (l l' : bpf_prog_linfo) : Prop :=
  raw_linfo l' = raw_linfo l /\ raw_jited_linfo l' = raw_jited_linfo l /\
  nr_linfo l' = nr_linfo l /\ nr_jited_func l' = nr_jited_func l /\
  rec_size l' = rec_size l /\ jited_rec_size l' = jited_rec_size l.

(** Where the loop is: it has seen the functions [seen], and [cur1] of the
    function [cur1 ++ cur2]. *)
Record at_func seen cur1 cur2 rest l : Prop := {
  af_funcs : funcs = seen ++ (cur1 ++ cur2) :: rest;
  af_cur : cur1 <> [];
  af_reports : reports l;
  af_idx : exists t, jited_linfo_func_idx l = starts 0 (seen ++ [cur1 ++ cur2]) ++ t /\
             length t = length rest;
  af_nrs : exists t, nr_jited_linfo_per_func l = (zlen <$> seen) ++ t /\ length t = S (length rest)
}.

Definition dissected (l l' : bpf_prog_linfo) (prev_i f : Z) : Prop :=
  same_but_arrays l l' /\ f = zlen funcs /\ jited_linfo_func_idx l' = starts 0 funcs /\
  exists seen last x, funcs = seen ++ [last] /\ prev_i = zlen (concat seen) /\
    nr_jited_linfo_per_func l' = (zlen <$> seen) ++ [x].

Lemma nth_word load at_ rec vs i v z :
  words_at load at_ rec vs -> vs !! i = Some v -> z = at_ + rec * Z.of_nat i -> load z = Ok v.
Proof. intros Hw Hi ->. exact (Hw _ _ Hi). Qed.

Lemma same_but_arrays_trans l1 l2 l3 :
  same_but_arrays l1 l2 -> same_but_arrays l2 l3 -> same_but_arrays l1 l3.
Proof. unfold same_but_arrays. intuition congruence. Qed.

Lemma dissect_loop_ok fuel : forall seen cur1 cur2 rest l,
  at_func seen cur1 cur2 rest l ->
  (length cur2 + length (concat rest) < fuel)%nat ->
  exists l' prev_i f,
    dissect_loop fuel l ks ls (jrec * (zlen (concat seen) + zlen cur1 - 1)) (zlen (concat seen))
      (zlen (concat seen) + zlen cur1) (zlen seen + 1) = Ok (Some (l', prev_i, f)) /\
    dissected l l' prev_i f.
Proof.
  induction fuel as [|fuel IH]; intros seen cur1 cur2 rest l Haf Hfuel; [lia|].
  destruct (Haf) as [Hf Hcur (Hnr & Hnf & Hjr & Hw) (t1 & Hidx & Ht1) (t2 & Hnrs & Ht2)].
  cbn [dissect_loop]. rewrite Hnr, Hnf.
  destruct rest as [|nx rest].
  { (* the last function *)
    assert (Hz : zlen funcs = zlen seen + 1) by (rewrite Hf, zlen_app; reflexivity).
    rewrite Hz, Z.ltb_irrefl, andb_false_r. cbn [negb].
    do 3 eexists. split; [reflexivity|]. split; [done|]. split; [symmetry; exact Hz|].
    destruct t1; [|discriminate]. rewrite Hidx, app_nil_r, Hf. split; [reflexivity|].
    destruct t2 as [|x [|]]; try discriminate. by exists seen, (cur1 ++ cur2), x. }
  assert (Hnx : exists a nx', nx = a :: nx').
  { destruct Hlay as (_ & Hne & _). rewrite Hf, Forall_app in Hne. destruct Hne as [_ Hne].
    apply Forall_cons in Hne as [_ Hne]. apply Forall_cons in Hne as [Hne _].
    destruct nx; [done | eauto]. }
  destruct Hnx as (a & nx' & ->).
  destruct (exists_last Hcur) as (cur0 & z & ->).
  assert (Hcat : concat funcs = (concat seen ++ cur0) ++ z :: cur2 ++ (a :: nx') ++ concat rest).
  { rewrite Hf, concat_app. cbn [concat]. by rewrite <- !app_assoc. }
  assert (Hlen : zlen (concat seen) + zlen (cur0 ++ [z]) = zlen (concat seen ++ cur0) + 1)
    by (rewrite !zlen_app; change (zlen [z]) with 1; lia).
  assert (Hcont : (zlen (concat seen) + zlen (cur0 ++ [z]) <? n) && (zlen seen + 1 <? zlen funcs) = true).
  { apply andb_true_iff. rewrite !Z.ltb_lt. split.
    - rewrite Hlen, Hcount, Hcat, !zlen_app. unfold zlen. cbn [length]. rewrite !length_app. cbn. lia.
    - rewrite Hf, zlen_app. unfold zlen. cbn. lia. }
  rewrite Hcont. cbn [negb].
  set (p := jrec * _).
  rewrite (nth_word _ _ _ _ (length (concat seen ++ cur0)) z p Hw);
    [| rewrite Hcat; by apply list_lookup_middle | unfold p; rewrite Hlen; unfold zlen; ring].
  cbn [mbind res_bind]. rewrite Hjr.
  assert (Hhere : funcs !! length seen = Some ((cur0 ++ [z]) ++ cur2)) by (rewrite Hf; by apply list_lookup_middle).
  assert (Hthere : funcs !! S (length seen) = Some (a :: nx')).
  { rewrite Hf. apply lookup_after. }
  rewrite (nth_word _ _ _ _ (S (length seen)) a (8 * (zlen seen + 1)) Hks);
    [| by rewrite list_lookup_fmap, Hthere | unfold zlen; lia].
  cbn [mbind res_bind].
  destruct Hlay as (Hll & _ & Hlr & Hgood).
  destruct (lookup_lt_is_Some_2 lens (length seen)) as [len Elen].
  { rewrite Hll. by apply lookup_lt_Some in Hhere. }
  destruct (Hgood _ _ _ Hhere Elen) as [Hrise Hin Hnext]. rewrite Hthere in Hnext. cbn in Hnext.
  destruct cur2 as [|y cur2].
  - (* the next function starts *)
    rewrite (nth_word _ _ _ _ (S (length (concat seen ++ cur0))) a (p + jrec) Hw);
      [| rewrite Hcat; apply lookup_after
       | unfold p; rewrite Hlen, Nat2Z.inj_succ; unfold zlen, Z.succ; ring].
    cbn [mbind res_bind]. rewrite Z.eqb_refl.
    rewrite app_nil_r in *.
    assert (Hfirst : exists x0, head (cur0 ++ [z]) = Some x0 /\ first_addr (cur0 ++ [z]) = x0)
      by (destruct cur0; cbn; eauto).
    destruct Hfirst as (x0 & Hhead & Hx0).
    destruct (Hin x0 z Hhead (last_snoc _ _)) as [Hpos Hbound].
    destruct t1 as [|u t1]; [discriminate|]. destruct t2 as [|v t2]; [discriminate|].
    assert (Hzs : zlen (starts 0 (seen ++ [cur0 ++ [z]])) = zlen seen + 1)
      by (unfold zlen; rewrite length_starts, length_app; cbn; lia).
    rewrite Hidx, <- Hzs, aset_app, Hzs. cbn [mbind res_bind].
    replace (zlen seen + 1 - 1) with (zlen seen) by lia.
    rewrite (nth_word _ _ _ _ (length seen) x0 (8 * zlen seen) Hks);
      [| by rewrite list_lookup_fmap, Hhere; cbn; rewrite Hx0 | reflexivity].
    rewrite (nth_word _ _ _ _ (length seen) len (4 * zlen seen) Hls); [|exact Elen | reflexivity].
    cbn [mbind res_bind].
    pose proof (proj1 (Forall_lookup _ _) Hlr _ _ Elen) as Hlen32. cbn in Hlen32.
    rewrite u64_small by lia. replace (len <? z - x0 + 1) with false by lia.
    assert (Hzl : zlen (zlen <$> seen) = zlen seen) by (unfold zlen; by rewrite length_fmap).
    rewrite Hnrs, <- Hzl, aset_app, Hzl. cbn [mbind res_bind].
    set (l1 := mk_plinfo _ _ _ _ _ _ _ _).
    destruct (IH (seen ++ [cur0 ++ [z]]) [a] nx' rest l1) as (l' & prev_i & f & E & Hd).
    { split; [by rewrite <- app_assoc | done | by split | |].
      - exists t1. split; [|cbn in Ht1; lia]. cbn [l1 jited_linfo_func_idx].
        rewrite (starts_app _ (seen ++ [cur0 ++ [z]])), <- app_assoc. cbn. f_equal. f_equal.
        rewrite concat_app. cbn [concat]. rewrite app_nil_r. symmetry. apply zlen_app.
      - exists t2. split; [|cbn in Ht2; lia]. cbn [l1 nr_jited_linfo_per_func].
        rewrite fmap_app, <- app_assoc. cbn. do 2 f_equal. lia. }
    { cbn in Hfuel. rewrite length_app in Hfuel. lia. }
    exists l', prev_i, f. split.
    + rewrite <- E. rewrite concat_app. cbn [concat]. rewrite app_nil_r, (zlen_app (concat seen)).
      change (zlen [a]) with 1. rewrite (zlen_app seen). change (zlen [cur0 ++ [z]]) with 1.
      f_equal; unfold p; ring.
    + destruct Hd as (Hs & Hd). split; [|exact Hd]. apply (same_but_arrays_trans l l1); [|exact Hs].
      by repeat split.
  - (* still in the function *)
    rewrite (nth_word _ _ _ _ (S (length (concat seen ++ cur0))) y (p + jrec) Hw);
      [| rewrite Hcat; apply lookup_after
       | unfold p; rewrite Hlen, Nat2Z.inj_succ; unfold zlen, Z.succ; ring].
    cbn [mbind res_bind].
    assert (Hy : ((cur0 ++ [z]) ++ y :: cur2) !! S (length cur0) = Some y)
      by (rewrite <- app_assoc; apply lookup_after).
    assert (Hz : ((cur0 ++ [z]) ++ y :: cur2) !! length cur0 = Some z)
      by (rewrite <- app_assoc; by apply list_lookup_middle).
    pose proof (Hrise _ _ _ Hz Hy). specialize (Hnext _ _ Hy).
    replace (a =? y) with false by (symmetry; apply Z.eqb_neq; congruence).
    replace (y <=? z) with false by lia.
    specialize (IH seen ((cur0 ++ [z]) ++ [y]) cur2 ((a :: nx') :: rest) l).
    destruct IH as (l' & prev_i & f & IH & Hd).
    { split; [| by destruct cur0 | by split | |].
      - rewrite Hf, <- !app_assoc. reflexivity.
      - exists t1. rewrite Hidx, <- !app_assoc. split; [reflexivity | exact Ht1].
      - exists t2. split; [exact Hnrs | exact Ht2]. }
    { cbn in *. lia. }
    exists l', prev_i, f. split; [|exact Hd]. rewrite <- IH.
    rewrite (zlen_app (cur0 ++ [z])). change (zlen [y]) with 1. f_equal; unfold p; ring.
Qed.

Lemma dissect_ok l :
  funcs <> [] -> reports l ->
  length (jited_linfo_func_idx l) = length funcs -> length (nr_jited_linfo_per_func l) = length funcs ->
  exists l', dissect_jited_func l ks ls = Ok (Some l') /\ same_but_arrays l l' /\
    jited_linfo_func_idx l' = starts 0 funcs /\ nr_jited_linfo_per_func l' = zlen <$> funcs.
Proof.
  intros Hne Hrep Hli Hln. destruct (Hrep) as (Hnr & Hnf & Hjr & Hw).
  destruct (Hlay) as (_ & Hall & _).
  assert (Hhd : exists a f0 rest, funcs = (a :: f0) :: rest).
  { destruct funcs as [|[|a f0] rest]; [done | by apply Forall_cons in Hall as [? _] | eauto]. }
  destruct Hhd as (a & f0 & rest & Ef).
  unfold dissect_jited_func.
  rewrite (nth_word _ _ _ _ 0 a 0 Hks); [|by rewrite Ef | lia]. cbn [mbind res_bind].
  rewrite (nth_word _ _ _ _ 0 a 0 Hw); [|by rewrite Ef | lia]. cbn [mbind res_bind].
  rewrite Z.eqb_refl. cbn [negb].
  destruct (jited_linfo_func_idx l) as [|u t1] eqn:Et1; [rewrite Ef in Hli; discriminate|].
  change (aset (u :: t1) 0 0) with (aset ([] ++ u :: t1) (zlen (@nil Z)) 0).
  rewrite aset_app. cbn [mbind res_bind app].
  set (l1 := mk_plinfo _ _ _ _ _ _ _ _).
  destruct (dissect_loop_ok (Z.to_nat (nr_linfo l)) [] [a] f0 rest l1)
    as (l2 & prev_i & f & E & Hs & Hf & Hidx & seen & last & x & Ef2 & -> & Hnrs).
  { split; [exact Ef | done | by split | |].
    - exists t1. split; [reflexivity|]. rewrite Ef in Hli. cbn in Hli. lia.
    - exists (nr_jited_linfo_per_func l). split; [reflexivity|]. by rewrite Hln, Ef. }
  { rewrite Hnr, Hcount, Ef. unfold zlen. cbn. rewrite length_app. lia. }
  change (zlen (concat [])) with 0 in E. change (zlen [a]) with 1 in E. change (zlen []) with 0 in E.
  replace (jrec * (0 + 1 - 1)) with 0 in E by ring. rewrite !Z.add_0_l in E.
  change (nr_linfo l1) with (nr_linfo l). rewrite E. cbn [mbind res_bind].
  destruct Hs as (Hs1 & Hs2 & Hs3 & Hs4 & Hs5 & Hs6). rewrite Hf, Hs4. cbn [l1 nr_jited_func].
  rewrite Hnf, Z.eqb_refl. cbn [negb].
  assert (Hz : zlen funcs - 1 = zlen (zlen <$> seen)).
  { rewrite Ef2. unfold zlen. rewrite length_app, length_fmap. cbn. lia. }
  rewrite Hz, Hnrs, aset_app. cbn [mbind res_bind].
  eexists. split; [reflexivity|]. split; [|split].
  - do 5 (split; [first [assumption | by symmetry]|]). exact Hs6.
  - exact Hidx.
  - cbn [nr_jited_linfo_per_func]. rewrite Ef2, fmap_app. cbn. do 3 f_equal.
    rewrite Hs3. cbn [l1 nr_linfo]. rewrite Hnr, Hcount, Ef2, concat_app, zlen_app. cbn [concat].
    rewrite app_nil_r. lia.
Qed.
End dissect.

(** * From the kernel's report to the search *)

(** What the kernel reports of a program whose line records have the
    instruction offsets [offs] and, function by function, the addresses
    [funcs]; the functions have the lengths [lens]. *)
Record reported (info : bpf_prog_info) (offs : list Z) (funcs : list (list Z)) (lens : list Z)
    (b jb ks ls : list byte) : Prop := {
  rp_layout : layout funcs lens;
  rp_some : funcs <> [];
  rp_offs : zlen offs = zlen (concat funcs);
  rp_nr : nr_line_info info = zlen (concat funcs) /\ nr_jited_line_info info = zlen (concat funcs);
  rp_funcs : nr_jited_ksyms info = zlen funcs /\ nr_jited_func_lens info = zlen funcs;
  rp_linfo : line_info info = Some b /\ words_at (load32 b) 0 (line_info_rec_size info) offs;
  rp_jited : jited_line_info info = Some jb /\
    words_at (load64 jb) 0 (jited_line_info_rec_size info) (concat funcs);
  rp_ksyms : jited_ksyms info = Some ks /\ words_at (load64 ks) 0 8 (first_addr <$> funcs);
  rp_lens : jited_func_lens info = Some ls /\ words_at (load32 ls) 0 4 lens;
  rp_sizes : zlen b = zlen offs * line_info_rec_size info /\
    zlen jb = zlen offs * jited_line_info_rec_size info;
  rp_recs : file_name_off <= line_info_rec_size info /\ 8 <= jited_line_info_rec_size info;
  rp_small : zlen b < 2 ^ 32 /\ zlen jb < 2 ^ 32
}.

(** The searches in [l] find what they should. *)
Definition searches (l : bpf_prog_linfo) (offs : list Z) (funcs : list (list Z)) : Prop :=
  (forall key (skip : nat), exists o, bpf_prog_linfo__lfind l key (Z.of_nat skip) = Ok o /\
     match o with
     | None => forall v, offs !! skip = Some v -> key < v
     | Some r => exists i, r = rec_size l * Z.of_nat i /\ found_at offs skip key i
     end) /\
  (forall f addrs key (skip : nat), funcs !! f = Some addrs ->
     exists o, bpf_prog_linfo__lfind_addr_func l key (Z.of_nat f) (Z.of_nat skip) = Ok o /\
     match o with
     | None => forall v, addrs !! skip = Some v -> key < v
     | Some r => exists i, r = rec_size l * (zlen (concat (take f funcs)) + Z.of_nat i) /\
         found_at addrs skip key i
     end) /\
  (forall f key skip, zlen funcs <= f -> bpf_prog_linfo__lfind_addr_func l key f skip = Ok None).

Lemma starts_lookup s funcs f addrs :
  funcs !! f = Some addrs -> starts s funcs !! f = Some (s + zlen (concat (take f funcs))).
Proof.
  revert s f. induction funcs as [|a funcs IH]; intros s [|f] Hf; cbn in *; try done.
  - f_equal. change (zlen []) with 0. lia.
  - rewrite (IH _ _ Hf), zlen_app. f_equal. lia.
Qed.

Lemma concat_take_drop {A} (ll : list (list A)) f l :
  ll !! f = Some l ->
  concat ll = concat (take f ll) ++ l ++ concat (drop (S f) ll).
Proof.
  intros Hl. rewrite <- (take_drop_middle _ _ _ Hl) at 1. rewrite concat_app. reflexivity.
Qed.

Lemma words_at_app_l load at_ rec vs ws : words_at load at_ rec (vs ++ ws) -> words_at load at_ rec vs.
Proof. intros Hw i v Hi. apply Hw. by apply lookup_app_l_Some. Qed.

Lemma dissected_searches info offs funcs lens b jb ks ls l :
  reported info offs funcs lens b jb ks ls ->
  raw_linfo l = b -> raw_jited_linfo l = jb ->
  rec_size l = line_info_rec_size info -> jited_rec_size l = jited_line_info_rec_size info ->
  nr_linfo l = zlen offs -> nr_jited_func l = zlen funcs ->
  jited_linfo_func_idx l = starts 0 funcs -> nr_jited_linfo_per_func l = zlen <$> funcs ->
  searches l offs funcs.
Proof.
  intros R Hb Hjb Hrec Hjrec Hnr Hnf Hidx Hnrs. destruct R. unfold file_name_off in *.
  split; [|split].
  - intros key skip. rewrite Hrec. destruct rp_linfo0 as [_ Hw].
    rewrite <- Hb, <- Hrec in Hw. rewrite <- Hrec. apply lfind_ok; [exact Hw | exact Hnr | lia |].
    rewrite Hrec. lia.
  - intros f addrs key skip Hf. destruct rp_jited0 as [_ Hw].
    pose proof (concat_take_drop _ _ _ Hf) as Hcat.
    assert (Hlen : zlen (concat (take f funcs)) + zlen addrs <= zlen offs).
    { rewrite rp_offs0, Hcat, !zlen_app. pose proof (zlen_nonneg (concat (drop (S f) funcs))). lia. }
    pose proof (zlen_nonneg (concat (take f funcs))). pose proof (zlen_nonneg addrs).
    apply lfind_addr_func_ok; try lia.
    + apply lookup_lt_Some in Hf. unfold zlen in *. lia.
    + rewrite Hnrs. apply aget_Ok. split; [lia|]. by rewrite Nat2Z.id, list_lookup_fmap, Hf.
    + rewrite Hidx. apply aget_Ok. split; [lia|]. rewrite Nat2Z.id, (starts_lookup _ _ _ _ Hf). f_equal.
    + rewrite Hjb, Hjrec. rewrite Hcat in Hw.
      apply (words_at_drop _ _ _ _ (length (concat (take f funcs)))) in Hw.
      rewrite drop_app_length, Z.add_0_l in Hw. by apply words_at_app_l in Hw.
    + nia.
    + rewrite Hrec. nia.
    + rewrite Hjrec. nia.
  - intros f key skip Hf. unfold bpf_prog_linfo__lfind_addr_func. rewrite Hnf.
    by replace (zlen funcs <=? f) with true by lia.
Qed.

#[local] Ltac alloc_step :=
  match goal with |- context [sys_alloc ?k] =>
    let Em := fresh "Em" in
    destruct (sys_alloc k) as [[|] ?] eqn:Em; cbn [negb];
      [|do 2 eexists; split; [reflexivity|]; exists k; by rewrite Em]
  end.

(** C20: From what the kernel reports of a JITed program the line
    information is always built, unless memory runs out, and its searches
    find the right record: by instruction the last one from [nr_skip] on
    before the first that lies beyond; by address the same among the
    records of the function asked for. *)
Theorem line_info_searches {K} `{BpfSys K} (junk : Z) (k : K) info offs funcs lens b jb ks ls
    (R : reported info offs funcs lens b jb ks ls) :
  exists o k', bpf_prog_linfo__new junk k info = Ok (o, k') /\
    match o with
    | None => exists k0 : K, fst (sys_alloc k0) = false
    | Some l => searches l offs funcs
    end.
Proof.
  pose proof (dissected_searches info offs funcs lens b jb ks ls) as Hsearch.
  destruct (R) as [Hlay Hsome Hoffs [Hnr Hjnr] [Hnf Hnl] [Hli Hlw] [Hji Hjw] [Hks Hkw] [Hls Hlsw]
    [Hbz Hjbz] [Hrec Hjrec] [Hb32 Hjb32]]. unfold file_name_off in *.
  assert (Hpos : 0 < zlen (concat funcs)).
  { destruct Hlay as (_ & Hne & _). destruct funcs as [|[|a f0] rest]; [done | | ].
    - by apply Forall_cons in Hne as [? _].
    - cbn. unfold zlen. cbn. lia. }
  assert (Hfpos : 0 < zlen funcs) by (destruct funcs; [done | unfold zlen; cbn; lia]).
  unfold bpf_prog_linfo__new, file_name_off. rewrite Hnr, Hnf, Hjnr, Hnl.
  replace (zlen (concat funcs) =? 0) with false by lia.
  replace (line_info_rec_size info <? 4) with false by lia.
  alloc_step. alloc_step.
  rewrite Hli, Hji, Hks, Hls. cbn [deref or_fault mbind res_bind].
  rewrite <- Hoffs, <- Hbz, <- Hjbz, !u64_small by (pose proof (zlen_nonneg b); pose proof (zlen_nonneg jb); lia).
  rewrite !mread_all. cbn [mbind res_bind].
  replace (zlen funcs =? 0) with false by lia. rewrite !Z.eqb_refl.
  replace (jited_line_info_rec_size info <? 8) with false by lia.
  rewrite !bool_decide_true by eauto. cbn [negb orb].
  alloc_step. cbn [mbind res_bind]. alloc_step. alloc_step.
  set (l0 := mk_plinfo _ _ _ _ _ _ _ _).
  destruct (dissect_ok funcs lens ks ls (zlen offs) (jited_line_info_rec_size info) Hlay Hkw Hlsw
    Hoffs l0 Hsome) as (l & -> & (Hs1 & Hs2 & Hs3 & Hs4 & Hs5 & Hs6) & Hidx & Hnrs).
  { by repeat split. }
  { cbn. rewrite length_replicate. unfold zlen. lia. }
  { cbn. rewrite length_replicate. unfold zlen. lia. }
  cbn [mbind res_bind]. do 2 eexists. split; [reflexivity|]. by apply Hsearch.
Qed.

(** Two functions of two and three records. *)
Definition demo_offs : list Z := [0; 1; 3; 4; 7].
Definition demo_funcs : list (list Z) := [[4096; 4100]; [8192; 8200; 8204]].
Definition demo_linfo_b : list byte :=
  concat ((fun o => le_bytes 4 o ++ replicate 12 Byte.x00) <$> demo_offs).
Definition demo_jited_b : list byte := concat (le_bytes 8 <$> concat demo_funcs).
Definition demo_ksyms : list byte := le_bytes 8 4096 ++ le_bytes 8 8192.
Definition demo_lens : list byte := le_bytes 4 8 ++ le_bytes 4 16.
Definition demo_pinfo : bpf_prog_info :=
  mk_pinfo 5 16 (Some demo_linfo_b) 5 8 (Some demo_jited_b) 2 (Some demo_ksyms) 2 (Some demo_lens).

Lemma demo_layout : layout demo_funcs [8; 16].
Proof.
  split; [reflexivity|]. split; [apply Forall_cons_2; [done|]; by apply Forall_singleton|].
  split; [apply Forall_cons_2; [lia|]; apply Forall_singleton; lia|].
  intros [|[|f]] addrs len Hf Hl; try done; injection Hf as <-; injection Hl as <-.
  - split.
    + intros [|[|i]] x y Hx Hy; try done. injection Hx as <-. injection Hy as <-. lia.
    + intros x y [= <-] [= <-]. lia.
    + intros [|[|i]] x Hx; try done; injection Hx as <-; done.
  - split.
    + intros [|[|[|i]]] x y Hx Hy; try done; injection Hx as <-; injection Hy as <-; lia.
    + intros x y [= <-] [= <-]. lia.
    + done.
Qed.

#[local] Ltac words :=
  let i := fresh "i" in let Hi := fresh "Hi" in
  intros i ? Hi; do 5 (try (destruct i as [|i]; [injection Hi as <-; vm_compute; reflexivity|]));
  discriminate Hi.

Lemma demo_reported :
  reported demo_pinfo demo_offs demo_funcs [8; 16] demo_linfo_b demo_jited_b demo_ksyms demo_lens.
Proof.
  split; try (split; reflexivity); try done; try (split; [reflexivity | words]).
  exact demo_layout.
Qed.

(** Address 8203 is in the second function, at its second record. *)
Lemma line_info_searches_witness :
  (exists o k', bpf_prog_linfo__new 0 demo_start demo_pinfo = Ok (o, k') /\
    match o with
    | None => exists k0 : demo, fst (sys_alloc k0) = false
    | Some l => searches l demo_offs demo_funcs
    end) /\
  (o ← bpf_prog_linfo__new 0 demo_start demo_pinfo;
   match fst o with
   | Some l => bpf_prog_linfo__lfind_addr_func l 8203 1 0
   | None => Ok None
   end) = Ok (Some 48).
Proof.
  split; [exact (line_info_searches 0 demo_start _ _ _ _ _ _ _ _ demo_reported)|].
  vm_compute. reflexivity.
Defined.

(** * Any report *)

(** Whatever the records hold, dividing them stays inside the blocks. *)
Lemma dissect_loop_safe ks ls fuel : forall l p prev_i i f,
  p = jited_rec_size l * (i - 1) -> 1 <= i <= nr_linfo l -> 1 <= f -> 8 <= jited_rec_size l ->
  jited_rec_size l * nr_linfo l <= zlen (raw_jited_linfo l) ->
  8 * nr_jited_func l <= zlen ks -> 4 * nr_jited_func l <= zlen ls ->
  zlen (jited_linfo_func_idx l) = nr_jited_func l -> zlen (nr_jited_linfo_per_func l) = nr_jited_func l ->
  nr_linfo l - i < Z.of_nat fuel ->
  exists o, dissect_loop fuel l ks ls p prev_i i f = Ok o /\
    match o with
    | Some (l', _, _) => nr_jited_func l' = nr_jited_func l /\
        zlen (nr_jited_linfo_per_func l') = nr_jited_func l
    | None => True
    end.
Proof.
  induction fuel as [|fuel IH]; intros l p prev_i i f Hp Hi Hf Hrec Hraw Hks Hls Hidx Hnrs Hfuel;
    cbn [dissect_loop].
  { lia. }
  destruct (Z.ltb_spec i (nr_linfo l)) as [Hin|Hin]; [|eexists; split; [reflexivity | done]].
  destruct (Z.ltb_spec f (nr_jited_func l)) as [Hfn|Hfn]; [|eexists; split; [reflexivity | done]].
  cbn [andb negb].
  destruct (load64_in (raw_jited_linfo l) p) as [last ->]; [unfold in_block; nia|].
  destruct (load64_in (raw_jited_linfo l) (p + jited_rec_size l)) as [v ->]; [unfold in_block; nia|].
  destruct (load64_in ks (8 * f)) as [kf ->]; [unfold in_block; lia|]. cbn [mbind res_bind].
  destruct (kf =? v).
  - destruct (load64_in ks (8 * (f - 1))) as [pf ->]; [unfold in_block; lia|].
    destruct (load32_in ls (4 * (f - 1))) as [pl ->]; [unfold in_block; lia|].
    rewrite (aset_Ok (jited_linfo_func_idx l)) by lia. cbn [mbind res_bind].
    destruct (pl <? _); [eexists; split; [reflexivity | done]|].
    rewrite (aset_Ok (nr_jited_linfo_per_func l)) by lia. cbn [mbind res_bind].
    set (l1 := mk_plinfo _ _ _ _ _ _ _ _).
    apply (IH l1); cbn; try lia; unfold zlen in *; rewrite ?length_insert; lia.
  - destruct (v <=? last); [eexists; split; [reflexivity | done]|].
    apply IH; try assumption; lia.
Qed.

Lemma dissect_never_faults l ks ls :
  1 <= nr_linfo l -> 1 <= nr_jited_func l -> 8 <= jited_rec_size l ->
  jited_rec_size l * nr_linfo l <= zlen (raw_jited_linfo l) ->
  8 * nr_jited_func l <= zlen ks -> 4 * nr_jited_func l <= zlen ls ->
  zlen (jited_linfo_func_idx l) = nr_jited_func l -> zlen (nr_jited_linfo_per_func l) = nr_jited_func l ->
  exists o, dissect_jited_func l ks ls = Ok o.
Proof.
  intros Hn Hf Hrec Hraw Hks Hls Hidx Hnrs. unfold dissect_jited_func.
  destruct (load64_in ks 0) as [kf ->]; [unfold in_block; lia|].
  destruct (load64_in (raw_jited_linfo l) 0) as [v ->]; [unfold in_block; nia|]. cbn [mbind res_bind].
  destruct (kf =? v); cbn [negb]; [|eauto]. rewrite aset_Ok by lia. cbn [mbind res_bind].
  match goal with |- context [dissect_loop ?n ?l1 _ _ _ _ _ _] =>
    destruct (dissect_loop_safe ks ls n l1 0 0 1 1) as (o & -> & Ho) end;
    cbn; try lia; try (unfold zlen in *; rewrite ?length_insert; lia).
  destruct o as [[[l' prev_i] f]|]; [|eauto]. cbn [mbind res_bind]. destruct Ho as [-> Ho]. cbn [nr_jited_func] in *.
  destruct (f =? nr_jited_func l); cbn [negb]; [|eauto]. cbn in Ho.
  rewrite aset_Ok by lia. eauto.
Qed.
