(* ===== verification/Btf.v ===== *)
(** BTF, the type information of BPF objects
    ([src/eBPF_app/libbpf/src/btf.c], [btf.h] and
    [include/uapi/linux/btf.h]): the parser, the look-ups on parsed data and
    loading into the kernel. The data is one block of bytes and a pointer
    into it an offset; fields are read from the bytes where the code reads
    them, so a read outside the block is a fault. *)
From S2P Require Import Prelude CLib XdpLink LibbpfObj LibbpfLoad.
#[local] Open Scope Z_scope.

Definition ENOTSUP : Z := 95.

(** * 1. The format *)

Definition BTF_MAGIC : Z := 0xeB9F.
Definition BTF_VERSION : Z := 1.

Definition BTF_INFO_KIND (info : Z) : Z := Z.land (Z.shiftr info 24) 0x0f.
Definition BTF_INFO_VLEN (info : Z) : Z := Z.land info 0xffff.
Definition BTF_INFO_KFLAG (info : Z) : Z := Z.shiftr info 31.

Definition BTF_KIND_INT : Z := 1.
Definition BTF_KIND_PTR : Z := 2.
Definition BTF_KIND_ARRAY : Z := 3.
Definition BTF_KIND_STRUCT : Z := 4.
Definition BTF_KIND_UNION : Z := 5.
Definition BTF_KIND_ENUM : Z := 6.
Definition BTF_KIND_FWD : Z := 7.
Definition BTF_KIND_TYPEDEF : Z := 8.
Definition BTF_KIND_VOLATILE : Z := 9.
Definition BTF_KIND_CONST : Z := 10.
Definition BTF_KIND_RESTRICT : Z := 11.
Definition BTF_KIND_FUNC : Z := 12.
Definition BTF_KIND_FUNC_PROTO : Z := 13.
Definition BTF_KIND_VAR : Z := 14.
Definition BTF_KIND_DATASEC : Z := 15.

Definition BTF_INT_ENCODING (v : Z) : Z := Z.shiftr (Z.land v 0x0f000000) 24.
Definition BTF_INT_OFFSET (v : Z) : Z := Z.shiftr (Z.land v 0x00ff0000) 16.
Definition BTF_INT_BITS (v : Z) : Z := Z.land v 0x000000ff.
Definition BTF_MEMBER_BITFIELD_SIZE (v : Z) : Z := Z.shiftr v 24.
Definition BTF_MEMBER_BIT_OFFSET (v : Z) : Z := Z.land v 0xffffff.

(** The sizes of the structures, all made of 32-bit words. *)
Definition sizeof_btf_header : Z := 24.
Definition sizeof_btf_type : Z := 12.
Definition sizeof_btf_enum : Z := 8.
Definition sizeof_btf_array : Z := 12.
Definition sizeof_btf_member : Z := 12.
Definition sizeof_btf_param : Z := 8.
Definition sizeof_btf_var : Z := 4.
Definition sizeof_btf_var_secinfo : Z := 12.

(** * 2. The parsed data *)

(** A [struct btf_type *] that is not NULL: the static [btf_void], or a
    place in the data. *)
Inductive type_ptr := Void | At (off : Z).

#[export] Instance type_ptr_eq_dec : EqDecision type_ptr.
Proof. solve_decision. Defined.

(** [struct btf]; a slot of [types] that was not written yet is [None].
    [strings] and [nohdr_data] are offsets into the data. *)
Record btf := mk_btf {
  b_data : list byte;
  b_types : list (option type_ptr);
  b_strings : Z;
  b_nohdr : Z;
  nr_types : Z;
  types_size : Z;
  data_size : Z;
  b_fd : Z
}.

Definition set_types (ts : list (option type_ptr)) (nr size : Z) (b : btf) : btf :=
  mk_btf (b_data b) ts (b_strings b) (b_nohdr b) nr size (data_size b) (b_fd b).
Definition set_strings (s : Z) (b : btf) : btf :=
  mk_btf (b_data b) (b_types b) s (b_nohdr b) (nr_types b) (types_size b) (data_size b) (b_fd b).
Definition set_nohdr (s : Z) (b : btf) : btf :=
  mk_btf (b_data b) (b_types b) (b_strings b) s (nr_types b) (types_size b) (data_size b) (b_fd b).
Definition set_btf_fd (fd : Z) (b : btf) : btf :=
  mk_btf (b_data b) (b_types b) (b_strings b) (b_nohdr b) (nr_types b) (types_size b)
    (data_size b) fd.

(** The members of the header. *)
Definition h_magic (b : btf) : res Z := load16 (b_data b) 0.
Definition h_version (b : btf) : res Z := load8 (b_data b) 2.
Definition h_flags (b : btf) : res Z := load8 (b_data b) 3.
Definition h_type_off (b : btf) : res Z := load32 (b_data b) 8.
Definition h_str_off (b : btf) : res Z := load32 (b_data b) 16.
Definition h_str_len (b : btf) : res Z := load32 (b_data b) 20.

(** The members of a [struct btf_type]; those of [btf_void] are zero. The
    union of [size] and [type] is [t_size]. *)
Definition t_field (b : btf) (t : type_ptr) (o : Z) : res Z :=
  match t with Void => Ok 0 | At off => load32 (b_data b) (off + o) end.
Definition t_name_off (b : btf) (t : type_ptr) : res Z := t_field b t 0.
Definition t_info (b : btf) (t : type_ptr) : res Z := t_field b t 4.
Definition t_size (b : btf) (t : type_ptr) : res Z := t_field b t 8.
Definition t_type (b : btf) (t : type_ptr) : res Z := t_field b t 8.
(** The 32-bit word [w] of what follows the type: behind [btf_void] there
    is nothing the code may read. *)
Definition t_word (b : btf) (t : type_ptr) (w : Z) : res Z :=
  match t with
  | Void => Err OutOfBounds
  | At off => load32 (b_data b) (off + sizeof_btf_type + 4 * w)
  end.

(** The helpers of [btf.h]. *)
Definition btf_kind (b : btf) (t : type_ptr) : res Z := i ← t_info b t; Ok (BTF_INFO_KIND i).
Definition btf_vlen (b : btf) (t : type_ptr) : res Z := i ← t_info b t; Ok (BTF_INFO_VLEN i).
Definition btf_kflag (b : btf) (t : type_ptr) : res bool :=
  i ← t_info b t; Ok (negb (BTF_INFO_KFLAG i =? 0)).
Definition btf_is (kind : Z) (b : btf) (t : type_ptr) : res bool :=
  k ← btf_kind b t; Ok (k =? kind).
Definition btf_is_composite (b : btf) (t : type_ptr) : res bool :=
  k ← btf_kind b t; Ok ((k =? BTF_KIND_STRUCT) || (k =? BTF_KIND_UNION)).
Definition btf_is_mod (b : btf) (t : type_ptr) : res bool :=
  k ← btf_kind b t;
  Ok ((k =? BTF_KIND_VOLATILE) || (k =? BTF_KIND_CONST) || (k =? BTF_KIND_RESTRICT)).
Definition btf_int_encoding (b : btf) (t : type_ptr) : res Z :=
  v ← t_word b t 0; Ok (BTF_INT_ENCODING v).
Definition btf_int_offset (b : btf) (t : type_ptr) : res Z :=
  v ← t_word b t 0; Ok (BTF_INT_OFFSET v).
Definition btf_int_bits (b : btf) (t : type_ptr) : res Z :=
  v ← t_word b t 0; Ok (BTF_INT_BITS v).

(** [struct btf_array] and the members of a structure. *)
Definition array_type (b : btf) (t : type_ptr) : res Z := t_word b t 0.
Definition array_nelems (b : btf) (t : type_ptr) : res Z := t_word b t 2.
Definition member_name_off (b : btf) (t : type_ptr) (i : Z) : res Z := t_word b t (3 * i).
Definition member_type (b : btf) (t : type_ptr) (i : Z) : res Z := t_word b t (3 * i + 1).
Definition member_offset (b : btf) (t : type_ptr) (i : Z) : res Z := t_word b t (3 * i + 2).
Definition btf_member_bit_offset (b : btf) (t : type_ptr) (i : Z) : res Z :=
  kflag ← btf_kflag b t;
  o ← member_offset b t i;
  Ok (if kflag : bool then BTF_MEMBER_BIT_OFFSET o else o).
Definition btf_member_bitfield_size (b : btf) (t : type_ptr) (i : Z) : res Z :=
  kflag ← btf_kflag b t;
  if kflag : bool then o ← member_offset b t i; Ok (BTF_MEMBER_BITFIELD_SIZE o) else Ok 0.

(** * 3. Parsing *)

Definition BTF_MAX_NR_TYPES : Z := 0x7fffffff.
Definition BTF_MAX_STR_OFFSET : Z := 0x7fffffff.

(** The error code, or 0 for none. *)
Definition btf_parse_hdr (b : btf) : res (Z * btf) :=
  if data_size b <? sizeof_btf_header then Ok (- EINVAL, b) else
  magic ← h_magic b;
  if negb (magic =? BTF_MAGIC) then Ok (- EINVAL, b) else
  version ← h_version b;
  if negb (version =? BTF_VERSION) then Ok (- ENOTSUP, b) else
  flags ← h_flags b;
  if negb (flags =? 0) then Ok (- ENOTSUP, b) else
  let meta_left := u32 (data_size b - sizeof_btf_header) in
  if meta_left =? 0 then Ok (- EINVAL, b) else
  type_off ← h_type_off b;
  str_off ← h_str_off b;
  if meta_left <? type_off then Ok (- EINVAL, b) else
  if meta_left <? str_off then Ok (- EINVAL, b) else
  if str_off <=? type_off then Ok (- EINVAL, b) else
  if negb (Z.land type_off 0x02 =? 0) then Ok (- EINVAL, b) else
  Ok (0, set_nohdr sizeof_btf_header b).

Definition btf_parse_str_sec (b : btf) : res (Z * btf) :=
  str_off ← h_str_off b;
  str_len ← h_str_len b;
  let start := b_nohdr b + str_off in
  let end_ := start + str_len in
  if (str_len =? 0) || (BTF_MAX_STR_OFFSET <? u32 (str_len - 1)) then Ok (- EINVAL, b) else
  first ← load8 (b_data b) start;
  if negb (first =? 0) then Ok (- EINVAL, b) else
  last ← load8 (b_data b) (end_ - 1);
  if negb (last =? 0) then Ok (- EINVAL, b) else
  Ok (0, set_strings start b).

Definition btf_type_size (b : btf) (t : type_ptr) : res Z :=
  vlen ← btf_vlen b t;
  kind ← btf_kind b t;
  Ok (if (kind =? BTF_KIND_FWD) || (kind =? BTF_KIND_CONST) || (kind =? BTF_KIND_VOLATILE)
         || (kind =? BTF_KIND_RESTRICT) || (kind =? BTF_KIND_PTR) || (kind =? BTF_KIND_TYPEDEF)
         || (kind =? BTF_KIND_FUNC) then sizeof_btf_type
      else if kind =? BTF_KIND_INT then sizeof_btf_type + 4
      else if kind =? BTF_KIND_ENUM then sizeof_btf_type + vlen * sizeof_btf_enum
      else if kind =? BTF_KIND_ARRAY then sizeof_btf_type + sizeof_btf_array
      else if (kind =? BTF_KIND_STRUCT) || (kind =? BTF_KIND_UNION)
        then sizeof_btf_type + vlen * sizeof_btf_member
      else if kind =? BTF_KIND_FUNC_PROTO then sizeof_btf_type + vlen * sizeof_btf_param
      else if kind =? BTF_KIND_VAR then sizeof_btf_type + sizeof_btf_var
      else if kind =? BTF_KIND_DATASEC then sizeof_btf_type + vlen * sizeof_btf_var_secinfo
      else - EINVAL).

(** * 4. Look-ups *)

Definition btf__get_nr_types (b : btf) : Z := nr_types b.

(** [None] is NULL. *)
Definition btf__type_by_id (b : btf) (type_id : Z) : res (option type_ptr) :=
  if nr_types b <? type_id then Ok None else
  slot ← aget (b_types b) type_id;
  t ← or_fault OutOfBounds slot;
  Ok (Some t).

Definition btf_type_is_void (b : btf) (t : type_ptr) : res bool :=
  match t with Void => Ok true | At _ => btf_is BTF_KIND_FWD b t end.
Definition btf_type_is_void_or_null (b : btf) (t : option type_ptr) : res bool :=
  match t with None => Ok true | Some t => btf_type_is_void b t end.

Definition MAX_RESOLVE_DEPTH : nat := 32.

(** The end of [btf__resolve_size]: the label [done]. *)
Definition size_done (size nelems : Z) : Z :=
  if size <? 0 then - EINVAL else
  if negb (nelems =? 0) && (UINT32_MAX / nelems <? size) then - E2BIG else nelems * size.

(** Its loop, [n] rounds left. *)
Fixpoint resolve_size_loop (n : nat) (b : btf) (t : option type_ptr) (nelems : Z) : res Z :=
  match n with
  | O => Ok (size_done (-1) nelems)
  | S n =>
      v ← btf_type_is_void_or_null b t;
      match t with
      | None => Ok (size_done (-1) nelems)
      | Some p =>
          if v : bool then Ok (size_done (-1) nelems) else
          kind ← btf_kind b p;
          if (kind =? BTF_KIND_INT) || (kind =? BTF_KIND_STRUCT) || (kind =? BTF_KIND_UNION)
             || (kind =? BTF_KIND_ENUM) || (kind =? BTF_KIND_DATASEC) then
            size ← t_size b p; Ok (size_done size nelems)
          else if kind =? BTF_KIND_PTR then Ok (size_done 8 nelems)
          else if (kind =? BTF_KIND_TYPEDEF) || (kind =? BTF_KIND_VOLATILE)
             || (kind =? BTF_KIND_CONST) || (kind =? BTF_KIND_RESTRICT) || (kind =? BTF_KIND_VAR) then
            type_id ← t_type b p;
            t ← btf__type_by_id b type_id;
            resolve_size_loop n b t nelems
          else if kind =? BTF_KIND_ARRAY then
            n_array ← array_nelems b p;
            if negb (nelems =? 0) && (UINT32_MAX / nelems <? n_array) then Ok (- E2BIG) else
            type_id ← array_type b p;
            t ← btf__type_by_id b type_id;
            resolve_size_loop n b t (u32 (nelems * n_array))
          else Ok (- EINVAL)
      end
  end.

Definition btf__resolve_size (b : btf) (type_id : Z) : res Z :=
  t ← btf__type_by_id b type_id;
  resolve_size_loop MAX_RESOLVE_DEPTH b t 1.

(** Modifiers, typedefs and variables are followed. *)
Definition follows (b : btf) (t : type_ptr) : res bool :=
  k ← btf_kind b t;
  Ok ((k =? BTF_KIND_VOLATILE) || (k =? BTF_KIND_CONST) || (k =? BTF_KIND_RESTRICT)
      || (k =? BTF_KIND_TYPEDEF) || (k =? BTF_KIND_VAR)).

Fixpoint resolve_type_loop (n : nat) (b : btf) (t : option type_ptr) (type_id : Z) : res Z :=
  match n with
  | O => Ok (- EINVAL)
  | S n =>
      v ← btf_type_is_void_or_null b t;
      match t with
      | None => Ok (- EINVAL)
      | Some p =>
          if v : bool then Ok (- EINVAL) else
          go ← follows b p;
          if go : bool then
            type_id ← t_type b p;
            t ← btf__type_by_id b type_id;
            resolve_type_loop n b t type_id
          else Ok (s32 type_id)
      end
  end.

Definition btf__resolve_type (b : btf) (type_id : Z) : res Z :=
  t ← btf__type_by_id b type_id;
  resolve_type_loop MAX_RESOLVE_DEPTH b t type_id.

(** A pointer into the strings as an offset into the data; [None] is NULL. *)
Definition btf__name_by_offset (b : btf) (offset : Z) : res (option Z) :=
  len ← h_str_len b;
  Ok (if offset <? len then Some (b_strings b + offset) else None).

(** The string at an offset of the data, as [strcmp] and [%s] read it. *)
Definition str_at (b : btf) (o : Z) : res (list byte) :=
  if (0 <=? o) && (o <=? zlen (b_data b)) then c_string (drop (Z.to_nat o) (b_data b))
  else Err OutOfBounds.

(** The loop of [btf__find_by_name], [n] types left from [i] on. *)
Fixpoint find_by_name_loop (n : nat) (b : btf) (i : Z) (type_name : list byte) : res Z :=
  match n with
  | O => Ok (- ENOENT)
  | S n =>
      slot ← aget (b_types b) i;
      t ← or_fault OutOfBounds slot;
      name_off ← t_name_off b t;
      name ← btf__name_by_offset b name_off;
      found ← match name with
              | None => Ok false
              | Some o => s ← str_at b o; Ok (bool_decide (s = type_name))
              end;
      if found : bool then Ok (s32 i) else find_by_name_loop n b (i + 1) type_name
  end.

Definition btf__find_by_name (b : btf) (type_name : list byte) : res Z :=
  if bool_decide (type_name = bytes_of "void") then Ok 0 else
  find_by_name_loop (Z.to_nat (nr_types b)) b 1 type_name.

Definition btf__fd (b : btf) : Z := b_fd b.
Definition btf__get_raw_data (b : btf) : list byte * Z := (b_data b, data_size b).

(** [btf__get_map_kv_tids]: the error code, and the two type ids when it is 0. *)
Definition MAX_NAME : Z := 256.
Definition btf__get_map_kv_tids (b : btf) (map_name : list byte)
    (expected_key_size expected_value_size : Z) : res (Z * option (Z * Z)) :=
  let full := bytes_of "____btf_map_" ++ map_name in
  if zlen full =? MAX_NAME then Ok (- EINVAL, None) else
  let container_name := take (Z.to_nat (MAX_NAME - 1)) full in
  container_id ← btf__find_by_name b container_name;
  if container_id <? 0 then Ok (container_id, None) else
  t ← btf__type_by_id b container_id;
  match t with
  | None => Ok (- EINVAL, None)
  | Some t =>
      is_struct ← btf_is BTF_KIND_STRUCT b t;
      vlen ← btf_vlen b t;
      if negb is_struct || (vlen <? 2) then Ok (- EINVAL, None) else
      key ← member_type b t 0;
      key_size ← btf__resolve_size b key;
      if key_size <? 0 then Ok (key_size, None) else
      if negb (expected_key_size =? key_size) then Ok (- EINVAL, None) else
      value ← member_type b t 1;
      value_size ← btf__resolve_size b value;
      if value_size <? 0 then Ok (value_size, None) else
      if negb (expected_value_size =? value_size) then Ok (- EINVAL, None) else
      Ok (0, Some (key, value))
  end.

(** * 5. Creating, loading and fetching *)

Section btf.
Context {K : Type} `{BpfSys K}.

Definition btf_add_type (k : K) (b : btf) (t : type_ptr) : res (Z * btf * K) :=
  '(err, b, k) ←
    (if types_size b - nr_types b <? 2 then
       if types_size b =? BTF_MAX_NR_TYPES then Ok (- E2BIG, b, k) else
       let expand_by := Z.max (Z.shiftr (types_size b) 2) 16 in
       let new_size := Z.min BTF_MAX_NR_TYPES (types_size b + expand_by) in
       let '(ok, k) := sys_alloc k in
       if negb ok then Ok (- ENOMEM, b, k) else
       let new_types := b_types b ++ replicate (Z.to_nat (new_size - types_size b)) None in
       new_types ← (if nr_types b =? 0 then aset new_types 0 (Some Void) else Ok new_types);
       Ok (0, set_types new_types (nr_types b) new_size b, k)
     else Ok (0, b, k));
  if negb (err =? 0) then Ok (err, b, k) else
  ts ← aset (b_types b) (nr_types b + 1) (Some t);
  Ok (0, set_types ts (nr_types b + 1) (types_size b) b, k).

Fixpoint parse_types_loop (fuel : nat) (k : K) (b : btf) (next_type end_type : Z)
    : res (Z * btf * K) :=
  match fuel with
  | O => Err OutOfFuel
  | S fuel =>
      if negb (next_type <? end_type) then Ok (0, b, k) else
      type_size ← btf_type_size b (At next_type);
      if type_size <? 0 then Ok (type_size, b, k) else
      '(err, b, k) ← btf_add_type k b (At next_type);
      if negb (err =? 0) then Ok (err, b, k) else
      parse_types_loop fuel k b (next_type + type_size) end_type
  end.

Definition btf_parse_type_sec (k : K) (b : btf) : res (Z * btf * K) :=
  type_off ← h_type_off b;
  str_off ← h_str_off b;
  parse_types_loop (S (length (b_data b))) k b (b_nohdr b + type_off) (b_nohdr b + str_off).

Definition btf__free (k : K) (b : btf) : K :=
  if negb (b_fd b =? -1) then snd (sys_close k (b_fd b)) else k.

(** The error code of the returned pointer, or the BTF it points to. *)
Definition btf__new (k : K) (data : list byte) (size : Z) : res ((Z + btf) * K) :=
  let '(m1, k) := sys_alloc k in
  if negb m1 then Ok (inl (- ENOMEM), k) else
  let '(m2, k) := sys_alloc k in
  let b := mk_btf [] [] 0 0 0 0 0 (-1) in
  if negb m2 then Ok (inl (- ENOMEM), btf__free k b) else
  copy ← mread data 0 size;
  let b := mk_btf copy [] 0 0 0 0 size (-1) in
  '(err, b) ← btf_parse_hdr b;
  if negb (err =? 0) then Ok (inl err, btf__free k b) else
  '(err, b) ← btf_parse_str_sec b;
  if negb (err =? 0) then Ok (inl err, btf__free k b) else
  '(err, b, k) ← btf_parse_type_sec k b;
  if negb (err =? 0) then Ok (inl err, btf__free k b) else
  Ok (inr b, k).

End btf.

(** What the kernel answers about a BTF object: its size, and the bytes it
    put into the buffer. *)
Inductive btf_answer := BInfo (btf_size : Z) (bytes : list byte) | BErr (e : Z).

(** The calls of the kernel about BTF. *)
Class BtfSys (K : Type) := {
  (** [BPF_BTF_LOAD] of the data, with a log of so many bytes if asked for;
      whether the log is not empty afterwards *)
  sys_btf_load : K -> list byte -> option Z -> sysret * K;
  sys_btf_fd_by_id : K -> Z -> sysret * K;
  (** [BPF_OBJ_GET_INFO_BY_FD] with a buffer of so many bytes *)
  sys_btf_info : K -> Z -> Z -> btf_answer * K
}.

Section sys.
Context {K : Type} `{BpfSys K} `{BtfSys K}.

(** [bpf_load_btf] ([bpf.c]): [log] is the size of the log buffer, if there
    is one. *)
Definition bpf_load_btf (k : K) (data : list byte) (log : option Z) (do_log : bool) : sysret * K :=
  let has_log := match log with Some size => negb (size =? 0) | None => false end in
  let '(fd, k) := sys_btf_load k data (if do_log && has_log then log else None) in
  match fd with
  | RErr _ => if negb do_log && has_log then sys_btf_load k data log else (fd, k)
  | ROk _ => (fd, k)
  end.

Definition btf__load (k : K) (b : btf) : Z * btf * K :=
  if 0 <=? b_fd b then (- EEXIST, b, k) else
  let '(ok, k) := sys_alloc k in
  if negb ok then (- ENOMEM, b, k) else
  match bpf_load_btf k (b_data b) (Some BPF_LOG_BUF_SIZE) false with
  | (ROk fd, k) => (0, set_btf_fd fd b, k)
  | (RErr e, k) => (- e, set_btf_fd (-1) b, k)
  end.

Definition zeros (n : Z) : list byte := replicate (Z.to_nat n) NUL.

(** The end of [btf__get_from_id], from the last answer on: [buf] holds
    what was asked for. *)
Definition get_from_id_end (k : K) (fd : Z) (a : btf_answer) (last_size : Z)
    : res (Z * option btf * K) :=
  match a with
  | BErr e => Ok (e, None, snd (sys_close k fd))
  | BInfo btf_size bytes =>
      buf ← mwrite (zeros last_size) 0 bytes;
      if last_size <? btf_size then Ok (sys_errno k, None, snd (sys_close k fd)) else
      '(r, k) ← btf__new k buf btf_size;
      Ok (match r with inl err => err | inr _ => 0 end,
          match r with inl _ => None | inr b => Some b end, snd (sys_close k fd))
  end.

(** The value returned, and what [*btf] points to. *)
Definition btf__get_from_id (k : K) (id : Z) : res (Z * option btf * K) :=
  match sys_btf_fd_by_id k id with
  | (RErr _, k) => Ok (0, None, k)
  | (ROk fd, k) =>
      let '(ok, k) := sys_alloc k in
      if negb ok then Ok (- ENOMEM, None, snd (sys_close k fd)) else
      let '(a, k) := sys_btf_info k fd 4096 in
      match a with
      | BInfo btf_size bytes =>
          if 4096 <? btf_size then
            _ ← mwrite (zeros 4096) 0 bytes;
            let '(ok, k) := sys_alloc k in
            if negb ok then Ok (- ENOMEM, None, snd (sys_close k fd)) else
            let '(a, k) := sys_btf_info k fd btf_size in
            get_from_id_end k fd a btf_size
          else get_from_id_end k fd a 4096
      | BErr _ => get_from_id_end k fd a 4096
      end
  end.
End sys.
