(* ===== verification/BtfSpec.v ===== *)
(** Types as values: what BTF data stands for. A type is a record, an object
    file's types a list of them (the type with id 1 first) and its strings
    one block. [encode] is the data a compiler emits for them, [represents]
    says that a parsed [btf] stands for them, and the readers of [Btf] are
    then functions of the records. *)
From S2P Require Import Prelude CLib LibbpfObj LibbpfLoad Btf.
#[local] Open Scope Z_scope.

(** * 1. Types *)

Record btype := mk_btype {
  ty_name : Z; ty_kind : Z; ty_kflag : bool; ty_vlen : Z; ty_size : Z; ty_words : list Z
}.

#[export] Instance btype_eq_dec : EqDecision btype.
Proof. solve_decision. Defined.

Definition ty_info (t : btype) : Z :=
  (if ty_kflag t then 2 ^ 31 else 0) + ty_kind t * 2 ^ 24 + ty_vlen t.

(** How many words follow a type. *)
Definition extra_words (kind vlen : Z) : Z :=
  if kind =? BTF_KIND_INT then 1
  else if kind =? BTF_KIND_ARRAY then 3
  else if (kind =? BTF_KIND_STRUCT) || (kind =? BTF_KIND_UNION) || (kind =? BTF_KIND_DATASEC)
    then 3 * vlen
  else if (kind =? BTF_KIND_ENUM) || (kind =? BTF_KIND_FUNC_PROTO) then 2 * vlen
  else if kind =? BTF_KIND_VAR then 1 else 0.

Definition u32_ok (z : Z) : Prop := 0 <= z < 2 ^ 32.

Record ty_ok (t : btype) : Prop := {
  ty_kind_ok : 1 <= ty_kind t <= 15;
  ty_vlen_ok : 0 <= ty_vlen t < 2 ^ 16;
  ty_name_ok : u32_ok (ty_name t);
  ty_size_ok : u32_ok (ty_size t);
  ty_words_ok : Forall u32_ok (ty_words t);
  ty_words_len : zlen (ty_words t) = extra_words (ty_kind t) (ty_vlen t)
}.

(** * 2. Words in memory *)

Definition enc_words (ws : list Z) : list byte := ws ≫= le_bytes 4.

Lemma zlen_enc_words ws : zlen (enc_words ws) = 4 * zlen ws.
Proof.
  induction ws as [|w ws IH]; [reflexivity|].
  change (enc_words (w :: ws)) with (le_bytes 4 w ++ enc_words ws).
  rewrite zlen_app, zlen_le_bytes, IH. unfold zlen. cbn [length]. lia.
Qed.

Lemma enc_words_app ws vs : enc_words (ws ++ vs) = enc_words ws ++ enc_words vs.
Proof. apply bind_app. Qed.

(** The words at [o] are [ws]. *)
Definition words_at (m : list byte) (o : Z) (ws : list Z) : Prop :=
  mread m o (zlen (enc_words ws)) = Ok (enc_words ws).

Lemma words_at_app m o ws vs :
  words_at m o (ws ++ vs) -> words_at m o ws /\ words_at m (o + 4 * zlen ws) vs.
Proof.
  unfold words_at. rewrite enc_words_app. intros [H1 H2]%mread_split.
  rewrite zlen_enc_words in H2. rewrite <- zlen_enc_words in H2. rewrite zlen_enc_words in H2. auto.
Qed.

Lemma words_at_load m o ws (i : nat) w :
  words_at m o ws -> ws !! i = Some w -> u32_ok w -> load32 m (o + 4 * Z.of_nat i) = Ok w.
Proof.
  intros Hm Hi Hw. rewrite <- (take_drop_middle ws i w Hi) in Hm.
  apply words_at_app in Hm as [_ Hm]. change (w :: drop (S i) ws) with ([w] ++ drop (S i) ws) in Hm.
  apply words_at_app in Hm as [Hm _]. apply lookup_lt_Some in Hi.
  replace (zlen (take i ws)) with (Z.of_nat i) in Hm by (unfold zlen; rewrite length_take; lia).
  apply mread_load32; [|exact Hw]. unfold words_at in Hm.
  change (enc_words [w]) with (le_bytes 4 w ++ []) in Hm. rewrite app_nil_r in Hm. exact Hm.
Qed.

(** * 3. Types in memory *)

Definition type_words (t : btype) : list Z := ty_name t :: ty_info t :: ty_size t :: ty_words t.

Lemma info_fields t :
  ty_ok t ->
  u32_ok (ty_info t) /\ BTF_INFO_KIND (ty_info t) = ty_kind t /\
  BTF_INFO_VLEN (ty_info t) = ty_vlen t /\
  BTF_INFO_KFLAG (ty_info t) = bool_z (ty_kflag t).
Proof.
  intros [Hk Hv _ _ _ _]. unfold BTF_INFO_KIND, BTF_INFO_VLEN, BTF_INFO_KFLAG, u32_ok, ty_info, bool_z.
  change 0x0f with (Z.ones 4). change 0xffff with (Z.ones 16).
  rewrite !Z.land_ones, !Z.shiftr_div_pow2 by lia. change (2 ^ 24) with 16777216.
  change (2 ^ 16) with 65536 in *. change (2 ^ 31) with 2147483648. change (2 ^ 4) with 16.
  change (2 ^ 32) with 4294967296. destruct (ty_kflag t); repeat split; lia.
Qed.

(** The pointer [p] of [b] points to the type [t]. *)
Definition type_at (b : btf) (p : type_ptr) (t : btype) : Prop :=
  ty_ok t /\ exists o, p = At o /\ words_at (b_data b) o (type_words t).

Lemma type_at_field b p t (i : nat) w :
  type_at b p t -> take 3 (type_words t) !! i = Some w -> t_field b p (4 * Z.of_nat i) = Ok w.
Proof.
  intros (Hok & o & -> & Hw) Hi. cbn [t_field].
  assert (i < 3)%nat as Hlt by (apply lookup_lt_Some in Hi; rewrite length_take in Hi; lia).
  rewrite lookup_take_lt in Hi by exact Hlt. eapply words_at_load; [exact Hw | exact Hi|].
  destruct (info_fields t Hok) as (Hinfo & _). destruct Hok.
  destruct i as [|[|[|?]]]; [..|lia]; cbn in Hi; injection Hi as <-; assumption.
Qed.

Lemma type_at_name b p t : type_at b p t -> t_name_off b p = Ok (ty_name t).
Proof. intros H. exact (type_at_field b p t 0 _ H eq_refl). Qed.
Lemma type_at_info b p t : type_at b p t -> t_info b p = Ok (ty_info t).
Proof. intros H. exact (type_at_field b p t 1 _ H eq_refl). Qed.
Lemma type_at_size b p t : type_at b p t -> t_size b p = Ok (ty_size t).
Proof. intros H. exact (type_at_field b p t 2 _ H eq_refl). Qed.
Lemma type_at_type b p t : type_at b p t -> t_type b p = Ok (ty_size t).
Proof. apply type_at_size. Qed.

Lemma type_at_kind b p t : type_at b p t -> btf_kind b p = Ok (ty_kind t).
Proof.
  intros H. unfold btf_kind. rewrite (type_at_info _ _ _ H), bind_Ok.
  destruct H as [Hok _]. destruct (info_fields t Hok) as (_ & -> & _). reflexivity.
Qed.
Lemma type_at_vlen b p t : type_at b p t -> btf_vlen b p = Ok (ty_vlen t).
Proof.
  intros H. unfold btf_vlen. rewrite (type_at_info _ _ _ H), bind_Ok.
  destruct H as [Hok _]. destruct (info_fields t Hok) as (_ & _ & -> & _). reflexivity.
Qed.
Lemma type_at_kflag b p t : type_at b p t -> btf_kflag b p = Ok (ty_kflag t).
Proof.
  intros H. unfold btf_kflag. rewrite (type_at_info _ _ _ H), bind_Ok.
  destruct H as [Hok _]. destruct (info_fields t Hok) as (_ & _ & _ & ->).
  destruct (ty_kflag t); reflexivity.
Qed.
Lemma type_at_is b p t kind : type_at b p t -> btf_is kind b p = Ok (ty_kind t =? kind).
Proof. intros H. unfold btf_is. rewrite (type_at_kind _ _ _ H). reflexivity. Qed.
Lemma type_at_word b p t (i : nat) w :
  type_at b p t -> ty_words t !! i = Some w -> t_word b p (Z.of_nat i) = Ok w.
Proof.
  intros (Hok & o & -> & Hw) Hi. cbn [t_word]. unfold sizeof_btf_type.
  replace (o + 12 + 4 * Z.of_nat i) with (o + 4 * Z.of_nat (3 + i)) by lia.
  eapply words_at_load; [exact Hw | exact Hi|].
  destruct Hok as [_ _ _ _ Hws _]. rewrite Forall_lookup in Hws. eauto.
Qed.
Lemma type_at_not_void b p t : type_at b p t -> btf_type_is_void b p = Ok (ty_kind t =? BTF_KIND_FWD).
Proof. intros H. destruct H as (Hok & o & -> & Hw). apply type_at_is. split; eauto. Qed.

Lemma kind_cases k :
  1 <= k <= 15 -> k = 1 \/ k = 2 \/ k = 3 \/ k = 4 \/ k = 5 \/ k = 6 \/ k = 7 \/ k = 8 \/ k = 9 \/
    k = 10 \/ k = 11 \/ k = 12 \/ k = 13 \/ k = 14 \/ k = 15.
Proof. lia. Qed.

(** The size of a type is the size of its words. *)
Lemma type_at_length b p t :
  type_at b p t -> btf_type_size b p = Ok (4 * zlen (type_words t)).
Proof.
  intros H. unfold btf_type_size. rewrite (type_at_vlen _ _ _ H), (type_at_kind _ _ _ H). cbn [mbind res_bind].
  destruct H as [[Hk Hv _ _ _ Hl] _]. unfold type_words.
  replace (zlen (ty_name t :: ty_info t :: ty_size t :: ty_words t)) with (3 + zlen (ty_words t))
    by (unfold zlen; cbn [length]; lia).
  rewrite Hl. f_equal. unfold extra_words.
  unfold sizeof_btf_type, sizeof_btf_array, sizeof_btf_enum, sizeof_btf_member, sizeof_btf_param,
    sizeof_btf_var, sizeof_btf_var_secinfo.
  destruct (kind_cases _ Hk) as [E|Hc]; [rewrite E; cbn -[Z.mul]; lia|].
  repeat (destruct Hc as [E|Hc]; [rewrite E; cbn -[Z.mul]; lia|]). rewrite Hc. cbn -[Z.mul]. lia.
Qed.

(** * 4. The data of an object *)

Definition enc_types (tys : list btype) : list Z := tys ≫= type_words.

(** The header with the types at once behind it and the strings last. *)
Definition encode (tys : list btype) (strs : list byte) : list byte :=
  let type_len := 4 * zlen (enc_types tys) in
  le_bytes 2 BTF_MAGIC ++ [byte_of_Z BTF_VERSION; byte_of_Z 0] ++
  enc_words [sizeof_btf_header; 0; type_len; type_len; zlen strs] ++
  enc_words (enc_types tys) ++ strs.

(** Strings begin and end with a NUL. *)
Definition strs_ok (strs : list byte) : Prop :=
  strs !! O = Some NUL /\ last strs = Some NUL /\ zlen strs <= BTF_MAX_STR_OFFSET.

Definition encodable (tys : list btype) (strs : list byte) : Prop :=
  tys <> [] /\ Forall ty_ok tys /\ strs_ok strs /\ zlen (encode tys strs) < 2 ^ 32.

(** The type with an id. *)
Definition ty_at (tys : list btype) (id : Z) : option btype :=
  if 1 <=? id then tys !! Z.to_nat (id - 1) else None.

(** [b] stands for the types [tys] and the strings [strs]. *)
Record represents (b : btf) (tys : list btype) (strs : list byte) : Prop := {
  rep_nr : nr_types b = zlen tys;
  rep_count : zlen tys < 2 ^ 31;
  rep_void : aget (b_types b) 0 = Ok (Some Void);
  rep_type id t : ty_at tys id = Some t ->
    exists p, aget (b_types b) id = Ok (Some p) /\ type_at b p t;
  rep_str_len : h_str_len b = Ok (zlen strs);
  rep_strs : strs_ok strs;
  rep_str_data : exists pre suf, b_data b = pre ++ strs ++ suf /\ zlen pre = b_strings b
}.

Lemma ty_at_range tys id t : ty_at tys id = Some t -> 1 <= id <= zlen tys.
Proof.
  unfold ty_at. destruct (Z.leb_spec 1 id); [|discriminate].
  intros Ht%lookup_lt_Some. unfold zlen. lia.
Qed.
Lemma ty_at_in tys id : 1 <= id <= zlen tys -> exists t, ty_at tys id = Some t.
Proof.
  intros Hid. unfold ty_at. replace (1 <=? id) with true by lia.
  destruct (tys !! Z.to_nat (id - 1)) as [t|] eqn:E; [eauto|].
  apply lookup_ge_None in E. unfold zlen in Hid. lia.
Qed.

(** [btf__type_by_id] on any id. *)
Lemma rep_by_id b tys strs id :
  represents b tys strs -> 0 <= id ->
  (zlen tys < id /\ btf__type_by_id b id = Ok None) \/
  (id = 0 /\ btf__type_by_id b id = Ok (Some Void)) \/
  (exists t p, ty_at tys id = Some t /\ btf__type_by_id b id = Ok (Some p) /\ type_at b p t).
Proof.
  intros Hr Hid. unfold btf__type_by_id. rewrite (rep_nr _ _ _ Hr).
  destruct (Z.ltb_spec (zlen tys) id); [auto|]. right.
  destruct (decide (id = 0)) as [->|Hn].
  - left. split; [reflexivity|]. rewrite (rep_void _ _ _ Hr). reflexivity.
  - right. destruct (ty_at_in tys id) as (t & Ht); [lia|].
    destruct (rep_type _ _ _ Hr id t Ht) as (p & Hp & Hat).
    exists t, p. rewrite Hp. auto.
Qed.

(** * 5. An example *)

(** The BTF of a map whose key is an [int] and whose value a typedef of an
    array of 133 64-bit words: the payloads of the experiment. *)
Definition demo_strs : list byte :=
  NUL :: bytes_of "int" ++ NUL :: bytes_of "____btf_map_pkt" ++ NUL :: bytes_of "key" ++
  NUL :: bytes_of "value" ++ [NUL].
Definition demo_types : list btype :=
  [mk_btype 1 BTF_KIND_INT false 0 4 [32]; mk_btype 0 BTF_KIND_INT false 0 8 [64];
   mk_btype 0 BTF_KIND_ARRAY false 0 0 [2; 1; 133]; mk_btype 0 BTF_KIND_TYPEDEF false 0 3 [];
   mk_btype 5 BTF_KIND_STRUCT false 2 1072 [21; 1; 0; 25; 4; 64]].
Definition demo_btf : btf :=
  mk_btf (encode demo_types demo_strs)
    (Some Void :: (Some <$> [At 24; At 40; At 56; At 80; At 92]) ++ replicate 10 None)
    128 24 5 16 (zlen (encode demo_types demo_strs)) (-1).

Ltac in_range := vm_compute; split; [discriminate | reflexivity || discriminate].
Ltac decide_ok :=
  split; unfold u32_ok; [in_range | in_range | in_range | in_range |
    repeat (apply Forall_cons_2; [in_range|]); apply Forall_nil_2 | reflexivity].

Lemma demo_types_ok : Forall ty_ok demo_types.
Proof. unfold demo_types. repeat (apply Forall_cons_2; [decide_ok|]). apply Forall_nil_2. Qed.

Lemma demo_encodable : encodable demo_types demo_strs.
Proof.
  split; [discriminate|]. split; [apply demo_types_ok|]. split; [split; [reflexivity|]|]; [|vm_compute; reflexivity].
  split; [reflexivity | vm_compute; discriminate].
Qed.

Lemma demo_represents : represents demo_btf demo_types demo_strs.
Proof.
  split; try (vm_compute; reflexivity).
  - intros id t Ht. pose proof (ty_at_range _ _ _ Ht) as Hr. change (zlen demo_types) with 5 in Hr.
    assert (id = 1 \/ id = 2 \/ id = 3 \/ id = 4 \/ id = 5) as Hid by lia.
    pose proof demo_types_ok as Hok. rewrite Forall_lookup in Hok.
    assert (ty_ok t) as Htok by (unfold ty_at in Ht; destruct (1 <=? id); [eauto | discriminate]).
    repeat (destruct Hid as [->|Hid]; [injection Ht as <-; eexists; (split; [reflexivity|]);
      (split; [exact Htok|]); eexists; (split; [reflexivity|]); vm_compute; reflexivity|]).
    subst id. injection Ht as <-. eexists. split; [reflexivity|]. split; [exact Htok|].
    eexists. split; [reflexivity|]. vm_compute. reflexivity.
  - apply demo_encodable.
  - exists (take 128 (encode demo_types demo_strs)), []. split; vm_compute; reflexivity.
Qed.
