(* ===== verification/BtfProps.v ===== *)
(** What the BTF parser guarantees: it reads back what a compiler encodes,
    its look-ups are functions of the types as values, and on which bytes it
    stays inside its data. *)
From S2P Require Import Prelude CLib LibbpfObj LibbpfLoad DemoSys Btf BtfSpec.
#[local] Open Scope Z_scope.

(** * 1. The table of types *)

(** The table holds the pointers [ps], behind the void type. *)
Definition table (b : btf) (ps : list type_ptr) : Prop :=
  nr_types b = zlen ps /\ types_size b = zlen (b_types b) /\
  ((ps = [] /\ b_types b = []) \/
   exists m, b_types b = Some Void :: (Some <$> ps) ++ replicate m None).

Lemma set_types_twice ts n s ts' n' s' b :
  set_types ts' n' s' (set_types ts n s b) = set_types ts' n' s' b.
Proof. reflexivity. Qed.

Definition same_but_types (b b' : btf) : Prop := exists ts n s, b' = set_types ts n s b.

Lemma same_types_refl b : same_but_types b b.
Proof. exists (b_types b), (nr_types b), (types_size b). destruct b. reflexivity. Qed.
Lemma same_types_trans b1 b2 b3 : same_but_types b1 b2 -> same_but_types b2 b3 -> same_but_types b1 b3.
Proof. intros (?&?&?&->) (?&?&?&->). unfold same_but_types. eauto. Qed.
Lemma same_types_data b b' : same_but_types b b' -> b_data b' = b_data b.
Proof. intros (?&?&?&->). reflexivity. Qed.
Lemma same_types_rest b b' :
  same_but_types b b' -> b_strings b' = b_strings b /\ b_fd b' = b_fd b /\ data_size b' = data_size b.
Proof. intros (?&?&?&->). auto. Qed.

Lemma type_at_same b b' p t : same_but_types b b' -> type_at b p t -> type_at b' p t.
Proof. intros (?&?&?&->) H. exact H. Qed.

Lemma aset_snoc {A} (l : list A) x y k :
  aset (l ++ x :: k) (zlen l) y = Ok (l ++ y :: k).
Proof.
  rewrite aset_Ok by (unfold zlen; rewrite length_app; cbn [length]; lia).
  unfold zlen. rewrite Nat2Z.id, insert_app_r_alt, Nat.sub_diag by lia. reflexivity.
Qed.

(** Room for one more type behind [ps]. *)
Lemma table_store b ps m t :
  nr_types b = zlen ps -> types_size b = zlen (b_types b) ->
  b_types b = Some Void :: (Some <$> ps) ++ replicate (S m) None ->
  exists ts, aset (b_types b) (nr_types b + 1) (Some t) = Ok ts /\
    table (set_types ts (nr_types b + 1) (types_size b) b) (ps ++ [t]).
Proof.
  intros Hn Hs Ht. exists (Some Void :: (Some <$> ps ++ [t]) ++ replicate m None).
  assert (aset (b_types b) (nr_types b + 1) (Some t) =
    Ok (Some Void :: (Some <$> ps ++ [t]) ++ replicate m None)) as Hset.
  { rewrite Hn, Ht, fmap_app, <- app_assoc. cbn [replicate app fmap list_fmap].
    pose proof (aset_snoc (Some Void :: (Some <$> ps)) (@None type_ptr) (Some t) (replicate m None)) as H.
    cbn [app] in H. rewrite <- H. f_equal. unfold zlen. cbn [length].
    rewrite length_fmap. lia. }
  split; [exact Hset|]. split; [|split].
  - cbn. rewrite Hn, zlen_app. reflexivity.
  - cbn [types_size set_types b_types]. rewrite Hs. symmetry. eapply zlen_aset, Hset.
  - right. exists m. reflexivity.
Qed.

(** Without growing there is room. *)
Lemma table_room b ps :
  table b ps -> 2 <= types_size b - nr_types b ->
  exists m, b_types b = Some Void :: (Some <$> ps) ++ replicate (S m) None.
Proof.
  intros (Hn & Hs & [(-> & Ht)|(m & Ht)]) Hge.
  - rewrite Hs, Ht, Hn in Hge. unfold zlen in Hge. cbn in Hge. lia.
  - rewrite Hs, Ht, Hn in Hge. unfold zlen in Hge. cbn [length] in Hge.
    rewrite length_app, length_fmap, length_replicate in Hge. destruct m as [|m]; [lia | eauto].
Qed.

(** Growing makes room, and puts the void type in front of the first. *)
Lemma grown_slots b ps :
  table b ps -> zlen ps < BTF_MAX_NR_TYPES - 1 -> types_size b - nr_types b < 2 ->
  let size := Z.min BTF_MAX_NR_TYPES (types_size b + Z.max (Z.shiftr (types_size b) 2) 16) in
  let grown := b_types b ++ replicate (Z.to_nat (size - types_size b)) None in
  exists ts m, (if nr_types b =? 0 then aset grown 0 (Some Void) else Ok grown) = Ok ts /\
    ts = Some Void :: (Some <$> ps) ++ replicate (S m) None /\ zlen ts = size.
Proof.
  intros (Hn & Hs & Ht) Hmax Hlt size grown. pose proof (zlen_nonneg ps). pose proof (zlen_nonneg (b_types b)).
  assert (0 < size - types_size b) as Hpos by (unfold size; lia).
  assert (zlen grown = size) as Hl by (unfold grown; rewrite zlen_app, zlen_replicate; lia).
  destruct Ht as [(-> & Ht)|(m & Ht)].
  - rewrite Hn. change (zlen (@nil type_ptr) =? 0) with true. cbn iota.
    assert (types_size b = 0) as Hsz by (rewrite Hs, Ht; reflexivity).
    assert (grown = None :: None :: replicate (Z.to_nat (size - 2)) None) as Hg.
    { unfold grown. rewrite Ht, Hsz. unfold size. rewrite Hsz. reflexivity. }
    rewrite Hg in *. exists (Some Void :: None :: replicate (Z.to_nat (size - 2)) None), (Z.to_nat (size - 2)).
    split; [reflexivity|]. split; [reflexivity | exact Hl].
  - assert (m = O) as ->.
    { rewrite Hs, Hn, Ht in Hlt. unfold zlen in Hlt. cbn [length] in Hlt.
      rewrite length_app, length_fmap, length_replicate in Hlt. lia. }
    exists grown, (Nat.pred (Z.to_nat (size - types_size b))). split; [|split; [|exact Hl]].
    + destruct (nr_types b =? 0); [|reflexivity]. unfold grown. rewrite Ht. cbn [app].
      apply (aset_snoc [] (Some Void) (Some Void)).
    + rewrite Nat.succ_pred by lia. unfold grown. rewrite Ht. cbn [replicate]. rewrite app_nil_r. reflexivity.
Qed.

(** Every allocation succeeds. *)
Definition always_alloc (K : Type) `{BpfSys K} : Prop := forall k : K, fst (sys_alloc k) = true.

Section parse.
Context {K : Type} `{BpfSysLaws K}.

Lemma add_type_ok (k : K) b ps t :
  table b ps -> zlen ps < BTF_MAX_NR_TYPES - 1 ->
  exists err b' k', btf_add_type k b t = Ok (err, b', k') /\ open_fds k' = open_fds k /\
    same_but_types b b' /\ (err = - ENOMEM \/ err = 0 /\ table b' (ps ++ [t])) /\
    (always_alloc K -> err = 0).
Proof.
  intros Htab Hmax. pose proof Htab as (Hn & Hs & _). unfold btf_add_type.
  pose proof (alloc_fds k) as Hfds. pose proof (fun Ha : always_alloc K => Ha k) as Hal.
  destruct (Z.ltb_spec (types_size b - nr_types b) 2) as [Hlt|Hge].
  - destruct (Z.eqb_spec (types_size b) BTF_MAX_NR_TYPES); [lia|].
    destruct (sys_alloc k) as [[|] k1]; cbn [fst snd negb] in *; cbn beta iota.
    + destruct (grown_slots b ps Htab Hmax Hlt) as (ts & m & -> & Hm & Hl).
      cbn [mbind res_bind]. change (0 =? 0) with true. cbn [negb].
      set (b1 := set_types ts (nr_types b) _ b).
      destruct (table_store b1 ps m t Hn (eq_sym Hl) Hm) as (ts2 & Hset & Htab2).
      rewrite Hset. cbn [mbind res_bind]. do 3 eexists. split; [reflexivity|].
      split; [exact Hfds|]. split; [unfold same_but_types, b1; cbn; eauto|].
      split; [right; split; [reflexivity | exact Htab2] | auto].
    + do 3 eexists. split; [reflexivity|]. split; [exact Hfds|]. split; [apply same_types_refl|].
      split; [auto|]. intros Ha. discriminate (Hal Ha).
  - destruct (table_room b ps Htab Hge) as (m & Ht).
    destruct (table_store b ps m t Hn Hs Ht) as (ts & Hset & Htab2).
    cbn [mbind res_bind]. rewrite Hset. cbn [mbind res_bind]. do 3 eexists. split; [reflexivity|].
    split; [reflexivity|]. split; [unfold same_but_types; eauto|]. auto.
Qed.

(** * 2. Parsing what was encoded *)

(** Where the types are, the first at [o]. *)
Fixpoint places (o : Z) (tys : list btype) : list type_ptr :=
  match tys with
  | [] => []
  | t :: tys => At o :: places (o + 4 * zlen (type_words t)) tys
  end.

Lemma places_at b tys o (i : nat) t :
  Forall ty_ok tys -> words_at (b_data b) o (enc_types tys) -> tys !! i = Some t ->
  exists p, places o tys !! i = Some p /\ type_at b p t.
Proof.
  intros Hok. revert o i. induction Hok as [|t0 tys Ht0 Hok IH]; intros o i Hw Hi; [discriminate|].
  change (enc_types (t0 :: tys)) with (type_words t0 ++ enc_types tys) in Hw.
  apply words_at_app in Hw as [Hw1 Hw2]. destruct i as [|i].
  - injection Hi as <-. exists (At o). split; [reflexivity|]. split; eauto.
  - cbn [places]. apply IH; assumption.
Qed.

Lemma parse_loop_ok tys : forall fuel (k : K) b ps o,
  table b ps -> Forall ty_ok tys -> words_at (b_data b) o (enc_types tys) ->
  (length tys < fuel)%nat -> zlen ps + zlen tys < BTF_MAX_NR_TYPES ->
  exists err b' k',
    parse_types_loop fuel k b o (o + 4 * zlen (enc_types tys)) = Ok (err, b', k') /\
    open_fds k' = open_fds k /\ same_but_types b b' /\
    (err = - ENOMEM \/ err = 0 /\ table b' (ps ++ places o tys)) /\ (always_alloc K -> err = 0).
Proof.
  induction tys as [|t tys IH]; intros [|fuel] k b ps o Htab Hok Hw Hf Hmax; cbn [length] in Hf; try lia;
    cbn [parse_types_loop places].
  - change (zlen (enc_types [])) with 0. rewrite Z.mul_0_r, Z.add_0_r, Z.ltb_irrefl.
    do 3 eexists. split; [reflexivity|]. rewrite app_nil_r.
    split; [reflexivity|]. split; [apply same_types_refl|]. split; [right; split; [reflexivity | exact Htab] | auto].
  - apply Forall_cons in Hok as [Ht Hok].
    change (enc_types (t :: tys)) with (type_words t ++ enc_types tys) in *.
    apply words_at_app in Hw as [Hw1 Hw2]. rewrite zlen_app.
    assert (3 <= zlen (type_words t)) as Hlen by (unfold zlen, type_words; cbn [length]; lia).
    pose proof (zlen_nonneg (enc_types tys)). pose proof (zlen_nonneg tys).
    replace (zlen (t :: tys)) with (1 + zlen tys) in Hmax by (unfold zlen; cbn [length]; lia).
    replace (o <? _) with true by lia. cbn [negb].
    rewrite (type_at_length b (At o) t) by (split; eauto). cbn [mbind res_bind].
    replace (4 * zlen (type_words t) <? 0) with false by lia.
    destruct (add_type_ok k b ps (At o) Htab) as (err & b1 & k1 & -> & Hfds & Hsame & Herr & Hal); [lia|].
    cbn [mbind res_bind]. destruct (Z.eqb_spec err 0) as [->|Hne]; cbn [negb].
    + destruct Herr as [Herr|[_ Htab1]]; [discriminate|].
      destruct (IH fuel k1 b1 (ps ++ [At o]) (o + 4 * zlen (type_words t)) Htab1 Hok)
        as (err & b2 & k2 & Hx & Hfds2 & Hsame2 & Herr2 & Hal2).
      * rewrite (same_types_data _ _ Hsame). exact Hw2.
      * lia.
      * rewrite zlen_app. change (zlen [At o]) with 1. lia.
      * replace (o + 4 * zlen (type_words t) + 4 * zlen (enc_types tys))
          with (o + 4 * (zlen (type_words t) + zlen (enc_types tys))) in Hx by lia.
        rewrite Hx. do 3 eexists. split; [reflexivity|]. split; [congruence|].
        split; [eapply same_types_trans; eassumption|]. split; [|auto].
        rewrite <- app_assoc in Herr2. exact Herr2.
    + do 3 eexists. split; [reflexivity|]. split; [exact Hfds|]. split; [exact Hsame|].
      split; [tauto|]. intros Ha. destruct (Hne (Hal Ha)).
Qed.
End parse.

(** Where the parts of encoded data are. *)
Lemma encode_layout tys strs :
  let d := encode tys strs in let tl := 4 * zlen (enc_types tys) in
  load16 d 0 = Ok BTF_MAGIC /\ load8 d 2 = Ok BTF_VERSION /\ load8 d 3 = Ok 0 /\
  words_at d 4 [sizeof_btf_header; 0; tl; tl; zlen strs] /\
  words_at d 24 (enc_types tys) /\ zlen d = 24 + tl + zlen strs /\
  exists pre, d = pre ++ strs /\ zlen pre = 24 + tl.
Proof.
  intros d tl. assert (zlen (enc_words (enc_types tys)) = tl) as Htl by apply zlen_enc_words.
  set (hdr := enc_words [sizeof_btf_header; 0; tl; tl; zlen strs]).
  set (b2 := [byte_of_Z BTF_VERSION; byte_of_Z 0]).
  assert (d = le_bytes 2 BTF_MAGIC ++ b2 ++ hdr ++ enc_words (enc_types tys) ++ strs) as Hdd by reflexivity.
  pose proof (mread_all d) as Hd. rewrite Hdd in Hd at 2 3. clearbody d.
  apply mread_split in Hd as [H1 Hd]. apply mread_split in Hd as [H2 Hd].
  change (zlen b2) with 2 in *. change (zlen (le_bytes 2 BTF_MAGIC)) with 2 in *.
  change (0 + 2) with 2 in *. change (2 + 2) with 4 in *.
  apply mread_split in Hd as [H3 Hd]. change (zlen hdr) with 20 in *. change (4 + 20) with 24 in *.
  apply mread_split in Hd as [H4 H5]. rewrite Htl in *.
  change b2 with ([byte_of_Z BTF_VERSION] ++ [byte_of_Z 0]) in H2.
  change 2 with (zlen ([byte_of_Z BTF_VERSION] ++ [byte_of_Z 0])) in H2 at 2.
  apply mread_split in H2 as [H2 H2']. change (zlen [_]) with 1 in *. change (2 + 1) with 3 in *.
  split; [apply mread_load16; [exact H1 | unfold BTF_MAGIC; lia]|].
  split; [unfold load8; rewrite (aget_mread _ _ _ H2); reflexivity|].
  split; [unfold load8; rewrite (aget_mread _ _ _ H2'); reflexivity|].
  split; [exact H3|]. split; [unfold words_at; rewrite Htl; exact H4|]. split.
  - rewrite Hdd, !zlen_app, Htl. change (zlen hdr) with 20.
    change (zlen b2) with 2. change (zlen (le_bytes 2 BTF_MAGIC)) with 2. lia.
  - exists (le_bytes 2 BTF_MAGIC ++ b2 ++ hdr ++ enc_words (enc_types tys)). split.
    + rewrite Hdd, <- !app_assoc. reflexivity.
    + rewrite !zlen_app, Htl. change (zlen hdr) with 20. change (zlen b2) with 2.
      change (zlen (le_bytes 2 BTF_MAGIC)) with 2. lia.
Qed.

(** The header of encoded data is accepted. *)
Lemma parse_encoded_hdr tys strs b :
  encodable tys strs -> b_data b = encode tys strs -> data_size b = zlen (b_data b) ->
  btf_parse_hdr b = Ok (0, set_nohdr 24 b) /\ h_type_off b = Ok 0 /\
  h_str_off b = Ok (4 * zlen (enc_types tys)) /\ h_str_len b = Ok (zlen strs).
Proof.
  intros (Hne & Hok & (Hs0 & _) & Hlen) Hd Hsz.
  destruct (encode_layout tys strs) as (Hm & Hv & Hf & Hw & _ & Hz & _).
  assert (0 < zlen (enc_types tys)) as Htl.
  { destruct tys as [|t tys]; [done|]. change (enc_types (t :: tys)) with (type_words t ++ enc_types tys).
    rewrite zlen_app. pose proof (zlen_nonneg (enc_types tys)). unfold zlen, type_words in *. cbn [length]. lia. }
  assert (0 < zlen strs) as Hsl by (destruct strs; [done | unfold zlen; cbn [length]; lia]).
  rewrite Hz in Hlen.
  assert (h_type_off b = Ok 0) as E1.
  { unfold h_type_off. rewrite Hd. apply (words_at_load _ 4 _ 1 _ Hw); [reflexivity | unfold u32_ok; lia]. }
  assert (h_str_off b = Ok (4 * zlen (enc_types tys))) as E2.
  { unfold h_str_off. rewrite Hd. apply (words_at_load _ 4 _ 3 _ Hw); [reflexivity | unfold u32_ok; lia]. }
  assert (h_str_len b = Ok (zlen strs)) as E3.
  { unfold h_str_len. rewrite Hd. apply (words_at_load _ 4 _ 4 _ Hw); [reflexivity | unfold u32_ok; lia]. }
  split; [|auto]. unfold btf_parse_hdr, sizeof_btf_header. rewrite E1, E2, Hsz, Hd, Hz.
  unfold h_magic, h_version, h_flags. rewrite Hd, Hm, Hv, Hf. cbn [mbind res_bind].
  rewrite u32_small by lia.
  replace (24 + _ + _ <? 24) with false by lia. replace (_ - 24 =? 0) with false by lia.
  replace (_ - 24 <? 0) with false by lia. replace (_ - 24 <? _) with false by lia.
  replace (4 * zlen (enc_types tys) <=? 0) with false by lia. reflexivity.
Qed.

Lemma parse_encoded_strs tys strs b :
  encodable tys strs -> b_data b = encode tys strs -> b_nohdr b = 24 ->
  h_str_off b = Ok (4 * zlen (enc_types tys)) -> h_str_len b = Ok (zlen strs) ->
  btf_parse_str_sec b = Ok (0, set_strings (24 + 4 * zlen (enc_types tys)) b).
Proof.
  intros (_ & _ & (Hs0 & Hs1 & Hmax) & Hlen) Hd Hn E2 E3.
  destruct (encode_layout tys strs) as (_ & _ & _ & _ & _ & Hz & pre & Hpre & Hpl).
  assert (0 < zlen strs) as Hsl by (destruct strs; [done | unfold zlen; cbn [length]; lia]).
  unfold btf_parse_str_sec. rewrite E2, E3, Hn. cbn [mbind res_bind].
  rewrite u32_small by (unfold BTF_MAX_STR_OFFSET in Hmax; lia).
  replace (zlen strs =? 0) with false by lia. replace (BTF_MAX_STR_OFFSET <? zlen strs - 1) with false by lia.
  assert (forall i : nat, strs !! i = Some NUL ->
    load8 (b_data b) (24 + 4 * zlen (enc_types tys) + Z.of_nat i) = Ok 0) as Hread.
  { intros i Hi. unfold load8. rewrite Hd, Hpre.
    replace (aget _ _) with (@Ok byte NUL); [reflexivity|]. symmetry. apply aget_Ok.
    split; [pose proof (zlen_nonneg (enc_types tys)); lia|]. rewrite lookup_app_r by (unfold zlen in *; lia).
    rewrite <- Hi. f_equal. unfold zlen in *. lia. }
  cbn [orb]. pose proof (Hread O Hs0) as Hr0. rewrite Z.add_0_r in Hr0. rewrite Hr0. cbn [mbind res_bind].
  rewrite last_lookup in Hs1. pose proof (Hread _ Hs1) as Hr1.
  replace (24 + 4 * zlen (enc_types tys) + zlen strs - 1)
    with (24 + 4 * zlen (enc_types tys) + Z.of_nat (Nat.pred (length strs))) by (unfold zlen in *; lia).
  rewrite Hr1. reflexivity.
Qed.

Lemma table_void b ps : table b ps -> ps <> [] -> aget (b_types b) 0 = Ok (Some Void).
Proof. intros (_ & _ & [[-> _]|(m & ->)]) Hne; [done | reflexivity]. Qed.
Lemma table_slot b ps (i : nat) p :
  table b ps -> ps !! i = Some p -> aget (b_types b) (Z.of_nat (S i)) = Ok (Some p).
Proof.
  intros (_ & _ & [[-> _]|(m & ->)]) Hi; [discriminate|]. apply aget_Ok. split; [lia|].
  rewrite Nat2Z.id. change (((Some <$> ps) ++ replicate m None) !! i = Some (Some p)).
  rewrite lookup_app_l by (rewrite length_fmap; apply lookup_lt_Some in Hi; exact Hi).
  rewrite list_lookup_fmap, Hi. reflexivity.
Qed.
Lemma length_places o tys : length (places o tys) = length tys.
Proof. revert o. induction tys; intros; cbn; auto. Qed.

Lemma table_represents b tys strs ps :
  table b ps -> length ps = length tys -> tys <> [] -> zlen tys < 2 ^ 31 ->
  (forall (i : nat) t, tys !! i = Some t -> exists p, ps !! i = Some p /\ type_at b p t) ->
  h_str_len b = Ok (zlen strs) -> strs_ok strs ->
  (exists pre suf, b_data b = pre ++ strs ++ suf /\ zlen pre = b_strings b) ->
  represents b tys strs.
Proof.
  intros Htab Hl Hne Hc Hat Hsl Hs Hd. split; try assumption.
  - destruct Htab as (-> & _). unfold zlen. rewrite Hl. reflexivity.
  - apply (table_void b ps Htab). intros ->. destruct tys; [done | discriminate].
  - intros id t. unfold ty_at. destruct (Z.leb_spec 1 id); [|discriminate]. intros Ht.
    destruct (Hat _ _ Ht) as (p & Hp & Hpt). exists p. split; [|exact Hpt].
    pose proof (table_slot b ps _ p Htab Hp) as Hs'. rewrite <- Hs'. f_equal. lia.
Qed.

(** What [btf__new] does once both allocations succeeded. *)
Definition parse_all {K} `{BpfSys K} (k : K) (b : btf) : res ((Z + btf) * K) :=
  '(err, b) ← btf_parse_hdr b;
  if negb (err =? 0) then Ok (inl err, btf__free k b) else
  '(err, b) ← btf_parse_str_sec b;
  if negb (err =? 0) then Ok (inl err, btf__free k b) else
  '(err, b, k) ← btf_parse_type_sec k b;
  if negb (err =? 0) then Ok (inl err, btf__free k b) else Ok (inr b, k).

Section new.
Context {K : Type} `{BpfSysLaws K}.

Lemma new_cases (k : K) d size :
  exists k', open_fds k' = open_fds k /\
    ((btf__new k d size = Ok (inl (- ENOMEM), k') /\ ~ always_alloc K) \/
     btf__new k d size =
       (copy ← mread d 0 size; parse_all k' (mk_btf copy [] 0 0 0 0 size (-1)))).
Proof.
  unfold btf__new. pose proof (alloc_fds k) as Hf1.
  pose proof (fun Ha : always_alloc K => Ha k) as Ha1.
  destruct (sys_alloc k) as [[|] k1]; cbn [fst snd negb] in *;
    [|exists k1; split; [exact Hf1|]; left; split; [reflexivity|]; intros Ha; discriminate (Ha1 Ha)].
  pose proof (alloc_fds k1) as Hf2. pose proof (fun Ha : always_alloc K => Ha k1) as Ha2.
  destruct (sys_alloc k1) as [[|] k2]; cbn [fst snd negb] in *; exists k2; (split; [congruence|]);
    [right; reflexivity|]. left. split; [reflexivity|]. intros Ha. discriminate (Ha2 Ha).
Qed.

Lemma enc_types_count tys : 3 * zlen tys <= zlen (enc_types tys).
Proof.
  induction tys as [|t tys IH]; [done|].
  change (enc_types (t :: tys)) with (type_words t ++ enc_types tys). rewrite zlen_app.
  unfold zlen, type_words in *. cbn [length]. lia.
Qed.

(** The types of encoded data, behind its header and strings. *)
Lemma parse_encoded_types (k : K) tys strs b :
  encodable tys strs -> b_data b = encode tys strs -> b_nohdr b = 24 -> b_strings b = 24 + 4 * zlen (enc_types tys) ->
  table b [] -> h_type_off b = Ok 0 -> h_str_off b = Ok (4 * zlen (enc_types tys)) ->
  h_str_len b = Ok (zlen strs) ->
  exists err b' k', btf_parse_type_sec k b = Ok (err, b', k') /\ open_fds k' = open_fds k /\
    b_fd b' = b_fd b /\ (err = - ENOMEM \/ err = 0 /\ represents b' tys strs) /\ (always_alloc K -> err = 0).
Proof.
  intros (Hne & Hok & Hs & Hlen) Hd Hn Hst Htab E1 E2 E3. unfold btf_parse_type_sec.
  rewrite E1, E2, Hn. cbn [mbind res_bind]. rewrite Z.add_0_r.
  destruct (encode_layout tys strs) as (_ & _ & _ & _ & Hw & Hz & pre & Hpre & Hpl).
  rewrite <- Hd in Hw, Hz, Hpre. pose proof (enc_types_count tys) as Hcount.
  pose proof (zlen_nonneg strs). pose proof (zlen_nonneg tys).
  destruct (parse_loop_ok tys (S (length (b_data b))) k b [] 24 Htab Hok Hw)
    as (err & b2 & k3 & Hx & Hf3 & Hsame & Herr & Ha3).
  { unfold zlen in *. lia. }
  { rewrite <- Hd in Hlen. change (zlen []) with 0. unfold BTF_MAX_NR_TYPES. lia. }
  destruct (same_types_rest _ _ Hsame) as (Hst2 & Hfd & _).
  rewrite Hx. do 3 eexists. split; [reflexivity|]. split; [exact Hf3|]. split; [exact Hfd|].
  split; [|exact Ha3]. destruct Herr as [->|[-> Htab2]]; [auto|]. right. split; [reflexivity|].
  rewrite <- Hd in Hlen.
  apply (table_represents b2 tys strs _ Htab2); [apply length_places | exact Hne | lia | | | exact Hs |].
  - intros i t Ht. destruct (places_at b tys 24 i t Hok Hw Ht) as (p & Hp & Hat).
    exists p. split; [exact Hp | eapply type_at_same; eassumption].
  - unfold h_str_len. rewrite (same_types_data _ _ Hsame). exact E3.
  - exists pre, []. rewrite app_nil_r, (same_types_data _ _ Hsame), Hst2, Hst. auto.
Qed.

(** C21: parsing what a compiler emits gives back its types and strings: on
    the encoding of any well-formed types [btf__new] returns a [btf] that
    stands for exactly these, unless memory runs out, and it leaves the
    descriptors of the process alone. *)
Theorem btf_new_roundtrip (k : K) tys strs :
  encodable tys strs ->
  exists r k', btf__new k (encode tys strs) (zlen (encode tys strs)) = Ok (r, k') /\
    open_fds k' = open_fds k /\
    (r = inl (- ENOMEM) \/ exists b, r = inr b /\ represents b tys strs /\ b_fd b = -1) /\
    (always_alloc K -> exists b, r = inr b).
Proof.
  intros Henc. destruct (new_cases k (encode tys strs) (zlen (encode tys strs)))
    as (k2 & Hf & [[-> Hna]| -> ]).
  { do 2 eexists. split; [reflexivity|]. split; [exact Hf|]. split; [auto | intros Ha; contradiction]. }
  rewrite mread_all. cbn [mbind res_bind]. unfold parse_all. set (b0 := mk_btf _ _ _ _ _ _ _ _).
  destruct (parse_encoded_hdr tys strs b0 Henc eq_refl eq_refl) as (-> & E1 & E2 & E3).
  cbn [mbind res_bind]. change (0 =? 0) with true. cbn [negb].
  rewrite (parse_encoded_strs tys strs (set_nohdr 24 b0) Henc eq_refl eq_refl E2 E3).
  cbn [mbind res_bind]. change (0 =? 0) with true. cbn [negb].
  set (b1 := set_strings _ (set_nohdr 24 b0)).
  destruct (parse_encoded_types k2 tys strs b1 Henc eq_refl eq_refl eq_refl)
    as (err & b2 & k3 & Hx & Hf3 & Hfd & Herr & Ha); try assumption.
  { split; [reflexivity|]. split; [reflexivity | auto]. }
  rewrite Hx. cbn [mbind res_bind]. change (b_fd b1) with (-1) in Hfd.
  destruct (Z.eqb_spec err 0) as [->|He]; cbn [negb].
  - destruct Herr as [Herr|[_ Hrep]]; [discriminate|]. do 2 eexists. split; [reflexivity|].
    split; [congruence|]. split; [right|]; eauto 10.
  - unfold btf__free. rewrite Hfd. change (-1 =? -1) with true. cbn [negb].
    destruct Herr as [->|[-> _]]; [|done]. do 2 eexists. split; [reflexivity|]. split; [congruence|].
    split; [auto|]. intros Hall. specialize (Ha Hall). discriminate.
Qed.
End new.

(** * 3. Any bytes *)

Section bounds.
Context {K : Type} `{BpfSysLaws K}.

Lemma type_size_total b o :
  0 <= o -> o + 8 <= zlen (b_data b) ->
  exists sz, btf_type_size b (At o) = Ok sz /\ (sz = - EINVAL \/ sizeof_btf_type <= sz).
Proof.
  intros Ho Hl. unfold btf_type_size, btf_vlen, btf_kind, t_info, t_field.
  destruct (load32_in (b_data b) (o + 4)) as [info ->]; [unfold in_block; lia|]. cbn [mbind res_bind].
  eexists. split; [reflexivity|].
  assert (0 <= BTF_INFO_VLEN info) as Hv by (unfold BTF_INFO_VLEN; apply Z.land_nonneg; lia).
  unfold sizeof_btf_type, sizeof_btf_enum, sizeof_btf_array, sizeof_btf_member, sizeof_btf_param,
    sizeof_btf_var, sizeof_btf_var_secinfo.
  repeat match goal with |- context [if ?c then _ else _] => destruct c; [right; lia|] end. auto.
Qed.

Lemma parse_loop_total end_ : forall fuel (k : K) b ps o,
  table b ps -> 12 * zlen ps <= o -> zlen (b_data b) < 2 ^ 32 -> end_ + 7 <= zlen (b_data b) ->
  Z.max 0 (end_ - o) < Z.of_nat fuel ->
  exists err b' k', parse_types_loop fuel k b o end_ = Ok (err, b', k') /\
    open_fds k' = open_fds k /\ same_but_types b b' /\ err <= 0.
Proof.
  induction fuel as [|fuel IH]; intros k b ps o Htab Hps Hmax Hend Hf; [lia|].
  cbn [parse_types_loop]. pose proof (zlen_nonneg ps).
  destruct (Z.ltb_spec o end_) as [Hlt|Hge]; cbn [negb];
    [|do 3 eexists; split; [reflexivity|]; split; [reflexivity|]; split; [apply same_types_refl | lia]].
  destruct (type_size_total b o) as (sz & -> & Hsz); [lia | lia |]. cbn [mbind res_bind].
  destruct (Z.ltb_spec sz 0) as [Hneg|Hpos];
    [do 3 eexists; split; [reflexivity|]; split; [reflexivity|]; split; [apply same_types_refl | lia]|].
  destruct Hsz as [->|Hsz]; [done|]. unfold sizeof_btf_type in Hsz.
  destruct (add_type_ok k b ps (At o) Htab) as (err & b1 & k1 & -> & Hfds & Hsame & Herr & _);
    [unfold BTF_MAX_NR_TYPES; lia|]. cbn [mbind res_bind].
  destruct (Z.eqb_spec err 0) as [->|Hne]; cbn [negb];
    [|do 3 eexists; split; [reflexivity|]; split; [exact Hfds|]; split; [exact Hsame|];
      unfold ENOMEM in Herr; lia].
  destruct Herr as [Herr|[_ Htab1]]; [discriminate|].
  destruct (IH k1 b1 (ps ++ [At o]) (o + sz) Htab1) as (err & b2 & k2 & Hx & Hfds2 & Hsame2 & He).
  - rewrite zlen_app. change (zlen [At o]) with 1. lia.
  - rewrite (same_types_data _ _ Hsame). exact Hmax.
  - rewrite (same_types_data _ _ Hsame). exact Hend.
  - lia.
  - rewrite Hx. do 3 eexists. split; [reflexivity|]. split; [congruence|].
    split; [eapply same_types_trans; eassumption | exact He].
Qed.

Lemma header_total b :
  data_size b = zlen (b_data b) -> zlen (b_data b) < 2 ^ 32 ->
  (exists err, err < 0 /\ btf_parse_hdr b = Ok (err, b)) \/
  (btf_parse_hdr b = Ok (0, set_nohdr 24 b) /\
   exists to so sl, h_type_off b = Ok to /\ h_str_off b = Ok so /\ h_str_len b = Ok sl /\
     0 <= to < so /\ so <= zlen (b_data b) - 24).
Proof.
  intros Hs Hmax. unfold btf_parse_hdr, sizeof_btf_header. rewrite Hs.
  pose proof (zlen_nonneg (b_data b)).
  destruct (Z.ltb_spec (zlen (b_data b)) 24); [left; eexists; split; [|reflexivity]; done|].
  unfold h_magic, h_version, h_flags, h_type_off, h_str_off, h_str_len.
  destruct (load16_in (b_data b) 0) as [m ->]; [unfold in_block; lia|].
  destruct (load8_in (b_data b) 2) as [v ->]; [lia|]. destruct (load8_in (b_data b) 3) as [f ->]; [lia|].
  destruct (load32_in (b_data b) 8) as [to Hto]; [unfold in_block; lia|].
  destruct (load32_in (b_data b) 16) as [so Hso]; [unfold in_block; lia|].
  destruct (load32_in (b_data b) 20) as [sl Hsl]; [unfold in_block; lia|]. rewrite Hto, Hso, Hsl.
  cbn [mbind res_bind]. rewrite u32_small by lia. apply load32_range in Hto, Hso.
  repeat match goal with
  | |- context [if negb (?a =? ?c) then _ else _] =>
      destruct (Z.eqb_spec a c); cbn [negb]; [|left; eexists; split; [|reflexivity]; done]
  end.
  destruct (Z.eqb_spec (zlen (b_data b) - 24) 0); [left; eexists; split; [|reflexivity]; done|].
  destruct (Z.ltb_spec (zlen (b_data b) - 24) to); [left; eexists; split; [|reflexivity]; done|].
  destruct (Z.ltb_spec (zlen (b_data b) - 24) so); [left; eexists; split; [|reflexivity]; done|].
  destruct (Z.leb_spec so to); [left; eexists; split; [|reflexivity]; done|].
  destruct (Z.eqb_spec (Z.land to 0x02) 0); cbn [negb]; [|left; eexists; split; [|reflexivity]; done].
  right. split; [reflexivity|]. exists to, so, sl. auto with lia.
Qed.

Lemma str_sec_total b so sl :
  h_str_off b = Ok so -> h_str_len b = Ok sl -> b_nohdr b = 24 -> 0 <= so -> 0 <= sl ->
  24 + so + sl <= zlen (b_data b) ->
  exists err, (err = 0 \/ err < 0) /\
    btf_parse_str_sec b = Ok (err, if err =? 0 then set_strings (24 + so) b else b).
Proof.
  intros E2 E3 Hn Hso Hsl Hl. unfold btf_parse_str_sec. rewrite E2, E3, Hn. cbn [mbind res_bind].
  destruct (Z.eqb_spec sl 0); cbn [orb]; [exists (- EINVAL); split; [right|]; done|].
  destruct (BTF_MAX_STR_OFFSET <? u32 (sl - 1)); [exists (- EINVAL); split; [right|]; done|].
  destruct (load8_in (b_data b) (24 + so)) as [x ->]; [lia|].
  destruct (load8_in (b_data b) (24 + so + sl - 1)) as [y ->]; [lia|]. cbn [mbind res_bind].
  destruct (x =? 0); cbn [negb]; [|exists (- EINVAL); split; [right|]; done].
  destruct (y =? 0); cbn [negb]; [|exists (- EINVAL); split; [right|]; done].
  exists 0. split; [left|]; reflexivity.
Qed.

(** The header announces strings inside the data, of 7 bytes or more. *)
Definition strings_inside (data : list byte) : Prop :=
  forall so sl, load32 data 16 = Ok so -> load32 data 20 = Ok sl ->
    24 + so + sl <= zlen data /\ 7 <= sl.

Definition unparsed (data : list byte) : btf := mk_btf data [] 0 0 0 0 (zlen data) (-1).

(** The type section of such data. *)
Lemma types_total (k : K) data to so sl :
  zlen data < 2 ^ 32 -> load32 data 8 = Ok to -> load32 data 16 = Ok so -> 0 <= to -> 7 <= sl ->
  24 + so + sl <= zlen data ->
  exists err b' k', btf_parse_type_sec k (set_strings (24 + so) (set_nohdr 24 (unparsed data))) =
      Ok (err, b', k') /\ open_fds k' = open_fds k /\ b_fd b' = -1 /\ err <= 0.
Proof.
  intros Hmax Hto Hso Hto0 Hsl Hin. set (b1 := set_strings _ _). unfold btf_parse_type_sec.
  change (h_type_off b1) with (load32 data 8). change (h_str_off b1) with (load32 data 16).
  rewrite Hto, Hso. cbn [mbind res_bind].
  destruct (parse_loop_total (24 + so) (S (length data)) k b1 [] (24 + to))
    as (err & b2 & k3 & Hx & Hf3 & Hsame & He).
  - split; [reflexivity|]. split; [reflexivity | auto].
  - change (zlen []) with 0. lia.
  - exact Hmax.
  - change (b_data b1) with data. lia.
  - unfold zlen in *. lia.
  - change (b_data b1) with data. change (b_nohdr b1) with 24. rewrite Hx.
    destruct (same_types_rest _ _ Hsame) as (_ & Hfd & _). do 3 eexists. eauto.
Qed.

Lemma parse_all_total (k : K) data :
  zlen data < 2 ^ 32 -> strings_inside data ->
  exists r k', parse_all k (unparsed data) = Ok (r, k') /\ open_fds k' = open_fds k /\
    match r with inl err => err < 0 | inr b => b_fd b = -1 end.
Proof.
  intros Hmax Hin. unfold parse_all.
  destruct (header_total (unparsed data) eq_refl Hmax)
    as [(err & Hne & ->)|(-> & to & so & sl & Hto & Hso & Hsl & Hr & Hle)]; cbn [mbind res_bind].
  { replace (err =? 0) with false by lia. cbn. do 2 eexists. split; [reflexivity|]. split; [reflexivity | lia]. }
  change (0 =? 0) with true. cbn [negb]. destruct (Hin so sl Hso Hsl) as [Hlen H7].
  destruct (str_sec_total (set_nohdr 24 (unparsed data)) so sl Hso Hsl eq_refl) as (err & He & ->);
    [lia | lia | exact Hlen |]. cbn [mbind res_bind].
  destruct (Z.eqb_spec err 0) as [->|Hne]; cbn [negb];
    [|do 2 eexists; split; [reflexivity|]; split; [reflexivity | lia]].
  destruct (types_total k data to so sl Hmax Hto Hso (proj1 Hr) H7 Hlen) as (err & b2 & k3 & -> & Hf & Hfd & Herr).
  cbn [mbind res_bind]. unfold btf__free. rewrite Hfd.
  destruct (Z.eqb_spec err 0); cbn; do 2 eexists; (split; [reflexivity|]); (split; [exact Hf|]); [exact Hfd | lia].
Qed.

(** [btf__new] with such data in front of its argument. *)
Lemma new_total (k : K) d data :
  mread d 0 (zlen data) = Ok data -> zlen data < 2 ^ 32 -> strings_inside data ->
  exists r k', btf__new k d (zlen data) = Ok (r, k') /\ open_fds k' = open_fds k /\
    match r with inl err => err < 0 | inr b => b_fd b = -1 end.
Proof.
  intros Hd Hmax Hin. destruct (new_cases k d (zlen data)) as (k2 & Hf & [[-> _]| ->]).
  - do 2 eexists. split; [reflexivity|]. split; [exact Hf | reflexivity].
  - rewrite Hd. cbn [mbind res_bind]. fold (unparsed data). destruct (parse_all_total k2 data Hmax Hin) as (r & k3 & -> & Hf3 & Hr).
    do 2 eexists. split; [reflexivity|]. split; [congruence | exact Hr].
Qed.

(** Strings that go on behind the data. *)
Lemma str_sec_overrun b so sl :
  h_str_off b = Ok so -> h_str_len b = Ok sl -> b_nohdr b = 24 -> 0 <= so -> 0 < sl <= 2 ^ 31 ->
  load8 (b_data b) (24 + so) = Ok 0 -> zlen (b_data b) < 24 + so + sl ->
  btf_parse_str_sec b = Err OutOfBounds.
Proof.
  intros E2 E3 Hn Hso Hr Hz Hout. unfold btf_parse_str_sec. rewrite E2, E3, Hn. cbn [mbind res_bind].
  rewrite u32_small by lia. replace (sl =? 0) with false by lia.
  replace (BTF_MAX_STR_OFFSET <? sl - 1) with false by (unfold BTF_MAX_STR_OFFSET; lia).
  cbn [orb]. rewrite Hz. cbn [mbind res_bind]. change (0 =? 0) with true. cbn [negb].
  unfold load8, aget. replace (0 <=? 24 + so + sl - 1) with true by lia.
  rewrite lookup_ge_None_2 by (unfold zlen in Hout; lia). reflexivity.
Qed.

End bounds.

(** The data of the example with 40 bytes of strings announced, of which 31
    are there. *)
Definition overlong : list byte := take 20 (encode demo_types demo_strs) ++ le_bytes 4 40 ++ drop 24 (encode demo_types demo_strs).



Lemma btf_new_roundtrip_witness :
  encodable demo_types demo_strs /\
  exists r k', btf__new demo_start (encode demo_types demo_strs) (zlen (encode demo_types demo_strs)) = Ok (r, k') /\
    open_fds k' = open_fds demo_start /\
    (r = inl (- ENOMEM) \/ exists b, r = inr b /\ represents b demo_types demo_strs /\ b_fd b = -1) /\
    (always_alloc demo -> exists b, r = inr b).
Proof.
  split; [apply demo_encodable|]. apply (btf_new_roundtrip demo_start demo_types demo_strs), demo_encodable.
Defined.

Example demo_parsed :
  btf__new demo_start (encode demo_types demo_strs) (zlen (encode demo_types demo_strs)) =
  Ok (inr demo_btf, demo_start).
Proof. vm_compute. reflexivity. Qed.
