(* ===== verification/BtfLookups.v ===== *)
(** The look-ups on parsed BTF ([btf__resolve_size], [btf__resolve_type],
    [btf__find_by_name], [btf__get_map_kv_tids]) as functions of the types
    as values. *)
From S2P Require Import Prelude CLib XdpLink LibbpfObj LibbpfLoad DemoSys Btf BtfSpec BtfProps.
#[local] Open Scope Z_scope.

(** * 1. The size of a type *)

(** The size of a type that ends the search. *)
Definition is_sized (k : Z) : bool :=
  (k =? BTF_KIND_INT) || (k =? BTF_KIND_STRUCT) || (k =? BTF_KIND_UNION) || (k =? BTF_KIND_ENUM)
  || (k =? BTF_KIND_DATASEC).
Definition base_size (t : btype) : option Z :=
  if is_sized (ty_kind t) then Some (ty_size t)
  else if ty_kind t =? BTF_KIND_PTR then Some 8 else None.
(** The kinds that name another type. *)
Definition refers (k : Z) : bool :=
  (k =? BTF_KIND_TYPEDEF) || (k =? BTF_KIND_VOLATILE) || (k =? BTF_KIND_CONST)
  || (k =? BTF_KIND_RESTRICT) || (k =? BTF_KIND_VAR).

(** The dimensions of the arrays from [id] on, and the size of the element
    they end in, if they do within [n] types. *)
Fixpoint size_chain (n : nat) (tys : list btype) (id : Z) : list Z * option Z :=
  match n, ty_at tys id with
  | S n, Some t =>
      match base_size t with
      | Some s => ([], Some s)
      | None =>
          if refers (ty_kind t) then size_chain n tys (ty_size t)
          else if ty_kind t =? BTF_KIND_ARRAY then
            let '(ds, s) := size_chain n tys (nth 0 (ty_words t) 0) in (nth 2 (ty_words t) 0 :: ds, s)
          else ([], None)
      end
  | _, _ => ([], None)
  end.

Definition prod_Z (ds : list Z) : Z := foldr Z.mul 1 ds.

(** Some product of the first dimensions needs more than 32 bits. *)
Definition dims_overflow (ds : list Z) : bool :=
  existsb (fun i => UINT32_MAX <? prod_Z (take i ds)) (seq 0 (S (length ds))).

(** The size, as a value. *)
Definition size_of (tys : list btype) (id : Z) : Z :=
  match size_chain MAX_RESOLVE_DEPTH tys id with
  | (ds, s) =>
      if dims_overflow ds then - E2BIG else
      match s with
      | None => - EINVAL
      | Some s => if UINT32_MAX <? prod_Z ds * s then - E2BIG else prod_Z ds * s
      end
  end.

(** The product from [a] on, if no partial product overflows. *)
Fixpoint grow (a : Z) (ds : list Z) : option Z :=
  match ds with
  | [] => Some a
  | d :: ds => if UINT32_MAX <? a * d then None else grow (a * d) ds
  end.

Lemma existsb_map' {A B} (g : A -> B) (f : B -> bool) l : existsb f (map g l) = existsb (fun x => f (g x)) l.
Proof. induction l as [|x l IH]; [reflexivity|]. cbn. rewrite IH. reflexivity. Qed.

Lemma existsb_ext_in {A} (f g : A -> bool) l : (forall x, x ∈ l -> f x = g x) -> existsb f l = existsb g l.
Proof.
  induction l as [|x l IH]; intros Hf; [reflexivity|]. cbn.
  rewrite (Hf x) by left. rewrite IH by (intros y Hy; apply Hf; right; exact Hy). reflexivity.
Qed.

Lemma grow_spec ds : forall a,
  a <= UINT32_MAX ->
  grow a ds = if existsb (fun i => UINT32_MAX <? a * prod_Z (take i ds)) (seq 0 (S (length ds)))
              then None else Some (a * prod_Z ds).
Proof.
  induction ds as [|d ds IH]; intros a Ha; cbn [grow length].
  - cbn. replace (UINT32_MAX <? a * 1) with false by lia. cbn. f_equal. lia.
  - change (seq 0 (S (S (length ds)))) with (0%nat :: seq 1 (S (length ds))).
    rewrite <- (seq_shift (S (length ds)) 0). cbn [existsb take]. change (prod_Z []) with 1.
    rewrite Z.mul_1_r, existsb_map'. replace (UINT32_MAX <? a) with false by lia. cbn [orb].
    change (prod_Z (d :: ds)) with (d * prod_Z ds). rewrite Z.mul_assoc.
    rewrite (existsb_ext_in _ (fun i => UINT32_MAX <? a * d * prod_Z (take i ds)))
      by (intros i _; change (prod_Z (take (S i) (d :: ds))) with (d * prod_Z (take i ds));
          rewrite Z.mul_assoc; reflexivity).
    destruct (Z.ltb_spec UINT32_MAX (a * d)) as [Hlt|Hle]; [|apply IH, Hle].
    cbn [seq existsb take]. change (prod_Z []) with 1. rewrite Z.mul_1_r.
    replace (UINT32_MAX <? a * d) with true by lia. reflexivity.
Qed.

(** The number of elements the loop has when it ends, and what it returns. *)
Definition finish (nelems : Z) (c : list Z * option Z) : Z :=
  match grow nelems (fst c) with
  | None => - E2BIG
  | Some n => match snd c with
              | None => - EINVAL
              | Some s => if UINT32_MAX <? n * s then - E2BIG else n * s
              end
  end.

Lemma div_check n m : 0 <= n -> 0 <= m ->
  negb (n =? 0) && (UINT32_MAX / n <? m) = (UINT32_MAX <? n * m).
Proof.
  intros Hn Hm. unfold UINT32_MAX. destruct (Z.eqb_spec n 0) as [->|Hne]; cbn [negb andb]; [lia|].
  destruct (Z.ltb_spec ((2 ^ 32 - 1) / n) m), (Z.ltb_spec (2 ^ 32 - 1) (n * m)); try reflexivity; nia.
Qed.

Lemma size_done_spec size n :
  0 <= n -> 0 <= size -> size_done size n = if UINT32_MAX <? n * size then - E2BIG else n * size.
Proof.
  intros Hn Hs. unfold size_done. replace (size <? 0) with false by lia.
  rewrite div_check by lia. reflexivity.
Qed.

Lemma base_size_ok t s : ty_ok t -> base_size t = Some s -> 0 <= s < 2 ^ 32.
Proof.
  intros Hok. unfold base_size. destruct (is_sized _); [|destruct (_ =? _)]; intros [= <-]; [apply Hok | lia].
Qed.

Lemma array_words t : ty_ok t -> ty_kind t = BTF_KIND_ARRAY ->
  exists e i n, ty_words t = [e; i; n] /\ u32_ok e /\ u32_ok n.
Proof.
  intros [_ _ _ _ Hw Hl] Hk. rewrite Hk in Hl. change (extra_words _ _) with 3 in Hl.
  destruct (ty_words t) as [|e [|i [|n [|? ?]]]]; unfold zlen in Hl; cbn [length] in Hl; try lia.
  rewrite !Forall_cons in Hw. naive_solver.
Qed.

Lemma fwd_ends t n tys id :
  ty_at tys id = Some t -> ty_kind t = BTF_KIND_FWD -> size_chain n tys id = ([], None).
Proof.
  intros Ht Hk. destruct n; cbn [size_chain]; [reflexivity|]. rewrite Ht.
  unfold base_size, refers. rewrite Hk. reflexivity.
Qed.

Lemma chain_step t n tys id :
  ty_at tys id = Some t ->
  size_chain (S n) tys id =
  match base_size t with
  | Some s => ([], Some s)
  | None =>
      if refers (ty_kind t) then size_chain n tys (ty_size t)
      else if ty_kind t =? BTF_KIND_ARRAY then
        let '(ds, s) := size_chain n tys (nth 0 (ty_words t) 0) in (nth 2 (ty_words t) 0 :: ds, s)
      else ([], None)
  end.
Proof. intros Ht. cbn [size_chain]. rewrite Ht. reflexivity. Qed.

Lemma resolve_loop_spec b tys strs : represents b tys strs ->
  forall n id nelems t,
  0 <= id -> 0 <= nelems <= UINT32_MAX -> btf__type_by_id b id = Ok t ->
  resolve_size_loop n b t nelems = Ok (finish nelems (size_chain n tys id)).
Proof.
  intros Hrep. assert (forall nelems, finish nelems ([], None) = - EINVAL) as Hend by reflexivity.
  induction n as [|n IH]; intros id nelems t Hid Hn Ht; [reflexivity|].
  cbn [resolve_size_loop].
  destruct (rep_by_id b tys strs id Hrep Hid) as [[Hlt Hx]|[[-> Hx]|(ty & p & Hty & Hx & Hat)]];
    rewrite Hx in Ht; injection Ht as <-.
  - cbn. unfold ty_at. replace (1 <=? id) with true by (pose proof (zlen_nonneg tys); lia).
    rewrite lookup_ge_None_2 by (unfold zlen in *; lia). reflexivity.
  - reflexivity.
  - cbn [btf_type_is_void_or_null mbind res_bind]. rewrite (type_at_not_void _ _ _ Hat). cbn [mbind res_bind].
    destruct (Z.eqb_spec (ty_kind ty) BTF_KIND_FWD) as [Hk|_].
    { rewrite (fwd_ends ty (S n) tys id Hty Hk), Hend. reflexivity. }
    rewrite (type_at_kind _ _ _ Hat), (chain_step ty n tys id Hty). cbn [mbind res_bind].
    unfold base_size. fold (is_sized (ty_kind ty)). fold (refers (ty_kind ty)).
    pose proof Hat as [Hok _]. destruct (is_sized (ty_kind ty)).
    { rewrite (type_at_size _ _ _ Hat). cbn [mbind res_bind]. f_equal.
      apply size_done_spec; [lia | apply Hok]. }
    destruct (ty_kind ty =? BTF_KIND_PTR); [f_equal; apply size_done_spec; lia|].
    destruct (refers (ty_kind ty)).
    { rewrite (type_at_type _ _ _ Hat). cbn [mbind res_bind]. pose proof (ty_size_ok _ Hok) as Hs.
      destruct (rep_by_id b tys strs (ty_size ty) Hrep) as [[_ Hy]|[[_ Hy]|(? & ? & _ & Hy & _)]];
        [apply Hs | rewrite Hy..]; cbn [mbind res_bind]; apply IH; try assumption; apply Hs. }
    destruct (Z.eqb_spec (ty_kind ty) BTF_KIND_ARRAY) as [Hk|_]; [|rewrite Hend; reflexivity].
    destruct (array_words ty Hok Hk) as (e & i & d & Hw & He & Hd).
    assert (array_nelems b p = Ok d) as -> by (apply (type_at_word b p ty 2 d Hat); rewrite Hw; reflexivity).
    assert (array_type b p = Ok e) as -> by (apply (type_at_word b p ty 0 e Hat); rewrite Hw; reflexivity).
    rewrite Hw. cbn [nth mbind res_bind]. rewrite div_check by (destruct Hd; lia).
    destruct (size_chain n tys e) as [ds s] eqn:Hc. unfold finish. cbn [fst snd grow].
    destruct (Z.ltb_spec UINT32_MAX (nelems * d)) as [Hlt|Hle]; [reflexivity|].
    destruct Hd, He. assert (0 <= nelems * d) by (apply Z.mul_nonneg_nonneg; lia).
    rewrite u32_small by (unfold UINT32_MAX in Hle; lia).
    destruct (rep_by_id b tys strs e Hrep) as [[_ Hy]|[[_ Hy]|(? & ? & _ & Hy & _)]];
      [lia | rewrite Hy..]; cbn [mbind res_bind];
      rewrite (IH e (nelems * d) _ ltac:(lia) ltac:(lia) Hy), Hc; reflexivity.
Qed.

Lemma resolve_size_value b tys strs id :
  represents b tys strs -> 0 <= id ->
  btf__resolve_size b id = Ok (size_of tys id).
Proof.
  intros Hrep Hid. unfold btf__resolve_size, size_of.
  destruct (rep_by_id b tys strs id Hrep Hid) as [[_ Hy]|[[_ Hy]|(? & ? & _ & Hy & _)]];
    rewrite Hy; cbn [mbind res_bind];
    rewrite (resolve_loop_spec b tys strs Hrep _ id 1 _ Hid ltac:(unfold UINT32_MAX; lia) Hy);
    unfold finish; destruct (size_chain _ _ _) as [ds s]; cbn [fst snd];
    rewrite grow_spec by (unfold UINT32_MAX; lia); unfold dims_overflow;
    rewrite (existsb_ext_in _ (fun i => UINT32_MAX <? prod_Z (take i ds)))
      by (intros i _; rewrite Z.mul_1_l; reflexivity);
    rewrite Z.mul_1_l; destruct (existsb _ _); reflexivity.
Qed.

(** C22: [btf__resolve_size] is the size of a type as C means it: through
    typedefs, qualifiers and variables, the product of the dimensions of
    nested arrays and of the size of their element. It answers [-E2BIG]
    exactly when a product of the first dimensions, or the size itself,
    needs more than 32 bits, and [-EINVAL] when the search does not end
    within 32 types; it never divides by zero and never reads outside the
    data. *)
Theorem resolve_size_spec b tys strs id :
  represents b tys strs -> 0 <= id ->
  btf__resolve_size b id = Ok (size_of tys id).
Proof. apply resolve_size_value. Qed.

(** * 2. Following modifiers *)

Fixpoint skip_refs (n : nat) (tys : list btype) (id : Z) : option Z :=
  match n, ty_at tys id with
  | S n, Some t =>
      if ty_kind t =? BTF_KIND_FWD then None
      else if refers (ty_kind t) then skip_refs n tys (ty_size t) else Some id
  | _, _ => None
  end.

Lemma follows_refers k :
  (k =? BTF_KIND_VOLATILE) || (k =? BTF_KIND_CONST) || (k =? BTF_KIND_RESTRICT)
  || (k =? BTF_KIND_TYPEDEF) || (k =? BTF_KIND_VAR) = refers k.
Proof. unfold refers. do 5 destruct (k =? _); reflexivity. Qed.

Lemma resolve_type_loop_spec b tys strs : represents b tys strs ->
  forall n id t, 0 <= id -> btf__type_by_id b id = Ok t ->
  resolve_type_loop n b t id = Ok (default (- EINVAL) (skip_refs n tys id)).
Proof.
  intros Hrep. induction n as [|n IH]; intros id t Hid Ht; [reflexivity|].
  cbn [resolve_type_loop skip_refs].
  destruct (rep_by_id b tys strs id Hrep Hid) as [[Hlt Hx]|[[-> Hx]|(ty & p & Hty & Hx & Hat)]];
    rewrite Hx in Ht; injection Ht as <-.
  - cbn. unfold ty_at. replace (1 <=? id) with true by (pose proof (zlen_nonneg tys); lia).
    rewrite lookup_ge_None_2 by (unfold zlen in *; lia). reflexivity.
  - reflexivity.
  - cbn [btf_type_is_void_or_null mbind res_bind]. rewrite (type_at_not_void _ _ _ Hat), Hty. cbn [mbind res_bind].
    destruct (ty_kind ty =? BTF_KIND_FWD); [reflexivity|]. unfold follows.
    rewrite (type_at_kind _ _ _ Hat). cbn [mbind res_bind]. rewrite follows_refers.
    pose proof Hat as [Hok _]. pose proof (ty_size_ok _ Hok) as Hs. destruct (refers (ty_kind ty)).
    + rewrite (type_at_type _ _ _ Hat). cbn [mbind res_bind].
      destruct (rep_by_id b tys strs (ty_size ty) Hrep) as [[_ Hy]|[[_ Hy]|(? & ? & _ & Hy & _)]];
        [apply Hs | rewrite Hy..]; cbn [mbind res_bind]; apply IH; try assumption; apply Hs.
    + cbn. rewrite s32_small; [reflexivity|]. pose proof (ty_at_range _ _ _ Hty).
      pose proof (rep_count _ _ _ Hrep). lia.
Qed.

Lemma resolve_type_spec b tys strs id :
  represents b tys strs -> 0 <= id ->
  btf__resolve_type b id = Ok (default (- EINVAL) (skip_refs MAX_RESOLVE_DEPTH tys id)).
Proof.
  intros Hrep Hid. unfold btf__resolve_type.
  destruct (rep_by_id b tys strs id Hrep Hid) as [[_ Hy]|[[_ Hy]|(? & ? & _ & Hy & _)]];
    rewrite Hy; cbn [mbind res_bind]; apply (resolve_type_loop_spec b tys strs Hrep); assumption.
Qed.

(** * 3. Names *)

Lemma c_string_prefix s k x : c_string s = Ok x -> c_string (s ++ k) = Ok x.
Proof.
  revert x. induction s as [|b s IH]; intros x; [discriminate|]. cbn [app c_string].
  case_decide; [auto|]. intros Hx. res_inv. rewrite (IH _ E). subst. reflexivity.
Qed.

Lemma c_string_nul s : NUL ∈ s -> exists x, c_string s = Ok x.
Proof.
  induction s as [|b s IH]; intros Hin; [inversion Hin|]. cbn [c_string].
  case_decide; [eauto|]. apply elem_of_cons in Hin as [E|Hin]; [congruence|].
  destruct (IH Hin) as [x ->]. cbn. eauto.
Qed.

(** The string at an offset of the strings. *)
Definition str_of (strs : list byte) (off : Z) : option (list byte) :=
  if off <? zlen strs then
    match c_string (drop (Z.to_nat off) strs) with Ok s => Some s | Err _ => None end
  else None.

Lemma name_spec b tys strs off :
  represents b tys strs -> 0 <= off ->
  match str_of strs off with
  | Some s => exists o, btf__name_by_offset b off = Ok (Some o) /\ str_at b o = Ok s
  | None => btf__name_by_offset b off = Ok None
  end.
Proof.
  intros Hrep Hoff. unfold str_of, btf__name_by_offset. rewrite (rep_str_len _ _ _ Hrep). cbn [mbind res_bind].
  destruct (Z.ltb_spec off (zlen strs)) as [Hlt|]; [|reflexivity].
  destruct (rep_strs _ _ _ Hrep) as (_ & Hlast & _).
  destruct (c_string_nul (drop (Z.to_nat off) strs)) as [x Hx].
  { rewrite last_lookup in Hlast. apply list_elem_of_lookup. exists (Nat.pred (length strs) - Z.to_nat off)%nat.
    rewrite lookup_drop. rewrite <- Hlast. f_equal. unfold zlen in Hlt. lia. }
  rewrite Hx. exists (b_strings b + off). split; [reflexivity|]. unfold str_at.
  destruct (rep_str_data _ _ _ Hrep) as (pre & suf & Hd & Hp). pose proof (zlen_nonneg pre).
  pose proof (zlen_nonneg suf). rewrite Hd, !zlen_app, <- Hp.
  replace ((0 <=? zlen pre + off) && (zlen pre + off <=? zlen pre + (zlen strs + zlen suf))) with true by lia.
  replace (Z.to_nat (zlen pre + off)) with (length pre + Z.to_nat off)%nat by (unfold zlen; lia).
  rewrite <- drop_drop, drop_app_length, drop_app_le by (unfold zlen in Hlt; lia).
  apply c_string_prefix, Hx.
Qed.

(** The first type with a name. *)
Fixpoint first_named (tys : list btype) (strs name : list byte) (i : Z) : option Z :=
  match tys with
  | [] => None
  | t :: tys => if bool_decide (str_of strs (ty_name t) = Some name) then Some i
                else first_named tys strs name (i + 1)
  end.
Definition named (tys : list btype) (strs name : list byte) : Z :=
  if bool_decide (name = bytes_of "void") then 0 else default (- ENOENT) (first_named tys strs name 1).

Lemma find_loop_spec b tys strs name : represents b tys strs ->
  forall todo done, tys = done ++ todo ->
  find_by_name_loop (length todo) b (zlen done + 1) name =
  Ok (default (- ENOENT) (first_named todo strs name (zlen done + 1))).
Proof.
  intros Hrep. induction todo as [|t todo IH]; intros done E; [reflexivity|].
  cbn [length find_by_name_loop first_named].
  assert (ty_at tys (zlen done + 1) = Some t) as Ht.
  { unfold ty_at. replace (1 <=? zlen done + 1) with true by (pose proof (zlen_nonneg done); lia).
    rewrite E, lookup_app_r by (unfold zlen; lia).
    replace (Z.to_nat _ - length done)%nat with O by (unfold zlen; lia). reflexivity. }
  destruct (rep_type _ _ _ Hrep _ _ Ht) as (p & Hp & Hat). rewrite Hp. cbn [mbind res_bind or_fault].
  rewrite (type_at_name _ _ _ Hat). cbn [mbind res_bind].
  pose proof (name_spec b tys strs (ty_name t) Hrep ltac:(destruct Hat as [[? ? [? ?] ? ? ?] _]; assumption)) as Hname.
  assert (zlen (done ++ [t]) + 1 = zlen done + 1 + 1) as El by (rewrite zlen_app; reflexivity).
  destruct (str_of strs (ty_name t)) as [s|].
  - destruct Hname as (o & -> & Hs). cbn [mbind res_bind]. rewrite Hs. cbn [mbind res_bind].
    rewrite (bool_decide_ext (Some s = Some name) (s = name)) by naive_solver.
    case_bool_decide.
    + cbn [default]. rewrite s32_small; [reflexivity|]. pose proof (ty_at_range _ _ _ Ht).
      pose proof (rep_count _ _ _ Hrep). lia.
    + rewrite <- El. apply IH. rewrite E, <- app_assoc. reflexivity.
  - rewrite Hname. cbn [mbind res_bind]. rewrite bool_decide_false by discriminate.
    rewrite <- El. apply IH. rewrite E, <- app_assoc. reflexivity.
Qed.

Lemma find_by_name_spec b tys strs name :
  represents b tys strs -> btf__find_by_name b name = Ok (named tys strs name).
Proof.
  intros Hrep. unfold btf__find_by_name, named. case_bool_decide; [reflexivity|].
  rewrite (rep_nr _ _ _ Hrep). unfold zlen at 1. rewrite Nat2Z.id.
  exact (find_loop_spec b tys strs name Hrep tys [] eq_refl).
Qed.

(** * 4. Key and value of a map *)

(** The name of the structure that describes a map: at most 255 bytes of it
    reach the search. *)
Definition container (map_name : list byte) : list byte := bytes_of "____btf_map_" ++ map_name.

(** The type [t] describes a map with these sizes; its first two members
    have the types [k] and [v]. *)
Definition describes (tys : list btype) (t : btype) (key_size value_size k v : Z) : Prop :=
  ty_kind t = BTF_KIND_STRUCT /\ 2 <= ty_vlen t /\
  ty_words t !! 1%nat = Some k /\ ty_words t !! 4%nat = Some v /\
  size_of tys k = key_size /\ size_of tys v = value_size.

Lemma struct_members b p t : type_at b p t -> ty_kind t = BTF_KIND_STRUCT -> 2 <= ty_vlen t ->
  exists k v, ty_words t !! 1%nat = Some k /\ ty_words t !! 4%nat = Some v /\ 0 <= k /\ 0 <= v /\
    member_type b p 0 = Ok k /\ member_type b p 1 = Ok v.
Proof.
  intros Hat Hk Hv. pose proof Hat as [[_ _ _ _ Hw Hl] _]. rewrite Hk in Hl.
  change (extra_words _ _) with (3 * ty_vlen t) in Hl.
  destruct (lookup_lt_is_Some_2 (ty_words t) 1) as [k Hk']; [unfold zlen in Hl; lia|].
  destruct (lookup_lt_is_Some_2 (ty_words t) 4) as [v Hv']; [unfold zlen in Hl; lia|].
  rewrite Forall_lookup in Hw. exists k, v. repeat split; try assumption.
  - apply (Hw _ _ Hk'). - apply (Hw _ _ Hv').
  - exact (type_at_word b p t 1 k Hat Hk'). - exact (type_at_word b p t 4 v Hat Hv').
Qed.

Lemma size_of_range tys id : size_of tys id <= UINT32_MAX.
Proof.
  unfold size_of, UINT32_MAX, E2BIG, EINVAL. destruct (size_chain _ _ _) as [ds [s|]];
    destruct (dims_overflow ds); try lia. destruct (Z.ltb_spec (2 ^ 32 - 1) (prod_Z ds * s)); lia.
Qed.

(** The part behind the search, for the structure at [p]. *)
Lemma kv_members b tys strs p t ks vs :
  represents b tys strs -> type_at b p t -> 0 <= ks -> 0 <= vs ->
  exists err ids,
    (is_struct ← btf_is BTF_KIND_STRUCT b p;
     vlen ← btf_vlen b p;
     if negb is_struct || (vlen <? 2) then Ok (- EINVAL, None) else
     key ← member_type b p 0;
     key_size ← btf__resolve_size b key;
     if key_size <? 0 then Ok (key_size, None) else
     if negb (ks =? key_size) then Ok (- EINVAL, None) else
     value ← member_type b p 1;
     value_size ← btf__resolve_size b value;
     if value_size <? 0 then Ok (value_size, None) else
     if negb (vs =? value_size) then Ok (- EINVAL, None) else
     Ok (0, Some (key, value))) = Ok (err, ids) /\
    (err = 0 /\ is_Some ids \/ err < 0 /\ ids = None) /\
    forall k v, ids = Some (k, v) <-> describes tys t ks vs k v.
Proof.
  intros Hrep Hat Hks Hvs. unfold describes. rewrite (type_at_is _ _ _ _ Hat), (type_at_vlen _ _ _ Hat).
  cbn [mbind res_bind]. destruct (Z.eqb_spec (ty_kind t) BTF_KIND_STRUCT) as [Hk|Hk]; cbn [negb orb];
    [|do 2 eexists; split; [reflexivity|]; split; [right; done | naive_solver]].
  destruct (Z.ltb_spec (ty_vlen t) 2) as [Hv|Hv];
    [do 2 eexists; split; [reflexivity|]; split; [right; done | intros; split; [done | lia]]|].
  destruct (struct_members b p t Hat Hk Hv) as (k & v & Hwk & Hwv & H0k & H0v & -> & ->).
  cbn [mbind res_bind]. rewrite (resolve_size_value b tys strs k Hrep H0k). cbn [mbind res_bind].
  destruct (Z.ltb_spec (size_of tys k) 0);
    [do 2 eexists; split; [reflexivity|]; split; [right; done | intros; split; [done | naive_solver lia]]|].
  destruct (Z.eqb_spec ks (size_of tys k)); cbn [negb];
    [|do 2 eexists; split; [reflexivity|]; split; [right; done | naive_solver]].
  rewrite (resolve_size_value b tys strs v Hrep H0v). cbn [mbind res_bind].
  destruct (Z.ltb_spec (size_of tys v) 0);
    [do 2 eexists; split; [reflexivity|]; split; [right; done | intros; split; [done | naive_solver lia]]|].
  destruct (Z.eqb_spec vs (size_of tys v)); cbn [negb];
    do 2 eexists; (split; [reflexivity|]); (split; [naive_solver | naive_solver]).
Qed.

(** [btf__get_map_kv_tids] finds the types of a map's key and value: it
    answers the ids [k] and [v] exactly when the first type named
    [____btf_map_<name>] is a structure whose first two members have these
    types, of the sizes the map was defined with, and an error otherwise.
    A longer name is compared by its first 255 bytes, except that the
    length 256 is refused. *)
Theorem map_kv_tids_spec b tys strs map_name ks vs :
  represents b tys strs -> 0 <= ks -> 0 <= vs ->
  exists err ids, btf__get_map_kv_tids b map_name ks vs = Ok (err, ids) /\
    (err = 0 /\ is_Some ids \/ err < 0 /\ ids = None) /\
    forall k v, ids = Some (k, v) <->
      zlen (container map_name) <> 256 /\
      exists id t, first_named tys strs (take 255 (container map_name)) 1 = Some id /\
        ty_at tys id = Some t /\ describes tys t ks vs k v.
Proof.
  intros Hrep Hks Hvs. unfold btf__get_map_kv_tids, MAX_NAME. fold (container map_name).
  destruct (Z.eqb_spec (zlen (container map_name)) 256);
    [do 2 eexists; split; [reflexivity|]; split; [right; done | naive_solver]|].
  change (Z.to_nat (256 - 1)) with 255%nat. rewrite (find_by_name_spec b tys strs _ Hrep). unfold named.
  rewrite bool_decide_false by (destruct map_name; discriminate). cbn [mbind res_bind].
  destruct (first_named tys strs (take 255 (container map_name)) 1) as [id|] eqn:Hf;
    cbn [default from_option]; unfold Datatypes.id;
    [|do 2 eexists; split; [reflexivity|]; split; [right; done | naive_solver]].
  assert (forall l i, first_named l strs (take 255 (container map_name)) i = Some id -> i <= id) as Hmono.
  { clear. intros l. induction l as [|t l IH]; intros i; [discriminate|]. cbn [first_named].
    case_bool_decide; [intros [= ->]; lia|]. intros Hx%IH. lia. }
  pose proof (Hmono _ _ Hf) as Hid. replace (id <? 0) with false by lia.
  destruct (rep_by_id b tys strs id Hrep) as [[Hlt Hy]|[[? _]|(t & p & Ht & Hy & Hat)]]; [lia| |lia|];
    rewrite Hy; cbn [mbind res_bind].
  - do 2 eexists. split; [reflexivity|]. split; [right; done|]. intros k v. split; [done|].
    intros (_ & id' & t & [= <-] & Ht & _). apply ty_at_range in Ht. lia.
  - destruct (kv_members b tys strs p t ks vs Hrep Hat Hks Hvs) as (err & ids & -> & He & Hids).
    do 2 eexists. split; [reflexivity|]. split; [exact He|]. intros k v. rewrite Hids. naive_solver.
Qed.

Lemma resolve_size_spec_witness :
  represents demo_btf demo_types demo_strs /\ btf__resolve_size demo_btf 4 = Ok 1064.
Proof.
  split; [apply demo_represents|].
  rewrite (resolve_size_spec demo_btf demo_types demo_strs 4 demo_represents) by lia. reflexivity.
Defined.

Lemma map_kv_tids_spec_witness :
  represents demo_btf demo_types demo_strs /\
  exists err ids, btf__get_map_kv_tids demo_btf (bytes_of "pkt") 4 1064 = Ok (err, ids) /\ ids = Some (1, 4).
Proof.
  split; [apply demo_represents|].
  destruct (map_kv_tids_spec demo_btf demo_types demo_strs (bytes_of "pkt") 4 1064 demo_represents)
    as (err & ids & Hx & _ & Hids); [lia | lia |]. exists err, ids. split; [exact Hx|].
  apply Hids. split; [discriminate|]. exists 5, (mk_btype 5 BTF_KIND_STRUCT false 2 1072 [21; 1; 0; 25; 4; 64]).
  split; [reflexivity|]. split; [reflexivity|]. unfold describes. cbn [ty_vlen].
  repeat split; try reflexivity; lia.
Defined.

(** BTF and the kernel: loading ([btf__load], [bpf_load_btf]) and fetching by
    id ([btf__get_from_id]), with what they promise about descriptors and
    error codes. *)

(** What the kernel documents of its BTF calls. It hands out as much of an
    object as the buffer holds, and it accepted the object before. *)
Class BtfSysLaws (K : Type) `{BpfSys K} `{BtfSys K} := {
  btf_load_fds k data log : gives_fd k (sys_btf_load k data log);
  btf_by_id_fds k id : gives_fd k (sys_btf_fd_by_id k id);
  btf_info_fds (k : K) fd cap : open_fds (snd (sys_btf_info k fd cap)) = open_fds k;
  btf_info_answer (k : K) fd cap : 0 <= cap ->
    match fst (sys_btf_info k fd cap) with
    | BErr e => 0 < e
    | BInfo size bytes => 0 <= size < 2 ^ 32 /\ zlen bytes = Z.min size cap /\
                          (size <= cap -> strings_inside bytes)
    end
}.

Section props.
Context {K : Type} `{BpfSysLaws K} `{!BtfSys K} `{!BtfSysLaws K}.

(** Loading: the descriptor is new, or nothing was opened; a second attempt
    with a log is made after a failure. *)
Lemma load_btf_fds (k : K) data log do_log : gives_fd k (bpf_load_btf k data log do_log).
Proof.
  unfold bpf_load_btf. set (has_log := match log with Some size => negb (size =? 0) | None => false end).
  pose proof (btf_load_fds k data (if do_log && has_log then log else None)) as Hg.
  destruct (sys_btf_load _ _ _) as [[fd|e] k1]; [exact Hg|].
  destruct (negb do_log && has_log); [|exact Hg]. destruct Hg as [_ Hk].
  pose proof (btf_load_fds k1 data log) as Hg2. unfold gives_fd in *. cbn [snd] in Hk.
  rewrite Hk in Hg2. exact Hg2.
Qed.

Lemma btf_load_owns (k : K) b err b' k' :
  btf__load k b = (err, b', k') ->
  (err = 0 /\ (b_fd b' ∉ open_fds k) /\ open_fds k' = {[ b_fd b' ]} ∪ open_fds k) \/
  (err < 0 /\ open_fds k' = open_fds k).
Proof.
  unfold btf__load. destruct (0 <=? b_fd b); [intros [= <- <- <-]; right; done|].
  pose proof (alloc_fds k) as Ha. destruct (sys_alloc k) as [[|] k1]; cbn [negb snd] in *;
    [|intros [= <- <- <-]; right; done].
  pose proof (load_btf_fds k1 (b_data b) (Some BPF_LOG_BUF_SIZE) false) as Hg. unfold gives_fd in Hg.
  destruct (bpf_load_btf _ _ _ _) as [[fd|e] k2]; cbn [fst snd] in Hg; intros [= <- <- <-]; rewrite Ha in Hg.
  - left. cbn. tauto.
  - right. split; [lia | tauto].
Qed.

Lemma close_new (k : K) fd k1 :
  (fd ∉ open_fds k) -> open_fds k1 = {[ fd ]} ∪ open_fds k -> open_fds (snd (sys_close k1 fd)) = open_fds k.
Proof.
  intros Hnew Hk. destruct (close_fds k1 fd) as [_ ->]; [rewrite Hk; set_solver|]. rewrite Hk. set_solver.
Qed.

Lemma zlen_zeros n : 0 <= n -> zlen (zeros n) = n.
Proof. intros. unfold zeros. rewrite zlen_replicate. lia. Qed.

Lemma write_bytes size bytes cap :
  zlen bytes = Z.min size cap -> 0 <= size -> 0 <= cap ->
  exists buf, mwrite (zeros cap) 0 bytes = Ok buf /\ (size <= cap -> mread buf 0 (zlen bytes) = Ok bytes).
Proof.
  intros Hl Hs Hc. assert (in_block (zeros cap) 0 (zlen bytes)) as Hin.
  { unfold in_block. rewrite zlen_zeros by lia. lia. }
  rewrite mwrite_Ok by exact Hin. eexists. split; [reflexivity|]. intros _.
  change (Z.to_nat 0) with O. rewrite take_0, app_nil_l. rewrite mread_app_l by (unfold in_block; pose proof (zlen_nonneg bytes); lia).
  apply mread_all.
Qed.

Lemma from_id_end_ok (k : K) fd a cap base :
  0 <= cap -> (fd ∉ base) -> open_fds k = {[ fd ]} ∪ base ->
  match a with
  | BErr e => 0 < e
  | BInfo size bytes => 0 <= size < 2 ^ 32 /\ zlen bytes = Z.min size cap /\
                        (size <= cap -> strings_inside bytes)
  end ->
  exists ret b k', get_from_id_end k fd a cap = Ok (ret, b, k') /\ open_fds k' = base /\
    match a with
    | BErr e => ret = e /\ b = None
    | BInfo size _ => if cap <? size then ret = sys_errno k /\ b = None
                      else (ret = 0 <-> is_Some b) /\ ret <= 0
    end.
Proof.
  intros Hc Hnew Hk Ha. unfold get_from_id_end. destruct a as [size bytes|e].
  - destruct Ha as (Hs & Hl & Hin). destruct (write_bytes size bytes cap Hl (proj1 Hs) Hc) as (buf & -> & Hbuf).
    cbn [mbind res_bind]. destruct (Z.ltb_spec cap size) as [Hlt|Hle].
    + do 3 eexists. split; [reflexivity|]. split; [|auto].
      destruct (close_fds k fd) as [_ ->]; [set_solver|]. rewrite Hk. set_solver.
    + assert (size = zlen bytes) as -> by lia.
      destruct (new_total k buf bytes (Hbuf Hle)) as (r & k1 & -> & Hk1 & Hr); [lia | exact (Hin Hle) |].
      cbn [mbind res_bind]. do 3 eexists. split; [reflexivity|]. rewrite Hk in Hk1. split.
      * destruct (close_fds k1 fd) as [_ ->]; [set_solver|]. rewrite Hk1. set_solver.
      * destruct r as [err|b]; (split; [|lia]); (split; [|intros [? ?]]); try done; lia.
  - do 3 eexists. split; [reflexivity|]. split; [|auto].
    destruct (close_fds k fd) as [_ ->]; [set_solver|]. rewrite Hk. set_solver.
Qed.

(** [btf__get_from_id] gives back every descriptor it opens, on every
    path. What it returns is less regular than a caller may expect: an id
    that cannot be opened is success with no BTF, a kernel call that fails
    is its [errno] as a positive number, and the other errors are negative;
    BTF comes with the value 0 only. *)
Theorem get_from_id_spec (k : K) id :
  exists ret b k', btf__get_from_id k id = Ok (ret, b, k') /\ open_fds k' = open_fds k /\
    (is_Some b -> ret = 0) /\
    match sys_btf_fd_by_id k id with
    | (RErr _, _) => ret = 0 /\ b = None
    | (ROk fd, k1) =>
        forall k2 e, sys_alloc k1 = (true, k2) -> fst (sys_btf_info k2 fd 4096) = BErr e ->
          ret = e /\ 0 < ret /\ b = None
    end.
Proof.
  unfold btf__get_from_id. pose proof (btf_by_id_fds k id) as Hg. unfold gives_fd in Hg.
  destruct (sys_btf_fd_by_id k id) as [[fd|e] k1]; cbn [fst snd] in Hg;
    [|do 3 eexists; split; [reflexivity|]; split; [tauto|]; split; [intros [? ?]; done | auto]].
  destruct Hg as (_ & Hnew & Hk1). pose proof (alloc_fds k1) as Hk2. destruct (sys_alloc k1) as [[|] k2];
    cbn [snd negb] in *; rewrite Hk1 in Hk2;
    [|do 3 eexists; split; [reflexivity|]; split;
      [apply (close_new k fd k2 Hnew Hk2) | split; [intros [? ?]; done | intros ? ? [=]]]].
  pose proof (btf_info_fds k2 fd 4096) as Hk3. pose proof (btf_info_answer k2 fd 4096 ltac:(lia)) as Ha.
  destruct (sys_btf_info k2 fd 4096) as [a k3] eqn:Hi; cbn [fst snd] in *. rewrite Hk2 in Hk3.
  assert (forall k0 a0 cap, 0 <= cap -> open_fds k0 = {[ fd ]} ∪ open_fds k ->
    match a0 with BErr e => 0 < e | BInfo size bytes => 0 <= size < 2 ^ 32 /\ zlen bytes = Z.min size cap /\
      (size <= cap -> strings_inside bytes) end ->
    exists ret b k', get_from_id_end k0 fd a0 cap = Ok (ret, b, k') /\ open_fds k' = open_fds k /\
      (is_Some b -> ret = 0) /\ match a0 with BErr e => ret = e /\ 0 < ret /\ b = None | BInfo _ _ => True end) as Hend.
  { intros k0 a0 cap Hc Hk0 Ha0.
    destruct (from_id_end_ok k0 fd a0 cap (open_fds k) Hc Hnew Hk0 Ha0) as (ret & b & k' & Hx & Hf & Hr).
    do 3 eexists. split; [exact Hx|]. split; [exact Hf|]. destruct a0 as [size bytes|e]; [|naive_solver].
    split; [|exact I]. destruct (cap <? size); [intros [? ?]|]; naive_solver. }
  destruct a as [size bytes|e].
  - destruct (Z.ltb_spec 4096 size) as [Hlt|Hle].
    + destruct Ha as (Hs & Hl & _). destruct (write_bytes size bytes 4096 Hl) as (buf & -> & _); [lia | lia |].
      cbn [mbind res_bind]. pose proof (alloc_fds k3) as Hk4. destruct (sys_alloc k3) as [[|] k4];
        cbn [snd negb] in *; rewrite Hk3 in Hk4;
        [|do 3 eexists; split; [reflexivity|]; split;
          [apply (close_new k fd k4 Hnew Hk4) | split; [intros [? ?]; done | intros ? ? [= <-]; rewrite Hi; done]]].
      pose proof (btf_info_fds k4 fd size) as Hk5. pose proof (btf_info_answer k4 fd size ltac:(lia)) as Ha2.
      destruct (sys_btf_info k4 fd size) as [a2 k5]; cbn [fst snd] in *. rewrite Hk4 in Hk5.
      destruct (Hend k5 a2 size ltac:(lia) Hk5 Ha2) as (ret & b & k' & Hx & Hf & Hr & _).
      do 3 eexists. split; [exact Hx|]. split; [exact Hf|]. split; [exact Hr|].
      intros ? ? [= <-]. rewrite Hi. done.
    + destruct (Hend k3 (BInfo size bytes) 4096 ltac:(lia) Hk3 Ha) as (ret & b & k' & Hx & Hf & Hr & _).
      do 3 eexists. split; [exact Hx|]. split; [exact Hf|]. split; [exact Hr|].
      intros ? ? [= <-]. rewrite Hi. done.
  - destruct (Hend k3 (BErr e) 4096 ltac:(lia) Hk3 Ha) as (ret & b & k' & Hx & Hf & Hr & He).
    do 3 eexists. split; [exact Hx|]. split; [exact Hf|]. split; [exact Hr|].
    intros ? e' [= <-]. rewrite Hi. intros [= <-]. exact He.
Qed.
End props.

(** * An example kernel *)

(** It has one BTF object, with the id 1. *)
#[export] Instance demo_btf_sys : BtfSys demo := {|
  sys_btf_load d _ _ := if refuse_load d then (RErr EINVAL, d) else add_fd d;
  sys_btf_fd_by_id d id := if id =? 1 then add_fd d else (RErr ENOENT, d);
  sys_btf_info d fd cap :=
    if refuse_load d then (BErr EINVAL, d) else
    let data := encode demo_types demo_strs in
    (BInfo (zlen data) (take (Z.to_nat cap) data), d)
|}.

Lemma demo_inside : strings_inside (encode demo_types demo_strs).
Proof.
  intros so sl Hso Hsl. vm_compute in Hso, Hsl. injection Hso as <-. injection Hsl as <-.
  split; vm_compute; discriminate.
Qed.

#[export] Instance demo_btf_laws : BtfSysLaws demo.
Proof.
  split.
  - intros k data log. cbn. destruct (refuse_load k); [split; reflexivity | apply add_fd_gives].
  - intros k id. cbn. destruct (id =? 1); [apply add_fd_gives | split; reflexivity].
  - intros k fd cap. unfold sys_btf_info, demo_btf_sys. destruct (refuse_load k); reflexivity.
  - intros k fd cap Hcap. unfold sys_btf_info, demo_btf_sys.
    destruct (refuse_load k); cbn [fst]; [reflexivity|].
    set (data := encode demo_types demo_strs). split; [split; vm_compute; [discriminate | reflexivity]|].
    split; [unfold zlen; rewrite length_take; lia|]. intros Hle.
    rewrite take_ge by (unfold zlen in Hle; lia). apply demo_inside.
Qed.

Lemma get_from_id_spec_witness :
  (exists b k', btf__get_from_id demo_start 1 = Ok (0, Some b, k') /\ open_fds k' = open_fds demo_start) /\
  (exists ret b k', btf__get_from_id demo_refuses 1 = Ok (ret, b, k') /\ ret = EINVAL /\ b = None).
Proof.
  split.
  - destruct (get_from_id_spec demo_start 1) as (ret & b & k' & Hx & Hf & Hb & _).
    destruct b as [b|]; [|exfalso; vm_compute in Hx; discriminate].
    rewrite (Hb ltac:(eauto)) in Hx. eauto.
  - destruct (get_from_id_spec demo_refuses 1) as (ret & b & k' & Hx & _ & _ & He).
    exists ret, b, k'. split; [exact Hx|]. unfold sys_btf_fd_by_id, demo_btf_sys in He. cbn [Z.eqb Pos.eqb] in He.
    destruct (He _ _ eq_refl eq_refl) as (? & _ & ?). auto.
Defined.
