(* ===== verification/BtfExt.v ===== *)
(** [.BTF.ext]: the records that tie instructions to types and lines
    ([btf_ext__new] and the relocation of records in
    [src/eBPF_app/libbpf/src/btf.c], the structures in [btf.h] and
    [libbpf_internal.h], and their use by [bpf_program_reloc_btf_ext] in
    [libbpf.c]). *)
From S2P Require Import Prelude CLib XdpLink LibbpfObj LibbpfLoad Btf.
#[local] Open Scope Z_scope.

(** [struct btf_ext_info]: a part of the data, without the leading word
    that holds the size of a record. [info] is an offset into the data. *)
Record btf_ext_info := mk_ext_info { x_info : Z; x_rec_size : Z; x_len : Z }.
Definition no_info : btf_ext_info := mk_ext_info 0 0 0.

Record btf_ext := mk_ext {
  x_data : list byte;
  x_func_info : btf_ext_info;
  x_line_info : btf_ext_info;
  x_field_reloc_info : btf_ext_info;
  x_data_size : Z
}.

Definition sizeof_ext_info_sec : Z := 8.
(** Minimal records: [struct bpf_func_info_min], [bpf_line_info_min],
    [bpf_field_reloc]. *)
Definition sizeof_func_info_min : Z := 8.
Definition sizeof_line_info_min : Z := 16.
Definition sizeof_field_reloc : Z := 16.

(** The header; [hdr_len] ends at 8, [line_info_len] at 24 and
    [field_reloc_len] at 32. *)
Definition xh_hdr_len (d : list byte) : res Z := load32 d 4.

(** The loop of [btf_ext_setup_info] over the sections. *)
Fixpoint check_secs (fuel : nat) (d : list byte) (sinfo info_left record_size : Z) : res Z :=
  match fuel with
  | O => Err OutOfFuel
  | S fuel =>
      if info_left =? 0 then Ok 0 else
      if info_left <? sizeof_ext_info_sec then Ok (- EINVAL) else
      num_records ← load32 d (sinfo + 4);
      if num_records =? 0 then Ok (- EINVAL) else
      let total_record_size := u64 (sizeof_ext_info_sec + num_records * record_size) in
      if info_left <? total_record_size then Ok (- EINVAL) else
      check_secs fuel d (sinfo + total_record_size) (u32 (info_left - total_record_size)) record_size
  end.

(** The error code, and what [ext_sec->ext_info] becomes. *)
Definition btf_ext_setup_info (d : list byte) (data_size off len min_rec_size : Z)
    (old : btf_ext_info) : res (Z * btf_ext_info) :=
  if len =? 0 then Ok (0, old) else
  if negb (Z.land off 0x03 =? 0) then Ok (- EINVAL, old) else
  hdr_len ← xh_hdr_len d;
  let info := hdr_len + off in
  if data_size <? info + len then Ok (- EINVAL, old) else
  if len <? 4 then Ok (- EINVAL, old) else
  record_size ← load32 d info;
  if (record_size <? min_rec_size) || negb (Z.land record_size 0x03 =? 0) then Ok (- EINVAL, old) else
  if u32 (len - 4) =? 0 then Ok (- EINVAL, old) else
  err ← check_secs (length d) d (info + 4) (u32 (len - 4)) record_size;
  Ok (err, if err =? 0 then mk_ext_info (info + 4) record_size (u32 (len - 4)) else old).

Definition btf_ext_setup_func_info (x : btf_ext) : res (Z * btf_ext) :=
  off ← load32 (x_data x) 8;
  len ← load32 (x_data x) 12;
  '(err, i) ← btf_ext_setup_info (x_data x) (x_data_size x) off len sizeof_func_info_min (x_func_info x);
  Ok (err, mk_ext (x_data x) i (x_line_info x) (x_field_reloc_info x) (x_data_size x)).
Definition btf_ext_setup_line_info (x : btf_ext) : res (Z * btf_ext) :=
  off ← load32 (x_data x) 16;
  len ← load32 (x_data x) 20;
  '(err, i) ← btf_ext_setup_info (x_data x) (x_data_size x) off len sizeof_line_info_min (x_line_info x);
  Ok (err, mk_ext (x_data x) (x_func_info x) i (x_field_reloc_info x) (x_data_size x)).
Definition btf_ext_setup_field_reloc (x : btf_ext) : res (Z * btf_ext) :=
  off ← load32 (x_data x) 24;
  len ← load32 (x_data x) 28;
  '(err, i) ← btf_ext_setup_info (x_data x) (x_data_size x) off len sizeof_field_reloc
                (x_field_reloc_info x);
  Ok (err, mk_ext (x_data x) (x_func_info x) (x_line_info x) i (x_data_size x)).

Definition btf_ext_parse_hdr (data : list byte) (data_size : Z) : res Z :=
  if data_size <? 8 then Ok (- EINVAL) else
  hdr_len ← xh_hdr_len data;
  if data_size <? hdr_len then Ok (- EINVAL) else
  magic ← load16 data 0;
  if negb (magic =? BTF_MAGIC) then Ok (- EINVAL) else
  version ← load8 data 2;
  if negb (version =? BTF_VERSION) then Ok (- ENOTSUP) else
  flags ← load8 data 3;
  if negb (flags =? 0) then Ok (- ENOTSUP) else
  if data_size =? hdr_len then Ok (- EINVAL) else Ok 0.

Section ext.
Context {K : Type} `{BpfSys K}.

(** The part of [btf_ext__new] between the copy and the label [done]. *)
Definition btf_ext_setup (x : btf_ext) : res (Z * btf_ext) :=
  hdr_len ← xh_hdr_len (x_data x);
  if hdr_len <? 24 then Ok (0, x) else
  '(err, x) ← btf_ext_setup_func_info x;
  if negb (err =? 0) then Ok (err, x) else
  '(err, x) ← btf_ext_setup_line_info x;
  if negb (err =? 0) then Ok (err, x) else
  hdr_len ← xh_hdr_len (x_data x);
  if hdr_len <? 32 then Ok (0, x) else
  btf_ext_setup_field_reloc x.

Definition btf_ext__new (k : K) (data : list byte) (size : Z) : res ((Z + btf_ext) * K) :=
  err ← btf_ext_parse_hdr data size;
  if negb (err =? 0) then Ok (inl err, k) else
  let '(m1, k) := sys_alloc k in
  if negb m1 then Ok (inl (- ENOMEM), k) else
  let '(m2, k) := sys_alloc k in
  if negb m2 then Ok (inl (- ENOMEM), k) else
  copy ← mread data 0 size;
  '(err, x) ← btf_ext_setup (mk_ext copy no_info no_info no_info size);
  Ok (if negb (err =? 0) then inl err else inr x, k).

Definition btf_ext__get_raw_data (x : btf_ext) : list byte * Z := (x_data x, x_data_size x).
Definition btf_ext__func_info_rec_size (x : btf_ext) : Z := x_rec_size (x_func_info x).
Definition btf_ext__line_info_rec_size (x : btf_ext) : Z := x_rec_size (x_line_info x).

(** * Moving records to a program *)

(** What fresh memory of [realloc] holds. *)
Context (junk : byte).

(** [realloc] of a block to [size] bytes. *)
Definition realloc_block (m : list byte) (size : Z) : list byte :=
  take (Z.to_nat size) m ++ replicate (Z.to_nat size - length m) junk.

(** The loop that adjusts [insn_off] of the records at [existing_len]. *)
Fixpoint adjust_loop (n : nat) (data : list byte) (existing_len i record_size insns_cnt : Z)
    : res (list byte) :=
  match n with
  | O => Ok data
  | S n =>
      let o := existing_len + u32 (i * record_size) in
      insn_off ← load32 data o;
      data ← mwrite data o (le_bytes 4 (u32 (insn_off / 8 + insns_cnt)));
      adjust_loop n data existing_len (i + 1) record_size insns_cnt
  end.

(** The records of a program so far: NULL is the empty block. The result
    is the error code, the block and its count. *)
Fixpoint reloc_info_loop (fuel : nat) (k : K) (b : btf) (d : list byte) (sec_name : list byte)
    (insns_cnt record_size sinfo remain_len : Z) (info : list byte) (cnt : Z)
    : res (Z * list byte * Z * K) :=
  match fuel with
  | O => Err OutOfFuel
  | S fuel =>
      if negb (0 <? remain_len) then Ok (- ENOENT, info, cnt, k) else
      num_info ← load32 d (sinfo + 4);
      let records_len := u32 (num_info * record_size) in
      sec_name_off ← load32 d sinfo;
      name ← btf__name_by_offset b sec_name_off;
      name ← or_fault NullDeref name;
      name ← str_at b name;
      if negb (bool_decide (name = sec_name)) then
        reloc_info_loop fuel k b d sec_name insns_cnt record_size
          (sinfo + sizeof_ext_info_sec + records_len)
          (u64 (remain_len - u32 (sizeof_ext_info_sec + records_len))) info cnt
      else
        let existing_len := u32 (cnt * record_size) in
        let '(ok, k) := sys_alloc k in
        if negb ok then Ok (- ENOMEM, info, cnt, k) else
        let data := realloc_block info (u32 (existing_len + records_len)) in
        recs ← mread d (sinfo + sizeof_ext_info_sec) records_len;
        data ← mwrite data existing_len recs;
        data ← adjust_loop (Z.to_nat num_info) data existing_len 0 record_size insns_cnt;
        Ok (0, data, u32 (cnt + num_info), k)
  end.

Definition btf_ext_reloc_info (k : K) (b : btf) (d : list byte) (i : btf_ext_info)
    (sec_name : list byte) (insns_cnt : Z) (info : list byte) (cnt : Z)
    : res (Z * list byte * Z * K) :=
  reloc_info_loop (S (length d)) k b d sec_name insns_cnt (x_rec_size i) (x_info i) (x_len i) info cnt.

Definition btf_ext__reloc_func_info (k : K) (b : btf) (x : btf_ext) (sec_name : list byte)
    (insns_cnt : Z) (info : list byte) (cnt : Z) : res (Z * list byte * Z * K) :=
  btf_ext_reloc_info k b (x_data x) (x_func_info x) sec_name insns_cnt info cnt.
Definition btf_ext__reloc_line_info (k : K) (b : btf) (x : btf_ext) (sec_name : list byte)
    (insns_cnt : Z) (info : list byte) (cnt : Z) : res (Z * list byte * Z * K) :=
  btf_ext_reloc_info k b (x_data x) (x_line_info x) sec_name insns_cnt info cnt.

(** * For a program ([libbpf.c]) *)

Definition set_func (i : list byte) (rec cnt : Z) (p : bpf_program) : bpf_program :=
  mk_prog (p_idx p) (p_name p) (p_ifindex p) (section_name p) (p_insns p) (main_prog_cnt p)
    (p_type p) (p_relocs p) (p_log_level p) (p_instances p) (expected_attach_type p)
    (attach_btf_id p) i rec cnt (line_info p) (line_info_rec_size p)
    (line_info_cnt p) (prog_flags p).
Definition set_line (i : list byte) (rec cnt : Z) (p : bpf_program) : bpf_program :=
  mk_prog (p_idx p) (p_name p) (p_ifindex p) (section_name p) (p_insns p) (main_prog_cnt p)
    (p_type p) (p_relocs p) (p_log_level p) (p_instances p) (expected_attach_type p)
    (attach_btf_id p) (func_info p) (func_info_rec_size p) (func_info_cnt p) i rec cnt (prog_flags p).

Definition check_btf_ext_reloc_err (err : Z) (btf_prog_info : list byte) : Z :=
  if negb (err =? - ENOENT) then err else
  match btf_prog_info with [] => 0 | _ => err end.

Definition bpf_program_reloc_btf_ext (k : K) (b : btf) (x : btf_ext) (p : bpf_program)
    (section_name : list byte) (insn_offset : Z) : res (Z * bpf_program * K) :=
  '(stop, p, k) ←
    (if (insn_offset =? 0) || negb (bool_decide (func_info p = [])) then
       '(err, info, cnt, k) ← btf_ext__reloc_func_info k b x section_name insn_offset
                                (func_info p) (func_info_cnt p);
       let p := set_func info (func_info_rec_size p) cnt p in
       Ok (if negb (err =? 0) then Some (check_btf_ext_reloc_err err (func_info p)) else None,
           if negb (err =? 0) then p else set_func info (btf_ext__func_info_rec_size x) cnt p, k)
     else Ok (None, p, k));
  match stop with
  | Some err => Ok (err, p, k)
  | None =>
      if (insn_offset =? 0) || negb (bool_decide (line_info p = [])) then
        '(err, info, cnt, k) ← btf_ext__reloc_line_info k b x section_name insn_offset
                                 (line_info p) (line_info_cnt p);
        let p := set_line info (line_info_rec_size p) cnt p in
        if negb (err =? 0) then Ok (check_btf_ext_reloc_err err (line_info p), p, k)
        else Ok (0, set_line info (btf_ext__line_info_rec_size x) cnt p, k)
      else Ok (0, p, k)
  end.
End ext.
