(* ===== verification/BtfExtProps.v ===== *)
(** What [.BTF.ext] parsing guarantees: it never leaves its data on any
    bytes, what it accepts is a sequence of sections, and moving the records
    of a section to a program adjusts exactly their instruction offsets. *)
From S2P Require Import Prelude CLib XdpLink LibbpfObj LibbpfLoad DemoSys Btf BtfSpec BtfProps BtfLookups BtfExt.
#[local] Open Scope Z_scope.

(** * 1. Sections *)

(** The [left] bytes at [o] are the sections [secs], each with the offset
    of its name and the number of its records. *)
Fixpoint tiles (d : list byte) (o rec : Z) (secs : list (Z * Z)) (left : Z) : Prop :=
  match secs with
  | [] => left = 0
  | (name, num) :: secs =>
      load32 d o = Ok name /\ load32 d (o + 4) = Ok num /\ 0 < num /\
      0 <= o /\ 8 + num * rec <= left /\ o + left <= zlen d /\
      tiles d (o + 8 + num * rec) rec secs (left - (8 + num * rec))
  end.

Definition info_ok (d : list byte) (min : Z) (i : btf_ext_info) : Prop :=
  i = no_info \/
  exists secs, tiles d (x_info i) (x_rec_size i) secs (x_len i) /\ secs <> [] /\
    min <= x_rec_size i < 2 ^ 32 /\ x_rec_size i mod 4 = 0 /\ 0 <= x_len i < 2 ^ 32.

Lemma check_secs_ok d rec : 0 <= rec < 2 ^ 32 -> forall fuel o left,
  0 <= o -> 0 <= left < 2 ^ 32 -> o + left <= zlen d -> left < Z.of_nat fuel ->
  exists err, check_secs fuel d o left rec = Ok err /\ err <= 0 /\
    (err = 0 -> exists secs, tiles d o rec secs left).
Proof.
  intros Hrec. induction fuel as [|fuel IH]; intros o left Ho Hl Hin Hf; [lia|]. cbn [check_secs].
  destruct (Z.eqb_spec left 0) as [->|Hn]; [exists 0; split; [reflexivity|]; split; [lia|]; exists []; reflexivity|].
  unfold sizeof_ext_info_sec.
  destruct (Z.ltb_spec left 8); [exists (- EINVAL); split; [reflexivity|]; split; [unfold EINVAL; lia | done]|].
  destruct (load32_in d (o + 4)) as [num Hnum]; [unfold in_block; lia|].
  destruct (load32_in d o) as [name Hname]; [unfold in_block; lia|]. rewrite Hnum. cbn [mbind res_bind].
  pose proof (load32_range _ _ _ Hnum) as Hnr.
  destruct (Z.eqb_spec num 0); [exists (- EINVAL); split; [reflexivity|]; split; [unfold EINVAL; lia | done]|].
  assert (0 <= num * rec <= (2 ^ 32 - 1) * (2 ^ 32 - 1)) as Hm by nia.
  rewrite u64_small by lia.
  destruct (Z.ltb_spec left (8 + num * rec));
    [exists (- EINVAL); split; [reflexivity|]; split; [unfold EINVAL; lia | done]|].
  rewrite u32_small by lia.
  destruct (IH (o + (8 + num * rec)) (left - (8 + num * rec))) as (err & -> & He & Hsecs); [lia..|].
  exists err. split; [reflexivity|]. split; [exact He|]. intros He0. destruct (Hsecs He0) as [secs Ht].
  exists ((name, num) :: secs). cbn [tiles].
  replace (o + 8 + num * rec) with (o + (8 + num * rec)) by lia. repeat split; try assumption; lia.
Qed.

Lemma setup_info_ok d off len min old :
  zlen d < 2 ^ 32 -> 8 <= zlen d -> 0 <= min -> 0 <= off -> 0 <= len < 2 ^ 32 -> info_ok d min old ->
  exists err i, btf_ext_setup_info d (zlen d) off len min old = Ok (err, i) /\ err <= 0 /\ info_ok d min i.
Proof.
  intros Hd H8 Hmin Hoff Hlen Hold. unfold btf_ext_setup_info.
  assert (- EINVAL <= 0) as Hneg by (unfold EINVAL; lia).
  destruct (Z.eqb_spec len 0); [eauto with lia|]. destruct (negb _); [eauto|].
  destruct (load32_in d 4) as [hl Hhl]; [unfold in_block; lia|]. unfold xh_hdr_len. rewrite Hhl. cbn [mbind res_bind].
  pose proof (load32_range _ _ _ Hhl).
  destruct (Z.ltb_spec (zlen d) (hl + off + len)); [eauto|]. destruct (Z.ltb_spec len 4); [eauto|].
  destruct (load32_in d (hl + off)) as [rec Hrec]; [unfold in_block; lia|]. rewrite Hrec. cbn [mbind res_bind].
  pose proof (load32_range _ _ _ Hrec) as Hrr. change 0x03 with (Z.ones 2). rewrite Z.land_ones by lia.
  change (2 ^ 2) with 4. destruct (Z.ltb_spec rec min); cbn [orb]; [eauto|].
  destruct (Z.eqb_spec (rec mod 4) 0) as [Hr4|]; cbn [negb]; [|eauto]. rewrite u32_small by lia.
  destruct (Z.eqb_spec (len - 4) 0); [eauto|].
  destruct (check_secs_ok d rec Hrr (length d) (hl + off + 4) (len - 4)) as (err & -> & He & Hsecs);
    [lia | lia | lia | unfold zlen in *; lia |]. cbn [mbind res_bind].
  destruct (Z.eqb_spec err 0) as [->|]; [|eauto]. do 2 eexists. split; [reflexivity|]. split; [lia|].
  right. destruct (Hsecs eq_refl) as [secs Ht]. exists secs. cbn [x_info x_rec_size x_len].
  split; [exact Ht|]. split; [|lia]. intros ->. cbn in Ht. lia.
Qed.

Definition ext_ok (x : btf_ext) : Prop :=
  x_data_size x = zlen (x_data x) /\ info_ok (x_data x) sizeof_func_info_min (x_func_info x) /\
  info_ok (x_data x) sizeof_line_info_min (x_line_info x) /\
  info_ok (x_data x) sizeof_field_reloc (x_field_reloc_info x).

Ltac two_words o1 o2 :=
  match goal with |- context [load32 ?d o1] =>
    let a := fresh "off" in let b := fresh "len" in
    let Ha := fresh "Hoff" in let Hb := fresh "Hlen" in
    destruct (load32_in d o1) as [a Ha]; [unfold in_block; lia|];
    destruct (load32_in d o2) as [b Hb]; [unfold in_block; lia|];
    rewrite Ha; cbn [mbind res_bind]; rewrite Hb; cbn [mbind res_bind];
    apply load32_range in Ha, Hb
  end.

Lemma setup_ok d x :
  x_data x = d -> zlen d < 2 ^ 32 -> 8 <= zlen d -> (forall hl, xh_hdr_len d = Ok hl -> hl <= zlen d) -> ext_ok x ->
  exists err x', btf_ext_setup x = Ok (err, x') /\ err <= 0 /\ x_data x' = d /\ ext_ok x'.
Proof.
  intros Hx Hd H8 Hhl (Hs & Hf & Hl & Hr). rewrite Hx in *. unfold btf_ext_setup. rewrite Hx.
  destruct (load32_in d 4) as [hl Eh]; [unfold in_block; lia|].
  unfold xh_hdr_len in *. rewrite Eh. pose proof (Hhl _ Eh) as Hle. cbn [mbind res_bind].
  destruct (Z.ltb_spec hl 24); [do 2 eexists; split; [reflexivity|]; split; [lia|]; unfold ext_ok; rewrite Hx; auto|].
  unfold btf_ext_setup_func_info. rewrite Hx, Hs. two_words 8 12.
  destruct (setup_info_ok d off len sizeof_func_info_min (x_func_info x)) as (e1 & i1 & -> & He1 & Hi1);
    [try lia; unfold sizeof_func_info_min; lia .. | exact Hf |]. cbn [mbind res_bind].
  destruct (Z.eqb_spec e1 0); cbn [negb];
    [|do 2 eexists; split; [reflexivity|]; split; [exact He1|]; unfold ext_ok; cbn; auto].
  unfold btf_ext_setup_line_info. cbn [x_data x_data_size x_line_info]. two_words 16 20.
  destruct (setup_info_ok d off0 len0 sizeof_line_info_min (x_line_info x)) as (e2 & i2 & -> & He2 & Hi2);
    [try lia; unfold sizeof_line_info_min; lia .. | exact Hl |]. cbn [mbind res_bind].
  destruct (Z.eqb_spec e2 0); cbn [negb];
    [|do 2 eexists; split; [reflexivity|]; split; [exact He2|]; unfold ext_ok; cbn; auto].
  cbn [x_data]. rewrite Eh. cbn [mbind res_bind].
  destruct (Z.ltb_spec hl 32); [do 2 eexists; split; [reflexivity|]; split; [lia|]; unfold ext_ok; cbn; auto|].
  unfold btf_ext_setup_field_reloc. cbn [x_data x_data_size x_field_reloc_info]. two_words 24 28.
  destruct (setup_info_ok d off1 len1 sizeof_field_reloc (x_field_reloc_info x)) as (e3 & i3 & -> & He3 & Hi3);
    [try lia; unfold sizeof_field_reloc; lia .. | exact Hr |]. cbn [mbind res_bind].
  do 2 eexists. split; [reflexivity|]. split; [exact He3|]. unfold ext_ok. cbn. auto.
Qed.

Lemma ext_hdr_ok d :
  exists err, btf_ext_parse_hdr d (zlen d) = Ok err /\ err <= 0 /\
    (err = 0 -> 8 <= zlen d /\ forall hl, xh_hdr_len d = Ok hl -> hl <= zlen d).
Proof.
  unfold btf_ext_parse_hdr. assert (- EINVAL <= 0 /\ - ENOTSUP <= 0) as [Hn Hn2] by (unfold EINVAL, ENOTSUP; lia).
  destruct (Z.ltb_spec (zlen d) 8); [exists (- EINVAL); done|].
  destruct (load32_in d 4) as [hl Eh]; [unfold in_block; lia|]. unfold xh_hdr_len. rewrite Eh. cbn [mbind res_bind].
  destruct (Z.ltb_spec (zlen d) hl); [exists (- EINVAL); done|].
  destruct (load16_in d 0) as [m ->]; [unfold in_block; lia|].
  destruct (load8_in d 2) as [v ->]; [lia|]. destruct (load8_in d 3) as [f ->]; [lia|]. cbn [mbind res_bind].
  destruct (m =? BTF_MAGIC); cbn [negb]; [|exists (- EINVAL); done].
  destruct (v =? BTF_VERSION); cbn [negb]; [|exists (- ENOTSUP); done].
  destruct (f =? 0); cbn [negb]; [|exists (- ENOTSUP); done].
  destruct (zlen d =? hl); [exists (- EINVAL); done|].
  exists 0. split; [reflexivity|]. split; [lia|]. intros _. split; [lia|]. intros ? [= <-]. lia.
Qed.

Lemma btf_ext_new_ok {K} `{BpfSysLaws K} (k : K) data :
  zlen data < 2 ^ 32 ->
  exists r k', btf_ext__new k data (zlen data) = Ok (r, k') /\ open_fds k' = open_fds k /\
    match r with inl err => err < 0 | inr x => x_data x = data /\ ext_ok x end.
Proof.
  intros Hmax. unfold btf_ext__new. destruct (ext_hdr_ok data) as (err & -> & Herr & Hok). cbn [mbind res_bind].
  destruct (Z.eqb_spec err 0) as [->|]; cbn [negb];
    [|do 2 eexists; split; [reflexivity|]; split; [reflexivity | lia]].
  destruct (Hok eq_refl) as [H8 Hhl].
  pose proof (alloc_fds k) as Hf1. destruct (sys_alloc k) as [[|] k1]; cbn [snd negb] in *;
    [|do 2 eexists; split; [reflexivity|]; split; [exact Hf1 | reflexivity]].
  pose proof (alloc_fds k1) as Hf2. destruct (sys_alloc k1) as [[|] k2]; cbn [snd negb] in *;
    [|do 2 eexists; split; [reflexivity|]; split; [congruence | reflexivity]].
  rewrite mread_all. cbn [mbind res_bind].
  destruct (setup_ok data (mk_ext data no_info no_info no_info (zlen data)) eq_refl Hmax H8 Hhl)
    as (err & x & -> & He & Hx & Hext); [repeat split; left; reflexivity|]. cbn [mbind res_bind].
  do 2 eexists. split; [reflexivity|]. split; [congruence|].
  destruct (Z.eqb_spec err 0); cbn [negb]; [auto | lia].
Qed.

(** C29: [btf_ext__new] is safe on any bytes: it never reads outside its
    data, always terminates, and returns an error code or a [.BTF.ext] whose
    three parts are each absent or exactly a sequence of sections, with
    records of the announced number and size, at least the minimal size and
    a multiple of four. It leaves the descriptors alone. *)
Theorem btf_ext_new_safe {K} `{BpfSysLaws K} (k : K) data :
  zlen data < 2 ^ 32 ->
  exists r k', btf_ext__new k data (zlen data) = Ok (r, k') /\ open_fds k' = open_fds k /\
    match r with inl err => err < 0 | inr x => x_data x = data /\ ext_ok x end.
Proof. apply btf_ext_new_ok. Qed.

(** * 2. Moving records *)

(** A record for an instruction [cnt] further on: the first word, a byte
    offset in the section, becomes an index in the program. *)
Definition adjust_rec (cnt : Z) (r : list byte) : list byte :=
  le_bytes 4 (u32 (le_val (take 4 r) / 8 + cnt)) ++ drop 4 r.
Fixpoint adjusted (n : nat) (rec : nat) (cnt : Z) (recs : list byte) : list byte :=
  match n with
  | O => []
  | S n => adjust_rec cnt (take rec recs) ++ adjusted n rec cnt (drop rec recs)
  end.

Lemma zlen_adjust cnt r : 4 <= zlen r -> zlen (adjust_rec cnt r) = zlen r.
Proof.
  intros Hr. unfold adjust_rec. rewrite zlen_app, zlen_le_bytes. unfold zlen in *. rewrite length_drop. lia.
Qed.

Lemma adjust_loop_spec rec cnt e : 8 <= rec -> forall n pre recs i,
  0 <= i -> zlen pre = e + i * rec -> zlen recs = Z.of_nat n * rec -> (i + Z.of_nat n) * rec < 2 ^ 32 ->
  adjust_loop n (pre ++ recs) e i rec cnt = Ok (pre ++ adjusted n (Z.to_nat rec) cnt recs).
Proof.
  intros Hrec. induction n as [|n IH]; intros pre recs i Hi Hpre Hl Hmax; cbn [adjust_loop adjusted].
  - destruct recs; [reflexivity|]. unfold zlen in Hl. cbn in Hl. lia.
  - assert (0 <= i * rec) by (apply Z.mul_nonneg_nonneg; lia).
    rewrite u32_small by nia. rewrite <- Hpre. set (r := take (Z.to_nat rec) recs).
    set (rest := drop (Z.to_nat rec) recs).
    assert (recs = r ++ rest) as Hr by (symmetry; apply take_drop).
    assert (rec <= zlen recs) as Hge by (rewrite Hl; nia).
    assert (zlen r = rec) as Hrl by (unfold r, zlen in *; rewrite length_take; lia).
    assert (r = take 4 r ++ drop 4 r) as Hr4 by (symmetry; apply take_drop).
    assert (zlen (take 4 r) = 4) as H4 by (unfold zlen in *; rewrite length_take; lia).
    assert (load32 (pre ++ recs) (zlen pre) = Ok (le_val (take 4 r))) as ->.
    { unfold load32. rewrite Hr, Hr4 at 1. rewrite <- app_assoc.
      rewrite (mread_middle _ _ _ _ _ eq_refl H4). reflexivity. }
    cbn [mbind res_bind].
    assert (mwrite (pre ++ recs) (zlen pre) (le_bytes 4 (u32 (le_val (take 4 r) / 8 + cnt))) =
            Ok ((pre ++ adjust_rec cnt r) ++ rest)) as ->.
    { rewrite Hr at 1. rewrite Hr4 at 1. rewrite <- (app_assoc (take 4 r)).
      rewrite mwrite_middle by (rewrite ?H4; reflexivity). unfold adjust_rec. rewrite <- !app_assoc. reflexivity. }
    cbn [mbind res_bind]. rewrite (IH (pre ++ adjust_rec cnt r) rest (i + 1)).
    + rewrite <- app_assoc. reflexivity.
    + lia.
    + rewrite zlen_app, zlen_adjust by lia. lia.
    + rewrite Hr, zlen_app, Hrl in Hl. lia.
    + lia.
Qed.

(** The records of the first section with a name: where they are and how
    many. *)
Fixpoint first_sec (strs name : list byte) (o rec : Z) (secs : list (Z * Z)) : option (Z * Z) :=
  match secs with
  | [] => None
  | (n, num) :: secs =>
      if bool_decide (str_of strs n = Some name) then Some (o + 8, num)
      else first_sec strs name (o + 8 + num * rec) rec secs
  end.

(** Every section is named inside the strings. *)
Definition all_named (strs : list byte) (secs : list (Z * Z)) : Prop :=
  Forall (fun s => is_Some (str_of strs (fst s))) secs.

Section reloc.
Context {K : Type} `{BpfSysLaws K} (junk : byte).

(** Appending the records of a section. *)
Lemma append_records d o num rec cnt insns_cnt info :
  8 <= rec -> 0 < num -> 0 <= o -> o + num * rec <= zlen d -> 0 <= cnt -> zlen info = cnt * rec ->
  (cnt + num) * rec < 2 ^ 32 -> (num * rec) < 2 ^ 32 ->
  (let data := realloc_block junk info (u32 (u32 (cnt * rec) + u32 (num * rec))) in
   recs ← mread d o (u32 (num * rec));
   data ← mwrite data (u32 (cnt * rec)) recs;
   adjust_loop (Z.to_nat num) data (u32 (cnt * rec)) 0 rec insns_cnt) =
  Ok (info ++ adjusted (Z.to_nat num) (Z.to_nat rec) insns_cnt (window d o (num * rec))).
Proof.
  intros Hrec Hnum Ho Hin Hcnt Hinfo Hmax Hm.
  assert (0 <= cnt * rec) by (apply Z.mul_nonneg_nonneg; lia).
  assert (0 <= num * rec) by (apply Z.mul_nonneg_nonneg; lia).
  rewrite (u32_small (cnt * rec)), (u32_small (num * rec)), u32_small by lia. cbv zeta.
  rewrite mread_window by (unfold in_block; lia). cbn [mbind res_bind].
  set (recs := window d o (num * rec)).
  assert (zlen recs = num * rec) as Hl by (unfold zlen, recs; rewrite length_window by (unfold in_block; lia); lia).
  assert (realloc_block junk info (cnt * rec + num * rec) =
          info ++ replicate (Z.to_nat (num * rec)) junk ++ []) as ->.
  { unfold realloc_block. rewrite app_nil_r, take_ge by (unfold zlen in Hinfo; lia).
    do 2 f_equal. unfold zlen in Hinfo. lia. }
  rewrite mwrite_middle; [|exact Hinfo | rewrite zlen_replicate; lia]. cbn [mbind res_bind].
  rewrite app_nil_r. apply adjust_loop_spec; lia.
Qed.

Lemma reloc_loop_spec b tys strs d name insns_cnt rec info cnt :
  represents b tys strs -> 8 <= rec < 2 ^ 32 -> 0 <= cnt < 2 ^ 32 -> zlen info = cnt * rec ->
  forall fuel (k : K) o left secs,
  tiles d o rec secs left -> all_named strs secs -> 0 <= left < 2 ^ 32 -> cnt * rec + left < 2 ^ 32 ->
  left < Z.of_nat fuel ->
  exists err info' cnt' k',
    reloc_info_loop junk fuel k b d name insns_cnt rec o left info cnt = Ok (err, info', cnt', k') /\
    open_fds k' = open_fds k /\
    match first_sec strs name o rec secs with
    | None => err = - ENOENT /\ info' = info /\ cnt' = cnt
    | Some (ro, num) =>
        (err = - ENOMEM /\ info' = info /\ cnt' = cnt /\ ~ always_alloc K) \/
        (err = 0 /\ cnt' = cnt + num /\
         info' = info ++ adjusted (Z.to_nat num) (Z.to_nat rec) insns_cnt (window d ro (num * rec)))
    end.
Proof.
  intros Hrep Hrec Hcnt Hinfo. induction fuel as [|fuel IH]; intros k o left secs Ht Hn Hl Hmax Hf; [lia|].
  cbn [reloc_info_loop]. destruct secs as [|[nm num] secs]; cbn [tiles first_sec] in *.
  - rewrite Ht. cbn. do 4 eexists. split; [reflexivity|]. auto.
  - destruct Ht as (Hnm & Hnum & Hpos & Ho & Hsz & Hin & Ht). apply Forall_cons in Hn as [Hn1 Hn].
    assert (8 <= num * rec) by nia. replace (0 <? left) with true by lia. cbn [negb].
    rewrite Hnum, Hnm. cbn [mbind res_bind].
    pose proof (name_spec b tys strs nm Hrep ltac:(apply load32_range in Hnm; lia)) as Hname.
    cbn [fst] in Hn1. destruct (str_of strs nm) as [s|]; [|destruct Hn1; discriminate].
    destruct Hname as (p & -> & Hs). cbn [mbind res_bind or_fault]. rewrite Hs. cbn [mbind res_bind].
    rewrite (bool_decide_ext (s = name) (Some s = Some name)) by naive_solver.
    unfold sizeof_ext_info_sec. case_bool_decide; cbn [negb].
    + pose proof (alloc_fds k) as Hfd. pose proof (fun Ha : always_alloc K => Ha k) as Hal.
      destruct (sys_alloc k) as [[|] k1]; cbn [fst snd negb] in *.
      * pose proof (append_records d (o + 8) num rec cnt insns_cnt info ltac:(lia) Hpos ltac:(lia)
          ltac:(lia) ltac:(lia) Hinfo ltac:(lia) ltac:(lia)) as Ha. cbv zeta in Ha.
        destruct (mread d (o + 8) (u32 (num * rec))) as [recs|]; cbn [mbind res_bind] in Ha |- *; [|discriminate].
        destruct (mwrite _ _ recs) as [data|]; cbn [mbind res_bind] in Ha |- *; [|discriminate].
        rewrite Ha. cbn [mbind res_bind]. do 4 eexists. split; [reflexivity|]. split; [exact Hfd|].
        right. split; [reflexivity|]. split; [|reflexivity]. apply u32_small. nia.
      * do 4 eexists. split; [reflexivity|]. split; [exact Hfd|]. left. repeat (split; [reflexivity|]).
        intros Ha. discriminate (Hal Ha).
    + rewrite (u32_small (num * rec)), u32_small, u64_small by lia. replace (o + 8 + num * rec) with (o + 8 + num * rec) by lia.
      apply (IH k (o + 8 + num * rec) (left - (8 + num * rec)) secs Ht Hn); lia.
Qed.

(** C30: moving the records of a section to a program
    ([btf_ext__reloc_func_info], [btf_ext__reloc_line_info]): for parsed
    data whose sections have names, the records of the first section with
    the name are appended to those the program has, byte for byte but for
    the first word, which becomes an instruction index moved by the number
    of instructions before; the count grows by their number. Without such a
    section, or without memory, nothing changes. No read or write leaves
    its block. *)
Theorem btf_ext_reloc_spec (k : K) b tys strs d i name insns_cnt info cnt secs :
  represents b tys strs -> zlen d < 2 ^ 32 ->
  tiles d (x_info i) (x_rec_size i) secs (x_len i) -> 8 <= x_rec_size i < 2 ^ 32 -> 0 <= x_len i < 2 ^ 32 ->
  x_len i <= zlen d -> all_named strs secs -> 0 <= cnt < 2 ^ 32 -> zlen info = cnt * x_rec_size i ->
  cnt * x_rec_size i + x_len i < 2 ^ 32 ->
  exists err info' cnt' k',
    btf_ext_reloc_info junk k b d i name insns_cnt info cnt = Ok (err, info', cnt', k') /\
    open_fds k' = open_fds k /\
    match first_sec strs name (x_info i) (x_rec_size i) secs with
    | None => err = - ENOENT /\ info' = info /\ cnt' = cnt
    | Some (ro, num) =>
        (err = - ENOMEM /\ info' = info /\ cnt' = cnt /\ ~ always_alloc K) \/
        (err = 0 /\ cnt' = cnt + num /\
         info' = info ++ adjusted (Z.to_nat num) (Z.to_nat (x_rec_size i)) insns_cnt
                           (window d ro (num * x_rec_size i)))
    end.
Proof.
  intros Hrep Hd Ht Hrec Hl Hle Hn Hcnt Hinfo Hmax. unfold btf_ext_reloc_info.
  apply (reloc_loop_spec b tys strs d name insns_cnt _ info cnt Hrep Hrec Hcnt Hinfo); try assumption.
  unfold zlen in Hle. lia.
Qed.

(** A section whose name is outside the strings: [strcmp] gets NULL. *)
Lemma reloc_unnamed (k : K) b tys strs d i name insns_cnt info cnt nm num secs :
  represents b tys strs -> 0 < x_len i ->
  tiles d (x_info i) (x_rec_size i) ((nm, num) :: secs) (x_len i) -> str_of strs nm = None ->
  btf_ext_reloc_info junk k b d i name insns_cnt info cnt = Err NullDeref.
Proof.
  intros Hrep Hpos (Hnm & Hnum & _) Hnone. unfold btf_ext_reloc_info. cbn [reloc_info_loop].
  replace (0 <? x_len i) with true by lia. cbn [negb]. rewrite Hnum, Hnm. cbn [mbind res_bind].
  pose proof (name_spec b tys strs nm Hrep ltac:(apply load32_range in Hnm; lia)) as Hname.
  rewrite Hnone in Hname. rewrite Hname. reflexivity.
Qed.
End reloc.

(** * 3. An example *)

(** One function record and one line record, for a section named [key]. *)
Definition demo_ext : list byte :=
  le_bytes 2 BTF_MAGIC ++ [byte_of_Z BTF_VERSION; byte_of_Z 0] ++
  enc_words [24; 0; 20; 20; 28] ++ enc_words [8; 21; 1; 16; 5] ++ enc_words [16; 21; 1; 24; 1; 2; 3].
Definition demo_func_info : btf_ext_info := mk_ext_info 28 8 16.

Lemma btf_ext_new_safe_witness :
  exists x k', btf_ext__new demo_start demo_ext (zlen demo_ext) = Ok (inr x, k') /\ ext_ok x /\
    x_func_info x = demo_func_info.
Proof.
  destruct (btf_ext_new_safe demo_start demo_ext) as (r & k' & Hx & _ & Hr); [vm_compute; reflexivity|].
  destruct r as [err|x]; [exfalso; vm_compute in Hx; discriminate|]. exists x, k'.
  split; [exact Hx|]. split; [apply Hr|]. vm_compute in Hx. injection Hx as <- _. reflexivity.
Defined.

Lemma btf_ext_reloc_spec_witness :
  exists info' cnt' k',
    btf_ext_reloc_info NUL demo_start demo_btf demo_ext demo_func_info (bytes_of "key") 7 [] 0 =
      Ok (0, info', cnt', k') /\ cnt' = 1 /\ info' = enc_words [9; 5].
Proof.
  destruct (btf_ext_reloc_spec NUL demo_start demo_btf demo_types demo_strs demo_ext demo_func_info
    (bytes_of "key") 7 [] 0 [(21, 1)] demo_represents) as (err & info' & cnt' & k' & Hx & _ & Hr);
    try (vm_compute; reflexivity); try lia; cbn [demo_func_info x_rec_size x_len x_info] in *; try lia.
  - cbn [tiles]. repeat split; try (vm_compute; reflexivity); try lia; vm_compute; discriminate.
  - vm_compute. discriminate.
  - repeat constructor. vm_compute. eauto.
  - change (first_sec _ _ _ _ _) with (Some (36, 1)) in Hr. cbv iota beta in Hr.
    destruct Hr as [(_ & _ & _ & Hna)|(-> & -> & ->)]; [exfalso; apply Hna; intros k; reflexivity|].
    do 3 eexists. split; [exact Hx|]. split; [reflexivity | vm_compute; reflexivity].
Defined.
