(* ===== verification/CoRe.v ===== *)
(** CO-RE relocation ([bpf_core_*] of [src/eBPF_app/libbpf/src/libbpf.c]):
    an instruction that was compiled for a field of a local type is patched
    for the field of the same name in the types of the running kernel. *)
From S2P Require Import Prelude CLib XdpLink LibbpfObj LibbpfLoad XskProg HashMap Btf BtfExt.
#[local] Open Scope Z_scope.

(** * 1. Types without their modifiers *)

(** The loop of [skip_mods_and_typedefs]: the type and its id. It has no
    bound in the code; [fuel] is one more than the number of types, which a
    chain without a cycle cannot exceed. *)
Fixpoint skip_loop (fuel : nat) (b : btf) (t : option type_ptr) (res_id : Z)
    : res (type_ptr * Z) :=
  match fuel with
  | O => Err OutOfFuel
  | S fuel =>
      p ← or_fault NullDeref t;
      k ← btf_kind b p;
      if (k =? BTF_KIND_VOLATILE) || (k =? BTF_KIND_CONST) || (k =? BTF_KIND_RESTRICT)
         || (k =? BTF_KIND_TYPEDEF) then
        type_id ← t_type b p;
        t ← btf__type_by_id b type_id;
        skip_loop fuel b t type_id
      else Ok (p, res_id)
  end.

Definition skip_mods_and_typedefs (b : btf) (id : Z) : res (type_ptr * Z) :=
  t ← btf__type_by_id b id;
  skip_loop (S (Z.to_nat (nr_types b))) b t id.

(** * 2. Field accesses *)

Definition BPF_CORE_SPEC_MAX_LEN : Z := 64.

(** [name] is a pointer, NULL for the element of an array. *)
Record bpf_core_accessor := mk_acc { acc_type_id : Z; acc_idx : Z; acc_name : option Z }.

(** The arrays [spec] and [raw_spec], up to their lengths. *)
Record bpf_core_spec := mk_spec {
  cs_spec : list bpf_core_accessor; cs_raw : list Z; cs_bit_offset : Z
}.
Definition empty_spec : bpf_core_spec := mk_spec [] [] 0.

(** [spec->spec[spec->len++] = a] and [spec->raw_spec[spec->raw_len++] = i]. *)
Definition push_acc (a : bpf_core_accessor) (s : bpf_core_spec) : res bpf_core_spec :=
  if BPF_CORE_SPEC_MAX_LEN <=? zlen (cs_spec s) then Err OutOfBounds else
  Ok (mk_spec (cs_spec s ++ [a]) (cs_raw s) (cs_bit_offset s)).
Definition push_raw (i : Z) (s : bpf_core_spec) : res bpf_core_spec :=
  if BPF_CORE_SPEC_MAX_LEN <=? zlen (cs_raw s) then Err OutOfBounds else
  Ok (mk_spec (cs_spec s) (cs_raw s ++ [i]) (cs_bit_offset s)).
Definition add_bits (n : Z) (s : bpf_core_spec) : bpf_core_spec :=
  mk_spec (cs_spec s) (cs_raw s) (u32 (cs_bit_offset s + n)).

(** A pointer to a string that is NULL or empty. *)
Definition str_is_empty (b : btf) (s : option Z) : res bool :=
  match s with
  | None => Ok true
  | Some o => c ← load8 (b_data b) o; Ok (c =? 0)
  end.

Definition COLON : byte := Byte.x3a.

(** [sscanf(s, "%d%n", ...)]: the number and the rest, if there is a number.
    Numbers too large for a [long] are cut as the C library does. *)
Definition LONG_MAX : Z := 2 ^ 63 - 1.
Fixpoint digits_rest (s : list byte) : list byte :=
  match s with b :: s' => if is_digit b then digits_rest s' else s | [] => [] end.
Definition scan_digits (sign : Z) (s : list byte) : option (Z * list byte) :=
  match s with
  | b :: _ => if is_digit b
              then Some (s32 (Z.max (- LONG_MAX - 1) (Z.min LONG_MAX (sign * digits s 0))), digits_rest s)
              else None
  | [] => None
  end.
Definition scan_int (s : list byte) : option (Z * list byte) :=
  match skip_space s with
  | b :: s' => if decide (b = Byte.x2d) then scan_digits (-1) s'
               else if decide (b = Byte.x2b) then scan_digits 1 s'
               else scan_digits 1 (b :: s')
  | [] => None
  end.

(** The first loop of [bpf_core_spec_parse]: the indices of an access
    string. The error code, or 0 and the indices. *)
Fixpoint parse_raw (fuel : nat) (s : list byte) (raw : list Z) : res (Z * list Z) :=
  match fuel with
  | O => Err OutOfFuel
  | S fuel =>
      match s with
      | [] => Ok (0, raw)
      | c :: s' =>
          match scan_int (if decide (c = COLON) then s' else s) with
          | None => Ok (- EINVAL, raw)
          | Some (i, rest) =>
              if zlen raw =? BPF_CORE_SPEC_MAX_LEN then Ok (- E2BIG, raw) else
              parse_raw fuel rest (raw ++ [i])
          end
      end
  end.

(** The second loop: [raw] are the indices left. *)
Fixpoint parse_fields (b : btf) (raw : list Z) (id : Z) (s : bpf_core_spec)
    : res (Z * bpf_core_spec) :=
  match raw with
  | [] => Ok (0, s)
  | access_idx :: raw =>
      '(t, id) ← skip_mods_and_typedefs b id;
      composite ← btf_is_composite b t;
      if composite : bool then
        vlen ← btf_vlen b t;
        if vlen <=? access_idx then Ok (- EINVAL, s) else
        bits ← btf_member_bit_offset b t (u32 access_idx);
        let s := add_bits bits s in
        name_off ← member_name_off b t access_idx;
        if negb (name_off =? 0) then
          name ← btf__name_by_offset b name_off;
          empty ← str_is_empty b name;
          if empty : bool then Ok (- EINVAL, s) else
          s ← push_acc (mk_acc id (u32 access_idx) name) s;
          id ← member_type b t access_idx;
          parse_fields b raw id s
        else
          id ← member_type b t access_idx;
          parse_fields b raw id s
      else
      array ← btf_is BTF_KIND_ARRAY b t;
      if array : bool then
        elem ← array_type b t;
        '(_, id) ← skip_mods_and_typedefs b elem;
        nelems ← array_nelems b t;
        if nelems <=? u32 access_idx then Ok (- EINVAL, s) else
        s ← push_acc (mk_acc id (u32 access_idx) None) s;
        sz ← btf__resolve_size b id;
        if sz <? 0 then Ok (sz, s) else
        parse_fields b raw id (add_bits (access_idx * sz * 8) s)
      else Ok (- EINVAL, s)
  end.

(** [bpf_core_spec_parse] of the string [spec_str]. *)
Definition bpf_core_spec_parse (b : btf) (type_id : Z) (spec_str : list byte)
    : res (Z * bpf_core_spec) :=
  match spec_str with
  | [] => Ok (- EINVAL, empty_spec)
  | c :: _ =>
      if decide (c = COLON) then Ok (- EINVAL, empty_spec) else
      '(err, raw) ← parse_raw (S (length spec_str)) spec_str [];
      let s := mk_spec [] raw 0 in
      if negb (err =? 0) then Ok (err, s) else
      match raw with
      | [] => Ok (- EINVAL, s)
      | access_idx :: rest =>
          '(_, id) ← skip_mods_and_typedefs b type_id;
          s ← push_acc (mk_acc id (u32 access_idx) None) s;
          sz ← btf__resolve_size b id;
          if sz <? 0 then Ok (sz, s) else
          parse_fields b rest id (mk_spec (cs_spec s) (cs_raw s) (u32 (access_idx * sz * 8)))
      end
  end.

(** * 3. Names *)

Definition UNDERSCORE : byte := Byte.x5f.

Definition bpf_core_is_flavor_sep (s : list byte) : bool :=
  match s with
  | a :: b :: c :: d :: e :: _ =>
      bool_decide (a <> UNDERSCORE) && bool_decide (b = UNDERSCORE) && bool_decide (c = UNDERSCORE)
      && bool_decide (d = UNDERSCORE) && bool_decide (e <> UNDERSCORE)
  | _ => false
  end.

(** The loop goes down from [i]. *)
Fixpoint flavor_loop (i : nat) (name : list byte) : option nat :=
  if bpf_core_is_flavor_sep (drop i name) then Some (S i) else
  match i with O => None | S i => flavor_loop i name end.
Definition bpf_core_essential_name_len (name : list byte) : nat :=
  if (length name <? 5)%nat then length name else
  default (length name) (flavor_loop (length name - 5) name).

(** The string a name pointer stands for; NULL is a fault. *)
Definition name_str (b : btf) (name : option Z) : res (list byte) :=
  o ← or_fault NullDeref name; str_at b o.
Definition type_name (b : btf) (t : type_ptr) : res (list byte) :=
  off ← t_name_off b t;
  name ← btf__name_by_offset b off;
  name_str b name.

(** The names of a local and a target type agree up to their flavors. *)
Definition same_essence (l t : list byte) : bool :=
  let ll := bpf_core_essential_name_len l in
  let tl := bpf_core_essential_name_len t in
  (ll =? tl)%nat && bool_decide (take ll l = take ll t).

(** * 4. Matching *)

(** Two names that agree up to their flavors, or one of them is empty. *)
Definition names_agree (l t : list byte) : bool :=
  (bpf_core_essential_name_len l =? 0)%nat || (bpf_core_essential_name_len t =? 0)%nat || same_essence l t.

(** [bpf_core_fields_are_compat] for two types without modifiers; [recur] is
    the jump back, with the elements of two arrays. *)
Definition types_compat (recur : Z -> Z -> res Z) (lb : btf) (lt : type_ptr) (tb : btf) (ty : type_ptr)
    : res Z :=
  lc ← btf_is_composite lb lt;
  tc ← btf_is_composite tb ty;
  if lc && tc then Ok 1 else
  lk ← btf_kind lb lt;
  tk ← btf_kind tb ty;
  if negb (lk =? tk) then Ok 0 else
  if lk =? BTF_KIND_PTR then Ok 1 else
  if (lk =? BTF_KIND_FWD) || (lk =? BTF_KIND_ENUM) then
    l ← type_name lb lt;
    t ← type_name tb ty;
    Ok (bool_z (names_agree l t))
  else if lk =? BTF_KIND_INT then
    lo ← btf_int_offset lb lt;
    if negb (lo =? 0) then Ok 0 else
    to ← btf_int_offset tb ty;
    Ok (bool_z (to =? 0))
  else if lk =? BTF_KIND_ARRAY then
    l ← array_type lb lt;
    t ← array_type tb ty;
    recur l t
  else Ok 0.

Fixpoint fields_compat_loop (fuel : nat) (lb : btf) (local_id : Z) (tb : btf) (targ_id : Z) : res Z :=
  match fuel with
  | O => Err OutOfFuel
  | S fuel =>
      '(lt, _) ← skip_mods_and_typedefs lb local_id;
      '(ty, _) ← skip_mods_and_typedefs tb targ_id;
      types_compat (fun l t => fields_compat_loop fuel lb l tb t) lb lt tb ty
  end.

Definition bpf_core_fields_are_compat (lb : btf) (local_id : Z) (tb : btf) (targ_id : Z) : res Z :=
  fields_compat_loop (S (Z.to_nat (nr_types lb))) lb local_id tb targ_id.

(** [spec->raw_len--; spec->bit_offset -= bits]. *)
Definition pop_raw (bits : Z) (s : bpf_core_spec) : bpf_core_spec :=
  mk_spec (cs_spec s) (take (length (cs_raw s) - 1) (cs_raw s)) (u32 (cs_bit_offset s - bits)).

(** The body of the loop of [bpf_core_match_member] for the [i]-th member of
    the target structure [targ_id], of the name [targ_name] and the type
    [m_type]. [deeper] is the call for an embedded structure; [lt] is the
    local type. What is found is [None] when the search goes on. *)
Definition try_member (deeper : Z -> bpf_core_spec -> Z -> res (Z * bpf_core_spec * Z))
    (lb : btf) (acc : bpf_core_accessor) (lt : type_ptr) (local_name : option Z)
    (tb : btf) (targ_id i : Z) (targ_name : option Z) (m_type : Z) (s : bpf_core_spec) (next : Z)
    : res (option Z * bpf_core_spec * Z) :=
  empty ← str_is_empty tb targ_name;
  if empty : bool then
    '(found, s, next) ← deeper m_type s next;
    Ok (if found =? 0 then None else Some found, s, next)
  else
    l ← name_str lb local_name;
    t ← name_str tb targ_name;
    if negb (bool_decide (l = t)) then Ok (None, s, next) else
    s2 ← push_acc (mk_acc targ_id i targ_name) s;
    l_type ← member_type lb lt (acc_idx acc);
    found ← bpf_core_fields_are_compat lb l_type tb m_type;
    Ok (Some found, if found =? 0 then s else s2, m_type).

(** The loop over the members of the target type [ty]: [n] members are left,
    the first of them the [i]-th. *)
Fixpoint members_loop (deeper : Z -> bpf_core_spec -> Z -> res (Z * bpf_core_spec * Z))
    (lb : btf) (acc : bpf_core_accessor) (lt : type_ptr) (local_name : option Z)
    (tb : btf) (ty : type_ptr) (targ_id : Z) (n : nat) (i : Z) (s : bpf_core_spec) (next : Z)
    : res (Z * bpf_core_spec * Z) :=
  match n with
  | O => Ok (0, s, next)
  | S n =>
      bits ← btf_member_bit_offset tb ty i;
      if zlen (cs_raw s) =? BPF_CORE_SPEC_MAX_LEN then Ok (- E2BIG, s, next) else
      s ← push_raw i (add_bits bits s);
      name_off ← member_name_off tb ty i;
      targ_name ← btf__name_by_offset tb name_off;
      m_type ← member_type tb ty i;
      '(found, s, next) ← try_member deeper lb acc lt local_name tb targ_id i targ_name m_type s next;
      match found with
      | Some found => Ok (found, s, next)
      | None => members_loop deeper lb acc lt local_name tb ty targ_id n (i + 1) (pop_raw bits s) next
      end
  end.

(** [bpf_core_match_member]: what is returned, the specification and
    [*next_targ_id]. [depth] bounds the nesting, which the 64 places of
    [raw_spec] bound in the code. *)
Fixpoint match_member (depth : nat) (lb : btf) (acc : bpf_core_accessor) (tb : btf) (targ_id : Z)
    (s : bpf_core_spec) (next : Z) {struct depth} : res (Z * bpf_core_spec * Z) :=
  match depth with
  | O => Err OutOfFuel
  | S depth =>
      '(ty, targ_id) ← skip_mods_and_typedefs tb targ_id;
      composite ← btf_is_composite tb ty;
      if negb composite then Ok (0, s, next) else
      lt ← btf__type_by_id lb (acc_type_id acc);
      lt ← or_fault NullDeref lt;
      local_off ← member_name_off lb lt (acc_idx acc);
      local_name ← btf__name_by_offset lb local_off;
      vlen ← btf_vlen tb ty;
      members_loop (match_member depth lb acc tb) lb acc lt local_name tb ty targ_id
        (Z.to_nat vlen) 0 s next
  end.

Definition MATCH_DEPTH : nat := 66.
Definition bpf_core_match_member (lb : btf) (acc : bpf_core_accessor) (tb : btf) (targ_id : Z)
    (s : bpf_core_spec) (next : Z) : res (Z * bpf_core_spec * Z) :=
  match_member MATCH_DEPTH lb acc tb targ_id s next.

(** The loop of [bpf_core_spec_match]: [accs] are the local accessors left,
    [first] tells the first of all. *)
Fixpoint spec_match_loop (lb tb : btf) (accs : list bpf_core_accessor) (first : bool) (targ_id : Z)
    (s : bpf_core_spec) : res (Z * bpf_core_spec) :=
  match accs with
  | [] => Ok (1, s)
  | acc :: accs =>
      '(ty, targ_id) ← skip_mods_and_typedefs tb targ_id;
      match acc_name acc with
      | Some _ =>
          '(matched, s, targ_id) ← bpf_core_match_member lb acc tb targ_id s targ_id;
          if matched <=? 0 then Ok (matched, s) else spec_match_loop lb tb accs false targ_id s
      | None =>
          let elem (targ_id : Z) : res (Z * bpf_core_spec) :=
            if zlen (cs_raw s) =? BPF_CORE_SPEC_MAX_LEN then Ok (- E2BIG, s) else
            s ← push_acc (mk_acc targ_id (acc_idx acc) None) s;
            s ← push_raw (s32 (acc_idx acc)) s;
            sz ← btf__resolve_size tb targ_id;
            if s32 sz <? 0 then Ok (s32 sz, s) else
            spec_match_loop lb tb accs false targ_id (add_bits (acc_idx acc * s32 sz * 8) s) in
          if first then elem targ_id else
          array ← btf_is BTF_KIND_ARRAY tb ty;
          if negb array then Ok (0, s) else
          nelems ← array_nelems tb ty;
          if nelems <=? acc_idx acc then Ok (0, s) else
          e ← array_type tb ty;
          '(_, targ_id) ← skip_mods_and_typedefs tb e;
          elem targ_id
      end
  end.

Definition bpf_core_spec_match (lb : btf) (local_spec : bpf_core_spec) (tb : btf) (targ_id : Z)
    : res (Z * bpf_core_spec) :=
  spec_match_loop lb tb (cs_spec local_spec) true targ_id empty_spec.

(** * 5. The value of a relocation *)

Inductive bpf_field_info_kind :=
| BPF_FIELD_BYTE_OFFSET | BPF_FIELD_BYTE_SIZE | BPF_FIELD_EXISTS
| BPF_FIELD_SIGNED | BPF_FIELD_LSHIFT_U64 | BPF_FIELD_RSHIFT_U64 | BPF_FIELD_UNKNOWN.
#[export] Instance field_info_kind_eq : EqDecision bpf_field_info_kind.
Proof. solve_decision. Defined.

Definition field_kind (k : Z) : bpf_field_info_kind :=
  if k =? 0 then BPF_FIELD_BYTE_OFFSET else if k =? 1 then BPF_FIELD_BYTE_SIZE
  else if k =? 2 then BPF_FIELD_EXISTS else if k =? 3 then BPF_FIELD_SIGNED
  else if k =? 4 then BPF_FIELD_LSHIFT_U64 else if k =? 5 then BPF_FIELD_RSHIFT_U64
  else BPF_FIELD_UNKNOWN.

(** [struct bpf_field_reloc]. *)
Record bpf_field_reloc := mk_field_reloc {
  fr_insn_off : Z; fr_type_id : Z; fr_access_str_off : Z; fr_kind : bpf_field_info_kind
}.

Definition BTF_INT_SIGNED : Z := 1.

(** The loop that looks for an integer that holds a whole bitfield:
    [byte_sz] and [byte_off], or nothing. *)
Fixpoint bitfield_loop (fuel : nat) (bit_off bit_sz byte_sz byte_off : Z) : res (option (Z * Z)) :=
  match fuel with
  | O => Err OutOfFuel
  | S fuel =>
      if negb (u32 (byte_sz * 8) <? u32 (bit_off + bit_sz - byte_off * 8)) then Ok (Some (byte_sz, byte_off))
      else if 8 <=? byte_sz then Ok None
      else
        let byte_sz := byte_sz * 2 in
        bitfield_loop fuel bit_off bit_sz byte_sz (bit_off / 8 / byte_sz * byte_sz)
  end.

(** [bpf_core_calc_field_relo]: the error code, the value, and what is
    written to [*validate]. *)
Definition calc_member (b : btf) (kind : bpf_field_info_kind) (mt : type_ptr)
    (bit_off bit_sz byte_sz byte_off : Z) (bitfield : bool) : res (Z * Z * bool) :=
  match kind with
  | BPF_FIELD_BYTE_OFFSET => Ok (0, byte_off, negb bitfield)
  | BPF_FIELD_BYTE_SIZE => Ok (0, byte_sz, negb bitfield)
  | BPF_FIELD_SIGNED =>
      enum ← btf_is BTF_KIND_ENUM b mt;
      if enum : bool then Ok (0, 1, true) else
      e ← btf_int_encoding b mt;
      Ok (0, bool_z (negb (Z.land e BTF_INT_SIGNED =? 0)), true)
  | BPF_FIELD_LSHIFT_U64 => Ok (0, u32 (64 - (bit_off + bit_sz - byte_off * 8)), negb bitfield)
  | BPF_FIELD_RSHIFT_U64 => Ok (0, u32 (64 - bit_sz), true)
  | BPF_FIELD_EXISTS | BPF_FIELD_UNKNOWN => Ok (- EINVAL, 0, negb bitfield)
  end.

Definition bpf_core_calc_field_relo (b : btf) (kind : bpf_field_info_kind) (s : bpf_core_spec)
    : res (Z * Z * bool) :=
  acc ← aget (cs_spec s) (zlen (cs_spec s) - 1);
  match acc_name acc with
  | None =>
      match kind with
      | BPF_FIELD_BYTE_OFFSET => Ok (0, cs_bit_offset s / 8, true)
      | BPF_FIELD_BYTE_SIZE =>
          sz ← btf__resolve_size b (acc_type_id acc);
          if sz <? 0 then Ok (- EINVAL, 0, true) else Ok (0, u32 sz, true)
      | _ => Ok (- EINVAL, 0, true)
      end
  | Some _ =>
      t ← btf__type_by_id b (acc_type_id acc);
      t ← or_fault NullDeref t;
      m_type ← member_type b t (acc_idx acc);
      '(mt, _) ← skip_mods_and_typedefs b m_type;
      let bit_off := cs_bit_offset s in
      bit_sz ← btf_member_bitfield_size b t (acc_idx acc);
      if 0 <? bit_sz then
        byte_sz ← t_size b mt;
        if byte_sz =? 0 then Err DivByZero else
        r ← bitfield_loop 5 bit_off bit_sz byte_sz (bit_off / 8 / byte_sz * byte_sz);
        match r with
        | None => Ok (- E2BIG, 0, true)
        | Some (byte_sz, byte_off) => calc_member b kind mt bit_off bit_sz byte_sz byte_off true
        end
      else
        sz ← btf__resolve_size b m_type;
        if sz <? 0 then Ok (- EINVAL, 0, true) else
        calc_member b kind mt bit_off (u32 (sz * 8)) (u32 sz) (bit_off / 8) false
  end.

(** [bpf_core_reloc_insn] on the instructions of a program: the error code
    and the instructions. The new value, the expected old one if it is to be
    checked. *)
Definition patch_insn (insns : list bpf_insn) (insn_idx : Z) (expected : option Z) (new_val : Z)
    : res (Z * list bpf_insn) :=
  insn ← aget insns insn_idx;
  let class := BPF_CLASS (i_code insn) in
  if (class =? BPF_ALU) || (class =? BPF_ALU64) then
    if negb (BPF_SRC (i_code insn) =? BPF_K) then Ok (- EINVAL, insns) else
    if match expected with Some v => negb (u32 (i_imm insn) =? v) | None => false end
    then Ok (- EINVAL, insns) else
    insns ← aset insns insn_idx (set_imm (s32 new_val) insn);
    Ok (0, insns)
  else Ok (- EINVAL, insns).

Definition bpf_core_reloc_insn (lb tb : btf) (insns : list bpf_insn) (r : bpf_field_reloc)
    (local_spec : bpf_core_spec) (targ_spec : option bpf_core_spec) : res (Z * list bpf_insn) :=
  if negb (fr_insn_off r mod 8 =? 0) then Ok (- EINVAL, insns) else
  let insn_idx := s32 (fr_insn_off r / 8) in
  if bool_decide (fr_kind r = BPF_FIELD_EXISTS) then
    patch_insn insns insn_idx (Some 1) (match targ_spec with Some _ => 1 | None => 0 end)
  else
  match targ_spec with
  | None => patch_insn insns insn_idx None UINT32_MAX
  | Some targ_spec =>
      '(err, orig_val, validate) ← bpf_core_calc_field_relo lb (fr_kind r) local_spec;
      if negb (err =? 0) then Ok (err, insns) else
      '(err, new_val, _) ← bpf_core_calc_field_relo tb (fr_kind r) targ_spec;
      if negb (err =? 0) then Ok (err, insns) else
      patch_insn insns insn_idx (if validate : bool then Some orig_val else None) new_val
  end.

(** * 6. Candidates *)

Section core.
Context {K : Type} `{BpfSys K}.
(** How many bytes of a block of [n] bytes may be written without harm: at
    least [n], and more where the allocator rounds up. *)
Context (usable : Z -> Z).

(** [cand_ids->data[cand_ids->len++] = id] after
    [realloc(cand_ids->data, cand_ids->len + 1)]: the number of elements is
    passed for the number of bytes. *)
Definition push_cand (ids : list Z) (id : Z) : res (list Z) :=
  if usable (zlen ids + 1) <? 4 * (zlen ids + 1) then Err OutOfBounds else Ok (ids ++ [id]).

(** The name of a type, [None] when it is NULL or empty. *)
Definition nonempty_name (b : btf) (t : type_ptr) : res (option (list byte)) :=
  off ← t_name_off b t;
  name ← btf__name_by_offset b off;
  empty ← str_is_empty b name;
  if empty : bool then Ok None else s ← name_str b name; Ok (Some s).

(** The loop over the types of the target from [i] on, [n] of them. *)
Fixpoint find_cands_loop (n : nat) (k : K) (local_name : list byte) (tb : btf) (i : Z) (ids : list Z)
    : res ((Z + list Z) * K) :=
  match n with
  | O => Ok (inr ids, k)
  | S n =>
      t ← btf__type_by_id tb i;
      t ← or_fault NullDeref t;
      targ_name ← nonempty_name tb t;
      match targ_name with
      | None => find_cands_loop n k local_name tb (i + 1) ids
      | Some targ_name =>
          if same_essence local_name targ_name then
            let '(ok, k) := sys_alloc k in
            if negb ok then Ok (inl (- ENOMEM), k) else
            ids ← push_cand ids i;
            find_cands_loop n k local_name tb (i + 1) ids
          else find_cands_loop n k local_name tb (i + 1) ids
      end
  end.

Definition bpf_core_find_cands (k : K) (lb : btf) (local_type_id : Z) (tb : btf)
    : res ((Z + list Z) * K) :=
  t ← btf__type_by_id lb local_type_id;
  match t with
  | None => Ok (inl (- EINVAL), k)
  | Some t =>
      local_name ← nonempty_name lb t;
      match local_name with
      | None => Ok (inl (- EINVAL), k)
      | Some local_name =>
          let '(ok, k) := sys_alloc k in
          if negb ok then Ok (inl (- ENOMEM), k) else
          find_cands_loop (Z.to_nat (btf__get_nr_types tb)) k local_name tb 1 []
      end
  end.

(** The candidates found so far: the cache maps a type to its list, which
    the relocations share and update. A list is a place in [cc_lists]. *)
Record cand_cache := mk_cache { cc_map : hashmap Z nat; cc_lists : list (list Z) }.

(** The loop of [bpf_core_reloc_field] over the candidates: the list, whose
    first [j] entries are those that matched, and the target found. *)
Fixpoint match_cands (n : nat) (lb : btf) (local_spec : bpf_core_spec) (tb : btf) (i j : Z)
    (ids : list Z) (targ : option bpf_core_spec) : res (Z * Z * list Z * option bpf_core_spec) :=
  match n with
  | O => Ok (0, j, ids, targ)
  | S n =>
      cand_id ← aget ids i;
      t ← btf__type_by_id tb cand_id;
      _ ← or_fault NullDeref t;
      '(err, cand_spec) ← bpf_core_spec_match lb local_spec tb cand_id;
      if err <? 0 then Ok (err, j, ids, targ) else
      if err =? 0 then match_cands n lb local_spec tb (i + 1) j ids targ else
      let ambiguous := match targ with
                       | Some t => negb (cs_bit_offset cand_spec =? cs_bit_offset t)
                       | None => false
                       end in
      if ambiguous then Ok (- EINVAL, j, ids, targ) else
      a ← aget (cs_spec cand_spec) 0;
      ids ← aset ids j (acc_type_id a);
      match_cands n lb local_spec tb (i + 1) (j + 1) ids
        (match targ with Some _ => targ | None => Some cand_spec end)
  end.

(** The candidates for a type, from the cache or searched: the error code,
    or the place of the list. *)
Definition get_cands (k : K) (c : cand_cache) (lb : btf) (type_id : Z) (tb : btf)
    : res ((Z + nat) * cand_cache * K) :=
  found ← hashmap__find (cc_map c) type_id;
  match found with
  | Some p => Ok (inr p, c, k)
  | None =>
      '(r, k) ← bpf_core_find_cands k lb type_id tb;
      match r with
      | inl err => Ok (inl err, c, k)
      | inr ids =>
          let '(calloc_ok, k) := sys_alloc k in
          let '(malloc_ok, k) := sys_alloc k in
          '(err, _, m) ← hashmap__set calloc_ok malloc_ok (cc_map c) type_id (length (cc_lists c));
          if negb (err =? 0) then Ok (inl err, mk_cache m (cc_lists c), k) else
          Ok (inr (length (cc_lists c)), mk_cache m (cc_lists c ++ [ids]), k)
      end
  end.

(** [bpf_core_reloc_field] for a program with these instructions;
    [relaxed] is [prog->obj->relaxed_core_relocs]. *)
Definition bpf_core_reloc_field (k : K) (relaxed : bool) (insns : list bpf_insn)
    (r : bpf_field_reloc) (lb tb : btf) (c : cand_cache)
    : res (Z * list bpf_insn * cand_cache * K) :=
  t ← btf__type_by_id lb (fr_type_id r);
  match t with
  | None => Ok (- EINVAL, insns, c, k)
  | Some t =>
      local_name ← nonempty_name lb t;
      match local_name with
      | None => Ok (- EINVAL, insns, c, k)
      | Some _ =>
          spec_ptr ← btf__name_by_offset lb (fr_access_str_off r);
          empty ← str_is_empty lb spec_ptr;
          if empty : bool then Ok (- EINVAL, insns, c, k) else
          spec_str ← name_str lb spec_ptr;
          '(err, local_spec) ← bpf_core_spec_parse lb (fr_type_id r) spec_str;
          if negb (err =? 0) then Ok (- EINVAL, insns, c, k) else
          '(p, c, k) ← get_cands k c lb (fr_type_id r) tb;
          match p with
          | inl err => Ok (err, insns, c, k)
          | inr p =>
              ids ← or_fault OutOfBounds (cc_lists c !! p);
              '(err, j, ids, targ) ← match_cands (length ids) lb local_spec tb 0 0 ids None;
              let len := if (err =? 0) && (0 <? j) then Z.to_nat j else length ids in
              let c := mk_cache (cc_map c) (<[p := take len ids]> (cc_lists c)) in
              if negb (err =? 0) then Ok (err, insns, c, k) else
              if (j =? 0) && negb relaxed && negb (bool_decide (fr_kind r = BPF_FIELD_EXISTS))
              then Ok (- ESRCH, insns, c, k) else
              '(err, insns) ← bpf_core_reloc_insn lb tb insns r local_spec targ;
              Ok (if negb (err =? 0) then - EINVAL else 0, insns, c, k)
          end
      end
  end.

(** * 7. All relocations of an object *)

Definition load_field_reloc (d : list byte) (o : Z) : res bpf_field_reloc :=
  insn_off ← load32 d o;
  type_id ← load32 d (o + 4);
  access_str_off ← load32 d (o + 8);
  kind ← load32 d (o + 12);
  Ok (mk_field_reloc insn_off type_id access_str_off (field_kind kind)).

(** [for_each_btf_ext_rec]: [n] records from the offset [rec] on. *)
Fixpoint reloc_recs (n : nat) (k : K) (relaxed : bool) (insns : list bpf_insn) (d : list byte)
    (rec rec_size : Z) (lb tb : btf) (c : cand_cache) : res (Z * list bpf_insn * cand_cache * K) :=
  match n with
  | O => Ok (0, insns, c, k)
  | S n =>
      r ← load_field_reloc d rec;
      '(err, insns, c, k) ← bpf_core_reloc_field k relaxed insns r lb tb c;
      if negb (err =? 0) then Ok (err, insns, c, k) else
      reloc_recs n k relaxed insns d (rec + rec_size) rec_size lb tb c
  end.

(** [for_each_btf_ext_sec], from the offset [sec] on. *)
Fixpoint reloc_secs (fuel : nat) (k : K) (relaxed : bool) (o : bpf_object) (d : list byte)
    (sec end_ rec_size : Z) (lb tb : btf) (c : cand_cache) : res (Z * bpf_object * cand_cache * K) :=
  match fuel with
  | O => Err OutOfFuel
  | S fuel =>
      if negb (sec <? end_) then Ok (0, o, c, k) else
      name_off ← load32 d sec;
      name ← btf__name_by_offset lb name_off;
      empty ← str_is_empty lb name;
      if empty : bool then Ok (- EINVAL, o, c, k) else
      name ← name_str lb name;
      i ← bpf_object__find_program_by_title o (string_of name);
      match i with
      | None => Ok (- EINVAL, o, c, k)
      | Some i =>
          num_info ← load32 d (sec + 4);
          prog ← aget (programs o) i;
          '(err, insns, c, k) ← reloc_recs (Z.to_nat num_info) k relaxed (default [] (p_insns prog)) d
                                  (sec + sizeof_ext_info_sec) rec_size lb tb c;
          let o := set_prog (fun p => set_code ((fun _ => insns) <$> p_insns p) (main_prog_cnt p) (p_relocs p) p) i o in
          if negb (err =? 0) then Ok (err, o, c, k) else
          reloc_secs fuel k relaxed o d (sec + sizeof_ext_info_sec + u32 (rec_size * num_info)) end_
            rec_size lb tb c
      end
  end.

(** [targ] is what opening the target's BTF gave. *)
Definition bpf_core_reloc_fields (k : K) (relaxed : bool) (o : bpf_object) (lb : btf) (x : btf_ext)
    (targ : Z + btf) : res (Z * bpf_object * K) :=
  match targ with
  | inl err => Ok (err, o, k)
  | inr tb =>
      let '(ok, k) := sys_alloc k in
      if negb ok then Ok (- ENOMEM, o, btf__free k tb) else
      let seg := x_field_reloc_info x in
      '(err, o, _, k) ← reloc_secs (S (length (x_data x))) k relaxed o (x_data x) (x_info seg)
                          (x_info seg + x_len seg) (x_rec_size seg) lb tb (mk_cache hashmap__init []);
      Ok (err, o, btf__free k tb)
  end.

(** The target is only opened when there are relocations. *)
Definition bpf_object__relocate_core (k : K) (relaxed : bool) (o : bpf_object) (lb : btf)
    (x : btf_ext) (open_target : K -> (Z + btf) * K) : res (Z * bpf_object * K) :=
  if x_len (x_field_reloc_info x) =? 0 then Ok (0, o, k) else
  let '(targ, k) := open_target k in
  bpf_core_reloc_fields k relaxed o lb x targ.
End core.
