(* ===== verification/CoReProps.v ===== *)
(** What CO-RE relocation guarantees: a target that matches has the same
    fields, and the offset it gives is theirs. *)
From S2P Require Import Prelude CLib XdpLink LibbpfObj LibbpfLoad DemoSys XskProg HashMap Btf BtfSpec BtfProps BtfLookups BtfExt CoRe.
#[local] Open Scope Z_scope.

(** * 1. Types as values *)

Definition is_composite (t : btype) : bool :=
  (ty_kind t =? BTF_KIND_STRUCT) || (ty_kind t =? BTF_KIND_UNION).
Definition is_mod_or_typedef (t : btype) : bool :=
  (ty_kind t =? BTF_KIND_VOLATILE) || (ty_kind t =? BTF_KIND_CONST) || (ty_kind t =? BTF_KIND_RESTRICT)
  || (ty_kind t =? BTF_KIND_TYPEDEF).

(** [id'] is [id] without modifiers and typedefs; 0 is [void]. *)
Inductive skips (tys : list btype) : Z -> Z -> Prop :=
| skips_void : skips tys 0 0
| skips_here id t : ty_at tys id = Some t -> is_mod_or_typedef t = false -> skips tys id id
| skips_next id t id' :
    ty_at tys id = Some t -> is_mod_or_typedef t = true -> skips tys (ty_size t) id' -> skips tys id id'.

(** A member: its name, type and bit offset. *)
Record member := mk_member { m_name_off : Z; m_type : Z; m_bits : Z }.
Definition member_at (t : btype) (i : Z) : option member :=
  name ← ty_words t !! Z.to_nat (3 * i);
  type ← ty_words t !! Z.to_nat (3 * i + 1);
  off ← ty_words t !! Z.to_nat (3 * i + 2);
  Some (mk_member name type (if ty_kflag t then BTF_MEMBER_BIT_OFFSET off else off)).

(** The structure or union [id] is, with a member. *)
Definition has_member (tys : list btype) (id sid i : Z) (m : member) : Prop :=
  exists t, skips tys id sid /\ ty_at tys sid = Some t /\ is_composite t = true /\
    0 <= i < ty_vlen t /\ member_at t i = Some m.

(** The name of a member; without a name it is an embedded structure. *)
Definition anonymous (strs : list byte) (m : member) : Prop :=
  str_of strs (m_name_off m) = None \/ str_of strs (m_name_off m) = Some [].

(** The field [name] of [id], looked for also in embedded structures:
    where it is, its bit offset and its type. *)
Inductive field (tys : list btype) (strs name : list byte) : Z -> list Z -> Z -> Z -> Prop :=
| field_here id sid i m :
    has_member tys id sid i m -> str_of strs (m_name_off m) = Some name -> name <> [] ->
    field tys strs name id [i] (m_bits m) (m_type m)
| field_inside id sid i m path bits type :
    has_member tys id sid i m -> anonymous strs m -> field tys strs name (m_type m) path bits type ->
    field tys strs name id (i :: path) (m_bits m + bits) type.

(** C's rule: a structure has no two fields with one name. *)
Definition unambiguous (tys : list btype) (strs : list byte) : Prop :=
  forall name id p b t p' b' t',
    field tys strs name id p b t -> field tys strs name id p' b' t' -> p = p'.

(** * 2. Reading members *)

Section reading.
Context (b : btf) (tys : list btype) (strs : list byte) (Hrep : represents b tys strs).

(** [p] is the type [id]. *)
Definition points (p : type_ptr) (id : Z) : Prop :=
  (id = 0 /\ p = Void) \/ (exists t, ty_at tys id = Some t /\ type_at b p t).

Lemma type_by_id_points id p : 0 <= id -> btf__type_by_id b id = Ok (Some p) -> points p id.
Proof.
  intros Hid Hp. destruct (rep_by_id b tys strs id Hrep Hid) as [[_ Hx]|[[-> Hx]|(t & q & Ht & Hx & Hat)]];
    rewrite Hx in Hp; [discriminate | |]; injection Hp as <-; [left; auto | right; eauto].
Qed.

Lemma points_nonneg p id : points p id -> 0 <= id.
Proof. intros [[-> _]|(t & Ht & _)]; [lia|]. apply ty_at_range in Ht. lia. Qed.

Lemma skip_loop_sound fuel : forall p id q id',
  points p id -> skip_loop fuel b (Some p) id = Ok (q, id') -> points q id' /\ skips tys id id'.
Proof.
  induction fuel as [|fuel IH]; intros p id q id' Hp Hs; [discriminate|].
  cbn [skip_loop or_fault mbind res_bind] in Hs. destruct Hp as [[-> ->]|(t & Ht & Hat)].
  - cbn in Hs. injection Hs as <- <-. split; [left; auto | apply skips_void].
  - rewrite (type_at_kind _ _ _ Hat) in Hs. cbn [mbind res_bind] in Hs. fold (is_mod_or_typedef t) in Hs.
    destruct (is_mod_or_typedef t) eqn:Hm.
    + rewrite (type_at_type _ _ _ Hat) in Hs. cbn [mbind res_bind] in Hs.
      pose proof (ty_size_ok _ (proj1 Hat)) as Hsz.
      destruct (btf__type_by_id b (ty_size t)) as [[r|]|] eqn:Hr; cbn [mbind res_bind] in Hs;
        [|destruct fuel; discriminate | discriminate].
      destruct (IH r _ q id' (type_by_id_points _ _ (proj1 Hsz) Hr) Hs) as [Hq Hsk].
      split; [exact Hq | eapply skips_next; eassumption].
    + injection Hs as <- <-. split; [right; eauto | eapply skips_here; eassumption].
Qed.

Lemma skip_sound id p id' :
  0 <= id -> skip_mods_and_typedefs b id = Ok (p, id') -> points p id' /\ skips tys id id'.
Proof.
  intros Hid Hs. unfold skip_mods_and_typedefs in Hs.
  destruct (btf__type_by_id b id) as [[q|]|] eqn:Hq; cbn [mbind res_bind] in Hs; [|discriminate..].
  eapply skip_loop_sound; [eapply type_by_id_points; eassumption | exact Hs].
Qed.

(** A composite type, read. *)
Lemma composite_sound p id : points p id -> btf_is_composite b p = Ok true ->
  exists t, ty_at tys id = Some t /\ type_at b p t /\ is_composite t = true.
Proof.
  unfold btf_is_composite. intros [[-> ->]|(t & Ht & Hat)] Hc; [discriminate|].
  rewrite (type_at_kind _ _ _ Hat) in Hc. cbn [mbind res_bind] in Hc. injection Hc as Hc.
  exists t. auto.
Qed.

Lemma composite_words t : ty_ok t -> is_composite t = true -> zlen (ty_words t) = 3 * ty_vlen t.
Proof.
  intros Hok Hc. rewrite (ty_words_len _ Hok). unfold is_composite in Hc. unfold extra_words.
  apply orb_true_iff in Hc as [Hc|Hc]; apply Z.eqb_eq in Hc; rewrite Hc; reflexivity.
Qed.

Lemma member_sound p t i :
  type_at b p t -> is_composite t = true -> 0 <= i < ty_vlen t ->
  exists m, member_at t i = Some m /\ 0 <= m_name_off m /\ 0 <= m_type m /\ 0 <= m_bits m /\
    member_name_off b p i = Ok (m_name_off m) /\ member_type b p i = Ok (m_type m) /\
    btf_member_bit_offset b p i = Ok (m_bits m).
Proof.
  intros Hat Hc Hi. pose proof (proj1 Hat) as Hok. pose proof (composite_words t Hok Hc) as Hl.
  pose proof (ty_words_ok _ Hok) as Hws. rewrite Forall_lookup in Hws.
  destruct (lookup_lt_is_Some_2 (ty_words t) (Z.to_nat (3 * i))) as [n Hn]; [unfold zlen in Hl; lia|].
  destruct (lookup_lt_is_Some_2 (ty_words t) (Z.to_nat (3 * i + 1))) as [y Hy]; [unfold zlen in Hl; lia|].
  destruct (lookup_lt_is_Some_2 (ty_words t) (Z.to_nat (3 * i + 2))) as [o Ho]; [unfold zlen in Hl; lia|].
  unfold member_at. rewrite Hn, Hy, Ho. cbn [mbind option_bind]. eexists. split; [reflexivity|].
  cbn [m_name_off m_type m_bits].
  destruct (Hws _ _ Hn), (Hws _ _ Hy), (Hws _ _ Ho).
  pose proof (type_at_word b p t _ _ Hat Hn) as E1. pose proof (type_at_word b p t _ _ Hat Hy) as E2.
  pose proof (type_at_word b p t _ _ Hat Ho) as E3. rewrite !Z2Nat.id in E1, E2, E3 by lia.
  split; [lia|]. split; [lia|]. split.
  { destruct (ty_kflag t); [|lia]. unfold BTF_MEMBER_BIT_OFFSET. apply Z.land_nonneg. lia. }
  split; [exact E1|]. split; [exact E2|]. unfold btf_member_bit_offset, member_offset.
  rewrite (type_at_kflag _ _ _ Hat), E3. reflexivity.
Qed.

(** Names, read. *)
Lemma empty_sound off name e :
  0 <= off -> btf__name_by_offset b off = Ok name -> str_is_empty b name = Ok e ->
  if e then str_of strs off = None \/ str_of strs off = Some []
  else exists s, str_of strs off = Some s /\ s <> [] /\ name_str b name = Ok s.
Proof.
  intros Hoff Hn He. pose proof (name_spec b tys strs off Hrep Hoff) as Hs.
  destruct (str_of strs off) as [s|].
  - destruct Hs as (o & Ho & Hs). rewrite Ho in Hn. injection Hn as <-. cbn [str_is_empty] in He.
    unfold name_str. cbn [or_fault mbind res_bind]. unfold str_at in Hs.
    destruct ((0 <=? o) && (o <=? zlen (b_data b))) eqn:Hr; [|discriminate].
    unfold load8, aget in He. replace (0 <=? o) with true in He by lia.
    destruct (b_data b !! Z.to_nat o) as [c|] eqn:Hc; cbn [or_fault mbind res_bind] in He; [|discriminate].
    injection He as <-. rewrite (drop_S _ c _ Hc) in Hs. cbn [c_string] in Hs.
    destruct (Z.eqb_spec (byte_val c) 0) as [E|E].
    + change 0 with (byte_val NUL) in E. apply byte_val_inj in E. rewrite decide_True in Hs by exact E.
      injection Hs as <-. auto.
    + rewrite decide_False in Hs by (intros ->; apply E; reflexivity). exists s. split; [reflexivity|].
      destruct (c_string _) as [r|] eqn:Hr'; cbn [mbind res_bind] in Hs; [|discriminate].
      injection Hs as <-. split; [discriminate|]. unfold str_at. rewrite Hr, (drop_S _ c _ Hc).
      cbn [c_string]. rewrite decide_False by (intros ->; apply E; reflexivity). rewrite Hr'. reflexivity.
  - rewrite Hs in Hn. injection Hn as <-. cbn in He. injection He as <-. auto.
Qed.

(** A name, or none, read. *)
Lemma name_cases off : 0 <= off -> exists name, btf__name_by_offset b off = Ok name /\
  ((str_is_empty b name = Ok true /\ (str_of strs off = None \/ str_of strs off = Some [])) \/
   exists s, str_is_empty b name = Ok false /\ str_of strs off = Some s /\ s <> [] /\ name_str b name = Ok s).
Proof.
  intros Hoff. pose proof (name_spec b tys strs off Hrep Hoff) as Hn.
  assert (exists name, btf__name_by_offset b off = Ok name) as [name Hname].
  { destruct (str_of strs off); [destruct Hn as (o & -> & _); eauto | eauto]. }
  exists name. split; [exact Hname|].
  assert (exists e, str_is_empty b name = Ok e) as [e He].
  { destruct (str_of strs off) as [s|]; [|rewrite Hn in Hname; injection Hname as <-; exists true; reflexivity].
    destruct Hn as (o & Ho & Hs). rewrite Ho in Hname. injection Hname as <-. cbn [str_is_empty]. unfold str_at in Hs.
    destruct ((0 <=? o) && (o <=? zlen (b_data b))) eqn:Hr; [|discriminate].
    unfold load8, aget. replace (0 <=? o) with true by lia.
    destruct (b_data b !! Z.to_nat o) as [c|] eqn:Hc; [cbn; eauto|].
    apply lookup_ge_None in Hc. rewrite drop_ge in Hs by lia. discriminate. }
  pose proof (empty_sound off name e Hoff Hname He) as Hc. rewrite He.
  destruct e; [left; auto | right]. destruct Hc as (s & ? & ? & ?). exists s. auto.
Qed.
End reading.

(** * 3. Compatible types *)

(** The type [id] is without its modifiers, other than [void]. *)
Definition resolved (tys : list btype) (id : Z) (t : btype) : Prop :=
  exists sid, skips tys id sid /\ ty_at tys sid = Some t.

(** The local type [l] may be read as the target type [t]: both are
    structures or unions, pointers, integers of any size that are no
    bitfields, enumerations or forward declarations with the same name, or
    arrays of such. *)
Inductive compatible (ltys : list btype) (lstrs : list byte) (tys : list btype) (strs : list byte)
    : Z -> Z -> Prop :=
| compat_composite l t lt ty :
    resolved ltys l lt -> resolved tys t ty -> is_composite lt = true -> is_composite ty = true ->
    compatible ltys lstrs tys strs l t
| compat_ptr l t lt ty :
    resolved ltys l lt -> resolved tys t ty -> ty_kind lt = BTF_KIND_PTR -> ty_kind ty = BTF_KIND_PTR ->
    compatible ltys lstrs tys strs l t
| compat_named l t lt ty ln tn :
    resolved ltys l lt -> resolved tys t ty ->
    ty_kind lt = ty_kind ty -> ty_kind lt = BTF_KIND_FWD \/ ty_kind lt = BTF_KIND_ENUM ->
    str_of lstrs (ty_name lt) = Some ln -> str_of strs (ty_name ty) = Some tn -> names_agree ln tn = true ->
    compatible ltys lstrs tys strs l t
| compat_int l t lt ty lw tw :
    resolved ltys l lt -> resolved tys t ty -> ty_kind lt = BTF_KIND_INT -> ty_kind ty = BTF_KIND_INT ->
    ty_words lt = [lw] -> ty_words ty = [tw] -> BTF_INT_OFFSET lw = 0 -> BTF_INT_OFFSET tw = 0 ->
    compatible ltys lstrs tys strs l t
| compat_array l t lt ty le te li ti ln tn :
    resolved ltys l lt -> resolved tys t ty -> ty_kind lt = BTF_KIND_ARRAY -> ty_kind ty = BTF_KIND_ARRAY ->
    ty_words lt = [le; li; ln] -> ty_words ty = [te; ti; tn] -> compatible ltys lstrs tys strs le te ->
    compatible ltys lstrs tys strs l t.

Lemma int_words t : ty_ok t -> ty_kind t = BTF_KIND_INT -> exists w, ty_words t = [w].
Proof.
  intros [_ _ _ _ _ Hl] Hk. rewrite Hk in Hl. change (extra_words _ _) with 1 in Hl.
  destruct (ty_words t) as [|w [|? ?]]; unfold zlen in Hl; cbn [length] in Hl; try lia. eauto.
Qed.

Lemma void_kind b : btf_kind b Void = Ok 0.
Proof. reflexivity. Qed.

Lemma type_name_sound b tys strs p t s :
  represents b tys strs -> type_at b p t -> type_name b p = Ok s -> str_of strs (ty_name t) = Some s.
Proof.
  intros Hrep Hat Hs. unfold type_name in Hs. rewrite (type_at_name _ _ _ Hat) in Hs. cbn [mbind res_bind] in Hs.
  pose proof (name_spec b tys strs (ty_name t) Hrep (proj1 (ty_name_ok _ (proj1 Hat)))) as Hn.
  destruct (str_of strs (ty_name t)) as [s'|].
  - destruct Hn as (o & Ho & Hn). rewrite Ho in Hs. cbn in Hs. congruence.
  - rewrite Hn in Hs. discriminate.
Qed.

Section compat.
Context (lb tb : btf) (ltys tys : list btype) (lstrs strs : list byte).
Context (Hrepl : represents lb ltys lstrs) (Hrep : represents tb tys strs).

(** What one round finds of the two types. *)
Lemma compat_types recur l t lt ty p q r :
  resolved ltys l lt -> type_at lb p lt -> resolved tys t ty -> type_at tb q ty -> r <> 0 ->
  (forall l t, 0 <= l -> 0 <= t -> recur l t = Ok r -> compatible ltys lstrs tys strs l t) ->
  types_compat recur lb p tb q = Ok r -> compatible ltys lstrs tys strs l t.
Proof.
  intros Hl Hp Ht Hq Hr IH. unfold types_compat, btf_is_composite.
  rewrite (type_at_kind _ _ _ Hp), (type_at_kind _ _ _ Hq). cbn [mbind res_bind].
  fold (is_composite lt) (is_composite ty).
  destruct (is_composite lt) eqn:Hcl, (is_composite ty) eqn:Hct; cbn [andb]; intros H;
    [eauto using compat_composite | ..];
    (destruct (Z.eqb_spec (ty_kind lt) (ty_kind ty)) as [Hk|]; cbn [negb] in H; [|injection H as <-; lia]);
    try (unfold is_composite in Hcl, Hct; rewrite Hk in Hcl; congruence).
  destruct (Z.eqb_spec (ty_kind lt) BTF_KIND_PTR); [eapply compat_ptr; eauto; congruence|].
  destruct (_ || _) eqn:Hn.
  { res_inv. subst r. destruct (names_agree _ _) eqn:Ha; [|destruct (Hr eq_refl)].
    apply orb_true_iff in Hn. rewrite !Z.eqb_eq in Hn.
    eapply compat_named; eauto using type_name_sound. }
  destruct (Z.eqb_spec (ty_kind lt) BTF_KIND_INT) as [Hi|].
  { destruct (int_words lt (proj1 Hp) Hi) as (lw & Hlw).
    destruct (int_words ty (proj1 Hq) ltac:(congruence)) as (tw & Htw). unfold btf_int_offset in H.
    assert (t_word lb p 0 = Ok lw) as E1 by (apply (type_at_word lb p lt 0 lw Hp); rewrite Hlw; reflexivity).
    assert (t_word tb q 0 = Ok tw) as E2 by (apply (type_at_word tb q ty 0 tw Hq); rewrite Htw; reflexivity).
    rewrite E1, E2 in H. cbn [mbind res_bind] in H.
    destruct (Z.eqb_spec (BTF_INT_OFFSET lw) 0), (Z.eqb_spec (BTF_INT_OFFSET tw) 0); cbn [negb bool_z] in H;
      try (injection H as <-; lia). eapply compat_int; eauto; congruence. }
  destruct (Z.eqb_spec (ty_kind lt) BTF_KIND_ARRAY) as [Ha|]; [|injection H as <-; lia].
  destruct (array_words lt (proj1 Hp) Ha) as (le & li & ln & Hlw & Hle & _).
  destruct (array_words ty (proj1 Hq) ltac:(congruence)) as (te & ti & tn & Htw & Hte & _).
  assert (array_type lb p = Ok le) as E1 by (apply (type_at_word lb p lt 0 le Hp); rewrite Hlw; reflexivity).
  assert (array_type tb q = Ok te) as E2 by (apply (type_at_word tb q ty 0 te Hq); rewrite Htw; reflexivity).
  rewrite E1, E2 in H. cbn [mbind res_bind] in H.
  eapply compat_array; [exact Hl | exact Ht | exact Ha | congruence | exact Hlw | exact Htw |].
  apply IH; [apply Hle | apply Hte | exact H].
Qed.

Lemma compat_sound fuel : forall l t r, 0 <= l -> 0 <= t -> r <> 0 ->
  fields_compat_loop fuel lb l tb t = Ok r -> compatible ltys lstrs tys strs l t.
Proof.
  induction fuel as [|fuel IH]; intros l t r Hl Ht Hr H; [discriminate|]. cbn [fields_compat_loop] in H.
  destruct (skip_mods_and_typedefs lb l) as [[p sl]|] eqn:Hsl; cbn [mbind res_bind] in H; [|discriminate].
  destruct (skip_mods_and_typedefs tb t) as [[q st]|] eqn:Hst; cbn [mbind res_bind] in H; [|discriminate].
  destruct (skip_sound lb ltys lstrs Hrepl l p sl Hl Hsl) as [Hp Hkl].
  destruct (skip_sound tb tys strs Hrep t q st Ht Hst) as [Hq Hkt].
  destruct Hp as [[-> ->]|(lt & Hlt & Hatl)], Hq as [[-> ->]|(ty & Hty & Hatt)].
  - unfold types_compat, btf_is_composite in H. rewrite !void_kind in H. injection H as <-. lia.
  - unfold types_compat, btf_is_composite in H. rewrite void_kind, (type_at_kind _ _ _ Hatt) in H. cbn [mbind res_bind] in H.
    change ((0 =? BTF_KIND_STRUCT) || (0 =? BTF_KIND_UNION)) with false in H. cbn [andb] in H.
    destruct (Z.eqb_spec 0 (ty_kind ty)); cbn in H; injection H as <-; lia.
  - unfold types_compat, btf_is_composite in H. rewrite void_kind, (type_at_kind _ _ _ Hatl) in H. cbn [mbind res_bind] in H. rewrite andb_false_r in H.
    destruct (Z.eqb_spec (ty_kind lt) 0) as [Hk|]; [rewrite Hk in H|]; cbn in H; injection H as <-; lia.
  - eapply (compat_types _ l t lt ty p q r); [eexists; eauto | exact Hatl | eexists; eauto | exact Hatt | exact Hr | | exact H].
    intros l' t' Hl' Ht' H'. eapply IH; eassumption.
Qed.
End compat.

(** * 4. Matching a member *)

(** The name and the type of the local field an accessor stands for. *)
Definition acc_field (lb : btf) (acc : bpf_core_accessor) : res (list byte) :=
  lt ← btf__type_by_id lb (acc_type_id acc);
  lt ← or_fault NullDeref lt;
  off ← member_name_off lb lt (acc_idx acc);
  name ← btf__name_by_offset lb off;
  name_str lb name.

Definition acc_type (lb : btf) (acc : bpf_core_accessor) : res Z :=
  lt ← btf__type_by_id lb (acc_type_id acc);
  lt ← or_fault NullDeref lt;
  member_type lb lt (acc_idx acc).

Lemma member_type_nonneg b p i t : member_type b p i = Ok t -> 0 <= t.
Proof.
  unfold member_type, t_word. destruct p; [discriminate|]. intros Ht. apply load32_range in Ht. lia.
Qed.

Definition bits_ok (s : bpf_core_spec) : Prop := 0 <= cs_bit_offset s < 2 ^ 32.

(** A member that was tried and given up leaves no trace. *)
Lemma pop_push i bits s s1 :
  bits_ok s -> push_raw i (add_bits bits s) = Ok s1 -> pop_raw bits s1 = s.
Proof.
  intros Hs. unfold push_raw. destruct (_ <=? _); [discriminate|]. intros [= <-].
  unfold pop_raw. cbn. destruct s as [sp raw bo]. unfold bits_ok in Hs. cbn in *. f_equal.
  - rewrite length_app. cbn. rewrite Nat.add_sub, take_app_length. reflexivity.
  - wrap_lia.
Qed.

Lemma push_raw_eq i s s1 :
  push_raw i s = Ok s1 -> s1 = mk_spec (cs_spec s) (cs_raw s ++ [i]) (cs_bit_offset s).
Proof. unfold push_raw. destruct (_ <=? _); [discriminate|]. intros [= <-]. reflexivity. Qed.
Lemma push_acc_eq a s s1 :
  push_acc a s = Ok s1 -> s1 = mk_spec (cs_spec s ++ [a]) (cs_raw s) (cs_bit_offset s).
Proof. unfold push_acc. destruct (_ <=? _); [discriminate|]. intros [= <-]. reflexivity. Qed.

Lemma bits_ok_u32 sp raw z : bits_ok (mk_spec sp raw (u32 z)).
Proof. apply u32_range. Qed.

Section matching.
Context (lb tb : btf) (ltys tys : list btype) (lstrs strs : list byte).
Context (Hrepl : represents lb ltys lstrs) (Hrep : represents tb tys strs).
Context (Hun : unambiguous tys strs) (acc : bpf_core_accessor).

(** The field of the accessor is at [p] in [id]. *)
Definition target (id : Z) (p : list Z) (b t : Z) : Prop :=
  exists name, acc_field lb acc = Ok name /\ field tys strs name id p b t.

(** The local field may be read as the type [t]. *)
Definition fits (t : Z) : Prop :=
  exists l, acc_type lb acc = Ok l /\ compatible ltys lstrs tys strs l t.

(** What a search in [id], from the member [i] on, may have done: on
    success the specification leads to the field; without success nothing
    changed, or the field is there but of another type. *)
Definition matched (id i : Z) (s : bpf_core_spec) (r : Z * bpf_core_spec * Z) : Prop :=
  let '(found, s', next') := r in
  (found = 0 -> s' = s \/ exists p b t, target id p b t) /\
  (0 < found -> exists j p b t a, target id (j :: p) b t /\ i <= j /\ next' = t /\ fits t /\
     s' = mk_spec (cs_spec s ++ [a]) (cs_raw s ++ j :: p) (u32 (cs_bit_offset s + b))).

Lemma matched_none id i s next : matched id i s (0, s, next).
Proof. split; [auto | lia]. Qed.
Lemma matched_err id i s s' next err : err < 0 -> matched id i s (err, s', next).
Proof. intros. split; lia. Qed.

Lemma target_inside id sid i m p b t :
  has_member tys id sid i m -> anonymous strs m -> target (m_type m) p b t ->
  target id (i :: p) (m_bits m + b) t.
Proof. intros Hm Ha (name & Hn & Hf). exists name. split; [exact Hn | eapply field_inside; eassumption]. Qed.

Lemma target_unique id p b t p' b' t' : target id p b t -> target id p' b' t' -> p = p'.
Proof. intros (n & Hn & Hf) (n' & Hn' & Hf'). rewrite Hn in Hn'. injection Hn' as <-. eapply Hun; eassumption. Qed.

(** Going on after an embedded structure in which the field has another
    type: by the uniqueness of names nothing is found any more. *)
Lemma matched_stale id i s r j p b t :
  target id (j :: p) b t -> j < i -> (forall s', matched id i s' r -> matched id i s r) .
Proof.
  intros Ht Hj s'. destruct r as [[found s2] next2]. intros [_ Hpos]. split; [eauto 10|].
  intros Hf. destruct (Hpos Hf) as (j' & p' & b' & t' & a & Ht' & Hj' & _).
  pose proof (target_unique _ _ _ _ _ _ _ Ht Ht') as Heq. injection Heq as Heq _. lia.
Qed.

Lemma matched_weak id i s r : matched id (i + 1) s r -> matched id i s r.
Proof.
  destruct r as [[f s'] n']. intros [Hz Hpos]. split; [exact Hz|]. intros Hf.
  destruct (Hpos Hf) as (j & q & b & ty & a & Hx & Hj & Hrest). exists j, q, b, ty, a.
  split; [exact Hx|]. split; [lia | exact Hrest].
Qed.

(** What may have been found in the [i]-th member, whose search began at [s1]. *)
Definition tried (id i : Z) (s s1 : bpf_core_spec) (r : option Z * bpf_core_spec * Z) : Prop :=
  match r with
  | (Some found, s', next') => matched id i s (found, s', next')
  | (None, s', _) => s' = s1 \/ exists p b t, target id (i :: p) b t
  end.

Lemma try_member_sound deeper lt local_name id sid i m tn s next r :
  (forall id' s next r, 0 <= id' -> bits_ok s -> deeper id' s next = Ok r -> matched id' 0 s r) ->
  has_member tys id sid i m -> 0 <= m_name_off m -> 0 <= m_type m ->
  name_str lb local_name = acc_field lb acc -> member_type lb lt (acc_idx acc) = acc_type lb acc ->
  btf__name_by_offset tb (m_name_off m) = Ok tn ->
  let s1 := mk_spec (cs_spec s) (cs_raw s ++ [i]) (u32 (cs_bit_offset s + m_bits m)) in
  try_member deeper lb acc lt local_name tb sid i tn (m_type m) s1 next = Ok r -> tried id i s s1 r.
Proof.
  intros Hdeep Hmem Hn0 Ht0 Hln Hlt Htn s1 Hr. unfold try_member in Hr.
  destruct (str_is_empty tb tn) as [e|] eqn:He; cbn [mbind res_bind] in Hr; [|discriminate].
  pose proof (empty_sound tb tys strs Hrep _ _ _ Hn0 Htn He) as Hname. destruct e.
  - destruct (deeper _ _ _) as [[[found s2] next2]|] eqn:Hd; cbn [mbind res_bind] in Hr; [|discriminate].
    injection Hr as <-. assert (bits_ok s1) as Hs1 by apply u32_range.
    destruct (Hdeep _ _ _ _ Ht0 Hs1 Hd) as [Hz Hpos].
    destruct (Z.eqb_spec found 0) as [->|Hne]; cbn [tried].
    + destruct (Hz eq_refl) as [->|(q & b & ty & Hf)]; [auto|]. right. eauto using target_inside.
    + split; [lia|]. intros Hf0. destruct (Hpos Hf0) as (j & q & b & ty & a & Hf & _ & -> & Ha & ->).
      exists i, (j :: q), (m_bits m + b), ty, a. split; [eauto using target_inside|].
      split; [lia|]. split; [reflexivity|]. split; [exact Ha|]. cbn. f_equal.
      * rewrite <- app_assoc. reflexivity.
      * wrap_lia.
  - destruct Hname as (nm & Hnm & Hne & Hstr). rewrite Hln, Hstr in Hr.
    destruct (acc_field lb acc) as [ln|] eqn:Hacc; cbn [mbind res_bind] in Hr; [|discriminate].
    destruct (bool_decide (ln = nm)) eqn:Hd; cbn [negb] in Hr; [|injection Hr as <-; left; reflexivity].
    apply bool_decide_eq_true in Hd as ->.
    assert (target id [i] (m_bits m) (m_type m)) as Htg by (exists nm; split; [exact Hacc | eapply field_here; eassumption]).
    destruct (push_acc _ s1) as [s2|] eqn:E; cbn [mbind res_bind] in Hr; [|discriminate].
    rewrite Hlt in Hr. destruct (acc_type lb acc) as [l|] eqn:Hl; cbn [mbind res_bind] in Hr; [|discriminate].
    destruct (bpf_core_fields_are_compat _ _ _ _) as [c|] eqn:Hcomp; cbn [mbind res_bind] in Hr; [|discriminate].
    injection Hr as <-. split; [eauto 10|]. intros Hf0. destruct (Z.eqb_spec c 0); [lia|].
    apply push_acc_eq in E. exists i, [], (m_bits m), (m_type m), (mk_acc sid i tn).
    split; [exact Htg|]. split; [lia|]. split; [reflexivity|].
    split; [|rewrite E; reflexivity]. exists l. split; [exact Hl|].
    eapply compat_sound; [exact Hrepl | exact Hrep | eapply member_type_nonneg, Hlt | exact Ht0 | eassumption | exact Hcomp].
Qed.

Lemma members_sound deeper lt local_name id sid t p :
  (forall id' s next r, 0 <= id' -> bits_ok s -> deeper id' s next = Ok r -> matched id' 0 s r) ->
  skips tys id sid -> ty_at tys sid = Some t -> type_at tb p t -> is_composite t = true ->
  name_str lb local_name = acc_field lb acc -> member_type lb lt (acc_idx acc) = acc_type lb acc ->
  forall n i s next r, 0 <= i -> i + Z.of_nat n <= ty_vlen t -> bits_ok s ->
  members_loop deeper lb acc lt local_name tb p sid n i s next = Ok r -> matched id i s r.
Proof.
  intros Hdeep Hsk Ht Hat Hc Hln Hlt. induction n as [|n IH]; intros i s next r Hi Hn Hs Hr; cbn [members_loop] in Hr.
  { injection Hr as <-. apply matched_none. }
  destruct (member_sound tb p t i Hat Hc) as (m & Hm & H0n & H0t & H0b & En & Et & Eb); [lia|].
  assert (has_member tys id sid i m) as Hmem by (exists t; repeat split; auto; lia).
  rewrite Eb, En, Et in Hr. cbn [mbind res_bind] in Hr.
  destruct (zlen (cs_raw s) =? BPF_CORE_SPEC_MAX_LEN); [injection Hr as <-; apply matched_err; reflexivity|].
  destruct (push_raw i (add_bits (m_bits m) s)) as [s1|] eqn:Hp1; cbn [mbind res_bind] in Hr; [|discriminate].
  pose proof (pop_push _ _ _ _ Hs Hp1) as Hpop. apply push_raw_eq in Hp1. cbn in Hp1. subst s1.
  destruct (btf__name_by_offset tb (m_name_off m)) as [tn|] eqn:Htn; cbn [mbind res_bind] in Hr; [|discriminate].
  destruct (try_member _ _ _ _ _ _ _ _ _ _ _ _) as [x|] eqn:Hx; cbn [mbind res_bind] in Hr; [|discriminate].
  pose proof (try_member_sound _ _ _ _ _ _ _ _ _ _ _ Hdeep Hmem H0n H0t Hln Hlt Htn Hx) as Htried.
  destruct x as [[[found|] s2] next2]; cbn [tried] in Htried; [injection Hr as <-; exact Htried|].
  apply matched_weak. destruct Htried as [->|(q & b & ty & Hf)].
  - rewrite Hpop in Hr. eapply IH; [lia | lia | exact Hs | exact Hr].
  - apply (matched_stale id (i + 1) s r i q b ty Hf) with (s' := pop_raw (m_bits m) s2); [lia|].
    eapply IH; [lia | lia | apply u32_range | exact Hr].
Qed.

Lemma match_member_sound depth : forall id s next r,
  0 <= id -> bits_ok s -> match_member depth lb acc tb id s next = Ok r -> matched id 0 s r.
Proof.
  induction depth as [|depth IH]; intros id s next r Hid Hs Hr; [discriminate|]. cbn [match_member] in Hr.
  destruct (skip_mods_and_typedefs tb id) as [[p sid]|] eqn:Hsk; cbn [mbind res_bind] in Hr; [|discriminate].
  destruct (skip_sound tb tys strs Hrep id p sid Hid Hsk) as [Hp Hskip].
  destruct (btf_is_composite tb p) as [c|] eqn:Hc; cbn [mbind res_bind] in Hr; [|discriminate].
  destruct c; cbn [negb] in Hr; [|injection Hr as <-; apply matched_none].
  destruct (composite_sound tb tys p sid Hp Hc) as (t & Ht & Hat & Hct).
  destruct (btf__type_by_id lb (acc_type_id acc)) as [lt|] eqn:Hlt; cbn [mbind res_bind] in Hr; [|discriminate].
  destruct (or_fault NullDeref lt) as [ltp|] eqn:Hltp; cbn [mbind res_bind] in Hr; [|discriminate].
  destruct (member_name_off lb ltp (acc_idx acc)) as [off|] eqn:Hoff; cbn [mbind res_bind] in Hr; [|discriminate].
  destruct (btf__name_by_offset lb off) as [ln|] eqn:Hln; cbn [mbind res_bind] in Hr; [|discriminate].
  rewrite (type_at_vlen _ _ _ Hat) in Hr. cbn [mbind res_bind] in Hr.
  pose proof (ty_vlen_ok _ (proj1 Hat)).
  eapply (members_sound _ ltp ln id sid t p IH Hskip Ht Hat Hct); [| | | |exact Hs|exact Hr]; try lia; [|unfold acc_type; rewrite Hlt; cbn [mbind res_bind]; rewrite Hltp; reflexivity].
  unfold acc_field. rewrite Hlt. cbn [mbind res_bind]. rewrite Hltp. cbn [mbind res_bind]. rewrite Hoff.
  cbn [mbind res_bind]. rewrite Hln. reflexivity.
Qed.
End matching.

(** * 5. Matching all accessors *)

(** An access path in a target, for the local accessors [accs] that are
    left, from the type [id] on: the indices and the bit offset. A named
    accessor goes to the field of that name, the others into an array. *)
Inductive access (lb : btf) (ltys tys : list btype) (lstrs strs : list byte)
    : list bpf_core_accessor -> Z -> list Z -> Z -> Prop :=
| access_done id : access lb ltys tys lstrs strs [] id [] 0
| access_field acc accs id name p bits type path rest :
    acc_name acc <> None -> acc_field lb acc = Ok name -> field tys strs name id p bits type ->
    fits lb ltys tys lstrs strs acc type ->
    access lb ltys tys lstrs strs accs type path rest ->
    access lb ltys tys lstrs strs (acc :: accs) id (p ++ path) (bits + rest)
| access_elem acc accs id aid t elem eid path rest :
    acc_name acc = None -> skips tys id aid -> ty_at tys aid = Some t -> ty_kind t = BTF_KIND_ARRAY ->
    ty_words t !! 0%nat = Some elem -> acc_idx acc < nth 2 (ty_words t) 0 -> skips tys elem eid ->
    0 <= size_of tys eid -> access lb ltys tys lstrs strs accs eid path rest ->
    access lb ltys tys lstrs strs (acc :: accs) id (s32 (acc_idx acc) :: path)
      (acc_idx acc * size_of tys eid * 8 + rest).

(** The first accessor goes over an array of the root type. *)
Inductive root_access (lb : btf) (ltys tys : list btype) (lstrs strs : list byte)
    : list bpf_core_accessor -> Z -> list Z -> Z -> Prop :=
| root_elem acc accs id rid path rest :
    acc_name acc = None -> skips tys id rid -> 0 <= size_of tys rid ->
    access lb ltys tys lstrs strs accs rid path rest ->
    root_access lb ltys tys lstrs strs (acc :: accs) id (s32 (acc_idx acc) :: path)
      (acc_idx acc * size_of tys rid * 8 + rest).

Lemma size_chain_nonneg n tys : Forall ty_ok tys -> forall id,
  Forall (fun d => 0 <= d) (fst (size_chain n tys id)) /\
  (forall s, snd (size_chain n tys id) = Some s -> 0 <= s).
Proof.
  intros Hok. induction n as [|n IH]; intros id; [split; [constructor | discriminate]|]. cbn [size_chain].
  destruct (ty_at tys id) as [t|] eqn:Ht; [|split; [constructor | discriminate]].
  assert (ty_ok t) as Htok.
  { unfold ty_at in Ht. destruct (_ <=? _); [|discriminate]. rewrite Forall_lookup in Hok. eauto. }
  destruct (base_size t) as [s|] eqn:Hb.
  { split; [constructor|]. intros ? [= <-]. apply (base_size_ok t s Htok Hb). }
  destruct (refers (ty_kind t)); [apply IH|].
  destruct (Z.eqb_spec (ty_kind t) BTF_KIND_ARRAY) as [Hk|_]; [|split; [constructor | discriminate]].
  destruct (array_words t Htok Hk) as (e & i & d & Hw & _ & Hd).
  rewrite Hw. cbn [nth]. destruct (IH e) as [IH1 IH2]. destruct (size_chain n tys e) as [ds s].
  cbn [fst snd] in *. split; [constructor; [apply Hd | exact IH1] | exact IH2].
Qed.

Lemma prod_Z_nonneg ds : Forall (fun d => 0 <= d) ds -> 0 <= prod_Z ds.
Proof. unfold prod_Z. induction 1; cbn; [lia | apply Z.mul_nonneg_nonneg; assumption]. Qed.

Lemma size_of_bounds tys id : Forall ty_ok tys -> - 2 ^ 31 <= size_of tys id < 2 ^ 32.
Proof.
  intros Hok. split; [|pose proof (size_of_range tys id); unfold UINT32_MAX in *; lia].
  unfold size_of, E2BIG, EINVAL. destruct (size_chain_nonneg MAX_RESOLVE_DEPTH tys Hok id) as [H1 H2].
  destruct (size_chain _ _ _) as [ds [s|]]; cbn [fst snd] in *; destruct (dims_overflow _); try lia.
  destruct (_ <? _); [lia|]. pose proof (prod_Z_nonneg ds H1). specialize (H2 s eq_refl). nia.
Qed.

Lemma size_nonneg_s32 tys id :
  Forall ty_ok tys -> 0 <= s32 (size_of tys id) -> s32 (size_of tys id) = size_of tys id.
Proof. intros Hok. pose proof (size_of_bounds tys id Hok). unfold s32. wrap_lia. Qed.

Lemma skips_trans tys a b c : skips tys a b -> skips tys b c -> skips tys a c.
Proof. induction 1; intros Hc; [exact Hc | exact Hc | eapply skips_next; eauto]. Qed.

Lemma field_skips tys strs name id sid p b t :
  skips tys id sid -> field tys strs name sid p b t -> field tys strs name id p b t.
Proof.
  intros Hs Hf. assert (forall i m sid', has_member tys sid sid' i m -> has_member tys id sid' i m) as Hm.
  { intros i m sid' (ty & Hk & Hrest). exists ty. split; [eapply skips_trans; eassumption | exact Hrest]. }
  destruct Hf; [eapply field_here | eapply field_inside]; eauto.
Qed.

Lemma field_type_nonneg tys strs name id p b t :
  Forall ty_ok tys -> field tys strs name id p b t -> 0 <= t.
Proof.
  intros Hok. induction 1 as [id sid i m Hm|]; [|assumption]. destruct Hm as (ty & _ & Hty & _ & _ & Hm).
  assert (ty_ok ty) as Htok.
  { unfold ty_at in Hty. destruct (_ <=? _); [|discriminate]. rewrite Forall_lookup in Hok. eauto. }
  pose proof (ty_words_ok _ Htok) as Hws. rewrite Forall_lookup in Hws. unfold member_at in Hm.
  destruct (ty_words ty !! Z.to_nat (3 * i)); [|discriminate].
  destruct (ty_words ty !! Z.to_nat (3 * i + 1)) as [y|] eqn:Hy; [|discriminate].
  destruct (ty_words ty !! Z.to_nat (3 * i + 2)); [|discriminate]. injection Hm as <-. apply (Hws _ _ Hy).
Qed.

Lemma rep_types_ok b tys strs : represents b tys strs -> Forall ty_ok tys.
Proof.
  intros Hrep. rewrite Forall_lookup. intros i t Ht. destruct (rep_type _ _ _ Hrep (Z.of_nat i + 1) t) as (p & _ & Hat).
  - unfold ty_at. replace (1 <=? Z.of_nat i + 1) with true by (symmetry; apply Z.leb_le; lia).
    replace (Z.to_nat (Z.of_nat i + 1 - 1)) with i by lia. exact Ht.
  - apply Hat.
Qed.

Section match_all.
Context (lb tb : btf) (ltys tys : list btype) (lstrs strs : list byte).
Context (Hrepl : represents lb ltys lstrs) (Hrep : represents tb tys strs).
Context (Hun : unambiguous tys strs).

(** What a specification became when the path was added. *)
Definition extends (s s' : bpf_core_spec) (path : list Z) (rest : Z) : Prop :=
  cs_raw s' = cs_raw s ++ path /\ cs_bit_offset s' = u32 (cs_bit_offset s + rest).

Lemma extends_trans s s1 s2 p1 p2 b1 b2 :
  extends s s1 p1 b1 -> extends s1 s2 p2 b2 -> extends s s2 (p1 ++ p2) (b1 + b2).
Proof.
  intros [Hr1 Hb1] [Hr2 Hb2]. split; [rewrite Hr2, Hr1, app_assoc; reflexivity|].
  rewrite Hb2, Hb1. wrap_lia.
Qed.

Lemma extends_push sp s p b : extends s (mk_spec sp (cs_raw s ++ p) (u32 (cs_bit_offset s + b))) p b.
Proof. split; reflexivity. Qed.

(** An array element: the specification after it. *)
Lemma elem_sound accs acc eid s r s' :
  (0 <= eid) ->
  (forall s1, bits_ok s1 -> spec_match_loop lb tb accs false eid s1 = Ok (r, s') -> 0 < r ->
    exists path rest, access lb ltys tys lstrs strs accs eid path rest /\ extends s1 s' path rest) ->
  (if zlen (cs_raw s) =? BPF_CORE_SPEC_MAX_LEN then Ok (- E2BIG, s) else
   s ← push_acc (mk_acc eid (acc_idx acc) None) s;
   s ← push_raw (s32 (acc_idx acc)) s;
   sz ← btf__resolve_size tb eid;
   if s32 sz <? 0 then Ok (s32 sz, s) else
   spec_match_loop lb tb accs false eid (add_bits (acc_idx acc * s32 sz * 8) s)) = Ok (r, s') ->
  0 < r ->
  exists path rest, access lb ltys tys lstrs strs accs eid path rest /\ 0 <= size_of tys eid /\
    extends s s' (s32 (acc_idx acc) :: path) (acc_idx acc * size_of tys eid * 8 + rest).
Proof.
  intros Heid IH Hr Hpos. destruct (_ =? _); [injection Hr as <- _; discriminate|].
  destruct (push_acc _ s) as [s1|] eqn:H1; cbn [mbind res_bind] in Hr; [|discriminate].
  destruct (push_raw _ s1) as [s2|] eqn:H2; cbn [mbind res_bind] in Hr; [|discriminate].
  apply push_acc_eq in H1 as ->. apply push_raw_eq in H2 as ->.
  pose proof (resolve_size_value tb tys strs eid Hrep Heid) as Hres.
  pose proof (size_nonneg_s32 tys eid (rep_types_ok _ _ _ Hrep)) as Hsz.
  remember (size_of tys eid) as sz eqn:Heq. clear Heq.
  apply bind_Ok_inv in Hr as (x & Ex & Hr). rewrite Hres in Ex. injection Ex as <-.
  destruct (Z.ltb_spec (s32 sz) 0) as [Hneg|H].
  { injection Hr as <- _. destruct (Z.lt_asymm _ _ Hneg Hpos). }
  specialize (Hsz H). rewrite Hsz in Hr, H. unfold add_bits in Hr. cbn [cs_spec cs_raw cs_bit_offset] in Hr.
  destruct (IH _ (bits_ok_u32 _ _ _) Hr Hpos) as (path & rest & Ha & Hx).
  exists path, rest. split; [exact Ha|]. split; [exact H|].
  change (s32 (acc_idx acc) :: path) with ([s32 (acc_idx acc)] ++ path).
  exact (extends_trans _ _ _ _ _ _ _ (extends_push _ _ _ _) Hx).
Qed.

Lemma match_loop_sound accs : forall id s r s',
  0 <= id -> bits_ok s -> spec_match_loop lb tb accs false id s = Ok (r, s') -> 0 < r ->
  exists path rest, access lb ltys tys lstrs strs accs id path rest /\ extends s s' path rest.
Proof.
  induction accs as [|acc accs IH]; intros id s r s' Hid Hs Hr Hpos; cbn [spec_match_loop] in Hr.
  { injection Hr as _ <-. exists [], 0. split; [constructor|]. split; [rewrite app_nil_r; reflexivity|].
    unfold bits_ok in Hs. wrap_lia. }
  destruct (skip_mods_and_typedefs tb id) as [[p sid]|] eqn:Hsk; cbn [mbind res_bind] in Hr; [|discriminate].
  destruct (skip_sound tb tys strs Hrep id p sid Hid Hsk) as [Hp Hskip].
  pose proof (points_nonneg tb tys p sid Hp) as Hsid.
  destruct (acc_name acc) as [nm|] eqn:Hacc.
  - destruct (bpf_core_match_member _ _ _ _ _ _) as [[[found s1] next]|] eqn:Hm; cbn [mbind res_bind] in Hr; [|discriminate].
    pose proof (match_member_sound lb tb ltys tys lstrs strs Hrepl Hrep Hun acc _ _ _ _ _ Hsid Hs Hm) as [_ Hf].
    destruct (Z.leb_spec found 0); [injection Hr as <- _; lia|].
    destruct (Hf ltac:(lia)) as (j & q & b & ty & a & (name & Hname & Hfield) & _ & -> & Hfits & ->).
    pose proof (field_type_nonneg _ _ _ _ _ _ _ (rep_types_ok _ _ _ Hrep) Hfield) as Hty.
    destruct (IH _ _ _ _ Hty (bits_ok_u32 _ _ _) Hr Hpos) as (path & rest & Ha & Hx).
    exists ((j :: q) ++ path), (b + rest). split.
    + eapply access_field; [congruence | exact Hname | eapply field_skips; eassumption | exact Hfits | exact Ha].
    + exact (extends_trans _ _ _ _ _ _ _ (extends_push _ _ _ _) Hx).
  - destruct (btf_is BTF_KIND_ARRAY tb p) as [arr|] eqn:Harr; cbn [mbind res_bind] in Hr; [|discriminate].
    destruct arr; cbn [negb] in Hr; [|injection Hr as <- _; lia].
    destruct Hp as [[-> ->]|(t & Ht & Hat)]; [discriminate|].
    unfold btf_is in Harr. rewrite (type_at_kind _ _ _ Hat) in Harr. cbn [mbind res_bind] in Harr.
    injection Harr as Harr. apply Z.eqb_eq in Harr.
    destruct (array_words t (proj1 Hat) Harr) as (e & i & d & Hw & He & Hd).
    assert (array_nelems tb p = Ok d) as Hnel by (apply (type_at_word tb p t 2 d Hat); rewrite Hw; reflexivity).
    assert (array_type tb p = Ok e) as Hel by (apply (type_at_word tb p t 0 e Hat); rewrite Hw; reflexivity).
    rewrite Hnel, Hel in Hr. cbn [mbind res_bind] in Hr.
    destruct (Z.leb_spec d (acc_idx acc)); [injection Hr as <- _; lia|].
    destruct (skip_mods_and_typedefs tb e) as [[ep eid]|] eqn:Hske; cbn [mbind res_bind] in Hr; [|discriminate].
    destruct (skip_sound tb tys strs Hrep e ep eid (proj1 He) Hske) as [Hep Heskip].
    pose proof (points_nonneg tb tys ep eid Hep) as Heid.
    destruct (elem_sound accs acc eid s r s' Heid (fun s1 Hs1 => IH eid s1 r s' Heid Hs1) Hr Hpos)
      as (path & rest & Ha & Hsz & Hx).
    exists (s32 (acc_idx acc) :: path), (acc_idx acc * size_of tys eid * 8 + rest). split; [|exact Hx].
    eapply access_elem; try eassumption; [rewrite Hw; reflexivity | rewrite Hw; cbn; lia].
Qed.

(** The whole specification, when the local one begins as the parser makes it. *)
Lemma spec_match_sound local id r s acc accs :
  cs_spec local = acc :: accs -> acc_name acc = None -> 0 <= id ->
  bpf_core_spec_match lb local tb id = Ok (r, s) -> 0 < r ->
  exists off, root_access lb ltys tys lstrs strs (cs_spec local) id (cs_raw s) off /\
    cs_bit_offset s = u32 off.
Proof.
  intros Hl Hacc Hid Hr Hpos. unfold bpf_core_spec_match in Hr. rewrite Hl in *. cbn [spec_match_loop] in Hr.
  destruct (skip_mods_and_typedefs tb id) as [[p sid]|] eqn:Hsk; cbn [mbind res_bind] in Hr; [|discriminate].
  destruct (skip_sound tb tys strs Hrep id p sid Hid Hsk) as [Hp Hskip].
  pose proof (points_nonneg tb tys p sid Hp) as Hsid. rewrite Hacc in Hr.
  destruct (elem_sound accs acc sid empty_spec r s Hsid
              (fun s1 Hs1 => match_loop_sound accs sid s1 r s Hsid Hs1) Hr Hpos)
    as (path & rest & Ha & Hsz & Hraw & Hbits).
  cbn [empty_spec cs_raw cs_bit_offset app] in Hraw, Hbits. rewrite Hraw. eexists. split; [|exact Hbits].
  apply (root_elem lb ltys tys lstrs strs acc accs id sid path rest); assumption.
Qed.
End match_all.

(** What the parser adds comes after what was there. *)
Lemma parse_fields_app b raw : forall id s r s',
  parse_fields b raw id s = Ok (r, s') -> exists rest, cs_spec s' = cs_spec s ++ rest.
Proof.
  assert (forall s s', cs_spec s' = cs_spec s -> exists rest, cs_spec s' = cs_spec s ++ rest) as Hsame.
  { intros s s' ->. exists []. rewrite app_nil_r. reflexivity. }
  assert (forall acc s s1 s', push_acc acc s = Ok s1 -> (exists rest, cs_spec s' = cs_spec s1 ++ rest) ->
    exists rest, cs_spec s' = cs_spec s ++ rest) as Hpush.
  { intros acc s s1 s' Hp [rest Hr]. apply push_acc_eq in Hp. subst s1. cbn in Hr.
    rewrite <- app_assoc in Hr. eauto. }
  induction raw as [|i raw IH]; intros id s r s' H; cbn [parse_fields] in H.
  { injection H as _ <-. apply Hsame. reflexivity. }
  repeat match type of H with
  | mbind _ _ = Ok _ =>
      apply bind_Ok_inv in H; let x := fresh "x" in let E := fresh "E" in destruct H as (x & E & H);
      try (destruct x as [? ?])
  | (if ?c then _ else _) = Ok _ => destruct c
  end;
  try match goal with Hp : push_acc _ _ = Ok _ |- _ => refine (Hpush _ _ _ s' Hp _) end;
  first [exact (IH _ _ _ _ H) | injection H as _ <-; apply Hsame; reflexivity].
Qed.

Lemma parse_head b id str local :
  bpf_core_spec_parse b id str = Ok (0, local) ->
  exists acc accs, cs_spec local = acc :: accs /\ acc_name acc = None.
Proof.
  unfold bpf_core_spec_parse. destruct str as [|c str]; [discriminate|]. destruct (decide _); [discriminate|].
  intros H. apply bind_Ok_inv in H as ([err raw] & _ & H).
  destruct (negb _) eqn:He; [injection H as -> _; discriminate|]. clear He.
  destruct raw as [|i raw]; [discriminate|].
  apply bind_Ok_inv in H as ([p rid] & _ & H). apply bind_Ok_inv in H as (s & Hs & H).
  apply bind_Ok_inv in H as (sz & _ & H). apply push_acc_eq in Hs as ->.
  destruct (Z.ltb_spec sz 0); [injection H as -> _; lia|].
  apply parse_fields_app in H as [rest H]. cbn in H. rewrite H. eauto.
Qed.

(** * 6. The claim and an example *)

(** C24: when [bpf_core_spec_match] answers that a candidate type of the
    kernel matches, the specification it made leads, in the types of the
    kernel, to the fields that the program named: every named step of the
    local access goes to the field of that name, also through embedded
    structures and unions, whose type may be read as the local field's; every
    other step goes to an element of an array within its bounds; the indices
    are those of that path, and the bit offset is the offset of the field
    there (in the 32 bits that hold it). The only assumption on the kernel's
    types is C's rule that a structure has no two fields of one name; the
    data may have cycles and names that are missing. *)
Theorem core_match_sound lb tb ltys tys lstrs strs type_id spec_str local targ_id r s :
  represents lb ltys lstrs -> represents tb tys strs -> unambiguous tys strs -> 0 <= targ_id ->
  bpf_core_spec_parse lb type_id spec_str = Ok (0, local) ->
  bpf_core_spec_match lb local tb targ_id = Ok (r, s) -> 0 < r ->
  exists off, root_access lb ltys tys lstrs strs (cs_spec local) targ_id (cs_raw s) off /\
    cs_bit_offset s = u32 off.
Proof.
  intros Hrepl Hrep Hun Hid Hparse. apply parse_head in Hparse as (acc & accs & Hl & Hacc).
  intros Hr Hpos. eapply spec_match_sound; eassumption.
Qed.

(** BTF data as it is once parsed, the types at [offs] in it. *)
Definition parsed (tys : list btype) (strs : list byte) (offs : list Z) : btf :=
  mk_btf (encode tys strs) (Some Void :: (Some <$> (At <$> offs)))
    (sizeof_btf_header + 4 * zlen (enc_types tys)) sizeof_btf_header (zlen tys) (1 + zlen tys)
    (zlen (encode tys strs)) (-1).

Lemma parsed_represents tys strs offs :
  Forall ty_ok tys -> strs_ok strs -> zlen tys < 2 ^ 31 ->
  h_str_len (parsed tys strs offs) = Ok (zlen strs) ->
  Forall2 (fun o t => words_at (encode tys strs) o (type_words t)) offs tys ->
  represents (parsed tys strs offs) tys strs.
Proof.
  intros Hok Hs Hn Hlen Hw. split; try assumption; try reflexivity.
  - intros id t Ht. unfold ty_at in Ht. destruct (Z.leb_spec 1 id) as [Hid|]; [|discriminate].
    destruct (Forall2_lookup_r _ _ _ _ _ Hw Ht) as (o & Ho & Hwo). exists (At o). split.
    + apply aget_Ok. split; [lia|]. cbn [parsed b_types].
      replace (Z.to_nat id) with (S (Z.to_nat (id - 1))) by lia.
      change ((Some <$> (At <$> offs)) !! Z.to_nat (id - 1) = Some (Some (At o))).
      rewrite !list_lookup_fmap, Ho. reflexivity.
    + rewrite Forall_lookup in Hok. split; [eauto|]. exists o. auto.
  - exists (le_bytes 2 BTF_MAGIC ++ [byte_of_Z BTF_VERSION; byte_of_Z 0] ++
      enc_words [sizeof_btf_header; 0; 4 * zlen (enc_types tys); 4 * zlen (enc_types tys); zlen strs] ++
      enc_words (enc_types tys)), []. split.
    + cbn [parsed b_data]. unfold encode. rewrite app_nil_r, <- !app_assoc. reflexivity.
    + rewrite !zlen_app, !zlen_enc_words. unfold zlen at 1 2 3. cbn [length].
      change (Z.of_nat (length (le_bytes 2 BTF_MAGIC))) with 2. cbn [parsed b_strings].
      unfold sizeof_btf_header. lia.
Qed.

(** The kernel's [struct task { struct { int state; }; int pid; }] and the
    program's [struct task___v1 { int pid; }], whose field is accessed. *)
Definition targ_strs : list byte :=
  NUL :: bytes_of "int" ++ NUL :: bytes_of "task" ++ NUL :: bytes_of "state" ++ NUL :: bytes_of "pid" ++ [NUL].
Definition targ_types : list btype :=
  [mk_btype 1 BTF_KIND_INT false 0 4 [32]; mk_btype 0 BTF_KIND_STRUCT false 1 4 [10; 1; 0];
   mk_btype 5 BTF_KIND_STRUCT false 2 8 [0; 2; 0; 16; 1; 32]].
Definition targ_btf : btf := parsed targ_types targ_strs [24; 40; 64].
Definition local_strs : list byte :=
  NUL :: bytes_of "int" ++ NUL :: bytes_of "task___v1" ++ NUL :: bytes_of "pid" ++ NUL :: bytes_of "0:0" ++ [NUL].
Definition local_types : list btype :=
  [mk_btype 1 BTF_KIND_INT false 0 4 [32]; mk_btype 5 BTF_KIND_STRUCT false 1 4 [15; 1; 0]].
Definition local_btf : btf := parsed local_types local_strs [24; 40].
Definition local_spec : bpf_core_spec :=
  mk_spec [mk_acc 2 0 None; mk_acc 2 0 (Some (24 + 4 * 10 + 15))] [0; 0] 0.

Ltac demo_types_ok := repeat (apply Forall_cons_2; [decide_ok|]); apply Forall_nil_2.
Ltac demo_strs_ok := split; [reflexivity|]; split; [reflexivity | vm_compute; discriminate].
Ltac demo_represented :=
  apply parsed_represents; [demo_types_ok | demo_strs_ok | reflexivity | vm_compute; reflexivity |];
  repeat (apply Forall2_cons; split; [vm_compute; reflexivity|]); constructor.

Lemma targ_represents : represents targ_btf targ_types targ_strs.
Proof. unfold targ_btf. demo_represented. Qed.
Lemma local_represents : represents local_btf local_types local_strs.
Proof. unfold local_btf. demo_represented. Qed.

Lemma skips_det tys a b c : skips tys a b -> skips tys a c -> b = c.
Proof.
  induction 1; inversion 1; subst; try reflexivity; try congruence;
    try match goal with H : ty_at _ 0 = Some _ |- _ => discriminate H end.
  apply IHskips. congruence.
Qed.

(** The members of the kernel's structures, and their fields. *)
Lemma targ_members id sid i m : has_member targ_types id sid i m -> skips targ_types id sid /\
  (sid = 2 /\ i = 0 /\ m = mk_member 10 1 0 \/ sid = 3 /\ i = 0 /\ m = mk_member 0 2 0 \/
   sid = 3 /\ i = 1 /\ m = mk_member 16 1 32).
Proof.
  intros (ty & Hs & Hty & Hc & Hi & Hm). split; [exact Hs|].
  apply ty_at_range in Hty as Hr. change (zlen targ_types) with 3 in Hr.
  assert (sid = 1 \/ sid = 2 \/ sid = 3) as [->|[->| ->]] by lia; injection Hty as <-; cbn in Hi.
  - discriminate.
  - replace i with 0 in * by lia. injection Hm as <-. auto.
  - assert (i = 0 \/ i = 1) as [->| ->] by lia; injection Hm as <-; auto 6.
Qed.

Lemma targ_fields name id p b t : field targ_types targ_strs name id p b t ->
  exists sid, skips targ_types id sid /\
    (sid = 2 /\ p = [0] /\ name = bytes_of "state" \/ sid = 3 /\ p = [0; 0] /\ name = bytes_of "state" \/
     sid = 3 /\ p = [1] /\ name = bytes_of "pid").
Proof.
  induction 1 as [id sid i m Hm Hn Hne|id sid i m p b t Hm Ha Hf (sid' & Hs' & IH)].
  - apply targ_members in Hm as [Hs Hm]. exists sid. split; [exact Hs|].
    destruct Hm as [(-> & -> & ->)|[(-> & -> & ->)|(-> & -> & ->)]]; injection Hn as <-; auto 8. destruct (Hne eq_refl).
  - apply targ_members in Hm as [Hs Hm]. exists sid. split; [exact Hs|].
    destruct Hm as [(-> & -> & ->)|[(-> & -> & ->)|(-> & -> & ->)]];
      try (destruct Ha as [Ha|Ha]; discriminate Ha).
    assert (sid' = 2) as -> by (eapply skips_det; [exact Hs' | eapply skips_here; reflexivity]).
    destruct IH as [(_ & -> & ->)|[(? & _)|(? & _)]]; [auto | discriminate..].
Qed.

Lemma targ_unambiguous : unambiguous targ_types targ_strs.
Proof.
  intros name id p b t p' b' t' H1 H2. apply targ_fields in H1 as (s1 & Hs1 & H1).
  apply targ_fields in H2 as (s2 & Hs2 & H2). rewrite (skips_det _ _ _ _ Hs1 Hs2) in H1.
  destruct H1 as [(-> & -> & ->)|[(-> & -> & ->)|(-> & -> & ->)]],
    H2 as [(? & -> & Hn)|[(? & -> & Hn)|(? & -> & Hn)]]; discriminate || reflexivity.
Qed.

Lemma core_match_sound_witness :
  exists s, bpf_core_spec_parse local_btf 2 (bytes_of "0:0") = Ok (0, local_spec) /\
    bpf_core_spec_match local_btf local_spec targ_btf 3 = Ok (1, s) /\ cs_raw s = [0; 1] /\
    cs_bit_offset s = 32 /\
    exists off, root_access local_btf local_types targ_types local_strs targ_strs (cs_spec local_spec) 3 (cs_raw s) off /\
      cs_bit_offset s = u32 off.
Proof.
  exists (mk_spec [mk_acc 3 0 None; mk_acc 3 1 (Some (24 + 4 * 19 + 16))] [0; 1] 32).
  split; [vm_compute; reflexivity|]. split; [vm_compute; reflexivity|]. split; [reflexivity|]. split; [reflexivity|].
  apply (core_match_sound local_btf targ_btf local_types targ_types local_strs targ_strs 2 (bytes_of "0:0") local_spec 3 1);
    [exact local_represents | exact targ_represents | exact targ_unambiguous | discriminate
    | vm_compute; reflexivity | vm_compute; reflexivity | reflexivity].
Defined.
