(* ===== verification/CoReCands.v ===== *)
(** The candidates of a CO-RE relocation, the block that holds them, and the
    instruction that a relocation patches. *)
From S2P Require Import Prelude CLib XdpLink LibbpfObj LibbpfLoad DemoSys XskProg HashMap Btf BtfSpec BtfProps BtfLookups BtfExt CoRe CoReProps.
#[local] Open Scope Z_scope.

(** * 1. Names *)

(** The name of a type, unless it has none. *)
Definition proper_name (strs : list byte) (t : btype) : option (list byte) :=
  match str_of strs (ty_name t) with Some [] => None | n => n end.

Lemma nonempty_name_spec b tys strs p t :
  represents b tys strs -> type_at b p t -> nonempty_name b p = Ok (proper_name strs t).
Proof.
  intros Hrep Hat. unfold nonempty_name, proper_name. rewrite (type_at_name _ _ _ Hat). cbn [mbind res_bind].
  destruct (name_cases b tys strs Hrep (ty_name t) (proj1 (ty_name_ok _ (proj1 Hat)))) as (name & -> & Hn).
  cbn [mbind res_bind]. destruct Hn as [(-> & [-> | ->])|(s & -> & -> & Hne & Hs)]; cbn [mbind res_bind]; [reflexivity..|].
  rewrite Hs. destruct s; [done | reflexivity].
Qed.

(** * 2. The search *)

(** The types from the id [i] on whose name is [name] up to its flavor. *)
Definition is_cand (strs name : list byte) (t : btype) : bool :=
  match proper_name strs t with Some n => same_essence name n | None => false end.
Fixpoint cand_ids (tys : list btype) (strs name : list byte) (i : Z) : list Z :=
  match tys with
  | [] => []
  | t :: tys => if is_cand strs name t then i :: cand_ids tys strs name (i + 1) else cand_ids tys strs name (i + 1)
  end.

(** The block with the ids never has less room than they need while it grows
    from [m] to [n] of them. *)
Definition room (usable : Z -> Z) (m n : nat) : Prop :=
  forall j, Z.of_nat m < j <= Z.of_nat n -> 4 * j <= usable j.

Lemma cand_ids_range tys strs name : forall i id,
  id ∈ cand_ids tys strs name i <->
  exists t, i <= id /\ tys !! Z.to_nat (id - i) = Some t /\ is_cand strs name t = true.
Proof.
  induction tys as [|t tys IH]; intros i id; cbn [cand_ids].
  { rewrite elem_of_nil. split; [tauto|]. intros (? & _ & H & _). discriminate. }
  assert (id ∈ cand_ids tys strs name (i + 1) <->
    exists t', i < id /\ (t :: tys) !! Z.to_nat (id - i) = Some t' /\ is_cand strs name t' = true) as IH'.
  { rewrite IH. split; intros (t' & Hi & Hl & Hc); exists t'; (split; [lia|]); (split; [|exact Hc]).
    - replace (Z.to_nat (id - i)) with (S (Z.to_nat (id - (i + 1)))) by lia. exact Hl.
    - replace (Z.to_nat (id - i)) with (S (Z.to_nat (id - (i + 1)))) in Hl by lia. exact Hl. }
  destruct (is_cand strs name t) eqn:Hc; rewrite ?elem_of_cons, IH'.
  - split; [intros [->|(t' & ? & ?)]|intros (t' & Hi & Hl & Hc')].
    + exists t. rewrite Z.sub_diag. auto with lia.
    + exists t'. auto with lia.
    + destruct (Z.eq_dec id i) as [->|]; [auto|]. right. exists t'. auto with lia.
  - split; intros (t' & Hi & Hl & Hc'); exists t'; [auto with lia|].
    destruct (Z.eq_dec id i) as [->|]; [|auto with lia]. rewrite Z.sub_diag in Hl. injection Hl as <-. congruence.
Qed.

Section cands.
Context {K : Type} `{BpfSysLaws K} (usable : Z -> Z).
Context (tb : btf) (tys : list btype) (strs : list byte) (Hrep : represents tb tys strs).

Lemma push_cand_room ids id : room usable (length ids) (S (length ids)) -> push_cand usable ids id = Ok (ids ++ [id]).
Proof.
  intros Hr. unfold push_cand. specialize (Hr (zlen ids + 1)).
  destruct (Z.ltb_spec (usable (zlen ids + 1)) (4 * (zlen ids + 1))); [|reflexivity].
  unfold zlen in *. lia.
Qed.

Lemma find_cands_loop_spec name tys' : forall pre k ids,
  tys = pre ++ tys' -> let cands := cand_ids tys' strs name (zlen pre + 1) in
  (room usable (length ids) (length ids + length cands) -> exists k',
    (find_cands_loop usable (length tys') k name tb (zlen pre + 1) ids = Ok (inr (ids ++ cands), k') \/
     find_cands_loop usable (length tys') k name tb (zlen pre + 1) ids = Ok (inl (- ENOMEM), k') /\ ~ always_alloc K)) /\
  (~ room usable (length ids) (length ids + length cands) -> always_alloc K ->
    find_cands_loop usable (length tys') k name tb (zlen pre + 1) ids = Err OutOfBounds).
Proof.
  induction tys' as [|t tys' IH]; intros pre k ids Htys cands.
  { cbn. split; [intros _; exists k; left; rewrite app_nil_r; reflexivity|]. intros Hn. destruct Hn. intros j. cbn. lia. }
  assert (tys = (pre ++ [t]) ++ tys') as Htys' by (rewrite <- app_assoc; exact Htys).
  assert (zlen (pre ++ [t]) + 1 = zlen pre + 1 + 1) as Hz by (rewrite zlen_app; reflexivity).
  cbn [length find_cands_loop].
  assert (ty_at tys (zlen pre + 1) = Some t) as Ht.
  { unfold ty_at. pose proof (zlen_nonneg pre). replace (1 <=? zlen pre + 1) with true by lia.
    rewrite Htys. unfold zlen. replace (Z.to_nat _) with (length pre) by lia. apply list_lookup_middle. reflexivity. }
  destruct (rep_by_id tb tys strs (zlen pre + 1) Hrep) as [[Hx _]|[[Hx _]|(t' & p & Ht' & -> & Hat)]];
    [pose proof (zlen_nonneg pre); lia | apply ty_at_range in Ht; lia | pose proof (zlen_nonneg pre); lia |].
  rewrite Ht in Ht'. injection Ht' as <-. cbn [or_fault mbind res_bind].
  rewrite (nonempty_name_spec tb tys strs p t Hrep Hat). cbn [mbind res_bind].
  subst cands. cbn [cand_ids]. unfold is_cand. specialize (IH (pre ++ [t])). rewrite Hz in IH. cbn zeta in IH.
  destruct (proper_name strs t) as [n|]; [|apply IH; exact Htys'].
  destruct (same_essence name n); [|apply IH; exact Htys'].
  pose proof (fun Ha : always_alloc K => Ha k) as Ha. destruct (sys_alloc k) as [[|] k1]; cbn [fst negb] in *.
  - cbn [length]. destruct (Z.leb_spec (4 * (zlen ids + 1)) (usable (zlen ids + 1))) as [Hroom|Hfull].
    + rewrite push_cand_room by (intros j Hj; replace j with (zlen ids + 1) by (unfold zlen; lia); exact Hroom).
      cbn [mbind res_bind]. destruct (IH k1 (ids ++ [zlen pre + 1]) Htys') as [IH1 IH2].
      rewrite <- app_assoc in IH1. rewrite length_app in IH1, IH2. cbn [length app] in IH1, IH2.
      assert (room usable (length ids) (length ids + S (length (cand_ids tys' strs name (zlen pre + 1 + 1)))) <->
              room usable (length ids + 1) (length ids + 1 + length (cand_ids tys' strs name (zlen pre + 1 + 1)))) as Hiff.
      { split; intros Hr j Hj; [apply Hr; lia|]. destruct (Z.eq_dec j (zlen ids + 1)) as [->|]; [exact Hroom|].
        apply Hr. unfold zlen in *. lia. }
      rewrite Hiff. split; assumption.
    + split; [intros Hr; exfalso; specialize (Hr (zlen ids + 1)); unfold zlen in *; lia|]. intros _ _.
      unfold push_cand. destruct (Z.ltb_spec (usable (zlen ids + 1)) (4 * (zlen ids + 1))); [reflexivity | lia].
  - split; [|intros _ Hal; discriminate (Ha Hal)]. intros _. exists k1. right. split; [reflexivity|].
    intros Hal. discriminate (Ha Hal).
Qed.

(** C27: [bpf_core_find_cands] lists exactly the types of the kernel whose
    name is the local type's up to flavor suffixes, in the order of their
    ids - if the block that [realloc] gives has room for them. The code asks
    for as many bytes as there are ids, so it writes beyond the block as soon
    as the allocator's blocks of [j] bytes hold less than [4 * j]: whether the
    search is safe depends on the allocator's rounding alone. *)
Theorem core_find_cands_spec lb ltys lstrs k local_type_id lt name :
  represents lb ltys lstrs -> ty_at ltys local_type_id = Some lt -> proper_name lstrs lt = Some name ->
  let cands := cand_ids tys strs name 1 in
  (room usable 0 (length cands) -> exists k',
    bpf_core_find_cands usable k lb local_type_id tb = Ok (inr cands, k') \/
    bpf_core_find_cands usable k lb local_type_id tb = Ok (inl (- ENOMEM), k') /\ ~ always_alloc K) /\
  (~ room usable 0 (length cands) -> always_alloc K ->
    bpf_core_find_cands usable k lb local_type_id tb = Err OutOfBounds).
Proof.
  intros Hrepl Hlt Hname cands. unfold bpf_core_find_cands. pose proof (ty_at_range _ _ _ Hlt) as Hr.
  destruct (rep_by_id lb ltys lstrs local_type_id Hrepl) as [[Hx _]|[[Hx _]|(t' & p & Ht' & -> & Hat)]]; try lia.
  rewrite Hlt in Ht'. injection Ht' as <-. cbn [mbind res_bind].
  rewrite (nonempty_name_spec lb ltys lstrs p lt Hrepl Hat), Hname. cbn [mbind res_bind].
  pose proof (fun Ha : always_alloc K => Ha k) as Ha. destruct (sys_alloc k) as [[|] k1]; cbn [fst negb] in *.
  - unfold btf__get_nr_types. rewrite (rep_nr _ _ _ Hrep). unfold zlen. rewrite Nat2Z.id.
    exact (find_cands_loop_spec name tys [] k1 [] eq_refl).
  - split; [|intros _ Hal; discriminate (Ha Hal)]. intros _. exists k1. right. split; [reflexivity|].
    intros Hal. discriminate (Ha Hal).
Qed.
End cands.

(** * 3. The candidates that match *)

(** The target [targ] that the candidates [ids] agree on: each of them was
    compared without an error, those that match have one bit offset, and
    the target is one of them, or none if none matches. *)
Definition agreed (lb tb : btf) (local : bpf_core_spec) (ids : list Z) (targ : option bpf_core_spec) : Prop :=
  (forall id, id ∈ ids -> exists e s, bpf_core_spec_match lb local tb id = Ok (e, s) /\ 0 <= e /\
    (e = 0 \/ exists t, targ = Some t /\ cs_bit_offset s = cs_bit_offset t)) /\
  (forall t, targ = Some t -> exists id e, id ∈ ids /\ bpf_core_spec_match lb local tb id = Ok (e, t) /\ 0 < e).

Lemma match_cands_spec lb local tb n : forall i j ids targ j' ids' targ',
  0 <= j <= i -> (Z.to_nat i + n = length ids)%nat ->
  match_cands n lb local tb i j ids targ = Ok (0, j', ids', targ') ->
  (forall id, id ∈ drop (Z.to_nat i) ids -> exists e s, bpf_core_spec_match lb local tb id = Ok (e, s) /\ 0 <= e /\
    (e = 0 \/ exists t, targ' = Some t /\ cs_bit_offset s = cs_bit_offset t)) /\
  (forall t, targ' = Some t -> targ = Some t \/
    targ = None /\ exists id e, id ∈ drop (Z.to_nat i) ids /\ bpf_core_spec_match lb local tb id = Ok (e, t) /\ 0 < e) /\
  (forall t, targ = Some t -> targ' = Some t).
Proof.
  induction n as [|n IH]; intros i j ids targ j' ids' targ' Hj Hlen Hr; cbn [match_cands] in Hr.
  { injection Hr as <- <- <-. rewrite drop_ge by lia. split; [intros id Hid; inversion Hid|]. auto. }
  destruct (aget ids i) as [id|] eqn:Hid; cbn [mbind res_bind] in Hr; [|discriminate].
  apply aget_Ok in Hid as [_ Hid]. rewrite (drop_S ids id (Z.to_nat i) Hid).
  replace (S (Z.to_nat i)) with (Z.to_nat (i + 1)) by lia.
  destruct (btf__type_by_id tb id) as [t0|]; cbn [mbind res_bind] in Hr; [|discriminate].
  destruct (or_fault NullDeref t0); cbn [mbind res_bind] in Hr; [|discriminate].
  destruct (bpf_core_spec_match lb local tb id) as [[e s]|] eqn:Hm; cbn [mbind res_bind] in Hr; [|discriminate].
  destruct (Z.ltb_spec e 0); [injection Hr as -> _ _ _; lia|].
  destruct (Z.eqb_spec e 0) as [->|He].
  { apply IH in Hr as (H1 & H2 & H3); [|lia | lia]. split; [|split; [|exact H3]].
    - intros id' [->|Hin]%elem_of_cons; [|auto]. exists 0, s. auto with lia.
    - intros t Ht. destruct (H2 t Ht) as [|(Hn & id' & e & Hin & ?)]; [auto|]. right. split; [exact Hn|].
      exists id', e. rewrite elem_of_cons. auto. }
  destruct (match targ with Some t => negb (cs_bit_offset s =? cs_bit_offset t) | None => false end) eqn:Hamb;
    [discriminate|].
  destruct (aget (cs_spec s) 0) as [a0|]; cbn [mbind res_bind] in Hr; [|discriminate].
  destruct (aset ids j (acc_type_id a0)) as [ids1|] eqn:Hset; cbn [mbind res_bind] in Hr; [|discriminate].
  apply aset_Ok_inv in Hset as [_ ->]. rewrite <- (length_insert ids (Z.to_nat j) (acc_type_id a0)) in Hlen.
  apply IH in Hr as (H1 & H2 & H3); [|lia | lia]. rewrite drop_insert_lt in H1, H2 by lia.
  split; [|split].
  - intros id' [->|Hin]%elem_of_cons; [|auto]. exists e, s. split; [exact Hm|]. split; [lia|]. right.
    destruct targ as [t|]; [|exists s; auto]. exists t. split; [auto|]. apply negb_false_iff, Z.eqb_eq in Hamb. exact Hamb.
  - intros t Ht. destruct (H2 t Ht) as [Heq|(Hn & _)]; [|destruct targ; discriminate].
    destruct targ as [t'|]; [auto|]. injection Heq as <-. right. split; [reflexivity|].
    exists id, e. rewrite elem_of_cons. auto with lia.
  - intros t ->. apply H3. reflexivity.
Qed.

Lemma match_cands_agreed lb local tb ids j ids' targ :
  match_cands (length ids) lb local tb 0 0 ids None = Ok (0, j, ids', targ) -> agreed lb tb local ids targ.
Proof.
  intros Hr. apply match_cands_spec in Hr as (H1 & H2 & _); [|lia | reflexivity]. split; [exact H1|].
  intros t Ht. destruct (H2 t Ht) as [|[_ Hx]]; [discriminate | exact Hx].
Qed.

(** * 4. The instruction that is patched *)

Definition patched (insns insns' : list bpf_insn) (i : Z) (v : Z) : Prop :=
  exists insn, insns !! Z.to_nat i = Some insn /\
    (BPF_CLASS (i_code insn) = BPF_ALU \/ BPF_CLASS (i_code insn) = BPF_ALU64) /\
    BPF_SRC (i_code insn) = BPF_K /\ insns' = <[Z.to_nat i := set_imm v insn]> insns.

(** The value for a relocation of a kind. *)
Definition reloc_value (tb : btf) (kind : bpf_field_info_kind) (targ : option bpf_core_spec) (v : Z) : Prop :=
  match targ with
  | None => v = if decide (kind = BPF_FIELD_EXISTS) then 0 else -1
  | Some t =>
      if decide (kind = BPF_FIELD_EXISTS) then v = 1
      else exists n validate, bpf_core_calc_field_relo tb kind t = Ok (0, n, validate) /\ v = s32 n
  end.

Lemma patch_insn_spec insns i expected v err insns' :
  patch_insn insns i expected v = Ok (err, insns') ->
  (err <> 0 -> insns' = insns) /\ (err = 0 -> patched insns insns' i (s32 v)).
Proof.
  unfold patch_insn. intros Hr. destruct (aget insns i) as [insn|] eqn:Hi; cbn [mbind res_bind] in Hr; [|discriminate].
  apply aget_Ok in Hi as [Hi0 Hi].
  destruct (_ || _) eqn:Hc; [|injection Hr as <- <-; split; [auto | discriminate]].
  destruct (Z.eqb_spec (BPF_SRC (i_code insn)) BPF_K) as [Hk|]; cbn [negb] in Hr;
    [|injection Hr as <- <-; split; [auto | discriminate]].
  destruct (match expected with Some _ => _ | None => _ end); [injection Hr as <- <-; split; [auto | discriminate]|].
  destruct (aset _ _ _) as [insns1|] eqn:Hs; cbn [mbind res_bind] in Hr; [|discriminate].
  injection Hr as <- <-. split; [done|]. intros _. apply aset_Ok_inv in Hs as [_ ->].
  apply orb_true_iff in Hc. rewrite !Z.eqb_eq in Hc. exists insn. auto.
Qed.

Lemma reloc_insn_spec lb tb insns r local targ err insns' :
  0 <= fr_insn_off r < 2 ^ 32 ->
  bpf_core_reloc_insn lb tb insns r local targ = Ok (err, insns') ->
  (err <> 0 -> insns' = insns) /\
  (err = 0 -> exists v, reloc_value tb (fr_kind r) targ v /\ fr_insn_off r mod 8 = 0 /\
    patched insns insns' (fr_insn_off r / 8) v).
Proof.
  intros Hoff. unfold bpf_core_reloc_insn, reloc_value.
  destruct (Z.eqb_spec (fr_insn_off r mod 8) 0) as [H8|]; cbn [negb];
    [|intros [= <- <-]; split; [auto | discriminate]].
  rewrite (s32_small (fr_insn_off r / 8)) by lia.
  assert (forall expected n e, patch_insn insns (fr_insn_off r / 8) expected n = Ok (e, insns') ->
    forall P : Z -> Prop, P (s32 n) -> (e <> 0 -> insns' = insns) /\
    (e = 0 -> exists v, P v /\ fr_insn_off r mod 8 = 0 /\ patched insns insns' (fr_insn_off r / 8) v)) as Hpatch.
  { intros expected n e Hp P HP. apply patch_insn_spec in Hp as [Hp1 Hp2]. split; [exact Hp1|]. eauto 6. }
  case_bool_decide as Hk.
  - intros Hr. apply (Hpatch _ _ _ Hr). destruct targ; rewrite decide_True by exact Hk; reflexivity.
  - destruct targ as [t|]; [|intros Hr; apply (Hpatch _ _ _ Hr); rewrite decide_False by exact Hk; reflexivity].
    intros Hr. apply bind_Ok_inv in Hr as ([[e1 n1] v1] & _ & Hr).
    destruct (Z.eqb_spec e1 0); cbn [negb] in Hr; [|injection Hr as <- <-; split; [auto | done]].
    apply bind_Ok_inv in Hr as ([[e2 n2] v2] & Hc & Hr).
    destruct (Z.eqb_spec e2 0) as [->|]; cbn [negb] in Hr; [|injection Hr as <- <-; split; [auto | done]].
    apply (Hpatch _ _ _ Hr). rewrite decide_False by exact Hk. eauto.
Qed.

(** No target means that nothing matched. *)
Lemma match_targ lb local tb n : forall i j ids targ err j' ids' targ',
  match_cands n lb local tb i j ids targ = Ok (err, j', ids', targ') ->
  targ' = None -> targ = None /\ j' = j.
Proof.
  induction n as [|n IH]; intros i j ids targ err j' ids' targ' Hr Ht; cbn [match_cands] in Hr.
  { injection Hr as _ <- _ <-. auto. }
  apply bind_Ok_inv in Hr as (id & _ & Hr). apply bind_Ok_inv in Hr as (t0 & _ & Hr).
  apply bind_Ok_inv in Hr as (t1 & _ & Hr). apply bind_Ok_inv in Hr as ([e s] & _ & Hr).
  destruct (e <? 0); [injection Hr as _ <- _ <-; auto|]. destruct (e =? 0); [eapply IH; eassumption|].
  destruct (match targ with Some _ => _ | None => _ end); [injection Hr as _ <- _ <-; auto|].
  apply bind_Ok_inv in Hr as (a & _ & Hr). apply bind_Ok_inv in Hr as (ids1 & _ & Hr).
  destruct (IH _ _ _ _ _ _ _ _ Hr Ht) as [Hx _]. destruct targ; discriminate.
Qed.
Lemma match_none lb local tb ids j ids' :
  match_cands (length ids) lb local tb 0 0 ids None = Ok (0, j, ids', None) -> j = 0.
Proof. intros Hr. apply (match_targ _ _ _ _ _ _ _ _ _ _ _ _ Hr eq_refl). Qed.

Lemma get_cands_err {K} `{BpfSys K} usable (k : K) c lb id tb err c1 k1 :
  get_cands usable k c lb id tb = Ok (inl err, c1, k1) -> err <> 0.
Proof.
  unfold get_cands. intros Hr. apply bind_Ok_inv in Hr as ([p|] & _ & Hr); [discriminate|].
  apply bind_Ok_inv in Hr as ([[e|ids] k2] & Hf & Hr).
  - injection Hr as <- _ _. unfold bpf_core_find_cands in Hf.
    apply bind_Ok_inv in Hf as ([t|] & _ & Hf); [|injection Hf as <- _; discriminate].
    apply bind_Ok_inv in Hf as ([name|] & _ & Hf); [|injection Hf as <- _; discriminate].
    destruct (sys_alloc k) as [[|] k3]; cbn [negb] in Hf; [|injection Hf as <- _; discriminate].
    revert Hf. generalize k3, 1, (@nil Z). induction (Z.to_nat _) as [|n IH]; intros k4 i ids Hf; cbn [find_cands_loop] in Hf;
      [discriminate|].
    apply bind_Ok_inv in Hf as (t0 & _ & Hf). apply bind_Ok_inv in Hf as (t1 & _ & Hf).
    apply bind_Ok_inv in Hf as ([n1|] & _ & Hf); [|eapply IH, Hf]. destruct (same_essence name n1); [|eapply IH, Hf].
    destruct (sys_alloc k4) as [[|] k5]; cbn [negb] in Hf; [|injection Hf as <- _; discriminate].
    apply bind_Ok_inv in Hf as (ids1 & _ & Hf). eapply IH, Hf.
  - destruct (sys_alloc k2) as [b1 k3]. destruct (sys_alloc k3) as [b2 k4].
    apply bind_Ok_inv in Hr as ([[e x] m] & _ & Hr).
    destruct (Z.eqb_spec e 0); cbn [negb] in Hr; [discriminate|]. injection Hr as <- _ _. assumption.
Qed.

(** C26: a CO-RE relocation changes at most one field of one instruction. When
    [bpf_core_reloc_field] fails, the program is as it was. When it succeeds,
    the instruction at the relocation's offset, an arithmetic instruction
    with an immediate operand, got a new immediate value and nothing else
    changed; the value is the one computed for the target on which all
    matching candidates agree: the field's offset, size or shift there, or 1
    or 0 for whether the field exists, or -1 where no candidate matches and
    the loader was told not to refuse that. *)
Theorem core_reloc_field_spec {K} `{BpfSys K} (usable : Z -> Z) (k : K) relaxed insns r lb tb c err insns' c' k' :
  0 <= fr_insn_off r < 2 ^ 32 ->
  bpf_core_reloc_field usable k relaxed insns r lb tb c = Ok (err, insns', c', k') ->
  (err <> 0 -> insns' = insns) /\
  (err = 0 -> exists str local p c1 k1 ids targ v,
    bpf_core_spec_parse lb (fr_type_id r) str = Ok (0, local) /\
    get_cands usable k c lb (fr_type_id r) tb = Ok (inr p, c1, k1) /\ cc_lists c1 !! p = Some ids /\
    agreed lb tb local ids targ /\
    (targ = None -> relaxed = true \/ fr_kind r = BPF_FIELD_EXISTS) /\
    reloc_value tb (fr_kind r) targ v /\ fr_insn_off r mod 8 = 0 /\
    patched insns insns' (fr_insn_off r / 8) v).
Proof.
  intros Hoff Hr. unfold bpf_core_reloc_field in Hr.
  apply bind_Ok_inv in Hr as ([t|] & _ & Hr); [|injection Hr as <- <- _ _; split; [auto | discriminate]].
  apply bind_Ok_inv in Hr as ([name|] & _ & Hr); [|injection Hr as <- <- _ _; split; [auto | discriminate]].
  apply bind_Ok_inv in Hr as (spec_ptr & _ & Hr). apply bind_Ok_inv in Hr as ([|] & _ & Hr);
    [injection Hr as <- <- _ _; split; [auto | discriminate]|].
  apply bind_Ok_inv in Hr as (str & _ & Hr). apply bind_Ok_inv in Hr as ([e1 local] & Hparse & Hr).
  destruct (Z.eqb_spec e1 0) as [->|]; cbn [negb] in Hr; [|injection Hr as <- <- _ _; split; [auto | discriminate]].
  apply bind_Ok_inv in Hr as ([[p c1] k1] & Hcands & Hr).
  destruct p as [e2|p].
  { injection Hr as <- <- _ _. split; [auto|]. intros ->. destruct (get_cands_err _ _ _ _ _ _ _ _ _ Hcands eq_refl). }
  apply bind_Ok_inv in Hr as (ids & Hids & Hr). apply or_fault_Ok in Hids.
  apply bind_Ok_inv in Hr as ([[[e3 j] ids'] targ] & Hmatch & Hr). cbv zeta in Hr.
  destruct (Z.eqb_spec e3 0) as [->|]; cbn [negb] in Hr; [|injection Hr as <- <- _ _; split; [auto | done]].
  destruct (_ && negb relaxed && _) eqn:Hnone; [injection Hr as <- <- _ _; split; [auto | discriminate]|].
  apply bind_Ok_inv in Hr as ([e4 insns1] & Hinsn & Hr). injection Hr as <- <- _ _.
  apply (reloc_insn_spec _ _ _ _ _ _ _ _ Hoff) in Hinsn as [Hsame Hpatch].
  destruct (Z.eqb_spec e4 0) as [->|]; cbn [negb]; [|split; [auto | discriminate]].
  split; [done|]. intros _. destruct (Hpatch eq_refl) as (v & Hv & H8 & Hp).
  exists str, local, p, c1, k1, ids, targ, v. split; [exact Hparse|]. split; [exact Hcands|].
  split; [exact Hids|]. split; [exact (match_cands_agreed _ _ _ _ _ _ _ Hmatch)|]. split; [|auto].
  intros ->. destruct (Z.eqb_spec j 0) as [->|Hj]; [|destruct (Hj (match_none _ _ _ _ _ _ Hmatch))].
  destruct relaxed; [auto|]. right. cbn [andb negb] in Hnone.
  apply negb_false_iff, bool_decide_eq_true in Hnone. exact Hnone.
Qed.

(** * 5. An example *)

(** The GNU C library's [malloc]: blocks of at least 24 bytes that grow in
    steps of 16. An allocator that gives no more than asked for. *)
Definition glibc_usable (n : Z) : Z := Z.max 24 ((n + 8 + 15) / 16 * 16 - 8).
Definition exact_usable (n : Z) : Z := n.

(** Six ids fit, the seventh is written beyond the block. *)
Lemma glibc_room n : room glibc_usable 0 n <-> (n <= 6)%nat.
Proof.
  unfold room, glibc_usable. split; intros Hn; [|lia]. destruct (decide (n <= 6)%nat); [assumption|].
  specialize (Hn 7). lia.
Qed.
(** Not even one fits into a block of its number of bytes. *)
Lemma exact_room n : room exact_usable 0 n <-> n = 0%nat.
Proof.
  unfold room, exact_usable. split; intros Hn; [|lia]. destruct (decide (n = 0)%nat); [assumption|].
  specialize (Hn 1). lia.
Qed.

Lemma core_find_cands_spec_witness :
  bpf_core_find_cands glibc_usable demo_start local_btf 2 targ_btf = Ok (inr [3], demo_start) /\
  (exists k', bpf_core_find_cands glibc_usable demo_start local_btf 2 targ_btf = Ok (inr [3], k') \/
    bpf_core_find_cands glibc_usable demo_start local_btf 2 targ_btf = Ok (inl (- ENOMEM), k') /\ ~ always_alloc demo) /\
  bpf_core_find_cands exact_usable demo_start local_btf 2 targ_btf = Err OutOfBounds.
Proof.
  split; [vm_compute; reflexivity|]. split.
  - destruct (core_find_cands_spec glibc_usable targ_btf targ_types targ_strs targ_represents local_btf local_types
      local_strs demo_start 2 (mk_btype 5 BTF_KIND_STRUCT false 1 4 [15; 1; 0]) (bytes_of "task___v1")
      local_represents eq_refl eq_refl) as [Hok _]. apply Hok. apply glibc_room. vm_compute. lia.
  - destruct (core_find_cands_spec exact_usable targ_btf targ_types targ_strs targ_represents local_btf local_types
      local_strs demo_start 2 (mk_btype 5 BTF_KIND_STRUCT false 1 4 [15; 1; 0]) (bytes_of "task___v1")
      local_represents eq_refl eq_refl) as [_ Hbad]. apply Hbad; [|intros k; reflexivity].
    intros Hr. apply exact_room in Hr. discriminate Hr.
Defined.

(** [r1 = 0], to be relocated to the byte offset of the field [pid]. *)
Definition demo_insns : list bpf_insn := [mk_insn 0xb7 1 0 0 0].
Definition demo_reloc : bpf_field_reloc := mk_field_reloc 0 2 19 BPF_FIELD_BYTE_OFFSET.

Lemma core_reloc_field_spec_witness :
  exists c' k',
    bpf_core_reloc_field glibc_usable demo_start false demo_insns demo_reloc local_btf targ_btf
      (mk_cache hashmap__init []) = Ok (0, [mk_insn 0xb7 1 0 0 4], c', k') /\
    exists v, patched demo_insns [mk_insn 0xb7 1 0 0 4] 0 v.
Proof.
  destruct (bpf_core_reloc_field glibc_usable demo_start false demo_insns demo_reloc local_btf targ_btf
      (mk_cache hashmap__init [])) as [[[[err insns] c'] k']|] eqn:Hr; [|vm_compute in Hr; discriminate Hr].
  assert (err = 0 /\ insns = [mk_insn 0xb7 1 0 0 4]) as [-> ->]
    by (vm_compute in Hr; injection Hr as <- <- _ _; split; reflexivity).
  exists c', k'. split; [reflexivity|].
  destruct (core_reloc_field_spec glibc_usable demo_start false demo_insns demo_reloc local_btf targ_btf
      (mk_cache hashmap__init []) 0 [mk_insn 0xb7 1 0 0 4] c' k' ltac:(vm_compute; split; [discriminate | reflexivity]) Hr)
    as [_ Hok]. destruct (Hok eq_refl) as (str & local & p & c1 & k1 & ids & targ & v & _ & _ & _ & _ & _ & _ & _ & Hp).
  exists v. exact Hp.
Defined.
