(* ===== verification/CoReTotal.v ===== *)
(** CO-RE matching gives an answer: on well-formed types every search of
    [CoRe] ends without a fault, and a target that does not match has no
    access path of the kind the program asks for. *)
From S2P Require Import Prelude CLib XdpLink LibbpfObj LibbpfLoad DemoSys XskProg HashMap Btf BtfSpec BtfProps BtfLookups BtfExt CoRe CoReProps CoReCands.
#[local] Open Scope Z_scope.

(** * 1. Chains that end *)

Section chains.
Context {A : Type} (next : A -> A -> Prop) (Hdet : forall x y z, next x y -> next x z -> y = z).

(** [x] is [n] steps from the end of its chain. *)
Inductive steps : nat -> A -> Prop :=
| steps_end x : (forall y, ~ next x y) -> steps 0 x
| steps_more n x y : next x y -> steps n y -> steps (S n) x.

Lemma steps_det n m x : steps n x -> steps m x -> n = m.
Proof.
  intros Hn. revert m. induction Hn as [x Hx|n x y Hy Hn IH]; intros m Hm; inversion Hm as [? Hx'|? ? y' Hy' Hm']; subst.
  - reflexivity.
  - destruct (Hx _ Hy').
  - destruct (Hx' _ Hy).
  - f_equal. apply IH. rewrite (Hdet _ _ _ Hy Hy'). exact Hm'.
Qed.

(** A chain that ends visits nothing twice, so it is no longer than its domain. *)
Lemma steps_bound (dom : list A) n x :
  (forall x y, next x y -> x ∈ dom) -> steps n x -> (n <= length dom)%nat.
Proof.
  intros Hdom Hn. assert (exists l, length l = n /\ NoDup l /\ forall y, y ∈ l -> y ∈ dom /\ exists m, (m <= n)%nat /\ steps m y)
    as (l & <- & Hnd & Hl).
  { induction Hn as [x Hx|n x y Hy Hn (l & Hlen & Hnd & Hl)].
    - exists []. split; [reflexivity|]. split; [constructor|]. intros y Hy. inversion Hy.
    - exists (x :: l). split; [cbn; lia|]. split.
      + constructor; [|exact Hnd]. intros Hin. destruct (Hl x Hin) as [_ (m & Hm & Hst)].
        pose proof (steps_det _ _ _ Hst (steps_more _ _ _ Hy Hn)). lia.
      + intros z [->|Hz]%elem_of_cons; [split; [eauto|]; exists (S n); split; [lia|]; econstructor; eassumption|].
        destruct (Hl z Hz) as [Hd (m & Hm & Hst)]. split; [exact Hd|]. exists m. split; [lia | exact Hst]. }
  apply submseteq_length, NoDup_submseteq; [exact Hnd|]. intros y Hy. apply Hl, Hy.
Qed.
End chains.

(** * 2. Well-formed types *)

(** A modifier and the type it modifies; an array and its element; a
    structure and one that is embedded in it. *)
Definition modifies (tys : list btype) (id id' : Z) : Prop :=
  exists t, ty_at tys id = Some t /\ is_mod_or_typedef t = true /\ id' = ty_size t.
Definition element (tys : list btype) (id id' : Z) : Prop :=
  exists t, resolved tys id t /\ ty_kind t = BTF_KIND_ARRAY /\ ty_words t !! 0%nat = Some id'.
Definition embeds (tys : list btype) (strs : list byte) (id id' : Z) : Prop :=
  exists sid i m, has_member tys id sid i m /\ anonymous strs m /\ id' = m_type m.

(** No more than [n] structures are embedded in each other. *)
Fixpoint nests (tys : list btype) (strs : list byte) (n : nat) (id : Z) : Prop :=
  forall id', embeds tys strs id id' -> match n with O => False | S n => nests tys strs n id' end.

(** Types as a compiler emits them: every reference is to a type or [void],
    names are in the strings, and neither modifiers nor arrays nor embedded
    structures go round in circles. *)
Record wf_types (tys : list btype) (strs : list byte) (depth : nat) : Prop := {
  wf_skips id : 0 <= id <= zlen tys -> exists sid, skips tys id sid;
  wf_member id sid i m : has_member tys id sid i m -> m_type m <= zlen tys;
  wf_element id id' : element tys id id' -> id' <= zlen tys;
  wf_name id t : ty_at tys id = Some t -> is_Some (str_of strs (ty_name t));
  wf_arrays id : 0 <= id <= zlen tys -> exists n, steps (element tys) n id;
  wf_nests id : 0 <= id <= zlen tys -> nests tys strs depth id
}.

Lemma skips_range tys id sid : skips tys id sid -> sid = 0 \/ exists t, ty_at tys sid = Some t /\ is_mod_or_typedef t = false.
Proof. induction 1; eauto. Qed.

Lemma skips_from tys id sid : skips tys id sid -> sid <> 0 -> 1 <= id <= zlen tys.
Proof.
  induction 1 as [|id t Ht|id t id' Ht]; intros Hn; [done | apply ty_at_range in Ht; exact Ht ..].
Qed.

Lemma resolved_det tys id t t' : resolved tys id t -> resolved tys id t' -> t = t'.
Proof.
  intros (s & Hs & Ht) (s' & Hs' & Ht'). rewrite (skips_det _ _ _ _ Hs Hs') in Ht. congruence.
Qed.

Lemma element_det tys x y z : element tys x y -> element tys x z -> y = z.
Proof.
  intros (t & Ht & _ & Hy) (t' & Ht' & _ & Hz). rewrite (resolved_det _ _ _ _ Ht Ht') in Hy. congruence.
Qed.
Lemma modifies_det tys x y z : modifies tys x y -> modifies tys x z -> y = z.
Proof. intros (t & Ht & _ & ->) (t' & Ht' & _ & ->). congruence. Qed.

Definition type_ids (tys : list btype) : list Z := seqZ 1 (zlen tys).
Lemma length_type_ids tys : length (type_ids tys) = length tys.
Proof. unfold type_ids, zlen. rewrite length_seqZ. lia. Qed.
Lemma elem_of_type_ids tys id t : ty_at tys id = Some t -> id ∈ type_ids tys.
Proof. intros Ht%ty_at_range. apply elem_of_seqZ. lia. Qed.

Section reading.
Context (b : btf) (tys : list btype) (strs : list byte) (Hrep : represents b tys strs).

Lemma points_by_id id p : points b tys p id -> exists q, btf__type_by_id b id = Ok (Some q) /\ points b tys q id.
Proof.
  intros [[-> ->]|(t & Ht & Hat)].
  - destruct (rep_by_id b tys strs 0 Hrep) as [[Hx _]|[[_ Hx]|(t & q & Ht & _)]]; [lia| |..].
    + pose proof (zlen_nonneg tys). lia.
    + exists Void. split; [exact Hx | left; auto].
    + discriminate.
  - pose proof (ty_at_range _ _ _ Ht). destruct (rep_by_id b tys strs id Hrep) as [[Hx _]|[[Hx _]|(t' & q & Ht' & Hx & Hq)]]; try lia.
    exists q. split; [exact Hx | right; eauto].
Qed.

Lemma skips_steps id sid : skips tys id sid -> exists n, steps (modifies tys) n id.
Proof.
  induction 1 as [|id t Ht Hm|id t id' Ht Hm _ (n & IH)].
  - exists 0%nat. constructor. intros y (t & Ht & _). discriminate.
  - exists 0%nat. constructor. intros y (t' & Ht' & Hm' & _). congruence.
  - exists (S n). econstructor; [exists t; eauto | exact IH].
Qed.

Lemma skip_loop_total id sid : skips tys id sid -> forall fuel n p,
  steps (modifies tys) n id -> (n < fuel)%nat -> points b tys p id ->
  exists q, skip_loop fuel b (Some p) id = Ok (q, sid) /\ points b tys q sid.
Proof.
  induction 1 as [|id t Ht Hm|id t id' Ht Hm Hs IH]; intros [|fuel] n p Hn Hf Hp; try lia;
    cbn [skip_loop or_fault mbind res_bind].
  - destruct Hp as [[_ ->]|(t & Ht & _)]; [|discriminate]. exists Void. split; [reflexivity | left; auto].
  - destruct Hp as [[-> _]|(t' & Ht' & Hat)]; [discriminate|]. replace t' with t in * by congruence.
    rewrite (type_at_kind _ _ _ Hat). cbn [mbind res_bind]. fold (is_mod_or_typedef t). rewrite Hm.
    exists p. split; [reflexivity | right; eauto].
  - destruct Hp as [[-> _]|(t' & Ht' & Hat)]; [discriminate|]. replace t' with t in * by congruence.
    rewrite (type_at_kind _ _ _ Hat). cbn [mbind res_bind]. fold (is_mod_or_typedef t). rewrite Hm.
    rewrite (type_at_type _ _ _ Hat). cbn [mbind res_bind].
    inversion Hn as [? Hend|m ? y Hy Hm']; subst; [destruct (Hend (ty_size t)); exists t; auto|].
    replace y with (ty_size t) in * by (destruct Hy as (t2 & ? & _ & ->); congruence).
    assert (exists q, points b tys q (ty_size t)) as (q0 & Hq0).
    { inversion Hs; subst; try (destruct (rep_type _ _ _ Hrep _ _ H) as (q & _ & Hq); exists q; right; eauto).
      exists Void. left. auto. }
    destruct (points_by_id _ _ Hq0) as (q & -> & Hq). cbn [mbind res_bind].
    eapply IH; [exact Hm' | lia | exact Hq].
Qed.

(** [skip_mods_and_typedefs] ends, at the type without modifiers. *)
Lemma skip_total id sid : skips tys id sid ->
  exists q, skip_mods_and_typedefs b id = Ok (q, sid) /\ points b tys q sid.
Proof.
  intros Hs. destruct (skips_steps id sid Hs) as [n Hn]. unfold skip_mods_and_typedefs.
  assert (exists q, points b tys q id) as (q0 & Hq0).
  { inversion Hs; subst; try (destruct (rep_type _ _ _ Hrep _ _ H) as (q & _ & Hq); exists q; right; eauto).
    exists Void. left. auto. }
  destruct (points_by_id _ _ Hq0) as (q & -> & Hq). cbn [mbind res_bind].
  eapply skip_loop_total; [exact Hs | exact Hn | | exact Hq].
  rewrite (rep_nr _ _ _ Hrep). enough (n <= length (type_ids tys))%nat by (rewrite length_type_ids in H; unfold zlen; lia).
  eapply steps_bound; [apply modifies_det | | exact Hn].
  intros x y (t & Ht & _). eapply elem_of_type_ids, Ht.
Qed.
End reading.

(** * 3. Compatibility is decided *)

Section compat.
Context (lb tb : btf) (ltys tys : list btype) (lstrs strs : list byte) (ldepth depth : nat).
Context (Hrepl : represents lb ltys lstrs) (Hrep : represents tb tys strs).
Context (Hwfl : wf_types ltys lstrs ldepth) (Hwf : wf_types tys strs depth).

Lemma name_total b ts ss d p t : represents b ts ss -> wf_types ts ss d -> type_at b p t ->
  (exists id, ty_at ts id = Some t) -> exists s, type_name b p = Ok s /\ str_of ss (ty_name t) = Some s.
Proof.
  intros Hr Hw Hat [id Hid]. destruct (wf_name _ _ _ Hw id t Hid) as [s Hs]. unfold type_name.
  rewrite (type_at_name _ _ _ Hat). cbn [mbind res_bind].
  pose proof (name_spec b ts ss (ty_name t) Hr (proj1 (ty_name_ok _ (proj1 Hat)))) as Hn. rewrite Hs in Hn.
  destruct Hn as (o & -> & Ho). exists s. split; [exact Ho | exact Hs].
Qed.

Lemma compat_left l t : compatible ltys lstrs tys strs l t ->
  exists lt, resolved ltys l lt /\ exists ty, resolved tys t ty.
Proof. destruct 1; eauto. Qed.

Definition decided (l t : Z) (r : res Z) : Prop :=
  r = Ok 1 \/ r = Ok 0 /\ ~ compatible ltys lstrs tys strs l t.

(** A proof of compatibility, seen at the types that are known. *)
Ltac invert_compat Hc Hl Ht :=
  inversion Hc as [? ? ? ? Hl' Ht' ? ?|? ? ? ? Hl' Ht' ? ?|? ? ? ? ? ? Hl' Ht' ? ? ? ? ?
                  |? ? ? ? ? ? Hl' Ht' ? ? ? ? ? ?|? ? ? ? ? ? ? ? ? ? Hl' Ht' ? ? ? ? ?]; subst;
  pose proof (resolved_det _ _ _ _ Hl Hl'); pose proof (resolved_det _ _ _ _ Ht Ht'); subst.

Ltac no_compat :=
  solve [tauto | congruence
        | unfold BTF_KIND_PTR, BTF_KIND_FWD, BTF_KIND_ENUM, BTF_KIND_INT, BTF_KIND_ARRAY in *; lia].

Lemma types_decided recur l t lt ty p q :
  resolved ltys l lt -> type_at lb p lt -> resolved tys t ty -> type_at tb q ty ->
  (forall le te, element ltys l le -> element tys t te -> decided le te (recur le te)) ->
  decided l t (types_compat recur lb p tb q).
Proof.
  intros Hl Hp Ht Hq IH. unfold types_compat, btf_is_composite.
  rewrite (type_at_kind _ _ _ Hp), (type_at_kind _ _ _ Hq). cbn [mbind res_bind].
  fold (is_composite lt) (is_composite ty).
  destruct (is_composite lt && is_composite ty) eqn:Hc; [left; reflexivity|].
  assert (~ (is_composite lt = true /\ is_composite ty = true)) as Hcomp by (intros [H1 H2]; rewrite H1, H2 in Hc; discriminate). clear Hc.
  destruct (Z.eqb_spec (ty_kind lt) (ty_kind ty)) as [Hk|Hk]; cbn [negb];
    [|right; split; [reflexivity|]; intros Hx; invert_compat Hx Hl Ht; no_compat].
  destruct (Z.eqb_spec (ty_kind lt) BTF_KIND_PTR) as [|Hptr]; [left; reflexivity|].
  destruct (_ || _) eqn:Hn.
  { apply orb_true_iff in Hn. rewrite !Z.eqb_eq in Hn.
    destruct (name_total lb ltys lstrs ldepth p lt Hrepl Hwfl Hp) as (ln & -> & Hln); [destruct Hl as (? & _ & ?); eauto|].
    destruct (name_total tb tys strs depth q ty Hrep Hwf Hq) as (tn & -> & Htn); [destruct Ht as (? & _ & ?); eauto|].
    cbn [mbind res_bind]. destruct (names_agree ln tn) eqn:Ha; [left; reflexivity|].
    right. split; [reflexivity|]. intros Hx.
    invert_compat Hx Hl Ht; no_compat. }
  apply orb_false_iff in Hn. rewrite !Z.eqb_neq in Hn.
  destruct (Z.eqb_spec (ty_kind lt) BTF_KIND_INT) as [Hi|Hi].
  { destruct (int_words lt (proj1 Hp) Hi) as (lw & Hlw).
    destruct (int_words ty (proj1 Hq) ltac:(congruence)) as (tw & Htw). unfold btf_int_offset.
    assert (t_word lb p 0 = Ok lw) as -> by (apply (type_at_word lb p lt 0 lw Hp); rewrite Hlw; reflexivity).
    assert (t_word tb q 0 = Ok tw) as -> by (apply (type_at_word tb q ty 0 tw Hq); rewrite Htw; reflexivity).
    cbn [mbind res_bind]. destruct (Z.eqb_spec (BTF_INT_OFFSET lw) 0), (Z.eqb_spec (BTF_INT_OFFSET tw) 0);
      cbn [negb bool_z]; [left; reflexivity|..]; right; (split; [reflexivity|]); intros Hx;
      invert_compat Hx Hl Ht; no_compat. }
  destruct (Z.eqb_spec (ty_kind lt) BTF_KIND_ARRAY) as [Ha|Ha];
    [|right; split; [reflexivity|]; intros Hx; invert_compat Hx Hl Ht; no_compat].
  destruct (array_words lt (proj1 Hp) Ha) as (le & li & ln & Hlw & Hle & _).
  destruct (array_words ty (proj1 Hq) ltac:(congruence)) as (te & ti & tn & Htw & Hte & _).
  assert (array_type lb p = Ok le) as -> by (apply (type_at_word lb p lt 0 le Hp); rewrite Hlw; reflexivity).
  assert (array_type tb q = Ok te) as -> by (apply (type_at_word tb q ty 0 te Hq); rewrite Htw; reflexivity).
  cbn [mbind res_bind]. destruct (IH le te) as [->|[-> Hne]].
  - exists lt. rewrite Hlw. auto.
  - exists ty. rewrite Htw. split; [exact Ht|]. split; [congruence | reflexivity].
  - left. reflexivity.
  - right. split; [reflexivity|]. intros Hx. invert_compat Hx Hl Ht; no_compat.
Qed.

Lemma element_range ts ss d id id' : wf_types ts ss d -> Forall ty_ok ts -> element ts id id' -> 0 <= id' <= zlen ts.
Proof.
  intros Hw Hok He. split; [|eapply wf_element; eassumption]. destruct He as (t & (sid & _ & Ht) & _ & Hw').
  unfold ty_at in Ht. destruct (_ <=? _); [|discriminate]. rewrite Forall_lookup in Hok.
  pose proof (ty_words_ok _ (Hok _ _ Ht)) as Hws. rewrite Forall_lookup in Hws. apply (Hws _ _ Hw').
Qed.

Lemma compat_loop_total fuel : forall n l t, steps (element ltys) n l -> (n < fuel)%nat ->
  0 <= l <= zlen ltys -> 0 <= t <= zlen tys -> decided l t (fields_compat_loop fuel lb l tb t).
Proof.
  induction fuel as [|fuel IH]; intros n l t Hn Hf Hlr Htr; [lia|]. cbn [fields_compat_loop].
  destruct (wf_skips _ _ _ Hwfl l Hlr) as [sl Hsl]. destruct (wf_skips _ _ _ Hwf t Htr) as [st Hst].
  destruct (skip_total lb ltys lstrs Hrepl l sl Hsl) as (p & -> & Hp).
  destruct (skip_total tb tys strs Hrep t st Hst) as (q & -> & Hq). cbn [mbind res_bind].
  destruct Hp as [[-> ->]|(lt & Hlt & Hatl)], Hq as [[-> ->]|(ty & Hty & Hatt)].
  4:{ apply (types_decided _ l t lt ty p q); [exists sl; auto | exact Hatl | exists st; auto | exact Hatt|].
    intros le te Hle Hte. inversion Hn as [? Hend|m ? y Hy Hm]; subst; [destruct (Hend _ Hle)|].
    rewrite (element_det _ _ _ _ Hy Hle) in Hm. eapply IH; [exact Hm | lia | |];
      eapply element_range; eauto using rep_types_ok. }
  - right. split; [reflexivity|]. intros Hx. destruct (compat_left _ _ Hx) as (lt & (s & Hs & Hlt) & _).
    rewrite <- (skips_det _ _ _ _ Hsl Hs) in Hlt. discriminate.
  - unfold types_compat, btf_is_composite. rewrite void_kind, (type_at_kind _ _ _ Hatt). cbn [mbind res_bind].
    change ((0 =? BTF_KIND_STRUCT) || (0 =? BTF_KIND_UNION)) with false. cbn [andb].
    assert (~ compatible ltys lstrs tys strs l t) as Hnot.
    { intros Hx. destruct (compat_left _ _ Hx) as (lt & (s & Hs & Hlt) & _).
      rewrite <- (skips_det _ _ _ _ Hsl Hs) in Hlt. discriminate. }
    destruct (Z.eqb_spec 0 (ty_kind ty)); right; auto.
  - unfold types_compat, btf_is_composite. rewrite void_kind, (type_at_kind _ _ _ Hatl). cbn [mbind res_bind].
    rewrite andb_false_r. assert (~ compatible ltys lstrs tys strs l t) as Hnot.
    { intros Hx. destruct (compat_left _ _ Hx) as (_ & _ & ty & s & Hs & Hty).
      rewrite <- (skips_det _ _ _ _ Hst Hs) in Hty. discriminate. }
    destruct (Z.eqb_spec (ty_kind lt) 0) as [Hk|]; [rewrite Hk|]; right; auto.
Qed.

(** [bpf_core_fields_are_compat] decides compatibility. *)
Lemma compat_decided l t : 0 <= l <= zlen ltys -> 0 <= t <= zlen tys ->
  decided l t (bpf_core_fields_are_compat lb l tb t).
Proof.
  intros Hl Ht. destruct (wf_arrays _ _ _ Hwfl l Hl) as [n Hn].
  eapply compat_loop_total; [exact Hn | | exact Hl | exact Ht].
  rewrite (rep_nr _ _ _ Hrepl). enough (n <= length (type_ids ltys))%nat by (rewrite length_type_ids in H; unfold zlen; lia).
  eapply steps_bound; [apply element_det | | exact Hn].
  intros x y (ty & (sid & Hs & Hty) & _). apply elem_of_seqZ.
  pose proof (skips_from _ _ _ Hs). apply ty_at_range in Hty. lia.
Qed.
End compat.

(** * 4. Matching ends *)

Lemma has_member_det tys id sid sid' i m m' :
  has_member tys id sid i m -> has_member tys id sid' i m' -> sid = sid' /\ m = m'.
Proof.
  intros (t & Hs & Ht & _ & _ & Hm) (t' & Hs' & Ht' & _ & _ & Hm').
  pose proof (skips_det _ _ _ _ Hs Hs') as <-. split; [reflexivity|]. congruence.
Qed.

(** A path to one field has one offset and one type. *)
Lemma field_det tys strs name id p b t : field tys strs name id p b t ->
  forall b' t', field tys strs name id p b' t' -> b = b' /\ t = t'.
Proof.
  induction 1 as [id sid i m Hm Hn Hne|id sid i m p b t Hm Ha Hf IH]; intros b' t' Hf'; inversion Hf' as
    [? sid' ? m' Hm' Hn'|? sid' ? m' ? b2 ? Hm' Ha' Hf2]; subst;
    destruct (has_member_det _ _ _ _ _ _ _ Hm Hm') as [_ <-]; auto.
  - inversion Hf2.
  - inversion Hf.
  - destruct (IH _ _ Hf2) as [<- <-]. auto.
Qed.

Lemma skips_idem tys id sid : skips tys id sid -> skips tys sid sid.
Proof. induction 1; [constructor | eapply skips_here; eassumption | assumption]. Qed.

Lemma field_resolved tys strs name id sid p b t :
  skips tys id sid -> field tys strs name id p b t -> field tys strs name sid p b t.
Proof.
  intros Hs Hf. assert (forall i m sid', has_member tys id sid' i m -> has_member tys sid sid' i m) as Hm.
  { intros i m sid' (ty & Hk & Hrest). rewrite (skips_det _ _ _ _ Hk Hs) in *. exists ty. split; [eapply skips_idem, Hs | exact Hrest]. }
  destruct Hf; [eapply field_here | eapply field_inside]; eauto.
Qed.

Lemma pop_push_eq s i bits : bits_ok s ->
  pop_raw bits (mk_spec (cs_spec s) (cs_raw s ++ [i]) (u32 (cs_bit_offset s + bits))) = s.
Proof.
  intros Hs. unfold pop_raw. cbn. rewrite length_app. cbn. rewrite Nat.add_sub, take_app_length.
  destruct s as [sp raw bo]. unfold bits_ok in Hs. cbn in *. f_equal. wrap_lia.
Qed.

Lemma member_type_range b tys strs id sid i m : represents b tys strs -> has_member tys id sid i m -> 0 <= m_type m.
Proof.
  intros Hrep (t & _ & Ht & Hc & Hi & Hm). destruct (rep_type _ _ _ Hrep _ _ Ht) as (p & _ & Hat).
  destruct (member_sound b p t i Hat Hc Hi) as (m' & Hm' & _ & Hy & _). congruence.
Qed.

Section matching.
Context (lb tb : btf) (ltys tys : list btype) (lstrs strs : list byte) (ldepth depth : nat).
Context (Hrepl : represents lb ltys lstrs) (Hrep : represents tb tys strs).
Context (Hwfl : wf_types ltys lstrs ldepth) (Hwf : wf_types tys strs depth).
Context (Hun : unambiguous tys strs).

Section member.
Context (acc : bpf_core_accessor) (name : list byte) (l : Z).
Context (Hname : acc_field lb acc = Ok name) (Htype : acc_type lb acc = Ok l) (Hl : 0 <= l <= zlen ltys).

Abbreviation target := (target lb tys strs acc).
Abbreviation fits := (fits lb ltys tys lstrs strs acc).

Lemma target_cons id j p b t : target id (j :: p) b t -> exists sid m, has_member tys id sid j m /\
  (p = [] /\ str_of strs (m_name_off m) = Some name /\ name <> [] /\ b = m_bits m /\ t = m_type m \/
   anonymous strs m /\ exists b', target (m_type m) p b' t).
Proof.
  intros (n & Hn & Hf). assert (n = name) as -> by congruence.
  inversion Hf as [? sid ? m Hm Hs Hne|? sid ? m ? b' ? Hm Ha Hf']; subst; exists sid, m; (split; [exact Hm|]).
  - left. auto 6.
  - right. split; [exact Ha|]. exists b', name. auto.
Qed.
Lemma target_nonempty id b t : ~ target id [] b t.
Proof. intros (n & _ & Hf). inversion Hf. Qed.

(** No field at the index that fits. *)
Definition no_fit (id i : Z) : Prop := forall p b t, target id (i :: p) b t -> ~ fits t.
(** The field is there. *)
Definition there (id i : Z) : Prop := exists p b t, target id (i :: p) b t.

Definition lens_ok (s : bpf_core_spec) : Prop := bits_ok s /\ (length (cs_spec s) <= length (cs_raw s))%nat.

(** The index of the field was left behind. *)
Definition stale (s s' : bpf_core_spec) : Prop :=
  length (cs_raw s') = S (length (cs_raw s)) /\ cs_spec s' = cs_spec s /\ bits_ok s'.

(** There is room for [n] nested structures from the index [i] on, and for
    an index left behind while the field may still be found. *)
Definition roomy (n : nat) (s : bpf_core_spec) (id i : Z) : Prop :=
  (length (cs_raw s) + n < 64)%nat /\ (forall j, i <= j -> there id j -> (length (cs_raw s) + n < 63)%nat).

Definition answers (id i : Z) (s : bpf_core_spec) (r : res (Z * bpf_core_spec * Z)) : Prop :=
  exists found s' next', r = Ok (found, s', next') /\
    (found = 1 \/ found = 0 /\ (forall j, i <= j -> no_fit id j) /\
     (s' = s \/ (exists j, i <= j /\ there id j) /\ stale s s')).

Definition answers_one (id i : Z) (s1 : bpf_core_spec) (r : res (option Z * bpf_core_spec * Z)) : Prop :=
  exists found s' next', r = Ok (found, s', next') /\
    (found = Some 1 \/ no_fit id i /\
     (found = Some 0 /\ there id i /\ s' = s1 \/ found = None /\ (s' = s1 \/ there id i /\ stale s1 s'))).

Lemma try_member_total deeper lt local_name id sid i m tn s1 next :
  (anonymous strs m -> answers (m_type m) 0 s1 (deeper (m_type m) s1 next)) ->
  has_member tys id sid i m -> 0 <= m_name_off m -> 0 <= m_type m -> lens_ok s1 ->
  (length (cs_spec s1) < 64)%nat ->
  name_str lb local_name = acc_field lb acc -> member_type lb lt (acc_idx acc) = acc_type lb acc ->
  btf__name_by_offset tb (m_name_off m) = Ok tn ->
  answers_one id i s1 (try_member deeper lb acc lt local_name tb sid i tn (m_type m) s1 next).
Proof.
  intros Hdeep Hmem Hn0 Ht0 Hs1 Hlen Hln Hlt Htn. unfold try_member.
  destruct (name_cases tb tys strs Hrep (m_name_off m) Hn0) as (tn' & Htn' & Hcases).
  rewrite Htn in Htn'. injection Htn' as <-. destruct Hcases as [[-> Hanon]|(nm & -> & Hnm & Hne & Hstr)]; cbn [mbind res_bind].
  - destruct (Hdeep Hanon) as (found & s' & next' & -> & Hres).
    cbn [mbind res_bind]. destruct Hres as [->|(-> & Hno & Hs')]; do 3 eexists; (split; [reflexivity|]); cbn [Z.eqb]; [left; reflexivity|].
    right. assert (forall p b t, target id (i :: p) b t -> exists b', target (m_type m) p b' t) as Hin.
    { intros p b t Ht. destruct (target_cons _ _ _ _ _ Ht) as (sid' & m' & Hm' & [(-> & Hsm & Hne & _)|(_ & Hx)]);
        destruct (has_member_det _ _ _ _ _ _ _ Hmem Hm') as [_ <-]; [|exact Hx].
      destruct Hanon as [Ha|Ha]; rewrite Ha in Hsm; [discriminate | injection Hsm as <-; done]. }
    split.
    + intros p b t Ht. destruct (Hin _ _ _ Ht) as [b' Hx]. destruct p as [|j p]; [destruct (target_nonempty _ _ _ Hx)|].
      eapply (Hno j); [|exact Hx]. destruct (target_cons _ _ _ _ _ Hx) as (? & ? & (? & _ & _ & _ & ? & _) & _). lia.
    + right. split; [reflexivity|]. destruct Hs' as [->|[(j & _ & p & b & t & Hx) Hst]]; [auto|]. right. split; [|exact Hst].
      exists (j :: p), (m_bits m + b), t. eapply target_inside; eassumption.
  - rewrite Hln, Hname, Hstr. cbn [mbind res_bind]. destruct (bool_decide (name = nm)) eqn:Hd; cbn [negb].
    2:{ do 3 eexists. split; [reflexivity|]. right. split; [|auto]. intros p b t Ht.
      destruct (target_cons _ _ _ _ _ Ht) as (sid' & m' & Hm' & [(-> & Hsm & _)|([Ha|Ha] & _)]);
        destruct (has_member_det _ _ _ _ _ _ _ Hmem Hm') as [_ <-]; [|congruence..].
      apply bool_decide_eq_false in Hd. congruence. }
    apply bool_decide_eq_true in Hd as <-. unfold push_acc.
    destruct (Z.leb_spec BPF_CORE_SPEC_MAX_LEN (zlen (cs_spec s1))) as [Hx|_]; [unfold BPF_CORE_SPEC_MAX_LEN, zlen in Hx; lia|].
    rewrite Hlt, Htype. cbn [mbind res_bind].
    assert (target id [i] (m_bits m) (m_type m)) as Htg by (exists name; split; [exact Hname | eapply field_here; eassumption]).
    destruct (compat_decided lb tb ltys tys lstrs strs ldepth depth Hrepl Hrep Hwfl Hwf l (m_type m) Hl) as [->|[-> Hno]];
      [split; [exact Ht0 | eapply wf_member; eassumption] | |]; cbn [mbind res_bind Z.eqb]; do 3 eexists; (split; [reflexivity|]); [left; reflexivity|].
    right. split; [|left; split; [reflexivity|]; split; [eexists _, _, _; exact Htg | reflexivity]].
    intros p b t Ht (l' & Hl' & Hc). destruct (target_cons _ _ _ _ _ Ht) as (sid' & m' & Hm' & [(-> & _ & _ & _ & ->)|([Ha|Ha] & _)]);
      destruct (has_member_det _ _ _ _ _ _ _ Hmem Hm') as [_ <-]; [|congruence..].
    rewrite Htype in Hl'. injection Hl' as <-. exact (Hno Hc).
Qed.

Lemma there_unique id i j : there id i -> there id j -> i = j.
Proof.
  intros (p & b & t & Ht) (p' & b' & t' & Ht'). pose proof (target_unique lb tys strs Hun acc _ _ _ _ _ _ _ Ht Ht') as Hx.
  injection Hx as Hx _. exact Hx.
Qed.

Lemma lens_pushed s i bits : lens_ok s -> lens_ok (mk_spec (cs_spec s) (cs_raw s ++ [i]) (u32 bits)).
Proof. intros [_ Hs]. split; [apply bits_ok_u32|]. cbn. rewrite length_app. cbn. lia. Qed.

Lemma pop_stale bits bo s s2 i :
  stale (mk_spec (cs_spec s) (cs_raw s ++ [i]) bo) s2 -> stale s (pop_raw bits s2).
Proof.
  intros (Hr & Hs & _). unfold stale, pop_raw. cbn in *. rewrite length_take, Hr, length_app. cbn.
  split; [lia|]. split; [exact Hs | apply bits_ok_u32].
Qed.

Lemma stale_lens s s' : stale s s' -> lens_ok s -> lens_ok s'.
Proof. intros (Hr & Hs & Hb) [_ Hx]. split; [exact Hb|]. rewrite Hr, Hs. lia. Qed.

Lemma roomy_room n s id i : roomy n s id i -> (zlen (cs_raw s) =? BPF_CORE_SPEC_MAX_LEN) = false /\
  (BPF_CORE_SPEC_MAX_LEN <=? zlen (cs_raw s)) = false.
Proof. intros [Hr _]. unfold BPF_CORE_SPEC_MAX_LEN, zlen. lia. Qed.

Lemma roomy_stale n s s' id i : roomy n s id i -> there id i -> stale s s' -> roomy n s' id (i + 1).
Proof.
  intros [_ Hr] Ht (Hx & _). split.
  - rewrite Hx. specialize (Hr i ltac:(lia) Ht). lia.
  - intros j Hj Htj; pose proof (there_unique _ _ _ Ht Htj). lia.
Qed.

Lemma there_inside id sid i m j : has_member tys id sid i m -> anonymous strs m -> there (m_type m) j -> there id i.
Proof. intros Hm Ha (p & b & t & Ht). exists (j :: p), (m_bits m + b), t. eapply target_inside; eassumption. Qed.

Lemma members_total deeper lt local_name id sid t p nest :
  (forall id' s1 next, embeds tys strs id id' -> roomy (nest - 1) s1 id' 0 -> lens_ok s1 ->
    answers id' 0 s1 (deeper id' s1 next)) ->
  nests tys strs nest id -> skips tys id sid -> ty_at tys sid = Some t -> type_at tb p t -> is_composite t = true ->
  name_str lb local_name = acc_field lb acc -> member_type lb lt (acc_idx acc) = acc_type lb acc ->
  forall n i s next, 0 <= i -> i + Z.of_nat n = ty_vlen t -> roomy nest s id i -> lens_ok s ->
  answers id i s (members_loop deeper lb acc lt local_name tb p sid n i s next).
Proof.
  intros Hdeep Hnest Hsk Ht Hat Hc Hln Hlt. induction n as [|n IH]; intros i s next Hi Hn Hr Hs; cbn [members_loop].
  { do 3 eexists. split; [reflexivity|]. right. split; [reflexivity|]. split; [|auto].
    intros j Hj q b ty Hx. destruct (target_cons _ _ _ _ _ Hx) as (sid' & m & (t' & Hs' & Ht' & _ & Hj' & _) & _).
    rewrite <- (skips_det _ _ _ _ Hsk Hs') in Ht'. rewrite Ht in Ht'. injection Ht' as <-. lia. }
  destruct (member_sound tb p t i Hat Hc) as (m & Hm & H0n & H0t & H0b & -> & -> & ->); [lia|]. cbn [mbind res_bind].
  assert (has_member tys id sid i m) as Hmem by (exists t; repeat split; auto; lia).
  destruct (roomy_room _ _ _ _ Hr) as [-> Hfull]. unfold push_raw. cbn [add_bits cs_raw cs_spec cs_bit_offset]. rewrite Hfull.
  cbn [mbind res_bind]. destruct (name_cases tb tys strs Hrep (m_name_off m) H0n) as (tn & Htn & _). rewrite Htn.
  cbn [mbind res_bind]. set (s1 := mk_spec (cs_spec s) (cs_raw s ++ [i]) (u32 (cs_bit_offset s + m_bits m))).
  assert (lens_ok s1) as Hs1 by (apply lens_pushed, Hs).
  destruct (try_member_total deeper lt local_name id sid i m tn s1 next) as (found & s2 & next2 & -> & Hres);
    try assumption.
  { intros Ha. assert (embeds tys strs id (m_type m)) as He by (exists sid, i, m; auto).
    apply Hdeep; [exact He | | exact Hs1]. destruct nest as [|nest]; [destruct (Hnest _ He)|].
    destruct Hr as [Hr1 Hr2]. unfold roomy, s1. cbn. rewrite length_app. cbn. split; [lia|].
    intros j _ Hj. specialize (Hr2 i ltac:(lia) (there_inside _ _ _ _ _ Hmem Ha Hj)). lia. }
  { destruct Hs as [_ Hlen]. destruct Hr as [Hr _]. cbn. lia. }
  cbn [mbind res_bind]. destruct Hres as [->|(Hno & Hres)].
  - do 3 eexists. split; [reflexivity | auto].
  - destruct Hres as [(-> & Hth & ->)|(-> & Hs2)].
    + do 3 eexists. split; [reflexivity|]. right. split; [reflexivity|]. split.
      * intros j Hj. destruct (Z.eq_dec j i) as [->|]; [exact Hno|]. intros q b ty Hx.
        pose proof (there_unique id i j Hth ltac:(eexists _, _, _; exact Hx)). lia.
      * right. split; [exists i; split; [lia | exact Hth]|]. unfold stale, s1. cbn. rewrite length_app. cbn.
        split; [lia|]. split; [reflexivity | apply bits_ok_u32].
    + assert (forall s3, roomy nest s3 id (i + 1) -> lens_ok s3 -> (s3 = s \/ there id i /\ stale s s3) ->
        answers id i s (members_loop deeper lb acc lt local_name tb p sid n (i + 1) s3 next2)) as Hrest.
      { intros s3 Hr3 Hs3 Hst. destruct (IH (i + 1) s3 next2) as (f & s4 & next4 & -> & Hans); [lia | lia | exact Hr3 | exact Hs3|].
        do 3 eexists. split; [reflexivity|]. destruct Hans as [->|(-> & Hno' & Hs4)]; [auto|]. right. split; [reflexivity|].
        split; [intros j Hj; destruct (Z.eq_dec j i) as [->|]; [exact Hno | apply Hno'; lia]|].
        destruct Hs4 as [->|[(j & Hj & Hth) Hst4]].
        - destruct Hst as [->|[Hth Hst]]; [auto|]. right. split; [exists i; auto with lia | exact Hst].
        - right. split; [exists j; auto with lia|]. destruct Hst as [->|[Hth' _]]; [exact Hst4|].
          pose proof (there_unique _ _ _ Hth Hth'). lia. }
      destruct Hs2 as [->|[Hth Hst]]; apply Hrest.
      * unfold s1. rewrite (pop_push_eq _ _ _ (proj1 Hs)). destruct Hr as [Hr1 Hr2]. split; [exact Hr1|].
        intros j Hj. apply Hr2. lia.
      * unfold s1. rewrite (pop_push_eq _ _ _ (proj1 Hs)). exact Hs.
      * left. apply pop_push_eq, Hs.
      * eapply roomy_stale; [exact Hr | exact Hth | eapply pop_stale, Hst].
      * eapply stale_lens; [eapply pop_stale, Hst | exact Hs].
      * right. split; [exact Hth | eapply pop_stale, Hst].
Qed.

Lemma match_member_total d : forall nest id s next, (nest < d)%nat -> 0 <= id <= zlen tys ->
  nests tys strs nest id -> roomy nest s id 0 -> lens_ok s ->
  answers id 0 s (match_member d lb acc tb id s next).
Proof.
  induction d as [|d IH]; intros nest id s next Hd Hid Hnest Hr Hs; [lia|]. cbn [match_member].
  destruct (wf_skips _ _ _ Hwf id Hid) as [sid Hsk].
  destruct (skip_total tb tys strs Hrep id sid Hsk) as (p & -> & Hp). cbn [mbind res_bind].
  assert ((forall i m, ~ has_member tys id sid i m) -> answers id 0 s (Ok (0, s, next))) as Hnone.
  { intros Hno. do 3 eexists. split; [reflexivity|]. right. split; [reflexivity|]. split; [|auto].
    intros j _ q b ty Hx. destruct (target_cons _ _ _ _ _ Hx) as (sid' & m & Hm & _). destruct (Hno j m).
    destruct Hm as (t & Hs' & Hm). exists t. rewrite (skips_det _ _ _ _ Hsk Hs'). auto. }
  destruct Hp as [[-> ->]|(t & Ht & Hat)].
  { apply Hnone. intros i m (t & _ & Ht & _). discriminate. }
  unfold btf_is_composite. rewrite (type_at_kind _ _ _ Hat). cbn [mbind res_bind]. fold (is_composite t).
  destruct (is_composite t) eqn:Hc; cbn [negb].
  2:{ apply Hnone. intros i m (t' & _ & Ht' & Hc' & _). congruence. }
  pose proof Hname as Hn. pose proof Htype as Hy. unfold acc_field in Hn. unfold acc_type in Hy.
  destruct (btf__type_by_id lb (acc_type_id acc)) as [lt|] eqn:Hlt; cbn [mbind res_bind] in *; [|discriminate].
  destruct (or_fault NullDeref lt) as [ltp|] eqn:Hltp; cbn [mbind res_bind] in *; [|discriminate].
  destruct (member_name_off lb ltp (acc_idx acc)) as [off|] eqn:Hoff; cbn [mbind res_bind] in *; [|discriminate].
  destruct (btf__name_by_offset lb off) as [ln|] eqn:Hln; cbn [mbind res_bind] in *; [|discriminate].
  rewrite (type_at_vlen _ _ _ Hat). cbn [mbind res_bind]. pose proof (ty_vlen_ok _ (proj1 Hat)).
  eapply members_total; try eassumption; [| congruence | congruence | lia | lia].
  intros id' s1 next' He Hr' Hs1. destruct nest as [|nest]; [destruct (Hnest _ He)|].
  apply (IH nest); [lia | | exact (Hnest _ He) | | exact Hs1].
  - destruct He as (sid' & i & m & Hm & _ & ->). split; [|eapply wf_member; [exact Hwf | exact Hm]]. eapply member_type_range; [exact Hrep | exact Hm].
  - replace (S nest - 1)%nat with nest in Hr' by lia. exact Hr'.
Qed.
End member.

(** A named accessor stands for a field of a type there is. *)
Definition acc_valid (acc : bpf_core_accessor) : Prop :=
  acc_name acc <> None -> exists name l, acc_field lb acc = Ok name /\ acc_type lb acc = Ok l /\ 0 <= l <= zlen ltys.

Lemma path_length name id p b t : field tys strs name id p b t ->
  forall nest, nests tys strs nest id -> (length p <= S nest)%nat.
Proof.
  induction 1 as [|id sid i m p b t Hm Ha Hf IH]; intros nest Hnest; cbn [length]; [lia|].
  assert (embeds tys strs id (m_type m)) as He by (exists sid, i, m; auto).
  destruct nest as [|nest]; [destruct (Hnest _ He)|]. specialize (IH nest (Hnest _ He)). lia.
Qed.

Lemma field_type_range name id p b t : field tys strs name id p b t -> 0 <= t <= zlen tys.
Proof.
  intros Hf. split; [eapply field_type_nonneg; [eapply rep_types_ok, Hrep | exact Hf]|].
  induction Hf as [id sid i m Hm|]; [eapply wf_member; [exact Hwf | exact Hm] | assumption].
Qed.

Lemma skips_in_range id sid : skips tys id sid -> 0 <= sid <= zlen tys.
Proof.
  intros Hs. destruct (skips_range _ _ _ Hs) as [->|(t & Ht & _)]; [pose proof (zlen_nonneg tys); lia|].
  apply ty_at_range in Ht. lia.
Qed.

Definition outcome (accs : list bpf_core_accessor) (id : Z) (r : res (Z * bpf_core_spec)) : Prop :=
  exists f s', r = Ok (f, s') /\
    (f = 1 \/ f = 0 /\ (forall path rest, ~ access lb ltys tys lstrs strs accs id path rest) \/
     f < 0 /\ exists eid, f = s32 (size_of tys eid)).

(** An element: what there is to say of it is what there is to say of the
    accessors behind it. *)
Lemma elem_total accs acc eid s :
  0 <= eid -> lens_ok s -> (length (cs_raw s) < 64)%nat ->
  (forall s1, lens_ok s1 -> length (cs_raw s1) = S (length (cs_raw s)) ->
    outcome accs eid (spec_match_loop lb tb accs false eid s1)) ->
  exists f s', (if zlen (cs_raw s) =? BPF_CORE_SPEC_MAX_LEN then Ok (- E2BIG, s) else
   s ← push_acc (mk_acc eid (acc_idx acc) None) s;
   s ← push_raw (s32 (acc_idx acc)) s;
   sz ← btf__resolve_size tb eid;
   if s32 sz <? 0 then Ok (s32 sz, s) else
   spec_match_loop lb tb accs false eid (add_bits (acc_idx acc * s32 sz * 8) s)) = Ok (f, s') /\
    (f = 1 \/ f = 0 /\ (forall path rest, ~ access lb ltys tys lstrs strs accs eid path rest) \/
     f < 0 /\ exists eid, f = s32 (size_of tys eid)).
Proof.
  intros Heid [Hb Hle] Hlen IH. unfold push_acc, push_raw. cbn [cs_raw cs_spec].
  replace (zlen (cs_raw s) =? BPF_CORE_SPEC_MAX_LEN) with false by (unfold zlen, BPF_CORE_SPEC_MAX_LEN; lia).
  replace (BPF_CORE_SPEC_MAX_LEN <=? zlen (cs_spec s)) with false by (unfold zlen, BPF_CORE_SPEC_MAX_LEN; lia).
  cbn [mbind res_bind cs_raw cs_spec cs_bit_offset].
  replace (BPF_CORE_SPEC_MAX_LEN <=? zlen (cs_raw s)) with false by (unfold zlen, BPF_CORE_SPEC_MAX_LEN; lia).
  pose proof (resolve_size_value tb tys strs eid Hrep Heid) as Hres. remember (size_of tys eid) as sz eqn:Hsz.
  rewrite Hres. cbn [mbind res_bind]. destruct (Z.ltb_spec (s32 sz) 0).
  - do 2 eexists. split; [reflexivity|]. right. right. split; [assumption|]. exists eid. congruence.
  - apply IH; [|cbn; rewrite length_app; cbn; lia]. split; [apply bits_ok_u32|]. cbn. rewrite !length_app. cbn. lia.
Qed.

Lemma match_loop_total accs : Forall acc_valid accs -> forall id s, 0 <= id <= zlen tys -> lens_ok s ->
  (length (cs_raw s) + length accs * S depth <= 63)%nat -> (depth < 63)%nat ->
  outcome accs id (spec_match_loop lb tb accs false id s).
Proof.
  induction 1 as [|acc accs Hv Hvs IH]; intros id s Hid Hs Hlen Hdep; cbn [spec_match_loop].
  { do 2 eexists. split; [reflexivity | auto]. }
  cbn [length] in Hlen. destruct (wf_skips _ _ _ Hwf id Hid) as [sid Hsk].
  destruct (skip_total tb tys strs Hrep id sid Hsk) as (p & -> & Hp). cbn [mbind res_bind].
  pose proof (skips_in_range _ _ Hsk) as Hsid. destruct (acc_name acc) as [nm|] eqn:Hacc.
  - destruct Hv as (name & l & Hname & Htype & Hl); [congruence|].
    destruct (match_member_total acc name l Hname Htype Hl MATCH_DEPTH depth sid s sid) as (f & s1 & next & Hm & Hans);
      [unfold MATCH_DEPTH; lia | exact Hsid | apply (wf_nests _ _ _ Hwf), Hsid | split; [lia | intros; lia] | exact Hs|].
    unfold bpf_core_match_member. rewrite Hm. cbn [mbind res_bind]. destruct Hans as [->|(-> & Hno & _)]; cbn [Z.leb].
    + destruct (match_member_sound lb tb ltys tys lstrs strs Hrepl Hrep Hun acc _ _ _ _ _ (proj1 Hsid) (proj1 Hs) Hm) as [_ Hf].
      destruct (Hf eq_refl) as (j & q & b & t & a & (n & Hn & Hfield) & _ & -> & Hfits & ->).
      pose proof (path_length _ _ _ _ _ Hfield _ (wf_nests _ _ _ Hwf _ Hsid)) as Hpl. cbn [length] in Hpl.
      destruct (IH t (mk_spec (cs_spec s ++ [a]) (cs_raw s ++ j :: q) (u32 (cs_bit_offset s + b)))) as (f & s2 & -> & Hout).
      { eapply field_type_range, Hfield. }
      { split; [apply bits_ok_u32|]. destruct Hs as [_ Hs]. cbn. rewrite !length_app. cbn. lia. }
      { cbn [cs_raw]. rewrite length_app. cbn [length]. lia. }
      { exact Hdep. }
      do 2 eexists. split; [reflexivity|]. destruct Hout as [->|[[-> Hno]|Hneg]]; [auto | | auto]. right. left. split; [reflexivity|].
      intros path rest Ha. inversion Ha as [|? ? ? n' p' b' t' path' rest' _ Hn' Hf' Hfits' Ha'|? ? ? ? ? ? ? ? ? Hnone]; subst; [|congruence].
      rewrite Hn in Hn'. injection Hn' as <-. pose proof (field_skips _ _ _ _ _ _ _ _ Hsk Hfield) as Hfield'.
      pose proof (Hun _ _ _ _ _ _ _ _ Hf' Hfield') as ->. destruct (field_det _ _ _ _ _ _ _ Hf' _ _ Hfield') as [_ ->].
      exact (Hno _ _ Ha').
    + do 2 eexists. split; [reflexivity|]. right. left. split; [reflexivity|]. intros path rest Ha.
      inversion Ha as [|? ? ? n' p' b' t' path' rest' _ Hn' Hf' Hfits' Ha'|? ? ? ? ? ? ? ? ? Hnone]; subst; [|congruence].
      apply (field_resolved _ _ _ _ _ _ _ _ Hsk) in Hf'. destruct p' as [|j p']; [inversion Hf'|].
      assert (target lb tys strs acc sid (j :: p') b' t') as Htg by (exists n'; auto).
      apply (Hno j) with p' b' t'; [|exact Htg | exact Hfits'].
      destruct (target_cons acc name Hname _ _ _ _ _ Htg) as (? & ? & (? & _ & _ & _ & ? & _) & _). lia.
  - unfold btf_is. destruct Hp as [[-> ->]|(t & Ht & Hat)].
    { do 2 eexists. split; [reflexivity|]. right. left. split; [reflexivity|]. intros path rest Ha.
      inversion Ha as [|? ? ? ? ? ? ? ? ? Hsome|? ? ? aid t elem eid path' rest' _ Hs' Ht']; subst; [congruence|].
      rewrite <- (skips_det _ _ _ _ Hsk Hs') in Ht'. discriminate. }
    rewrite (type_at_kind _ _ _ Hat). cbn [mbind res_bind].
    assert (forall path rest, access lb ltys tys lstrs strs (acc :: accs) id path rest ->
      ty_kind t = BTF_KIND_ARRAY /\ acc_idx acc < nth 2 (ty_words t) 0 /\ exists elem eid path' rest',
        ty_words t !! 0%nat = Some elem /\ skips tys elem eid /\ access lb ltys tys lstrs strs accs eid path' rest') as Hinv.
    { intros path rest Ha. inversion Ha as [|? ? ? ? ? ? ? ? ? Hsome|? ? ? aid t' elem eid path' rest' _ Hs' Ht' Hk Hw Hi Hse _ Ha'];
        subst; [congruence|]. rewrite <- (skips_det _ _ _ _ Hsk Hs') in Ht'. replace t' with t in * by congruence.
      split; [exact Hk|]. split; [exact Hi|]. exists elem, eid, path', rest'. auto. }
    destruct (Z.eqb_spec (ty_kind t) BTF_KIND_ARRAY) as [Harr|Hnarr]; cbn [negb].
    2:{ do 2 eexists. split; [reflexivity|]. right. left. split; [reflexivity|]. intros path rest Ha. destruct (Hinv _ _ Ha). auto. }
    destruct (array_words t (proj1 Hat) Harr) as (e & i & d & Hw & He & Hd).
    assert (array_nelems tb p = Ok d) as -> by (apply (type_at_word tb p t 2 d Hat); rewrite Hw; reflexivity).
    assert (array_type tb p = Ok e) as -> by (apply (type_at_word tb p t 0 e Hat); rewrite Hw; reflexivity).
    cbn [mbind res_bind]. destruct (Z.leb_spec d (acc_idx acc)).
    { do 2 eexists. split; [reflexivity|]. right. left. split; [reflexivity|]. intros path rest Ha.
      destruct (Hinv _ _ Ha) as (_ & Hi & _). rewrite Hw in Hi. cbn in Hi. lia. }
    assert (element tys id e) as Helem by (exists t; split; [exists sid; auto|]; rewrite Hw; auto).
    pose proof (element_range tys strs depth id e Hwf (rep_types_ok _ _ _ Hrep) Helem) as Her.
    destruct (wf_skips _ _ _ Hwf e Her) as [eid Hse].
    destruct (skip_total tb tys strs Hrep e eid Hse) as (q & -> & _). cbn [mbind res_bind].
    pose proof (skips_in_range _ _ Hse) as Heid.
    destruct (elem_total accs acc eid s (proj1 Heid) Hs) as (f & s' & Hr & Hout); [lia | | ].
    { intros s1 Hs1 Hl1. apply IH; [exact Heid | exact Hs1 | lia | exact Hdep]. }
    exists f, s'. split; [exact Hr|]. destruct Hout as [->|[[-> Hno]|Hneg]]; [auto | | auto]. right. left. split; [reflexivity|].
    intros path rest Ha. destruct (Hinv _ _ Ha) as (_ & _ & elem & eid' & path' & rest' & Hw' & Hse' & Ha').
    rewrite Hw in Hw'. injection Hw' as <-. rewrite <- (skips_det _ _ _ _ Hse Hse') in Ha'. exact (Hno _ _ Ha').
Qed.

Lemma spec_match_total local id acc accs : cs_spec local = acc :: accs -> acc_name acc = None -> Forall acc_valid accs ->
  0 <= id <= zlen tys -> (1 + length accs * S depth <= 63)%nat -> (depth < 63)%nat ->
  exists f s, bpf_core_spec_match lb local tb id = Ok (f, s) /\
    (f = 1 \/ f = 0 /\ (forall path off, ~ root_access lb ltys tys lstrs strs (cs_spec local) id path off) \/
     f < 0 /\ exists eid, f = s32 (size_of tys eid)).
Proof.
  intros Hl Hacc Hv Hid Hlen Hdep. unfold bpf_core_spec_match. rewrite Hl. cbn [spec_match_loop].
  destruct (wf_skips _ _ _ Hwf id Hid) as [sid Hsk].
  destruct (skip_total tb tys strs Hrep id sid Hsk) as (p & -> & _). cbn [mbind res_bind]. rewrite Hacc.
  pose proof (skips_in_range _ _ Hsk) as Hsid.
  assert (lens_ok empty_spec) as He by (split; [split; [reflexivity | discriminate || reflexivity] | reflexivity]).
  destruct (elem_total accs acc sid empty_spec (proj1 Hsid) He) as (f & s' & Hr & Hout); [cbn; lia | |].
  { intros s1 Hs1 Hl1. cbn in Hl1. apply match_loop_total; [exact Hv | exact Hsid | exact Hs1 | lia | exact Hdep]. }
  exists f, s'. split; [exact Hr|]. destruct Hout as [->|[[-> Hno]|Hneg]]; [auto | | auto]. right. left. split; [reflexivity|].
  intros path off Ha. inversion Ha as [? ? ? rid path' rest' _ Hs' _ Ha']; subst.
  rewrite <- (skips_det _ _ _ _ Hsk Hs') in Ha'. exact (Hno _ _ Ha').
Qed.
End matching.

(** * 5. The parser makes valid accessors *)

Section parse.
Context (lb : btf) (ltys : list btype) (lstrs : list byte) (ldepth : nat).
Context (Hrepl : represents lb ltys lstrs) (Hwfl : wf_types ltys lstrs ldepth).

Lemma member_acc_valid p id t i m name e :
  points lb ltys p id -> type_at lb p t -> ty_at ltys id = Some t -> skips ltys id id -> is_composite t = true ->
  0 <= i < ty_vlen t -> member_at t i = Some m ->
  btf__name_by_offset lb (m_name_off m) = Ok name -> str_is_empty lb name = Ok e -> e = false ->
  acc_valid lb ltys (mk_acc id i name).
Proof.
  intros Hp Hat Ht Hsk Hc Hi Hm Hn He -> _.
  destruct (points_by_id lb ltys lstrs Hrepl id p Hp) as (q & Hq & Hpq).
  destruct Hpq as [[-> _]|(t' & Ht' & Hatq)]; [discriminate|]. replace t' with t in * by congruence.
  destruct (member_sound lb q t i Hatq Hc Hi) as (m' & Hm' & H0n & H0t & _ & En & Et & _).
  replace m' with m in * by congruence.
  destruct (name_cases lb ltys lstrs Hrepl (m_name_off m) H0n) as (name' & Hn' & Hcases).
  rewrite Hn in Hn'. injection Hn' as <-. destruct Hcases as [[Hx _]|(s & _ & _ & _ & Hs)]; [congruence|].
  exists s, (m_type m). unfold acc_field, acc_type. cbn [acc_type_id acc_idx]. rewrite Hq. cbn [mbind res_bind or_fault].
  rewrite En, Et. cbn [mbind res_bind]. rewrite Hn. split; [exact Hs|]. split; [reflexivity|]. split; [exact H0t|].
  eapply wf_member; [exact Hwfl|]. exists t. split; [exact Hsk|]. split; [exact Ht|]. split; [exact Hc|]. split; [exact Hi | exact Hm].
Qed.

Lemma parse_fields_raw b raw : forall id s r s', parse_fields b raw id s = Ok (r, s') -> cs_raw s' = cs_raw s.
Proof.
  induction raw as [|i raw IH]; intros id s r s' H; cbn [parse_fields] in H; [injection H as _ <-; reflexivity|].
  repeat match type of H with
  | mbind _ _ = Ok _ =>
      apply bind_Ok_inv in H; let x := fresh "x" in let E := fresh "E" in destruct H as (x & E & H);
      lazymatch type of x with prod _ _ => destruct x | _ => idtac end
  | (if ?c then _ else _) = Ok _ => destruct c
  end;
  repeat match goal with Hp : push_acc _ _ = Ok _ |- _ => apply push_acc_eq in Hp; subst end;
  first [apply IH in H; rewrite H; reflexivity | injection H as _ <-; reflexivity].
Qed.

Lemma parse_fields_valid raw : forall id s s', Forall (fun i => 0 <= i) raw -> 0 <= id ->
  parse_fields lb raw id s = Ok (0, s') ->
  cs_raw s' = cs_raw s /\ exists rest, cs_spec s' = cs_spec s ++ rest /\ Forall (acc_valid lb ltys) rest.
Proof.
  induction raw as [|i raw IH]; intros id s s' Hraw Hid H; cbn [parse_fields] in H.
  { injection H as <-. split; [reflexivity|]. exists []. rewrite app_nil_r. auto. }
  apply Forall_cons_1 in Hraw as [Hi Hraw].
  apply bind_Ok_inv in H as ([p sid] & Hsk & H). destruct (skip_sound lb ltys lstrs Hrepl id p sid Hid Hsk) as [Hp Hs].
  apply bind_Ok_inv in H as ([|] & Hc & H).
  - destruct (composite_sound lb ltys p sid Hp Hc) as (t & Ht & Hat & Hct).
    rewrite (type_at_vlen _ _ _ Hat) in H. cbn [mbind res_bind] in H. pose proof (ty_vlen_ok _ (proj1 Hat)).
    destruct (Z.leb_spec (ty_vlen t) i); [injection H as H _; discriminate|].
    rewrite (u32_small i) in H by lia.
    destruct (member_sound lb p t i Hat Hct) as (m & Hm & H0n & H0t & _ & En & Et & Eb); [lia|].
    rewrite Eb, En, Et in H. cbn [mbind res_bind] in H. destruct (negb (m_name_off m =? 0)).
    + apply bind_Ok_inv in H as (name & Hn & H). apply bind_Ok_inv in H as ([|] & He & H); [discriminate|].
      apply bind_Ok_inv in H as (s1 & Hpush & H). apply push_acc_eq in Hpush as ->.
      destruct (IH _ _ _ Hraw H0t H) as [Hr (rest & Hspec & Hv)]. split; [exact Hr|].
      exists (mk_acc sid i name :: rest). cbn in Hspec. rewrite <- app_assoc in Hspec. split; [exact Hspec|].
      constructor; [|exact Hv].
      eapply (member_acc_valid p sid t i m name false); try eassumption; [eapply skips_idem, Hs | lia | reflexivity].
    + exact (IH _ _ _ Hraw H0t H).
  - apply bind_Ok_inv in H as ([|] & Ha & H); [|discriminate].
    apply bind_Ok_inv in H as (e & Hel & H). apply bind_Ok_inv in H as ([q eid] & Hse & H).
    assert (0 <= e) as He by (unfold array_type, t_word in Hel; destruct p; [discriminate|]; apply load32_range in Hel; lia).
    destruct (skip_sound lb ltys lstrs Hrepl e q eid He Hse) as [Hq _]. pose proof (points_nonneg lb ltys q eid Hq) as Heid.
    apply bind_Ok_inv in H as (n & _ & H). destruct (n <=? u32 i); [discriminate|].
    apply bind_Ok_inv in H as (s1 & Hpush & H). apply push_acc_eq in Hpush as ->.
    apply bind_Ok_inv in H as (sz & _ & H). destruct (Z.ltb_spec sz 0); [injection H as H _; lia|].
    destruct (IH _ _ _ Hraw Heid H) as [Hr (rest & Hspec & Hv)]. split; [exact Hr|].
    exists (mk_acc eid (u32 i) None :: rest). cbn in Hspec. rewrite <- app_assoc in Hspec. split; [exact Hspec|].
    constructor; [intros Hx; done | exact Hv].
Qed.

Lemma parse_valid id str local : 0 <= id -> bpf_core_spec_parse lb id str = Ok (0, local) ->
  Forall (fun i => 0 <= i) (cs_raw local) ->
  exists acc accs, cs_spec local = acc :: accs /\ acc_name acc = None /\ Forall (acc_valid lb ltys) accs.
Proof.
  unfold bpf_core_spec_parse. intros Hid H Hraw. destruct str as [|c str]; [discriminate|]. destruct (decide _); [discriminate|].
  apply bind_Ok_inv in H as ([err raw] & _ & H).
  destruct (negb _) eqn:He; [injection H as -> _; discriminate|]. clear He.
  destruct raw as [|i raw]; [discriminate|].
  apply bind_Ok_inv in H as ([p rid] & Hsk & H). destruct (skip_sound lb ltys lstrs Hrepl id p rid Hid Hsk) as [Hp _].
  pose proof (points_nonneg lb ltys p rid Hp) as Hrid.
  apply bind_Ok_inv in H as (s & Hs & H). apply bind_Ok_inv in H as (sz & _ & H). apply push_acc_eq in Hs as ->.
  destruct (Z.ltb_spec sz 0); [injection H as -> _; lia|].
  assert (cs_raw local = i :: raw) as Hr.
  { clear Hraw. revert H. generalize (u32 (i * sz * 8)). intros bits H. exact (parse_fields_raw _ _ _ _ _ _ H). }
  rewrite Hr in Hraw. apply Forall_cons_1 in Hraw as [_ Hraw].
  destruct (parse_fields_valid raw rid _ _ Hraw Hrid H) as [_ (rest & Hspec & Hv)]. cbn in Hspec.
  eexists _, rest. split; [exact Hspec | auto].
Qed.
End parse.

(** * 6. The claim and an example *)

(** C25: on well-formed types [bpf_core_spec_match] always answers: it ends
    without reading outside the data or the specification's arrays, and with
    1 exactly if there is an access path in the candidate type to the fields
    that the program named, of types that may be read as the local ones. It
    answers 0 only if there is none, and less than 0 only if the size of a
    type cannot be told. Well-formed are types as a compiler emits them:
    references to types there are, names within the strings, and no modifier,
    array or embedded structure that contains itself; structures are
    embedded in each other so little that the paths fit into the 64 places
    of the specification, and one more that the search may leave behind. *)
Theorem core_match_complete lb tb ltys tys lstrs strs ldepth depth type_id spec_str local targ_id :
  represents lb ltys lstrs -> represents tb tys strs ->
  wf_types ltys lstrs ldepth -> wf_types tys strs depth -> unambiguous tys strs ->
  0 <= type_id -> 0 <= targ_id <= zlen tys ->
  bpf_core_spec_parse lb type_id spec_str = Ok (0, local) -> Forall (fun i => 0 <= i) (cs_raw local) ->
  (length (cs_spec local) * S depth <= 63)%nat ->
  exists r s, bpf_core_spec_match lb local tb targ_id = Ok (r, s) /\
    (r = 1 /\ (exists off, root_access lb ltys tys lstrs strs (cs_spec local) targ_id (cs_raw s) off) \/
     r = 0 /\ (forall path off, ~ root_access lb ltys tys lstrs strs (cs_spec local) targ_id path off) \/
     r < 0 /\ exists id, r = s32 (size_of tys id)).
Proof.
  intros Hrepl Hrep Hwfl Hwf Hun Hid Htid Hparse Hraw Hlen.
  destruct (parse_valid lb ltys lstrs ldepth Hrepl Hwfl type_id spec_str local Hid Hparse Hraw) as (acc & accs & Hl & Hacc & Hv).
  rewrite Hl in Hlen. cbn [length] in Hlen.
  destruct (spec_match_total lb tb ltys tys lstrs strs ldepth depth Hrepl Hrep Hwfl Hwf Hun local targ_id acc accs Hl Hacc Hv Htid)
    as (r & s & Hm & Hr); [lia | nia |]. exists r, s. split; [exact Hm|].
  destruct Hr as [->|Hr]; [left | auto]. split; [reflexivity|].
  destruct (spec_match_sound lb tb ltys tys lstrs strs Hrepl Hrep Hun local targ_id 1 s acc accs Hl Hacc (proj1 Htid) Hm eq_refl)
    as (off & Ha & _). eauto.
Qed.

Lemma no_arrays tys id : Forall (fun t => ty_kind t <> BTF_KIND_ARRAY) tys -> forall id', ~ element tys id id'.
Proof.
  intros Hn id' (t & (sid & _ & Ht) & Hk & _). unfold ty_at in Ht. destruct (_ <=? _); [|discriminate].
  rewrite Forall_lookup in Hn. exact (Hn _ _ Ht Hk).
Qed.

Lemma targ_wf : wf_types targ_types targ_strs 1.
Proof.
  assert (forall id id', ~ element targ_types id id') as Hna
    by (intros id; apply no_arrays; repeat constructor; discriminate).
  assert (forall id, 0 <= id <= zlen targ_types -> exists sid, skips targ_types id sid /\ (sid = id)) as Hsk.
  { intros id Hid. change (zlen targ_types) with 3 in Hid. exists id. split; [|reflexivity].
    assert (id = 0 \/ id = 1 \/ id = 2 \/ id = 3) as [->|[->|[->| ->]]] by lia;
      [constructor | eapply skips_here; reflexivity..]. }
  split.
  - intros id Hid. destruct (Hsk id Hid) as (sid & ? & _). eauto.
  - intros id sid i m Hm. apply targ_members in Hm as [_ [(_ & _ & ->)|[(_ & _ & ->)|(_ & _ & ->)]]]; (vm_compute; discriminate).
  - intros id id' He. destruct (Hna _ _ He).
  - intros id t Ht. pose proof (ty_at_range _ _ _ Ht) as Hr. change (zlen targ_types) with 3 in Hr.
    assert (id = 1 \/ id = 2 \/ id = 3) as [->|[->| ->]] by lia; injection Ht as <-; eexists; reflexivity.
  - intros id _. exists 0%nat. constructor. apply Hna.
  - intros id _ id' (sid & i & m & Hm & Ha & ->) id2 (sid2 & i2 & m2 & Hm2 & Ha2 & ->).
    apply targ_members in Hm as [_ [(_ & _ & ->)|[(_ & _ & ->)|(_ & _ & ->)]]];
      try (destruct Ha as [Ha|Ha]; discriminate Ha).
    apply targ_members in Hm2 as [Hs2 [(_ & _ & ->)|[(-> & _ & ->)|(_ & _ & ->)]]];
      try (destruct Ha2 as [Ha2|Ha2]; discriminate Ha2).
    discriminate (skips_det _ _ _ _ Hs2 (skips_here targ_types 2 _ eq_refl eq_refl)).
Qed.

Lemma local_wf : wf_types local_types local_strs 0.
Proof.
  assert (forall id id', ~ element local_types id id') as Hna
    by (intros id; apply no_arrays; repeat constructor; discriminate).
  assert (forall id sid i m, has_member local_types id sid i m -> m = mk_member 15 1 0) as Hmem.
  { intros id sid i m (ty & _ & Hty & Hc & Hi & Hm). apply ty_at_range in Hty as Hr. change (zlen local_types) with 2 in Hr.
    assert (sid = 1 \/ sid = 2) as [->| ->] by lia; injection Hty as <-; cbn in Hi; [discriminate|].
    replace i with 0 in * by lia. injection Hm as <-. reflexivity. }
  split.
  - intros id Hid. change (zlen local_types) with 2 in Hid. exists id.
    assert (id = 0 \/ id = 1 \/ id = 2) as [->|[->| ->]] by lia; [constructor | eapply skips_here; reflexivity..].
  - intros id sid i m Hm. rewrite (Hmem _ _ _ _ Hm). discriminate.
  - intros id id' He. destruct (Hna _ _ He).
  - intros id t Ht. pose proof (ty_at_range _ _ _ Ht) as Hr. change (zlen local_types) with 2 in Hr.
    assert (id = 1 \/ id = 2) as [->| ->] by lia; injection Ht as <-; eexists; reflexivity.
  - intros id _. exists 0%nat. constructor. apply Hna.
  - intros id _ id' (sid & i & m & Hm & Ha & ->). rewrite (Hmem _ _ _ _ Hm) in Ha. destruct Ha as [Ha|Ha]; discriminate Ha.
Qed.

(** The structure has the field; the one embedded in it has not. *)
Lemma core_match_complete_witness :
  (exists r s, bpf_core_spec_match local_btf local_spec targ_btf 3 = Ok (r, s) /\
    (r = 1 /\ (exists off, root_access local_btf local_types targ_types local_strs targ_strs (cs_spec local_spec) 3 (cs_raw s) off) \/
     r = 0 /\ (forall path off, ~ root_access local_btf local_types targ_types local_strs targ_strs (cs_spec local_spec) 3 path off) \/
     r < 0 /\ exists id, r = s32 (size_of targ_types id))) /\
  forall path off, ~ root_access local_btf local_types targ_types local_strs targ_strs (cs_spec local_spec) 2 path off.
Proof.
  pose proof (fun id Hid => core_match_complete local_btf targ_btf local_types targ_types local_strs targ_strs 0 1 2
      (bytes_of "0:0") local_spec id local_represents targ_represents local_wf targ_wf targ_unambiguous ltac:(lia) Hid
      ltac:(vm_compute; reflexivity) ltac:(repeat constructor; discriminate) ltac:(vm_compute; lia)) as Hall.
  split; [apply Hall; vm_compute; split; discriminate|]. destruct (Hall 2 ltac:(vm_compute; split; discriminate)) as (r & s & Hm & Hr).
  assert (r = 0) as -> by (vm_compute in Hm; congruence).
  destruct Hr as [(Hx & _)|[(_ & Hno)|(Hx & _)]]; [discriminate | exact Hno | lia].
Defined.
