(* ===== verification/Elf.v ===== *)
(** libelf and the other calls with which libbpf opens an object file
    ([src/eBPF_app/libbpf/src/libbpf.c]). libelf is not part of the
    repository: an ELF file is what its functions answer about it. *)
From S2P Require Import Prelude CLib LibbpfObj LibbpfLoad.
From Stdlib Require Import Sorted.
#[local] Open Scope Z_scope.

(** * ELF files *)

(** The members of [GElf_Ehdr], [GElf_Shdr], [GElf_Sym] and [GElf_Rel] that
    the code reads. *)
Record elf_ehdr := mk_ehdr { e_type : Z; e_machine : Z; ei_data : Z; e_shstrndx : Z }.
Record elf_shdr := mk_shdr {
  sh_name : Z; sh_type : Z; sh_flags : Z; sh_size : Z; sh_link : Z; sh_info : Z; sh_entsize : Z
}.
Record elf_sym := mk_sym { st_name : Z; st_info : Z; st_shndx : Z; st_value : Z }.
Record elf_rel := mk_rel { r_offset : Z; r_info : Z }.

(** [Elf_Data]: [d_buf] is NULL for a section without bits. *)
Record elf_data := mk_data { d_buf : option (list byte); d_size : Z }.

(** A section: what [gelf_getshdr] and [elf_getdata] give, or NULL. *)
Record elf_scn := mk_scn { scn_shdr : option elf_shdr; scn_data : option elf_data }.

(** An [Elf *]: [gelf_getehdr], the sections from index 0 on, [elf_strptr]
    and whether [elf_rawdata] of a section (or of NULL) gives data. *)
Record elf := mk_elf {
  el_ehdr : option elf_ehdr;
  el_scns : list elf_scn;
  elf_strptr : Z -> Z -> option (list byte);
  elf_rawdata : Z -> bool
}.

Definition elf_getscn (e : elf) (i : Z) : option elf_scn :=
  if i <? 0 then None else el_scns e !! Z.to_nat i.
(** The sections in the order of [elf_nextscn], which begins with the
    second, each with the index the code counts for it. *)
Definition elf_nextscns (e : elf) : list (Z * elf_scn) :=
  zip (seqZ 1 (zlen (el_scns e) - 1)) (drop 1 (el_scns e)).

(** [gelf_getsym] and [gelf_getrel]: an entry of a section's data. *)
Class Libelf := {
  gelf_getsym : elf_data -> Z -> option elf_sym;
  gelf_getrel : elf_data -> Z -> option elf_rel
}.

Definition sizeof_sym : Z := 24.
Definition sizeof_insn : Z := 8.

Definition ET_REL : Z := 1.
Definition EM_BPF : Z := 247.
Definition ELFDATA2LSB : Z := 1.
Definition SHT_PROGBITS : Z := 1.
Definition SHT_SYMTAB : Z := 2.
Definition SHT_NOBITS : Z := 8.
Definition SHT_REL : Z := 9.
Definition SHF_EXECINSTR : Z := 4.
Definition SHN_LORESERVE : Z := 0xff00.
Definition STB_GLOBAL : Z := 1.
Definition STT_OBJECT : Z := 1.

Definition GELF_ST_BIND (info : Z) : Z := Z.shiftr (u8 info) 4.
Definition GELF_ST_TYPE (info : Z) : Z := Z.land info 0xf.
Definition GELF_R_SYM (info : Z) : Z := Z.shiftr info 32.

Definition nr_syms (d : elf_data) : Z := d_size d / sizeof_sym.

(** The bytes of a section's data, as [memcpy] of [n] of them reads them. *)
Definition data_read (d : elf_data) (off n : Z) : res (list byte) :=
  if n =? 0 then Ok [] else
  match d_buf d with
  | None => Err NullDeref
  | Some buf => mread buf off n
  end.

(** * The system *)

Class ElfSys (K : Type) := {
  elf_version : K -> bool;
  (** [open(path, O_RDONLY)] *)
  sys_open : K -> string -> sysret * K;
  elf_begin : K -> Z -> option elf * K;
  elf_memory : K -> list byte -> option elf * K;
  (** the release that [uname] tells *)
  sys_uname : K -> list byte;
  (** the address the allocator gives next *)
  sys_addr : K -> Z;
  (** what a fresh block for relocation entries holds at each index *)
  sys_junk_reloc : K -> Z -> reloc_desc;
  (** [access(path, R_OK)], and the size [stat] tells *)
  sys_access : K -> string -> bool;
  sys_stat : K -> string -> sysret;
  (** [fopen(path, "rb")], and [fread] of up to so many bytes *)
  sys_fopen : K -> string -> sysret * K;
  sys_fread : K -> Z -> Z -> list byte * K
}.

Class ElfSysLaws (K : Type) `{BpfSys K} `{ElfSys K} := {
  open_gives k p : gives_fd k (sys_open k p);
  begin_fds k fd : open_fds (snd (elf_begin k fd)) = open_fds k;
  memory_fds k m : open_fds (snd (elf_memory k m)) = open_fds k;
  fopen_gives k p : gives_fd k (sys_fopen k p);
  fread_fds k fd n : open_fds (snd (sys_fread k fd n)) = open_fds k;
  fread_len k fd n : zlen (fst (sys_fread k fd n)) <= Z.max 0 n
}.

(** * Sorting *)

(** [qsort]: the elements in an order the comparison agrees with, if it is
    one on them. *)
Class Qsort := {
  qsort : forall {A : Type}, (A -> A -> Z) -> list A -> list A;
  qsort_perm : forall {A} (cmp : A -> A -> Z) l, qsort cmp l ≡ₚ l;
  qsort_sorted : forall {A} (cmp : A -> A -> Z) l,
    (forall x y, x ∈ l -> y ∈ l -> cmp x y <= 0 \/ cmp y x <= 0) ->
    (forall x y z, x ∈ l -> y ∈ l -> z ∈ l -> cmp x y <= 0 -> cmp y z <= 0 -> cmp x z <= 0) ->
    StronglySorted (fun x y => cmp x y <= 0) (qsort cmp l)
}.

(** It exists: insertion. *)
Section insertion.
Context {A : Type} (cmp : A -> A -> Z).

Fixpoint insert (x : A) (l : list A) : list A :=
  match l with
  | [] => [x]
  | y :: l' => if cmp x y <=? 0 then x :: l else y :: insert x l'
  end.
Definition insertion (l : list A) : list A := foldr insert [] l.

Lemma insert_perm x l : insert x l ≡ₚ x :: l.
Proof.
  induction l as [|y l IH]; cbn [insert]; [reflexivity|].
  destruct (cmp x y <=? 0); [reflexivity|]. rewrite IH. apply Permutation_swap.
Qed.

Lemma insertion_perm l : insertion l ≡ₚ l.
Proof.
  induction l as [|x l IH]; [reflexivity|]. cbn. rewrite insert_perm, IH. reflexivity.
Qed.

Lemma insert_sorted x l (P : A -> Prop) :
  (forall x y, P x -> P y -> cmp x y <= 0 \/ cmp y x <= 0) ->
  (forall x y z, P x -> P y -> P z -> cmp x y <= 0 -> cmp y z <= 0 -> cmp x z <= 0) ->
  P x -> Forall P l -> StronglySorted (fun x y => cmp x y <= 0) l ->
  StronglySorted (fun x y => cmp x y <= 0) (insert x l).
Proof.
  intros Htot Htr Hx Hl Hs. induction Hs as [|y l Hs IH Hy]; cbn [insert].
  { constructor; constructor. }
  apply Forall_cons in Hl as [HPy Hl]. destruct (Z.leb_spec (cmp x y) 0) as [Hle|Hgt].
  - constructor; [constructor; assumption|]. constructor; [exact Hle|].
    rewrite Forall_forall in Hy, Hl |- *. intros z Hz. apply (Htr x y z); auto.
  - constructor; [apply IH, Hl|]. rewrite insert_perm. constructor; [|exact Hy].
    destruct (Htot x y Hx HPy); [lia | assumption].
Qed.

Lemma insertion_sorted l :
  (forall x y, x ∈ l -> y ∈ l -> cmp x y <= 0 \/ cmp y x <= 0) ->
  (forall x y z, x ∈ l -> y ∈ l -> z ∈ l -> cmp x y <= 0 -> cmp y z <= 0 -> cmp x z <= 0) ->
  StronglySorted (fun x y => cmp x y <= 0) (insertion l).
Proof.
  intros Htot Htr. assert (forall k, Forall (fun x => x ∈ l) k ->
    StronglySorted (fun x y => cmp x y <= 0) (insertion k)) as Hk.
  { induction 1 as [|x k Hx Hk IH]; [constructor|]. cbn.
    apply (insert_sorted x _ (fun x => x ∈ l)); auto.
    rewrite insertion_perm. exact Hk. }
  apply Hk, Forall_forall. auto.
Qed.
End insertion.

Definition insertion_qsort : Qsort := {|
  qsort := @insertion;
  qsort_perm := @insertion_perm;
  qsort_sorted := @insertion_sorted
|}.
