(* ===== verification/ErrMonad.v ===== *)
(** A state and error monad for code that updates an object and returns a
    negative error code as soon as a step fails, with a weakest precondition
    to reason about it. A step can also fault, which ends everything. *)
From S2P Require Import Prelude.
#[local] Open Scope Z_scope.

(** * The monad *)

Definition errm (St A : Type) : Type := St -> res ((Z + A) * St).

#[export] Instance errm_ret {St} : MRet (errm St) := fun A a s => Ok (inr a, s).
#[export] Instance errm_bind {St} : MBind (errm St) := fun A B f m s =>
  match m s with
  | Ok (inr a, s) => f a s
  | Ok (inl e, s) => Ok (inl e, s)
  | Err fl => Err fl
  end.

Section ops.
Context {St : Type}.

(** [return e], the state read, the state changed, a computation that may
    fault, a call that changes the state and gives a value. *)
Definition throw {A} (e : Z) : errm St A := fun s => Ok (inl e, s).
Definition gets {A} (f : St -> A) : errm St A := fun s => Ok (inr (f s), s).
Definition modify (f : St -> St) : errm St unit := fun s => Ok (inr tt, f s).
Definition lift {A} (m : res A) : errm St A := fun s =>
  match m with Ok a => Ok (inr a, s) | Err fl => Err fl end.
Definition call {A} (f : St -> A * St) : errm St A := fun s =>
  let '(a, s) := f s in Ok (inr a, s).
(** "if (err) return err;" and "if (cond) return err;". *)
Definition check (e : Z) : errm St unit := if e =? 0 then mret tt else throw e.
Definition reject (b : bool) (e : Z) : errm St unit := if b then throw e else mret tt.

Fixpoint for_each {A} (f : A -> errm St unit) (l : list A) : errm St unit :=
  match l with
  | [] => mret tt
  | x :: l => _ ← f x; for_each f l
  end.
End ops.

(** * Weakest preconditions *)

(** [wp F m Q E s]: from [s], [m] ends in a value and a state in [Q], in an
    error and a state in [E], or in a fault in [F]. *)
Definition wp {St A} (F : fault -> Prop) (m : errm St A) (Q : A -> St -> Prop)
    (E : Z -> St -> Prop) (s : St) : Prop :=
  match m s with
  | Ok (inr a, s) => Q a s
  | Ok (inl e, s) => E e s
  | Err fl => F fl
  end.

(** Any fault, and no fault. *)
Definition any_fault (fl : fault) : Prop := True.
Definition no_fault (fl : fault) : Prop := False.

Section wp.
Context {St : Type} (F : fault -> Prop).
Implicit Types (s : St) (E : Z -> St -> Prop).

Lemma wp_ret {A} (a : A) (Q : A -> St -> Prop) E s : wp F (mret a) Q E s <-> Q a s.
Proof. reflexivity. Qed.

Lemma wp_bind {A B} (m : errm St A) (f : A -> errm St B) (Q : B -> St -> Prop) E s :
  wp F (m ≫= f) Q E s <-> wp F m (fun a => wp F (f a) Q E) E s.
Proof.
  unfold wp, mbind, errm_bind. destruct (m s) as [[[e|a] s']|fl]; reflexivity.
Qed.

Lemma wp_throw {A} e (Q : A -> St -> Prop) E s : wp F (throw e) Q E s <-> E e s.
Proof. reflexivity. Qed.

Lemma wp_gets {A} (f : St -> A) (Q : A -> St -> Prop) E s : wp F (gets f) Q E s <-> Q (f s) s.
Proof. reflexivity. Qed.

Lemma wp_modify f (Q : unit -> St -> Prop) E s : wp F (modify f) Q E s <-> Q tt (f s).
Proof. reflexivity. Qed.

Lemma wp_lift {A} (m : res A) (Q : A -> St -> Prop) E s :
  wp F (lift m) Q E s <-> match m with Ok a => Q a s | Err fl => F fl end.
Proof. unfold wp, lift. destruct m; reflexivity. Qed.

Lemma wp_call {A} (f : St -> A * St) (Q : A -> St -> Prop) E s :
  wp F (call f) Q E s <-> Q (fst (f s)) (snd (f s)).
Proof. unfold wp, call. destruct (f s); reflexivity. Qed.

Lemma wp_check e (Q : unit -> St -> Prop) E s :
  wp F (check e) Q E s <-> (e = 0 /\ Q tt s) \/ (e <> 0 /\ E e s).
Proof.
  unfold check. destruct (Z.eqb_spec e 0); [rewrite wp_ret | rewrite wp_throw]; tauto.
Qed.

Lemma wp_reject b e (Q : unit -> St -> Prop) E s :
  wp F (reject b e) Q E s <-> if b then E e s else Q tt s.
Proof. destruct b; reflexivity. Qed.

Lemma wp_mono {A} (m : errm St A) (Q Q' : A -> St -> Prop) E E' s :
  wp F m Q E s -> (forall a s, Q a s -> Q' a s) -> (forall e s, E e s -> E' e s) ->
  wp F m Q' E' s.
Proof. unfold wp. destruct (m s) as [[[e|a] s']|fl]; auto. Qed.

Lemma wp_conj {A} (m : errm St A) (Q Q' : A -> St -> Prop) E E' s :
  wp F m Q E s -> wp F m Q' E' s ->
  wp F m (fun a s => Q a s /\ Q' a s) (fun e s => E e s /\ E' e s) s.
Proof. unfold wp. destruct (m s) as [[[e|a] s']|fl]; auto. Qed.

(** A loop that keeps an invariant: [I] of the elements still to come. *)
Lemma wp_for_each {A} (f : A -> errm St unit) (I : list A -> St -> Prop) E l : forall s,
  I l s ->
  (forall x l s, I (x :: l) s -> wp F (f x) (fun _ => I l) E s) ->
  wp F (for_each f l) (fun _ => I []) E s.
Proof.
  induction l as [|x l IH]; intros s Hs Hf; cbn [for_each]; [exact Hs|].
  apply wp_bind. eapply wp_mono; [exact (Hf x l s Hs)| |auto].
  intros [] s' Hs'. apply IH; assumption.
Qed.

(** The invariant of every step is that of the loop. *)
Lemma wp_for_each_inv {A} (f : A -> errm St unit) (I : St -> Prop) E l s :
  I s -> (forall x s, x ∈ l -> I s -> wp F (f x) (fun _ => I) E s) ->
  wp F (for_each f l) (fun _ => I) E s.
Proof.
  intros Hs Hf. eapply wp_mono.
  - apply (wp_for_each f (fun k s => I s /\ forall x, x ∈ k -> x ∈ l) E); [auto|].
    intros x k s' [Hs' Hk]. eapply wp_mono; [apply Hf; [apply Hk; left | exact Hs']| |auto].
    intros [] s'' H. split; [exact H|]. intros y Hy. apply Hk. right. exact Hy.
  - intros [] s' [Hs' _]. exact Hs'.
  - auto.
Qed.
End wp.

Lemma wp_fault {St A} (F F' : fault -> Prop) (m : errm St A) Q E s :
  (forall fl, F fl -> F' fl) -> wp F m Q E s -> wp F' m Q E s.
Proof. unfold wp. destruct (m s) as [[[e|a] s']|fl]; auto. Qed.

(** What a run gives, from the precondition. *)
Lemma wp_run {St A} (m : errm St A) Q E s :
  wp no_fault m Q E s ->
  exists r s', m s = Ok (r, s') /\ match r with inr a => Q a s' | inl e => E e s' end.
Proof.
  unfold wp. destruct (m s) as [[[e|a] s']|fl]; [..|intros []]; intros H;
    [exists (inl e) | exists (inr a)]; exists s'; auto.
Qed.

(** One step of a goal about [wp]. *)
Ltac wp_step :=
  lazymatch goal with
  | |- wp _ (mbind _ _) _ _ _ => apply wp_bind
  | |- wp _ (mret _) _ _ _ => apply wp_ret
  | |- wp _ (throw _) _ _ _ => apply wp_throw
  | |- wp _ (gets _) _ _ _ => apply wp_gets
  | |- wp _ (modify _) _ _ _ => apply wp_modify
  | |- wp _ (call _) _ _ _ => apply wp_call
  | |- wp _ (reject ?b _) _ _ _ => apply wp_reject; destruct b eqn:?
  | |- wp _ (check ?e) _ _ _ => apply wp_check; destruct (Z.eq_dec e 0); [left | right]; (split; [assumption|])
  | |- wp _ (lift ?m) _ _ _ => apply wp_lift; destruct m eqn:?
  | |- wp _ (if ?b then _ else _) _ _ _ => destruct b eqn:?
  | |- wp _ (let '(_, _) := ?x in _) _ _ _ => destruct x eqn:?
  | |- wp _ (match ?x with _ => _ end) _ _ _ => destruct x eqn:?
  end.
