(* ===== verification/OpenObj.v ===== *)
(** Opening an object file, 1: the object while it is being opened
    ([src/eBPF_app/libbpf/src/libbpf.c]: [struct bpf_object] with its ELF
    state, [bpf_object__new], [bpf_object__elf_init],
    [bpf_object__elf_finish], and the sections that need nothing else). *)
From S2P Require Import Prelude CLib LibbpfObj LibbpfLoad Btf BtfExt Elf ErrMonad.
#[local] Open Scope Z_scope.

Definition EIO : Z := 5.
Definition LIBBPF_ERRNO__LIBELF : Z := 4000.
Definition LIBBPF_ERRNO__FORMAT : Z := 4001.
Definition LIBBPF_ERRNO__ENDIAN : Z := 4003.

(** * Data *)

(** [efile] of [struct bpf_object]. *)
Record efile := mk_efile {
  ef_fd : Z;
  ef_elf : option elf;
  ef_ehdr : elf_ehdr;
  ef_symbols : option elf_data;
  ef_data : option elf_data;
  ef_rodata : option elf_data;
  ef_bss : option elf_data;
  strtabidx : Z;
  ef_reloc : list (elf_shdr * elf_data);
  ef_maps_shndx : Z;
  ef_btf_maps_shndx : Z;
  ef_text_shndx : Z;
  ef_data_shndx : Z;
  ef_rodata_shndx : Z;
  ef_bss_shndx : Z
}.

(** What the kernel supports. *)
Record capabilities := mk_caps {
  cap_name : bool; cap_global_data : bool; cap_btf_func : bool; cap_btf_datasec : bool
}.

(** A map with its place in its section, which only opening needs. *)
Record open_map := mk_omap { om_map : bpf_map; sec_offset : Z }.

(** [struct bpf_object]. [o_name] and [o_license] are the arrays; a buffer
    of [sections] that was not allocated is empty. *)
Record open_obj := mk_oobj {
  o_id : Z;
  o_path : string;
  o_name : list byte;
  o_license : list byte;
  o_kern_version : Z;
  o_programs : list bpf_program;
  o_maps : list open_map;
  maps_cap : Z;
  o_rodata : list byte;
  o_data : list byte;
  o_pseudo_calls : bool;
  relaxed_core_relocs : bool;
  o_efile : efile;
  o_btf : option btf;
  o_btf_ext : option btf_ext;
  o_caps : capabilities
}.

(** ** Field updates *)

Definition set_ef_elf (fd : Z) (e : option elf) (x : efile) : efile :=
  let 'mk_efile _ _ h s d r b l rl m bm t ds rs bs := x in
  mk_efile fd e h s d r b l rl m bm t ds rs bs.
Definition set_ehdr (h : elf_ehdr) (x : efile) : efile :=
  let 'mk_efile fd e _ s d r b l rl m bm t ds rs bs := x in
  mk_efile fd e h s d r b l rl m bm t ds rs bs.
Definition set_symbols (s : option elf_data) (l : Z) (x : efile) : efile :=
  let 'mk_efile fd e h _ d r b _ rl m bm t ds rs bs := x in
  mk_efile fd e h s d r b l rl m bm t ds rs bs.
Definition set_ef_data (d : elf_data) (i : Z) (x : efile) : efile :=
  let 'mk_efile fd e h s _ r b l rl m bm t _ rs bs := x in
  mk_efile fd e h s (Some d) r b l rl m bm t i rs bs.
Definition set_ef_rodata (r : elf_data) (i : Z) (x : efile) : efile :=
  let 'mk_efile fd e h s d _ b l rl m bm t ds _ bs := x in
  mk_efile fd e h s d (Some r) b l rl m bm t ds i bs.
Definition set_ef_bss (b : elf_data) (i : Z) (x : efile) : efile :=
  let 'mk_efile fd e h s d r _ l rl m bm t ds rs _ := x in
  mk_efile fd e h s d r (Some b) l rl m bm t ds rs i.
Definition set_ef_reloc (rl : list (elf_shdr * elf_data)) (x : efile) : efile :=
  let 'mk_efile fd e h s d r b l _ m bm t ds rs bs := x in
  mk_efile fd e h s d r b l rl m bm t ds rs bs.
Definition set_ef_maps_shndx (m : Z) (x : efile) : efile :=
  let 'mk_efile fd e h s d r b l rl _ bm t ds rs bs := x in
  mk_efile fd e h s d r b l rl m bm t ds rs bs.
Definition set_ef_btf_maps_shndx (bm : Z) (x : efile) : efile :=
  let 'mk_efile fd e h s d r b l rl m _ t ds rs bs := x in
  mk_efile fd e h s d r b l rl m bm t ds rs bs.
Definition set_ef_text_shndx (t : Z) (x : efile) : efile :=
  let 'mk_efile fd e h s d r b l rl m bm _ ds rs bs := x in
  mk_efile fd e h s d r b l rl m bm t ds rs bs.

Definition upd_efile (f : efile -> efile) (x : open_obj) : open_obj :=
  let 'mk_oobj i p n l v ps ms c ro da pc rc e b be ca := x in
  mk_oobj i p n l v ps ms c ro da pc rc (f e) b be ca.
Definition set_o_license (l : list byte) (x : open_obj) : open_obj :=
  let 'mk_oobj i p n _ v ps ms c ro da pc rc e b be ca := x in
  mk_oobj i p n l v ps ms c ro da pc rc e b be ca.
Definition set_o_kern_version (v : Z) (x : open_obj) : open_obj :=
  let 'mk_oobj i p n l _ ps ms c ro da pc rc e b be ca := x in
  mk_oobj i p n l v ps ms c ro da pc rc e b be ca.
Definition set_o_programs (ps : list bpf_program) (x : open_obj) : open_obj :=
  let 'mk_oobj i p n l v _ ms c ro da pc rc e b be ca := x in
  mk_oobj i p n l v ps ms c ro da pc rc e b be ca.
Definition set_o_maps (ms : list open_map) (c : Z) (x : open_obj) : open_obj :=
  let 'mk_oobj i p n l v ps _ _ ro da pc rc e b be ca := x in
  mk_oobj i p n l v ps ms c ro da pc rc e b be ca.
Definition set_o_rodata (ro : list byte) (x : open_obj) : open_obj :=
  let 'mk_oobj i p n l v ps ms c _ da pc rc e b be ca := x in
  mk_oobj i p n l v ps ms c ro da pc rc e b be ca.
Definition set_o_data (da : list byte) (x : open_obj) : open_obj :=
  let 'mk_oobj i p n l v ps ms c ro _ pc rc e b be ca := x in
  mk_oobj i p n l v ps ms c ro da pc rc e b be ca.
Definition set_o_pseudo (pc : bool) (x : open_obj) : open_obj :=
  let 'mk_oobj i p n l v ps ms c ro da _ rc e b be ca := x in
  mk_oobj i p n l v ps ms c ro da pc rc e b be ca.
Definition set_o_relaxed (rc : bool) (x : open_obj) : open_obj :=
  let 'mk_oobj i p n l v ps ms c ro da pc _ e b be ca := x in
  mk_oobj i p n l v ps ms c ro da pc rc e b be ca.
Definition set_o_btf (b : option btf) (x : open_obj) : open_obj :=
  let 'mk_oobj i p n l v ps ms c ro da pc rc e _ be ca := x in
  mk_oobj i p n l v ps ms c ro da pc rc e b be ca.
Definition set_o_btf_ext (be : option btf_ext) (x : open_obj) : open_obj :=
  let 'mk_oobj i p n l v ps ms c ro da pc rc e b _ ca := x in
  mk_oobj i p n l v ps ms c ro da pc rc e b be ca.
Definition set_o_caps (f : capabilities -> capabilities) (x : open_obj) : open_obj :=
  let 'mk_oobj i p n l v ps ms c ro da pc rc e b be ca := x in
  mk_oobj i p n l v ps ms c ro da pc rc e b be (f ca).

(** ** The object that is handed out *)

(** The string in an array, up to the end of the array at most. *)
Definition in_array (a : list byte) : list byte :=
  match c_string a with Ok s => s | Err _ => a end.

(** The object as the rest of the library uses it. *)
Definition to_object (o : open_obj) : bpf_object :=
  mk_obj (o_id o) (string_of (in_array (o_license o))) (o_kern_version o) (o_programs o)
    (om_map <$> o_maps o) (o_rodata o) (o_data o) false (o_pseudo_calls o)
    (cap_name (o_caps o)) (ef_text_shndx (o_efile o)) (ef_btf_maps_shndx (o_efile o))
    (b_fd <$> o_btf o) (match o_btf_ext o with Some _ => true | None => false end).

(** * Creating the object *)

(** A number as [sscanf]'s %u reads it: white space, a sign, digits. *)
Fixpoint skip_digits (s : list byte) : list byte :=
  match s with
  | b :: s' => if is_digit b then skip_digits s' else s
  | [] => []
  end.
Definition scan_digits (neg : bool) (s : list byte) : option (Z * list byte) :=
  match s with
  | b :: _ =>
      if is_digit b then
        let v := Z.min (digits s 0) (2 ^ 64 - 1) in
        Some (u32 (if neg then - v else v), skip_digits s)
      else None
  | [] => None
  end.
Definition scan_u (s : list byte) : option (Z * list byte) :=
  match skip_space s with
  | b :: r => if decide (b = Byte.x2d) then scan_digits true r else
              if decide (b = Byte.x2b) then scan_digits false r else scan_digits false (b :: r)
  | [] => None
  end.
(** [scan_u] behind a dot. *)
Definition scan_dot_u (s : list byte) : option (Z * list byte) :=
  match s with
  | b :: s => if decide (b = Byte.x2e) then scan_u s else None
  | [] => None
  end.

Definition KERNEL_VERSION (a b c : Z) : Z := u32 (Z.shiftl a 16 + Z.shiftl b 8 + c).

Definition get_kernel_version (release : list byte) : Z :=
  match scan_u release with
  | None => 0
  | Some (major, s) =>
      match scan_dot_u s with
      | None => 0
      | Some (minor, s) =>
          match scan_dot_u s with
          | None => 0
          | Some (patch, _) => KERNEL_VERSION major minor patch
          end
      end
  end.

(** [basename] of the GNU library: what follows the last slash. *)
Fixpoint basename (s : list byte) : list byte :=
  match s with
  | [] => []
  | b :: s' => if decide (Byte.x2f ∈ s') then basename s'
               else if decide (b = Byte.x2f) then s' else s
  end.

(** [end = strchr(s, '.'); if (end) *end = 0;] *)
Fixpoint cut_dot (m : list byte) : list byte :=
  match m with
  | [] => []
  | b :: m' => if decide (b = NUL) then m else
               if decide (b = Byte.x2e) then NUL :: m' else b :: cut_dot m'
  end.

Definition new_name (path : string) (obj_name : option string) : list byte :=
  match obj_name with
  | Some s => strncpy (bytes_of s) 15 ++ [NUL]
  | None => cut_dot (strncpy (basename (bytes_of path)) 15 ++ [NUL])
  end.

Definition no_caps : capabilities := mk_caps false false false false.
Definition no_efile : efile :=
  mk_efile (-1) None (mk_ehdr 0 0 0 0) None None None None 0 [] (-1) (-1) 0 (-1) (-1) (-1).

Section open.
Context {K : Type} `{BpfSys K} `{ElfSys K} `{Libelf}.

(** [bpf_object__new]; [None] is -ENOMEM. The list of all objects is left
    out. *)
Definition bpf_object__new (k : K) (path : string) (obj_name : option string)
    : option open_obj * K :=
  let addr := sys_addr k in
  let '(ok, k) := sys_alloc k in
  if negb ok then (None, k) else
  (Some (mk_oobj addr path (new_name path obj_name) (replicate 64 NUL)
           (get_kernel_version (sys_uname k)) [] [] 0 [] [] false false no_efile None None no_caps),
   k).

(** * Steps on the object *)

(** The object that is being opened, and the system. *)
Definition ost : Type := open_obj * K.
Definition M (A : Type) : Type := errm ost A.

Definition geto {A} (f : open_obj -> A) : M A := gets (fun s => f (fst s)).
Definition getk {A} (f : K -> A) : M A := gets (fun s => f (snd s)).
Definition updo (f : open_obj -> open_obj) : M unit := modify (fun s => (f (fst s), snd s)).
Definition upd_prog (i : Z) (f : bpf_program -> bpf_program) : M unit :=
  updo (fun o => set_o_programs (alter f (Z.to_nat i) (o_programs o)) o).
Definition sysk {A} (f : K -> A * K) : M A :=
  call (fun s => let '(a, k) := f (snd s) in (a, (fst s, k))).
Definition sysr {A} (f : K -> res (A * K)) : M A := fun s =>
  match f (snd s) with Ok (a, k) => Ok (inr a, (fst s, k)) | Err fl => Err fl end.
(** [malloc], [strdup] and the like, and what to do when they fail. *)
Definition alloc : M bool := sysk sys_alloc.
Definition alloc_or (e : Z) : M unit := ok ← alloc; reject (negb ok) e.

Definition obj_elf_valid (o : open_obj) : bool :=
  match ef_elf (o_efile o) with Some _ => true | None => false end.

(** [bpf_object__elf_finish]: [elf_end] gives back what libelf allocated. *)
Definition finish_efile (e : efile) : efile :=
  mk_efile (-1) None (ef_ehdr e) None None None None (strtabidx e) []
    (ef_maps_shndx e) (ef_btf_maps_shndx e) (ef_text_shndx e) (ef_data_shndx e)
    (ef_rodata_shndx e) (ef_bss_shndx e).
Definition elf_finish (o : open_obj) (k : K) : open_obj * K :=
  if negb (obj_elf_valid o) then (o, k) else
  let '(_, k) := zclose k (ef_fd (o_efile o)) in
  (upd_efile finish_efile o, k).
Definition bpf_object__elf_finish : M unit :=
  call (fun s => (tt, elf_finish (fst s) (snd s))).

(** The label [errout] of [bpf_object__elf_init]. *)
Definition elf_init_fails {A} (e : Z) : M A := _ ← bpf_object__elf_finish; throw e.

(** From a buffer, if there is one, or from the file. *)
Definition elf_init_open (obj_buf : list byte) : M unit :=
  if negb (bool_decide (obj_buf = [])) then
    e ← sysk (fun k => elf_memory k obj_buf);
    updo (upd_efile (set_ef_elf (-1) e))
  else
    path ← geto o_path;
    r ← sysk (fun k => sys_open k path);
    match r with
    | RErr e => throw (- e)
    | ROk fd =>
        e ← sysk (fun k => elf_begin k fd);
        updo (upd_efile (set_ef_elf fd e))
    end.
Definition elf_init_check : M unit :=
  e ← geto (fun o => ef_elf (o_efile o));
  match e with
  | None => elf_init_fails (- LIBBPF_ERRNO__LIBELF)
  | Some e =>
      match el_ehdr e with
      | None => elf_init_fails (- LIBBPF_ERRNO__FORMAT)
      | Some ep =>
          _ ← updo (upd_efile (set_ehdr ep));
          if negb (e_type ep =? ET_REL) || (negb (e_machine ep =? 0) && negb (e_machine ep =? EM_BPF))
          then elf_init_fails (- LIBBPF_ERRNO__FORMAT)
          else mret tt
      end
  end.
Definition bpf_object__elf_init (obj_buf : list byte) : M unit :=
  valid ← geto obj_elf_valid;
  _ ← reject valid (- LIBBPF_ERRNO__LIBELF);
  _ ← elf_init_open obj_buf;
  elf_init_check.

Definition bpf_object__check_endianness : M unit :=
  ep ← geto (fun o => ef_ehdr (o_efile o));
  reject (negb (ei_data ep =? ELFDATA2LSB)) (- LIBBPF_ERRNO__ENDIAN).

(** ** Sections that are copied *)

Definition bpf_object__init_license (d : elf_data) : M unit :=
  bytes ← lift (data_read d 0 (Z.min (d_size d) 63));
  l ← geto o_license;
  l ← lift (mwrite l 0 bytes);
  updo (set_o_license l).

Definition bpf_object__init_kversion (d : elf_data) : M unit :=
  _ ← reject (negb (d_size d =? 4)) (- LIBBPF_ERRNO__FORMAT);
  bytes ← lift (data_read d 0 4);
  updo (set_o_kern_version (le_val bytes)).

End open.
