(* ===== verification/OpenProgs.v ===== *)
(** Opening an object file, 2: the programs and their names, and the loop
    over the sections ([bpf_program__init] to [bpf_object__init_prog_names]
    and the loop of [bpf_object__elf_collect] in
    [src/eBPF_app/libbpf/src/libbpf.c]). *)
From S2P Require Import Prelude CLib LibbpfObj LibbpfLoad Elf ErrMonad OpenObj.
#[local] Open Scope Z_scope.

(** An instruction from its 8 bytes: [dst_reg] is the lower half of the
    second byte, [off] and [imm] are signed. *)
Definition s16 (z : Z) : Z := (z + 2 ^ 15) mod 2 ^ 16 - 2 ^ 15.
Definition decode_insn (bs : list byte) : bpf_insn :=
  let v := le_val bs in
  mk_insn (u8 v) (Z.land (Z.shiftr v 8) 0xf) (Z.land (Z.shiftr v 12) 0xf)
    (s16 (Z.shiftr v 16)) (s32 (Z.shiftr v 32)).
(** The [n] instructions at the front of the bytes. *)
Fixpoint decode_insns (n : nat) (bs : list byte) : list bpf_insn :=
  match n with
  | O => []
  | S n => decode_insn (take 8 bs) :: decode_insns n (drop 8 bs)
  end.

Section progs.
Context {K : Type} `{BpfSys K} `{ElfSys K} `{Libelf}.
#[local] Abbreviation M := (@OpenObj.M K).

(** * Programs *)

(** [__bpf_program__pin_name]: nothing checks that the copy was made before
    its slashes are replaced. The name is used for pinning programs only,
    where it is computed from the section's name. *)
Definition bpf_program__pin_name : M unit :=
  ok ← alloc;
  if negb ok then lift (Err NullDeref) else mret tt.

(** [bpf_program__init]: the new program. What it had allocated is freed
    when an allocation fails. *)
Definition bpf_program__init (d : elf_data) (section_name : string) (idx : Z) : M bpf_program :=
  _ ← reject ((d_size d =? 0) || negb (d_size d mod sizeof_insn =? 0)) (- EINVAL);
  _ ← alloc_or (- ENOMEM);
  _ ← bpf_program__pin_name;
  _ ← alloc_or (- ENOMEM);
  bytes ← lift (data_read d 0 (d_size d));
  mret (mk_prog idx None 0 section_name
          (Some (decode_insns (Z.to_nat (d_size d / sizeof_insn)) bytes)) 0
          BPF_PROG_TYPE_UNSPEC None 0 None 0 0 [] 0 0 [] 0 0 0).

Definition bpf_object__add_program (d : elf_data) (section_name : string) (idx : Z) : M unit :=
  prog ← bpf_program__init d section_name idx;
  _ ← alloc_or (- ENOMEM);
  progs ← geto o_programs;
  updo (set_o_programs (progs ++ [prog])).

(** ** Names *)

(** The loop over the symbols [sis] for the program in section [idx]. *)
Fixpoint find_prog_sym (e : elf) (strtab : Z) (symbols : elf_data) (idx : Z) (sis : list Z)
    : M (option (list byte)) :=
  match sis with
  | [] => mret None
  | si :: sis =>
      match gelf_getsym symbols si with
      | None => find_prog_sym e strtab symbols idx sis
      | Some sym =>
          if negb (st_shndx sym =? idx) then find_prog_sym e strtab symbols idx sis else
          if negb (GELF_ST_BIND (st_info sym) =? STB_GLOBAL)
          then find_prog_sym e strtab symbols idx sis else
          match elf_strptr e strtab (st_name sym) with
          | None => throw (- LIBBPF_ERRNO__LIBELF)
          | Some name => mret (Some name)
          end
      end
  end.

Definition set_p_name (name : string) (p : bpf_program) : bpf_program :=
  mk_prog (p_idx p) (Some name) (p_ifindex p) (section_name p) (p_insns p)
    (main_prog_cnt p) (p_type p) (p_relocs p) (p_log_level p) (p_instances p)
    (expected_attach_type p) (attach_btf_id p)
    (func_info p) (func_info_rec_size p) (func_info_cnt p)
    (line_info p) (line_info_rec_size p) (line_info_cnt p) (prog_flags p).

(** The symbols and the ELF file the code reads without a check. *)
Definition the_elf : M elf :=
  e ← geto (fun o => ef_elf (o_efile o)); lift (or_fault NullDeref e).
Definition the_symbols : M elf_data :=
  s ← geto (fun o => ef_symbols (o_efile o)); lift (or_fault NullDeref s).

(** The round for the program at [pi]. *)
Definition init_prog_name (pi : Z) : M unit :=
  progs ← geto o_programs;
  prog ← lift (aget progs pi);
  symbols ← the_symbols;
  e ← the_elf;
  strtab ← geto (fun o => strtabidx (o_efile o));
  text ← geto (fun o => ef_text_shndx (o_efile o));
  name ← find_prog_sym e strtab symbols (p_idx prog) (seqZ 0 (nr_syms symbols));
  let name := match name with
              | Some name => Some name
              | None => if p_idx prog =? text then Some (bytes_of ".text") else None
              end in
  match name with
  | None => throw (- EINVAL)
  | Some name =>
      _ ← alloc_or (- ENOMEM);
      upd_prog pi (set_p_name (string_of name))
  end.
Definition bpf_object__init_prog_names : M unit :=
  progs ← geto o_programs;
  for_each init_prog_name (seqZ 0 (zlen progs)).

(** * The sections *)

(** [section_have_execinstr]. *)
Definition section_have_execinstr (e : elf) (idx : Z) : bool :=
  match elf_getscn e idx with
  | None => false
  | Some scn =>
      match scn_shdr scn with
      | None => false
      | Some sh => negb (Z.land (sh_flags sh) SHF_EXECINSTR =? 0)
      end
  end.

(** The sections [.BTF] and [.BTF.ext] found so far. *)
Definition btf_secs : Type := option elf_data * option elf_data.

(** What the loop does with a section whose header, name and data it has. *)
Definition collect_section (e : elf) (idx : Z) (sh : elf_shdr) (name : list byte) (data : elf_data)
    (bs : btf_secs) : M btf_secs :=
  let named s := bool_decide (name = bytes_of s) in
  if named "license"%string then _ ← bpf_object__init_license data; mret bs
  else if named "version"%string then _ ← bpf_object__init_kversion data; mret bs
  else if named "maps"%string then _ ← updo (upd_efile (set_ef_maps_shndx idx)); mret bs
  else if named ".maps"%string then _ ← updo (upd_efile (set_ef_btf_maps_shndx idx)); mret bs
  else if named ".BTF"%string then mret (Some data, snd bs)
  else if named ".BTF.ext"%string then mret (fst bs, Some data)
  else if sh_type sh =? SHT_SYMTAB then
    s ← geto (fun o => ef_symbols (o_efile o));
    match s with
    | Some _ => throw (- LIBBPF_ERRNO__FORMAT)
    | None => _ ← updo (upd_efile (set_symbols (Some data) (sh_link sh))); mret bs
    end
  else if (sh_type sh =? SHT_PROGBITS) && (0 <? d_size data) then
    if negb (Z.land (sh_flags sh) SHF_EXECINSTR =? 0) then
      _ ← (if named ".text"%string then updo (upd_efile (set_ef_text_shndx idx)) else mret tt);
      _ ← bpf_object__add_program data (string_of name) idx;
      mret bs
    else if named ".data"%string then _ ← updo (upd_efile (set_ef_data data idx)); mret bs
    else if named ".rodata"%string then _ ← updo (upd_efile (set_ef_rodata data idx)); mret bs
    else mret bs
  else if sh_type sh =? SHT_REL then
    if negb (section_have_execinstr e (s32 (sh_info sh))) then mret bs else
    _ ← alloc_or (- ENOMEM);
    rl ← geto (fun o => ef_reloc (o_efile o));
    _ ← updo (upd_efile (set_ef_reloc (rl ++ [(sh, data)])));
    mret bs
  else if (sh_type sh =? SHT_NOBITS) && named ".bss"%string then
    _ ← updo (upd_efile (set_ef_bss data idx)); mret bs
  else mret bs.

(** The loop of [bpf_object__elf_collect]. *)
Fixpoint collect_sections (e : elf) (shstrndx : Z) (scns : list (Z * elf_scn)) (bs : btf_secs)
    : M btf_secs :=
  match scns with
  | [] => mret bs
  | (idx, scn) :: scns =>
      match scn_shdr scn with
      | None => throw (- LIBBPF_ERRNO__FORMAT)
      | Some sh =>
          match elf_strptr e shstrndx (sh_name sh) with
          | None => throw (- LIBBPF_ERRNO__FORMAT)
          | Some name =>
              match scn_data scn with
              | None => throw (- LIBBPF_ERRNO__FORMAT)
              | Some data =>
                  bs ← collect_section e idx sh name data bs;
                  collect_sections e shstrndx scns bs
              end
          end
      end
  end.

(** ** Looking into the ELF file *)

(** [bpf_object_search_section_size]: the error code and [*d_size]. *)
Fixpoint search_section_size (e : elf) (shstrndx : Z) (scns : list (Z * elf_scn))
    (name : list byte) : Z * option Z :=
  match scns with
  | [] => (- ENOENT, None)
  | (_, scn) :: scns =>
      match scn_shdr scn with
      | None => (- EIO, None)
      | Some sh =>
          match elf_strptr e shstrndx (sh_name sh) with
          | None => (- EIO, None)
          | Some sec_name =>
              if negb (bool_decide (name = sec_name)) then search_section_size e shstrndx scns name
              else match scn_data scn with
                   | None => (- EIO, None)
                   | Some d => (0, Some (d_size d))
                   end
          end
      end
  end.

Definition u32_size (d : option elf_data) : Z := match d with Some d => u32 (d_size d) | None => 0 end.

(** [bpf_object__section_size]: the error code and [*size]. *)
Definition bpf_object__section_size (f : efile) (name : option (list byte)) : res (Z * Z) :=
  match name with
  | None => Ok (- EINVAL, 0)
  | Some name =>
      '(ret, size) ←
        (if bool_decide (name = bytes_of ".data") then Ok (- ENOENT, u32_size (ef_data f))
         else if bool_decide (name = bytes_of ".bss") then Ok (- ENOENT, u32_size (ef_bss f))
         else if bool_decide (name = bytes_of ".rodata") then Ok (- ENOENT, u32_size (ef_rodata f))
         else
           e ← or_fault NullDeref (ef_elf f);
           let '(ret, d) := search_section_size e (e_shstrndx (ef_ehdr f)) (elf_nextscns e) name in
           Ok (ret, if ret =? 0 then u32 (default 0 d) else 0));
      Ok (if negb (size =? 0) then 0 else ret, size)
  end.

(** The loop of [bpf_object__variable_offset]: the error code and [*off]. *)
Fixpoint find_variable (e : elf) (strtab : Z) (symbols : elf_data) (name : list byte)
    (sis : list Z) : Z * option Z :=
  match sis with
  | [] => (- ENOENT, None)
  | si :: sis =>
      match gelf_getsym symbols si with
      | None => find_variable e strtab symbols name sis
      | Some sym =>
          if negb (GELF_ST_BIND (st_info sym) =? STB_GLOBAL)
             || negb (GELF_ST_TYPE (st_info sym) =? STT_OBJECT)
          then find_variable e strtab symbols name sis else
          match elf_strptr e strtab (st_name sym) with
          | None => (- EIO, None)
          | Some sname =>
              if bool_decide (name = sname) then (0, Some (u32 (st_value sym)))
              else find_variable e strtab symbols name sis
          end
      end
  end.
Definition bpf_object__variable_offset (f : efile) (name : option (list byte))
    : res (Z * option Z) :=
  match name with
  | None => Ok (- EINVAL, None)
  | Some name =>
      symbols ← or_fault NullDeref (ef_symbols f);
      e ← or_fault NullDeref (ef_elf f);
      Ok (find_variable e (strtabidx f) symbols name (seqZ 0 (nr_syms symbols)))
  end.

End progs.
