(* ===== verification/OpenBtf.v ===== *)
(** Opening an object file, 3: its BTF. Sizes and offsets the compiler did
    not know are filled in ([btf__finalize_data] of
    [src/eBPF_app/libbpf/src/btf.c]); what the kernel does not understand is
    replaced ([bpf_object__sanitize_btf] of [libbpf.c]); the rest is loaded
    ([bpf_object__init_btf], [bpf_object__sanitize_and_load_btf]). *)
From S2P Require Import Prelude CLib XdpLink LibbpfObj LibbpfLoad Btf BtfLookups BtfExt Elf ErrMonad OpenObj OpenProgs.
#[local] Open Scope Z_scope.

Definition BTF_VAR_STATIC : Z := 0.
Definition BTF_VAR_GLOBAL_ALLOCATED : Z := 1.
Definition BTF_INFO_ENC (kind kind_flag vlen : Z) : Z :=
  Z.lor (Z.lor (Z.shiftl (bool_z (negb (kind_flag =? 0))) 31) (Z.shiftl kind 24))
    (Z.land vlen 0xffff).
Definition BTF_INT_ENC (encoding bits_offset nr_bits : Z) : Z :=
  Z.lor (Z.lor (Z.shiftl encoding 24) (Z.shiftl bits_offset 16)) nr_bits.

(** * Writing to the data *)

Definition set_b_data (d : list byte) (b : btf) : btf :=
  mk_btf d (b_types b) (b_strings b) (b_nohdr b) (nr_types b) (types_size b) (data_size b) (b_fd b).
(** A 32-bit member at [o] of a type; [btf_void] is constant. *)
Definition t_store (b : btf) (t : type_ptr) (o v : Z) : res btf :=
  match t with
  | Void => Err OutOfBounds
  | At off => d ← mwrite (b_data b) (off + o) (le_bytes 4 v); Ok (set_b_data d b)
  end.
(** The word [w] behind the type. *)
Definition w_store (b : btf) (t : type_ptr) (w v : Z) : res btf :=
  t_store b t (sizeof_btf_type + 4 * w) v.

(** * Finalizing *)

Section fixup.
Context `{Libelf} `{Qsort}.

(** [struct btf_var_secinfo]: [type], [offset] and [size]. *)
Definition vsi_offset (r : list byte) : Z := le_val (take 4 (drop 4 r)).
Definition compare_vsi_off (a b : list byte) : Z := s32 (vsi_offset a - vsi_offset b).
Fixpoint chunks (n : nat) (bs : list byte) : list (list byte) :=
  match n with
  | O => []
  | S n => take 12 bs :: chunks n (drop 12 bs)
  end.
Definition sort_secinfos (b : btf) (t : type_ptr) (vars : Z) : res btf :=
  match t with
  | Void => Err OutOfBounds
  | At off =>
      bs ← mread (b_data b) (off + sizeof_btf_type) (12 * vars);
      d ← mwrite (b_data b) (off + sizeof_btf_type)
            (concat (qsort compare_vsi_off (chunks (Z.to_nat vars) bs)));
      Ok (set_b_data d b)
  end.

(** The loop over the variables of a section: the error code and the BTF. *)
Fixpoint fixup_vars (f : efile) (b : btf) (t : type_ptr) (ixs : list Z) : res (Z * btf) :=
  match ixs with
  | [] => Ok (0, b)
  | i :: ixs =>
      type ← t_word b t (3 * i);
      t_var ← btf__type_by_id b type;
      t_var ← or_fault NullDeref t_var;
      is_var ← btf_is BTF_KIND_VAR b t_var;
      if negb is_var then Ok (- EINVAL, b) else
      linkage ← t_word b t_var 0;
      if linkage =? BTF_VAR_STATIC then fixup_vars f b t ixs else
      name_off ← t_name_off b t_var;
      name ← btf__name_by_offset b name_off;
      match name with
      | None => Ok (- ENOENT, b)
      | Some o =>
          name ← str_at b o;
          '(ret, off) ← bpf_object__variable_offset f (Some name);
          if negb (ret =? 0) then Ok (- ENOENT, b) else
          b ← w_store b t (3 * i + 1) (default 0 off);
          fixup_vars f b t ixs
      end
  end.

Definition btf_fixup_datasec (f : efile) (b : btf) (t : type_ptr) : res (Z * btf) :=
  vars ← btf_vlen b t;
  name_off ← t_name_off b t;
  name ← btf__name_by_offset b name_off;
  match name with
  | None => Ok (- ENOENT, b)
  | Some o =>
      name ← str_at b o;
      '(ret, size) ← bpf_object__section_size f (Some name);
      t_sz ← t_size b t;
      if negb (ret =? 0) || (size =? 0) || (negb (t_sz =? 0) && negb (t_sz =? size))
      then Ok (- ENOENT, b) else
      b ← t_store b t 8 size;
      '(err, b) ← fixup_vars f b t (seqZ 0 vars);
      if negb (err =? 0) then Ok (err, b) else
      b ← sort_secinfos b t vars;
      Ok (0, b)
  end.

Fixpoint finalize_loop (f : efile) (b : btf) (ixs : list Z) : res (Z * btf) :=
  match ixs with
  | [] => Ok (0, b)
  | i :: ixs =>
      slot ← aget (b_types b) i;
      t ← or_fault OutOfBounds slot;
      is_datasec ← btf_is BTF_KIND_DATASEC b t;
      if is_datasec : bool then
        '(err, b) ← btf_fixup_datasec f b t;
        if negb (err =? 0) then Ok (err, b) else finalize_loop f b ixs
      else finalize_loop f b ixs
  end.
Definition btf__finalize_data (f : efile) (b : btf) : res (Z * btf) :=
  finalize_loop f b (seqZ 1 (nr_types b)).
End fixup.

(** * Sanitizing *)

(** "while ( *name) { if ( *name == '.') *name = '_'; name++; }" *)
Fixpoint undot (fuel : nat) (d : list byte) (o : Z) : res (list byte) :=
  match fuel with
  | O => Err OutOfFuel
  | S fuel =>
      c ← aget d o;
      if decide (c = NUL) then Ok d else
      d ← (if decide (c = Byte.x2e) then aset d o Byte.x5f else Ok d);
      undot fuel d (o + 1)
  end.

(** Member [j] in the place of section variable [j], field by field. *)
Fixpoint sanitize_members (b : btf) (t : type_ptr) (js : list Z) : res btf :=
  match js with
  | [] => Ok b
  | j :: js =>
      offset ← t_word b t (3 * j + 1);
      b ← w_store b t (3 * j + 2) (u32 (offset * 8));
      type ← t_word b t (3 * j);
      b ← w_store b t (3 * j + 1) type;
      type ← t_word b t (3 * j);
      vt ← btf__type_by_id b type;
      vt ← or_fault NullDeref vt;
      name_off ← t_name_off b vt;
      b ← w_store b t (3 * j) name_off;
      sanitize_members b t js
  end.

Definition sanitize_var (b : btf) (t : type_ptr) : res btf :=
  b ← t_store b t 4 (BTF_INFO_ENC BTF_KIND_INT 0 0);
  b ← t_store b t 8 1;
  w_store b t 0 (BTF_INT_ENC 0 0 8).
Definition sanitize_datasec (b : btf) (t : type_ptr) : res btf :=
  name_off ← t_name_off b t;
  name ← btf__name_by_offset b name_off;
  o ← or_fault NullDeref name;
  d ← undot (S (length (b_data b))) (b_data b) o;
  let b := set_b_data d b in
  vlen ← btf_vlen b t;
  b ← t_store b t 4 (BTF_INFO_ENC BTF_KIND_STRUCT 0 vlen);
  sanitize_members b t (seqZ 0 vlen).
Definition sanitize_func_proto (b : btf) (t : type_ptr) : res btf :=
  vlen ← btf_vlen b t;
  b ← t_store b t 4 (BTF_INFO_ENC BTF_KIND_ENUM 0 vlen);
  t_store b t 8 4.
Definition sanitize_func (b : btf) (t : type_ptr) : res btf :=
  t_store b t 4 (BTF_INFO_ENC BTF_KIND_TYPEDEF 0 0).

Definition sanitize_type (has_datasec has_func : bool) (b : btf) (i : Z) : res btf :=
  t ← btf__type_by_id b i;
  t ← or_fault NullDeref t;
  kind ← btf_kind b t;
  if negb has_datasec && (kind =? BTF_KIND_VAR) then sanitize_var b t
  else if negb has_datasec && (kind =? BTF_KIND_DATASEC) then sanitize_datasec b t
  else if negb has_func && (kind =? BTF_KIND_FUNC_PROTO) then sanitize_func_proto b t
  else if negb has_func && (kind =? BTF_KIND_FUNC) then sanitize_func b t
  else Ok b.
Fixpoint sanitize_loop (has_datasec has_func : bool) (b : btf) (ixs : list Z) : res btf :=
  match ixs with
  | [] => Ok b
  | i :: ixs => b ← sanitize_type has_datasec has_func b i; sanitize_loop has_datasec has_func b ixs
  end.
Definition sanitize_btf (has_datasec has_func : bool) (b : btf) : res btf :=
  if has_func && has_datasec then Ok b else
  sanitize_loop has_datasec has_func b (seqZ 1 (btf__get_nr_types b)).

(** * The object's BTF *)

Section btf.
Context {K : Type} `{BpfSys K} `{BtfSys K} `{ElfSys K} `{Libelf} `{Qsort}.
#[local] Abbreviation M := (@OpenObj.M K).

Definition bpf_object__sanitize_btf : M unit :=
  b ← geto o_btf;
  match b with
  | None => mret tt
  | Some b =>
      caps ← geto o_caps;
      b ← lift (sanitize_btf (cap_btf_datasec caps) (cap_btf_func caps) b);
      updo (set_o_btf (Some b))
  end.
Definition bpf_object__sanitize_btf_ext : M unit :=
  x ← geto o_btf_ext;
  caps ← geto o_caps;
  match x with
  | None => mret tt
  | Some _ => if negb (cap_btf_func caps) then updo (set_o_btf_ext None) else mret tt
  end.

Definition is_btf_mandatory (o : open_obj) : bool := 0 <=? ef_btf_maps_shndx (o_efile o).

(** What [bpf_object__init_btf] does up to the label [out]: [err], and
    [obj->btf], which may be an error pointer. [btf__new] takes a 32-bit
    size. *)
Definition init_btf_data (btf_data : option elf_data) : M (Z * (Z + option btf)) :=
  match btf_data with
  | None => mret (0, inr None)
  | Some d =>
      r ← sysr (fun k => btf__new k (default [] (d_buf d)) (u32 (d_size d)));
      match r with
      | inl e => mret (0, inl e)
      | inr b =>
          f ← geto o_efile;
          '(err, b) ← lift (btf__finalize_data f b);
          mret (err, inr (Some b))
      end
  end.
Definition init_btf_ext (btf_ext_data : option elf_data) : M unit :=
  match btf_ext_data with
  | None => mret tt
  | Some d =>
      r ← sysr (fun k => btf_ext__new k (default [] (d_buf d)) (u32 (d_size d)));
      updo (set_o_btf_ext (match r with inl _ => None | inr x => Some x end))
  end.
Definition bpf_object__init_btf (btf_data btf_ext_data : option elf_data) : M unit :=
  btf_required ← geto is_btf_mandatory;
  '(err, b) ← init_btf_data btf_data;
  '(err, b) ←
    match b with
    | inr (Some x) =>
        if err =? 0 then
          _ ← init_btf_ext btf_ext_data; mret (0, Some x)
        else
          _ ← sysk (fun k => (tt, btf__free k x));
          mret (if btf_required : bool then err else 0, None)
    | inr None => mret (0, None)
    | inl e => mret (if btf_required : bool then e else 0, None)
    end;
  _ ← updo (set_o_btf b);
  match b with
  | None => if btf_required : bool then throw (if err =? 0 then - ENOENT else err) else mret tt
  | Some _ => mret tt
  end.

Definition bpf_object__sanitize_and_load_btf : M unit :=
  b ← geto o_btf;
  match b with
  | None => mret tt
  | Some _ =>
      _ ← bpf_object__sanitize_btf;
      _ ← bpf_object__sanitize_btf_ext;
      b ← geto o_btf;
      b ← lift (or_fault NullDeref b);
      '(err, b) ← sysk (fun k => btf__load k b);
      if negb (err =? 0) then
        _ ← sysk (fun k => (tt, btf__free k b));
        _ ← updo (set_o_btf None);
        _ ← updo (set_o_btf_ext None);
        mandatory ← geto is_btf_mandatory;
        reject mandatory err
      else updo (set_o_btf (Some b))
  end.

End btf.

(** What is rewritten in the BTF of an object: the data only, in place. *)

(** * In place *)

(** [b'] is [b] with other bytes in as much data. *)
Definition rewritten (b b' : btf) : Prop :=
  b' = set_b_data (b_data b') b /\ zlen (b_data b') = zlen (b_data b).

Lemma rewritten_refl b : rewritten b b.
Proof. destruct b. split; reflexivity. Qed.
Lemma rewritten_trans b1 b2 b3 : rewritten b1 b2 -> rewritten b2 b3 -> rewritten b1 b3.
Proof.
  intros [E1 L1] [E2 L2]. split; [|congruence]. rewrite E2. rewrite E1. reflexivity.
Qed.
#[export] Instance rewritten_preorder : PreOrder rewritten.
Proof. split; [exact rewritten_refl | exact rewritten_trans]. Qed.

Lemma rewritten_set b d : zlen d = zlen (b_data b) -> rewritten b (set_b_data d b).
Proof. intros Hd. split; [reflexivity | exact Hd]. Qed.

Lemma rewritten_fd b b' : rewritten b b' -> b_fd b' = b_fd b.
Proof. intros [-> _]. reflexivity. Qed.
Lemma rewritten_types b b' : rewritten b b' -> b_types b' = b_types b /\ nr_types b' = nr_types b.
Proof. intros [-> _]. split; reflexivity. Qed.

Lemma t_store_rewritten b t o v b' : t_store b t o v = Ok b' -> rewritten b b'.
Proof.
  destruct t as [|off]; cbn [t_store]; [discriminate|]. intros Hx. res_inv. subst b'.
  apply rewritten_set. eapply zlen_mwrite. eassumption.
Qed.
Lemma w_store_rewritten b t w v b' : w_store b t w v = Ok b' -> rewritten b b'.
Proof. apply t_store_rewritten. Qed.

Lemma sort_secinfos_rewritten `{Qsort} b t vars b' :
  sort_secinfos b t vars = Ok b' -> rewritten b b'.
Proof.
  destruct t as [|off]; cbn [sort_secinfos]; [discriminate|]. intros Hx. res_inv. subst b'.
  apply rewritten_set. eapply zlen_mwrite. eassumption.
Qed.

Lemma undot_zlen fuel : forall d o d', undot fuel d o = Ok d' -> zlen d' = zlen d.
Proof.
  induction fuel as [|fuel IH]; intros d o d' Hx; cbn [undot] in Hx; [discriminate|].
  res_inv. case_decide; [injection Hx as <-; reflexivity|]. res_inv. apply IH in Hx.
  case_decide; [|injection E0 as <-; exact Hx]. apply zlen_aset in E0. lia.
Qed.

(** The stores of a chain of steps, one after the other. *)
Ltac rewritten_steps :=
  res_inv;
  repeat match goal with
  | H : t_store _ _ _ _ = Ok _ |- _ => apply t_store_rewritten in H
  | H : w_store _ _ _ _ = Ok _ |- _ => apply w_store_rewritten in H
  end.

Section fixup.
Context `{Libelf} `{Qsort}.

Lemma fixup_vars_rewritten f t ixs : forall b err b',
  fixup_vars f b t ixs = Ok (err, b') -> rewritten b b'.
Proof.
  induction ixs as [|i ixs IH]; intros b err b' Hx; cbn [fixup_vars] in Hx.
  { injection Hx as _ <-. reflexivity. }
  res_inv. case_match; [injection Hx as _ <-; reflexivity|]. res_inv.
  case_match; [eapply IH; eassumption|]. res_inv.
  case_match; [|injection Hx as _ <-; reflexivity]. res_inv. destruct x7 as [ret off].
  case_match; [injection Hx as _ <-; reflexivity|]. rewritten_steps.
  etransitivity; [eassumption | eapply IH; eassumption].
Qed.

Lemma fixup_datasec_rewritten f b t err b' :
  btf_fixup_datasec f b t = Ok (err, b') -> rewritten b b'.
Proof.
  unfold btf_fixup_datasec. intros Hx. res_inv. case_match; [|injection Hx as _ <-; reflexivity].
  res_inv. repeat case_match; rewritten_steps; simplify_eq; try reflexivity.
  case_match; [simplify_eq; reflexivity|]. rewritten_steps.
  match goal with x : (Z * btf)%type |- _ => destruct x as [e b2] end.
  match goal with H : fixup_vars _ _ _ _ = Ok _ |- _ => apply fixup_vars_rewritten in H end.
  case_match; [simplify_eq; etransitivity; eassumption|]. res_inv. simplify_eq.
  match goal with H : sort_secinfos _ _ _ = Ok _ |- _ => apply sort_secinfos_rewritten in H end.
  etransitivity; [eassumption|]. etransitivity; eassumption.
Qed.

Lemma finalize_loop_rewritten f ixs : forall b err b',
  finalize_loop f b ixs = Ok (err, b') -> rewritten b b'.
Proof.
  induction ixs as [|i ixs IH]; intros b err b' Hx; cbn [finalize_loop] in Hx.
  { injection Hx as _ <-. reflexivity. }
  res_inv. case_match; [|eapply IH; eassumption]. res_inv. destruct x2 as [e b2].
  apply fixup_datasec_rewritten in E2. case_match; [injection Hx as _ <-; exact E2|].
  etransitivity; [exact E2 | eapply IH; eassumption].
Qed.
Lemma finalize_rewritten f b err b' : btf__finalize_data f b = Ok (err, b') -> rewritten b b'.
Proof. apply finalize_loop_rewritten. Qed.
End fixup.

Lemma sanitize_members_rewritten t js : forall b b',
  sanitize_members b t js = Ok b' -> rewritten b b'.
Proof.
  induction js as [|j js IH]; intros b b' Hx; cbn [sanitize_members] in Hx.
  { injection Hx as <-. reflexivity. }
  rewritten_steps. etransitivity; [eassumption|]. etransitivity; [eassumption|].
  etransitivity; [eassumption|]. eapply IH. eassumption.
Qed.

Lemma sanitize_type_rewritten hd hf b i b' :
  sanitize_type hd hf b i = Ok b' -> rewritten b b'.
Proof.
  unfold sanitize_type, sanitize_var, sanitize_datasec, sanitize_func_proto, sanitize_func.
  intros Hx. res_inv. repeat case_match; rewritten_steps.
  - etransitivity; [eassumption|]. etransitivity; eassumption.
  - etransitivity; [apply rewritten_set; eapply undot_zlen; eassumption|].
    etransitivity; [eassumption|]. eapply sanitize_members_rewritten. eassumption.
  - etransitivity; eassumption.
  - assumption.
  - subst. reflexivity.
Qed.
Lemma sanitize_loop_rewritten hd hf ixs : forall b b',
  sanitize_loop hd hf b ixs = Ok b' -> rewritten b b'.
Proof.
  induction ixs as [|i ixs IH]; intros b b' Hx; cbn [sanitize_loop] in Hx.
  { injection Hx as <-. reflexivity. }
  res_inv. etransitivity; [eapply sanitize_type_rewritten; eassumption | eapply IH; eassumption].
Qed.
Lemma sanitize_rewritten hd hf b b' : sanitize_btf hd hf b = Ok b' -> rewritten b b'.
Proof.
  unfold sanitize_btf. case_match; [intros [= <-]; reflexivity | apply sanitize_loop_rewritten].
Qed.
