(* ===== verification/OpenMaps.v ===== *)
(** Opening an object file, 4: its maps ([bpf_object__add_map] to
    [bpf_object__init_maps] in [src/eBPF_app/libbpf/src/libbpf.c]): those
    for global data, those of the section [maps] and those BTF describes in
    the section [.maps]. *)
From S2P Require Import Prelude CLib XdpLink LibbpfObj LibbpfLoad BpfLoad Btf CoRe Elf ErrMonad OpenObj OpenProgs OpenBtf.
#[local] Open Scope Z_scope.

Definition BPF_MAP_TYPE_UNSPEC : Z := 0.
Definition BPF_MAP_TYPE_ARRAY : Z := 2.
Definition BPF_F_RDONLY_PROG : Z := 128.
Definition LIBBPF_PIN_NONE : Z := 0.
Definition LIBBPF_PIN_BY_NAME : Z := 1.
Definition sizeof_bpf_map_def : Z := 20.

Definition no_def : bpf_map_def := mk_def 0 0 0 0 0.
(** A map as [bpf_object__add_map] leaves it; it gets its name later. *)
Definition new_map : open_map :=
  mk_omap (mk_map (-1) "" 0 0 (-1) no_def 0 0 LIBBPF_MAP_UNSPEC None false false) 0.

(** ** Field updates *)

Definition set_m_name (name : string) (x : open_map) : open_map :=
  let m := om_map x in
  mk_omap (mk_map (m_fd m) name (m_sec_idx m) (m_ifindex m) (inner_map_fd m) (m_def m)
    (btf_key_type_id m) (btf_value_type_id m) (libbpf_type m) (pin_path m) (pinned m) (reused m))
    (sec_offset x).
Definition set_m_place (type : libbpf_map_type) (sec_idx off : Z) (x : open_map) : open_map :=
  let m := om_map x in
  mk_omap (mk_map (m_fd m) (m_name m) sec_idx (m_ifindex m) (inner_map_fd m) (m_def m)
    (btf_key_type_id m) (btf_value_type_id m) type (pin_path m) (pinned m) (reused m)) off.
Definition set_m_def (d : bpf_map_def) (x : open_map) : open_map :=
  let m := om_map x in
  mk_omap (mk_map (m_fd m) (m_name m) (m_sec_idx m) (m_ifindex m) (inner_map_fd m) d
    (btf_key_type_id m) (btf_value_type_id m) (libbpf_type m) (pin_path m) (pinned m) (reused m))
    (sec_offset x).
Definition set_m_ids (k v : Z) (x : open_map) : open_map :=
  mk_omap (set_btf_ids k v (om_map x)) (sec_offset x).
Definition set_m_pin (path : option string) (x : open_map) : open_map :=
  mk_omap (set_pin path (pinned (om_map x)) (om_map x)) (sec_offset x).

Definition set_d_type (v : Z) (d : bpf_map_def) : bpf_map_def :=
  mk_def v (d_key_size d) (d_value_size d) (d_max_entries d) (d_flags d).
Definition set_d_key_size (v : Z) (d : bpf_map_def) : bpf_map_def :=
  mk_def (d_type d) v (d_value_size d) (d_max_entries d) (d_flags d).
Definition set_d_value_size (v : Z) (d : bpf_map_def) : bpf_map_def :=
  mk_def (d_type d) (d_key_size d) v (d_max_entries d) (d_flags d).
Definition set_d_max_entries (v : Z) (d : bpf_map_def) : bpf_map_def :=
  mk_def (d_type d) (d_key_size d) (d_value_size d) v (d_flags d).
Definition set_d_flags (v : Z) (d : bpf_map_def) : bpf_map_def :=
  mk_def (d_type d) (d_key_size d) (d_value_size d) (d_max_entries d) v.

(** ** Bytes *)

(** [struct bpf_map_def] from its first bytes, the rest being zero. *)
Definition word_at (bs : list byte) (i : nat) : Z := le_val (take 4 (drop (4 * i) bs)).
Definition decode_map_def (bs : list byte) : bpf_map_def :=
  mk_def (word_at bs 0) (word_at bs 1) (word_at bs 2) (word_at bs 3) (word_at bs 4).

(** [compare_bpf_map]. *)
Definition compare_bpf_map (a b : open_map) : Z :=
  let ia := m_sec_idx (om_map a) in
  let ib := m_sec_idx (om_map b) in
  if negb (ia =? ib) then ia - ib else s32 (sec_offset a - sec_offset b).

(** ** Fields of a BTF-defined map *)

(** [get_map_field_int] for the member [i] of [def]: [*res], if found. *)
Definition get_map_field_int (b : btf) (def : type_ptr) (i : Z) : res (option Z) :=
  type ← member_type b def i;
  '(t, _) ← skip_mods_and_typedefs b type;
  is_ptr ← btf_is BTF_KIND_PTR b t;
  if negb is_ptr then Ok None else
  type ← t_type b t;
  arr_t ← btf__type_by_id b type;
  match arr_t with
  | None => Ok None
  | Some arr_t =>
      is_array ← btf_is BTF_KIND_ARRAY b arr_t;
      if negb is_array then Ok None else
      n ← array_nelems b arr_t; Ok (Some n)
  end.

(** The members [key] and [value]: an error code, or the size and the type. *)
Definition get_map_field_type (b : btf) (def : type_ptr) (i : Z) : res (Z + Z * Z) :=
  type ← member_type b def i;
  t ← btf__type_by_id b type;
  match t with
  | None => Ok (inl (- EINVAL))
  | Some t =>
      is_ptr ← btf_is BTF_KIND_PTR b t;
      if negb is_ptr then Ok (inl (- EINVAL)) else
      type ← t_type b t;
      sz ← btf__resolve_size b type;
      if sz <? 0 then Ok (inl sz) else Ok (inr (sz, type))
  end.

Definition or_throw {St A} (o : option A) (e : Z) : errm St A :=
  match o with Some a => mret a | None => throw e end.
Definition or_error {St A} (r : Z + A) : errm St A :=
  match r with inr a => mret a | inl e => throw e end.

Section maps.
Context {K : Type} `{BpfSys K} `{BtfSys K} `{ElfSys K} `{Libelf} `{Qsort}.
#[local] Abbreviation M := (@OpenObj.M K).

(** * Adding maps *)

(** [bpf_object__add_map]: the index of the new map. *)
Definition bpf_object__add_map : M Z :=
  ms ← geto o_maps;
  cap ← geto maps_cap;
  let n := zlen ms in
  if n <? cap then
    _ ← updo (set_o_maps (ms ++ [new_map]) cap); mret n
  else
    let new_cap := Z.max 4 (cap * 3 / 2) in
    _ ← alloc_or (- ENOMEM);
    _ ← updo (set_o_maps (ms ++ [new_map]) new_cap);
    mret n.

Definition upd_map (i : Z) (f : open_map -> open_map) : M unit :=
  updo (fun o => set_o_maps (alter f (Z.to_nat i) (o_maps o)) (maps_cap o) o).
Definition the_map (i : Z) : M open_map :=
  ms ← geto o_maps; lift (aget ms i).
(** The fields of [map->def]. *)
Definition upd_def (i : Z) (f : bpf_map_def -> bpf_map_def) : M unit :=
  upd_map i (fun x => set_m_def (f (m_def (om_map x))) x).

(** ** Maps for global data *)

Definition libbpf_type_to_btf_name (t : libbpf_map_type) : list byte :=
  match t with
  | LIBBPF_MAP_DATA => bytes_of ".data"
  | LIBBPF_MAP_BSS => bytes_of ".bss"
  | LIBBPF_MAP_RODATA => bytes_of ".rodata"
  | LIBBPF_MAP_UNSPEC => []
  end.
(** "%.8s%.7s" of the object's name and the section's. *)
Definition internal_map_name (obj_name : list byte) (t : libbpf_map_type) : list byte :=
  take 8 (in_array obj_name) ++ take 7 (libbpf_type_to_btf_name t).

(** [data_buff] stores the copy of the data, if one is wanted. *)
Definition bpf_object__init_internal_map (type : libbpf_map_type) (sec_idx : Z)
    (data : option elf_data) (data_buff : option (list byte -> open_obj -> open_obj)) : M unit :=
  i ← bpf_object__add_map;
  _ ← upd_map i (set_m_place type sec_idx 0);
  name ← geto o_name;
  _ ← alloc_or (- ENOMEM);
  _ ← upd_map i (set_m_name (string_of (internal_map_name name type)));
  data ← lift (or_fault NullDeref data);
  _ ← upd_def i (fun _ => mk_def BPF_MAP_TYPE_ARRAY 4 (u32 (d_size data)) 1
                   (if bool_decide (type = LIBBPF_MAP_RODATA) then BPF_F_RDONLY_PROG else 0));
  match data_buff with
  | None => mret tt
  | Some store =>
      _ ← alloc_or (- ENOMEM);
      bytes ← lift (data_read data 0 (d_size data));
      updo (store bytes)
  end.

Definition bpf_object__init_global_data_maps : M unit :=
  caps ← geto o_caps;
  if negb (cap_global_data caps) then mret tt else
  f ← geto o_efile;
  _ ← (if 0 <=? ef_data_shndx f
       then bpf_object__init_internal_map LIBBPF_MAP_DATA (ef_data_shndx f) (ef_data f) (Some set_o_data)
       else mret tt);
  _ ← (if 0 <=? ef_rodata_shndx f
       then bpf_object__init_internal_map LIBBPF_MAP_RODATA (ef_rodata_shndx f) (ef_rodata f)
              (Some set_o_rodata)
       else mret tt);
  if 0 <=? ef_bss_shndx f
  then bpf_object__init_internal_map LIBBPF_MAP_BSS (ef_bss_shndx f) (ef_bss f) None
  else mret tt.

(** ** Maps of the section "maps" *)

Definition in_section (symbols : elf_data) (shndx si : Z) : bool :=
  match gelf_getsym symbols si with
  | Some sym => st_shndx sym =? shndx
  | None => false
  end.
Definition count_maps (symbols : elf_data) (shndx : Z) : Z :=
  zlen (List.filter (in_section symbols shndx) (seqZ 0 (s32 (nr_syms symbols)))).

(** The round of [bpf_object__init_user_maps] for the symbol [si].
    [map_def_sz] is an [int]: added to and compared with sizes, it is
    converted to 64 bits. *)
Definition init_user_map (e : elf) (strtab shndx : Z) (symbols data : elf_data) (map_def_sz : Z)
    (strict : bool) (si : Z) : M unit :=
  match gelf_getsym symbols si with
  | None => mret tt
  | Some sym =>
      if negb (st_shndx sym =? shndx) then mret tt else
      i ← bpf_object__add_map;
      map_name ← or_throw (elf_strptr e strtab (st_name sym)) (- LIBBPF_ERRNO__FORMAT);
      _ ← upd_map i (set_m_place LIBBPF_MAP_UNSPEC (st_shndx sym) (st_value sym));
      _ ← reject (d_size data <? u64 (st_value sym + map_def_sz)) (- EINVAL);
      _ ← alloc_or (- ENOMEM);
      _ ← upd_map i (set_m_name (string_of map_name));
      if u64 map_def_sz <=? sizeof_bpf_map_def then
        def ← lift (data_read data (st_value sym) map_def_sz);
        upd_def i (fun _ => decode_map_def def)
      else
        more ← lift (data_read data (st_value sym + sizeof_bpf_map_def)
                       (Z.max 0 (map_def_sz - sizeof_bpf_map_def)));
        _ ← reject (strict && negb (forallb (fun b => bool_decide (b = NUL)) more)) (- EINVAL);
        def ← lift (data_read data (st_value sym) sizeof_bpf_map_def);
        upd_def i (fun _ => decode_map_def def)
  end.

Definition bpf_object__init_user_maps (strict : bool) : M unit :=
  f ← geto o_efile;
  if ef_maps_shndx f <? 0 then mret tt else
  symbols ← or_throw (ef_symbols f) (- EINVAL);
  e ← the_elf;
  scn ← or_throw (elf_getscn e (ef_maps_shndx f)) (- EINVAL);
  data ← or_throw (scn_data scn) (- EINVAL);
  let nr_maps := count_maps symbols (ef_maps_shndx f) in
  _ ← reject ((d_size data =? 0) || (nr_maps =? 0) || negb (d_size data mod nr_maps =? 0)) (- EINVAL);
  for_each (init_user_map e (strtabidx f) (ef_maps_shndx f) symbols data
              (s32 (d_size data / nr_maps)) strict)
    (seqZ 0 (s32 (nr_syms symbols))).

(** ** Maps of the section ".maps" *)

Definition bpf_map__set_pin_path (i : Z) (path : option string) : M unit :=
  match path with
  | None => upd_map i (set_m_pin None)
  | Some path =>
      ok ← alloc;
      errno ← getk sys_errno;
      if negb ok then check (- errno) else upd_map i (set_m_pin (Some path))
  end.
Definition build_map_pin_path (i : Z) (path : option string) : M unit :=
  m ← the_map i;
  let buf := map_path (default "/sys/fs/bpf"%string path) (m_name (om_map m)) in
  _ ← reject (PATH_MAX <=? zlen (bytes_of buf)) (- ENAMETOOLONG);
  bpf_map__set_pin_path i (Some buf).

(** A size that is given twice has to be the same. *)
Definition set_key_size (i : Z) (sz : Z) : M unit :=
  m ← the_map i;
  let old := d_key_size (m_def (om_map m)) in
  _ ← reject (negb (old =? 0) && negb (old =? sz)) (- EINVAL);
  upd_def i (set_d_key_size (u32 sz)).
Definition set_value_size (i : Z) (sz : Z) : M unit :=
  m ← the_map i;
  let old := d_value_size (m_def (om_map m)) in
  _ ← reject (negb (old =? 0) && negb (old =? sz)) (- EINVAL);
  upd_def i (set_d_value_size (u32 sz)).

(** The member [j] of [def] for the map [i]. [EOPNOTSUPP], which the code
    also uses, is the same number as [ENOTSUP]. *)
Definition init_btf_map_field (b : btf) (def : type_ptr) (i : Z) (strict : bool)
    (pin_root_path : option string) (j : Z) : M unit :=
  name_off ← lift (member_name_off b def j);
  name ← lift (btf__name_by_offset b name_off);
  o ← or_throw name (- EINVAL);
  name ← lift (str_at b o);
  let named s := bool_decide (name = bytes_of s) in
  let field_int : M Z := v ← lift (get_map_field_int b def j); or_throw v (- EINVAL) in
  let field_type : M (Z * Z) := v ← lift (get_map_field_type b def j); or_error v in
  if named "type"%string then v ← field_int; upd_def i (set_d_type v)
  else if named "max_entries"%string then v ← field_int; upd_def i (set_d_max_entries v)
  else if named "map_flags"%string then v ← field_int; upd_def i (set_d_flags v)
  else if named "key_size"%string then sz ← field_int; set_key_size i sz
  else if named "key"%string then
    '(sz, type) ← field_type;
    _ ← set_key_size i sz;
    upd_map i (fun x => set_m_ids type (btf_value_type_id (om_map x)) x)
  else if named "value_size"%string then sz ← field_int; set_value_size i sz
  else if named "value"%string then
    '(sz, type) ← field_type;
    _ ← set_value_size i sz;
    upd_map i (fun x => set_m_ids (btf_key_type_id (om_map x)) type x)
  else if named "pinning"%string then
    val ← field_int;
    _ ← reject (negb (val =? LIBBPF_PIN_NONE) && negb (val =? LIBBPF_PIN_BY_NAME)) (- EINVAL);
    if val =? LIBBPF_PIN_BY_NAME then build_map_pin_path i pin_root_path else mret tt
  else reject strict (- ENOTSUP).

Definition bpf_object__init_user_btf_map (b : btf) (sec : type_ptr) (sec_idx : Z) (data : elf_data)
    (strict : bool) (pin_root_path : option string) (var_idx : Z) : M unit :=
  vi_type ← lift (t_word b sec (3 * var_idx));
  vi_offset ← lift (t_word b sec (3 * var_idx + 1));
  vi_size ← lift (t_word b sec (3 * var_idx + 2));
  var ← lift (btf__type_by_id b vi_type);
  var ← lift (or_fault NullDeref var);
  name_off ← lift (t_name_off b var);
  map_name ← lift (btf__name_by_offset b name_off);
  o ← or_throw map_name (- EINVAL);
  map_name ← lift (str_at b o);
  _ ← reject (bool_decide (map_name = [])) (- EINVAL);
  _ ← reject (d_size data <? vi_offset + vi_size) (- EINVAL);
  is_var ← lift (btf_is BTF_KIND_VAR b var);
  _ ← reject (negb is_var) (- EINVAL);
  linkage ← lift (t_word b var 0);
  _ ← reject (negb (linkage =? BTF_VAR_GLOBAL_ALLOCATED) && negb (linkage =? BTF_VAR_STATIC))
        (- ENOTSUP);
  type ← lift (t_type b var);
  '(def, _) ← lift (skip_mods_and_typedefs b type);
  is_struct ← lift (btf_is BTF_KIND_STRUCT b def);
  _ ← reject (negb is_struct) (- EINVAL);
  def_size ← lift (t_size b def);
  _ ← reject (vi_size <? def_size) (- EINVAL);
  i ← bpf_object__add_map;
  _ ← alloc_or (- ENOMEM);
  _ ← upd_map i (set_m_name (string_of map_name));
  _ ← upd_map i (set_m_place LIBBPF_MAP_UNSPEC sec_idx vi_offset);
  _ ← upd_def i (set_d_type BPF_MAP_TYPE_UNSPEC);
  vlen ← lift (btf_vlen b def);
  _ ← for_each (init_btf_map_field b def i strict pin_root_path) (seqZ 0 vlen);
  m ← the_map i;
  reject (d_type (m_def (om_map m)) =? BPF_MAP_TYPE_UNSPEC) (- EINVAL).

(** The search for the section in BTF. *)
Fixpoint find_datasec (b : btf) (ixs : list Z) : res (option type_ptr) :=
  match ixs with
  | [] => Ok None
  | i :: ixs =>
      t ← btf__type_by_id b i;
      t ← or_fault NullDeref t;
      is_datasec ← btf_is BTF_KIND_DATASEC b t;
      if negb is_datasec then find_datasec b ixs else
      name_off ← t_name_off b t;
      name ← btf__name_by_offset b name_off;
      o ← or_fault NullDeref name;
      name ← str_at b o;
      if bool_decide (name = bytes_of ".maps") then Ok (Some t) else find_datasec b ixs
  end.

Definition bpf_object__init_user_btf_maps (strict : bool) (pin_root_path : option string) : M unit :=
  f ← geto o_efile;
  if ef_btf_maps_shndx f <? 0 then mret tt else
  e ← the_elf;
  scn ← or_throw (elf_getscn e (ef_btf_maps_shndx f)) (- EINVAL);
  data ← or_throw (scn_data scn) (- EINVAL);
  b ← geto o_btf;
  b ← lift (or_fault NullDeref b);
  sec ← lift (find_datasec b (seqZ 1 (btf__get_nr_types b)));
  sec ← or_throw sec (- ENOENT);
  vlen ← lift (btf_vlen b sec);
  for_each (bpf_object__init_user_btf_map b sec (ef_btf_maps_shndx f) data strict pin_root_path)
    (seqZ 0 vlen).

(** * All of them *)

Definition bpf_object__init_maps (relaxed_maps : bool) (pin_root_path : option string) : M unit :=
  let strict := negb relaxed_maps in
  _ ← bpf_object__init_user_maps strict;
  _ ← bpf_object__init_user_btf_maps strict pin_root_path;
  _ ← bpf_object__init_global_data_maps;
  updo (fun o => set_o_maps (qsort compare_bpf_map (o_maps o)) (maps_cap o) o).

End maps.
