(* ===== verification/OpenReloc.v ===== *)
(** Opening an object file, 5: the relocations it asks for
    ([bpf_object__collect_reloc] and [bpf_program__collect_reloc] in
    [src/eBPF_app/libbpf/src/libbpf.c]) and what the kernel supports
    ([bpf_object__probe_caps], with [libbpf__load_raw_btf] of
    [libbpf_probes.c]). *)
From S2P Require Import Prelude CLib XdpLink LibbpfObj LibbpfLoad XskProg Btf CoRe Elf ErrMonad OpenObj OpenProgs OpenBtf OpenMaps.
#[local] Open Scope Z_scope.

Definition BPF_PSEUDO_CALL : Z := 1.
(** [BPF_JMP | BPF_CALL] and [BPF_LD | BPF_IMM | BPF_DW]. *)
Definition CODE_CALL : Z := Z.lor BPF_JMP BPF_CALL.
Definition CODE_LD_IMM64 : Z := Z.lor BPF_LD (Z.lor BPF_IMM BPF_DW).
Definition BPF_PROG_TYPE_SOCKET_FILTER : Z := 1.

(** * Sections that can be named *)

Definition shndx_is_data (f : efile) (shndx : Z) : bool :=
  (shndx =? ef_data_shndx f) || (shndx =? ef_bss_shndx f) || (shndx =? ef_rodata_shndx f).
Definition shndx_is_maps (f : efile) (shndx : Z) : bool :=
  (shndx =? ef_maps_shndx f) || (shndx =? ef_btf_maps_shndx f).
Definition relo_in_known_section (f : efile) (shndx : Z) : bool :=
  (shndx =? ef_text_shndx f) || shndx_is_maps f shndx || shndx_is_data f shndx.
Definition section_to_libbpf_map_type (f : efile) (shndx : Z) : libbpf_map_type :=
  if shndx =? ef_data_shndx f then LIBBPF_MAP_DATA
  else if shndx =? ef_bss_shndx f then LIBBPF_MAP_BSS
  else if shndx =? ef_rodata_shndx f then LIBBPF_MAP_RODATA
  else LIBBPF_MAP_UNSPEC.

(** The map a relocation means, as the loop over the maps finds it. *)
Definition reloc_means (type : libbpf_map_type) (shndx value : Z) (x : open_map) : bool :=
  bool_decide (libbpf_type (om_map x) = type) &&
  (negb (bool_decide (type = LIBBPF_MAP_UNSPEC)) ||
   ((m_sec_idx (om_map x) =? shndx) && (sec_offset x =? value))).
Fixpoint find_reloc_map (ms : list open_map) (i : Z) (type : libbpf_map_type) (shndx value : Z)
    : option Z :=
  match ms with
  | [] => None
  | m :: ms =>
      if reloc_means type shndx value m then Some i else find_reloc_map ms (i + 1) type shndx value
  end.

Fixpoint find_prog_place (ps : list bpf_program) (i idx : Z) : option Z :=
  match ps with
  | [] => None
  | p :: ps => if p_idx p =? idx then Some i else find_prog_place ps (i + 1) idx
  end.

(** * Probes *)

Definition BPF_LD_MAP_VALUE (DST MAP_FD VALUE_OFF : Z) : list bpf_insn :=
  BPF_LD_IMM64_RAW_FULL DST BPF_PSEUDO_MAP_VALUE 0 0 MAP_FD VALUE_OFF.

Definition probe_attr (name : option string) (insns : list bpf_insn) : prog_attr :=
  mk_prog_attr BPF_PROG_TYPE_SOCKET_FILTER 0 0 0 name insns "GPL" 0 0 [] 0 0 [] 0 0 (0, 0) 0.
Definition name_insns : list bpf_insn := [BPF_MOV64_IMM 0 0; BPF_EXIT_INSN].
Definition data_insns (map : Z) : list bpf_insn :=
  BPF_LD_MAP_VALUE 1 map 16 ++ [BPF_ST_MEM BPF_DW 1 0 42; BPF_MOV64_IMM 0 0; BPF_EXIT_INSN].
Definition probe_map_attr : map_attr :=
  mk_map_attr None BPF_MAP_TYPE_ARRAY 0 4 32 1 0 0 0 0 0.

(** Encoding types. *)
Definition BTF_TYPE_ENC (name info size_or_type : Z) : list Z := [name; info; size_or_type].
Definition BTF_TYPE_INT_ENC (name encoding bits_offset bits sz : Z) : list Z :=
  BTF_TYPE_ENC name (BTF_INFO_ENC BTF_KIND_INT 0 0) sz ++ [BTF_INT_ENC encoding bits_offset bits].
Definition BTF_PARAM_ENC (name type : Z) : list Z := [name; type].
Definition BTF_VAR_SECINFO_ENC (type offset size : Z) : list Z := [type; offset; size].
Definition words (ws : list Z) : list byte := concat (le_bytes 4 <$> ws).

Definition func_types : list byte := words
  (BTF_TYPE_INT_ENC 1 BTF_INT_SIGNED 0 32 4 ++
   BTF_TYPE_ENC 0 (BTF_INFO_ENC BTF_KIND_FUNC_PROTO 0 1) 0 ++ BTF_PARAM_ENC 7 1 ++
   BTF_TYPE_ENC 5 (BTF_INFO_ENC BTF_KIND_FUNC 0 0) 2).
Definition func_strs : list byte :=
  [NUL] ++ bytes_of "int" ++ [NUL] ++ bytes_of "x" ++ [NUL] ++ bytes_of "a" ++ [NUL].
Definition datasec_types : list byte := words
  (BTF_TYPE_INT_ENC 0 BTF_INT_SIGNED 0 32 4 ++
   BTF_TYPE_ENC 1 (BTF_INFO_ENC BTF_KIND_VAR 0 0) 1 ++ [BTF_VAR_STATIC] ++
   BTF_TYPE_ENC 3 (BTF_INFO_ENC BTF_KIND_DATASEC 0 1) 4 ++ BTF_VAR_SECINFO_ENC 2 0 4).
Definition datasec_strs : list byte :=
  [NUL] ++ bytes_of "x" ++ [NUL] ++ bytes_of ".data" ++ [NUL].

(** The header in front of the types and the strings. *)
Definition raw_btf (types strs : list byte) : list byte :=
  le_bytes 2 BTF_MAGIC ++ le_bytes 1 BTF_VERSION ++ le_bytes 1 0 ++
  words [sizeof_btf_header; 0; zlen types; zlen types; zlen strs] ++ types ++ strs.

Section reloc.
Context {K : Type} `{BpfSys K} `{BtfSys K} `{ElfSys K} `{Libelf} `{Qsort}.
#[local] Abbreviation M := (@OpenObj.M K).

(** * Collecting *)

Definition set_p_relocs (rs : list reloc_desc) (p : bpf_program) : bpf_program :=
  set_code (p_insns p) (main_prog_cnt p) (Some rs) p.
Definition the_prog (i : Z) : M bpf_program :=
  ps ← geto o_programs; lift (aget ps i).
Definition set_reloc (i j : Z) (r : reloc_desc) : M unit :=
  prog ← the_prog i;
  rs ← lift (or_fault NullDeref (p_relocs prog));
  rs ← lift (aset rs j r);
  upd_prog i (set_p_relocs rs).

(** The end of a round: a load of a map's address. *)
Definition collect_map_reloc (i j insn_idx : Z) (sym : elf_sym) : M unit :=
  f ← geto o_efile;
  if shndx_is_maps f (st_shndx sym) || shndx_is_data f (st_shndx sym) then
    let type := section_to_libbpf_map_type f (st_shndx sym) in
    let internal := negb (bool_decide (type = LIBBPF_MAP_UNSPEC)) in
    _ ← reject (internal && (GELF_ST_BIND (st_info sym) =? STB_GLOBAL)) (- LIBBPF_ERRNO__RELOC);
    caps ← geto o_caps;
    _ ← reject (internal && negb (cap_global_data caps)) (- LIBBPF_ERRNO__RELOC);
    ms ← geto o_maps;
    map_idx ← or_throw (find_reloc_map ms 0 type (st_shndx sym) (st_value sym))
                (- LIBBPF_ERRNO__RELOC);
    set_reloc i j (mk_reloc (if internal then RELO_DATA else RELO_LD64) (s32 insn_idx) (s32 map_idx))
  else mret tt.

(** The round of [bpf_program__collect_reloc] for the relocation [j] of the
    program at [i]. The message about a symbol in a special section reads
    the instruction, too. *)
Definition collect_one (i : Z) (data : elf_data) (j : Z) : M unit :=
  rel ← or_throw (gelf_getrel data j) (- LIBBPF_ERRNO__FORMAT);
  f ← geto o_efile;
  sym ← or_throw (symbols ← ef_symbols f; gelf_getsym symbols (GELF_R_SYM (r_info rel)))
          (- LIBBPF_ERRNO__FORMAT);
  prog ← the_prog i;
  insns ← lift (or_fault NullDeref (p_insns prog));
  let shdr_idx := st_shndx sym in
  let insn_idx := u32 (r_offset rel / sizeof_insn) in
  if SHN_LORESERVE <=? shdr_idx then
    _ ← lift (aget insns insn_idx);
    throw (- LIBBPF_ERRNO__RELOC)
  else
    _ ← reject (negb (relo_in_known_section f shdr_idx)) (- LIBBPF_ERRNO__RELOC);
    insn ← lift (aget insns insn_idx);
    if i_code insn =? CODE_CALL then
      _ ← reject (negb (i_src insn =? BPF_PSEUDO_CALL)) (- LIBBPF_ERRNO__RELOC);
      _ ← set_reloc i j (mk_reloc RELO_CALL (s32 insn_idx) (s32 (st_value sym)));
      updo (set_o_pseudo true)
    else
      _ ← reject (negb (i_code insn =? CODE_LD_IMM64)) (- LIBBPF_ERRNO__RELOC);
      collect_map_reloc i j insn_idx sym.

(** [malloc] refuses the size a negative count comes to. *)
Definition bpf_program__collect_reloc (i : Z) (sh : elf_shdr) (data : elf_data) : M unit :=
  _ ← lift (if sh_entsize sh =? 0 then Err DivByZero else Ok tt);
  let nrels := s32 (sh_size sh / sh_entsize sh) in
  _ ← reject (nrels <? 0) (- ENOMEM);
  junk ← getk sys_junk_reloc;
  _ ← alloc_or (- ENOMEM);
  _ ← upd_prog i (set_p_relocs (junk <$> seqZ 0 nrels));
  for_each (collect_one i data) (seqZ 0 nrels).

Definition collect_section_relocs (r : elf_shdr * elf_data) : M unit :=
  let '(sh, data) := r in
  _ ← reject (negb (sh_type sh =? SHT_REL)) (- LIBBPF_ERRNO__INTERNAL);
  ps ← geto o_programs;
  i ← or_throw (find_prog_place ps 0 (s32 (sh_info sh))) (- LIBBPF_ERRNO__RELOC);
  bpf_program__collect_reloc i sh data.

Definition bpf_object__collect_reloc : M unit :=
  valid ← geto obj_elf_valid;
  _ ← reject (negb valid) (- LIBBPF_ERRNO__INTERNAL);
  rl ← geto (fun o => ef_reloc (o_efile o));
  for_each collect_section_relocs rl.

(** * What the kernel supports *)

Definition load_probe (name : option string) (insns : list bpf_insn) : M sysret :=
  sysr (fun k => '(r, _, k) ← bpf_load_program_xattr k (probe_attr name insns) false 0; Ok (r, k)).
Definition close_probe (fd : Z) : M unit := sysk (fun k => (tt, snd (sys_close k fd))).
Definition upd_caps (f : capabilities -> capabilities) : M unit := updo (set_o_caps f).

Definition bpf_object__probe_name : M unit :=
  ret ← load_probe None name_insns;
  match ret with
  | RErr _ => mret tt
  | ROk fd =>
      _ ← close_probe fd;
      ret ← load_probe (Some "test"%string) name_insns;
      match ret with
      | RErr _ => mret tt
      | ROk fd =>
          _ ← upd_caps (fun c => mk_caps true (cap_global_data c) (cap_btf_func c) (cap_btf_datasec c));
          close_probe fd
      end
  end.

Definition bpf_object__probe_global_data : M unit :=
  map ← sysk (fun k => bpf_create_map_xattr k probe_map_attr);
  match map with
  | RErr _ => mret tt
  | ROk map =>
      ret ← load_probe None (data_insns map);
      _ ← match ret with
          | RErr _ => mret tt
          | ROk fd =>
              _ ← upd_caps (fun c => mk_caps (cap_name c) true (cap_btf_func c) (cap_btf_datasec c));
              close_probe fd
          end;
      close_probe map
  end.

(** [libbpf__load_raw_btf]. *)
Definition libbpf__load_raw_btf (types strs : list byte) : M sysret :=
  ok ← alloc;
  if negb ok then mret (RErr ENOMEM) else
  sysk (fun k => bpf_load_btf k (raw_btf types strs) None false).

Definition bpf_object__probe_btf_func : M unit :=
  btf_fd ← libbpf__load_raw_btf func_types func_strs;
  match btf_fd with
  | RErr _ => mret tt
  | ROk fd =>
      _ ← upd_caps (fun c => mk_caps (cap_name c) (cap_global_data c) true (cap_btf_datasec c));
      close_probe fd
  end.
Definition bpf_object__probe_btf_datasec : M unit :=
  btf_fd ← libbpf__load_raw_btf datasec_types datasec_strs;
  match btf_fd with
  | RErr _ => mret tt
  | ROk fd =>
      _ ← upd_caps (fun c => mk_caps (cap_name c) (cap_global_data c) (cap_btf_func c) true);
      close_probe fd
  end.

(** The probes only report; their results are not used. *)
Definition bpf_object__probe_caps : M unit :=
  _ ← bpf_object__probe_name;
  _ ← bpf_object__probe_global_data;
  _ ← bpf_object__probe_btf_func;
  bpf_object__probe_btf_datasec.

End reloc.
