(* ===== verification/KernelBtf.v ===== *)
(** BTF from files ([btf__parse_elf] of [src/eBPF_app/libbpf/src/btf.c];
    [btf_load_raw], [bpf_core_find_kernel_btf] and
    [libbpf_attach_btf_id_by_name] of [libbpf.c]). *)
From S2P Require Import Prelude CLib XdpLink LibbpfObj LibbpfLoad Btf BtfExt Elf OpenObj.
#[local] Open Scope Z_scope.

Definition EBADF : Z := 9.

Section kernel.
Context {K : Type} `{BpfSys K} `{BtfSys K} `{ElfSys K} `{Libelf}.

(** * BTF of an ELF file *)

(** The loop of [btf__parse_elf]: the sections .BTF and .BTF.ext, or
    [None] for "goto done". [want_ext] tells whether [btf_ext] is not NULL. *)
Fixpoint find_btf_secs (e : elf) (shstrndx : Z) (scns : list (Z * elf_scn)) (want_ext : bool)
    (bs : option elf_data * option elf_data) : option (option elf_data * option elf_data) :=
  match scns with
  | [] => Some bs
  | (_, scn) :: scns =>
      match scn_shdr scn with
      | None => None
      | Some sh =>
          match elf_strptr e shstrndx (sh_name sh) with
          | None => None
          | Some name =>
              if bool_decide (name = bytes_of ".BTF") then
                match scn_data scn with
                | None => None
                | Some d => find_btf_secs e shstrndx scns want_ext (Some d, snd bs)
                end
              else if want_ext && bool_decide (name = bytes_of ".BTF.ext") then
                match scn_data scn with
                | None => None
                | Some d => find_btf_secs e shstrndx scns want_ext (fst bs, Some d)
                end
              else find_btf_secs e shstrndx scns want_ext bs
          end
      end
  end.

(** What the checks before the loop and the loop itself give. *)
Definition elf_btf_secs (e : elf) (want_ext : bool)
    : option (option elf_data * option elf_data) :=
  match el_ehdr e with
  | None => None
  | Some ep =>
      if negb (ei_data ep =? ELFDATA2LSB) then None else
      if negb (elf_rawdata e (e_shstrndx ep)) then None else
      find_btf_secs e (e_shstrndx ep) (elf_nextscns e) want_ext (None, None)
  end.

(** From the sections to the BTF: an error code, or the BTF and its
    BTF.ext, if one is wanted and there. *)
Definition btf_of_secs (k : K) (want_ext : bool) (bs : option elf_data * option elf_data)
    : res ((Z + btf * option btf_ext) * K) :=
  match fst bs with
  | None => Ok (inl (- ENOENT), k)
  | Some d =>
      '(r, k) ← btf__new k (default [] (d_buf d)) (u32 (d_size d));
      match r with
      | inl e => Ok (inl e, k)
      | inr b =>
          match (if want_ext then snd bs else None) with
          | None => Ok (inr (b, None), k)
          | Some x =>
              '(r, k) ← btf_ext__new k (default [] (d_buf x)) (u32 (d_size x));
              match r with
              | inl e => Ok (inl e, btf__free k b)
              | inr x => Ok (inr (b, Some x), k)
              end
          end
      end
  end.

Definition btf__parse_elf (k : K) (path : string) (want_ext : bool)
    : res ((Z + btf * option btf_ext) * K) :=
  if negb (elf_version k) then Ok (inl (- LIBBPF_ERRNO__LIBELF), k) else
  let '(r, k) := sys_open k path in
  match r with
  | RErr e => Ok (inl (- e), k)
  | ROk fd =>
      let '(e, k) := elf_begin k fd in
      '(r, k) ←
        match e with
        | None => Ok (inl (- LIBBPF_ERRNO__FORMAT), k)
        | Some e =>
            match elf_btf_secs e want_ext with
            | None => Ok (inl (- LIBBPF_ERRNO__FORMAT), k)
            | Some bs => btf_of_secs k want_ext bs
            end
        end;
      Ok (r, snd (sys_close k fd))
  end.

(** * BTF of the kernel *)

Definition btf_load_raw (k : K) (path : string) : res ((Z + btf) * K) :=
  match sys_stat k path with
  | RErr e => Ok (inl (- e), k)
  | ROk st_size =>
      let '(ok, k) := sys_alloc k in
      if negb ok then Ok (inl (- ENOMEM), k) else
      let '(f, k) := sys_fopen k path in
      match f with
      | RErr e => Ok (inl (- e), k)
      | ROk fd =>
          let '(bytes, k) := sys_fread k fd st_size in
          let k := snd (sys_close k fd) in
          if zlen bytes <? st_size then Ok (inl (- EBADF), k) else
          btf__new k bytes (u32 (zlen bytes))
      end
  end.

(** The places to look at, with the kernel's release, and whether the file
    is raw BTF. *)
Definition locations (release : string) : list (string * bool) :=
  [("/sys/kernel/btf/vmlinux", true);
   ("/boot/vmlinux-" ++ release, false);
   ("/lib/modules/" ++ release ++ "/vmlinux-" ++ release, false);
   ("/lib/modules/" ++ release ++ "/build/vmlinux", false);
   ("/usr/lib/modules/" ++ release ++ "/kernel/vmlinux", false);
   ("/usr/lib/debug/boot/vmlinux-" ++ release, false);
   ("/usr/lib/debug/boot/vmlinux-" ++ release ++ ".debug", false);
   ("/usr/lib/debug/lib/modules/" ++ release ++ "/vmlinux", false)]%string.

Fixpoint try_locations (k : K) (ls : list (string * bool)) : res ((Z + btf) * K) :=
  match ls with
  | [] => Ok (inl (- ESRCH), k)
  | (path, raw) :: ls =>
      if negb (sys_access k path) then try_locations k ls else
      '(r, k) ←
        (if raw : bool then btf_load_raw k path
         else '(r, k) ← btf__parse_elf k path false;
              Ok (match r with inl e => inl e | inr (b, _) => inr b end, k));
      match r with
      | inl _ => try_locations k ls
      | inr b => Ok (inr b, k)
      end
  end.
(** [path] has room for [PATH_MAX] bytes; a release is at most 64 long. *)
Definition bpf_core_find_kernel_btf (k : K) : res ((Z + btf) * K) :=
  try_locations k (locations (string_of (sys_uname k))).

(** * The type a tracing program is attached to *)

Definition BTF_PREFIX : list byte := bytes_of "btf_trace_".

(** The entries of [section_names] the loop gets to. *)
Fixpoint attach_entry (es : list sec_name) (name : string) : option sec_name :=
  match es with
  | [] => None
  | e :: es => if is_attach_btf e && sec_matches name e then Some e else attach_entry es name
  end.

(** The error code and [*btf_id]. The buffer of 128 bytes holds the prefix
    and up to 117 bytes of the name, which [strncat] cuts. *)
Definition libbpf_attach_btf_id_by_name (k : K) (name : option string) : res (Z * option Z * K) :=
  '(r, k) ← bpf_core_find_kernel_btf k;
  match r with
  | inl _ => Ok (- EINVAL, None, k)
  | inr b =>
      match name with
      | None => Ok (- EINVAL, None, btf__free k b)
      | Some name =>
          match attach_entry section_names name with
          | None => Ok (- ESRCH, None, btf__free k b)
          | Some e =>
              let rest := drop (String.length (sec e)) (bytes_of name) in
              ret ← btf__find_by_name b (BTF_PREFIX ++ take 117 rest);
              if ret <=? 0 then Ok (- EINVAL, None, btf__free k b)
              else Ok (0, Some ret, btf__free k b)
          end
      end
  end.

End kernel.
