(* ===== verification/Open.v ===== *)
(** Opening an object file, 6: the whole ([bpf_object__elf_collect] behind
    its loop, [__bpf_object__open] and the functions of the API that call
    it, in [src/eBPF_app/libbpf/src/libbpf.c]). *)
From S2P Require Import Prelude CLib XdpLink LibbpfObj LibbpfLoad BpfLoad Btf BtfExt Elf ErrMonad OpenObj OpenProgs OpenBtf OpenMaps OpenReloc KernelBtf.
#[local] Open Scope Z_scope.

(** * Options *)

(** [struct bpf_object_open_opts]: its size as the caller has it, and what
    follows the last member the library knows. *)
Record open_opts := mk_opts {
  opt_sz : Z;
  opt_object_name : option string;
  opt_relaxed_maps : bool;
  opt_relaxed_core_relocs : bool;
  opt_pin_root_path : option string;
  opt_extra : list byte
}.

(** The ends of the members. *)
Definition end_object_name : Z := 16.
Definition end_relaxed_maps : Z := 17.
Definition end_relaxed_core_relocs : Z := 18.
Definition end_pin_root_path : Z := 32.

(** [libbpf_validate_opts]. *)
Definition libbpf_validate_opts (o : open_opts) : res bool :=
  if opt_sz o <? 8 then Ok false else
  if end_pin_root_path <? opt_sz o then
    extra ← mread (opt_extra o) 0 (opt_sz o - end_pin_root_path);
    Ok (forallb (fun b => bool_decide (b = NUL)) extra)
  else Ok true.
Definition OPTS_VALID (o : option open_opts) : res bool :=
  match o with None => Ok true | Some o => libbpf_validate_opts o end.
Definition OPTS_GET {A} (o : option open_opts) (field_end : Z) (field : open_opts -> A) (fallback : A) : A :=
  match o with
  | Some o => if field_end <=? opt_sz o then field o else fallback
  | None => fallback
  end.

(** A buffer: its address and its bytes. *)
Record mem_buf := mk_buf { buf_addr : Z; buf_bytes : list byte }.

(** "%lx". *)
Definition hex_digit (d : Z) : byte := byte_of_Z (if d <? 10 then 48 + d else 87 + d).
Fixpoint hex_digits (fuel : nat) (z : Z) (acc : list byte) : list byte :=
  match fuel with
  | O => acc
  | S fuel =>
      let acc := hex_digit (z mod 16) :: acc in
      if z <? 16 then acc else hex_digits fuel (z / 16) acc
  end.
Definition hex (z : Z) : list byte := hex_digits 16 (u64 z) [].
Definition tmp_name (b : mem_buf) : string :=
  string_of (hex (buf_addr b) ++ [Byte.x2d] ++ hex (zlen (buf_bytes b))).

Section open.
Context {K : Type} `{BpfSys K} `{BtfSys K} `{ElfSys K} `{Libelf} `{Qsort}.
#[local] Abbreviation M := (@OpenObj.M K).

(** * Collecting what is in the file *)

Definition bpf_object__elf_collect (relaxed_maps : bool) (pin_root_path : option string) : M unit :=
  e ← the_elf;
  ep ← geto (fun o => ef_ehdr (o_efile o));
  _ ← reject (negb (elf_rawdata e (e_shstrndx ep))) (- LIBBPF_ERRNO__FORMAT);
  '(btf_data, btf_ext_data) ← collect_sections e (e_shstrndx ep) (elf_nextscns e) (None, None);
  strtab ← geto (fun o => strtabidx (o_efile o));
  _ ← reject ((strtab =? 0) || (zlen (elf_nextscns e) <? strtab)) (- LIBBPF_ERRNO__FORMAT);
  _ ← bpf_object__init_btf btf_data btf_ext_data;
  _ ← bpf_object__init_maps relaxed_maps pin_root_path;
  _ ← bpf_object__sanitize_and_load_btf;
  bpf_object__init_prog_names.

(** The steps between creating the object and looking at its programs. *)
Definition open_steps (obj_buf : list byte) (relaxed_core relaxed_maps : bool)
    (pin_root_path : option string) : M unit :=
  _ ← updo (set_o_relaxed relaxed_core);
  _ ← bpf_object__elf_init obj_buf;
  _ ← bpf_object__check_endianness;
  _ ← bpf_object__probe_caps;
  _ ← bpf_object__elf_collect relaxed_maps pin_root_path;
  _ ← bpf_object__collect_reloc;
  bpf_object__elf_finish.

(** * The types of the programs *)

Definition set_attach_btf_id (id : Z) (p : bpf_program) : bpf_program :=
  mk_prog (p_idx p) (p_name p) (p_ifindex p) (section_name p) (p_insns p)
    (main_prog_cnt p) (p_type p) (p_relocs p) (p_log_level p) (p_instances p)
    (expected_attach_type p) id
    (func_info p) (func_info_rec_size p) (func_info_cnt p)
    (line_info p) (line_info_rec_size p) (line_info_cnt p) (prog_flags p).

(** The loop of [__bpf_object__open] over the programs at [ixs]. *)
Fixpoint guess_types (k : K) (ixs : list Z) (o : bpf_object) : res (Z * bpf_object * K) :=
  match ixs with
  | [] => Ok (0, o, k)
  | i :: ixs =>
      prog ← aget (programs o) i;
      let '(err, types) := libbpf_prog_type_by_name (Some (section_name prog)) in
      if err =? - ESRCH then guess_types k ixs o else
      if negb (err =? 0) then Ok (err, o, k) else
      let '(prog_type, attach_type) := default (0, 0) types in
      let o := set_prog (fun p => bpf_program__set_expected_attach_type attach_type
                                    (bpf_program__set_type prog_type p)) i o in
      if prog_type =? BPF_PROG_TYPE_TRACING then
        '(err, btf_id, k) ← libbpf_attach_btf_id_by_name k (Some (section_name prog));
        if negb (err =? 0) then Ok (err, o, k) else
        guess_types k ixs (set_prog (set_attach_btf_id (default 0 btf_id)) i o)
      else guess_types k ixs o
  end.

(** * Opening *)

(** [bpf_object__close] of an object that is still being opened. *)
Definition close_open (o : open_obj) (k : K) : K :=
  let '(o, k) := elf_finish o k in
  bpf_object__close k (to_object o).

(** [__bpf_object__open] from [bpf_object__new] on. *)
Definition open_new (k : K) (path : string) (obj_buf : list byte) (obj_name : option string)
    (opts : option open_opts) : res (open_ret * K) :=
  let '(obj, k) := bpf_object__new k path obj_name in
  match obj with
  | None => Ok (OpenErr (- ENOMEM), k)
  | Some obj =>
      let relaxed_core := OPTS_GET opts end_relaxed_core_relocs opt_relaxed_core_relocs false in
      let relaxed_maps := OPTS_GET opts end_relaxed_maps opt_relaxed_maps false in
      let pin_root_path := OPTS_GET opts end_pin_root_path opt_pin_root_path None in
      '(r, s) ← open_steps obj_buf relaxed_core relaxed_maps pin_root_path (obj, k);
      let '(obj, k) := s in
      match r with
      | inl err => Ok (OpenErr err, close_open obj k)
      | inr _ =>
          let o := to_object obj in
          ixs ← bpf_object__for_each_program o;
          '(err, o, k) ← guess_types k ixs o;
          if negb (err =? 0) then Ok (OpenErr err, bpf_object__close k o) else Ok (OpenOk o, k)
      end
  end.

(** [path] is NULL only if there is a buffer. *)
Definition __bpf_object__open (k : K) (path : option string) (obj_buf : option mem_buf)
    (opts : option open_opts) : res (open_ret * K) :=
  if negb (elf_version k) then Ok (OpenErr (- LIBBPF_ERRNO__LIBELF), k) else
  valid ← OPTS_VALID opts;
  if negb valid then Ok (OpenErr (- EINVAL), k) else
  let obj_name := OPTS_GET opts end_object_name opt_object_name path in
  match obj_buf with
  | Some b =>
      let obj_name := default (tmp_name b) obj_name in
      open_new k obj_name (buf_bytes b) (Some obj_name) opts
  | None =>
      path ← or_fault NullDeref path;
      open_new k path [] obj_name opts
  end.

(** ** The API *)

Definition MAPS_RELAX_COMPAT : Z := 1.

Definition __bpf_object__open_xattr (k : K) (file : option string) (flags : Z) : res (open_ret * K) :=
  match file with
  | None => Ok (OpenNull, k)
  | Some file =>
      __bpf_object__open k (Some file) None
        (Some (mk_opts end_pin_root_path None (negb (Z.land flags MAPS_RELAX_COMPAT =? 0)) false None []))
  end.

(** The program type asked for is not used. *)
Definition bpf_object__open_xattr (k : K) (file : option string) (prog_type : Z)
    : res (open_ret * K) :=
  __bpf_object__open_xattr k file 0.

Definition bpf_object__open (k : K) (path : option string) : res (open_ret * K) :=
  bpf_object__open_xattr k path BPF_PROG_TYPE_UNSPEC.

Definition bpf_object__open_file (k : K) (path : option string) (opts : option open_opts)
    : res (open_ret * K) :=
  match path with
  | None => Ok (OpenErr (- EINVAL), k)
  | Some path => __bpf_object__open k (Some path) None opts
  end.

Definition bpf_object__open_mem (k : K) (obj_buf : option mem_buf) (opts : option open_opts)
    : res (open_ret * K) :=
  match obj_buf with
  | None => Ok (OpenErr (- EINVAL), k)
  | Some b =>
      if zlen (buf_bytes b) =? 0 then Ok (OpenErr (- EINVAL), k) else
      __bpf_object__open k None (Some b) opts
  end.

Definition bpf_object__open_buffer (k : K) (obj_buf : option mem_buf) (name : option string)
    : res (open_ret * K) :=
  match obj_buf with
  | None => Ok (OpenNull, k)
  | Some b =>
      if zlen (buf_bytes b) =? 0 then Ok (OpenNull, k) else
      bpf_object__open_mem k obj_buf (Some (mk_opts end_pin_root_path name true false None []))
  end.

End open.
