(* ===== verification/OpenInv.v ===== *)
(** What opening keeps true of the object and the descriptors, step by
    step, whatever the file holds and whichever step fails. *)
From S2P Require Import Prelude CLib XdpLink LibbpfObj LibbpfLoad LibbpfRes BpfLoad Btf BtfExt BtfLookups CoRe Elf ErrMonad OpenObj OpenProgs OpenBtf OpenMaps OpenReloc KernelBtf Open.
#[local] Open Scope Z_scope.

(** * The invariant *)

(** A map and a program that were not loaded. *)
Definition idle_map (m : bpf_map) : Prop := m_fd m = -1 /\ pinned m = false /\ reused m = false.
Record idle_prog (p : bpf_program) : Prop := {
  ip_instances : p_instances p = None;
  ip_log : p_log_level p = 0;
  ip_func : func_info p = [] /\ func_info_cnt p = 0 /\ func_info_rec_size p = 0;
  ip_line : line_info p = [] /\ line_info_cnt p = 0 /\ line_info_rec_size p = 0;
  ip_insns : is_Some (p_insns p)
}.

Definition elf_fds (o : open_obj) : list Z :=
  if obj_elf_valid o then [ef_fd (o_efile o)] else [].
Definition open_btf_fds (o : open_obj) : list Z :=
  match o_btf o with Some b => [b_fd b] | None => [] end.

Section inv.
Context {K : Type} `{LS : BpfSysLaws K} `{!BtfSys K} `{BLS : !BtfSysLaws K} `{!ElfSys K}
  `{ELS : !ElfSysLaws K} `{Libelf} `{Qsort}.
#[local] Abbreviation M := (@OpenObj.M K).
#[local] Abbreviation ost := (@OpenObj.ost K).

(** A phase of opening: what holds of a program in an object with so many
    maps, and of the BTF. *)
Record phase := mk_phase {
  ph_prog : Z -> bpf_program -> Prop;
  ph_btf : option btf -> Prop
}.

Record oinv (base : gset Z) (R : phase) (s : ost) : Prop := {
  oi_maps : Forall (fun x => idle_map (om_map x)) (o_maps (fst s));
  oi_progs : Forall (fun p => idle_prog p /\ ph_prog R (zlen (o_maps (fst s))) p) (o_programs (fst s));
  oi_owns : owns base (snd s) (elf_fds (fst s) ++ open_btf_fds (fst s));
  oi_btf : ph_btf R (o_btf (fst s))
}.

(** A step keeps it, on success and on failure. *)
Definition keeps base R {A} (m : M A) : Prop :=
  forall s, oinv base R s -> wp any_fault m (fun _ => oinv base R) (fun _ => oinv base R) s.

Context (base : gset Z) (R : phase).
#[local] Abbreviation inv := (oinv base R).

Lemma keeps_ret {A} (a : A) : keeps base R (mret a).
Proof. intros s Hs. exact Hs. Qed.
Lemma keeps_throw {A} e : keeps base R (throw e : M A).
Proof. intros s Hs. exact Hs. Qed.
Lemma keeps_gets {A} (f : ost -> A) : keeps base R (gets f).
Proof. intros s Hs. exact Hs. Qed.
Lemma keeps_lift {A} (m : res A) : keeps base R (lift m).
Proof. intros s Hs. apply wp_lift. destruct m; [exact Hs | exact I]. Qed.
Lemma keeps_reject b e : keeps base R (reject b e).
Proof. intros s Hs. apply wp_reject. destruct b; exact Hs. Qed.
Lemma keeps_check e : keeps base R (check e).
Proof. intros s Hs. unfold check. destruct (e =? 0); exact Hs. Qed.
Lemma keeps_or_throw {A} (o : option A) e : keeps base R (or_throw o e).
Proof. destruct o; [apply keeps_ret | apply keeps_throw]. Qed.
Lemma keeps_or_error {A} (r : Z + A) : keeps base R (or_error r).
Proof. destruct r; [apply keeps_throw | apply keeps_ret]. Qed.

Lemma keeps_bind {A B} (m : M A) (f : A -> M B) :
  keeps base R m -> (forall a, keeps base R (f a)) -> keeps base R (m ≫= f).
Proof.
  intros Hm Hf s Hs. apply wp_bind. eapply wp_mono; [exact (Hm s Hs)| |auto].
  intros a s' Hs'. apply Hf, Hs'.
Qed.

(** A step that keeps it and gives a value in [P]. *)
Definition yields {A} (P : A -> Prop) (m : M A) : Prop :=
  forall s, inv s -> wp any_fault m (fun a s => inv s /\ P a) (fun _ => inv) s.

Lemma yields_ret {A} (P : A -> Prop) a : P a -> yields P (mret a).
Proof. intros Ha s Hs. apply wp_ret. auto. Qed.
Lemma yields_bind {A B} (P : B -> Prop) (m : M A) f :
  keeps base R m -> (forall a, yields P (f a)) -> yields P (m ≫= f).
Proof.
  intros Hm Hf s Hs. apply wp_bind. eapply wp_mono; [exact (Hm s Hs)| |auto].
  intros a s' Hs'. apply Hf, Hs'.
Qed.
Lemma keeps_bind_val {A B} (P : A -> Prop) (m : M A) (f : A -> M B) :
  yields P m -> (forall a, P a -> keeps base R (f a)) -> keeps base R (m ≫= f).
Proof.
  intros Hm Hf s Hs. apply wp_bind. eapply wp_mono; [exact (Hm s Hs)| |auto].
  intros a s' [Hs' Ha]. apply Hf; assumption.
Qed.
Lemma yields_bind_val {A B} (P : A -> Prop) (Q : B -> Prop) (m : M A) f :
  yields P m -> (forall a, P a -> yields Q (f a)) -> yields Q (m ≫= f).
Proof.
  intros Hm Hf s Hs. apply wp_bind. eapply wp_mono; [exact (Hm s Hs)| |auto].
  intros a s' [Hs' Ha]. apply Hf; assumption.
Qed.
Lemma yields_keeps {A} (P : A -> Prop) (m : M A) : yields P m -> keeps base R m.
Proof. intros Hm s Hs. eapply wp_mono; [exact (Hm s Hs)| |auto]. intros a s' [Hs' _]. exact Hs'. Qed.
(** What holds of what is read. *)
Lemma yields_gets {A} (P : A -> Prop) (f : ost -> A) :
  (forall s, inv s -> P (f s)) -> yields P (gets f).
Proof. intros Hf s Hs. apply wp_gets. auto. Qed.
Lemma yields_lift {A} (P : A -> Prop) (m : res A) :
  (forall a, m = Ok a -> P a) -> yields P (lift m).
Proof. intros Hf s Hs. apply wp_lift. destruct m; [auto | exact I]. Qed.
Lemma yields_throw {A} (P : A -> Prop) e : yields P (throw e : M A).
Proof. intros s Hs. exact Hs. Qed.

Lemma keeps_for_each {A} (f : A -> M unit) l :
  (forall x, x ∈ l -> keeps base R (f x)) -> keeps base R (for_each f l).
Proof. intros Hf s Hs. apply wp_for_each_inv; [exact Hs|]. intros x s' Hx. apply Hf, Hx. Qed.

(** ** Calls and changes *)

Lemma inv_sys (o : open_obj) k k' : open_fds k' = open_fds k -> inv (o, k) -> inv (o, k').
Proof. intros Hk []. split; auto. eapply owns_keep; eassumption. Qed.

Lemma keeps_sysk {A} (f : K -> A * K) :
  (forall k, open_fds (snd (f k)) = open_fds k) -> keeps base R (sysk f).
Proof.
  intros Hf [o k] Hs. apply wp_call. cbn [fst snd]. pose proof (Hf k) as Hk.
  destruct (f k) as [a k']. exact (inv_sys o k k' Hk Hs).
Qed.
Lemma keeps_sysr {A} (f : K -> res (A * K)) :
  (forall k a k', f k = Ok (a, k') -> open_fds k' = open_fds k) -> keeps base R (sysr f).
Proof.
  intros Hf [o k] Hs. unfold wp, sysr. cbn [fst snd]. destruct (f k) as [[a k']|fl] eqn:E; [|exact I].
  exact (inv_sys o k k' (Hf k a k' E) Hs).
Qed.
Lemma keeps_alloc : keeps base R alloc.
Proof. apply keeps_sysk, alloc_fds. Qed.
Lemma keeps_alloc_or e : keeps base R (alloc_or e).
Proof. apply keeps_bind; [apply keeps_alloc | intros; apply keeps_reject]. Qed.

(** A change of the object that touches neither programs nor descriptors,
    and adds no map that is not idle. *)
Definition neutral (f : open_obj -> open_obj) : Prop :=
  forall o, o_maps (f o) = o_maps o /\ o_programs (f o) = o_programs o /\
    elf_fds (f o) = elf_fds o /\ o_btf (f o) = o_btf o.

Lemma keeps_updo f : neutral f -> keeps base R (updo f).
Proof.
  intros Hf [o k] []. apply wp_modify. destruct (Hf o) as (E1 & E2 & E3 & E4). cbn in *.
  split; cbn; unfold open_btf_fds in *; rewrite ?E1, ?E2, ?E3, ?E4; assumption.
Qed.

(** A change of one map that leaves it idle. *)
Lemma keeps_upd_map i f :
  (forall x, idle_map (om_map x) -> idle_map (om_map (f x))) -> keeps base R (upd_map i f).
Proof.
  intros Hf [o k] [Hm Hp Ho Hb]. apply wp_modify. destruct o. cbn in *.
  split; cbn; [|unfold zlen in *; rewrite length_alter; exact Hp|exact Ho|exact Hb].
  apply Forall_alter; [exact Hm|]. intros x _ Hx. apply Hf, Hx.
Qed.
Lemma keeps_upd_def i f : keeps base R (upd_def i f).
Proof. apply keeps_upd_map. intros x Hx. exact Hx. Qed.

(** A change of one program that leaves it idle. *)
Lemma keeps_upd_prog i f :
  (forall n p, idle_prog p -> ph_prog R n p -> idle_prog (f p) /\ ph_prog R n (f p)) -> keeps base R (upd_prog i f).
Proof.
  intros Hf [o k] [Hm Hp Ho Hb]. apply wp_modify. destruct o. cbn in *.
  split; cbn; [exact Hm| |exact Ho|exact Hb].
  apply Forall_alter; [exact Hp|]. intros x _ [Hx1 Hx2]. apply Hf; assumption.
Qed.

Lemma keeps_sort cmp :
  keeps base R (updo (fun o => set_o_maps (qsort cmp (o_maps o)) (maps_cap o) o)).
Proof.
  intros [o k] [Hm Hp Ho Hb]. apply wp_modify. destruct o as [a b c d e ps ms]. cbn in *.
  assert (zlen (qsort cmp ms) = zlen ms) as Hz
    by (unfold zlen; rewrite (Permutation_length (qsort_perm cmp ms)); reflexivity).
  split; cbn; [|rewrite Hz; exact Hp|exact Ho|exact Hb]. rewrite qsort_perm. exact Hm.
Qed.

End inv.

#[export] Hint Resolve keeps_ret keeps_throw keeps_gets keeps_lift keeps_reject keeps_check
  keeps_or_throw keeps_or_error keeps_alloc keeps_alloc_or keeps_upd_def keeps_sort : keeps.

(** A change that is neutral, by looking at it. *)
Ltac neutral :=
  let o := fresh in
  intros o; destruct o as [? ? ? ? ? ? ? ? ? ? ? ? [? ? ? ? ? ? ? ? ? ? ? ? ? ? ?] ? ? ?];
  repeat split; reflexivity.

Ltac keeps_step :=
  lazymatch goal with
  | |- keeps _ _ (mbind _ _) => apply keeps_bind; [|intros ?]
  | |- keeps _ _ (updo (fun o => set_o_maps (qsort _ _) _ _)) => apply keeps_sort
  | |- keeps _ _ (updo _) => apply keeps_updo; neutral
  | |- keeps _ _ (geto _) => apply keeps_gets
  | |- keeps _ _ (getk _) => apply keeps_gets
  | |- keeps _ _ (if ?b then _ else _) => destruct b
  | |- keeps _ _ (match ?x with _ => _ end) => destruct x
  | |- keeps _ _ (for_each _ _) => apply keeps_for_each; intros ? _
  end.
Ltac keeps := repeat keeps_step; eauto with keeps.

Section steps.
Context {K : Type} `{LS : BpfSysLaws K} `{!BtfSys K} `{BLS : !BtfSysLaws K} `{!ElfSys K}
  `{ELS : !ElfSysLaws K} `{Libelf} `{Qsort}.
#[local] Abbreviation M := (@OpenObj.M K).
Context (base : gset Z).

(** * Up to the relocations *)

(** No program has relocations yet. *)
Definition no_relocs (n : Z) (p : bpf_program) : Prop := p_relocs p = None.
Context (B : option btf -> Prop).
#[local] Abbreviation ph0 := (mk_phase no_relocs B).
#[local] Abbreviation keeps0 := (keeps base ph0).

Lemma keeps_license d : keeps0 (bpf_object__init_license d).
Proof. unfold bpf_object__init_license. keeps. Qed.
Lemma keeps_kversion d : keeps0 (bpf_object__init_kversion d).
Proof. unfold bpf_object__init_kversion. keeps. Qed.
Lemma keeps_endianness : keeps0 bpf_object__check_endianness.
Proof. unfold bpf_object__check_endianness. keeps. Qed.

(** ** Programs *)

Lemma yields_init_program d name idx :
  yields base ph0 (fun p => idle_prog p /\ p_relocs p = None) (bpf_program__init d name idx).
Proof.
  unfold bpf_program__init, bpf_program__pin_name.
  repeat first [apply yields_ret | apply yields_bind; [solve [keeps]|intros ?]].
  split; [|reflexivity]. split; cbn; eauto.
Qed.

Lemma keeps_add_prog p :
  idle_prog p -> p_relocs p = None ->
  keeps0 (progs ← geto o_programs; updo (set_o_programs (progs ++ [p]))).
Proof.
  intros Hi Hr [o k] [Hm Hp Ho Hb]. destruct o. cbn in *.
  split; cbn; [exact Hm| |exact Ho|exact Hb]. apply Forall_app. auto.
Qed.

Lemma keeps_add_program d name idx : keeps0 (bpf_object__add_program d name idx).
Proof.
  unfold bpf_object__add_program. eapply keeps_bind_val; [apply yields_init_program|].
  intros p [Hi Hr]. apply keeps_bind; [keeps|]. intros _. apply keeps_add_prog; assumption.
Qed.

Lemma keeps_find_prog_sym e strtab symbols idx sis :
  keeps0 (find_prog_sym e strtab symbols idx sis).
Proof. induction sis as [|si sis IH]; cbn [find_prog_sym]; keeps. Qed.

Lemma keeps_the_elf : keeps0 the_elf.
Proof. unfold the_elf. keeps. Qed.
Lemma keeps_the_symbols : keeps0 the_symbols.
Proof. unfold the_symbols. keeps. Qed.

Lemma keeps_init_prog_names : keeps0 bpf_object__init_prog_names.
Proof.
  unfold bpf_object__init_prog_names, init_prog_name.
  pose proof keeps_the_elf. pose proof keeps_the_symbols. pose proof keeps_find_prog_sym.
  keeps. apply keeps_upd_prog. intros n p [] Hr. split; [split; assumption | exact Hr].
Qed.

(** ** Sections *)

Lemma keeps_collect_section e idx sh name data bs : keeps0 (collect_section e idx sh name data bs).
Proof.
  pose proof keeps_license. pose proof keeps_kversion. pose proof keeps_add_program.
  unfold collect_section. keeps.
Qed.
Lemma keeps_collect_sections e shstrndx scns : forall bs, keeps0 (collect_sections e shstrndx scns bs).
Proof.
  pose proof keeps_collect_section.
  induction scns as [|[idx scn] scns IH]; intros bs; cbn [collect_sections]; keeps.
Qed.

(** ** BTF *)

(** Parsing opens nothing, and gives a BTF that is not loaded. *)
Lemma hdr_fd b err b' : btf_parse_hdr b = Ok (err, b') -> b_fd b' = b_fd b.
Proof.
  unfold btf_parse_hdr. intros Hx. repeat (case_match || res_inv); simplify_eq; reflexivity.
Qed.
Lemma str_sec_fd b err b' : btf_parse_str_sec b = Ok (err, b') -> b_fd b' = b_fd b.
Proof.
  unfold btf_parse_str_sec. intros Hx. repeat (case_match || res_inv); simplify_eq; reflexivity.
Qed.
Lemma add_type_fd (k : K) b t err b' k' :
  btf_add_type k b t = Ok (err, b', k') -> b_fd b' = b_fd b /\ open_fds k' = open_fds k.
Proof.
  unfold btf_add_type. intros Hx. apply bind_Ok_inv in Hx as ([[e1 b1] k1] & E & Hx).
  assert (b_fd b1 = b_fd b /\ open_fds k1 = open_fds k) as [Hb Hk].
  { clear Hx. pose proof (alloc_fds k). destruct (types_size b - nr_types b <? 2); [|by simplify_eq].
    destruct (_ =? _); [by simplify_eq|]. destruct (sys_alloc k) as [ok k2]. cbn [snd] in *.
    destruct ok; cbn [negb] in E; [|by simplify_eq]. res_inv. by simplify_eq. }
  case_match; [by simplify_eq|]. res_inv. simplify_eq. auto.
Qed.
Lemma parse_types_fd fuel : forall (k : K) b o e err b' k',
  parse_types_loop fuel k b o e = Ok (err, b', k') -> b_fd b' = b_fd b /\ open_fds k' = open_fds k.
Proof.
  induction fuel as [|fuel IH]; intros k b o e err b' k' Hx; cbn [parse_types_loop] in Hx; [discriminate|].
  case_match; [by simplify_eq|]. res_inv. case_match; [by simplify_eq|].
  apply bind_Ok_inv in Hx as ([[e1 b1] k1] & E1 & Hx). apply add_type_fd in E1 as [Hb Hk].
  case_match; [simplify_eq; auto|]. apply IH in Hx as [-> ->]. auto.
Qed.
Lemma btf_new_fds (k : K) d n r k' :
  btf__new k d n = Ok (r, k') ->
  open_fds k' = open_fds k /\ match r with inr b => b_fd b = -1 | inl _ => True end.
Proof.
  assert (forall (k : K) b, b_fd b = -1 -> btf__free k b = k) as Hfree
    by (intros ? b Hb; unfold btf__free; rewrite Hb; reflexivity).
  unfold btf__new. pose proof (alloc_fds k) as A1. destruct (sys_alloc k) as [[] k1]; cbn [negb snd] in *.
  2:{ intros [= <- <-]. auto. }
  pose proof (alloc_fds k1) as A2. destruct (sys_alloc k1) as [[] k2]; cbn [negb snd] in *.
  2:{ intros [= <- <-]. rewrite Hfree by reflexivity. split; [congruence | exact I]. }
  intros Hx. res_inv. destruct x0 as [e1 b1]. apply hdr_fd in E0. cbn [b_fd] in E0.
  case_match; [simplify_eq; rewrite Hfree by assumption; split; [congruence | exact I]|].
  res_inv. destruct x0 as [e2 b2]. apply str_sec_fd in E1.
  case_match; [simplify_eq; rewrite Hfree by congruence; split; [congruence | exact I]|].
  apply bind_Ok_inv in Hx as ([[e3 b3] k3] & E3 & Hx). unfold btf_parse_type_sec in E3.
  res_inv. apply parse_types_fd in E3 as [Hb Hk].
  case_match; simplify_eq; [rewrite Hfree by congruence|]; split; congruence || exact I.
Qed.
Lemma btf_ext_new_fds (k : K) d n r k' : btf_ext__new k d n = Ok (r, k') -> open_fds k' = open_fds k.
Proof.
  unfold btf_ext__new. intros Hx. res_inv. case_match; [by simplify_eq|].
  pose proof (alloc_fds k) as A1. destruct (sys_alloc k) as [[] k1]; cbn [negb snd] in *; [|by simplify_eq].
  pose proof (alloc_fds k1) as A2. destruct (sys_alloc k1) as [[] k2]; cbn [negb snd] in *.
  2:{ simplify_eq. congruence. }
  res_inv. case_match. simplify_eq. congruence.
Qed.

End steps.

Section btf_steps.
Context {K : Type} `{LS : BpfSysLaws K} `{!BtfSys K} `{BLS : !BtfSysLaws K} `{!ElfSys K}
  `{ELS : !ElfSysLaws K} `{Libelf} `{Qsort}.
#[local] Abbreviation M := (@OpenObj.M K).
Context (base : gset Z) (R : Z -> bpf_program -> Prop).

(** No BTF yet, BTF that is not loaded, BTF that may be. *)
Definition btf_none (b : option btf) : Prop := b = None.
Definition btf_unloaded (b : option btf) : Prop :=
  match b with Some b => b_fd b = -1 | None => True end.
Definition btf_maybe (b : option btf) : Prop :=
  match b with Some b => -1 <= b_fd b | None => True end.

#[local] Abbreviation ph B := (mk_phase R B).

Lemma oinv_weaken R1 B1 R2 B2 s :
  (forall n p, R1 n p -> R2 n p) -> (forall b, B1 b -> B2 b) ->
  oinv base (mk_phase R1 B1) s -> oinv base (mk_phase R2 B2) s.
Proof.
  intros HR HB [Hm Hp Ho Hb]. split; cbn in *; auto.
  eapply Forall_impl; [exact Hp|]. cbn. intros p [Hp1 Hp2]. auto.
Qed.
Lemma unloaded_none b : btf_none b -> btf_unloaded b.
Proof. intros ->. exact I. Qed.
Lemma maybe_unloaded b : btf_unloaded b -> btf_maybe b.
Proof. destruct b as [b|]; cbn; [lia | auto]. Qed.

(** A BTF that is not loaded owns nothing. *)
Lemma set_unloaded_inv b b' o (k : K) :
  btf_unloaded (o_btf o) -> btf_unloaded b' -> oinv base (ph b) (o, k) ->
  oinv base (ph btf_unloaded) (set_o_btf b' o, k).
Proof.
  intros Hb Hb' [Hm Hp Ho _]. destruct o as [a1 a2 a3 a4 a5 a6 a7 a8 a9 a10 a11 a12 a13 b0 a15 a16].
  cbn in *. split; cbn; auto. unfold open_btf_fds, elf_fds in *. cbn in *.
  assert (forall x : option btf, btf_unloaded x ->
    live (match x with Some b => [b_fd b] | None => [] end) = []) as Hl.
  { intros [x|]; cbn; [intros ->|]; reflexivity. }
  rewrite Permutation_app_comm in Ho |- *. unfold owns in *.
  unfold live in *. rewrite filter_app in *. fold live in *.
  rewrite (Hl b0 Hb) in Ho. rewrite (Hl b' Hb'). exact Ho.
Qed.

Lemma yields_init_btf_data B d :
  yields base (ph B) (fun r => match snd r with inr (Some b) => b_fd b = -1 | _ => True end)
    (init_btf_data d).
Proof.
  unfold init_btf_data. destruct d as [d|]; [|apply yields_ret; exact I].
  eapply (yields_bind_val base (ph B) (fun r => match r with inr b => b_fd b = -1 | inl _ => True end)).
  - intros [o k] Hs. unfold wp, sysr. cbn [fst snd].
    destruct (btf__new k _ _) as [[r k']|fl] eqn:E; [|exact I].
    apply btf_new_fds in E as [Hk Hr]. split; [exact (inv_sys _ _ o k k' Hk Hs) | exact Hr].
  - intros [e|b] Hb; [apply yields_ret; exact I|].
    apply yields_bind; [keeps|]. intros f. eapply yields_bind_val.
    + apply (yields_lift _ _ (fun r => rewritten b (snd r))). intros [e b'] Hx.
      apply finalize_rewritten in Hx. exact Hx.
    + intros [e b'] Hr. cbn in Hr. apply yields_ret. cbn. rewrite (rewritten_fd _ _ Hr). exact Hb.
Qed.

Lemma keeps_init_btf_ext B d : keeps base (ph B) (init_btf_ext d).
Proof.
  unfold init_btf_ext. destruct d as [d|]; [|apply keeps_ret].
  apply keeps_bind; [apply keeps_sysr; intros ? ? ?; apply btf_ext_new_fds|]. intros r. keeps.
Qed.

Lemma wp_init_btf d x s :
  oinv base (ph btf_none) s ->
  wp any_fault (bpf_object__init_btf d x) (fun _ => oinv base (ph btf_unloaded))
    (fun _ => oinv base (ph btf_unloaded)) s.
Proof.
  intros Hs. unfold bpf_object__init_btf.
  apply wp_bind, wp_gets. apply wp_bind.
  eapply wp_mono; [exact (yields_init_btf_data btf_none d s Hs)| |].
  2:{ intros e s'. apply oinv_weaken; auto using unloaded_none. }
  intros [err b] s1 [Hs1 Hb]. cbn [snd] in Hb. apply wp_bind.
  eapply wp_mono.
  - refine (_ : wp _ _ (fun r s => oinv base (ph btf_none) s /\ btf_unloaded (snd r))
      (fun _ => oinv base (ph btf_none)) s1). revert s1 Hs1.
    change (yields base (ph btf_none) (fun r => btf_unloaded (snd r))
      (match b with
       | inr (Some x0) => if err =? 0 then _ ← init_btf_ext x; mret (0, Some x0)
           else _ ← sysk (fun k => (tt, btf__free k x0));
                mret (if is_btf_mandatory (fst s) then err else 0, None)
       | inr None => mret (0, None)
       | inl e => mret (if is_btf_mandatory (fst s) then e else 0, None)
       end)).
    destruct b as [e|[b|]]; try (apply yields_ret; exact I).
    destruct (err =? 0); (apply yields_bind; [|intros; apply yields_ret; cbn; auto]).
    + apply keeps_init_btf_ext.
    + apply keeps_sysk. intros k. cbn. unfold btf__free. rewrite Hb. reflexivity.
  - intros [err' b'] s2 [Hs2 Hb']. cbn [snd] in Hb'.
    assert (oinv base (ph btf_unloaded) (set_o_btf b' (fst s2), snd s2)) as Hs3.
    { eapply set_unloaded_inv; [|exact Hb'|]; destruct s2; [|exact Hs2].
      apply unloaded_none, (oi_btf _ _ _ Hs2). }
    apply wp_bind, wp_modify. destruct b'; [apply wp_ret; exact Hs3|].
    destruct (is_btf_mandatory (fst s)); [apply wp_throw | apply wp_ret]; exact Hs3.
  - intros e s'. apply oinv_weaken; auto using unloaded_none.
Qed.

Lemma keeps_sanitize : keeps base (ph btf_unloaded) (bpf_object__sanitize_btf).
Proof.
  unfold bpf_object__sanitize_btf. intros s Hs. apply wp_bind, wp_gets.
  destruct (o_btf (fst s)) as [b|] eqn:Eb; [|exact Hs].
  apply wp_bind, wp_gets. apply wp_bind, wp_lift.
  destruct (sanitize_btf _ _ b) as [b'|] eqn:Ex; [|exact I]. apply sanitize_rewritten in Ex.
  apply wp_modify. destruct s as [o k]. pose proof (oi_btf _ _ _ Hs) as Hb. cbn in Hb, Eb.
  eapply set_unloaded_inv; [exact Hb| |exact Hs]. cbn. rewrite (rewritten_fd _ _ Ex).
  rewrite Eb in Hb. exact Hb.
Qed.
Lemma keeps_sanitize_ext B : keeps base (ph B) bpf_object__sanitize_btf_ext.
Proof. unfold bpf_object__sanitize_btf_ext. keeps. Qed.

Lemma btf_load_gives (k : K) b b' k' :
  btf__load k b = (0, b', k') -> gives_fd k (ROk (b_fd b'), k').
Proof.
  unfold btf__load. destruct (0 <=? b_fd b); [discriminate|].
  pose proof (alloc_fds k) as Ha. destruct (sys_alloc k) as [[|] k1]; cbn [negb snd] in *;
    [|discriminate].
  pose proof (load_btf_fds k1 (b_data b) (Some BPF_LOG_BUF_SIZE) false) as Hg. unfold gives_fd in *.
  destruct (bpf_load_btf _ _ _ _) as [[fd|e] k2]; cbn [fst snd] in *; [|intros; simplify_eq; lia].
  intros [= <- <-]. cbn. rewrite <- Ha. exact Hg.
Qed.

Lemma wp_sanitize_and_load s :
  oinv base (ph btf_unloaded) s ->
  wp any_fault bpf_object__sanitize_and_load_btf (fun _ => oinv base (ph btf_maybe))
    (fun _ => oinv base (ph btf_maybe)) s.
Proof.
  assert (forall s, oinv base (ph btf_unloaded) s -> oinv base (ph btf_maybe) s) as Hw
    by (intros s0; apply oinv_weaken; auto using maybe_unloaded).
  intros Hs. unfold bpf_object__sanitize_and_load_btf. apply wp_bind, wp_gets.
  destruct (o_btf (fst s)); [|exact (Hw s Hs)]. apply wp_bind.
  eapply wp_mono; [exact (keeps_sanitize s Hs)| |intros; apply Hw; assumption].
  intros [] s1 Hs1. apply wp_bind.
  eapply wp_mono; [exact (keeps_sanitize_ext btf_unloaded s1 Hs1)| |intros; apply Hw; assumption].
  intros [] [o k] Hs2. apply wp_bind, wp_gets. cbn [fst]. apply wp_bind, wp_lift.
  destruct (o_btf o) as [b0|] eqn:Eb; [|exact I]. cbn [or_fault].
  apply wp_bind, wp_call. cbn [fst snd].
  pose proof (oi_btf _ _ _ Hs2) as Hb0. cbn in Hb0. rewrite Eb in Hb0. cbn in Hb0.
  destruct (btf__load k b0) as [[err b1] k1] eqn:El. cbn [fst snd].
  assert (err <> 0 -> b_fd b1 = -1) as Hfail.
  { unfold btf__load in El. rewrite Hb0 in El. cbn in El.
    destruct (sys_alloc k) as [[] k2]; cbn [negb] in El; [|by simplify_eq].
    destruct (bpf_load_btf k2 _ _ _) as [[fd|e] k3]; by simplify_eq. }
  pose proof El as El'. apply btf_load_owns in El' as [(-> & _ & _)|(He & Hk)].
  - apply btf_load_gives in El. cbn [negb Z.eqb]. apply wp_modify. destruct Hs2 as [Hm Hp Ho Hb].
    destruct o as [a1 a2 a3 a4 a5 a6 a7 a8 a9 a10 a11 a12 a13 a14 a15 a16]. cbn in *. subst a14.
    unfold open_btf_fds, elf_fds in Ho. cbn in Ho. rewrite Permutation_app_comm, Hb0 in Ho.
    apply (owns_neg _ _ (-1)) in Ho; [|lia]. apply (owns_give _ _ _ _ _ El) in Ho as [Hpos Ho].
    split; cbn; [exact Hm|exact Hp| |lia]. unfold open_btf_fds, elf_fds. cbn.
    rewrite Permutation_app_comm. exact Ho.
  - rewrite (proj2 (Z.eqb_neq err 0)) by lia. cbn [negb]. specialize (Hfail ltac:(lia)).
    pose proof (inv_sys base (ph btf_unloaded) o k k1 Hk Hs2) as Hs3.
    apply wp_bind, wp_call. cbn [fst snd]. unfold btf__free. rewrite Hfail. cbn [negb Z.eqb].
    apply wp_bind, wp_modify. cbn [fst snd].
    assert (oinv base (ph btf_maybe) (set_o_btf None o, k1)) as Hs4.
    { apply Hw. eapply set_unloaded_inv; [|exact I|exact Hs3]. rewrite Eb. exact Hb0. }
    apply wp_bind. eapply wp_mono; [refine (keeps_updo base _ _ _ _ Hs4); neutral| |auto].
    intros [] s5 Hs5. apply wp_bind, wp_gets, wp_reject.
    destruct (is_btf_mandatory (fst s5)); exact Hs5.
Qed.
End btf_steps.

Section map_steps.
Context {K : Type} `{LS : BpfSysLaws K} `{!BtfSys K} `{BLS : !BtfSysLaws K} `{!ElfSys K}
  `{ELS : !ElfSysLaws K} `{Libelf} `{Qsort}.
#[local] Abbreviation M := (@OpenObj.M K).
Context (base : gset Z) (B : option btf -> Prop).
#[local] Abbreviation keeps0 := (keeps base (mk_phase no_relocs B)).

(** * Maps *)

Lemma idle_new : idle_map (om_map new_map).
Proof. repeat split. Qed.

Lemma keeps_add_new cap : keeps0 (ms ← geto o_maps; updo (set_o_maps (ms ++ [new_map]) cap)).
Proof.
  intros [o k] [Hm Hp Ho Hb]. destruct o. cbn in *. split; cbn; [|exact Hp|exact Ho|exact Hb].
  apply Forall_app. split; [exact Hm|]. repeat constructor.
Qed.

Lemma keeps_add_map : keeps0 bpf_object__add_map.
Proof.
  intros [o k] Hs. unfold bpf_object__add_map.
  apply wp_bind, wp_gets. apply wp_bind, wp_gets. cbn [fst].
  pose proof (keeps_add_new (maps_cap o) (o, k) Hs) as Hadd.
  destruct (zlen (o_maps o) <? maps_cap o); [exact Hadd|].
  apply wp_bind. unfold alloc_or, alloc. apply wp_bind, wp_call. cbn [fst snd].
  pose proof (alloc_fds k) as Hk. destruct (sys_alloc k) as [ok k']. cbn [fst snd] in *.
  apply wp_reject. apply (inv_sys base _ _ _ _ Hk) in Hs.
  destruct ok; cbn [negb]; [|exact Hs].
  exact (keeps_add_new _ (o, k') Hs).
Qed.

Lemma keeps_init_internal_map type i d buff :
  (forall store bytes, buff = Some store -> neutral (store bytes)) ->
  keeps0 (bpf_object__init_internal_map type i d buff).
Proof.
  intros Hn. pose proof keeps_add_map. unfold bpf_object__init_internal_map.
  keeps; first [apply keeps_updo, Hn; reflexivity | apply keeps_upd_map; intros x Hx; exact Hx].
Qed.

Lemma keeps_global_maps : keeps0 bpf_object__init_global_data_maps.
Proof.
  unfold bpf_object__init_global_data_maps.
  assert (forall type i d buff, (forall store bytes, buff = Some store -> neutral (store bytes)) ->
    keeps0 (bpf_object__init_internal_map type i d buff)) as Hi by apply keeps_init_internal_map.
  keeps; apply Hi; intros store bytes Heq; simplify_eq; neutral.
Qed.

Lemma keeps_init_user_map e strtab shndx symbols d sz strict si :
  keeps0 (init_user_map e strtab shndx symbols d sz strict si).
Proof.
  pose proof keeps_add_map. unfold init_user_map. keeps;
    apply keeps_upd_map; intros x Hx; exact Hx.
Qed.
Lemma keeps_init_user_maps strict : keeps0 (bpf_object__init_user_maps strict).
Proof.
  pose proof keeps_init_user_map. pose proof keeps_the_elf.
  unfold bpf_object__init_user_maps. keeps.
Qed.

Lemma keeps_the_map i : keeps0 (the_map i).
Proof. unfold the_map. keeps. Qed.
Lemma keeps_pin_path i path : keeps0 (build_map_pin_path i path).
Proof.
  pose proof keeps_the_map. unfold build_map_pin_path, bpf_map__set_pin_path. keeps;
    apply keeps_upd_map; intros x Hx; exact Hx.
Qed.
Lemma keeps_key_size i sz : keeps0 (set_key_size i sz).
Proof. pose proof keeps_the_map. unfold set_key_size. keeps. Qed.
Lemma keeps_value_size i sz : keeps0 (set_value_size i sz).
Proof. pose proof keeps_the_map. unfold set_value_size. keeps. Qed.

Lemma keeps_btf_map_field b def i strict pin j : keeps0 (init_btf_map_field b def i strict pin j).
Proof.
  pose proof keeps_key_size. pose proof keeps_value_size. pose proof keeps_pin_path.
  unfold init_btf_map_field. keeps; apply keeps_upd_map; intros x Hx; exact Hx.
Qed.
Lemma keeps_user_btf_map b sec i d strict pin j :
  keeps0 (bpf_object__init_user_btf_map b sec i d strict pin j).
Proof.
  pose proof keeps_add_map. pose proof keeps_the_map. pose proof keeps_btf_map_field.
  unfold bpf_object__init_user_btf_map. keeps; apply keeps_upd_map; intros x Hx; exact Hx.
Qed.
Lemma keeps_user_btf_maps strict pin : keeps0 (bpf_object__init_user_btf_maps strict pin).
Proof.
  pose proof keeps_user_btf_map. pose proof keeps_the_elf.
  unfold bpf_object__init_user_btf_maps. keeps.
Qed.

Lemma keeps_init_maps relaxed pin : keeps0 (bpf_object__init_maps relaxed pin).
Proof.
  pose proof keeps_init_user_maps. pose proof keeps_user_btf_maps. pose proof keeps_global_maps.
  unfold bpf_object__init_maps. keeps.
Qed.

End map_steps.

Section probes.
Context {K : Type} `{LS : BpfSysLaws K} `{!BtfSys K} `{BLS : !BtfSysLaws K} `{!ElfSys K}
  `{ELS : !ElfSysLaws K} `{Libelf} `{Qsort}.
#[local] Abbreviation M := (@OpenObj.M K).
#[local] Abbreviation ost := (@OpenObj.ost K).
Context (base : gset Z) (R : phase).

(** * Probes *)

(** The invariant with more descriptors in hand. *)
Record holding (fds : list Z) (s : ost) : Prop := {
  ho_maps : Forall (fun x => idle_map (om_map x)) (o_maps (fst s));
  ho_progs : Forall (fun p => idle_prog p /\ ph_prog R (zlen (o_maps (fst s))) p) (o_programs (fst s));
  ho_owns : owns base (snd s) (fds ++ elf_fds (fst s) ++ open_btf_fds (fst s));
  ho_btf : ph_btf R (o_btf (fst s))
}.

Lemma holding_nil s : holding [] s <-> oinv base R s.
Proof. split; intros []; split; assumption. Qed.

Lemma wp_close_probe fd fds s (E : Z -> ost -> Prop) :
  0 <= fd -> holding (fd :: fds) s -> wp any_fault (close_probe fd) (fun _ => holding fds) E s.
Proof.
  intros Hfd [Hm Hp Ho Hb]. apply wp_call. cbn. apply owns_close in Ho as [_ Ho].
  unfold zclose in Ho. rewrite (proj2 (Z.leb_le 0 fd) Hfd) in Ho. split; assumption.
Qed.
Lemma wp_upd_caps f fds s (E : Z -> ost -> Prop) :
  holding fds s -> wp any_fault (upd_caps f) (fun _ => holding fds) E s.
Proof. intros [Hm Hp Ho Hb]. apply wp_modify. destruct s as [[] k]. cbn in *. split; assumption. Qed.

(** What a call that may give a descriptor leaves. *)
Definition given (fds : list Z) (r : sysret) (s : ost) : Prop :=
  match r with ROk fd => 0 <= fd /\ holding (fd :: fds) s | RErr _ => holding fds s end.

Lemma wp_load_probe name insns fds s (E : Z -> ost -> Prop) :
  holding fds s -> wp any_fault (load_probe name insns) (given fds) E s.
Proof.
  intros [Hm Hp Ho Hb]. destruct s as [o k]. unfold wp, load_probe, sysr. cbn [fst snd] in *.
  destruct (load_program_xattr_ok base k (fds ++ elf_fds o ++ open_btf_fds o) (probe_attr name insns)
    false 0) as (r & text & k' & -> & Hg & _); [repeat split; cbn; lia | exact Ho |].
  cbn [mbind res_bind]. unfold got in Hg. destruct r as [fd|e]; [destruct Hg as [Hfd Hg]; split; [exact Hfd|]|];
    split; assumption.
Qed.

Lemma wp_load_raw_btf types strs fds s (E : Z -> ost -> Prop) :
  holding fds s -> wp any_fault (libbpf__load_raw_btf types strs) (given fds) E s.
Proof.
  intros [Hm Hp Ho Hb]. destruct s as [o k]. unfold libbpf__load_raw_btf, alloc.
  apply wp_bind, wp_call. cbn [fst snd] in *. pose proof (alloc_owns base k _ Ho) as Ho1.
  destruct (sys_alloc k) as [[] k1]; cbn [fst snd negb] in *; [|split; assumption].
  apply wp_call. cbn [fst snd]. pose proof (load_btf_fds k1 (raw_btf types strs) None false) as Hg.
  destruct (bpf_load_btf k1 _ _ _) as [[fd|e] k2]; cbn [fst snd].
  - destruct (owns_give base _ _ _ _ Hg Ho1) as [Hfd Ho2]. split; [exact Hfd|]. split; assumption.
  - split; try assumption. eapply owns_keep; [apply Hg | exact Ho1].
Qed.

(** A descriptor that is closed again after noting what it shows. *)
Lemma wp_probe (m : M sysret) f fds s (E : Z -> ost -> Prop) :
  holding fds s -> (forall s, holding fds s -> wp any_fault m (given fds) E s) ->
  wp any_fault (r ← m; match r with RErr _ => mret tt | ROk fd => _ ← upd_caps f; close_probe fd end)
    (fun _ => holding fds) E s.
Proof.
  intros Hs Hm. apply wp_bind. eapply wp_mono; [exact (Hm s Hs)| |auto].
  intros [fd|e] s1; cbn [given]; [|intros H1'; exact H1'].
  intros [Hfd Hs1]. apply wp_bind. eapply wp_mono; [apply (wp_upd_caps _ (fd :: fds) _ E), Hs1| |auto].
  intros [] s2 Hs2. apply wp_close_probe; assumption.
Qed.

(** A step that gives back what it opens. *)
Lemma keeps_holding (m : M unit) :
  (forall s, holding [] s -> wp any_fault m (fun _ => holding []) (fun _ => holding []) s) ->
  keeps base R m.
Proof.
  intros Hm s Hs. apply holding_nil in Hs. eapply wp_mono; [exact (Hm s Hs)|..];
    intros ? ?; apply holding_nil.
Qed.

Lemma keeps_probe_name : keeps base R bpf_object__probe_name.
Proof.
  apply keeps_holding. intros s Hs. unfold bpf_object__probe_name. apply wp_bind.
  eapply wp_mono; [apply (wp_load_probe _ _ [] s (fun _ => holding [])), Hs| |auto].
  intros [fd|e] s1; cbn [given]; [|intros Hs1; exact Hs1]. intros [Hfd Hs1]. apply wp_bind.
  eapply wp_mono; [apply (wp_close_probe fd [] _ (fun _ => holding [])); assumption| |auto].
  intros [] s2 Hs2. apply wp_probe; [exact Hs2|]. intros. apply wp_load_probe. assumption.
Qed.

Lemma keeps_probe_global_data : keeps base R bpf_object__probe_global_data.
Proof.
  apply keeps_holding. intros [o k] [Hm Hp Ho Hb]. unfold bpf_object__probe_global_data.
  apply wp_bind, wp_call. cbn [fst snd app] in *.
  pose proof (bpf_create_map_owns base k probe_map_attr _ Ho) as Hc.
  destruct (bpf_create_map_xattr k probe_map_attr) as [[map|e] k1]; cbn [fst snd];
    destruct Hc as [Hfd Hc]; [|split; assumption].
  assert (holding [map] (o, k1)) as Hs1 by (split; assumption). apply wp_bind.
  assert (wp any_fault (ret ← load_probe None (data_insns map);
      match ret with
      | RErr _ => mret tt
      | ROk fd =>
          _ ← upd_caps (fun c => mk_caps (cap_name c) true (cap_btf_func c) (cap_btf_datasec c));
          close_probe fd
      end) (fun _ => holding [map]) (fun _ => holding []) (o, k1)) as Hw.
  { apply wp_probe; [exact Hs1|]. intros. apply wp_load_probe. assumption. }
  apply wp_bind in Hw. eapply wp_mono; [exact Hw| |auto].
  intros r s2 Hw2. apply wp_bind. eapply wp_mono; [exact Hw2| |auto].
  intros [] s3 Hs3. apply wp_close_probe; assumption.
Qed.

Lemma keeps_probe_btf types strs f :
  keeps base R (r ← libbpf__load_raw_btf types strs;
    match r with RErr _ => mret tt | ROk fd => _ ← upd_caps f; close_probe fd end).
Proof.
  apply keeps_holding. intros s Hs. apply wp_probe; [exact Hs|].
  intros. apply wp_load_raw_btf. assumption.
Qed.

Lemma keeps_probe_caps : keeps base R bpf_object__probe_caps.
Proof.
  unfold bpf_object__probe_caps.
  apply keeps_bind; [apply keeps_probe_name | intros _].
  apply keeps_bind; [apply keeps_probe_global_data | intros _].
  apply keeps_bind; [apply keeps_probe_btf | intros _]. apply keeps_probe_btf.
Qed.

End probes.

Lemma find_reloc_map_range ms : forall i type shndx value j,
  find_reloc_map ms i type shndx value = Some j -> i <= j < i + zlen ms.
Proof.
  induction ms as [|m ms IH]; intros i type shndx value j Hx; cbn [find_reloc_map] in Hx; [discriminate|].
  assert (zlen (m :: ms) = zlen ms + 1) as -> by (unfold zlen; cbn [length]; lia).
  pose proof (zlen_nonneg ms). destruct (reloc_means _ _ _ _); [injection Hx as <-; lia|].
  apply IH in Hx. lia.
Qed.

Section relocs.
Context {K : Type} `{LS : BpfSysLaws K} `{!BtfSys K} `{BLS : !BtfSysLaws K} `{!ElfSys K}
  `{ELS : !ElfSysLaws K} `{Libelf} `{Qsort}.
#[local] Abbreviation M := (@OpenObj.M K).
#[local] Abbreviation ost := (@OpenObj.ost K).
Context (base : gset Z) (B : option btf -> Prop).

(** * Relocations *)

(** An entry that was filled in names an instruction and a map; the others
    hold what the memory held. *)
Definition junk (r : reloc_desc) : Prop := exists (k : K) j, r = sys_junk_reloc k j.
Definition entries_ok (n : Z) (p : bpf_program) : Prop :=
  n < 2 ^ 31 -> insns_len p < 2 ^ 31 ->
  Forall (fun r => reloc_ok n (insns_len p) r \/ junk r) (default [] (p_relocs p)).
#[local] Abbreviation ph1 := (mk_phase entries_ok B).

Lemma wp_prog_at i (Q : bpf_program -> ost -> Prop) E s :
  (forall p, o_programs (fst s) !! Z.to_nat i = Some p -> Q p s) ->
  wp any_fault (the_prog i) Q E s.
Proof.
  intros HQ. unfold the_prog. apply wp_bind, wp_gets, wp_lift.
  destruct (aget (o_programs (fst s)) i) as [p|] eqn:Ep; [|exact I].
  apply aget_Ok in Ep. apply HQ, Ep.
Qed.

Lemma wp_set_reloc i j r s :
  oinv base ph1 s ->
  (forall p, o_programs (fst s) !! Z.to_nat i = Some p ->
     zlen (o_maps (fst s)) < 2 ^ 31 -> insns_len p < 2 ^ 31 ->
     reloc_ok (zlen (o_maps (fst s))) (insns_len p) r) ->
  wp any_fault (set_reloc i j r) (fun _ => oinv base ph1) (fun _ => oinv base ph1) s.
Proof.
  intros [Hm Hp Ho Hb] Hr. unfold set_reloc. apply wp_bind, wp_prog_at. intros p Hi.
  apply wp_bind, wp_lift. destruct (p_relocs p) as [rs|] eqn:Ers; [|exact I]. cbn [or_fault].
  apply wp_bind, wp_lift. destruct (aset rs j r) as [rs'|] eqn:Eset; [|exact I].
  apply wp_modify. destruct s as [o k]. cbn [fst snd] in *.
  destruct o as [a1 a2 a3 a4 a5 a6 a7 a8 a9 a10 a11 a12 a13 a14 a15 a16]. cbn in *.
  split; cbn; [exact Hm| |exact Ho|exact Hb]. apply Forall_alter; [exact Hp|].
  intros x Hx [[] Hent]. rewrite Hi in Hx. injection Hx as <-. split; [split; assumption|].
  intros Hn Hl. unfold insns_len in *. cbn in *. specialize (Hent Hn Hl). rewrite Ers in Hent.
  apply aset_Ok_inv in Eset as [_ ->]. apply Forall_insert; [exact Hent|]. left. apply Hr; auto.
Qed.

Lemma keeps_collect_one i d j : keeps base ph1 (collect_one i d j).
Proof.
  intros s Hs. unfold collect_one.
  apply wp_bind. destruct (gelf_getrel d j) as [rel|]; [apply wp_ret | exact Hs].
  apply wp_bind, wp_gets. apply wp_bind.
  destruct (symbols ← ef_symbols _; _) as [sym|]; [apply wp_ret | exact Hs].
  apply wp_bind, wp_prog_at. intros p Hp. apply wp_bind, wp_lift.
  destruct (p_insns p) as [insns|] eqn:Eins; [|exact I]. cbn [or_fault].
  set (idx := u32 _). destruct (SHN_LORESERVE <=? st_shndx sym).
  { apply wp_bind, wp_lift. destruct (aget insns idx); [exact Hs | exact I]. }
  apply wp_bind, wp_reject. destruct (negb _); [exact Hs|].
  apply wp_bind, wp_lift. destruct (aget insns idx) as [insn|] eqn:Eidx; [|exact I].
  apply aget_bounds in Eidx.
  assert (forall q, o_programs (fst s) !! Z.to_nat i = Some q -> insns_len q = zlen insns) as Hlen.
  { intros q Hq. rewrite Hp in Hq. injection Hq as <-. unfold insns_len. rewrite Eins. reflexivity. }
  destruct (i_code insn =? CODE_CALL).
  - apply wp_bind, wp_reject. destruct (negb _); [exact Hs|]. apply wp_bind.
    eapply wp_mono; [apply (wp_set_reloc i j _ s Hs)| |auto].
    + intros q Hq _ Hl. rewrite (Hlen q Hq) in *. unfold reloc_ok. cbn. rewrite s32_small by lia. lia.
    + intros [] s1 Hs1. refine (keeps_updo base ph1 _ _ s1 Hs1). neutral.
  - apply wp_bind, wp_reject. destruct (negb _); [exact Hs|]. unfold collect_map_reloc.
    apply wp_bind, wp_gets. destruct (_ || _); [|exact Hs].
    apply wp_bind, wp_reject. destruct (_ && _); [exact Hs|]. apply wp_bind, wp_gets.
    apply wp_bind, wp_reject. destruct (_ && _); [exact Hs|]. apply wp_bind, wp_gets.
    apply wp_bind. destruct (find_reloc_map _ _ _ _ _) as [m|] eqn:Em; [apply wp_ret | exact Hs].
    apply find_reloc_map_range in Em. apply wp_set_reloc; [exact Hs|].
    intros q Hq Hn Hl. rewrite (Hlen q Hq) in *. unfold reloc_ok. cbn [rel_type rel_insn_idx rel_idx].
    rewrite !s32_small by lia. destruct (negb _); cbn; lia.
Qed.

Lemma keeps_program_relocs i sh d : keeps base ph1 (bpf_program__collect_reloc i sh d).
Proof.
  pose proof keeps_collect_one. unfold bpf_program__collect_reloc.
  apply keeps_bind; [keeps|intros _]. apply keeps_bind; [keeps|intros _].
  apply (keeps_bind_val base ph1 (fun f => forall j, junk (f j))).
  { apply yields_gets. intros [o k] _ j. exists k, j. reflexivity. }
  intros f Hf. keeps. apply keeps_upd_prog. cbn. intros n p [] _. split; [split; assumption|].
  intros _ _. cbn. apply Forall_fmap, Forall_forall. intros z _. right. apply Hf.
Qed.

Lemma keeps_collect_reloc : keeps base ph1 bpf_object__collect_reloc.
Proof.
  pose proof keeps_program_relocs. unfold bpf_object__collect_reloc, collect_section_relocs. keeps.
Qed.

Lemma entries_none n p : no_relocs n p -> entries_ok n p.
Proof. intros Hr _ _. rewrite Hr. constructor. Qed.

End relocs.

Section whole.
Context {K : Type} `{LS : BpfSysLaws K} `{!BtfSys K} `{BLS : !BtfSysLaws K} `{!ElfSys K}
  `{ELS : !ElfSysLaws K} `{Libelf} `{Qsort}.
#[local] Abbreviation M := (@OpenObj.M K).
#[local] Abbreviation ost := (@OpenObj.ost K).

(** * From the file to the object *)

Definition ph_new : phase := mk_phase no_relocs btf_none.
Definition ph_any : phase := mk_phase (fun _ _ => True) btf_maybe.
Definition ph_done : phase := mk_phase (entries_ok (K := K)) btf_maybe.

(** The file could be opened, but libelf did not take it. *)
Definition refused (path : string) (fd : Z) : Prop :=
  exists (k1 k2 k3 : K), sys_open k1 path = (ROk fd, k2) /\ elf_begin k2 fd = (None, k3).
(** What an error leaves: nothing that closing does not give back, but the
    descriptor of such a file. *)
Definition failed (base : gset Z) (path : string) (s : ost) : Prop :=
  oinv base ph_any s \/
  exists fd, (fd ∉ base) /\ refused path fd /\ oinv ({[ fd ]} ∪ base) ph_any s.

Lemma failed_any base path R s : oinv base R s -> (forall b, ph_btf R b -> btf_maybe b) -> failed base path s.
Proof.
  intros Hs HB. left. destruct R as [R B]. eapply oinv_weaken; [|exact HB|exact Hs]. auto.
Qed.
Lemma none_maybe b : btf_none b -> btf_maybe b.
Proof. intros ->. exact I. Qed.

Lemma finish_inv base R o k o' k' :
  elf_finish o k = (o', k') -> oinv base R (o, k) ->
  oinv base R (o', k') /\ elf_fds o' = [] /\ o_path o' = o_path o.
Proof.
  unfold elf_finish. intros Hx Hs. destruct (obj_elf_valid o) eqn:Ev; cbn [negb] in Hx.
  2:{ injection Hx as <- <-. split; [exact Hs|]. unfold elf_fds. rewrite Ev. auto. }
  destruct Hs as [Hm Hp Ho Hb]. destruct o as [a1 a2 a3 a4 a5 a6 a7 a8 a9 a10 a11 a12 e a14 a15 a16].
  cbn in *. unfold elf_fds in Ho. rewrite Ev in Ho. cbn [app] in Ho. apply owns_close in Ho as [_ Ho].
  cbn in Ho. destruct (zclose k (ef_fd e)) as [r k1]. cbn in *. injection Hx as <- <-.
  split; [|split; reflexivity]. split; assumption.
Qed.

(** An error exit of [bpf_object__elf_init]. *)
Lemma wp_fails {A} base path e s :
  oinv base ph_new s ->
  wp any_fault (elf_init_fails e : M A) (fun _ _ => False) (fun _ => failed base path) s.
Proof.
  destruct s as [o k]. intros Hs. unfold elf_init_fails. apply wp_bind, wp_call. cbn [fst snd].
  apply wp_throw. destruct (elf_finish o k) as [o1 k1] eqn:E.
  destruct (finish_inv _ _ _ _ _ _ E Hs) as [Hs1 _]. eapply failed_any; [exact Hs1 | apply none_maybe].
Qed.

(** A fresh object, or one with an ELF file or a descriptor nothing knows. *)
Definition got_elf base path (s : ost) : Prop :=
  (is_Some (ef_elf (o_efile (fst s))) /\ oinv base ph_new s) \/
  (ef_elf (o_efile (fst s)) = None /\
   (oinv base ph_new s \/ exists fd, (fd ∉ base) /\ refused path fd /\ oinv ({[ fd ]} ∪ base) ph_new s)).

Lemma set_elf_fds fd e o :
  elf_fds (upd_efile (set_ef_elf fd e) o) = match e with Some _ => [fd] | None => [] end.
Proof. destruct o as [? ? ? ? ? ? ? ? ? ? ? ? [] ? ? ?], e; reflexivity. Qed.

Lemma set_elf_inv base R fd e o k l :
  oinv base R (o, k) -> elf_fds o = [] ->
  (owns base k (open_btf_fds o) -> owns l k (match e with Some _ => [fd] | None => [] end ++ open_btf_fds o)) ->
  oinv l R (upd_efile (set_ef_elf fd e) o, k).
Proof.
  intros [Hm Hp Ho Hb] Hn Hl. cbn in *. rewrite Hn in Ho. cbn in Ho. specialize (Hl Ho).
  split; cbn; [destruct o; exact Hm|destruct o; exact Hp|rewrite set_elf_fds|destruct o; exact Hb].
  replace (open_btf_fds (upd_efile (set_ef_elf fd e) o)) with (open_btf_fds o)
    by (destruct o; reflexivity). exact Hl.
Qed.
Lemma set_elf_get fd e o : ef_elf (o_efile (upd_efile (set_ef_elf fd e) o)) = e.
Proof. destruct o as [? ? ? ? ? ? ? ? ? ? ? ? [] ? ? ?]. reflexivity. Qed.

Lemma wp_elf_open base o k buf :
  elf_fds o = [] -> oinv base ph_new (o, k) ->
  wp any_fault (elf_init_open buf) (fun _ => got_elf base (o_path o)) (fun _ => failed base (o_path o))
    (o, k).
Proof.
  intros Hn Hs. unfold elf_init_open. destruct (negb _).
  - apply wp_bind, wp_call. cbn [fst snd]. pose proof (memory_fds k buf) as Hk.
    destruct (elf_memory k buf) as [e k1]. cbn [fst snd] in *. apply wp_modify. cbn [fst snd].
    apply (inv_sys _ _ _ _ _ Hk) in Hs.
    assert (oinv base ph_new (upd_efile (set_ef_elf (-1) e) o, k1)) as Hs1.
    { apply (set_elf_inv base ph_new (-1) e o k1 base Hs Hn). destruct e; [|auto].
      intros Ho. apply owns_neg; [lia | exact Ho]. }
    unfold got_elf. cbn [fst]. rewrite set_elf_get. destruct e; [left | right]; eauto.
  - apply wp_bind, wp_gets. cbn [fst]. apply wp_bind, wp_call. cbn [fst snd].
    pose proof (open_gives k (o_path o)) as Hg.
    destruct (sys_open k (o_path o)) as [[fd|e] k1] eqn:Eo; cbn [fst snd].
    2:{ apply wp_throw. destruct Hg as [_ Hk]. apply (inv_sys _ _ _ _ _ Hk) in Hs.
        eapply failed_any; [exact Hs | apply none_maybe]. }
    apply wp_bind, wp_call. cbn [fst snd]. pose proof (begin_fds k1 fd) as Hk.
    destruct (elf_begin k1 fd) as [e k2] eqn:Eb. cbn [fst snd] in *. apply wp_modify. cbn [fst snd].
    pose proof Hs as [_ _ Ho _]. cbn in Ho. rewrite Hn in Ho. cbn in Ho.
    unfold got_elf. cbn [fst]. rewrite set_elf_get. destruct e as [e|].
    + left. split; [eauto|]. destruct Hs as [Hm Hp _ Hb]. cbn in *.
      destruct (owns_give base _ _ _ _ Hg Ho) as [Hfd Ho1]. apply (owns_keep _ _ _ _ Hk) in Ho1.
      split; cbn; [destruct o; exact Hm|destruct o; exact Hp|rewrite set_elf_fds|destruct o; exact Hb].
      destruct o; exact Ho1.
    + right. split; [reflexivity|]. right. exists fd.
      destruct (owns_foreign base _ _ _ _ Hg Ho) as [Ho1 Hnew]. split; [exact Hnew|].
      split; [exists k, k1, k2; auto|]. apply (owns_keep _ _ _ _ Hk) in Ho1.
      rewrite (union_comm_L base) in Ho1. destruct Hs as [Hm Hp _ Hb]. cbn in *.
      split; cbn; [destruct o; exact Hm|destruct o; exact Hp|rewrite set_elf_fds|destruct o; exact Hb].
      destruct o; exact Ho1.
Qed.

Lemma wp_elf_init base o k buf :
  obj_elf_valid o = false -> oinv base ph_new (o, k) ->
  wp any_fault (bpf_object__elf_init buf) (fun _ => oinv base ph_new)
    (fun _ => failed base (o_path o)) (o, k).
Proof.
  intros Hv Hs. assert (elf_fds o = []) as Hn by (unfold elf_fds; rewrite Hv; reflexivity).
  unfold bpf_object__elf_init. apply wp_bind, wp_gets. cbn [fst]. rewrite Hv.
  apply wp_bind, wp_reject. apply wp_bind.
  eapply wp_mono; [exact (wp_elf_open base o k buf Hn Hs)| |auto].
  intros [] s1 [[[e He] Hs1]|[He Hs1]]; unfold elf_init_check; apply wp_bind, wp_gets; rewrite He.
  - assert (forall s2, oinv base ph_new s2 ->
      wp any_fault (elf_init_fails (- LIBBPF_ERRNO__FORMAT)) (fun _ : unit => oinv base ph_new)
        (fun _ => failed base (o_path o)) s2) as Hfail.
    { intros s2 Hs2. eapply wp_mono; [apply (wp_fails base (o_path o)), Hs2|intros ? ? []|auto]. }
    destruct (el_ehdr e) as [ep|]; [|apply Hfail, Hs1]. apply wp_bind.
    eapply wp_mono; [refine (keeps_updo base ph_new (upd_efile (set_ehdr ep)) _ s1 Hs1); neutral| |].
    + intros [] s2 Hs2. destruct (_ || _); [apply Hfail, Hs2 | exact Hs2].
    + intros e' s2 Hs2. eapply failed_any; [exact Hs2 | apply none_maybe].
  - unfold elf_init_fails. apply wp_bind, wp_call. cbn [fst snd]. apply wp_throw.
    destruct s1 as [o1 k1]. cbn [fst snd] in *. unfold elf_finish, obj_elf_valid. rewrite He.
    cbn [negb snd]. destruct Hs1 as [Hs1|(fd & Hnew & Href & Hs1)].
    + eapply failed_any; [exact Hs1 | apply none_maybe].
    + right. exists fd. split; [exact Hnew|]. split; [exact Href|]. eapply oinv_weaken; [| |exact Hs1]; auto using none_maybe.
Qed.

End whole.
