(* ===== verification/OpenTop.v ===== *)
(** What [__bpf_object__open] gives, whatever the file holds: an object that
    was just opened and owns the descriptor of its BTF, or an error that
    leaves nothing open, but for the descriptor of a file libelf refused. *)
From S2P Require Import Prelude CLib XdpLink LibbpfObj LibbpfLoad LibbpfRes BpfLoad Btf BtfExt BtfLookups CoRe Elf ErrMonad OpenObj OpenProgs OpenBtf OpenMaps OpenReloc KernelBtf Open OpenInv.
#[local] Open Scope Z_scope.

Section steps.
Context {K : Type} `{LS : BpfSysLaws K} `{!BtfSys K} `{BLS : !BtfSysLaws K} `{!ElfSys K}
  `{ELS : !ElfSysLaws K} `{Libelf} `{Qsort}.
#[local] Abbreviation M := (@OpenObj.M K).
#[local] Abbreviation ost := (@OpenObj.ost K).
#[local] Abbreviation ph_done := (ph_done (K := K)).
Context (base : gset Z).

Definition ph_btf1 : phase := mk_phase no_relocs btf_unloaded.
Definition ph_btf2 : phase := mk_phase no_relocs btf_maybe.

(** ** Collecting *)

(** An error on the way leaves at most what [ph_any] says. *)
Lemma any_of R (s : ost) :
  (forall b, ph_btf R b -> btf_maybe b) -> oinv base R s -> oinv base ph_any s.
Proof.
  intros HB Hs. destruct R as [R B]. eapply oinv_weaken; [|exact HB|exact Hs]. auto.
Qed.

(** A step within a phase, and what follows it. *)
Lemma wp_keeps {A B} R (m : M A) (f : A -> M B) (Q : B -> ost -> Prop) s :
  keeps base R m -> (forall b, ph_btf R b -> btf_maybe b) -> oinv base R s ->
  (forall a s, oinv base R s -> wp any_fault (f a) Q (fun _ => oinv base ph_any) s) ->
  wp any_fault (m ≫= f) Q (fun _ => oinv base ph_any) s.
Proof.
  intros Hm HB Hs Hf. apply wp_bind. eapply wp_mono; [exact (Hm s Hs)|exact Hf|].
  intros e s' Hs'. exact (any_of R s' HB Hs').
Qed.

Lemma wp_elf_collect relaxed pin s :
  oinv base ph_new s ->
  wp any_fault (bpf_object__elf_collect relaxed pin) (fun _ => oinv base ph_btf2)
    (fun _ => oinv base ph_any) s.
Proof.
  intros Hs. unfold bpf_object__elf_collect.
  apply (wp_keeps ph_new); [apply keeps_the_elf|apply none_maybe|exact Hs|]. intros e s1 Hs1.
  apply (wp_keeps ph_new); [apply keeps_gets|apply none_maybe|exact Hs1|]. intros ep s2 Hs2.
  apply (wp_keeps ph_new); [apply keeps_reject|apply none_maybe|exact Hs2|]. intros _ s3 Hs3.
  apply (wp_keeps ph_new); [apply keeps_collect_sections|apply none_maybe|exact Hs3|].
  intros [bd bx] s4 Hs4.
  apply (wp_keeps ph_new); [apply keeps_gets|apply none_maybe|exact Hs4|]. intros st s5 Hs5.
  apply (wp_keeps ph_new); [apply keeps_reject|apply none_maybe|exact Hs5|]. intros _ s6 Hs6.
  apply wp_bind. eapply wp_mono; [exact (wp_init_btf base no_relocs bd bx s6 Hs6)| |].
  2:{ intros e1 s7. apply (any_of ph_btf1), maybe_unloaded. }
  intros [] s7 Hs7. change (oinv base ph_btf1 s7) in Hs7.
  apply (wp_keeps ph_btf1); [apply keeps_init_maps|apply maybe_unloaded|exact Hs7|]. intros _ s8 Hs8.
  apply wp_bind. eapply wp_mono; [exact (wp_sanitize_and_load base no_relocs s8 Hs8)| |].
  2:{ intros e1 s9. apply (any_of ph_btf2). auto. }
  intros [] s9 Hs9. eapply wp_mono; [exact (keeps_init_prog_names base btf_maybe s9 Hs9)|auto|].
  intros e1 s10. apply (any_of ph_btf2). auto.
Qed.

Lemma wp_open_steps buf core relaxed pin o k :
  obj_elf_valid o = false -> oinv base ph_new (o, k) ->
  wp any_fault (open_steps buf core relaxed pin)
    (fun _ s => oinv base ph_done s /\ elf_fds (fst s) = [])
    (fun _ => failed base (o_path o)) (o, k).
Proof.
  intros Hv Hs. unfold open_steps. apply wp_bind, wp_modify. cbn [fst snd].
  assert (oinv base ph_new (set_o_relaxed core o, k)) as Hs1.
  { refine (keeps_updo base ph_new _ _ (o, k) Hs). neutral. }
  assert (o_path (set_o_relaxed core o) = o_path o) as Hpath by (destruct o; reflexivity).
  assert (obj_elf_valid (set_o_relaxed core o) = false) as Hv1 by (destruct o; exact Hv).
  apply wp_bind. eapply wp_mono; [exact (wp_elf_init base _ k buf Hv1 Hs1)| |rewrite Hpath; auto].
  intros [] s2 Hs2.
  apply (wp_mono any_fault _ (fun _ s => oinv base ph_done s /\ elf_fds (fst s) = []) _
    (fun _ => oinv base ph_any)); [|auto|intros e s3 Hs3; left; exact Hs3].
  apply (wp_keeps ph_new); [apply keeps_endianness|apply none_maybe|exact Hs2|]. intros _ s3 Hs3.
  apply (wp_keeps ph_new); [apply keeps_probe_caps|apply none_maybe|exact Hs3|]. intros _ s4 Hs4.
  apply wp_bind. eapply wp_mono; [exact (wp_elf_collect _ _ _ Hs4)| |auto].
  intros [] s5 Hs5. assert (oinv base ph_done s5) as Hs6.
  { apply (oinv_weaken base no_relocs btf_maybe); [apply entries_none|auto|exact Hs5]. }
  apply (wp_keeps ph_done); [apply keeps_collect_reloc|auto|exact Hs6|]. intros _ [o7 k7] Hs7.
  apply wp_call. cbn [fst snd]. destruct (elf_finish o7 k7) as [o8 k8] eqn:E.
  destruct (finish_inv _ _ _ _ _ _ E Hs7) as (Hs8 & Hn & _). split; [exact Hs8 | exact Hn].
Qed.

Lemma new_inv (k : K) path name obj k' :
  bpf_object__new k path name = (obj, k') ->
  open_fds k' = open_fds k /\
  match obj with
  | Some o => o_path o = path /\ obj_elf_valid o = false /\ oinv (open_fds k) ph_new (o, k')
  | None => True
  end.
Proof.
  unfold bpf_object__new. pose proof (alloc_fds k) as Hk. destruct (sys_alloc k) as [[] k1];
    cbn [negb snd] in *; intros [= <- <-]; (split; [exact Hk|]); [|exact I].
  split; [reflexivity|]. split; [reflexivity|]. split; cbn; try constructor.
  - constructor.
  - rewrite Hk. set_solver.
Qed.

(** ** Closing *)

Lemma idle_fds (o : bpf_object) :
  Forall idle_map (maps o) -> Forall idle_prog (programs o) -> live (obj_fds o) = [].
Proof.
  intros Hm Hp. unfold obj_fds, live. rewrite filter_app.
  assert (filter (fun fd => 0 <= fd) (map_fds (maps o)) = []) as ->.
  { induction Hm as [|m ms [Hfd _] _ IH]; [reflexivity|].
    unfold map_fds in *. rewrite fmap_cons, filter_cons, Hfd. exact IH. }
  induction Hp as [|p ps [Hi _ _ _ _] _ IH]; [reflexivity|].
  rewrite prog_fds_cons, Hi. exact IH.
Qed.

Lemma idle_owns (k : K) (o : bpf_object) l :
  Forall idle_map (maps o) -> Forall idle_prog (programs o) ->
  owns base k l -> owns base k (obj_fds o ++ l).
Proof.
  intros Hm Hp Ho. unfold owns, live in *. rewrite filter_app.
  pose proof (idle_fds o Hm Hp) as Hl. unfold live in Hl. rewrite Hl. exact Ho.
Qed.
Lemma owns_nothing (k : K) : owns base k [] -> open_fds k = base.
Proof. intros (_ & -> & _). cbn. set_solver. Qed.

Lemma close_idle (k : K) (o : bpf_object) :
  Forall idle_map (maps o) -> Forall idle_prog (programs o) ->
  Forall (fun fd => -1 <= fd) (btf_fds o) -> owns base k (btf_fds o) ->
  open_fds (bpf_object__close k o) = base.
Proof.
  intros Hm Hp Hb Ho. apply owns_nothing. apply close_spec; [|exact Hb].
  rewrite app_nil_r. apply idle_owns; assumption.
Qed.

Lemma to_object_idle R o (k : K) :
  oinv base R (o, k) ->
  Forall idle_map (maps (to_object o)) /\ Forall idle_prog (programs (to_object o)).
Proof.
  intros [Hm Hp _ _]. cbn in *. split.
  - apply Forall_fmap. exact Hm.
  - eapply Forall_impl; [exact Hp|]. cbn. intros p [Hi _]. exact Hi.
Qed.
Lemma to_object_btf o : btf_fds (to_object o) = open_btf_fds o.
Proof. unfold btf_fds, open_btf_fds, to_object. cbn. destruct (o_btf o); reflexivity. Qed.
Lemma btf_maybe_fds o : btf_maybe (o_btf o) -> Forall (fun fd => -1 <= fd) (open_btf_fds o).
Proof. unfold open_btf_fds. destruct (o_btf o); cbn; auto. Qed.

Lemma close_any o (k : K) : oinv base ph_any (o, k) -> open_fds (close_open o k) = base.
Proof.
  intros Hs. unfold close_open. destruct (elf_finish o k) as [o1 k1] eqn:E.
  destruct (finish_inv _ _ _ _ _ _ E Hs) as (Hs1 & Hn & _).
  destruct (to_object_idle _ _ _ Hs1) as [Hm Hp]. pose proof Hs1 as [_ _ Ho Hb]. cbn in Ho, Hb.
  rewrite Hn in Ho. apply close_idle; [exact Hm|exact Hp|..]; rewrite to_object_btf.
  - apply btf_maybe_fds, Hb.
  - exact Ho.
Qed.

End steps.

Section kernel.
Context {K : Type} `{LS : BpfSysLaws K} `{!BtfSys K} `{BLS : !BtfSysLaws K} `{!ElfSys K}
  `{ELS : !ElfSysLaws K} `{Libelf} `{Qsort}.
Implicit Types (k : K).

(** * BTF from files *)

(** A descriptor that is closed again. *)
Lemma close_again k fd k1 k2 :
  gives_fd k (ROk fd, k1) -> open_fds k2 = open_fds k1 ->
  open_fds (snd (sys_close k2 fd)) = open_fds k.
Proof.
  intros (_ & Hnew & Hk) H2. cbn [fst snd] in *.
  destruct (close_fds k2 fd) as [_ ->]; rewrite H2, Hk; set_solver.
Qed.

(** A BTF that was parsed but not loaded. *)
Definition parsed_btf (r : Z + btf) : Prop := match r with inr b => b_fd b = -1 | inl _ => True end.

Lemma free_unloaded k b : b_fd b = -1 -> btf__free k b = k.
Proof. unfold btf__free. intros ->. reflexivity. Qed.

Lemma btf_of_secs_fds k want bs r k' :
  btf_of_secs k want bs = Ok (r, k') ->
  open_fds k' = open_fds k /\ parsed_btf (match r with inr (b, _) => inr b | inl e => inl e end).
Proof.
  unfold btf_of_secs. destruct (fst bs) as [d|]; [|intros; simplify_eq; split; [reflexivity|exact I]].
  intros Hx. apply bind_Ok_inv in Hx as ([r1 k1] & E & Hx).
  apply btf_new_fds in E as [Hk Hb]. destruct r1 as [e|b].
  { simplify_eq. split; [exact Hk | exact I]. }
  destruct (if want then snd bs else None) as [x|]; [|simplify_eq; auto].
  apply bind_Ok_inv in Hx as ([r2 k2] & E2 & Hx). apply btf_ext_new_fds in E2.
  destruct r2 as [e|y]; simplify_eq; [rewrite (free_unloaded _ _ Hb)|];
    (split; [congruence|]); [exact I | exact Hb].
Qed.

Lemma parse_elf_fds k path want r k' :
  btf__parse_elf k path want = Ok (r, k') ->
  open_fds k' = open_fds k /\ parsed_btf (match r with inr (b, _) => inr b | inl e => inl e end).
Proof.
  unfold btf__parse_elf. destruct (elf_version k); cbn [negb];
    [|intros; simplify_eq; split; [reflexivity|exact I]].
  pose proof (open_gives k path) as Hg. destruct (sys_open k path) as [[fd|e] k1].
  2:{ intros; simplify_eq. split; [apply Hg | exact I]. }
  pose proof (begin_fds k1 fd) as Hk. destruct (elf_begin k1 fd) as [e k2]. cbn [fst snd] in Hk.
  intros Hx. apply bind_Ok_inv in Hx as ([r1 k3] & E & Hx). simplify_eq.
  assert (open_fds k3 = open_fds k2 /\ parsed_btf (match r with inr (b, _) => inr b | inl e => inl e end))
    as [Hk3 Hr].
  { destruct e as [e|]; [|simplify_eq; split; [reflexivity|exact I]].
    destruct (elf_btf_secs e want); [|simplify_eq; split; [reflexivity|exact I]].
    apply btf_of_secs_fds in E. exact E. }
  split; [|exact Hr]. apply (close_again _ _ _ _ Hg). congruence.
Qed.

Lemma load_raw_fds k path r k' :
  btf_load_raw k path = Ok (r, k') -> open_fds k' = open_fds k /\ parsed_btf r.
Proof.
  unfold btf_load_raw. destruct (sys_stat k path) as [sz|e];
    [|intros; simplify_eq; split; [reflexivity|exact I]].
  pose proof (alloc_fds k) as Ha. destruct (sys_alloc k) as [[] k1]; cbn [negb snd] in *;
    [|intros; simplify_eq; split; [exact Ha|exact I]].
  pose proof (fopen_gives k1 path) as Hg. destruct (sys_fopen k1 path) as [[fd|e] k2].
  2:{ intros; simplify_eq. split; [rewrite <- Ha; apply Hg | exact I]. }
  pose proof (fread_fds k2 fd sz) as Hk. destruct (sys_fread k2 fd sz) as [bytes k3].
  cbn [fst snd] in *. pose proof (close_again _ _ _ _ Hg Hk) as Hc.
  destruct (zlen bytes <? sz); intros Hx; [simplify_eq; split; [congruence|exact I]|].
  apply btf_new_fds in Hx as [Hx Hr]. split; [congruence | exact Hr].
Qed.

Lemma try_locations_fds ls : forall k r k',
  try_locations k ls = Ok (r, k') -> open_fds k' = open_fds k /\ parsed_btf r.
Proof.
  induction ls as [|[path raw] ls IH]; intros k r k' Hx; cbn [try_locations] in Hx.
  { simplify_eq. split; [reflexivity | exact I]. }
  destruct (sys_access k path); cbn [negb] in Hx; [|apply IH, Hx].
  apply bind_Ok_inv in Hx as ([r1 k1] & E & Hx).
  assert (open_fds k1 = open_fds k /\ parsed_btf r1) as [Hk Hr].
  { destruct raw; [apply load_raw_fds in E; exact E|].
    apply bind_Ok_inv in E as ([r2 k2] & E & [= <- <-]). apply parse_elf_fds in E. exact E. }
  destruct r1 as [e|b]; [|simplify_eq; auto]. apply IH in Hx as [Hx ?]. split; [congruence | assumption].
Qed.

Lemma attach_id_fds k name err id k' :
  libbpf_attach_btf_id_by_name k name = Ok (err, id, k') -> open_fds k' = open_fds k.
Proof.
  unfold libbpf_attach_btf_id_by_name. intros Hx. apply bind_Ok_inv in Hx as ([r k1] & E & Hx).
  apply try_locations_fds in E as [Hk Hr]. destruct r as [e|b]; [simplify_eq; exact Hk|].
  rewrite !(free_unloaded _ _ Hr) in Hx. destruct name as [name|]; [|simplify_eq; exact Hk].
  destruct (attach_entry _ name) as [e|]; [|simplify_eq; exact Hk].
  res_inv. case_match; simplify_eq; exact Hk.
Qed.

(** * The object that is handed out *)

(** Not loaded, no descriptor but the BTF's, and every relocation entry is
    one that can be worked off or holds what the memory held. *)
Record just_opened (o : bpf_object) : Prop := {
  jo_new : loaded o = false;
  jo_maps : Forall idle_map (maps o);
  jo_progs : Forall (fun p => idle_prog p /\ entries_ok (K := K) (zlen (maps o)) p) (programs o);
  jo_btf : Forall (fun fd => -1 <= fd) (btf_fds o)
}.

Lemma to_object_opened base o k :
  oinv base (ph_done (K := K)) (o, k) -> elf_fds o = [] ->
  just_opened (to_object o) /\ owns base k (btf_fds (to_object o)).
Proof.
  intros Hs Hn. pose proof (to_object_idle _ _ _ _ Hs) as [Hm Hp].
  destruct Hs as [_ Hq Ho Hb]. cbn in Hq, Ho, Hb. rewrite Hn in Ho. cbn in Ho.
  rewrite to_object_btf. split; [|exact Ho]. split; [reflexivity|exact Hm| |].
  - cbn. replace (zlen (om_map <$> o_maps o)) with (zlen (o_maps o))
      by (unfold zlen; rewrite length_fmap; reflexivity). exact Hq.
  - rewrite to_object_btf. apply btf_maybe_fds, Hb.
Qed.

(** Changing a program's types. *)
Definition only_types (f : bpf_program -> bpf_program) : Prop :=
  forall n p, idle_prog p /\ entries_ok (K := K) n p -> idle_prog (f p) /\ entries_ok (K := K) n (f p).

Lemma retyped_opened f i o :
  only_types f -> just_opened o ->
  just_opened (set_prog f i o) /\ btf_fds (set_prog f i o) = btf_fds o.
Proof.
  intros Hf [Hl Hm Hp Hb]. split; [|reflexivity]. split; [exact Hl|exact Hm| |exact Hb].
  cbn. apply Forall_alter; [exact Hp|]. intros p _ Hx. apply Hf, Hx.
Qed.
Lemma types_only t e :
  only_types (fun p => bpf_program__set_expected_attach_type e (bpf_program__set_type t p)).
Proof. intros n p [[] Hr]. split; [split; assumption | exact Hr]. Qed.
Lemma attach_only id : only_types (set_attach_btf_id id).
Proof. intros n p [[] Hr]. split; [split; assumption | exact Hr]. Qed.

Lemma guess_types_opened ixs : forall k o err o' k',
  guess_types k ixs o = Ok (err, o', k') -> just_opened o ->
  just_opened o' /\ btf_fds o' = btf_fds o /\ open_fds k' = open_fds k.
Proof.
  induction ixs as [|i ixs IH]; intros k o err o' k' Hx Ho; cbn [guess_types] in Hx.
  { simplify_eq. auto. }
  apply bind_Ok_inv in Hx as (p & Ep & Hx).
  destruct (libbpf_prog_type_by_name _) as [e types]. destruct (e =? - ESRCH); [apply (IH _ _ _ _ _ Hx Ho)|].
  destruct (negb (e =? 0)); [simplify_eq; auto|]. destruct (default (0, 0) types) as [t et].
  destruct (retyped_opened _ i o (types_only t et) Ho) as [Ho1 Hb1].
  destruct (t =? BPF_PROG_TYPE_TRACING).
  2:{ destruct (IH _ _ _ _ _ Hx Ho1) as (? & Hb & ?). rewrite Hb1 in Hb. auto. }
  apply bind_Ok_inv in Hx as ([[e2 id] k2] & E & Hx). apply attach_id_fds in E.
  destruct (negb (e2 =? 0)); [simplify_eq; auto|].
  destruct (retyped_opened _ i _ (attach_only (default 0 id)) Ho1) as [Ho2 Hb2].
  destruct (IH _ _ _ _ _ Hx Ho2) as (? & Hb & ?). repeat split; congruence || apply H2.
Qed.

(** A file that the system opens but libelf refuses: its descriptor stays
    open. *)
Definition leaked (path : string) k k' : Prop :=
  exists fd, (fd ∉ open_fds k) /\ refused (K := K) path fd /\ open_fds k' = {[ fd ]} ∪ open_fds k.

Lemma close_failed base path o k :
  failed base path (o, k) ->
  open_fds (close_open o k) = base \/
  exists fd, (fd ∉ base) /\ refused (K := K) path fd /\ open_fds (close_open o k) = {[ fd ]} ∪ base.
Proof.
  intros [Hs|(fd & Hnew & Href & Hs)].
  - left. apply close_any, Hs.
  - right. exists fd. split; [exact Hnew|]. split; [exact Href|]. apply close_any, Hs.
Qed.

Definition open_outcome (path : string) k (r : open_ret) k' : Prop :=
  match r with
  | OpenOk o => just_opened o /\ owns (open_fds k) k' (btf_fds o)
  | OpenErr _ => open_fds k' = open_fds k \/ leaked path k k'
  | OpenNull => open_fds k' = open_fds k
  end.

Lemma open_new_outcome k path buf name opts r k' :
  open_new k path buf name opts = Ok (r, k') -> open_outcome path k r k'.
Proof.
  unfold open_new. destruct (bpf_object__new k path name) as [obj k1] eqn:En.
  apply new_inv in En as [Hk Hobj]. destruct obj as [obj|]; [|intros; simplify_eq; left; exact Hk].
  destruct Hobj as (Hpath & Hv & Hs). intros Hx. apply bind_Ok_inv in Hx as ([r1 [o k2]] & E & Hx).
  pose proof (wp_open_steps (open_fds k) buf (OPTS_GET opts end_relaxed_core_relocs opt_relaxed_core_relocs false)
    (OPTS_GET opts end_relaxed_maps opt_relaxed_maps false)
    (OPTS_GET opts end_pin_root_path opt_pin_root_path None) obj k1 Hv Hs) as Hw.
  unfold wp in Hw. rewrite E, Hpath in Hw. destruct r1 as [e|a].
  { simplify_eq. apply close_failed, Hw. }
  cbn [fst] in Hw. destruct Hw as [Hs2 Hn]. destruct (to_object_opened _ _ _ Hs2 Hn) as [Ho Hb].
  apply bind_Ok_inv in Hx as (ixs & _ & Hx). apply bind_Ok_inv in Hx as ([[err o3] k3] & E3 & Hx).
  destruct (guess_types_opened _ _ _ _ _ _ E3 Ho) as (Ho3 & Hb3 & Hk3).
  rewrite <- Hb3 in Hb. apply (owns_keep _ _ _ _ Hk3) in Hb.
  destruct (negb (err =? 0)); simplify_eq; [|split; assumption].
  left. destruct Ho3 as [_ Hm Hp Hbf]. apply close_idle; try assumption.
  eapply Forall_impl; [exact Hp|]. cbn. intros p [Hi _]. exact Hi.
Qed.

Lemma open_new_not_null k path buf name opts r k' :
  open_new k path buf name opts = Ok (r, k') -> r <> OpenNull.
Proof.
  unfold open_new. destruct (bpf_object__new k path name) as [[obj|] k1]; [|congruence].
  intros Hx. apply bind_Ok_inv in Hx as ([[e|a] [o k2]] & _ & Hx); [congruence|].
  apply bind_Ok_inv in Hx as (ixs & _ & Hx). apply bind_Ok_inv in Hx as ([[err o3] k3] & _ & Hx).
  destruct (negb (err =? 0)); congruence.
Qed.

Lemma open_xattr_outcome k path t o k' :
  bpf_object__open_xattr k (Some path) t = Ok (OpenOk o, k') ->
  just_opened o /\ owns (open_fds k) k' (btf_fds o).
Proof.
  unfold bpf_object__open_xattr, __bpf_object__open_xattr, __bpf_object__open.
  destruct (negb (elf_version k)); [discriminate|]. intros Hx.
  apply bind_Ok_inv in Hx as (valid & _ & Hx). destruct (negb valid); [discriminate|].
  apply bind_Ok_inv in Hx as (p & _ & Hx). apply open_new_outcome in Hx. exact Hx.
Qed.

End kernel.
