(* ===== verification/OpenPlain.v ===== *)
(** What is in an object file, as its sections, symbols and relocations say
    it, and which files are plain: maps in the section "maps", no global
    data, everything where it should be. *)
From S2P Require Import Prelude CLib LibbpfObj LibbpfLoad BpfLoad Btf BtfExt Elf ErrMonad OpenObj OpenProgs OpenBtf OpenMaps OpenReloc.
From Stdlib Require Import Sorted.
#[local] Open Scope Z_scope.

(** * Sections *)

(** A section with all that is asked for of it. *)
Record section := mk_sec { s_idx : Z; s_hdr : elf_shdr; s_name : list byte; s_data : elf_data }.

Definition view (e : elf) (shstrndx : Z) (x : Z * elf_scn) : option section :=
  sh ← scn_shdr (snd x); name ← elf_strptr e shstrndx (sh_name sh); d ← scn_data (snd x);
  Some (mk_sec (fst x) sh name d).

(** What a section is taken for. *)
Inductive sec_kind :=
| KLicense | KVersion | KMaps | KBtfMaps | KBtf | KBtfExt | KSymtab | KProg | KData | KRodata
| KRel | KBss | KOther.
#[export] Instance sec_kind_eq : EqDecision sec_kind.
Proof. solve_decision. Defined.

Definition named (s : section) (n : string) : bool := bool_decide (s_name s = bytes_of n).
Definition executable (s : section) : bool := negb (Z.land (sh_flags (s_hdr s)) SHF_EXECINSTR =? 0).
Definition kind_of (e : elf) (s : section) : sec_kind :=
  if named s "license" then KLicense
  else if named s "version" then KVersion
  else if named s "maps" then KMaps
  else if named s ".maps" then KBtfMaps
  else if named s ".BTF" then KBtf
  else if named s ".BTF.ext" then KBtfExt
  else if sh_type (s_hdr s) =? SHT_SYMTAB then KSymtab
  else if (sh_type (s_hdr s) =? SHT_PROGBITS) && (0 <? d_size (s_data s)) then
    if executable s then KProg
    else if named s ".data" then KData
    else if named s ".rodata" then KRodata else KOther
  else if sh_type (s_hdr s) =? SHT_REL then
    if section_have_execinstr e (s32 (sh_info (s_hdr s))) then KRel else KOther
  else if (sh_type (s_hdr s) =? SHT_NOBITS) && named s ".bss" then KBss
  else KOther.

(** The sections of a kind, in the order of the file. *)
Definition of_kind (e : elf) (k : sec_kind) (secs : list section) : list section :=
  filter (fun s => kind_of e s = k) secs.

(** All the bytes a section announces are there. *)
Definition readable (d : elf_data) : Prop :=
  0 <= d_size d /\ (d_size d = 0 \/ exists buf, d_buf d = Some buf /\ zlen buf = d_size d).
Definition sec_bytes (d : elf_data) : list byte := if d_size d =? 0 then [] else default [] (d_buf d).

(** * What they mean *)

Section meaning.
Context `{Libelf}.

(** The symbols, as far as libelf knows them. *)
Definition symbols_of (d : elf_data) : list elf_sym := omap (gelf_getsym d) (seqZ 0 (nr_syms d)).

(** The code of the section [s], before its name and relocations are known. *)
Definition prog_of_sec (s : section) : bpf_program :=
  mk_prog (s_idx s) None 0 (string_of (s_name s))
    (Some (decode_insns (Z.to_nat (d_size (s_data s) / sizeof_insn)) (sec_bytes (s_data s)))) 0
    BPF_PROG_TYPE_UNSPEC None 0 None 0 0 [] 0 0 [] 0 0 0.

(** The section that holds functions for the others, if there is one. *)
Definition text_of (e : elf) (secs : list section) : Z :=
  match last (filter (fun s => named s ".text") (of_kind e KProg secs)) with
  | Some s => s_idx s
  | None => 0
  end.

(** The name of the program in section [idx]: that of the first global
    symbol in it. *)
Definition global_in (idx : Z) (sym : elf_sym) : Prop :=
  st_shndx sym = idx /\ GELF_ST_BIND (st_info sym) = STB_GLOBAL.
#[export] Instance global_in_dec idx sym : Decision (global_in idx sym).
Proof. unfold global_in. apply _. Defined.
Definition prog_name_of (e : elf) (strtab text : Z) (syms : list elf_sym) (idx : Z)
    : option (list byte) :=
  match filter (global_in idx) syms with
  | sym :: _ => elf_strptr e strtab (st_name sym)
  | [] => if idx =? text then Some (bytes_of ".text") else None
  end.

(** The map the symbol [sym] of the section [m] stands for; each takes [sz]
    bytes, of which the code knows the first 20. *)
Definition map_of_sym (name : list byte) (bytes : list byte) (sz : Z) (sym : elf_sym) : open_map :=
  mk_omap (mk_map (-1) (string_of name) (st_shndx sym) 0 (-1)
    (decode_map_def (take (Z.to_nat (Z.min sz sizeof_bpf_map_def)) (drop (Z.to_nat (st_value sym)) bytes)))
    0 0 LIBBPF_MAP_UNSPEC None false false) (st_value sym).
Definition map_syms (m : section) (syms : list elf_sym) : list elf_sym :=
  filter (fun sym => st_shndx sym = s_idx m) syms.
Definition map_size (m : section) (syms : list elf_sym) : Z := d_size (s_data m) / zlen (map_syms m syms).
Definition maps_of (e : elf) (strtab : Z) (m : section) (syms : list elf_sym) : list open_map :=
  (fun sym => map_of_sym (default [] (elf_strptr e strtab (st_name sym))) (sec_bytes (s_data m))
                (map_size m syms) sym) <$> map_syms m syms.

(** The maps section of a file is in order: it is divided among its symbols,
    and each has a name and lies inside; what the code does not know of a
    definition is zero. *)
Record maps_sound (e : elf) (strtab : Z) (m : section) (syms : list elf_sym) : Prop := {
  ms_some : map_syms m syms <> [];
  ms_read : readable (s_data m);
  ms_size : 0 < d_size (s_data m) < 2 ^ 31;
  ms_even : d_size (s_data m) mod zlen (map_syms m syms) = 0;
  ms_name : Forall (fun sym => is_Some (elf_strptr e strtab (st_name sym))) (map_syms m syms);
  ms_place : Forall (fun sym => 0 <= st_value sym /\
    st_value sym + map_size m syms <= d_size (s_data m)) (map_syms m syms);
  ms_zero : Forall (fun sym => Forall (fun b => b = NUL)
    (take (Z.to_nat (map_size m syms - sizeof_bpf_map_def))
       (drop (Z.to_nat (st_value sym + sizeof_bpf_map_def)) (sec_bytes (s_data m))))) (map_syms m syms)
}.

(** A relocation for the instruction at [i], whose symbol is [sym]: a call
    into the section of functions, or a load of a map's address. *)
Definition names_insn (st : elf_data) (insns : list bpf_insn) (rel : elf_rel) (i : Z)
    (insn : bpf_insn) (sym : elf_sym) : Prop :=
  gelf_getsym st (GELF_R_SYM (r_info rel)) = Some sym /\
  0 <= r_offset rel < 2 ^ 34 /\ i = r_offset rel / sizeof_insn /\ insns !! Z.to_nat i = Some insn.
Definition is_pseudo_call (insn : bpf_insn) : Prop :=
  i_code insn = CODE_CALL /\ i_src insn = BPF_PSEUDO_CALL.

(** What comes of it, given the maps. *)
Inductive resolves (st : elf_data) (text maps_idx : Z) (insns : list bpf_insn) (ms : list open_map)
    : elf_rel -> reloc_desc -> Prop :=
| resolves_call rel i insn sym :
    names_insn st insns rel i insn sym -> is_pseudo_call insn ->
    st_shndx sym = text ->
    resolves st text maps_idx insns ms rel (mk_reloc RELO_CALL i (s32 (st_value sym)))
| resolves_map rel i insn sym j m :
    names_insn st insns rel i insn sym -> i_code insn = CODE_LD_IMM64 ->
    st_shndx sym = maps_idx -> ms !! Z.to_nat j = Some m -> 0 <= j ->
    m_sec_idx (om_map m) = maps_idx -> sec_offset m = st_value sym ->
    resolves st text maps_idx insns ms rel (mk_reloc RELO_LD64 i j).

(** Whether it is for a call. *)
Definition is_call (insns : list bpf_insn) (rl : elf_rel) : bool :=
  match insns !! Z.to_nat (r_offset rl / sizeof_insn) with
  | Some insn => i_code insn =? CODE_CALL
  | None => false
  end.

Definition rels_of (r : section) : list (option elf_rel) :=
  gelf_getrel (s_data r) <$> seqZ 0 (sh_size (s_hdr r) / sh_entsize (s_hdr r)).

(** The relocations of the section [r] for the program of section [s] can
    all be resolved. *)
Record rels_sound (st : elf_data) (text maps_idx : Z) (ms : list open_map) (s r : section) : Prop := {
  rs_ent : 0 < sh_entsize (s_hdr r);
  rs_few : 0 <= sh_size (s_hdr r) / sh_entsize (s_hdr r) < 2 ^ 31;
  rs_all : Forall (fun rel => exists rl d, rel = Some rl /\
    resolves st text maps_idx (default [] (p_insns (prog_of_sec s))) ms rl d) (rels_of r)
}.

End meaning.

(** * Plain files *)

Section plain.
Context `{Libelf} (e : elf) (secs : list section).

(** The symbol table, its strings and its symbols. *)
Definition maps_sec : option section := last (of_kind e KMaps secs).
Definition maps_idx : Z := match maps_sec with Some m => s_idx m | None => -1 end.
Definition strtab_of (sy : section) : Z := sh_link (s_hdr sy).
Definition elf_maps (sy : section) : list open_map :=
  match maps_sec with
  | Some m => maps_of e (strtab_of sy) m (symbols_of (s_data sy))
  | None => []
  end.
(** The relocations for the section [s]. *)
Definition rels_for (s : section) : list section :=
  filter (fun r => s32 (sh_info (s_hdr r)) = s_idx s) (of_kind e KRel secs).

(** The type and the expected attach type a section's name stands for. *)
Definition type_by_name (s : section) : Z * Z :=
  default (BPF_PROG_TYPE_UNSPEC, 0) (snd (libbpf_prog_type_by_name (Some (string_of (s_name s))))).

(** A plain file with the sections [secs] and the symbol table [sy]. *)
Record plain (ep : elf_ehdr) (sy : section) : Prop := {
  pl_ehdr : el_ehdr e = Some ep;
  pl_type : e_type ep = ET_REL /\ (e_machine ep = 0 \/ e_machine ep = EM_BPF) /\
    ei_data ep = ELFDATA2LSB;
  pl_names : elf_rawdata e (e_shstrndx ep) = true;
  pl_secs : mapM (view e (e_shstrndx ep)) (elf_nextscns e) = Some secs;
  pl_few : zlen secs < SHN_LORESERVE;
  pl_kinds : Forall (fun s => kind_of e s ∉ [KBtfMaps; KData; KRodata; KBss]) secs;
  pl_symtab : of_kind e KSymtab secs = [sy];
  pl_strtab : 0 < strtab_of sy <= zlen secs;
  pl_syms : 0 <= nr_syms (s_data sy) < 2 ^ 31;
  pl_license : zlen (of_kind e KLicense secs) <= 1 /\
    Forall (fun s => readable (s_data s)) (of_kind e KLicense secs);
  pl_version : Forall (fun s => readable (s_data s) /\ d_size (s_data s) = 4) (of_kind e KVersion secs);
  pl_progs : Forall (fun s => readable (s_data s) /\ d_size (s_data s) mod sizeof_insn = 0)
    (of_kind e KProg secs);
  pl_prog_names : Forall (fun s => is_Some (prog_name_of e (strtab_of sy) (text_of e secs)
    (symbols_of (s_data sy)) (s_idx s))) (of_kind e KProg secs);
  pl_types : Forall (fun s => fst (type_by_name s) <> BPF_PROG_TYPE_TRACING) (of_kind e KProg secs);
  pl_maps : forall m, maps_sec = Some m ->
    maps_sound e (strtab_of sy) m (symbols_of (s_data sy));
  pl_rel_progs : Forall (fun r => exists s, s ∈ of_kind e KProg secs /\
    s_idx s = s32 (sh_info (s_hdr r))) (of_kind e KRel secs);
  pl_rels : forall s, s ∈ of_kind e KProg secs -> zlen (rels_for s) <= 1 /\
    Forall (rels_sound (s_data sy) (text_of e secs) maps_idx (elf_maps sy) s) (rels_for s)
}.

(** What the program of section [s] is once the file is open, its maps
    being [ms]. *)
Record prog_opened (sy : section) (ms : list open_map) (s : section) (p : bpf_program) : Prop := {
  pr_idx : p_idx p = s_idx s;
  pr_sec : section_name p = string_of (s_name s);
  pr_insns : p_insns p = p_insns (prog_of_sec s);
  pr_name : p_name p = string_of <$> prog_name_of e (strtab_of sy) (text_of e secs)
    (symbols_of (s_data sy)) (s_idx s);
  pr_type : (p_type p, expected_attach_type p) = type_by_name s;
  pr_relocs : match rels_for s with
              | [] => p_relocs p = None
              | r :: _ => exists ds, p_relocs p = Some ds /\
                  Forall2 (fun rel d => exists rl, rel = Some rl /\
                    resolves (s_data sy) (text_of e secs) maps_idx (default [] (p_insns p)) ms rl d)
                    (rels_of r) ds
              end
}.
(** Some program calls functions of the section that holds them. *)
Definition has_calls : Prop :=
  exists s r rl, s ∈ of_kind e KProg secs /\ r ∈ of_kind e KRel secs /\
    s32 (sh_info (s_hdr r)) = s_idx s /\ Some rl ∈ rels_of r /\
    is_call (default [] (p_insns (prog_of_sec s))) rl = true.

(** What the file is, once it is open. *)
Record opens_to (sy : section) (o : bpf_object) : Prop := {
  ot_new : loaded o = false;
  ot_license : license o = string_of (in_array (match of_kind e KLicense secs with
                 | l :: _ => take 63 (sec_bytes (s_data l)) | [] => [] end));
  ot_version : forall v, last (of_kind e KVersion secs) = Some v ->
    kern_version o = le_val (sec_bytes (s_data v));
  ot_text : text_shndx o = text_of e secs;
  ot_calls : has_pseudo_calls o = true <-> has_calls;
  ot_maps : exists ms, maps o = om_map <$> ms /\ ms ≡ₚ elf_maps sy /\
    StronglySorted (fun a b => sec_offset a <= sec_offset b) ms /\
    Forall2 (prog_opened sy ms) (of_kind e KProg secs) (programs o)
}.
End plain.

(** * What follows *)

Section facts.
Context `{Libelf} `{Qsort}.

Lemma map_size_range e m symbols strtab :
  maps_sound e strtab m (symbols_of symbols) -> 0 <= map_size m (symbols_of symbols) < 2 ^ 31.
Proof.
  intros Hms. destruct Hms as [Hne Hr Hs He _ _ _]. unfold map_size.
  destruct (map_syms m (symbols_of symbols)) as [|x l]; [contradiction|]. unfold zlen in *. cbn [length] in *. nia.
Qed.

Lemma find_map_some shndx value ms : forall i,
  (exists m, m ∈ ms /\ libbpf_type (om_map m) = LIBBPF_MAP_UNSPEC /\
     m_sec_idx (om_map m) = shndx /\ sec_offset m = value) ->
  exists j m, find_reloc_map ms i LIBBPF_MAP_UNSPEC shndx value = Some j /\ i <= j < i + zlen ms /\
    ms !! Z.to_nat (j - i) = Some m /\ m_sec_idx (om_map m) = shndx /\ sec_offset m = value.
Proof.
  induction ms as [|x ms IH]; intros i (m & Hm & Hty & Hidx & Hoff); [set_solver|].
  assert (zlen (x :: ms) = zlen ms + 1) as -> by (unfold zlen; cbn [length]; lia).
  pose proof (zlen_nonneg ms). cbn [find_reloc_map]. unfold reloc_means. cbn.
  destruct (bool_decide_reflect (libbpf_type (om_map x) = LIBBPF_MAP_UNSPEC)) as [Hx|Hx]; cbn [andb].
  - destruct (Z.eqb_spec (m_sec_idx (om_map x)) shndx) as [Hi|Hi];
      [destruct (Z.eqb_spec (sec_offset x) value) as [Ho|Ho]|]; cbn [andb].
    + exists i, x. rewrite Z.sub_diag. repeat split; [lia..|exact Hi|exact Ho].
    + destruct (IH (i + 1)) as (j & m' & -> & Hr & Hl & Hrest).
      { exists m. apply elem_of_cons in Hm as [->|Hm]; [contradiction|]. auto. }
      exists j, m'. split; [reflexivity|]. split; [lia|]. split; [|exact Hrest].
      replace (Z.to_nat (j - i)) with (S (Z.to_nat (j - (i + 1)))) by lia. exact Hl.
    + destruct (IH (i + 1)) as (j & m' & -> & Hr & Hl & Hrest).
      { exists m. apply elem_of_cons in Hm as [->|Hm]; [contradiction|]. auto. }
      exists j, m'. split; [reflexivity|]. split; [lia|]. split; [|exact Hrest].
      replace (Z.to_nat (j - i)) with (S (Z.to_nat (j - (i + 1)))) by lia. exact Hl.
  - destruct (IH (i + 1)) as (j & m' & -> & Hr & Hl & Hrest).
    { exists m. apply elem_of_cons in Hm as [->|Hm]; [contradiction|]. auto. }
    exists j, m'. split; [reflexivity|]. split; [lia|]. split; [|exact Hrest].
    replace (Z.to_nat (j - i)) with (S (Z.to_nat (j - (i + 1)))) by lia. exact Hl.
Qed.

Context (e : elf) (secs : list section) (ep : elf_ehdr) (sy : section).
Context (Hp : plain e secs ep sy).

(** The sections are those of the file. *)
Lemma section_at s : s ∈ secs -> exists scn, elf_getscn e (s_idx s) = Some scn /\
  scn_data scn = Some (s_data s) /\ 1 <= s_idx s.
Proof.
  intros Hs. pose proof (pl_secs _ _ _ _ Hp) as Hv. apply mapM_Some in Hv.
  apply list_elem_of_lookup in Hs as [i Hi].
  destruct (Forall2_lookup_r _ _ _ _ _ Hv Hi) as ([idx scn] & Hx & Hview).
  unfold view in Hview. cbn [fst snd] in Hview. apply bind_Some in Hview as (sh & _ & Hview).
  apply bind_Some in Hview as (name & _ & Hview). apply bind_Some in Hview as (d & Hd & [= <-]).
  exists scn. split; [|cbn; split; [exact Hd|]]; unfold elf_nextscns in Hx;
    apply lookup_zip_with_Some in Hx as (x & y & [= <- <-] & Hx & Hy);
    apply lookup_seqZ in Hx as [-> Hlt]; cbn [s_idx]; [|lia].
  rewrite lookup_drop in Hy. unfold elf_getscn. replace (1 + Z.of_nat i <? 0) with false by lia.
  replace (Z.to_nat (1 + Z.of_nat i)) with (1 + i)%nat by lia. exact Hy.
Qed.
Lemma view_at i s : secs !! i = Some s -> s_idx s = 1 + Z.of_nat i.
Proof.
  intros Hi. pose proof (pl_secs _ _ _ _ Hp) as Hv. apply mapM_Some in Hv.
  destruct (Forall2_lookup_r _ _ _ _ _ Hv Hi) as ([idx scn] & Hx & Hview).
  unfold view in Hview. cbn [fst snd] in Hview. apply bind_Some in Hview as (sh & _ & Hview).
  apply bind_Some in Hview as (name & _ & Hview). apply bind_Some in Hview as (d & Hd & [= <-]).
  unfold elf_nextscns in Hx. apply lookup_zip_with_Some in Hx as (x & y & [= <- <-] & Hx & _).
  apply lookup_seqZ in Hx as [-> _]. reflexivity.
Qed.
Lemma view_idx s : s ∈ secs -> exists i : nat, secs !! i = Some s /\ s_idx s = 1 + Z.of_nat i.
Proof. intros [i Hi]%list_elem_of_lookup. exists i. split; [exact Hi | apply view_at, Hi]. Qed.
Lemma kind_distinct k j j' s : of_kind e k secs !! j = Some s -> of_kind e k secs !! j' = Some s -> j = j'.
Proof.
  assert (NoDup (of_kind e k secs)) as Hnd.
  { apply NoDup_filter, NoDup_alt. intros i i' x Hi Hi'. apply view_at in Hi, Hi'. lia. }
  rewrite NoDup_alt in Hnd. apply Hnd.
Qed.
Lemma kind_rel_type s : kind_of e s = KRel -> sh_type (s_hdr s) = SHT_REL.
Proof. unfold kind_of. intros Hk. repeat case_match; try discriminate. lia. Qed.
Lemma section_few s : s ∈ secs -> 1 <= s_idx s < SHN_LORESERVE.
Proof.
  intros (i & Hi & ->)%view_idx. apply lookup_lt_Some in Hi. pose proof (pl_few _ _ _ _ Hp).
  unfold zlen in *. lia.
Qed.
Lemma section_inj s s' : s ∈ secs -> s' ∈ secs -> s_idx s = s_idx s' -> s = s'.
Proof.
  intros (i & Hi & Ei)%view_idx (j & Hj & Ej)%view_idx E.
  assert (i = j) as -> by lia. congruence.
Qed.
Lemma of_kind_in k s : s ∈ of_kind e k secs -> s ∈ secs /\ kind_of e s = k.
Proof. intros [? ?]%list_elem_of_filter. auto. Qed.
Lemma maps_sec_in m : maps_sec e secs = Some m -> m ∈ secs /\ kind_of e m = KMaps.
Proof. intros [l Hl]%last_Some. apply of_kind_in. rewrite Hl. set_solver. Qed.

(** The maps of an opened file, sorted. *)
Definition opened_maps : list open_map := qsort compare_bpf_map (elf_maps e secs sy).

(** ** The maps in order *)

Lemma elem_elf_maps x :
  x ∈ elf_maps e secs sy -> m_sec_idx (om_map x) = maps_idx e secs /\ 1 <= maps_idx e secs < SHN_LORESERVE /\
    libbpf_type (om_map x) = LIBBPF_MAP_UNSPEC /\ 0 <= sec_offset x < 2 ^ 31.
Proof.
  unfold elf_maps, maps_idx. destruct (maps_sec e secs) as [m|] eqn:Em; [|set_solver].
  pose proof (pl_maps _ _ _ _ Hp m Em) as [_ _ Hs _ _ Hplace _]. rewrite Forall_forall in Hplace.
  intros (sym & -> & Hsym)%list_elem_of_fmap. specialize (Hplace sym Hsym).
  apply list_elem_of_filter in Hsym as [Hidx Hsym]. cbn. split; [exact Hidx|].
  destruct (maps_sec_in m Em) as [Hin _]. destruct (section_at m Hin) as (_ & _ & _ & Hpos).
  split; [|split; [reflexivity|]].
  - pose proof (section_few m Hin). lia.
  - assert (0 <= map_size m (symbols_of (s_data sy))); [|lia].
    unfold map_size. destruct (map_syms m _) as [|]; [unfold zlen; cbn; rewrite Zdiv_0_r; lia|].
    apply Z.div_pos; [lia|]. unfold zlen. cbn [length]. lia.
Qed.

Lemma opened_maps_sorted : StronglySorted (fun a b => sec_offset a <= sec_offset b) opened_maps.
Proof.
  assert (forall a b, a ∈ elf_maps e secs sy -> b ∈ elf_maps e secs sy ->
    compare_bpf_map a b = sec_offset a - sec_offset b) as Hcmp.
  { intros a b Ha Hb. apply elem_elf_maps in Ha as (Ea & _ & _ & Ha), Hb as (Eb & _ & _ & Hb).
    unfold compare_bpf_map. rewrite Ea, Eb, Z.eqb_refl. cbn [negb]. apply s32_small. lia. }
  assert (StronglySorted (fun a b => compare_bpf_map a b <= 0) opened_maps) as Hs.
  { apply qsort_sorted.
    - intros a b Ha Hb. rewrite !Hcmp by assumption. lia.
    - intros a b c Ha Hb Hc. rewrite !Hcmp by assumption. lia. }
  assert (forall x, x ∈ opened_maps -> x ∈ elf_maps e secs sy) as Hin
    by (intros x; unfold opened_maps; rewrite qsort_perm; auto).
  revert Hs Hin. generalize opened_maps. intros l. induction 1 as [|x l Hl IH Hx]; intros Hin; constructor.
  - apply IH. intros y Hy. apply Hin. right. exact Hy.
  - rewrite Forall_forall in Hx |- *. intros y Hy. specialize (Hx y Hy).
    rewrite Hcmp in Hx by (apply Hin; set_solver). lia.
Qed.
Lemma text_low : text_of e secs < SHN_LORESERVE.
Proof.
  unfold text_of. destruct (last _) as [s|] eqn:Es; [|unfold SHN_LORESERVE; lia].
  apply last_Some in Es as [l Hl].
  assert (s ∈ filter (fun s => named s ".text") (of_kind e KProg secs)) as Hin by (rewrite Hl; set_solver).
  apply list_elem_of_filter in Hin as [_ Hin]. apply of_kind_in in Hin as [Hin _].
  pose proof (section_few s Hin). lia.
Qed.
Lemma few_maps : zlen opened_maps < 2 ^ 31.
Proof.
  unfold opened_maps, zlen. rewrite (Permutation_length (qsort_perm _ _)).
  unfold elf_maps. destruct (maps_sec e secs) as [m|]; [|cbn; lia].
  unfold maps_of, map_syms. rewrite length_fmap.
  pose proof (length_filter (fun sym => st_shndx sym = s_idx m) (symbols_of (s_data sy))) as Hl.
  assert (length (symbols_of (s_data sy)) <= length (seqZ 0 (nr_syms (s_data sy))))%nat as Hl2.
  { unfold symbols_of. generalize (seqZ 0 (nr_syms (s_data sy))). intros l. induction l as [|x l IH]; cbn; [lia|].
    destruct (gelf_getsym _ x); cbn; lia. }
  rewrite length_seqZ in Hl2. pose proof (pl_syms _ _ _ _ Hp). lia.
Qed.
End facts.
