(* ===== verification/OpenRuns.v ===== *)
(** Opening a plain file runs through, step by step: what each step makes
    of the object, when memory does not run out. *)
From S2P Require Import Prelude CLib XdpLink LibbpfObj LibbpfLoad LibbpfRes BpfLoad Btf BtfExt Elf ErrMonad OpenObj OpenProgs OpenBtf OpenMaps OpenReloc Open OpenPlain.
#[local] Open Scope Z_scope.

(** * Runs *)

Section runs.
Context {K : Type} `{BpfSys K}.
#[local] Abbreviation M := (@OpenObj.M K).

(** From [o], in any system, [m] succeeds with a value and an object in [Q]. *)
Definition runs {A} (m : M A) (o : open_obj) (Q : A -> open_obj -> Prop) : Prop :=
  forall k, wp no_fault m (fun a s => Q a (fst s)) (fun _ _ => False) (o, k).

Lemma runs_ret {A} (a : A) o (Q : A -> open_obj -> Prop) : Q a o -> runs (mret a) o Q.
Proof. intros HQ k. exact HQ. Qed.
Lemma runs_bind {A B} (m : M A) (f : A -> M B) o Q :
  runs m o (fun a o' => runs (f a) o' Q) -> runs (m ≫= f) o Q.
Proof.
  intros Hm k. apply wp_bind. eapply wp_mono; [exact (Hm k)| |intros ? ? []].
  intros a [o' k'] Ha. apply Ha.
Qed.
Lemma runs_mono {A} (m : M A) o (Q Q' : A -> open_obj -> Prop) :
  runs m o Q -> (forall a o', Q a o' -> Q' a o') -> runs m o Q'.
Proof. intros Hm HQ k. eapply wp_mono; [exact (Hm k)| |intros ? ? []]. intros a [o' k']. apply HQ. Qed.
Lemma runs_geto {A} (f : open_obj -> A) o (Q : A -> open_obj -> Prop) : Q (f o) o -> runs (geto f) o Q.
Proof. intros HQ k. exact HQ. Qed.
Lemma runs_getk {A} (f : K -> A) o (Q : A -> open_obj -> Prop) : (forall a, Q a o) -> runs (getk f) o Q.
Proof. intros HQ k. apply HQ. Qed.
Lemma runs_updo f o (Q : unit -> open_obj -> Prop) : Q tt (f o) -> runs (updo f) o Q.
Proof. intros HQ k. exact HQ. Qed.
Lemma runs_lift {A} (m : res A) a o (Q : A -> open_obj -> Prop) : m = Ok a -> Q a o -> runs (lift m) o Q.
Proof. intros -> HQ k. exact HQ. Qed.
Lemma runs_reject b e o (Q : unit -> open_obj -> Prop) : b = false -> Q tt o -> runs (reject b e) o Q.
Proof. intros -> HQ k. exact HQ. Qed.
Lemma runs_or_throw {A} (x : option A) a e o (Q : A -> open_obj -> Prop) :
  x = Some a -> Q a o -> runs (or_throw x e) o Q.
Proof. intros -> HQ k. exact HQ. Qed.
Lemma runs_sysk {A} (f : K -> A * K) o (Q : A -> open_obj -> Prop) :
  (forall k, Q (fst (f k)) o) -> runs (sysk f) o Q.
Proof.
  intros HQ k. apply wp_call. cbn [fst snd]. specialize (HQ k). destruct (f k). exact HQ.
Qed.
Lemma runs_sysr {A} (f : K -> res (A * K)) o (Q : A -> open_obj -> Prop) :
  (forall k, exists a k', f k = Ok (a, k') /\ Q a o) -> runs (sysr f) o Q.
Proof.
  intros Hf k. unfold wp, sysr. cbn [fst snd]. destruct (Hf k) as (a & k' & -> & HQ). exact HQ.
Qed.

(** A loop: an invariant of the elements it went through. *)
Lemma runs_for_each {A} (f : A -> M unit) (I : list A -> open_obj -> Prop) l : forall done o,
  I done o ->
  (forall d x rest o, done ++ l = d ++ x :: rest -> I d o -> runs (f x) o (fun _ => I (d ++ [x]))) ->
  runs (for_each f l) o (fun _ => I (done ++ l)).
Proof.
  induction l as [|x l IH]; intros done o Ho Hf; cbn [for_each].
  - rewrite app_nil_r. apply runs_ret, Ho.
  - apply runs_bind. eapply runs_mono; [exact (Hf done x l o eq_refl Ho)|].
    intros [] o' Ho'. replace (done ++ x :: l) with ((done ++ [x]) ++ l) by (rewrite <- app_assoc; reflexivity).
    apply IH; [exact Ho'|].
    intros d y rest o2 E. apply (Hf d y rest). rewrite <- E, <- app_assoc. reflexivity.
Qed.

(** Memory does not run out. *)
Context (Hmem : forall k : K, fst (sys_alloc k) = true).

Lemma runs_alloc o (Q : bool -> open_obj -> Prop) : Q true o -> runs alloc o Q.
Proof. intros HQ. apply runs_sysk. intros k. rewrite Hmem. exact HQ. Qed.
Lemma runs_alloc_or e o (Q : unit -> open_obj -> Prop) : Q tt o -> runs (alloc_or e) o Q.
Proof. intros HQ. apply runs_bind, runs_alloc, runs_reject; auto. Qed.

End runs.

Lemma data_read_ok d off n :
  readable d -> 0 <= off -> 0 <= n -> off + n <= d_size d ->
  data_read d off n = Ok (take (Z.to_nat n) (drop (Z.to_nat off) (sec_bytes d))).
Proof.
  intros [Hd Hb] Ho Hn Hle. unfold data_read, sec_bytes.
  destruct (Z.eqb_spec n 0) as [->|Hn0]; [reflexivity|].
  destruct Hb as [Hb|(buf & Hb & Hl)]; [lia|]. rewrite Hb. change (default [] (Some buf)) with buf.
  rewrite (proj2 (Z.eqb_neq (d_size d) 0)) by (clear -Ho Hn Hle Hn0; lia).
  apply mread_Ok. split; [exact Ho|]. split; [exact Hn|]. rewrite Hl. exact Hle.
Qed.
Lemma length_sec_bytes d : readable d -> zlen (sec_bytes d) = d_size d.
Proof.
  intros [Hd Hb]. unfold sec_bytes. destruct (Z.eqb_spec (d_size d) 0) as [->|Hn]; [reflexivity|].
  destruct Hb as [Hb|(buf & -> & Hl)]; [lia|]. exact Hl.
Qed.
Lemma sec_bytes_all d : readable d -> take (Z.to_nat (d_size d)) (sec_bytes d) = sec_bytes d.
Proof.
  intros Hd. apply take_ge. pose proof (length_sec_bytes d Hd) as Hl. unfold zlen in Hl. lia.
Qed.

(** * Collecting the sections *)

Section collect.
Context {K : Type} `{BpfSys K} `{!ElfSys K} `{Libelf}.
#[local] Abbreviation M := (@OpenObj.M K).
Context (Hmem : forall k : K, fst (sys_alloc k) = true).
Context (e : elf) (secs : list section) (ep : elf_ehdr) (sy : section).
Context (Hp : plain e secs ep sy).

Definition license_array (ls : list section) : list byte :=
  match ls with
  | [] => replicate 64 NUL
  | l :: _ => let bs := take 63 (sec_bytes (s_data l)) in bs ++ replicate (64 - length bs) NUL
  end.
Definition btf_secs_of (done : list section) : btf_secs :=
  (s_data <$> last (of_kind e KBtf done), s_data <$> last (of_kind e KBtfExt done)).

(** What the loop has made of a new object [o0] after some sections. *)
Record collected (o0 : open_obj) (done : list section) (o : open_obj) : Prop := {
  co_maps : ef_maps_shndx (o_efile o) = maps_idx e done;
  co_none : ef_btf_maps_shndx (o_efile o) = -1 /\ ef_data_shndx (o_efile o) = -1 /\
    ef_rodata_shndx (o_efile o) = -1 /\ ef_bss_shndx (o_efile o) = -1;
  co_syms : ef_symbols (o_efile o) = s_data <$> last (of_kind e KSymtab done);
  co_strtab : strtabidx (o_efile o) = match last (of_kind e KSymtab done) with
                                      | Some s => strtab_of s | None => 0 end;
  co_text : ef_text_shndx (o_efile o) = text_of e done;
  co_progs : o_programs o = prog_of_sec <$> of_kind e KProg done;
  co_rel : ef_reloc (o_efile o) = (fun s => (s_hdr s, s_data s)) <$> of_kind e KRel done;
  co_license : o_license o = license_array (of_kind e KLicense done);
  co_version : o_kern_version o = match last (of_kind e KVersion done) with
                                  | Some v => le_val (sec_bytes (s_data v))
                                  | None => o_kern_version o0 end;
  co_elf : ef_elf (o_efile o) = Some e /\ ef_ehdr (o_efile o) = ep;
  co_same : o_maps o = [] /\ o_btf o = None /\ o_pseudo_calls o = false
}.

Lemma of_kind_snoc k done s :
  of_kind e k (done ++ [s]) =
  of_kind e k done ++ (if decide (kind_of e s = k) then [s] else []).
Proof. unfold of_kind. rewrite filter_app, filter_cons. case_decide; reflexivity. Qed.
Lemma of_kind_has k s : s ∈ secs -> kind_of e s = k -> s ∈ of_kind e k secs.
Proof. intros Hs Hk. apply list_elem_of_filter. auto. Qed.

Lemma license_write l :
  readable (s_data l) ->
  mwrite (replicate 64 NUL) 0 (take (Z.to_nat (Z.min (d_size (s_data l)) 63)) (sec_bytes (s_data l)))
  = Ok (license_array [l]).
Proof.
  intros Hr. pose proof (length_sec_bytes _ Hr) as Hl. pose proof Hr as [Hd _].
  assert (take (Z.to_nat (Z.min (d_size (s_data l)) 63)) (sec_bytes (s_data l)) =
    take 63 (sec_bytes (s_data l))) as ->.
  { unfold zlen in Hl. destruct (Z.le_gt_cases (d_size (s_data l)) 63).
    - rewrite !take_ge by lia. reflexivity.
    - f_equal. lia. }
  set (bs := take 63 _). assert (length bs <= 63)%nat by (unfold bs; rewrite length_take; lia).
  rewrite mwrite_Ok by (unfold in_block, zlen; rewrite length_replicate; lia).
  unfold license_array. fold bs. cbn [Z.to_nat take app]. rewrite drop_replicate. do 2 f_equal.
Qed.
(** Two sections of one kind cannot be where there is only one. *)
Lemma of_kind_split k done s rest :
  secs = done ++ s :: rest -> kind_of e s = k ->
  of_kind e k secs = of_kind e k done ++ s :: of_kind e k rest.
Proof.
  intros -> Hk. unfold of_kind. rewrite filter_app, filter_cons. rewrite decide_True by exact Hk.
  reflexivity.
Qed.

(** The loop's round for a section goes by its kind. *)
Definition kind_step (s : section) (bs : btf_secs) : M btf_secs :=
  match kind_of e s with
  | KLicense => _ ← bpf_object__init_license (s_data s); mret bs
  | KVersion => _ ← bpf_object__init_kversion (s_data s); mret bs
  | KMaps => _ ← updo (upd_efile (set_ef_maps_shndx (s_idx s))); mret bs
  | KBtfMaps => _ ← updo (upd_efile (set_ef_btf_maps_shndx (s_idx s))); mret bs
  | KBtf => mret (Some (s_data s), snd bs)
  | KBtfExt => mret (fst bs, Some (s_data s))
  | KSymtab =>
      x ← geto (fun o => ef_symbols (o_efile o));
      match x with
      | Some _ => throw (- LIBBPF_ERRNO__FORMAT)
      | None => _ ← updo (upd_efile (set_symbols (Some (s_data s)) (strtab_of s))); mret bs
      end
  | KProg =>
      _ ← (if named s ".text" then updo (upd_efile (set_ef_text_shndx (s_idx s))) else mret tt);
      _ ← bpf_object__add_program (s_data s) (string_of (s_name s)) (s_idx s); mret bs
  | KData => _ ← updo (upd_efile (set_ef_data (s_data s) (s_idx s))); mret bs
  | KRodata => _ ← updo (upd_efile (set_ef_rodata (s_data s) (s_idx s))); mret bs
  | KRel =>
      _ ← alloc_or (- ENOMEM);
      rl ← geto (fun o => ef_reloc (o_efile o));
      _ ← updo (upd_efile (set_ef_reloc (rl ++ [(s_hdr s, s_data s)]))); mret bs
  | KBss => _ ← updo (upd_efile (set_ef_bss (s_data s) (s_idx s))); mret bs
  | KOther => mret bs
  end.
Lemma collect_section_kind s bs :
  collect_section e (s_idx s) (s_hdr s) (s_name s) (s_data s) bs = kind_step s bs.
Proof.
  unfold collect_section, kind_step, kind_of, named, executable, strtab_of.
  destruct (section_have_execinstr _ _); cbn [negb]; repeat case_bool_decide; try reflexivity;
    repeat match goal with |- context [if ?b then _ else _] => destruct b end; reflexivity.
Qed.

Lemma add_program_runs s o (Q : unit -> open_obj -> Prop) :
  readable (s_data s) -> 0 < d_size (s_data s) -> d_size (s_data s) mod sizeof_insn = 0 ->
  Q tt (set_o_programs (o_programs o ++ [prog_of_sec s]) o) ->
  runs (bpf_object__add_program (s_data s) (string_of (s_name s)) (s_idx s)) o Q.
Proof.
  intros Hr Hs Hm HQ. unfold bpf_object__add_program, bpf_program__init, bpf_program__pin_name.
  apply runs_bind, runs_bind, runs_reject; [lia|].
  apply runs_bind, (runs_alloc_or Hmem). apply runs_bind, runs_bind, (runs_alloc Hmem), runs_ret.
  apply runs_bind, (runs_alloc_or Hmem). apply runs_bind.
  eapply runs_lift; [apply data_read_ok; [exact Hr|lia..]|]. apply runs_ret.
  apply runs_bind, (runs_alloc_or Hmem). apply runs_bind, runs_geto, runs_updo.
  cbn [Z.to_nat]. rewrite drop_0, sec_bytes_all by exact Hr. exact HQ.
Qed.
(** Only what belongs to the kind changes. *)
Ltac kinds Hk :=
  unfold btf_secs_of, maps_idx, maps_sec, text_of;
  rewrite ?of_kind_snoc, ?Hk;
  repeat first [rewrite decide_False by discriminate | rewrite decide_True by reflexivity];
  rewrite ?app_nil_r.
Ltac collected_auto Hk Ho :=
  let o := fresh in
  destruct Ho as [? (? & ? & ? & ?) ? ? ? ? ? ? ? (? & ?) (? & ? & ?)];
  unfold maps_idx, maps_sec, text_of in *;
  match goal with o : open_obj |- collected _ _ ?x =>
    match x with context [o] => destruct o as [? ? ? ? ? ? ? ? ? ? ? ? [] ? ? ?] end end;
  cbn in *; split; cbn; kinds Hk; repeat split; try assumption.

Lemma collected_other o0 done s o :
  kind_of e s ∈ [KBtf; KBtfExt; KOther] -> collected o0 done o -> collected o0 (done ++ [s]) o.
Proof.
  intros Hk [? ? ? ? ? ? ? ? ? ? ?]. unfold maps_idx, maps_sec, text_of in *.
  destruct (kind_of e s) eqn:Ek; try (exfalso; set_solver);
    split; kinds Ek; assumption.
Qed.

Lemma kind_prog_size s : kind_of e s = KProg -> 0 < d_size (s_data s).
Proof.
  unfold kind_of. intros Hk. repeat case_match; try discriminate.
  match goal with H : _ && (0 <? d_size _) = true |- _ => apply andb_true_iff in H as [_ H] end. lia.
Qed.

Lemma collect_step o0 done s rest o bs :
  secs = done ++ s :: rest -> o_license o0 = replicate 64 NUL ->
  collected o0 done o -> bs = btf_secs_of done ->
  runs (K := K) (kind_step s bs) o
    (fun bs' o' => bs' = btf_secs_of (done ++ [s]) /\ collected o0 (done ++ [s]) o').
Proof.
  intros Hs Hl0 Ho ->. assert (s ∈ secs) as Hin by (rewrite Hs; set_solver).
  pose proof (pl_kinds _ _ _ _ Hp) as Hkinds. rewrite Forall_forall in Hkinds. specialize (Hkinds s Hin).
  unfold kind_step. destruct (kind_of e s) eqn:Hk; try (exfalso; clear -Hkinds; set_solver).
  - (* license *)
    destruct (pl_license _ _ _ _ Hp) as [Hone Hall]. rewrite Forall_forall in Hall.
    pose proof (Hall s (of_kind_has _ _ Hin Hk)) as Hr.
    rewrite (of_kind_split _ _ _ _ Hs Hk) in Hone. unfold zlen in Hone.
    rewrite length_app in Hone. cbn [length] in Hone.
    assert (of_kind e KLicense done = []) as Hnone by (apply length_zero_iff_nil; lia).
    apply runs_bind, runs_bind. eapply runs_lift.
    { apply data_read_ok; [exact Hr|lia|destruct Hr; lia|destruct Hr; lia]. }
    apply runs_bind, runs_geto, runs_bind. rewrite (co_license _ _ _ Ho), Hnone.
    eapply runs_lift; [apply license_write, Hr|]. apply runs_updo, runs_ret.
    split; [kinds Hk; reflexivity|]. collected_auto Hk Ho. rewrite Hnone. reflexivity.
  - (* version *)
    pose proof (pl_version _ _ _ _ Hp) as Hall. rewrite Forall_forall in Hall.
    destruct (Hall s (of_kind_has _ _ Hin Hk)) as [Hr H4].
    apply runs_bind, runs_bind, runs_reject; [rewrite H4; reflexivity|]. apply runs_bind.
    eapply runs_lift; [apply data_read_ok; [exact Hr|lia..]|]. apply runs_updo, runs_ret.
    split; [kinds Hk; reflexivity|]. rewrite drop_0.
    replace (take (Z.to_nat 4) (sec_bytes (s_data s))) with (sec_bytes (s_data s))
      by (rewrite <- H4, sec_bytes_all by exact Hr; reflexivity).
    collected_auto Hk Ho. rewrite last_snoc. reflexivity.
  - (* maps *)
    apply runs_bind, runs_updo, runs_ret. split; [kinds Hk; reflexivity|].
    collected_auto Hk Ho. rewrite last_snoc. reflexivity.
  - apply runs_ret. split; [kinds Hk; rewrite last_snoc; reflexivity|].
    apply collected_other; [rewrite Hk; set_solver | exact Ho].
  - apply runs_ret. split; [kinds Hk; rewrite last_snoc; reflexivity|].
    apply collected_other; [rewrite Hk; set_solver | exact Ho].
  - (* symbols *)
    pose proof (pl_symtab _ _ _ _ Hp) as Hst. rewrite (of_kind_split _ _ _ _ Hs Hk) in Hst.
    assert (of_kind e KSymtab done = []) as Hnone by (destruct (of_kind e KSymtab done); [reflexivity|];
      injection Hst as _ Hx; apply app_nil in Hx as [_ Hx]; discriminate).
    apply runs_bind, runs_geto. rewrite (co_syms _ _ _ Ho), Hnone.
    apply runs_bind, runs_updo, runs_ret. split; [kinds Hk; reflexivity|].
    collected_auto Hk Ho; rewrite Hnone; reflexivity.
  - (* programs *)
    pose proof (pl_progs _ _ _ _ Hp) as Hall. rewrite Forall_forall in Hall.
    destruct (Hall s (of_kind_has _ _ Hin Hk)) as [Hr Hm].
    pose proof (kind_prog_size s Hk) as Hsz. apply runs_bind.
    destruct (named s ".text") eqn:Ht; [apply runs_updo | apply runs_ret];
      apply runs_bind, add_program_runs; try assumption; apply runs_ret;
      (split; [kinds Hk; reflexivity|]); collected_auto Hk Ho; rewrite ?fmap_app;
      change (prog_of_sec <$> [s]) with [prog_of_sec s]; try congruence;
      rewrite filter_app, filter_cons; case_decide as Hd; rewrite Ht in Hd; cbn in Hd;
      first [tauto | cbn; rewrite ?last_snoc, ?app_nil_r; assumption || reflexivity].
  - (* relocations *)
    apply runs_bind, (runs_alloc_or Hmem), runs_bind, runs_geto, runs_bind, runs_updo, runs_ret.
    split; [kinds Hk; reflexivity|]. collected_auto Hk Ho. rewrite fmap_app. f_equal. assumption.
  - apply runs_ret. split; [kinds Hk; reflexivity|].
    apply collected_other; [rewrite Hk; set_solver | exact Ho].
Qed.

Lemma collect_runs o0 : o_license o0 = replicate 64 NUL -> forall scns done later o bs,
  mapM (view e (e_shstrndx ep)) scns = Some later -> secs = done ++ later ->
  collected o0 done o -> bs = btf_secs_of done ->
  runs (K := K) (collect_sections e (e_shstrndx ep) scns bs) o
    (fun bs' o' => bs' = btf_secs_of secs /\ collected o0 secs o').
Proof.
  intros Hl0. induction scns as [|[idx scn] scns IH]; intros done later o bs Hv Hs Ho Hb;
    cbn [collect_sections].
  - injection Hv as <-. rewrite app_nil_r in Hs. subst done. apply runs_ret. auto.
  - cbn in Hv. apply bind_Some in Hv as (s & Hv & Hx). apply bind_Some in Hx as (ss & Hss & [= <-]).
    unfold view in Hv. cbn [fst snd] in Hv.
    apply bind_Some in Hv as (sh & -> & Hv). apply bind_Some in Hv as (name & -> & Hv).
    apply bind_Some in Hv as (d & -> & [= <-]). apply runs_bind.
    pose proof (collect_section_kind (mk_sec idx sh name d) bs) as Hc. cbn in Hc. rewrite Hc.
    eapply runs_mono; [exact (collect_step o0 done _ ss o bs Hs Hl0 Ho Hb)|].
    intros bs' o' [Hb' Ho']. eapply IH; try eassumption. rewrite <- app_assoc. exact Hs.
Qed.
End collect.
