(* ===== verification/OpenPlainProps.v ===== *)
(** Opening a plain file, the steps behind the sections: BTF, maps, names
    and relocations. *)
From S2P Require Import Prelude CLib XdpLink LibbpfObj LibbpfLoad LibbpfRes BpfLoad Btf BtfExt BtfExtProps Elf ErrMonad OpenObj OpenProgs OpenBtf OpenMaps OpenReloc Open OpenPlain OpenRuns.
From Stdlib Require Import Sorted.
#[local] Open Scope Z_scope.

#[local] Arguments data_read : simpl never.

(** * What a step leaves alone *)

(** All but the BTF and what the kernel supports. *)
Definition same_content (o o' : open_obj) : Prop :=
  o_efile o' = o_efile o /\ o_programs o' = o_programs o /\ o_maps o' = o_maps o /\
  o_license o' = o_license o /\ o_kern_version o' = o_kern_version o /\
  o_pseudo_calls o' = o_pseudo_calls o.
#[export] Instance same_content_preorder : PreOrder same_content.
Proof.
  split; [intros o; repeat split | intros o1 o2 o3 (?&?&?&?&?&?) (?&?&?&?&?&?); repeat split; congruence].
Qed.

(** * BTF that can be worked on *)

Section tame.
Context (K : Type) `{BpfSys K} `{Libelf} `{Qsort}.

(** Replacing what the kernel does not know stays inside. *)
Definition sanitizable (b : option btf) : Prop :=
  match b with
  | Some b => forall hd hf, exists b', sanitize_btf hd hf b = Ok b'
  | None => True
  end.
(** Neither parsing the section .BTF nor filling in what it leaves open
    leaves it. *)
Definition btf_tame (e : elf) (syms : elf_data) (d : elf_data) : Prop :=
  forall k : K, exists r k', btf__new k (default [] (d_buf d)) (u32 (d_size d)) = Ok (r, k') /\
    match r with
    | inl _ => True
    | inr b => forall f, ef_elf f = Some e -> ef_symbols f = Some syms ->
        exists err b', btf__finalize_data f b = Ok (err, b') /\ sanitizable (Some b')
    end.
Definition bytes_whole (d : elf_data) : Prop :=
  zlen (default [] (d_buf d)) = d_size d /\ d_size d < 2 ^ 32.
(** The BTF sections of a file. *)
Definition btf_fine (e : elf) (syms : elf_data) (bs : btf_secs) : Prop :=
  (forall d, fst bs = Some d -> btf_tame e syms d) /\
  (forall d, snd bs = Some d -> bytes_whole d).
End tame.

Section steps.
Context {K : Type} `{LS : BpfSysLaws K} `{!BtfSys K} `{!ElfSys K} `{Libelf} `{Qsort}.
#[local] Abbreviation M := (@OpenObj.M K).
Context (Hmem : forall k : K, fst (sys_alloc k) = true).

(** A step that only changes the capabilities or nothing. *)
Definition quiet {A} (m : M A) : Prop := forall o, runs m o (fun _ o' => same_content o o' /\ o_btf o' = o_btf o).

Lemma quiet_bind {A B} (m : M A) (f : A -> M B) : quiet m -> (forall a, quiet (f a)) -> quiet (m ≫= f).
Proof.
  intros Hm Hf o. apply runs_bind. eapply runs_mono; [apply Hm|]. intros a o' [Ho' Hb].
  eapply runs_mono; [apply Hf|]. intros b o'' [Ho'' Hb'].
  split; [etransitivity; eassumption | congruence].
Qed.
Lemma quiet_ret {A} (a : A) : quiet (mret a).
Proof. intros o. apply runs_ret. split; reflexivity. Qed.
Lemma quiet_sysk {A} (f : K -> A * K) : quiet (sysk f).
Proof. intros o. apply runs_sysk. intros k. split; reflexivity. Qed.
Lemma quiet_caps f : quiet (upd_caps f).
Proof. intros o. apply runs_updo. destruct o. split; [repeat split | reflexivity]. Qed.
Lemma quiet_load_probe name insns : quiet (load_probe name insns).
Proof.
  intros o. apply runs_sysr. intros k.
  destruct (load_program_xattr_ok (open_fds k) k [] (probe_attr name insns) false 0)
    as (r & text & k' & -> & _); [repeat split; cbn; lia| |].
  { split; [constructor|]. cbn. split; set_solver. }
  exists r, k'. split; [reflexivity|]. split; reflexivity.
Qed.
Lemma quiet_load_btf types strs : quiet (libbpf__load_raw_btf types strs).
Proof.
  apply quiet_bind; [apply quiet_sysk|]. intros ok. destruct (negb ok); [apply quiet_ret | apply quiet_sysk].
Qed.

#[local] Hint Resolve quiet_ret quiet_sysk quiet_caps quiet_load_probe quiet_load_btf : quiet.
Lemma quiet_probe_caps : quiet bpf_object__probe_caps.
Proof.
  unfold bpf_object__probe_caps, bpf_object__probe_name, bpf_object__probe_global_data,
    bpf_object__probe_btf_func, bpf_object__probe_btf_datasec, close_probe.
  repeat first [apply quiet_bind; [|intros ?] | progress auto with quiet | apply quiet_sysk
    | match goal with |- quiet (match ?x with _ => _ end) => destruct x end].
Qed.

(** ** BTF *)

Lemma init_btf_runs e syms bs o :
  btf_fine K e syms bs -> ef_elf (o_efile o) = Some e -> ef_symbols (o_efile o) = Some syms ->
  ef_btf_maps_shndx (o_efile o) = -1 ->
  runs (K := K) (bpf_object__init_btf (fst bs) (snd bs)) o
    (fun _ o' => same_content o o' /\ sanitizable (o_btf o')).
Proof.
  intros [Hbtf Hext] He Hst Hmaps. unfold bpf_object__init_btf, is_btf_mandatory.
  apply runs_bind, runs_geto. rewrite Hmaps. change (0 <=? -1) with false. cbv iota.
  apply runs_bind. apply (runs_mono _ _ (fun r o' => o' = o /\
    match snd r with inr (Some b) => fst r = 0 -> sanitizable (Some b) | _ => True end)).
  { unfold init_btf_data. destruct (fst bs) as [d|]; [|apply runs_ret; cbn; auto].
    specialize (Hbtf d eq_refl). apply runs_bind, runs_sysr. intros k.
    destruct (Hbtf k) as (r & k' & -> & Hr). eexists r, k'. split; [reflexivity|].
    destruct r as [err|b]; [apply runs_ret; cbn; auto|]. apply runs_bind, runs_geto.
    destruct (Hr (o_efile o) He Hst) as (err & b' & Hf & Hs). apply runs_bind.
    eapply runs_lift; [exact Hf|]. apply runs_ret. cbn. auto. }
  intros [err b] o1 [-> Hb]. cbn [fst snd] in Hb. apply runs_bind.
  apply (runs_mono _ _ (fun r o' => same_content o o' /\ sanitizable (snd r))).
  { destruct b as [e1|[b|]]; try (apply runs_ret; split; [reflexivity|exact I]).
    destruct (Z.eqb_spec err 0) as [->|Hne].
    2:{ apply runs_bind, runs_sysk. intros k. apply runs_ret. split; [reflexivity | exact I]. }
    apply runs_bind. unfold init_btf_ext. destruct (snd bs) as [d|];
      [|apply runs_ret, runs_ret; split; [reflexivity|exact (Hb eq_refl)]].
    destruct (Hext d eq_refl) as [Hlen Hmax]. rewrite u32_small
      by (pose proof (zlen_nonneg (default [] (d_buf d))); lia).
    apply runs_bind, runs_sysr. intros k.
    destruct (btf_ext_new_ok k (default [] (d_buf d))) as (r & k' & Hx & _); [lia|].
    rewrite Hlen in Hx. rewrite Hx. exists r, k'. split; [reflexivity|].
    apply runs_updo, runs_ret. split; [destruct o; repeat split | exact (Hb eq_refl)]. }
  intros [err' b'] o2 [Ho2 Hb']. cbn [snd] in Hb'. apply runs_bind, runs_updo.
  assert (same_content o (set_o_btf b' o2) /\ sanitizable (o_btf (set_o_btf b' o2))) as HQ.
  { split; [etransitivity; [exact Ho2|]; destruct o2; repeat split | destruct o2; exact Hb']. }
  destruct b'; apply runs_ret; exact HQ.
Qed.

Lemma sanitize_and_load_runs o :
  ef_btf_maps_shndx (o_efile o) = -1 -> sanitizable (o_btf o) ->
  runs (K := K) bpf_object__sanitize_and_load_btf o (fun _ o' => same_content o o').
Proof.
  intros Hmaps Hs. unfold bpf_object__sanitize_and_load_btf. apply runs_bind, runs_geto.
  destruct (o_btf o) as [b|] eqn:Eb; [|apply runs_ret; reflexivity].
  apply runs_bind. unfold bpf_object__sanitize_btf. apply runs_bind, runs_geto. rewrite Eb.
  apply runs_bind, runs_geto. apply runs_bind.
  destruct (Hs (cap_btf_datasec (o_caps o)) (cap_btf_func (o_caps o))) as [b1 Hb1].
  eapply runs_lift; [exact Hb1|]. apply runs_updo.
  set (o1 := set_o_btf (Some b1) o).
  assert (same_content o o1 /\ o_btf o1 = Some b1) as [Hc1 Hb] by (destruct o; repeat split).
  clearbody o1. apply runs_bind. unfold bpf_object__sanitize_btf_ext.
  apply runs_bind, runs_geto. apply runs_bind, runs_geto.
  apply (runs_mono _ _ (fun _ o2 => same_content o o2 /\ o_btf o2 = Some b1)).
  { destruct (o_btf_ext o1); [|apply runs_ret; auto]. destruct (negb _); [|apply runs_ret; auto].
    apply runs_updo. destruct o1. split; [etransitivity; [exact Hc1|]; repeat split | exact Hb]. }
  intros [] o2 [Hc2 Hb2]. apply runs_bind, runs_geto, runs_bind. rewrite Hb2.
  eapply runs_lift; [reflexivity|]. apply runs_bind, runs_sysk. intros k.
  destruct (btf__load k b1) as [[err b3] k3]. cbn [fst].
  assert (forall x, same_content o (set_o_btf x o2)) as Hc3
    by (intros x; etransitivity; [exact Hc2|]; destruct o2; repeat split).
  destruct (negb (err =? 0)); [|apply runs_updo, Hc3].
  apply runs_bind, runs_sysk. intros k4. apply runs_bind, runs_updo, runs_bind, runs_updo.
  assert (same_content o (set_o_btf_ext None (set_o_btf None o2))) as Hc4
    by (etransitivity; [exact (Hc3 None)|]; destruct o2; repeat split).
  apply runs_bind, runs_geto, runs_reject; [|exact Hc4].
  destruct Hc4 as [He _]. unfold is_btf_mandatory. rewrite He, Hmaps. reflexivity.
Qed.
(** ** Maps *)

Lemma alter_last {A} (f : A -> A) (l : list A) x :
  alter f (Z.to_nat (zlen l)) (l ++ [x]) = l ++ [f x].
Proof.
  unfold zlen. rewrite Nat2Z.id. induction l as [|y l IH]; [reflexivity|]. cbn. f_equal. exact IH.
Qed.

Lemma add_map_runs o (Q : Z -> open_obj -> Prop) :
  (forall cap, Q (zlen (o_maps o)) (set_o_maps (o_maps o ++ [new_map]) cap o)) ->
  runs (K := K) bpf_object__add_map o Q.
Proof.
  intros HQ. unfold bpf_object__add_map. apply runs_bind, runs_geto, runs_bind, runs_geto.
  destruct (_ <? _); [|apply runs_bind, (runs_alloc_or Hmem)]; apply runs_bind, runs_updo, runs_ret, HQ.
Qed.

(** A change of the map that was added last. *)
Lemma upd_map_runs i f o ms m cap (Q : unit -> open_obj -> Prop) :
  i = zlen ms -> Q tt (set_o_maps (ms ++ [f m]) cap o) ->
  runs (K := K) (upd_map i f) (set_o_maps (ms ++ [m]) cap o) Q.
Proof.
  intros -> HQ. apply runs_updo. destruct o. cbn in *. rewrite alter_last. exact HQ.
Qed.

Lemma in_section_omap symbols shndx l :
  zlen (List.filter (in_section symbols shndx) l) =
  zlen (filter (fun sym => st_shndx sym = shndx) (omap (gelf_getsym symbols) l)).
Proof.
  unfold zlen. f_equal. induction l as [|i l IH]; [reflexivity|]. cbn.
  unfold in_section at 1. destruct (gelf_getsym symbols i) as [sym|]; [|exact IH].
  rewrite filter_cons. destruct (Z.eqb_spec (st_shndx sym) shndx) as [He|He].
  - rewrite decide_True by exact He. cbn. f_equal. exact IH.
  - rewrite decide_False by exact He. exact IH.
Qed.

Section user_maps.
Context (e : elf) (m : section) (symbols : elf_data) (strtab : Z).
#[local] Abbreviation syms := (symbols_of symbols).
Context (Hms : maps_sound e strtab m syms).

Definition maps_made (l : list Z) : list open_map :=
  (fun sym => map_of_sym (default [] (elf_strptr e strtab (st_name sym))) (sec_bytes (s_data m))
                (map_size m syms) sym) <$> map_syms m (omap (gelf_getsym symbols) l).

Lemma user_map_runs si o :
  si ∈ seqZ 0 (nr_syms symbols) ->
  runs (K := K) (init_user_map e strtab (s_idx m) symbols (s_data m) (map_size m syms) true si) o
    (fun _ o' => exists cap, o' = set_o_maps (o_maps o ++ maps_made [si]) cap o).
Proof.
  intros Hin. unfold init_user_map, maps_made, map_syms. cbn.
  assert (o = set_o_maps (o_maps o ++ []) (maps_cap o) o) as Hid
    by (destruct o; cbn; rewrite app_nil_r; reflexivity).
  destruct (gelf_getsym symbols si) as [sym|] eqn:Esym; [|apply runs_ret; eauto].
  rewrite filter_cons. destruct (Z.eqb_spec (st_shndx sym) (s_idx m)) as [He|He]; cbn [negb].
  2:{ rewrite decide_False by exact He. apply runs_ret. eauto. }
  rewrite decide_True by exact He. cbn.
  assert (sym ∈ map_syms m syms) as Hsym.
  { apply list_elem_of_filter. split; [exact He|]. apply list_elem_of_omap. eauto. }
  destruct Hms as [_ Hr Hs _ Hname Hplace Hzero]. rewrite Forall_forall in Hname, Hplace, Hzero.
  destruct (Hname sym Hsym) as [name Hn]. specialize (Hplace sym Hsym). specialize (Hzero sym Hsym).
  pose proof (map_size_range _ _ _ _ Hms) as Hsz. rewrite Hn. cbn [default].
  apply runs_bind, add_map_runs. intros cap. apply runs_bind.
  eapply runs_or_throw; [reflexivity|].
  apply runs_bind, upd_map_runs; [reflexivity|]. apply runs_bind, runs_reject.
  { rewrite u64_small by lia. lia. }
  apply runs_bind, (runs_alloc_or Hmem). apply runs_bind, upd_map_runs; [reflexivity|].
  rewrite u64_small by lia. unfold sizeof_bpf_map_def in *. destruct (Z.leb_spec (map_size m syms) 20).
  - apply runs_bind. eapply runs_lift; [apply data_read_ok; [exact Hr|lia..]|].
    apply upd_map_runs; [reflexivity|]. exists cap. do 2 f_equal. unfold map_of_sym. cbn.
    unfold sizeof_bpf_map_def. rewrite Z.min_l by lia. rewrite He. reflexivity.
  - apply runs_bind. eapply runs_lift; [apply data_read_ok; [exact Hr|lia..]|].
    apply runs_bind, runs_reject.
    { apply negb_false_iff, List.forallb_forall. rewrite Z.max_r by lia. rewrite Forall_forall in Hzero.
      intros b Hb%list_elem_of_In. apply bool_decide_eq_true, Hzero, Hb. }
    apply runs_bind. eapply runs_lift; [apply data_read_ok; [exact Hr|lia..]|].
    apply upd_map_runs; [reflexivity|]. exists cap. do 2 f_equal. unfold map_of_sym. cbn.
    unfold sizeof_bpf_map_def. rewrite Z.min_r by lia. rewrite He. reflexivity.
Qed.
End user_maps.

Section plain_maps.
Context (e : elf) (secs : list section) (ep : elf_ehdr) (sy : section).
Context (Hp : plain e secs ep sy).

(** What is known of the object once the sections were collected. *)
Record gathered (o : open_obj) : Prop := {
  ga_maps : ef_maps_shndx (o_efile o) = maps_idx e secs;
  ga_none : ef_btf_maps_shndx (o_efile o) = -1 /\ ef_data_shndx (o_efile o) = -1 /\
    ef_rodata_shndx (o_efile o) = -1 /\ ef_bss_shndx (o_efile o) = -1;
  ga_syms : ef_symbols (o_efile o) = Some (s_data sy);
  ga_strtab : strtabidx (o_efile o) = strtab_of sy;
  ga_text : ef_text_shndx (o_efile o) = text_of e secs;
  ga_rel : ef_reloc (o_efile o) = (fun s => (s_hdr s, s_data s)) <$> of_kind e KRel secs;
  ga_elf : ef_elf (o_efile o) = Some e
}.
Lemma gathered_efile o o' : o_efile o' = o_efile o -> gathered o -> gathered o'.
Proof. intros E []. split; rewrite E; assumption. Qed.

Lemma collected_gathered o0 o : collected e ep o0 secs o -> gathered o.
Proof.
  intros [? ? Hsy Hst ? ? ? ? ? [? _] _]. rewrite (pl_symtab _ _ _ _ Hp) in Hsy, Hst.
  split; assumption.
Qed.

Lemma init_user_maps_runs o :
  gathered o -> o_maps o = [] ->
  runs (K := K) (bpf_object__init_user_maps true) o
    (fun _ o' => exists cap, o' = set_o_maps (elf_maps e secs sy) cap o).
Proof.
  intros Hg Hno. unfold bpf_object__init_user_maps. apply runs_bind, runs_geto.
  pose proof Hg as [Hmaps _ Hsy Hst _ _ He]. rewrite Hmaps, Hst. unfold maps_idx, elf_maps.
  destruct (maps_sec e secs) as [m|] eqn:Em.
  2:{ apply runs_ret. exists (maps_cap o). destruct o; cbn in *. rewrite Hno. reflexivity. }
  pose proof (pl_maps _ _ _ _ Hp m Em) as Hms.
  destruct (maps_sec_in e secs ep sy Hp m Em) as [Hin _]. destruct (section_at e secs ep sy Hp m Hin) as (scn & Hscn & Hd & Hpos).
  replace (s_idx m <? 0) with false by lia.
  apply runs_bind. eapply runs_or_throw; [exact Hsy|]. apply runs_bind. unfold the_elf.
  apply runs_bind, runs_geto. rewrite He. eapply runs_lift; [reflexivity|].
  apply runs_bind. eapply runs_or_throw; [exact Hscn|].
  apply runs_bind. eapply runs_or_throw; [exact Hd|].
  pose proof (pl_syms _ _ _ _ Hp) as Hns.
  assert (count_maps (s_data sy) (s_idx m) = zlen (map_syms m (symbols_of (s_data sy)))) as Hcount.
  { unfold count_maps. rewrite s32_small by lia. apply in_section_omap. }
  rewrite Hcount, (s32_small (nr_syms _)) by lia. pose proof (map_size_range e m (s_data sy) (strtab_of sy) Hms) as Hsz.
  pose proof Hms as [Hne Hr Hs Heven _ _ _].
  assert (0 < zlen (map_syms m (symbols_of (s_data sy)))) as Hpos2.
  { destruct (map_syms _ _); [contradiction|]. unfold zlen. cbn [length]. lia. }
  apply runs_bind, runs_reject.
  { rewrite Heven. replace (d_size (s_data m) =? 0) with false by lia.
    replace (zlen (map_syms m (symbols_of (s_data sy))) =? 0) with false by lia. reflexivity. }
  fold (map_size m (symbols_of (s_data sy))).
  rewrite s32_small by lia.
  pose proof (runs_for_each
    (init_user_map e (strtab_of sy) (s_idx m) (s_data sy) (s_data m) (map_size m (symbols_of (s_data sy))) true)
    (fun done o' => exists cap, o' = set_o_maps (maps_made e m (s_data sy) (strtab_of sy) done) cap o)
    (seqZ 0 (nr_syms (s_data sy))) [] o) as Hloop. cbn [app] in Hloop.
  eapply runs_mono; [apply Hloop|].
  - exists (maps_cap o). destruct o; cbn in *. rewrite Hno. reflexivity.
  - intros d x rest o' Hsplit [cap ->].
    eapply runs_mono; [apply (user_map_runs e m (s_data sy) (strtab_of sy) Hms)|].
    { rewrite Hsplit. set_solver. }
    intros [] o2 [cap2 ->]. exists cap2. destruct o. cbn. f_equal.
    unfold maps_made, map_syms. rewrite omap_app, filter_app, fmap_app. reflexivity.
  - intros [] o' [cap ->]. exists cap. reflexivity.
Qed.

Lemma init_maps_runs pin o :
  gathered o -> o_maps o = [] ->
  runs (K := K) (bpf_object__init_maps false pin) o
    (fun _ o' => exists cap, o' = set_o_maps (opened_maps e secs sy) cap o).
Proof.
  intros Hg Hno. unfold bpf_object__init_maps. cbn [negb]. apply runs_bind.
  eapply runs_mono; [apply (init_user_maps_runs o Hg Hno)|]. intros [] o1 [cap ->].
  pose proof Hg as [_ (Hb & Hd & Hr & Hs) _ _ _ _ _].
  apply runs_bind. unfold bpf_object__init_user_btf_maps. apply runs_bind, runs_geto.
  assert (o_efile (set_o_maps (elf_maps e secs sy) cap o) = o_efile o) as Hef by (destruct o; reflexivity).
  rewrite Hef, Hb. apply runs_ret. apply runs_bind. unfold bpf_object__init_global_data_maps.
  apply runs_bind, runs_geto.
  assert (forall x, runs (K := K) (updo (fun o => set_o_maps (qsort compare_bpf_map (o_maps o)) (maps_cap o) o))
    (set_o_maps (elf_maps e secs sy) cap x)
    (fun _ o' => exists cap, o' = set_o_maps (opened_maps e secs sy) cap x)) as Hsort.
  { intros x. apply runs_updo. exists cap. destruct x. reflexivity. }
  destruct (negb _); [apply runs_ret, Hsort|]. apply runs_bind, runs_geto. rewrite Hef, Hd, Hr, Hs.
  apply runs_bind, runs_ret, runs_bind, runs_ret, runs_ret, Hsort.
Qed.

End plain_maps.
End steps.

(** Opening a plain file, the rest: the names of its programs and their
    relocations. *)

Lemma alter_insert {A} (f : A -> A) (l : list A) i x : l !! i = Some x -> alter f i l = <[i := f x]> l.
Proof.
  revert i. induction l as [|y l IH]; intros [|i] Hx; try discriminate; cbn in *.
  - injection Hx as ->. reflexivity.
  - f_equal. apply IH, Hx.
Qed.

Lemma for_each_fmap {St A B} (f : B -> errm St unit) (g : A -> B) l : forall s,
  for_each f (g <$> l) s = for_each (fun x => f (g x)) l s.
Proof.
  induction l as [|x l IH]; intros s; [reflexivity|]. cbn. unfold mbind, errm_bind.
  destruct (f (g x) s) as [[[err|[]] s']|fl]; [reflexivity|apply IH|reflexivity].
Qed.

Section steps.
Context {K : Type} `{LS : BpfSysLaws K} `{!BtfSys K} `{!ElfSys K} `{Libelf} `{Qsort}.
#[local] Abbreviation M := (@OpenObj.M K).
Context (Hmem : forall k : K, fst (sys_alloc k) = true).

Lemma the_elf_runs e o (Q : elf -> open_obj -> Prop) :
  ef_elf (o_efile o) = Some e -> Q e o -> runs (K := K) the_elf o Q.
Proof.
  intros He HQ. apply runs_bind, runs_geto. rewrite He. eapply runs_lift; [reflexivity | exact HQ].
Qed.
Lemma the_symbols_runs st o (Q : elf_data -> open_obj -> Prop) :
  ef_symbols (o_efile o) = Some st -> Q st o -> runs (K := K) the_symbols o Q.
Proof.
  intros He HQ. apply runs_bind, runs_geto. rewrite He. eapply runs_lift; [reflexivity | exact HQ].
Qed.
Lemma the_prog_runs i p o (Q : bpf_program -> open_obj -> Prop) :
  0 <= i -> o_programs o !! Z.to_nat i = Some p -> Q p o -> runs (K := K) (the_prog i) o Q.
Proof.
  intros Hi Hp HQ. apply runs_bind, runs_geto. eapply runs_lift; [|exact HQ]. apply aget_Ok. auto.
Qed.

(** ** Names *)

(** A loop that changes one program after the other. *)
Lemma progs_loop (f : Z -> M unit) (g : bpf_program -> bpf_program) o :
  (forall i p ps, 0 <= i -> ps !! Z.to_nat i = Some p -> p ∈ o_programs o ->
     runs (K := K) (f i) (set_o_programs ps o)
       (fun _ o' => o' = set_o_programs (<[Z.to_nat i := g p]> ps) o)) ->
  runs (K := K) (for_each f (seqZ 0 (zlen (o_programs o)))) o
    (fun _ o' => o' = set_o_programs (g <$> o_programs o) o).
Proof.
  intros Hf. set (ps := o_programs o) in *.
  pose proof (runs_for_each f (fun done o' =>
    o' = set_o_programs ((g <$> take (length done) ps) ++ drop (length done) ps) o)
    (seqZ 0 (zlen ps)) [] o) as Hloop. cbn [app length] in Hloop.
  eapply runs_mono; [apply Hloop|].
  - cbn. destruct o. reflexivity.
  - intros d x rest o' Hsplit ->.
    assert (seqZ 0 (zlen ps) !! length d = Some x) as Hx
      by (rewrite Hsplit, lookup_app_r by lia; rewrite Nat.sub_diag; reflexivity).
    apply lookup_seqZ in Hx as [-> Hlt]. rewrite Z.add_0_l.
    destruct (lookup_lt_is_Some_2 ps (length d)) as [p Hi]; [unfold zlen in Hlt; lia|].
    assert (length (g <$> take (length d) ps) = length d) as Hlen
      by (rewrite length_fmap, length_take; unfold zlen in Hlt; lia).
    eapply runs_mono.
    + apply (Hf _ p); [lia| |apply list_elem_of_lookup; eauto].
      rewrite Nat2Z.id, lookup_app_r by lia. rewrite Hlen, Nat.sub_diag, lookup_drop, Nat.add_0_r. exact Hi.
    + intros [] o' ->. rewrite Nat2Z.id, length_app, Nat.add_1_r. f_equal.
      rewrite insert_app_r_alt by lia. rewrite Hlen, Nat.sub_diag.
      rewrite (drop_S _ _ _ Hi), (take_S_r _ _ _ Hi), fmap_app, <- app_assoc. reflexivity.
  - intros [] o' ->. rewrite length_seqZ. unfold zlen. rewrite Nat2Z.id.
    rewrite firstn_all, drop_all, app_nil_r. reflexivity.
Qed.

Section plain.
Context (e : elf) (secs : list section) (ep : elf_ehdr) (sy : section).
Context (Hp : plain e secs ep sy).
#[local] Abbreviation syms := (symbols_of (s_data sy)).

Lemma find_sym_runs strtab idx sis o :
  (forall sym l, filter (global_in idx) (omap (gelf_getsym (s_data sy)) sis) = sym :: l ->
     is_Some (elf_strptr e strtab (st_name sym))) ->
  runs (K := K) (find_prog_sym e strtab (s_data sy) idx sis) o
    (fun r o' => o' = o /\ r = match filter (global_in idx) (omap (gelf_getsym (s_data sy)) sis) with
                               | sym :: _ => elf_strptr e strtab (st_name sym) | [] => None end).
Proof.
  induction sis as [|si sis IH]; intros Hname; cbn [find_prog_sym]; [apply runs_ret; auto|].
  cbn [omap list_omap] in *. destruct (gelf_getsym (s_data sy) si) as [sym|]; [|apply IH, Hname].
  rewrite filter_cons in *. destruct (decide (global_in idx sym)) as [[Hi Hb]|Hg].
  2:{ destruct (Z.eqb_spec (st_shndx sym) idx) as [Hi|Hi]; cbn [negb];
        [destruct (Z.eqb_spec (GELF_ST_BIND (st_info sym)) STB_GLOBAL) as [Hb|Hb]; cbn [negb];
          [exfalso; apply Hg; split; assumption|]|]; apply IH, Hname. }
  rewrite Hi, Hb, !Z.eqb_refl. cbn [negb]. destruct (Hname _ _ eq_refl) as [name Hn]. rewrite Hn.
  apply runs_ret. auto.
Qed.

Definition name_prog (p : bpf_program) : bpf_program :=
  set_p_name (string_of (default [] (prog_name_of e (strtab_of sy) (text_of e secs) syms (p_idx p)))) p.

Lemma init_prog_names_runs o :
  gathered e secs sy o -> o_programs o = prog_of_sec <$> of_kind e KProg secs ->
  runs (K := K) bpf_object__init_prog_names o
    (fun _ o' => o' = set_o_programs (name_prog <$> o_programs o) o).
Proof.
  intros [_ _ Hsy Hst Ht _ He] Hps. unfold bpf_object__init_prog_names.
  apply runs_bind, runs_geto, progs_loop. intros i p ps Hi Hip Hin. unfold init_prog_name.
  assert (o_efile (set_o_programs ps o) = o_efile o) as Hef by (destruct o; reflexivity).
  assert (o_programs (set_o_programs ps o) = ps) as Hpr by (destruct o; reflexivity).
  assert (is_Some (prog_name_of e (strtab_of sy) (text_of e secs) syms (p_idx p))) as Hname.
  { rewrite Hps in Hin. apply list_elem_of_fmap in Hin as (s & -> & Hs).
    pose proof (pl_prog_names _ _ _ _ Hp) as Hall. rewrite Forall_forall in Hall. exact (Hall s Hs). }
  apply runs_bind, runs_geto, runs_bind. rewrite Hpr. eapply runs_lift; [apply aget_Ok; split; eassumption|].
  apply runs_bind, (the_symbols_runs (s_data sy)); [rewrite Hef; exact Hsy|].
  apply runs_bind, (the_elf_runs e); [rewrite Hef; exact He|].
  apply runs_bind, runs_geto, runs_bind, runs_geto, runs_bind. rewrite Hef, Hst, Ht.
  unfold prog_name_of in Hname.
  eapply runs_mono; [apply find_sym_runs|].
  { intros sym l Hl. unfold symbols_of in Hname.  rewrite Hl in Hname. exact Hname. }
  intros r o1 [-> ->].
  assert (runs (K := K)
    match prog_name_of e (strtab_of sy) (text_of e secs) syms (p_idx p) with
    | Some name => _ ← alloc_or (- ENOMEM); upd_prog i (set_p_name (string_of name))
    | None => throw (- EINVAL)
    end (set_o_programs ps o) (fun _ o' => o' = set_o_programs (<[Z.to_nat i := name_prog p]> ps) o)) as Hend.
  { unfold prog_name_of. destruct Hname as [name Hn]. rewrite Hn.
    apply runs_bind, (runs_alloc_or Hmem), runs_updo. destruct o. cbn. f_equal.
    unfold name_prog, prog_name_of. rewrite Hn. exact (alter_insert _ _ _ _ Hip). }
  unfold prog_name_of, symbols_of in Hend.
  destruct (filter _ _) as [|sym l]; [exact Hend|].
  destruct (elf_strptr e (strtab_of sy) (st_name sym)); [exact Hend|].
  destruct Hname as [? [=]].
Qed.

(** ** Relocations *)

Lemma set_reloc_runs i j r o p rs (Q : unit -> open_obj -> Prop) :
  0 <= i -> o_programs o !! Z.to_nat i = Some p -> p_relocs p = Some rs -> 0 <= j < zlen rs ->
  Q tt (set_o_programs (<[Z.to_nat i := set_p_relocs (<[Z.to_nat j := r]> rs) p]> (o_programs o)) o) ->
  runs (K := K) (set_reloc i j r) o Q.
Proof.
  intros Hi Hip Hrs Hj HQ. unfold set_reloc.
  apply runs_bind, (the_prog_runs i p); [exact Hi|exact Hip|]. rewrite Hrs.
  apply runs_bind. eapply runs_lift; [reflexivity|]. apply runs_bind.
  eapply runs_lift; [apply aset_Ok, Hj|]. apply runs_updo.
  rewrite (alter_insert _ _ _ _ Hip). exact HQ.
Qed.

#[local] Abbreviation text := (text_of e secs).
#[local] Abbreviation mapsi := (maps_idx e secs).
#[local] Abbreviation the_maps := (opened_maps e secs sy).

(** What a round leaves: the entry, and whether it was for a call. *)
Definition after_round (i j : Z) (d : reloc_desc) (c : bool) (p : bpf_program) (rs : list reloc_desc)
    (o : open_obj) : open_obj :=
  set_o_pseudo (o_pseudo_calls o || c)
    (set_o_programs (<[Z.to_nat i := set_p_relocs (<[Z.to_nat j := d]> rs) p]> (o_programs o)) o).

Lemma collect_one_runs i data j o p rs insns rl d0 :
  gathered e secs sy o -> o_maps o = the_maps -> 0 <= i -> o_programs o !! Z.to_nat i = Some p ->
  p_insns p = Some insns -> p_relocs p = Some rs -> 0 <= j < zlen rs ->
  gelf_getrel data j = Some rl -> resolves (s_data sy) text mapsi insns (elf_maps e secs sy) rl d0 ->
  runs (K := K) (collect_one i data j) o (fun _ o' => exists d,
    resolves (s_data sy) text mapsi insns the_maps rl d /\
    o' = after_round i j d (is_call insns rl) p rs o).
Proof.
  intros [Hmaps (Hbm & Hd & Hrd & Hbs) Hsy _ Ht _ _] Hms Hi Hip Hins Hrs Hj Hrel Hres.
  unfold collect_one. apply runs_bind. eapply runs_or_throw; [exact Hrel|].
  apply runs_bind, runs_geto, runs_bind.
  assert (exists insn sym, names_insn (s_data sy) insns rl (r_offset rl / sizeof_insn) insn sym) as
    (insn & sym & Hsym & Hoff & _ & Hinsn).
  { destruct Hres as [rl i0 insn sym (H1' & H2' & -> & H4') _ _|rl i0 insn sym j0 m (H1' & H2' & -> & H4') _ _ _ _ _ _];
      exists insn, sym; repeat split; assumption || lia. }
  rewrite Hsy. eapply runs_or_throw; [exact Hsym|].
  apply runs_bind, (the_prog_runs i p); [exact Hi|exact Hip|]. rewrite Hins.
  apply runs_bind. eapply runs_lift; [reflexivity|]. change sizeof_insn with 8 in *.
  rewrite u32_small by lia. set (idx := r_offset rl / 8) in *.
  assert (0 <= idx < 2 ^ 31) as Hidx by (unfold idx; lia).
  assert (aget insns idx = Ok insn) as Hget by (apply aget_Ok; split; [lia | exact Hinsn]).
  destruct Hres as [rl i0 insn' sym' (H1' & _ & -> & H4') [Hcode Hsrc] Hshn
                   |rl i0 insn' sym' j0 m (H1' & _ & -> & H4') Hcode Hshn Hm Hj0 Hmi Hmo];
    change sizeof_insn with 8 in *; fold idx in H4' |- *;
    rewrite Hsym in H1'; injection H1' as <-; rewrite Hinsn in H4'; injection H4' as <-.
  - (* a call *)
    assert (text < SHN_LORESERVE) as Hlow by apply (text_low e secs ep sy Hp).
    replace (SHN_LORESERVE <=? st_shndx sym) with false by lia.
    apply runs_bind, runs_reject.
    { unfold relo_in_known_section. rewrite Ht, Hshn, Z.eqb_refl. reflexivity. }
    apply runs_bind. eapply runs_lift; [exact Hget|]. rewrite Hcode, Z.eqb_refl.
    apply runs_bind, runs_reject; [rewrite Hsrc; reflexivity|].
    apply runs_bind, (set_reloc_runs i j _ o p rs); try assumption. apply runs_updo.
    exists (mk_reloc RELO_CALL idx (s32 (st_value sym))). split.
    + apply (resolves_call _ _ _ _ _ _ idx insn sym); [|split; assumption|assumption].
      repeat split; assumption || lia.
    + unfold after_round, is_call. change sizeof_insn with 8. fold idx. rewrite Hinsn, Hcode, Z.eqb_refl.
      rewrite orb_true_r, s32_small by lia. destruct o. reflexivity.
  - (* a map *)
    assert (m ∈ elf_maps e secs sy) as Hmin by (apply list_elem_of_lookup; eauto).
    destruct (elem_elf_maps e secs ep sy Hp m Hmin) as (_ & Hrange & _).
    replace (SHN_LORESERVE <=? st_shndx sym) with false by lia.
    apply runs_bind, runs_reject.
    { unfold relo_in_known_section, shndx_is_maps. rewrite Hmaps, Hshn, (Z.eqb_refl mapsi).
      rewrite orb_true_r. reflexivity. }
    apply runs_bind. eapply runs_lift; [exact Hget|]. rewrite Hcode.
    change (CODE_LD_IMM64 =? CODE_CALL) with false. cbv iota.
    apply runs_bind, runs_reject; [reflexivity|]. unfold collect_map_reloc.
    apply runs_bind, runs_geto. unfold shndx_is_maps, section_to_libbpf_map_type.
    rewrite Hmaps, Hd, Hrd, Hbs, Hshn, (Z.eqb_refl mapsi). cbn [orb].
    replace (mapsi =? -1) with false by lia. cbn [bool_decide]. rewrite bool_decide_true by reflexivity.
    cbn [negb andb]. apply runs_bind, runs_reject; [reflexivity|]. apply runs_bind, runs_geto.
    apply runs_bind, runs_reject; [reflexivity|]. apply runs_bind, runs_geto, runs_bind. rewrite Hms.
    destruct (find_map_some mapsi (st_value sym) the_maps 0) as (j1 & m1 & Hfind & Hj1 & Hm1 & Hi1 & Ho1).
    { exists m. split; [unfold opened_maps; rewrite qsort_perm; exact Hmin|].
      destruct (elem_elf_maps e secs ep sy Hp m Hmin) as (? & _ & ? & _). auto. }
    eapply runs_or_throw; [exact Hfind|]. apply (set_reloc_runs i j _ o p rs); try assumption.
    rewrite Z.sub_0_r in Hm1. exists (mk_reloc RELO_LD64 idx j1). split.
    + apply (resolves_map _ _ _ _ _ _ idx insn sym j1 m1); try assumption; [|lia].
      repeat split; assumption || lia.
    + unfold after_round, is_call. change sizeof_insn with 8. fold idx. rewrite Hinsn, Hcode.
      change (CODE_LD_IMM64 =? CODE_CALL) with false. rewrite orb_false_r.
      pose proof (few_maps e secs ep sy Hp). rewrite !s32_small by lia. destruct o. reflexivity.
Qed.

(** ** The relocations of one program *)

Definition call_at (data : elf_data) (insns : list bpf_insn) (j : Z) : bool :=
  match gelf_getrel data j with Some rl => is_call insns rl | None => false end.
Definition resolved (data : elf_data) (insns : list bpf_insn) (j : Z) (d : reloc_desc) : Prop :=
  exists rl, gelf_getrel data j = Some rl /\ resolves (s_data sy) text mapsi insns the_maps rl d.

(** The object with other relocations for the program at [i]. *)
Definition with_relocs (i : Z) (p : bpf_program) (rs : list reloc_desc) (c : bool) (o : open_obj) : open_obj :=
  set_o_pseudo (o_pseudo_calls o || c)
    (set_o_programs (<[Z.to_nat i := set_p_relocs rs p]> (o_programs o)) o).

Lemma relocs_loop_runs i data n o p insns rs0 :
  gathered e secs sy o -> o_maps o = the_maps -> 0 <= i -> o_programs o !! Z.to_nat i = Some p ->
  p_insns p = Some insns -> zlen rs0 = n ->
  Forall (fun rel => exists rl d, rel = Some rl /\
    resolves (s_data sy) text mapsi insns (elf_maps e secs sy) rl d) (gelf_getrel data <$> seqZ 0 n) ->
  runs (K := K) (for_each (collect_one i data) (seqZ 0 n)) (with_relocs i p rs0 false o)
    (fun _ o' => exists ds, Forall2 (resolved data insns) (seqZ 0 n) ds /\
       o' = with_relocs i p ds (existsb (call_at data insns) (seqZ 0 n)) o).
Proof.
  intros Hg Hms Hi Hip Hins Hn Hall. pose proof (zlen_nonneg rs0) as Hn0.
  pose proof (runs_for_each (K := K) (collect_one i data) (fun done o' => exists ds rs,
    Forall2 (resolved data insns) done ds /\ zlen (ds ++ rs) = n /\
    o' = with_relocs i p (ds ++ rs) (existsb (call_at data insns) done) o)
    (seqZ 0 n) [] (with_relocs i p rs0 false o)) as Hloop. cbn [app] in Hloop.
  eapply runs_mono; [apply Hloop; clear Hloop|].
  - exists [], rs0. split; [constructor|]. split; [exact Hn | reflexivity].
  - intros d x rest o' Hsplit (ds & rs & Hds & Hlen & ->).
    assert (seqZ 0 n !! length d = Some x) as Hx
      by (rewrite Hsplit, lookup_app_r by lia; rewrite Nat.sub_diag; reflexivity).
    rewrite Forall_forall in Hall. destruct (Hall (gelf_getrel data x)) as (rl & d0 & Hrl & Hres).
    { apply list_elem_of_fmap. exists x. split; [reflexivity|]. rewrite Hsplit. set_solver. }
    apply lookup_seqZ in Hx as [-> Hlt]. rewrite Z.add_0_l in *.
    pose proof (Forall2_length _ _ _ Hds) as Hdl.
    destruct rs as [|r0 rs]; [rewrite app_nil_r in Hlen; unfold zlen in Hlen; lia|].
    assert (o_programs (with_relocs i p (ds ++ r0 :: rs) (existsb (call_at data insns) d) o) !! Z.to_nat i =
      Some (set_p_relocs (ds ++ r0 :: rs) p)) as Hip'.
    { destruct o. cbn in *. apply list_lookup_insert_eq. eapply lookup_lt_Some. eassumption. }
    eapply runs_mono; [eapply (collect_one_runs i data (Z.of_nat (length d)) _ _ (ds ++ r0 :: rs) insns rl d0);
      [| |exact Hi|exact Hip'|exact Hins|reflexivity| |exact Hrl|exact Hres]|].
    + eapply gathered_efile; [|exact Hg]. destruct o. reflexivity.
    + destruct o. exact Hms.
    + lia.
    + intros [] o' (d1 & Hd1 & ->). exists (ds ++ [d1]), rs. split; [|split].
      * apply Forall2_app; [exact Hds|]. constructor; [|constructor]. exists rl. auto.
      * rewrite <- Hlen. unfold zlen. rewrite !length_app. cbn [length]. lia.
      * unfold after_round, with_relocs. destruct o. cbn in *. rewrite list_insert_insert_eq.
        rewrite existsb_app. cbn. unfold call_at at 3. rewrite Hrl, orb_false_r, orb_assoc.
        f_equal. f_equal. unfold set_p_relocs, set_code. cbn. f_equal. f_equal.
        rewrite Nat2Z.id, Hdl, insert_app_r_alt by lia. rewrite Nat.sub_diag, <- app_assoc. reflexivity.
  - intros [] o' (ds & rs & Hds & Hlen & ->). exists ds. split; [exact Hds|].
    pose proof (Forall2_length _ _ _ Hds) as Hdl. rewrite length_seqZ in Hdl.
    destruct rs; [rewrite app_nil_r; reflexivity|].
    unfold zlen in *. rewrite length_app in Hlen. cbn [length] in Hlen. lia.
Qed.

(** ** The relocations of all programs *)

Definition insns_of (s : section) : list bpf_insn := default [] (p_insns (prog_of_sec s)).

Lemma program_relocs_runs i s r o p :
  gathered e secs sy o -> o_maps o = the_maps -> 0 <= i -> o_programs o !! Z.to_nat i = Some p ->
  p_insns p = p_insns (prog_of_sec s) ->
  rels_sound (s_data sy) text mapsi (elf_maps e secs sy) s r ->
  runs (K := K) (bpf_program__collect_reloc i (s_hdr r) (s_data r)) o
    (fun _ o' => exists ds c, Forall2 (fun rel d => exists rl, rel = Some rl /\
         resolves (s_data sy) text mapsi (insns_of s) the_maps rl d) (rels_of r) ds /\
       (c = true <-> exists rl, Some rl ∈ rels_of r /\ is_call (insns_of s) rl = true) /\
       o' = with_relocs i p ds c o).
Proof.
  intros Hg Hms Hi Hip Hins [Hent Hfew Hall]. unfold bpf_program__collect_reloc.
  apply runs_bind. replace (sh_entsize (s_hdr r) =? 0) with false by lia.
  eapply runs_lift; [reflexivity|]. rewrite s32_small by lia.
  set (n := sh_size (s_hdr r) / sh_entsize (s_hdr r)) in *.
  apply runs_bind, runs_reject; [lia|]. apply runs_bind, runs_getk. intros junk.
  apply runs_bind, (runs_alloc_or Hmem). apply runs_bind, runs_updo.
  rewrite (alter_insert _ _ _ _ Hip). set (rs0 := junk <$> seqZ 0 n).
  assert (p_insns p = Some (insns_of s)) as Hins2 by (rewrite Hins; reflexivity).
  pose proof (relocs_loop_runs i (s_data r) n o p (insns_of s) rs0 Hg Hms Hi Hip Hins2) as Hloop.
  assert (zlen rs0 = n) as Hlen by (unfold rs0, zlen; rewrite length_fmap, length_seqZ; lia).
  specialize (Hloop Hlen Hall). unfold with_relocs at 1 in Hloop. rewrite orb_false_r in Hloop.
  replace (set_o_pseudo (o_pseudo_calls o) (set_o_programs (<[Z.to_nat i:=set_p_relocs rs0 p]> (o_programs o)) o))
    with (set_o_programs (<[Z.to_nat i:=set_p_relocs rs0 p]> (o_programs o)) o) in Hloop
    by (destruct o; reflexivity).
  eapply runs_mono; [exact Hloop|]. intros [] o' (ds & Hds & ->).
  exists ds, (existsb (call_at (s_data r) (insns_of s)) (seqZ 0 n)). split; [|split; [|reflexivity]].
  - unfold rels_of. fold n. apply Forall2_fmap_l. eapply Forall2_impl; [exact Hds|].
    intros j d (rl & Hrl & Hres). exists rl. auto.
  - unfold rels_of. fold n. split.
    + intros (j & Hj & Hc)%existsb_exists. apply list_elem_of_In in Hj. unfold call_at in Hc.
      destruct (gelf_getrel (s_data r) j) as [rl|] eqn:Erl; [|discriminate]. exists rl.
      split; [|exact Hc]. apply list_elem_of_fmap. exists j. auto.
    + intros (rl & (j & Hj & Hin)%list_elem_of_fmap & Hc). apply existsb_exists. exists j.
      split; [apply list_elem_of_In, Hin|]. unfold call_at. rewrite <- Hj. exact Hc.
Qed.

Lemma find_place_some idx ps : forall i,
  (exists p, p ∈ ps /\ p_idx p = idx) ->
  exists j p, find_prog_place ps i idx = Some (i + Z.of_nat j) /\ ps !! j = Some p /\ p_idx p = idx.
Proof.
  induction ps as [|p ps IH]; intros i (q & Hq & Hidx); [set_solver|]. cbn [find_prog_place].
  destruct (Z.eqb_spec (p_idx p) idx) as [He|He].
  - exists 0%nat, p. rewrite Z.add_0_r. auto.
  - destruct (IH (i + 1)) as (j & p' & -> & Hj & Hp').
    { exists q. apply elem_of_cons in Hq as [->|Hq]; [contradiction|]. auto. }
    exists (S j), p'. split; [f_equal; lia | auto].
Qed.

(** A program after the relocation sections [done]. *)
Definition relocated (done : list section) (s : section) (p : bpf_program) : Prop :=
  match filter (fun r => s32 (sh_info (s_hdr r)) = s_idx s) done with
  | [] => p = name_prog (prog_of_sec s)
  | r :: _ => exists ds, p = set_p_relocs ds (name_prog (prog_of_sec s)) /\
      Forall2 (fun rel d => exists rl, rel = Some rl /\
        resolves (s_data sy) text mapsi (insns_of s) the_maps rl d) (rels_of r) ds
  end.
(** One of them asks for a call. *)
Definition calls (done : list section) : Prop :=
  exists s r rl, s ∈ of_kind e KProg secs /\ r ∈ done /\ s32 (sh_info (s_hdr r)) = s_idx s /\
    Some rl ∈ rels_of r /\ is_call (insns_of s) rl = true.

Lemma relocated_idx done s p : relocated done s p -> p_idx p = s_idx s.
Proof. unfold relocated. destruct (filter _ _); [intros ->|intros (ds & -> & _)]; reflexivity. Qed.

Lemma relocated_step done r rest s ds (ps : list bpf_program) j p :
  of_kind e KRel secs = done ++ r :: rest -> s ∈ of_kind e KProg secs ->
  s32 (sh_info (s_hdr r)) = s_idx s -> of_kind e KProg secs !! j = Some s -> ps !! j = Some p ->
  p = name_prog (prog_of_sec s) ->
  Forall2 (fun rel d => exists rl, rel = Some rl /\
    resolves (s_data sy) text mapsi (insns_of s) the_maps rl d) (rels_of r) ds ->
  filter (fun r => s32 (sh_info (s_hdr r)) = s_idx s) done = [] ->
  Forall2 (relocated done) (of_kind e KProg secs) ps ->
  Forall2 (relocated (done ++ [r])) (of_kind e KProg secs) (<[j := set_p_relocs ds p]> ps).
Proof.
  intros Hrels Hs Hinfo Hj Hpj -> Hds Hnone Hall. apply Forall2_same_length_lookup_2.
  { rewrite length_insert. apply (Forall2_length _ _ _ Hall). }
  intros j' s' p' Hs' Hp'. unfold relocated. rewrite filter_app, filter_cons.
  destruct (decide (j = j')) as [<-|Hne].
  - rewrite Hj in Hs'. injection Hs' as <-. rewrite list_lookup_insert_eq in Hp'
      by (eapply lookup_lt_Some; eassumption). injection Hp' as <-.
    rewrite Hnone, decide_True by exact Hinfo. cbn. exists ds. auto.
  - rewrite list_lookup_insert_ne in Hp' by exact Hne.
    assert (s' <> s) as Hss.
    { intros ->. apply Hne. eapply (kind_distinct e secs ep sy Hp); eassumption. }
    assert (s' ∈ of_kind e KProg secs) as Hin' by (apply list_elem_of_lookup; eauto).
    rewrite decide_False.
    2:{ rewrite Hinfo. intros E. apply Hss. symmetry.
        apply (of_kind_in e secs) in Hs as [Hs _], Hin' as [Hin' _]. apply (section_inj e secs ep sy Hp s s' Hs Hin' E). }
    rewrite app_nil_r. exact (Forall2_lookup_lr _ _ _ _ _ _ Hall Hs' Hp').
Qed.

Lemma collect_reloc_runs o :
  gathered e secs sy o -> o_maps o = the_maps ->
  o_programs o = name_prog <$> (prog_of_sec <$> of_kind e KProg secs) -> o_pseudo_calls o = false ->
  runs (K := K) bpf_object__collect_reloc o (fun _ o' => exists ps c,
    o' = set_o_pseudo c (set_o_programs ps o) /\ (c = true <-> calls (of_kind e KRel secs)) /\
    Forall2 (relocated (of_kind e KRel secs)) (of_kind e KProg secs) ps).
Proof.
  intros Hg Hms Hps Hpc. unfold bpf_object__collect_reloc. pose proof Hg as [_ _ _ _ _ Hrel He].
  apply runs_bind, runs_geto, runs_bind. unfold obj_elf_valid. rewrite He.
  apply runs_reject; [reflexivity|]. apply runs_bind, runs_geto. rewrite Hrel.
  pose proof (runs_for_each (K := K) (fun r => collect_section_relocs (s_hdr r, s_data r)) (fun done o' => exists ps c,
    o' = set_o_pseudo c (set_o_programs ps o) /\ (c = true <-> calls done) /\
    Forall2 (relocated done) (of_kind e KProg secs) ps) (of_kind e KRel secs) [] o) as Hloop.
  cbn [app] in Hloop. intros k. unfold wp. rewrite for_each_fmap. revert k. apply Hloop; clear Hloop.
  - exists (o_programs o), false. split; [rewrite <- Hpc; destruct o; reflexivity|].
    split; [split; [discriminate|intros (?&?&?&_&?&_); set_solver]|].
    rewrite Hps, <- list_fmap_compose. apply Forall2_fmap_r, Forall_Forall2_diag, Forall_forall.
    intros s _. reflexivity.
  - intros d r rest o' Hsplit (ps & c & -> & Hc & Hall). cbn [collect_section_relocs].
    assert (r ∈ of_kind e KRel secs) as Hr by (rewrite Hsplit; set_solver).
    pose proof (of_kind_in e secs _ _ Hr) as [_ Hkind].
    pose proof (pl_rel_progs _ _ _ _ Hp) as Hprogs. rewrite Forall_forall in Hprogs.
    destruct (Hprogs r Hr) as (s & Hs & Hinfo).
    apply runs_bind, runs_reject; [rewrite (kind_rel_type e r Hkind); reflexivity|].
    apply runs_bind, runs_geto, runs_bind.
    replace (o_programs (set_o_pseudo c (set_o_programs ps o))) with ps by (destruct o; reflexivity).
    destruct (find_place_some (s32 (sh_info (s_hdr r))) ps 0) as (j & p & Hfind & Hj & Hidx).
    { apply list_elem_of_lookup in Hs as [i Hi].
      destruct (Forall2_lookup_l _ _ _ _ _ Hall Hi) as (q & Hq & Hrq). exists q.
      split; [apply list_elem_of_lookup; eauto|]. rewrite <- Hinfo. exact (relocated_idx _ _ _ Hrq). }
    eapply runs_or_throw; [exact Hfind|]. cbn [Z.add].
    destruct (Forall2_lookup_r _ _ _ _ _ Hall Hj) as (s' & Hs' & Hrs').
    assert (s' = s) as ->.
    { assert (s' ∈ of_kind e KProg secs) as Hin by (apply list_elem_of_lookup; eauto).
      apply (of_kind_in e secs) in Hs as [Hs _], Hin as [Hin _]. apply (section_inj e secs ep sy Hp); try assumption.
      rewrite <- (relocated_idx _ _ _ Hrs'), Hidx. symmetry. exact Hinfo. }
    destruct (pl_rels _ _ _ _ Hp s Hs) as [Hone Hsound].
    assert (r ∈ rels_for e secs s) as Hrin by (apply list_elem_of_filter; auto).
    rewrite Forall_forall in Hsound. specialize (Hsound r Hrin).
    assert (filter (fun r => s32 (sh_info (s_hdr r)) = s_idx s) d = []) as Hnone.
    { unfold rels_for in Hone. rewrite Hsplit, filter_app, filter_cons, decide_True in Hone by auto.
      unfold zlen in Hone. rewrite length_app in Hone. cbn [length] in Hone.
      apply length_zero_iff_nil. lia. }
    assert (p = name_prog (prog_of_sec s)) as Hpe
      by (unfold relocated in Hrs'; rewrite Hnone in Hrs'; exact Hrs').
    eapply runs_mono; [apply (program_relocs_runs (Z.of_nat j) s r _ p)|]; try assumption.
    + eapply gathered_efile; [|exact Hg]. destruct o. reflexivity.
    + destruct o. exact Hms.
    + lia.
    + destruct o. cbn. rewrite Nat2Z.id. exact Hj.
    + rewrite Hpe. reflexivity.
    + intros [] o' (ds & c' & Hds & Hc' & ->).
      exists (<[j := set_p_relocs ds p]> ps), (c || c'). split; [|split].
      * unfold with_relocs. destruct o. cbn. rewrite Nat2Z.id. reflexivity.
      * rewrite orb_true_iff, Hc, Hc'. split.
        -- intros [(s2 & r2 & rl & ? & ? & ? & ? & ?)|(rl & Hrl & Hcall)].
           ++ exists s2, r2, rl. repeat split; try assumption. set_solver.
           ++ exists s, r, rl. repeat split; try assumption; [set_solver | auto].
        -- intros (s2 & r2 & rl & Hs2 & Hr2 & Hi2 & Hrl2 & Hcall2).
           apply elem_of_app in Hr2 as [Hr2|Hr2]; [left; exists s2, r2, rl; auto|].
           apply list_elem_of_singleton in Hr2 as ->. right. exists rl. split; [exact Hrl2|].
           replace s with s2; [exact Hcall2|].
           apply (of_kind_in e secs) in Hs as [Hs _], Hs2 as [Hs2 _]. apply (section_inj e secs ep sy Hp); try assumption.
           congruence.
      * eapply relocated_step; eauto.
Qed.
End plain.
End steps.
