(* ===== verification/OpenPlainTop.v ===== *)
(** Opening a plain file gives the object it describes. *)
From S2P Require Import Prelude CLib XdpLink LibbpfObj LibbpfLoad LibbpfRes BpfLoad Btf BtfExt Elf ErrMonad OpenObj OpenProgs OpenBtf OpenMaps OpenReloc KernelBtf Open OpenPlain OpenRuns OpenPlainProps.
#[local] Open Scope Z_scope.

(** * The array of the license *)

Lemma in_array_padded bs k : in_array (bs ++ NUL :: k) = in_array bs.
Proof.
  assert (exists s, c_string (bs ++ NUL :: k) = Ok s /\
    (c_string bs = Ok s \/ (c_string bs = Err OutOfBounds /\ s = bs))) as (s & Hs & Hb).
  { induction bs as [|b bs (s & Hs & IH)]; cbn [c_string app].
    - exists []. rewrite decide_True by reflexivity. auto.
    - destruct (decide (b = NUL)) as [->|Hb]; [exists []; auto|]. rewrite Hs. exists (b :: s).
      split; [reflexivity|]. destruct IH as [->|[-> ->]]; auto. }
  unfold in_array. rewrite Hs. destruct Hb as [->|[-> ->]]; reflexivity.
Qed.

Lemma license_read ls :
  in_array (license_array ls) =
  in_array (match ls with l :: _ => take 63 (sec_bytes (s_data l)) | [] => [] end).
Proof.
  destruct ls as [|l ls]; cbn [license_array]; [exact (in_array_padded [] (replicate 63 NUL))|].
  set (bs := take 63 _). assert (length bs <= 63)%nat by (unfold bs; rewrite length_take; lia).
  replace (64 - length bs)%nat with (S (63 - length bs)) by lia. apply in_array_padded.
Qed.

Section top.
Context {K : Type} `{LS : BpfSysLaws K} `{!BtfSys K} `{!ElfSys K} `{Libelf} `{Qsort}.
#[local] Abbreviation M := (@OpenObj.M K).

(** Memory does not run out, and the file is there whenever it is opened. *)
Record on_disk (path : string) (e : elf) : Prop := {
  od_mem : forall k : K, fst (sys_alloc k) = true;
  od_version : forall k : K, elf_version k = true;
  od_file : forall k : K, exists fd k1, sys_open k path = (ROk fd, k1) /\ fst (elf_begin k1 fd) = Some e
}.
Context (path : string) (e : elf) (secs : list section) (ep : elf_ehdr) (sy : section).
Context (Hdisk : on_disk path e) (Hp : plain e secs ep sy).
Context (Hbtf : btf_fine K e (s_data sy) (btf_secs_of e secs)).
#[local] Abbreviation Hmem := (od_mem path e Hdisk).

(** ** From the file to its sections *)

Lemma elf_init_runs o :
  o_path o = path -> o_efile o = no_efile -> o_programs o = [] -> o_maps o = [] -> o_btf o = None ->
  o_pseudo_calls o = false -> o_license o = replicate 64 NUL ->
  runs (K := K) (bpf_object__elf_init []) o
    (fun _ o' => collected e ep o' [] o' /\ o_license o' = replicate 64 NUL /\ ef_ehdr (o_efile o') = ep).
Proof.
  intros Hpath Hef Hps Hms Hb Hpc Hl. unfold bpf_object__elf_init.
  apply runs_bind, runs_geto, runs_bind, runs_reject; [unfold obj_elf_valid; rewrite Hef; reflexivity|].
  apply runs_bind. unfold elf_init_open. rewrite bool_decide_true by reflexivity. cbn [negb].
  intros k. apply wp_bind, wp_gets. cbn [fst]. rewrite Hpath.
  destruct (od_file path e Hdisk k) as (fd & k1 & Ho & Hbeg).
  apply wp_bind, wp_call. cbn [fst snd]. rewrite Ho. cbn [fst snd].
  apply wp_bind, wp_call. cbn [fst snd]. destruct (elf_begin k1 fd) as [e' k2]. cbn [fst snd] in *. subst e'.
  apply wp_modify. cbn [fst snd].
  pose proof (pl_ehdr _ _ _ _ Hp) as Hehdr. destruct (pl_type _ _ _ _ Hp) as (Ht & Hm & _).
  enough (runs (K := K) elf_init_check (upd_efile (set_ef_elf fd (Some e)) o)
    (fun _ o' => collected e ep o' [] o' /\ o_license o' = replicate 64 NUL /\ ef_ehdr (o_efile o') = ep)) as Hr by exact Hr.
  unfold elf_init_check. apply runs_bind, runs_geto.
  destruct o as [a1 a2 a3 a4 a5 a6 a7 a8 a9 a10 a11 a12 a13 a14 a15 a16]. cbn in *. subst. cbn.
  rewrite Hehdr. apply runs_bind, runs_updo. cbn. rewrite Ht. cbn [negb orb].
  replace (negb (e_machine ep =? 0) && negb (e_machine ep =? EM_BPF)) with false
    by (destruct Hm as [->| ->]; reflexivity).
  apply runs_ret. split; [|split; reflexivity]. split; cbn; try reflexivity; repeat split.
Qed.

Lemma collect_all_runs pin o :
  collected e ep o [] o -> o_license o = replicate 64 NUL -> ef_ehdr (o_efile o) = ep ->
  runs (K := K) (bpf_object__elf_collect false pin) o (fun _ o' =>
    collected e ep o secs (set_o_maps [] 0 (set_o_programs (prog_of_sec <$> of_kind e KProg secs) (set_o_btf None o'))) /\
    o_maps o' = opened_maps e secs sy /\
    o_programs o' = name_prog e secs sy <$> (prog_of_sec <$> of_kind e KProg secs)).
Proof.
  intros Hnew Hl Hep. unfold bpf_object__elf_collect.
  apply runs_bind, (the_elf_runs e); [exact (proj1 (co_elf _ _ _ _ _ Hnew))|].
  apply runs_bind, runs_geto. rewrite Hep. apply runs_bind, runs_reject; [rewrite (pl_names _ _ _ _ Hp); reflexivity|].
  apply runs_bind. eapply runs_mono;
    [apply (collect_runs Hmem e secs ep sy Hp o Hl (elf_nextscns e) [] secs);
      [exact (pl_secs _ _ _ _ Hp)|reflexivity|exact Hnew|reflexivity]|].
  intros bs o1 [-> Hc]. pose proof (collected_gathered e secs ep sy Hp _ _ Hc) as Hg.
  apply runs_bind, runs_geto. apply runs_bind, runs_reject.
  { rewrite (ga_strtab _ _ _ _ Hg). pose proof (pl_strtab _ _ _ _ Hp) as Hst.
    pose proof (pl_secs _ _ _ _ Hp) as Hv. apply mapM_Some, Forall2_length in Hv. unfold zlen in *. lia. }
  apply runs_bind. eapply runs_mono;
    [apply (init_btf_runs e (s_data sy) (btf_secs_of e secs)); [exact Hbtf|exact (ga_elf _ _ _ _ Hg)|exact (ga_syms _ _ _ _ Hg)|
      apply (ga_none _ _ _ _ Hg)]|].
  intros [] o2 [Hs2 Hb2]. pose proof (gathered_efile _ _ _ _ _ (proj1 Hs2) Hg) as Hg2.
  pose proof Hs2 as (_ & Hps2 & Hms2 & _). apply runs_bind.
  eapply runs_mono; [apply (init_maps_runs Hmem e secs ep sy Hp pin o2 Hg2)|].
  { rewrite Hms2. apply (co_same _ _ _ _ _ Hc). }
  intros [] o3 [cap ->]. assert (sanitizable (o_btf (set_o_maps (opened_maps e secs sy) cap o2))) as Hb3
    by (destruct o2; exact Hb2).
  assert (gathered e secs sy (set_o_maps (opened_maps e secs sy) cap o2)) as Hg3
    by (eapply gathered_efile; [|exact Hg2]; destruct o2; reflexivity).
  apply runs_bind. eapply runs_mono;
    [apply sanitize_and_load_runs; [apply (ga_none _ _ _ _ Hg3) | exact Hb3]|].
  intros [] o4 Hs4. pose proof (gathered_efile _ _ _ _ _ (proj1 Hs4) Hg3) as Hg4.
  pose proof Hs4 as (He4 & Hps4 & Hms4 & Hl4 & Hv4 & Hpc4). destruct Hs2 as (He2 & _ & _ & Hl2 & Hv2 & Hpc2).
  assert (o_programs o4 = prog_of_sec <$> of_kind e KProg secs) as Hps.
  { rewrite Hps4. destruct o2. cbn in *. rewrite Hps2. exact (co_progs _ _ _ _ _ Hc). }
  eapply runs_mono; [apply (init_prog_names_runs Hmem e secs ep sy Hp o4 Hg4 Hps)|].
  intros [] o5 ->. rewrite <- Hps. destruct Hc as [? ? ? ? ? ? ? ? ? ? ?]. destruct o2, o4. cbn in *. subst.
  split; [|split; reflexivity]. split; cbn; congruence || tauto || auto.
Qed.

(** ** All the steps *)

(** The object, but for the types of its programs. *)
Record untyped (o : open_obj) : Prop := {
  ut_license : o_license o = license_array (of_kind e KLicense secs);
  ut_version : forall v, last (of_kind e KVersion secs) = Some v ->
    o_kern_version o = le_val (sec_bytes (s_data v));
  ut_text : ef_text_shndx (o_efile o) = text_of e secs;
  ut_calls : o_pseudo_calls o = true <-> has_calls e secs;
  ut_maps : o_maps o = opened_maps e secs sy;
  ut_progs : Forall2 (relocated e secs sy (of_kind e KRel secs)) (of_kind e KProg secs) (o_programs o)
}.

Lemma open_steps_runs core pin o :
  o_path o = path -> o_efile o = no_efile -> o_programs o = [] -> o_maps o = [] -> o_btf o = None ->
  o_pseudo_calls o = false -> o_license o = replicate 64 NUL ->
  runs (K := K) (open_steps [] core false pin) o (fun _ o' => untyped o').
Proof.
  intros Hpath Hef Hps Hms Hb Hpc Hl. unfold open_steps. apply runs_bind, runs_updo, runs_bind.
  eapply runs_mono; [apply elf_init_runs; destruct o; assumption|]. intros [] o1 (Hc1 & Hl1 & Hep1).
  apply runs_bind. unfold bpf_object__check_endianness. apply runs_bind, runs_geto, runs_reject.
  { rewrite Hep1. destruct (pl_type _ _ _ _ Hp) as (_ & _ & ->). reflexivity. }
  apply runs_bind. eapply runs_mono; [apply (quiet_probe_caps Hmem)|].
  intros [] o2 [Hs2 Hb2].
  assert (collected e ep o2 [] o2) as Hc2.
  { destruct Hs2 as (E1 & E2 & E3 & E4 & E5 & E6), Hc1 as [? ? ? ? ? ? ? ? ? ? ?].
    split; rewrite ?E1, ?E2, ?E3, ?E4, ?E6; try assumption; [reflexivity|]. rewrite Hb2. assumption. }
  assert (o_license o2 = replicate 64 NUL /\ ef_ehdr (o_efile o2) = ep) as [Hl2 Hep2].
  { destruct Hs2 as (-> & _ & _ & -> & _). auto. }
  apply runs_bind. eapply runs_mono; [apply (collect_all_runs pin o2 Hc2 Hl2 Hep2)|].
  intros [] o3 (Hc3 & Hms3 & Hps3).
  pose proof (collected_gathered e secs ep sy Hp _ _ Hc3) as Hg3.
  eapply gathered_efile in Hg3; [|instantiate (1 := o3); destruct o3; reflexivity].
  assert (o_pseudo_calls o3 = false) as Hpc3.
  { destruct (co_same _ _ _ _ _ Hc3) as (_ & _ & E). destruct o3. exact E. }
  apply runs_bind. eapply runs_mono;
    [apply (collect_reloc_runs Hmem e secs ep sy Hp o3 Hg3 Hms3 Hps3 Hpc3)|].
  intros [] o4 (ps & c & -> & Hc & Hall).
  intros k. apply wp_call. cbn [fst snd]. unfold elf_finish. destruct (negb _).
  - destruct Hc3, o3. cbn in *. split; cbn; try assumption; try (exact Hc).
    intros v Hv. rewrite co_version in *. rewrite Hv. reflexivity.
  - destruct (zclose k _) as [r k']. cbn [fst]. destruct Hc3, o3. cbn in *. split; cbn; try assumption; try (exact Hc).
    intros v Hv. rewrite co_version in *. rewrite Hv. reflexivity.
Qed.

(** * The types of the programs *)

Definition retype (p : bpf_program) : bpf_program :=
  match snd (libbpf_prog_type_by_name (Some (section_name p))) with
  | Some (t, a) => bpf_program__set_expected_attach_type a (bpf_program__set_type t p)
  | None => p
  end.
Definition not_tracing (p : bpf_program) : Prop :=
  forall t a, snd (libbpf_prog_type_by_name (Some (section_name p))) = Some (t, a) ->
    t <> BPF_PROG_TYPE_TRACING.
Lemma retype_twice p : retype (retype p) = retype p.
Proof.
  unfold retype. destruct (snd (libbpf_prog_type_by_name (Some (section_name p)))) as [[t a]|] eqn:E;
    [|rewrite E; reflexivity]. cbn [section_name bpf_program__set_expected_attach_type bpf_program__set_type].
  rewrite E. reflexivity.
Qed.

Definition set_progs (ps : list bpf_program) (o : bpf_object) : bpf_object :=
  mk_obj (obj_id o) (license o) (kern_version o) ps
    (maps o) (sec_rodata o) (sec_data o) (loaded o) (has_pseudo_calls o) (caps_name o)
    (text_shndx o) (btf_maps_shndx o) (obj_btf o) (obj_btf_ext o).

Lemma guess_types_runs (k : K) ixs : forall o,
  Forall (fun i => 0 <= i < zlen (programs o)) ixs -> Forall not_tracing (programs o) ->
  exists ps, guess_types k ixs o = Ok (0, set_progs ps o, k) /\ length ps = length (programs o) /\
    forall (j : nat) p, programs o !! j = Some p ->
      ps !! j = Some (if decide (Z.of_nat j ∈ ixs) then retype p else p).
Proof.
  induction ixs as [|i ixs IH]; intros o Hix Hnt; cbn [guess_types].
  { exists (programs o). split; [destruct o; reflexivity|]. split; [reflexivity|]. intros j p Hj.
    rewrite decide_False by set_solver. exact Hj. }
  apply Forall_cons in Hix as [Hi Hix]. destruct (aget_in (programs o) i Hi) as [p Hget].
  rewrite Hget, bind_Ok. apply aget_Ok in Hget as [_ Hget].
  assert (not_tracing p) as Hntp by (rewrite Forall_forall in Hnt; apply Hnt, list_elem_of_lookup; eauto).
  unfold not_tracing in Hntp. pose proof (retype_twice p) as Htw. unfold retype in Htw at 2 3.
  assert (Hre : retype p = match snd (libbpf_prog_type_by_name (Some (section_name p))) with
    | Some (t, a) => bpf_program__set_expected_attach_type a (bpf_program__set_type t p) | None => p end)
    by reflexivity.
  destruct (libbpf_prog_type_by_name (Some (section_name p))) as [err types] eqn:Et.
  assert ((err = - ESRCH /\ types = None) \/ (err = 0 /\ is_Some types)) as [[-> ->]|[-> [[t a] ->]]].
  { unfold libbpf_prog_type_by_name in Et. destruct (List.find _ _); injection Et as <- <-; eauto. }
  - cbn [Z.eqb Z.opp ESRCH Pos.eqb]. destruct (IH o Hix Hnt) as (ps & -> & Hlen & Hps).
    exists ps. split; [reflexivity|]. split; [exact Hlen|]. intros j q Hj. rewrite (Hps j q Hj).
    cbn [snd] in Hre. destruct (decide (Z.of_nat j ∈ ixs)) as [Hin|Hin];
      [rewrite decide_True by set_solver; reflexivity|].
    destruct (decide (j = Z.to_nat i)) as [->|Hne].
    + rewrite Hget in Hj. injection Hj as <-. rewrite Hre. case_decide; reflexivity.
    + rewrite decide_False; [reflexivity|]. intros [?|?]%elem_of_cons; [lia | contradiction].
  - cbn [negb Z.eqb Z.opp ESRCH default from_option id]. cbn [snd] in Hre, Htw, Hntp.
    rewrite (proj2 (Z.eqb_neq t BPF_PROG_TYPE_TRACING)) by (eapply Hntp; reflexivity).
    set (o1 := set_prog _ i o). assert (programs o1 = <[Z.to_nat i := retype p]> (programs o)) as Hps1.
    { unfold o1. cbn. rewrite Hre. exact (alter_insert (fun p => bpf_program__set_expected_attach_type a (bpf_program__set_type t p)) _ _ _ Hget). }
    destruct (IH o1) as (ps & Hg & Hlen & Hps).
    { rewrite Hps1. eapply Forall_impl; [exact Hix|]. intros x. unfold zlen. rewrite length_insert. auto. }
    { rewrite Hps1. apply Forall_insert; [exact Hnt|]. rewrite Hre. intros t' a' Hx.
      change (snd (libbpf_prog_type_by_name (Some (section_name p))) = Some (t', a')) in Hx.
      rewrite Et in Hx. exact (Hntp t' a' Hx). }
    rewrite Hg. exists ps. split; [reflexivity|]. rewrite Hps1, length_insert in Hlen. split; [exact Hlen|].
    intros j q Hj. rewrite Hps1 in Hps. destruct (decide (j = Z.to_nat i)) as [->|Hne].
    + rewrite (Hps (Z.to_nat i) (retype p))
        by (apply list_lookup_insert_eq; eapply lookup_lt_Some; eassumption).
      rewrite Hget in Hj. injection Hj as <-. rewrite retype_twice.
      case_decide; case_decide; try reflexivity.
      all: match goal with H : _ ∉ _ :: _ |- _ => exfalso; apply H, elem_of_cons; left; lia end.
    + rewrite (Hps j q) by (rewrite list_lookup_insert_ne by congruence; exact Hj).
      assert (Z.of_nat j ∈ i :: ixs <-> Z.of_nat j ∈ ixs) as Hiff.
      { rewrite elem_of_cons. split; [intros [?|?]; [lia | assumption] | auto]. }
      destruct (decide (Z.of_nat j ∈ ixs)), (decide (Z.of_nat j ∈ i :: ixs)); tauto || reflexivity.
Qed.

Lemma retype_relocated s p ms :
  ms = opened_maps e secs sy -> relocated e secs sy (of_kind e KRel secs) s p ->
  s ∈ of_kind e KProg secs -> prog_opened e secs sy ms s (retype p).
Proof.
  intros -> Hrel Hs. pose proof (pl_prog_names _ _ _ _ Hp) as Hnames. rewrite Forall_forall in Hnames.
  destruct (Hnames s Hs) as [name Hn].
  assert (section_name p = string_of (s_name s)) as Hsec
    by (unfold relocated in Hrel; destruct (filter _ _); [rewrite Hrel|destruct Hrel as (ds & -> & _)]; reflexivity).
  assert (forall f, p_idx (f p) = p_idx p /\ section_name (f p) = section_name p /\
    p_insns (f p) = p_insns p /\ p_name (f p) = p_name p /\ p_relocs (f p) = p_relocs p /\
    (p_type (f p), expected_attach_type (f p)) = type_by_name s ->
    prog_opened e secs sy (opened_maps e secs sy) s (f p)) as Hgo.
  { intros f (E1 & E2 & E3 & E4 & E5 & E6). unfold relocated in Hrel.
    fold (rels_for e secs s) in Hrel.
    split; [rewrite E1|rewrite E2; exact Hsec|rewrite E3|rewrite E4|exact E6|rewrite E5, E3];
      destruct (rels_for e secs s) as [|r l]; [rewrite Hrel|destruct Hrel as (ds & -> & Hds)
        |rewrite Hrel|destruct Hrel as (ds & -> & Hds)|rewrite Hrel|destruct Hrel as (ds & -> & Hds)
        |rewrite Hrel|destruct Hrel as (ds & -> & Hds)]; try reflexivity.
    - cbn. rewrite Hn. reflexivity.
    - cbn. rewrite Hn. reflexivity.
    - exists ds. auto. }
  apply (Hgo retype). unfold retype, type_by_name. rewrite Hsec.
  destruct (snd _) as [[t a]|]; repeat split; try exact Hsec.
  unfold relocated in Hrel. destruct (filter _ _); [rewrite Hrel|destruct Hrel as (ds & -> & _)]; reflexivity.
Qed.

(** The functions' section has a name no type belongs to. *)
Lemma text_untyped s :
  s ∈ of_kind e KProg secs -> s_idx s = text_of e secs ->
  snd (libbpf_prog_type_by_name (Some (string_of (s_name s)))) = None.
Proof.
  intros Hs Hidx. unfold text_of in Hidx. pose proof (of_kind_in e secs _ _ Hs) as [Hin _].
  destruct (last _) as [t|] eqn:Et.
  2:{ pose proof (section_few e secs ep sy Hp s Hin). lia. }
  apply last_Some in Et as [l Hl].
  assert (t ∈ filter (fun s => named s ".text") (of_kind e KProg secs)) as Ht by (rewrite Hl; set_solver).
  apply list_elem_of_filter in Ht as [Hname Ht]. apply of_kind_in in Ht as [Ht _].
  pose proof (section_inj e secs ep sy Hp s t Hin Ht Hidx) as ->.
  unfold named in Hname. apply bool_decide_unpack in Hname. rewrite Hname. vm_compute. reflexivity.
Qed.

Lemma guess_runs (k : K) o :
  untyped o -> exists ixs o', bpf_object__for_each_program (to_object o) = Ok ixs /\
    guess_types k ixs (to_object o) = Ok (0, o', k) /\ opens_to e secs sy o'.
Proof.
  intros [Hl Hv Ht Hc Hm Hps]. set (b := to_object o).
  pose proof (Forall2_length _ _ _ Hps) as Hlen.
  assert (zlen (programs b) < 2 ^ 62) as Hfew.
  { cbn. unfold zlen. rewrite <- Hlen. pose proof (length_filter (fun s => kind_of e s = KProg) secs) as Hf.
    pose proof (pl_few _ _ _ _ Hp) as Hp2. unfold of_kind, zlen, SHN_LORESERVE in *. lia. }
  exists (visible_after b (-1)).
  destruct (guess_types_runs k (visible_after b (-1)) b) as (ps & Hg & Hlen2 & Hall).
  { apply Forall_forall. intros i [_ Hi]%elem_of_visible_after. lia. }
  { apply Forall_forall. intros p (j & Hj)%list_elem_of_lookup.
    destruct (Forall2_lookup_r _ _ _ _ _ Hps Hj) as (s & Hs & Hrs).
    assert (s ∈ of_kind e KProg secs) as Hin by (apply list_elem_of_lookup; eauto).
    pose proof (pl_types _ _ _ _ Hp) as Hty. rewrite Forall_forall in Hty. specialize (Hty s Hin).
    intros t a Hta. unfold type_by_name in Hty.
    rewrite <- (pr_sec _ _ _ _ _ _ (retype_relocated s p _ eq_refl Hrs Hin)) in Hty.
    unfold retype in Hty. rewrite Hta in Hty. cbn [section_name bpf_program__set_expected_attach_type bpf_program__set_type] in Hty.
    rewrite Hta in Hty. exact Hty. }
  exists (set_progs ps b). split; [apply for_each_program_spec, Hfew|]. split; [exact Hg|].
  split; cbn.
  - reflexivity.
  - rewrite Hl, license_read. reflexivity.
  - exact Hv.
  - exact Ht.
  - exact Hc.
  - exists (opened_maps e secs sy). rewrite Hm. split; [reflexivity|].
    split; [apply qsort_perm|]. split; [apply (opened_maps_sorted e secs ep sy Hp)|].
    apply Forall2_same_length_lookup_2; [rewrite Hlen2; exact Hlen|]. intros j s p' Hs Hp'.
    destruct (Forall2_lookup_l _ _ _ _ _ Hps Hs) as (p & Hpj & Hrs).
    assert (s ∈ of_kind e KProg secs) as Hin by (apply list_elem_of_lookup; eauto).
    pose proof (retype_relocated s p _ eq_refl Hrs Hin) as Hgo.
    rewrite (Hall j p Hpj) in Hp'. injection Hp' as <-.
    destruct (decide (Z.of_nat j ∈ visible_after b (-1))) as [Hvis|Hvis]; [exact Hgo|].
    replace p with (retype p); [exact Hgo|]. unfold retype.
    assert (section_name p = string_of (s_name s)) as ->.
    { rewrite <- (pr_sec _ _ _ _ _ _ Hgo). unfold retype. destruct (snd _) as [[? ?]|]; reflexivity. }
    rewrite text_untyped; [reflexivity|exact Hin|].
    destruct (Z.eq_dec (s_idx s) (text_of e secs)) as [E|E]; [exact E|]. exfalso. apply Hvis.
    apply elem_of_visible_after. split.
    + unfold visible. rewrite Nat2Z.id. change (programs b) with (o_programs o). rewrite Hpj.
      unfold bpf_program__is_function_storage. rewrite (relocated_idx _ _ _ _ _ _ Hrs).
      change (text_shndx b) with (ef_text_shndx (o_efile o)). rewrite Ht.
      rewrite (proj2 (Z.eqb_neq _ _) E). reflexivity.
    + apply lookup_lt_Some in Hpj. unfold zlen. cbn. lia.
Qed.

(** * Opening *)

Lemma open_plain (k : K) t :
  exists o k', bpf_object__open_xattr k (Some path) t = Ok (OpenOk o, k') /\ opens_to e secs sy o.
Proof.
  unfold bpf_object__open_xattr, __bpf_object__open_xattr, __bpf_object__open.
  rewrite (od_version path e Hdisk). cbn -[open_new]. unfold open_new.
  cbn -[open_steps guess_types bpf_object__for_each_program to_object].
  change (negb (Z.land 0 MAPS_RELAX_COMPAT =? 0)) with false.
  unfold bpf_object__new. rewrite (surjective_pairing (sys_alloc k)), Hmem. cbn [negb].
  set (obj := mk_oobj _ _ _ _ _ _ _ _ _ _ _ _ _ _ _ _).
  pose proof (open_steps_runs false None obj eq_refl eq_refl eq_refl eq_refl eq_refl eq_refl eq_refl
    (snd (sys_alloc k))) as Hr.
  apply wp_run in Hr as (r & [o k1] & -> & Hr). destruct r as [e1|[]]; [contradiction|].
  rewrite bind_Ok. cbn [fst] in Hr. destruct (guess_runs k1 o Hr) as (ixs & o' & -> & Hg & Ho).
  rewrite bind_Ok, Hg, bind_Ok. exists o', k1. split; [reflexivity | exact Ho].
Qed.
End top.
