(* ===== verification/OpenProps.v ===== *)
(** A libelf that decodes 64-bit little-endian entries, the small kernel of
    [DemoSys] with one object file on its disk, and that file: the XDP
    program of the experiment with its maps. *)
From S2P Require Import Prelude CLib Params XdpLink LibbpfObj LibbpfLoad LibbpfRes BpfLoad BpfLoadProps DemoSys LoaderProps Btf BtfLookups BtfExt Elf ErrMonad OpenObj OpenProgs OpenBtf OpenMaps OpenReloc KernelBtf Open OpenInv OpenTop OpenPlain OpenRuns OpenPlainProps OpenPlainTop.
From Stdlib Require Import Sorted.
#[local] Open Scope Z_scope.

(** * Symbols and relocations as they lie in a file *)

Definition field (bs : list byte) (off n : nat) : Z := le_val (take n (drop off bs)).
Definition entry (d : elf_data) (sz i : Z) : option (list byte) :=
  buf ← d_buf d;
  if (0 <=? i) && (sz * i + sz <=? zlen buf) then Some (take (Z.to_nat sz) (drop (Z.to_nat (sz * i)) buf))
  else None.

#[export] Instance libelf64 : Libelf := {|
  gelf_getsym d i := e ← entry d 24 i; Some (mk_sym (field e 0 4) (field e 4 1) (field e 6 2) (field e 8 8));
  gelf_getrel d i := e ← entry d 16 i; Some (mk_rel (field e 0 8) (field e 8 8))
|}.
#[export] Instance demo_qsort : Qsort := insertion_qsort.

Definition enc_sym (s : elf_sym) : list byte :=
  le_bytes 4 (st_name s) ++ le_bytes 1 (st_info s) ++ [NUL] ++ le_bytes 2 (st_shndx s) ++
  le_bytes 8 (st_value s) ++ le_bytes 8 0.
Definition enc_rel (r : elf_rel) : list byte := le_bytes 8 (r_offset r) ++ le_bytes 8 (r_info r).
Definition enc_insn (i : bpf_insn) : list byte :=
  le_bytes 1 (i_code i) ++ le_bytes 1 (Z.lor (i_dst i) (Z.shiftl (i_src i) 4)) ++
  le_bytes 2 (i_off i) ++ le_bytes 4 (i_imm i).
Definition enc_map_def (d : bpf_map_def) : list byte :=
  words [d_type d; d_key_size d; d_value_size d; d_max_entries d; d_flags d].

(** * The file *)

Definition full (bs : list byte) : elf_data := mk_data (Some bs) (zlen bs).
Definition demo_strtab : list byte := Eval vm_compute in
  NUL :: concat ((fun s => bytes_of s ++ [NUL]) <$>
    [".strtab"; "xdp_sock"; ".relxdp_sock"; "maps"; "license"; ".symtab";
     "xdp_sock_prog"; "uid_timestamps"; "pkt_payload"; "xdp_stats_map"]%string).

Definition demo_insns : list bpf_insn :=
  [mk_insn 24 1 0 0 0; mk_insn 0 0 0 0 0; mk_insn 24 2 0 0 0; mk_insn 0 0 0 0 0; mk_insn 149 0 0 0 0].
Definition demo_defs : list bpf_map_def :=
  [mk_def 2 4 8 65536 0; mk_def 2 4 1064 65536 0; mk_def 6 4 16 5 0].
(** Program and maps are global symbols; the maps lie behind each other. *)
Definition demo_syms : list elf_sym :=
  [mk_sym 0 0 0 0; mk_sym 52 0x12 2 0; mk_sym 66 0x11 4 0; mk_sym 81 0x11 4 20; mk_sym 93 0x11 4 40].
(** The first load is of the map of payloads, the second of the counters. *)
Definition demo_rels : list elf_rel :=
  [mk_rel 0 (Z.shiftl 3 32 + 1); mk_rel 16 (Z.shiftl 4 32 + 1)].

Definition demo_shdr (name type flags link info entsize : Z) (bs : list byte) : elf_scn :=
  mk_scn (Some (mk_shdr name type flags (zlen bs) link info entsize)) (Some (full bs)).
Definition demo_scns : list elf_scn := Eval vm_compute in
  [demo_shdr 0 0 0 0 0 0 [];
   demo_shdr 1 3 0 0 0 0 demo_strtab;
   demo_shdr 9 1 6 0 0 0 (concat (enc_insn <$> demo_insns));
   demo_shdr 18 9 0 6 2 16 (concat (enc_rel <$> demo_rels));
   demo_shdr 31 1 3 0 0 0 (concat (enc_map_def <$> demo_defs));
   demo_shdr 36 1 3 0 0 0 (bytes_of "GPL" ++ [NUL]);
   demo_shdr 44 2 0 1 1 24 (concat (enc_sym <$> demo_syms))].
Definition demo_elf : elf :=
  mk_elf (Some (mk_ehdr 1 247 1 1)) demo_scns
    (fun sec off => if sec =? 1 then match c_string (drop (Z.to_nat off) demo_strtab) with Ok s => Some s | Err _ => None end else None)
    (fun sec => sec =? 1).

(** * The system *)

Definition demo_file : string := "ebpf_measure_kern.o".

#[export] Instance demo_elf_sys : ElfSys demo := {|
  elf_version _ := true;
  sys_open d path :=
    if String.eqb path demo_file then add_fd d else (RErr ENOENT, d);
  elf_begin d fd := (Some demo_elf, d);
  elf_memory d _ := (Some demo_elf, d);
  sys_uname _ := bytes_of "5.5.0";
  sys_addr _ := 4096;
  sys_junk_reloc _ j := mk_reloc RELO_JUNK 0 j;
  sys_access _ _ := false;
  sys_stat _ _ := RErr ENOENT;
  sys_fopen d _ := (RErr ENOENT, d);
  sys_fread d _ _ := ([], d)
|}.
#[export] Instance demo_elf_laws : ElfSysLaws demo.
Proof.
  split; try reflexivity.
  - intros k p. cbn. destruct (String.eqb p demo_file); [apply add_fd_gives|]. split; reflexivity.
  - intros k p. split; reflexivity.
  - intros k fd n. apply Z.le_max_l.
Qed.

Definition demo_opens : res (open_ret * demo) := bpf_object__open_xattr demo_start (Some demo_file) 6.

(** The theorems about opening: whatever a file holds, opening it leaves
    nothing open but what the object owns; a plain file opens to the object
    it describes; and what loading and attaching do to such a file. *)

(** * Any file *)

(** C8: [__bpf_object__open], from a file or a buffer, with any options and
    any content, memory and system calls failing anywhere. If it returns an
    object, that is not loaded, no map and no program has a descriptor, each
    relocation entry names an instruction of its program and a map, or is
    one the code never filled in and holds what the memory held, and the
    only descriptor that stays open is that of the object's BTF. If it
    returns an error, every descriptor is closed again, except for that of a
    file libelf refused, which the code forgets. It never returns NULL. *)
Theorem open_any_file {K} `{LS : BpfSysLaws K} `{!BtfSys K} `{BLS : !BtfSysLaws K} `{!ElfSys K}
    `{ELS : !ElfSysLaws K} `{Libelf} `{Qsort} (k : K) path buf opts r k' :
  __bpf_object__open k path buf opts = Ok (r, k') ->
  match r with
  | OpenOk o => just_opened (K := K) o /\ owns (open_fds k) k' (btf_fds o)
  | OpenErr _ => open_fds k' = open_fds k \/
      exists file fd, (fd ∉ open_fds k) /\ refused (K := K) file fd /\ open_fds k' = {[ fd ]} ∪ open_fds k
  | OpenNull => False
  end.
Proof.
  unfold __bpf_object__open. destruct (negb (elf_version k)); [intros [= <- <-]; left; reflexivity|].
  intros Hx. apply bind_Ok_inv in Hx as (valid & _ & Hx).
  destruct (negb valid); [injection Hx as <- <-; left; reflexivity|].
  assert (forall p b n, open_new k p b n opts = Ok (r, k') -> open_outcome p k r k' /\ r <> OpenNull) as Hgo.
  { intros p b n Hn. split; [exact (open_new_outcome _ _ _ _ _ _ _ Hn)|]. apply (open_new_not_null _ _ _ _ _ _ _ Hn). }
  destruct buf as [b|]; [|apply bind_Ok_inv in Hx as (p & _ & Hx)];
    apply Hgo in Hx as [Hx Hr]; destruct r as [|err|o]; try contradiction; try exact Hx;
    (destruct Hx as [Hx|(fd & ? & ? & ?)]; [left; exact Hx | right; do 2 eexists; eauto]).
Qed.

Lemma open_any_file_witness :
  exists o k', __bpf_object__open demo_start (Some demo_file) None None = Ok (OpenOk o, k') /\
    just_opened (K := demo) o /\ owns (open_fds demo_start) k' (btf_fds o).
Proof.
  destruct (__bpf_object__open demo_start (Some demo_file) None None) as [[r k']|fl] eqn:E;
    [|exfalso; vm_compute in E; discriminate].
  pose proof (open_any_file demo_start (Some demo_file) None None r k' E) as Hr.
  destruct r as [|err|o]; [contradiction|exfalso; vm_compute in E; discriminate|exists o, k'; auto].
Defined.

(** * Plain files *)

(** C7: opening a plain file that is there, memory sufficing, always
    succeeds, without a fault, and gives the object the file describes: its
    license, its version, its maps from the symbols of the section "maps",
    sorted by their place, and for each section of code a program with the
    instructions, the name of its first global symbol, the type its section
    name stands for and every relocation resolved to the called instruction
    or to the map that lies at the symbol's place. *)
Theorem open_plain_file {K} `{BpfSysLaws K} `{!BtfSys K} `{!ElfSys K} `{Libelf} `{Qsort}
    path e secs ep sy (k : K) type :
  on_disk (K := K) path e -> plain e secs ep sy -> btf_fine K e (s_data sy) (btf_secs_of e secs) ->
  exists o k', bpf_object__open_xattr k (Some path) type = Ok (OpenOk o, k') /\ opens_to e secs sy o.
Proof. intros Hd Hp Hb. apply (open_plain path e secs ep sy Hd Hp Hb). Qed.

(** * Opened files are fit for loading *)

Section fresh.
Context {K : Type} `{LS : BpfSysLaws K} `{!BtfSys K} `{BLS : !BtfSysLaws K} `{!ElfSys K}
  `{ELS : !ElfSysLaws K} `{Libelf} `{Qsort}.
Context (path : string) (e : elf) (secs : list section) (ep : elf_ehdr) (sy : section).
Context (Hdisk : on_disk (K := K) path e) (Hp : plain e secs ep sy).
Context (Hbtf : btf_fine K e (s_data sy) (btf_secs_of e secs)).

Lemma resolves_ok st text mi insns ms rl d :
  resolves st text mi insns ms rl d -> reloc_ok (zlen ms) (zlen insns) d.
Proof.
  intros [r i insn sym (_ & Hoff & -> & Hi) _ _|r i insn sym j m (_ & Hoff & -> & Hi) _ _ Hj Hj0 _ _];
    unfold reloc_ok; cbn; change sizeof_insn with 8 in *; apply lookup_lt_Some in Hi; unfold zlen.
  - split; [intros _; lia | lia].
  - apply lookup_lt_Some in Hj. split; [intros _; lia | lia].
Qed.

Lemma opened_prog_ok ms s p :
  prog_opened e secs sy ms s p -> idle_prog p -> prog_ok (zlen ms) p.
Proof.
  intros [_ _ Hins _ _ Hrel] [_ Hlog (F1 & F2 & F3) (L1 & L2 & L3) [insns Hi]]. split.
  - lia.
  - rewrite F1, F2, F3. repeat split; discriminate.
  - rewrite L1, L2, L3. repeat split; discriminate.
  - congruence.
  - destruct (rels_for e secs s) as [|r l]; [rewrite Hrel; constructor|].
    destruct Hrel as (ds & -> & Hds). cbn [default].
    assert (insns_len p = zlen (default [] (p_insns p))) as Hlen by (unfold insns_len; rewrite Hi; reflexivity).
    rewrite Hlen. apply Forall_forall. intros d (j & Hj)%list_elem_of_lookup.
    destruct (Forall2_lookup_r _ _ _ _ _ Hds Hj) as (rel & _ & rl & _ & Hres).
    exact (resolves_ok _ _ _ _ _ _ _ Hres).
Qed.

Lemma opened_fresh o : just_opened (K := K) o -> opens_to e secs sy o -> fresh_obj o.
Proof.
  intros [Hnew Hm Hps Hb] [_ _ _ _ _ (ms & Hms & Hperm & _ & Hall)].
  assert (zlen (maps o) = zlen ms) as Hz by (rewrite Hms; unfold zlen; rewrite length_fmap; reflexivity).
  assert (Forall (fun m => pin_path m = None) (maps o)) as Hpin.
  { rewrite Hms. apply Forall_fmap. rewrite Hperm. unfold elf_maps.
    destruct (maps_sec e secs); [|constructor]. unfold maps_of. apply Forall_fmap, Forall_forall. reflexivity. }
  split; [split|..].
  - exact Hnew.
  - unfold obj_ok. rewrite Hz. apply Forall_forall. intros p (j & Hj)%list_elem_of_lookup.
    destruct (Forall2_lookup_r _ _ _ _ _ Hall Hj) as (s & _ & Hsp).
    apply (opened_prog_ok ms s p Hsp). rewrite Forall_forall in Hps. apply Hps, list_elem_of_lookup. eauto.
  - exact Hpin.
  - eapply Forall_impl; [exact Hps|]. intros p [[Hi _ _ _ _] _]. exact Hi.
  - eapply Forall_impl; [exact Hm|]. intros m [Hfd _]. exact Hfd.
  - exact Hb.
  - split.
    + rewrite Hz. unfold zlen. rewrite (Permutation_length Hperm).
      pose proof (few_maps e secs ep sy Hp) as Hf. unfold opened_maps, zlen in Hf.
      rewrite (Permutation_length (qsort_perm _ _)) in Hf. lia.
    + unfold zlen. rewrite <- (Forall2_length _ _ _ Hall).
      pose proof (length_filter (fun s => kind_of e s = KProg) secs) as Hf.
      pose proof (pl_few _ _ _ _ Hp) as Hp2. unfold of_kind, zlen, SHN_LORESERVE in *. lia.
Qed.

(** What the loaders rely on. *)
Definition open_file_xattr (k : K) (file : string) (type : Z) : res (open_ret * K) :=
  bpf_object__open_xattr k (Some file) type.

Lemma plain_open_ok (k : K) : open_ok open_file_xattr k path.
Proof.
  intros t. destruct (open_plain path e secs ep sy Hdisk Hp Hbtf k t) as (o & k' & Hx & Ho).
  exists (OpenOk o), k'. split; [exact Hx|]. cbn.
  pose proof (open_xattr_outcome k path t _ _ Hx) as [Hj Hown]. split; [exact (opened_fresh o Hj Ho) | exact Hown].
Qed.
End fresh.

(** C9: from the file on disk to the attached program: for a plain object
    file [load_bpf_and_xdp_attach], with the library's own opening, either
    fails with [EXIT_FAIL_BPF] and leaves nothing open, or loads the object
    and attaches the program whose section was asked for, with the failures
    and states [load_attach_outcome] lists. *)
Theorem load_attach_file {K} `{LS : BpfSysLaws K} `{!BtfSys K} `{BLS : !BtfSysLaws K} `{!ElfSys K}
    `{ELS : !ElfSysLaws K} `{XLS : XdpDeviceLaws K} `{Libelf} `{Qsort}
    e secs ep sy find_btf ops (k : K) cfg file title :
  on_disk (K := K) (string_of file) e -> plain e secs ep sy ->
  btf_fine K e (s_data sy) (btf_secs_of e secs) ->
  ops_ok ops -> Params.reuse_maps cfg = false ->
  c_string (filename cfg) = Ok file -> c_string (progsec cfg) = Ok title -> plain_flags (xdp_flags cfg) ->
  exists ro k1, load_bpf_object_file open_file_xattr find_btf ops k (string_of file)
                  (offload_ifindex cfg) = Ok (ro, k1) /\
    load_attach_outcome open_file_xattr find_btf ops k cfg title ro k1.
Proof.
  intros Hd Hp Hb. apply load_attach_spec. exact (plain_open_ok _ e secs ep sy Hd Hp Hb k).
Qed.

(** * The file of the experiment *)

Definition demo_ep : elf_ehdr := mk_ehdr 1 247 1 1.
Definition demo_secs : list section := Eval vm_compute in
  default [] (mapM (view demo_elf 1) (elf_nextscns demo_elf)).
Definition demo_sec (i : nat) : section :=
  default (mk_sec 0 (mk_shdr 0 0 0 0 0 0 0) [] (mk_data None 0)) (demo_secs !! i).

Lemma demo_kinds :
  (of_kind demo_elf KLicense demo_secs = [demo_sec 4] /\ of_kind demo_elf KVersion demo_secs = [] /\
   of_kind demo_elf KMaps demo_secs = [demo_sec 3] /\ of_kind demo_elf KSymtab demo_secs = [demo_sec 5]) /\
  of_kind demo_elf KProg demo_secs = [demo_sec 1] /\ of_kind demo_elf KRel demo_secs = [demo_sec 2] /\
  of_kind demo_elf KBtf demo_secs = [] /\ of_kind demo_elf KBtfExt demo_secs = [].
Proof. repeat split; vm_compute; reflexivity. Qed.

Lemma demo_readable i : (i < 6)%nat -> readable (s_data (demo_sec i)).
Proof.
  intros Hi. do 6 (destruct i as [|i]; [split; [vm_compute; discriminate|right; eexists; split; vm_compute; reflexivity]|]).
  lia.
Qed.

Lemma demo_on_disk : on_disk (K := demo) demo_file demo_elf.
Proof. split; try reflexivity. intros k. eexists _, _. split; reflexivity. Qed.
Lemma demo_btf_fine : btf_fine demo demo_elf (s_data (demo_sec 5)) (btf_secs_of demo_elf demo_secs).
Proof.
  unfold btf_secs_of. destruct demo_kinds as (_ & _ & _ & -> & ->). split; discriminate.
Qed.

Lemma demo_maps_sound m :
  maps_sec demo_elf demo_secs = Some m ->
  maps_sound demo_elf 1 m (symbols_of (s_data (demo_sec 5))).
Proof.
  unfold maps_sec. destruct demo_kinds as [(_ & _ & -> & _) _]. intros [= <-]. split.
  - vm_compute. discriminate.
  - apply demo_readable. lia.
  - vm_compute. auto.
  - reflexivity.
  - apply (bool_decide_unpack _). vm_compute. exact I.
  - apply (bool_decide_unpack _). vm_compute. exact I.
  - apply (bool_decide_unpack _). vm_compute. exact I.
Qed.
Lemma demo_rels_sound :
  rels_sound (s_data (demo_sec 5)) 0 4 (elf_maps demo_elf demo_secs (demo_sec 5)) (demo_sec 1) (demo_sec 2).
Proof.
  split; [reflexivity|vm_compute; split; [discriminate|reflexivity]|].
  assert (rels_of (demo_sec 2) = [Some (mk_rel 0 (Z.shiftl 3 32 + 1)); Some (mk_rel 16 (Z.shiftl 4 32 + 1))])
    as -> by (vm_compute; reflexivity).
  repeat constructor; eexists _, _; (split; [reflexivity|]).
  - eapply (resolves_map _ _ _ _ _ _ 0 _ _ 1); [repeat split|..]; vm_compute; reflexivity || discriminate.
  - eapply (resolves_map _ _ _ _ _ _ 2 _ _ 2); [repeat split|..]; vm_compute; reflexivity || discriminate.
Qed.

Lemma demo_plain : plain demo_elf demo_secs demo_ep (demo_sec 5).
Proof.
  destruct demo_kinds as [(Kl & Kv & Km & Ks) (Kp & Kr & _)]. split.
  - reflexivity.
  - repeat split. right. reflexivity.
  - reflexivity.
  - vm_compute. reflexivity.
  - vm_compute. reflexivity.
  - apply (bool_decide_unpack _). vm_compute. exact I.
  - exact Ks.
  - vm_compute. split; [reflexivity | discriminate].
  - vm_compute. split; [discriminate | reflexivity].
  - rewrite Kl. split; [vm_compute; discriminate|].
    constructor; [|constructor]. apply demo_readable. lia.
  - rewrite Kv. constructor.
  - rewrite Kp. constructor; [|constructor]. split; [apply demo_readable; lia | vm_compute; reflexivity].
  - rewrite Kp. constructor; [|constructor]. eexists. vm_compute. reflexivity.
  - rewrite Kp. constructor; [|constructor]. vm_compute. discriminate.
  - exact demo_maps_sound.
  - rewrite Kr. constructor; [|constructor]. exists (demo_sec 1). rewrite Kp. split; [set_solver | reflexivity].
  - intros s. rewrite Kp. intros [->|[]%not_elem_of_nil]%elem_of_cons. unfold rels_for. rewrite Kr.
    rewrite filter_cons, decide_True by reflexivity. split; [vm_compute; discriminate|].
    constructor; [|constructor]. unfold maps_idx, maps_sec. rewrite Km. exact demo_rels_sound.
Qed.

Lemma open_plain_file_witness :
  exists o k', bpf_object__open_xattr demo_start (Some demo_file) 6 = Ok (OpenOk o, k') /\
    opens_to demo_elf demo_secs (demo_sec 5) o /\
    (m_name <$> maps o) = ["uid_timestamps"; "pkt_payload"; "xdp_stats_map"]%string.
Proof.
  destruct (open_plain_file demo_file demo_elf demo_secs demo_ep (demo_sec 5) demo_start 6
    demo_on_disk demo_plain demo_btf_fine) as (o & k' & Hx & Ho).
  exists o, k'. split; [exact Hx|]. split; [exact Ho|]. vm_compute in Hx. injection Hx as <- _. reflexivity.
Defined.

(** The program of the file is attached. *)
Definition demo_attach_file : res (outcome (bpf_object * config) * demo) :=
  load_bpf_and_xdp_attach open_file_xattr no_btf no_core demo_start demo_cfg.

Lemma load_attach_file_witness :
  exists ro k1, load_bpf_object_file open_file_xattr no_btf no_core demo_start
      (string_of (bytes_of "ebpf_measure_kern.o")) (offload_ifindex demo_cfg) = Ok (ro, k1) /\
    load_attach_outcome open_file_xattr no_btf no_core demo_start demo_cfg (bytes_of "xdp_sock") ro k1 /\
    match demo_attach_file with Ok (Returns _ _, k) => is_Some (devs k !! 3) | _ => False end.
Proof.
  destruct (load_attach_file demo_elf demo_secs demo_ep (demo_sec 5) no_btf no_core demo_start demo_cfg
    (bytes_of "ebpf_measure_kern.o") (bytes_of "xdp_sock") demo_on_disk demo_plain demo_btf_fine no_core_ok)
    as (ro & k1 & Hl & Ho); [vm_compute; reflexivity..|split; [left|]; reflexivity|].
  exists ro, k1. split; [exact Hl|]. split; [exact Ho|]. vm_compute. eexists. reflexivity.
Defined.
