(* ===== verification/PerfRing.v ===== *)
(** Reading the events of a perf ring
    ([src/eBPF_app/libbpf/src/libbpf.c], [bpf_perf_event_read_simple] and
    [perf_buffer__process_record]): the kernel writes records of bytes
    behind a head, the program reads them from a tail. The theorem: over
    any run of the kernel and the program the ring is a bounded FIFO queue
    of records, whatever the 64-bit counters have wrapped to and wherever
    the ring wraps inside a record. *)
From S2P Require Import Prelude CLib XskRing XskRingProps.
#[local] Open Scope Z_scope.

(** * The code *)

Definition LIBBPF_PERF_EVENT_DONE : Z := 0.
Definition LIBBPF_PERF_EVENT_ERROR : Z := -1.
Definition LIBBPF_PERF_EVENT_CONT : Z := -2.

Definition PERF_RECORD_LOST : Z := 2.
Definition PERF_RECORD_SAMPLE : Z := 9.

(** The shared pages: the two counters of [struct perf_event_mmap_page], and
    the bytes from [base] on. *)
Record perf_mmap := mk_pm { data_head : Z; data_tail : Z; pm_data : list byte }.

(** [*copy_mem] and [*copy_size]. *)
Record copy_buf := mk_copy { copy_mem : option (list byte); copy_size : Z }.

(** A callback gets a pointer, as a block and a place in it. *)
Definition event_fn (S : Type) : Type := list byte -> Z -> S -> res (Z * S).

Section read.
(** [S] is what the callback works on. Within a call the blocks asked for
    grow, so an answer for each size is an answer for each call of
    [malloc]; [junk] is what a fresh block holds. *)
Context {S : Type} (malloc_ok : Z -> bool) (junk : byte).

(** The record at [off], whose end is the beginning of the ring, in one
    piece: the copy, or nothing if there is no memory for it. *)
Definition copy_record (data : list byte) (mmap_size off ehdr_size : Z) (c : copy_buf)
    : res (option (list byte * Z) * copy_buf) :=
  let len_first := mmap_size - off in
  let len_secnd := ehdr_size - len_first in
  let c := if copy_size c <? ehdr_size then
             if malloc_ok ehdr_size then mk_copy (Some (replicate (Z.to_nat ehdr_size) junk)) ehdr_size
             else mk_copy None 0
           else c in
  if copy_size c <? ehdr_size then Ok (None, c) else
  blk ← or_fault NullDeref (copy_mem c);
  first ← mread data off len_first;
  blk ← mwrite blk 0 first;
  secnd ← mread data 0 len_secnd;
  blk ← mwrite blk len_first secnd;
  Ok (Some (blk, 0), mk_copy (Some blk) (copy_size c)).

(** The loop: the last result, the tail, the copy and the callback's state. *)
Fixpoint read_loop (fuel : nat) (data : list byte) (mmap_size data_head : Z) (fn : event_fn S)
    (ret data_tail : Z) (c : copy_buf) (s : S) : res (Z * Z * copy_buf * S) :=
  if data_head =? data_tail then Ok (ret, data_tail, c, s) else
  match fuel with
  | O => Err OutOfFuel
  | Datatypes.S fuel =>
      let off := Z.land data_tail (u64 (mmap_size - 1)) in
      ehdr_size ← load16 data (off + 6);
      '(ehdr, c) ←
        (if mmap_size <? off + ehdr_size then copy_record data mmap_size off ehdr_size c
         else Ok (Some (data, off), c));
      match ehdr with
      | None => Ok (LIBBPF_PERF_EVENT_ERROR, data_tail, c, s)
      | Some (blk, at_) =>
          '(ret, s) ← fn blk at_ s;
          let data_tail := u64 (data_tail + ehdr_size) in
          if negb (ret =? LIBBPF_PERF_EVENT_CONT) then Ok (ret, data_tail, c, s)
          else read_loop fuel data mmap_size data_head fn ret data_tail c s
      end
  end.

(** A record has at least its header, so so many rounds are enough. *)
Definition ring_fuel (mmap_size : Z) : nat := Z.to_nat (mmap_size / 8).

Definition bpf_perf_event_read_simple (m : perf_mmap) (mmap_size : Z) (c : copy_buf)
    (fn : event_fn S) (private_data : S) : res (Z * perf_mmap * copy_buf * S) :=
  '(ret, tail, c, s) ← read_loop (ring_fuel mmap_size) (pm_data m) mmap_size (data_head m) fn
                         LIBBPF_PERF_EVENT_CONT (data_tail m) c private_data;
  Ok (ret, mk_pm (data_head m) tail (pm_data m), c, s).

(** The callbacks of a [struct perf_buffer]; they get the CPU, and a pointer
    to the event, or to the sample's data with its size, or the number of
    lost events. *)
Record perf_cbs := mk_cbs {
  event_cb : option (Z -> event_fn S);
  sample_cb : option (Z -> list byte -> Z -> Z -> S -> res S);
  lost_cb : option (Z -> Z -> S -> res S)
}.

Definition perf_buffer__process_record (pb : perf_cbs) (cpu : Z) : event_fn S := fun e at_ s =>
  match event_cb pb with
  | Some event_cb => event_cb cpu e at_ s
  | None =>
      type ← load32 e at_;
      if type =? PERF_RECORD_SAMPLE then
        match sample_cb pb with
        | None => Ok (LIBBPF_PERF_EVENT_CONT, s)
        | Some sample_cb =>
            size ← load32 e (at_ + 8);
            s ← sample_cb cpu e (at_ + 12) size s;
            Ok (LIBBPF_PERF_EVENT_CONT, s)
        end
      else if type =? PERF_RECORD_LOST then
        match lost_cb pb with
        | None => Ok (LIBBPF_PERF_EVENT_CONT, s)
        | Some lost_cb =>
            lost ← load64 e (at_ + 16);
            s ← lost_cb cpu lost s;
            Ok (LIBBPF_PERF_EVENT_CONT, s)
        end
      else Ok (LIBBPF_PERF_EVENT_ERROR, s)
  end.

(** What belongs to one CPU: its number, its ring and its copy. *)
Record cpu_ring := mk_cpu { r_cpu : Z; r_mmap : perf_mmap; r_copy : copy_buf }.

Definition perf_buffer__process_records (pb : perf_cbs) (mmap_size : Z) (r : cpu_ring) (s : S)
    : res (Z * cpu_ring * S) :=
  '(ret, m, c, s) ← bpf_perf_event_read_simple (r_mmap r) mmap_size (r_copy r)
                      (perf_buffer__process_record pb (r_cpu r)) s;
  let r := mk_cpu (r_cpu r) m c in
  if negb (ret =? LIBBPF_PERF_EVENT_CONT) then Ok (ret, r, s) else Ok (0, r, s).

(** [perf_buffer__poll] after [epoll_wait], which gave the places of the
    rings that have events. *)
Fixpoint poll_loop (pb : perf_cbs) (mmap_size : Z) (ready : list Z) (rs : list cpu_ring) (s : S)
    : res (Z * list cpu_ring * S) :=
  match ready with
  | [] => Ok (0, rs, s)
  | i :: ready =>
      r ← aget rs i;
      '(err, r, s) ← perf_buffer__process_records pb mmap_size r s;
      rs ← aset rs i r;
      if negb (err =? 0) then Ok (err, rs, s) else poll_loop pb mmap_size ready rs s
  end.

Definition perf_buffer__poll (pb : perf_cbs) (mmap_size : Z) (wait : Z + list Z)
    (rs : list cpu_ring) (s : S) : res (Z * list cpu_ring * S) :=
  match wait with
  | inl errno => Ok (- errno, rs, s)
  | inr ready =>
      '(err, rs, s) ← poll_loop pb mmap_size ready rs s;
      Ok (if negb (err =? 0) then err else zlen ready, rs, s)
  end.
End read.

(** * The kernel's side, and the queue *)

(** The kernel puts a record behind the head if there is room for it. *)
Fixpoint put (data : list byte) (at_ : Z) (bs : list byte) : list byte :=
  match bs with
  | [] => data
  | b :: bs => put (<[ Z.to_nat (at_ mod zlen data) := b ]> data) (at_ + 1) bs
  end.
Definition output (m : perf_mmap) (r : list byte) : perf_mmap :=
  if u64 (data_head m - data_tail m) + zlen r <=? zlen (pm_data m)
  then mk_pm (u64 (data_head m + zlen r)) (data_tail m) (put (pm_data m) (data_head m) r) else m.

(** A record: of whole words, and its header says how long it is. *)
Definition rec_ok (r : list byte) : Prop :=
  8 <= zlen r < 2 ^ 16 /\ (8 | zlen r) /\ mread r 6 2 = Ok (le_bytes 2 (zlen r)).

(** What a read may do with the records [q] that are there: hand them over
    one by one, until the handler stops it or a copy cannot be had. *)
Inductive drains {S} (malloc_ok : Z -> bool) (g : list byte -> S -> Z * S)
    : list (list byte) -> S -> Z -> list (list byte) -> S -> Prop :=
| d_empty s : drains malloc_ok g [] s LIBBPF_PERF_EVENT_CONT [] s
| d_nomem r q s :
    malloc_ok (zlen r) = false -> drains malloc_ok g (r :: q) s LIBBPF_PERF_EVENT_ERROR (r :: q) s
| d_stop r q s ret s' :
    g r s = (ret, s') -> ret <> LIBBPF_PERF_EVENT_CONT -> drains malloc_ok g (r :: q) s ret q s'
| d_next r q s s' ret q' s'' :
    g r s = (LIBBPF_PERF_EVENT_CONT, s') -> drains malloc_ok g q s' ret q' s'' ->
    drains malloc_ok g (r :: q) s ret q' s''.

(** The callback [fn] does [g] on the records in [P]: it looks at nothing
    but the record. *)
Definition handles {S} (P : list byte -> Prop) (fn : event_fn S) (g : list byte -> S -> Z * S) : Prop :=
  forall blk at_ r s, P r -> mread blk at_ (zlen r) = Ok r -> fn blk at_ s = Ok (g r s).

Definition copy_ok (c : copy_buf) : Prop :=
  match copy_mem c with Some b => zlen b = copy_size c | None => copy_size c = 0 end.

(** [T] bytes have been read since the start; the ring has the records [q]. *)
Record stores (k : Z) (m : perf_mmap) (q : list (list byte)) (T : Z) : Prop := {
  st_k : 3 <= k <= 63;
  st_len : zlen (pm_data m) = 2 ^ k;
  st_tail : data_tail m = u64 T;
  st_head : data_head m = u64 (T + zlen (concat q));
  st_words : (8 | T);
  st_room : zlen (concat q) <= 2 ^ k;
  st_data : holds (pm_data m) T (Some <$> concat q);
  st_recs : Forall rec_ok q
}.

(** * Reading the ring *)

Lemma u64_mod_pow x k : 0 <= k <= 64 -> u64 x mod 2 ^ k = x mod 2 ^ k.
Proof.
  intros Hk. unfold u64. apply Z.mod_mod_divide.
  exists (2 ^ (64 - k)). rewrite <- Z.pow_add_r by lia. f_equal. lia.
Qed.
Lemma u64_add_l x y : u64 (u64 x + y) = u64 (x + y).
Proof. unfold u64. apply Zplus_mod_idemp_l. Qed.
Lemma u64_diff x y : 0 <= x - y < 2 ^ 64 -> u64 (u64 x - u64 y) = x - y.
Proof. intros Hd. unfold u64. rewrite <- Zminus_mod. apply Z.mod_small; exact Hd. Qed.

(** A stretch that does not wrap is read as it is. *)
Lemma holds_mread data T bs a n :
  holds data T (Some <$> bs) -> 0 <= a -> 0 <= n -> a + n <= zlen bs ->
  0 < zlen data -> (T + a) mod zlen data + n <= zlen data ->
  mread data ((T + a) mod zlen data) n = Ok (take (Z.to_nat n) (drop (Z.to_nat a) bs)).
Proof.
  intros Hh Ha Hn Hb Hpos Hfit. set (o := (T + a) mod zlen data) in *.
  assert (0 <= o) by (apply Z.mod_pos_bound; exact Hpos).
  rewrite mread_Ok by blia. f_equal. apply list_eq. intros i.
  destruct (decide (Z.of_nat i < n)) as [Hi|Hi];
    [|rewrite !lookup_take_ge by lia; reflexivity].
  rewrite !lookup_take_lt, !lookup_drop by lia. unfold zlen in *.
  destruct (lookup_lt_is_Some_2 bs (Z.to_nat a + i)%nat) as [x Hx]; [lia|].
  rewrite Hx, <- (Hh (Z.to_nat a + i)%nat x); [|rewrite list_lookup_fmap, Hx; reflexivity].
  f_equal. unfold zlen. rewrite Nat2Z.inj_add, Z2Nat.id, Z.add_assoc, <- Zplus_mod_idemp_l by lia.
  fold o. rewrite (Z.mod_small (o + Z.of_nat i)) by lia. lia.
Qed.

Lemma pow_words k : 3 <= k -> (8 | 2 ^ k).
Proof. intros Hk. exists (2 ^ (k - 3)). change 8 with (2 ^ 3). rewrite <- Z.pow_add_r by lia. f_equal. lia. Qed.

Lemma mod_words T N : (8 | T) -> (8 | N) -> 0 < N -> (8 | T mod N) /\ T mod N + 8 <= N.
Proof.
  intros [a ->] [b ->] Hb. rewrite Zmult_mod_distr_r. pose proof (Z.mod_pos_bound a b ltac:(lia)).
  split; [apply Z.divide_factor_r | lia].
Qed.

Section first.
Context (k T : Z) (m : perf_mmap) (r : list byte) (q : list (list byte)).
Context (Hst : stores k m (r :: q) T).
Abbreviation N := (2 ^ k).
Abbreviation off := (T mod N).

Lemma ring_pos : 0 < N.
Proof. destruct Hst. apply Z.pow_pos_nonneg; lia. Qed.
Lemma off_fits : (8 | off) /\ 0 <= off /\ off + 8 <= N.
Proof.
  pose proof ring_pos. destruct Hst. pose proof (Z.mod_pos_bound T N ltac:(lia)).
  destruct (mod_words T N) as [? ?]; [assumption | apply pow_words; lia | lia |]. tauto.
Qed.

Lemma ring_offset : Z.land (u64 T) (u64 (N - 1)) = off.
Proof.
  pose proof ring_pos. destruct Hst. pose proof (Z.pow_le_mono_r 2 k 63 ltac:(lia) ltac:(lia)).
  rewrite (u64_small (N - 1)), land_mask, u64_mod_pow by lia. reflexivity.
Qed.

Lemma first_ok : rec_ok r /\ zlen r <= N /\ zlen (concat (r :: q)) = zlen r + zlen (concat q).
Proof.
  destruct Hst as [_ _ _ _ _ Hroom _ Hrecs]. apply Forall_cons in Hrecs as [Hr _].
  cbn in *. rewrite zlen_app in *. pose proof (zlen_nonneg (concat q)). split; [exact Hr|lia].
Qed.

(** A stretch of the first record. *)
Lemma first_stretch a n :
  0 <= a -> 0 <= n -> a + n <= zlen r -> (T + a) mod N + n <= N ->
  mread (pm_data m) ((T + a) mod N) n = Ok (take (Z.to_nat n) (drop (Z.to_nat a) r)).
Proof.
  intros Ha Hn Hb Hfit. pose proof ring_pos. destruct first_ok as (_ & _ & Hlen).
  pose proof (zlen_nonneg (concat q)). destruct Hst as [_ Hd _ _ _ _ Hdata _]. rewrite <- Hd in *.
  rewrite (holds_mread _ _ _ a n Hdata) by lia. cbn. f_equal.
  rewrite drop_app_le, take_app_le; [reflexivity| |]; unfold zlen in *; rewrite ?length_drop; lia.
Qed.

Lemma first_size : load16 (pm_data m) (off + 6) = Ok (zlen r).
Proof.
  destruct off_fits as (Hw & Ho & Hf). destruct first_ok as ((Hr & _ & Hsize) & _ & _).
  apply mread_load16; [|lia]. rewrite <- Hsize.
  replace (off + 6) with ((T + 6) mod N).
  - rewrite first_stretch; [|lia|lia|lia|].
    + rewrite mread_Ok by blia. reflexivity.
    + rewrite <- Zplus_mod_idemp_l, Z.mod_small; lia.
  - rewrite <- Zplus_mod_idemp_l, Z.mod_small; lia.
Qed.

Lemma first_whole : off + zlen r <= N -> mread (pm_data m) off (zlen r) = Ok r.
Proof.
  intros Hf. pose proof (zlen_nonneg r). pose proof (first_stretch 0 (zlen r)) as Hs.
  rewrite Z.add_0_r in Hs. rewrite Hs by lia. f_equal. rewrite drop_0. apply take_ge. unfold zlen. lia.
Qed.

Lemma first_parts :
  N < off + zlen r ->
  mread (pm_data m) off (N - off) = Ok (take (Z.to_nat (N - off)) r) /\
  mread (pm_data m) 0 (zlen r - (N - off)) = Ok (drop (Z.to_nat (N - off)) r).
Proof.
  intros Hf. destruct off_fits as (_ & Ho & Hf'). destruct first_ok as (_ & Hr & _). split.
  - pose proof (first_stretch 0 (N - off)) as Hs. rewrite Z.add_0_r in Hs. apply Hs; lia.
  - assert ((T + (N - off)) mod N = 0) as Hz.
    { rewrite <- Zplus_mod_idemp_l, Z.add_comm, Z.sub_add. apply Z.mod_same. lia. }
    pose proof (first_stretch (N - off) (zlen r - (N - off))) as Hs. rewrite Hz in Hs.
    rewrite Hs by lia. f_equal. apply take_ge. unfold zlen in *. rewrite length_drop. lia.
Qed.

(** What is left when the record is taken. *)
Lemma stores_rest : stores k (mk_pm (data_head m) (u64 (data_tail m + zlen r)) (pm_data m)) q (T + zlen r).
Proof.
  destruct first_ok as ((Hr & Hw & _) & _ & Hlen). destruct Hst. split; cbn [data_head data_tail pm_data]; try assumption.
  - rewrite st_tail0. apply u64_add_l.
  - rewrite st_head0, Hlen. f_equal. lia.
  - apply Z.divide_add_r; assumption.
  - lia.
  - cbn in st_data0. rewrite fmap_app in st_data0.
    apply (holds_drop _ _ _ (length r)) in st_data0.
    rewrite drop_app_length' in st_data0 by (rewrite length_fmap; reflexivity). exact st_data0.
  - apply Forall_cons in st_recs0. tauto.
Qed.
End first.

(** The copy puts the parts together. *)
Lemma copy_parts (blk r : list byte) (n : Z) :
  0 <= n <= zlen r -> zlen r <= zlen blk ->
  exists blk1 blk2, mwrite blk 0 (take (Z.to_nat n) r) = Ok blk1 /\
    mwrite blk1 n (drop (Z.to_nat n) r) = Ok blk2 /\ zlen blk2 = zlen blk /\
    mread blk2 0 (zlen r) = Ok r.
Proof.
  intros Hn Hb. assert (zlen (take (Z.to_nat n) r) = n) as Ht
    by (unfold zlen in *; rewrite length_take; lia).
  assert (zlen (drop (Z.to_nat n) r) = zlen r - n) as Hd
    by (unfold zlen in *; rewrite length_drop; lia).
  set (rest := drop (length r) blk).
  destruct (mwrite blk 0 (take (Z.to_nat n) r)) as [blk1|] eqn:E1;
    [|rewrite mwrite_Ok in E1 by blia; discriminate].
  pose proof (zlen_mwrite _ _ _ _ E1) as Hl1.
  destruct (mwrite blk1 n (drop (Z.to_nat n) r)) as [blk2|] eqn:E2;
    [|rewrite mwrite_Ok in E2 by blia; discriminate].
  pose proof (zlen_mwrite _ _ _ _ E2) as Hl2.
  exists blk1, blk2. repeat split; try congruence.
  rewrite mwrite_Ok in E1 by blia. rewrite mwrite_Ok in E2 by blia.
  injection E1 as <-. injection E2 as <-.
  rewrite mread_Ok by blia. f_equal. change (Z.to_nat 0) with 0%nat. rewrite drop_0, ?take_0. cbn [app].
  assert (forall x, take (Z.to_nat n) (take (Z.to_nat n) r ++ x) = take (Z.to_nat n) r) as Hx.
  { intros x. rewrite take_app_le by (unfold zlen in *; lia). apply take_ge. unfold zlen in *. lia. }
  rewrite Hx, app_assoc, take_drop, take_app_le by (unfold zlen; lia). apply take_ge. unfold zlen. lia.
Qed.

(** * Every read drains the ring *)

Section drain.
Context {S : Type} (malloc_ok : Z -> bool) (junk : byte) (P : list byte -> Prop).
Context (fn : event_fn S) (g : list byte -> S -> Z * S) (Hfn : handles P fn g).

Lemma copy_record_ok k m r q T c :
  stores k m (r :: q) T -> copy_ok c -> 2 ^ k < T mod 2 ^ k + zlen r ->
  exists c', copy_ok c' /\
    ((exists blk, copy_record malloc_ok junk (pm_data m) (2 ^ k) (T mod 2 ^ k) (zlen r) c = Ok (Some (blk, 0), c') /\
       mread blk 0 (zlen r) = Ok r) \/
     (copy_record malloc_ok junk (pm_data m) (2 ^ k) (T mod 2 ^ k) (zlen r) c = Ok (None, c') /\
       malloc_ok (zlen r) = false)).
Proof.
  intros Hst Hc Hwrap. destruct (first_ok _ _ _ _ _ Hst) as ((Hr & _) & _ & _).
  destruct (off_fits _ _ _ _ _ Hst) as (_ & Ho & Hf).
  destruct (first_parts _ _ _ _ _ Hst Hwrap) as [E1 E2]. unfold copy_record.
  set (c1 := if copy_size c <? zlen r then _ else c).
  assert (copy_ok c1 /\ (zlen r <= copy_size c1 \/
          (malloc_ok (zlen r) = false /\ copy_size c1 = 0))) as [Hc1 [Hm|[Hno Hz]]].
  { unfold c1. destruct (Z.ltb_spec (copy_size c) (zlen r)) as [Hs|Hs]; [|split; [exact Hc | left; lia]].
    destruct (malloc_ok (zlen r)) eqn:Em; unfold copy_ok; cbn [copy_mem copy_size].
    - split; [rewrite zlen_replicate; lia | left; lia].
    - split; [reflexivity | right; auto]. }
  - replace (copy_size c1 <? zlen r) with false by lia.
    unfold copy_ok in Hc1. destruct (copy_mem c1) as [blk|] eqn:Em; [|lia]. cbn [or_fault].
    rewrite bind_Ok, E1, bind_Ok.
    destruct (copy_parts blk r (2 ^ k - T mod 2 ^ k)) as (blk1 & blk2 & W1 & W2 & Hl & Hrd); [lia|lia|].
    rewrite W1, bind_Ok, E2, bind_Ok, W2, bind_Ok.
    eexists. split; [|left; exists blk2; split; [reflexivity | exact Hrd]].
    unfold copy_ok. cbn. congruence.
  - replace (copy_size c1 <? zlen r) with true by lia. exists c1. split; [exact Hc1 | right; auto].
Qed.

Lemma stores_more k m r q T : stores k m (r :: q) T -> (data_head m =? data_tail m) = false.
Proof.
  intros Hst. destruct (first_ok _ _ _ _ _ Hst) as ((Hr & _) & _ & Hlen).
  pose proof (zlen_nonneg (concat q)). destruct Hst.
  pose proof (Z.pow_le_mono_r 2 k 63 ltac:(lia) ltac:(lia)).
  apply Z.eqb_neq. rewrite st_head0, st_tail0. intros He.
  assert (u64 (u64 (T + zlen (concat (r :: q))) - u64 T) = 0) as Hd by (rewrite He, Z.sub_diag; reflexivity).
  rewrite u64_diff in Hd by lia. lia.
Qed.

Lemma read_loop_drains k q : forall fuel m T c s,
  stores k m q T -> copy_ok c -> Forall P q -> (length q <= fuel)%nat ->
  exists ret T' q' c' s',
    read_loop malloc_ok junk fuel (pm_data m) (2 ^ k) (data_head m) fn LIBBPF_PERF_EVENT_CONT (data_tail m) c s
      = Ok (ret, u64 T', c', s') /\
    drains malloc_ok g q s ret q' s' /\ copy_ok c' /\
    stores k (mk_pm (data_head m) (u64 T') (pm_data m)) q' T'.
Proof.
  induction q as [|r q IH]; intros fuel m T c s Hst Hc HP Hfuel.
  - assert ((data_head m =? data_tail m) = true) as He.
    { destruct Hst. rewrite st_head0, st_tail0. cbn. rewrite Z.add_0_r. apply Z.eqb_refl. }
    exists LIBBPF_PERF_EVENT_CONT, T, [], c, s. rewrite <- (st_tail _ _ _ _ Hst).
    split; [destruct fuel; cbn [read_loop]; rewrite He; reflexivity|].
    split; [constructor|]. split; [exact Hc|]. destruct m. exact Hst.
  - destruct fuel as [|fuel]; [cbn in Hfuel; lia|]. cbn [read_loop].
    rewrite (stores_more _ _ _ _ _ Hst).
    assert (Hoff : Z.land (data_tail m) (u64 (2 ^ k - 1)) = T mod 2 ^ k).
    { rewrite (st_tail _ _ _ _ Hst). exact (ring_offset _ _ _ _ _ Hst). }
    rewrite Hoff, (first_size _ _ _ _ _ Hst), bind_Ok.
    apply Forall_cons in HP as [HPr HP].
    assert (Hloc : exists c', copy_ok c' /\
      ((exists blk at_, (if 2 ^ k <? T mod 2 ^ k + zlen r
           then copy_record malloc_ok junk (pm_data m) (2 ^ k) (T mod 2 ^ k) (zlen r) c
           else Ok (Some (pm_data m, T mod 2 ^ k), c)) = Ok (Some (blk, at_), c') /\
         mread blk at_ (zlen r) = Ok r) \/
       ((if 2 ^ k <? T mod 2 ^ k + zlen r
           then copy_record malloc_ok junk (pm_data m) (2 ^ k) (T mod 2 ^ k) (zlen r) c
           else Ok (Some (pm_data m, T mod 2 ^ k), c)) = Ok (None, c') /\
         malloc_ok (zlen r) = false))).
    { destruct (Z.ltb_spec (2 ^ k) (T mod 2 ^ k + zlen r)) as [Hw|Hw].
      - destruct (copy_record_ok _ _ _ _ _ _ Hst Hc Hw) as (c' & Hc' & [(blk & E & Hb)|E]);
          exists c'; eauto 6.
      - exists c. split; [exact Hc|]. left. do 2 eexists. split; [reflexivity|].
        exact (first_whole _ _ _ _ _ Hst Hw). }
    destruct Hloc as (c' & Hc' & [(blk & at_ & E & Hblk)|[E Hno]]); rewrite E, bind_Ok.
    + rewrite (Hfn blk at_ r s HPr Hblk), bind_Ok. destruct (g r s) as [ret s'] eqn:Eg.
      pose proof (stores_rest _ _ _ _ _ Hst) as Hrest.
      destruct (Z.eqb_spec ret LIBBPF_PERF_EVENT_CONT) as [->|Hne]; cbn [negb].
      * destruct (IH fuel _ _ c' s' Hrest Hc' HP) as (ret & T' & q' & c'' & s'' & El & Hd & Hc'' & Hst');
          [cbn in Hfuel; lia|].
        exists ret, T', q', c'', s''. split; [exact El|]. split; [eapply d_next; eassumption|]. auto.
      * exists ret, (T + zlen r), q, c', s'. rewrite (st_tail _ _ _ _ Hst), u64_add_l in Hrest |- *.
        split; [reflexivity|]. split; [eapply d_stop; eassumption|]. auto.
    + exists LIBBPF_PERF_EVENT_ERROR, T, (r :: q), c', s. rewrite <- (st_tail _ _ _ _ Hst).
      split; [reflexivity|]. split; [constructor; exact Hno|]. split; [exact Hc'|]. destruct m. exact Hst.
Qed.

Lemma stores_count k m q T : stores k m q T -> (length q <= ring_fuel (2 ^ k))%nat.
Proof.
  intros [? _ _ _ _ Hroom _ Hrecs]. unfold ring_fuel.
  assert (8 * Z.of_nat (length q) <= zlen (concat q)) as Hlen.
  { clear Hroom. induction Hrecs as [|r q (Hr & _) _ IH]; [unfold zlen; cbn; lia|].
    change (concat (r :: q)) with (r ++ concat q). rewrite zlen_app, length_cons. lia. }
  assert (Z.of_nat (length q) <= 2 ^ k / 8) by (apply Z.div_le_lower_bound; lia). lia.
Qed.

Lemma read_simple_drains k q m T c s :
  stores k m q T -> copy_ok c -> Forall P q ->
  exists ret T' q' c' s' m',
    bpf_perf_event_read_simple malloc_ok junk m (2 ^ k) c fn s = Ok (ret, m', c', s') /\
    drains malloc_ok g q s ret q' s' /\ copy_ok c' /\ stores k m' q' T'.
Proof.
  intros Hst Hc HP. unfold bpf_perf_event_read_simple.
  destruct (read_loop_drains k q _ m T c s Hst Hc HP (stores_count _ _ _ _ Hst))
    as (ret & T' & q' & c' & s' & E & ? & ? & ?).
  rewrite E, bind_Ok. eauto 10.
Qed.
End drain.

(** * The kernel's writes *)

Lemma put_mod bs : forall data a b,
  a mod zlen data = b mod zlen data -> put data a bs = put data b bs.
Proof.
  induction bs as [|x bs IH]; intros data a b E; [reflexivity|]. cbn [put]. rewrite E. apply IH.
  unfold zlen in *. rewrite length_insert, <- (Zplus_mod_idemp_l a), <- (Zplus_mod_idemp_l b), E. reflexivity.
Qed.

Lemma zlen_put bs : forall data a, zlen (put data a bs) = zlen data.
Proof.
  induction bs as [|x bs IH]; intros data a; [reflexivity|]. cbn [put]. rewrite IH.
  unfold zlen. rewrite length_insert. reflexivity.
Qed.

Lemma put_holds bs : forall data T xs,
  holds data T xs -> zlen xs + zlen bs <= zlen data ->
  holds (put data (T + zlen xs) bs) T (xs ++ (Some <$> bs)).
Proof.
  induction bs as [|b bs IH]; intros data T xs Hh Hl; [cbn; rewrite app_nil_r; exact Hh|].
  cbn [put]. set (data' := <[ _ := b ]> data). pose proof (zlen_nonneg bs).
  assert (zlen (b :: bs) = 1 + zlen bs) as Hb by (unfold zlen; cbn [length]; lia). rewrite Hb in Hl.
  assert (holds data' T (xs ++ [Some b])) as Hh'.
  { assert (xs ++ [Some b] = <[ length xs := Some b ]> (xs ++ [None])) as ->.
    { rewrite insert_app_r_alt, Nat.sub_diag by lia. reflexivity. }
    apply holds_insert with (x := b).
    - exact (holds_app_None _ _ _ 1 Hh).
    - rewrite zlen_app. change (zlen [@None byte]) with 1. lia.
    - rewrite length_app. cbn. lia.
    - reflexivity. }
  specialize (IH data' T _ Hh'). rewrite zlen_app in IH. change (zlen [Some b]) with 1 in IH.
  rewrite <- app_assoc, Z.add_assoc in IH. apply IH. unfold data', zlen in *. rewrite length_insert. lia.
Qed.

Lemma output_stores k m q T r :
  stores k m q T -> rec_ok r ->
  stores k (output m r) (if zlen (concat q) + zlen r <=? 2 ^ k then q ++ [r] else q) T.
Proof.
  intros Hst Hr. pose proof Hst as [Hk Hlen Htail Hhead Hw Hroom Hdata Hrecs].
  pose proof (Z.pow_le_mono_r 2 k 63 ltac:(lia) ltac:(lia)). pose proof (zlen_nonneg (concat q)).
  unfold output. rewrite Hhead, Htail, u64_diff, Hlen by lia. rewrite (Z.add_comm T), Z.add_simpl_r.
  destruct (Z.leb_spec (zlen (concat q) + zlen r) (2 ^ k)) as [Hle|Hgt]; [|exact Hst].
  assert (zlen (concat (q ++ [r])) = zlen (concat q) + zlen r) as Hc
    by (rewrite concat_app; cbn; rewrite app_nil_r, zlen_app; reflexivity).
  split; cbn [data_head data_tail pm_data]; try assumption; try (rewrite zlen_put; exact Hlen); try lia.
  - rewrite Hc, u64_add_l. f_equal. lia.
  - rewrite concat_app, fmap_app. cbn [concat]. rewrite app_nil_r.
    rewrite (put_mod r _ _ (T + zlen (concat q)))
      by (rewrite Hlen, u64_mod_pow by lia; f_equal; lia).
    assert (zlen (concat q) = zlen (Some <$> concat q)) as Hz by (unfold zlen; rewrite length_fmap; reflexivity).
    rewrite Hz. apply put_holds; [exact Hdata | lia].
  - apply Forall_app; auto.
Qed.

(** * Runs *)

Inductive action := Out (r : list byte) | Read.

Record perf_state (S : Type) := mk_ps { p_mmap : perf_mmap; p_copy : copy_buf; p_data : S }.
Arguments mk_ps {S}.
Arguments p_mmap {S}.
Arguments p_copy {S}.
Arguments p_data {S}.

Section refine.
Context {S : Type} (malloc_ok : Z -> bool) (junk : byte) (mmap_size : Z) (fn : event_fn S).

(** What the program sees of a step: what a read returns. *)
Definition step (st : perf_state S) (a : action) : res (option Z * perf_state S) :=
  match a with
  | Out r => Ok (None, mk_ps (output (p_mmap st) r) (p_copy st) (p_data st))
  | Read =>
      '(ret, m, c, s) ← bpf_perf_event_read_simple malloc_ok junk (p_mmap st) mmap_size (p_copy st) fn (p_data st);
      Ok (Some ret, mk_ps m c s)
  end.

Fixpoint run (st : perf_state S) (acts : list action) : res (list (option Z) * perf_state S) :=
  match acts with
  | [] => Ok ([], st)
  | a :: acts =>
      '(o, st) ← step st a;
      '(os, st) ← run st acts;
      Ok (o :: os, st)
  end.

(** The queue: at most [mmap_size] bytes of records. *)
Context (g : list byte -> S -> Z * S).
Inductive qstep : list (list byte) * S -> action -> option Z -> list (list byte) * S -> Prop :=
| q_out q s r :
    zlen (concat q) + zlen r <= mmap_size -> qstep (q, s) (Out r) None (q ++ [r], s)
| q_lost q s r :
    mmap_size < zlen (concat q) + zlen r -> qstep (q, s) (Out r) None (q, s)
| q_read q s ret q' s' :
    drains malloc_ok g q s ret q' s' -> qstep (q, s) Read (Some ret) (q', s').
Inductive qrun : list (list byte) * S -> list action -> list (option Z) -> list (list byte) * S -> Prop :=
| qr_nil q : qrun q [] [] q
| qr_cons q a o q' acts os q'' :
    qstep q a o q' -> qrun q' acts os q'' -> qrun q (a :: acts) (o :: os) q''.
End refine.

Definition outputs_in (P : list byte -> Prop) (acts : list action) : Prop :=
  Forall (fun a => match a with Out r => rec_ok r /\ P r | Read => True end) acts.

Lemma perf_run_sim {S} malloc_ok junk k (P : list byte -> Prop) (fn : event_fn S) g :
  handles P fn g -> forall acts st q T,
  stores k (p_mmap st) q T -> copy_ok (p_copy st) -> Forall P q -> outputs_in P acts ->
  exists os st' q', run malloc_ok junk (2 ^ k) fn st acts = Ok (os, st') /\
    qrun malloc_ok (2 ^ k) g (q, p_data st) acts os (q', p_data st').
Proof.
  intros Hfn. induction acts as [|a acts IH]; intros st q T Hst Hc HP Hacts.
  { exists [], st, q. split; [reflexivity | constructor]. }
  apply Forall_cons in Hacts as [Ha Hacts]. cbn [run].
  assert (exists o st1 q1 T1, step malloc_ok junk (2 ^ k) fn st a = Ok (o, st1) /\
    qstep malloc_ok (2 ^ k) g (q, p_data st) a o (q1, p_data st1) /\
    stores k (p_mmap st1) q1 T1 /\ copy_ok (p_copy st1) /\ Forall P q1)
    as (o & st1 & q1 & T1 & E & Hq & Hst1 & Hc1 & HP1).
  { destruct a as [r|]; cbn [step].
    - destruct Ha as [Hr HPr]. pose proof (output_stores _ _ _ _ _ Hst Hr) as Hout.
      destruct (Z.leb_spec (zlen (concat q) + zlen r) (2 ^ k));
        do 4 eexists; (split; [reflexivity|]); cbn [p_data p_mmap p_copy].
      + split; [apply q_out; assumption|]. split; [exact Hout|]. split; [exact Hc|].
        apply Forall_app; auto.
      + split; [apply q_lost; assumption|]. split; [exact Hout | auto].
    - destruct (read_simple_drains malloc_ok junk P fn g Hfn k q _ T (p_copy st) (p_data st) Hst Hc HP)
        as (ret & T' & q' & c' & s' & m' & E & Hd & Hc' & Hst').
      rewrite E, bind_Ok. do 4 eexists. split; [reflexivity|]. cbn [p_data p_mmap p_copy].
      split; [constructor; exact Hd|]. split; [exact Hst'|]. split; [exact Hc'|].
      clear - Hd HP. induction Hd; auto; apply Forall_cons in HP as [? ?]; auto. }
  rewrite E, bind_Ok. destruct (IH st1 q1 T1 Hst1 Hc1 HP1 Hacts) as (os & st' & q' & Er & Hqr).
  rewrite Er, bind_Ok. do 3 eexists. split; [reflexivity|]. econstructor; eassumption.
Qed.

(** A ring nobody has written to yet. *)
Definition fresh_ring (data : list byte) : perf_mmap := mk_pm 0 0 data.
Definition no_copy : copy_buf := mk_copy None 0.

Lemma fresh_stores k data : 3 <= k <= 63 -> zlen data = 2 ^ k -> stores k (fresh_ring data) [] 0.
Proof.
  intros Hk Hl. split; cbn; try assumption; try reflexivity; try constructor.
  - exists 0. reflexivity.
  - change (zlen []) with 0. apply Z.pow_nonneg. lia.
  - intros i x Hx. rewrite lookup_nil in Hx. discriminate.
Qed.

(** C10: over a ring of [2^k] bytes, however long the kernel writes records
    and the program reads them and however the two are interleaved, reading
    never leaves the ring nor loops for ever, and does what a bounded FIFO
    queue of records does: every record there was room for is handed to the
    handler once, whole and in order, also when it wraps round the end of
    the ring, whatever the 64-bit counters have wrapped to. When the handler
    stops a read, or the memory for a wrapped record cannot be had, the
    records that were not handed over stay for the next read. *)
Theorem perf_ring_refines_queue {S} malloc_ok junk k (P : list byte -> Prop) (fn : event_fn S) g
    (data : list byte) (s : S) (acts : list action)
    (Hfn : handles P fn g) (Hk : 3 <= k <= 63) (Hl : zlen data = 2 ^ k) (Hacts : outputs_in P acts) :
  exists os st q, run malloc_ok junk (2 ^ k) fn (mk_ps (fresh_ring data) no_copy s) acts = Ok (os, st) /\
    qrun malloc_ok (2 ^ k) g ([], s) acts os (q, p_data st).
Proof.
  apply (perf_run_sim malloc_ok junk k P fn g Hfn acts (mk_ps (fresh_ring data) no_copy s) [] 0);
    [apply fresh_stores; assumption | reflexivity | constructor | exact Hacts].
Qed.

(** * Events *)

(** What the kernel reports to [perf_buffer]: a sample, or how many events
    it had to drop. [misc] is the rest of the header. *)
Inductive event := Sample (misc : Z) (d : list byte) | Lost (misc id lost sample_id : Z).
Definition header (type misc sz : Z) : list byte := le_bytes 4 type ++ le_bytes 2 misc ++ le_bytes 2 sz.
Definition encode (e : event) : list byte :=
  match e with
  | Sample misc d => header PERF_RECORD_SAMPLE misc (12 + zlen d) ++ le_bytes 4 (zlen d) ++ d
  | Lost misc id lost sid => header PERF_RECORD_LOST misc 32 ++ le_bytes 8 id ++ le_bytes 8 lost ++ le_bytes 8 sid
  end.
(** The kernel pads samples to whole words. *)
Definition event_ok (e : event) : Prop :=
  match e with
  | Sample _ d => (8 | 12 + zlen d) /\ 12 + zlen d < 2 ^ 16
  | Lost _ _ lost _ => 0 <= lost < 2 ^ 64
  end.
Definition is_event (r : list byte) : Prop := exists e, event_ok e /\ r = encode e.

(** Reading a part of a record where the record lies. *)
Lemma mread_part blk at_ (a b c : list byte) o n :
  mread blk at_ (zlen (a ++ b ++ c)) = Ok (a ++ b ++ c) -> zlen a = o -> zlen b = n ->
  mread blk (at_ + o) n = Ok b.
Proof.
  intros Hr <- <-. rewrite !zlen_app in Hr. rewrite !Z.add_assoc in Hr.
  pose proof (zlen_nonneg a). pose proof (zlen_nonneg b). pose proof (zlen_nonneg c).
  pose proof Hr as [Hin E]%mread_Ok_inv. rewrite mread_Ok by blia. f_equal.
  replace (Z.to_nat (at_ + zlen a)) with (Z.to_nat at_ + length a)%nat by (unfold zlen in *; blia).
  rewrite <- drop_drop. set (x := drop (Z.to_nat at_) blk) in *.
  replace (Z.to_nat (zlen b)) with (length b) by (unfold zlen; lia).
  assert (take (length a + length b) x = a ++ b) as Hab.
  { replace (length a + length b)%nat with (length a + length b `min` (length b + length c))%nat by lia.
    assert (take (length a + length b) (take (Z.to_nat (zlen a + zlen b + zlen c)) x) = a ++ b) as Ht.
    { rewrite <- E, app_assoc, take_app_length' by (rewrite length_app; reflexivity). reflexivity. }
    rewrite take_take in Ht. rewrite <- Ht. f_equal. unfold zlen. lia. }
  rewrite take_drop_commute, Hab. apply drop_app_length.
Qed.

Lemma encode_rec_ok e : event_ok e -> rec_ok (encode e).
Proof.
  intros He. assert (zlen (encode e) = match e with Sample _ d => 12 + zlen d | Lost _ _ _ _ => 32 end) as Hlen.
  { destruct e; unfold encode, header; rewrite !zlen_app, !zlen_le_bytes; lia. }
  assert (mread (encode e) 6 2 = Ok (le_bytes 2 (zlen (encode e)))) as Hsz.
  { rewrite Hlen. destruct e as [misc d|misc id lost sid]; [|reflexivity].
    cbn in He. rewrite mread_Ok; [reflexivity|]. unfold in_block. rewrite Hlen. pose proof (zlen_nonneg d). lia. }
  unfold rec_ok. rewrite Hsz, Hlen. destruct e as [misc d|]; cbn in He; [pose proof (zlen_nonneg d)|];
    split; try lia; (split; [|reflexivity]); [tauto | exists 4; lia].
Qed.

Section events.
Context {S : Type} (pb : @perf_cbs S).
Context (f : Z -> list byte -> S -> S) (l : Z -> Z -> S -> S).
Implicit Types (e : event) (es : list event) (s : S).

(** The callbacks work on what they are told, and look at nothing else. *)
Record callbacks_do : Prop := {
  cd_event : event_cb pb = None;
  cd_sample : match sample_cb pb with
    | None => forall cpu d s, f cpu d s = s
    | Some cb => forall cpu blk at_ d s, mread blk at_ (zlen d) = Ok d -> cb cpu blk at_ (zlen d) s = Ok (f cpu d s)
    end;
  cd_lost : match lost_cb pb with
    | None => forall cpu n s, l cpu n s = s
    | Some cb => forall cpu n s, cb cpu n s = Ok (l cpu n s)
    end
}.

Definition deliver (cpu : Z) s e : S :=
  match e with Sample _ d => f cpu d s | Lost _ _ lost _ => l cpu lost s end.
(** The same, from the bytes of the record. *)
Definition deliver_bytes (cpu : Z) (r : list byte) s : Z * S :=
  (LIBBPF_PERF_EVENT_CONT,
   if le_val (take 4 r) =? PERF_RECORD_SAMPLE then f cpu (drop 12 r) s
   else l cpu (le_val (take 8 (drop 16 r))) s).

Lemma deliver_encode cpu e s : event_ok e -> deliver_bytes cpu (encode e) s = (LIBBPF_PERF_EVENT_CONT, deliver cpu s e).
Proof.
  intros He. unfold deliver_bytes. destruct e as [misc d|misc id lost sid]; [reflexivity|].
  cbn [deliver]. change (_ =? PERF_RECORD_SAMPLE) with false. cbv iota. do 2 f_equal.
  change (take 8 (drop 16 (encode (Lost misc id lost sid)))) with (le_bytes 8 lost).
  rewrite le_val_bytes. cbn in He. apply Z.mod_small. exact He.
Qed.

Lemma record_handles cpu :
  callbacks_do -> handles is_event (perf_buffer__process_record pb cpu) (deliver_bytes cpu).
Proof.
  intros [Hev Hsm Hlo] blk at_ r s (e & He & ->) Hr. rewrite (deliver_encode _ _ _ He).
  unfold perf_buffer__process_record. rewrite Hev.
  destruct e as [misc d|misc id lost sid]; unfold encode, header in Hr.
  - assert (load32 blk at_ = Ok PERF_RECORD_SAMPLE) as ->.
    { apply mread_load32; [|unfold PERF_RECORD_SAMPLE; lia]. rewrite <- (Z.add_0_r at_).
      rewrite <- app_assoc in Hr. exact (mread_part _ _ [] _ _ 0 4 Hr eq_refl eq_refl). }
    rewrite bind_Ok. cbn [Z.eqb PERF_RECORD_SAMPLE Pos.eqb deliver].
    destruct (sample_cb pb) as [cb|]; [|rewrite Hsm; reflexivity].
    assert (load32 blk (at_ + 8) = Ok (zlen d)) as ->.
    { cbn in He. pose proof (zlen_nonneg d). apply mread_load32; [|lia].
      exact (mread_part _ _ _ _ _ 8 4 Hr eq_refl eq_refl). }
    rewrite bind_Ok, Hsm; [reflexivity|]. rewrite app_assoc in Hr.
    pose proof (mread_part blk at_ (header PERF_RECORD_SAMPLE misc (12 + zlen d) ++ le_bytes 4 (zlen d)) d [] 12 (zlen d)) as Hp.
    rewrite app_nil_r in Hp. exact (Hp Hr eq_refl eq_refl).
  - assert (load32 blk at_ = Ok PERF_RECORD_LOST) as ->.
    { apply mread_load32; [|unfold PERF_RECORD_LOST; lia]. rewrite <- (Z.add_0_r at_).
      rewrite <- app_assoc in Hr. exact (mread_part _ _ [] _ _ 0 4 Hr eq_refl eq_refl). }
    rewrite bind_Ok. cbn [Z.eqb PERF_RECORD_LOST PERF_RECORD_SAMPLE Pos.eqb deliver].
    destruct (lost_cb pb) as [cb|]; [|rewrite Hlo; reflexivity].
    assert (mread blk (at_ + 16) 8 = Ok (le_bytes 8 lost)) as Hm.
    { rewrite app_assoc in Hr. exact (mread_part _ _ _ _ _ 16 8 Hr eq_refl eq_refl). }
    unfold load64. rewrite Hm, bind_Ok. cbn in He. rewrite bind_Ok, le_val_bytes, Z.mod_small by exact He.
    rewrite Hlo. reflexivity.
Qed.

(** Without a lack of memory all events are delivered. *)
Context (malloc_ok : Z -> bool) (junk : byte).
Lemma drains_events cpu es : forall s ret q' s',
  (forall n, malloc_ok n = true) -> Forall event_ok es ->
  drains malloc_ok (deliver_bytes cpu) (encode <$> es) s ret q' s' ->
  ret = LIBBPF_PERF_EVENT_CONT /\ q' = [] /\ s' = foldl (deliver cpu) s es.
Proof.
  induction es as [|e es IH]; intros s ret q' s' Hm Hes Hd; cbn in Hd; [inversion Hd; auto|].
  apply Forall_cons in Hes as [He Hes]. pose proof (deliver_encode cpu e s He) as Hg.
  inversion Hd as [|? ? ? Hno|? ? ? ? ? Hs Hne|? ? ? s1 ? ? ? Hs Hd']; subst.
  - rewrite Hm in Hno. discriminate.
  - congruence.
  - rewrite Hg in Hs. injection Hs as <-. exact (IH _ _ _ _ Hm Hes Hd').
Qed.

(** The events the kernel has put into a CPU's ring. *)
Definition ring_has (k : Z) (r : cpu_ring) es : Prop :=
  Forall event_ok es /\ copy_ok (r_copy r) /\ exists T, stores k (r_mmap r) (encode <$> es) T.

Lemma process_records_ok k r es s :
  callbacks_do -> (forall n, malloc_ok n = true) -> ring_has k r es ->
  exists r', perf_buffer__process_records malloc_ok junk pb (2 ^ k) r s =
      Ok (0, r', foldl (deliver (r_cpu r)) s es) /\ ring_has k r' [] /\ r_cpu r' = r_cpu r.
Proof.
  intros Hcb Hm (Hes & Hc & T & Hst). unfold perf_buffer__process_records.
  assert (Forall is_event (encode <$> es)) as HP.
  { apply Forall_fmap. eapply Forall_impl; [exact Hes|]. intros e He. exists e. auto. }
  destruct (read_simple_drains malloc_ok junk is_event _ _ (record_handles (r_cpu r) Hcb) k _ _ T (r_copy r) s Hst Hc HP)
    as (ret & T' & q' & c' & s' & m' & E & Hd & Hc' & Hst').
  destruct (drains_events _ _ _ _ _ _ Hm Hes Hd) as (-> & -> & ->).
  rewrite E, bind_Ok. eexists. split; [reflexivity|]. split; [|reflexivity].
  split; [constructor|]. split; [exact Hc' | eauto].
Qed.
End events.

(** * Polling *)

(** All events of the ready CPUs, CPU by CPU. *)
Definition deliver_ready {S} (f : Z -> list byte -> S -> S) (l : Z -> Z -> S -> S)
    (cpus : list Z) (ess : list (list event)) (ready : list Z) (s : S) : S :=
  foldl (fun s i => foldl (deliver f l (default 0 (cpus !! Z.to_nat i))) s (default [] (ess !! Z.to_nat i)))
    s ready.
Definition empty_ready (ess : list (list event)) (ready : list Z) : list (list event) :=
  foldl (fun ess i => <[ Z.to_nat i := [] ]> ess) ess ready.

Lemma foldl_ready_insert {S} (f : Z -> list byte -> S -> S) (l : Z -> Z -> S -> S) cpus ess ready i s :
  0 <= i -> i ∉ ready -> Forall (fun j => 0 <= j) ready ->
  deliver_ready f l cpus (<[ Z.to_nat i := [] ]> ess) ready s = deliver_ready f l cpus ess ready s.
Proof.
  intros Hi Hni Hpos. unfold deliver_ready. revert s.
  induction Hpos as [|j ready Hj _ IH]; intros s; [reflexivity|]. cbn [foldl].
  apply not_elem_of_cons in Hni as [Hne Hni].
  rewrite list_lookup_insert_ne by lia. apply IH, Hni.
Qed.

Lemma poll_loop_ok {S} malloc_ok junk (pb : @perf_cbs S) f l k :
  callbacks_do pb f l -> (forall n, malloc_ok n = true) ->
  forall ready rs ess s,
  Forall2 (ring_has k) rs ess -> NoDup ready -> Forall (fun i => 0 <= i < zlen rs) ready ->
  exists rs', poll_loop malloc_ok junk pb (2 ^ k) ready rs s =
      Ok (0, rs', deliver_ready f l (r_cpu <$> rs) ess ready s) /\
    Forall2 (ring_has k) rs' (empty_ready ess ready) /\ r_cpu <$> rs' = r_cpu <$> rs.
Proof.
  intros Hcb Hm. induction ready as [|i ready IH]; intros rs ess s Hrs Hnd Hin.
  { exists rs. split; [reflexivity|]. auto. }
  apply NoDup_cons in Hnd as [Hni Hnd]. apply Forall_cons in Hin as [Hi Hin].
  assert (exists r es, rs !! Z.to_nat i = Some r /\ ess !! Z.to_nat i = Some es /\ ring_has k r es)
    as (r & es & Er & Ees & Hr).
  { destruct (lookup_lt_is_Some_2 rs (Z.to_nat i)) as [r Er]; [unfold zlen in Hi; lia|].
    destruct (Forall2_lookup_l _ _ _ _ _ Hrs Er) as (es & Ees & Hr). eauto. }
  destruct (process_records_ok pb f l malloc_ok junk k r es s Hcb Hm Hr) as (r' & E & Hr' & Hcpu).
  set (rs1 := <[ Z.to_nat i := r' ]> rs). cbn [poll_loop].
  assert (aget rs i = Ok r) as -> by (apply aget_Ok; split; [lia | exact Er]).
  rewrite bind_Ok, E, bind_Ok.
  assert (aset rs i r' = Ok rs1) as -> by (apply aset_Ok; exact Hi).
  rewrite bind_Ok. cbn [Z.eqb negb].
  assert (Forall2 (ring_has k) rs1 (<[ Z.to_nat i := [] ]> ess)) as Hrs1 by (apply Forall2_insert; assumption).
  assert (r_cpu <$> rs1 = r_cpu <$> rs) as Hcpus.
  { unfold rs1. rewrite list_fmap_insert, Hcpu. apply list_insert_id.
    rewrite list_lookup_fmap, Er. reflexivity. }
  assert (zlen rs1 = zlen rs) as Hlen by (unfold rs1, zlen; rewrite length_insert; reflexivity).
  destruct (IH rs1 _ (foldl (deliver f l (r_cpu r)) s es) Hrs1 Hnd) as (rs' & El & Hrs' & Hcpus').
  { rewrite Hlen. exact Hin. }
  exists rs'. rewrite Hcpus' in *. rewrite Hcpus in *.
  split; [|split; [exact Hrs' | reflexivity]]. rewrite El. do 2 f_equal.
  rewrite foldl_ready_insert;
    [|lia | exact Hni | eapply Forall_impl; [exact Hin | cbv beta; lia]].
  unfold deliver_ready. cbn [foldl]. rewrite list_lookup_fmap, Er, Ees. reflexivity.
Qed.

(** C12: polling hands every event of the CPUs that are ready to its
    callback: a sample's data and size to [sample_cb], the number of lost
    events to [lost_cb], in the order the kernel wrote them, CPU after CPU;
    the rings are empty afterwards and the number of ready CPUs is
    returned. An error of [epoll_wait] is returned as it is. *)
Theorem perf_poll_delivers {S} malloc_ok junk (pb : @perf_cbs S) f l k wait rs ess (s : S)
    (Hcb : callbacks_do pb f l) (Hm : forall n, malloc_ok n = true) (Hrs : Forall2 (ring_has k) rs ess)
    (Hw : match wait with inl _ => True
          | inr ready => NoDup ready /\ Forall (fun i => 0 <= i < zlen rs) ready end) :
  match wait with
  | inl errno => perf_buffer__poll malloc_ok junk pb (2 ^ k) wait rs s = Ok (- errno, rs, s)
  | inr ready => exists rs',
      perf_buffer__poll malloc_ok junk pb (2 ^ k) wait rs s =
        Ok (zlen ready, rs', deliver_ready f l (r_cpu <$> rs) ess ready s) /\
      Forall2 (ring_has k) rs' (empty_ready ess ready)
  end.
Proof.
  destruct wait as [errno|ready]; [reflexivity|]. destruct Hw as [Hnd Hin].
  destruct (poll_loop_ok malloc_ok junk pb f l k Hcb Hm ready rs ess s Hrs Hnd Hin) as (rs' & E & Hrs' & _).
  exists rs'. split; [|exact Hrs']. cbn [perf_buffer__poll]. rewrite E, bind_Ok. reflexivity.
Qed.

(** * A run *)

(** A program that notes what it is told. *)
Definition noting : @perf_cbs (list (Z * Z + list byte)) :=
  mk_cbs None (Some (fun cpu blk at_ n s => d ← mread blk at_ n; Ok (s ++ [inr d])))
    (Some (fun cpu n s => Ok (s ++ [inl (cpu, n)]))).
Definition note_sample (cpu : Z) (d : list byte) (s : list (Z * Z + list byte)) := s ++ [inr d].
Definition note_lost (cpu n : Z) (s : list (Z * Z + list byte)) := s ++ [inl (cpu, n)].

Lemma noting_does : callbacks_do noting note_sample note_lost.
Proof.
  split; cbn; [reflexivity| |reflexivity].
  cbn. intros cpu blk at_ d s Hd. rewrite Hd. reflexivity.
Qed.

(** Into 64 bytes: a report of 32 bytes, one of 16; after a read a sample of
    32, which wraps; a second one does not fit. *)
Definition demo_events : list event :=
  [Lost 0 1 7 0; Sample 0 (bytes_of "four"); Sample 0 (bytes_of "twenty bytes of text")].
Definition demo_acts : list action :=
  [Out (encode (Lost 0 1 7 0)); Out (encode (Sample 0 (bytes_of "four"))); Read;
   Out (encode (Sample 0 (bytes_of "twenty bytes of text"))); Out (encode (Lost 0 1 8 0));
   Out (encode (Lost 0 1 9 0)); Read].

Lemma perf_ring_refines_queue_witness :
  let st0 := mk_ps (fresh_ring (replicate 64 NUL)) no_copy [] in
  let fn := perf_buffer__process_record noting 3 in
  exists os st q, run (fun _ => true) NUL (2 ^ 6) fn st0 demo_acts = Ok (os, st) /\
    p_data st = [inl (3, 7); inr (bytes_of "four"); inr (bytes_of "twenty bytes of text"); inl (3, 8)] /\
    qrun (fun _ => true) (2 ^ 6) (deliver_bytes note_sample note_lost 3) ([], []) demo_acts os (q, p_data st).
Proof.
  destruct (perf_ring_refines_queue (fun _ => true) NUL 6 is_event
    (perf_buffer__process_record noting 3) (deliver_bytes note_sample note_lost 3)
    (replicate 64 NUL) [] demo_acts) as (os & st & q & E & Hq).
  - exact (record_handles noting note_sample note_lost 3 noting_does).
  - lia.
  - reflexivity.
  - assert (forall e, event_ok e -> rec_ok (encode e) /\ is_event (encode e)) as He.
    { intros e He. split; [exact (encode_rec_ok e He) | exists e; auto]. }
    unfold outputs_in, demo_acts. repeat (apply Forall_cons; split); try apply Forall_nil_2; try exact I;
      apply He; cbn; try lia; (split; [apply Z.mod_divide; [lia | reflexivity] | reflexivity]).
  - exists os, st, q. split; [exact E|]. split; [|exact Hq].
    vm_compute in E. injection E as <- <-. reflexivity.
Defined.

Definition demo_ring : cpu_ring :=
  mk_cpu 3 (foldl output (fresh_ring (replicate 128 NUL)) (encode <$> demo_events)) no_copy.

Lemma perf_poll_delivers_witness :
  exists rs', perf_buffer__poll (fun _ => true) NUL noting (2 ^ 7) (inr [0]) [demo_ring] [] =
    Ok (1, rs', [inl (3, 7); inr (bytes_of "four"); inr (bytes_of "twenty bytes of text")]).
Proof.
  assert (Forall event_ok demo_events) as Hev.
  { repeat (apply Forall_cons; split); try apply Forall_nil_2; cbn; try lia;
      (split; [apply Z.mod_divide; [lia | reflexivity] | reflexivity]). }
  assert (ring_has 7 demo_ring demo_events) as Hr.
  { split; [exact Hev|]. split; [reflexivity|]. exists 0.
    assert (forall es m q, stores 7 m q 0 -> Forall event_ok es -> zlen (concat q) + zlen (concat (encode <$> es)) <= 128 ->
      stores 7 (foldl output m (encode <$> es)) (q ++ (encode <$> es)) 0) as Hgo.
    { induction es as [|e es IH]; intros m q Hst He Hl; [rewrite app_nil_r; exact Hst|].
      apply Forall_cons in He as [He Hes]. cbn [fmap list_fmap foldl].
      change (concat (encode <$> e :: es)) with (encode e ++ concat (encode <$> es)) in Hl.
      rewrite zlen_app in Hl. pose proof (zlen_nonneg (concat (encode <$> es))).
      pose proof (output_stores 7 m q 0 (encode e) Hst (encode_rec_ok e He)) as Ho.
      change (2 ^ 7) with 128 in Ho. replace (zlen (concat q) + zlen (encode e) <=? 128) with true in Ho by lia.
      rewrite cons_middle, app_assoc. apply IH; [exact Ho | exact Hes|].
      rewrite concat_app, zlen_app. cbn [concat]. rewrite app_nil_r. lia. }
    apply (Hgo demo_events (fresh_ring (replicate 128 NUL)) []); [apply fresh_stores; [lia | reflexivity] | exact Hev |].
    vm_compute. discriminate. }
  destruct (perf_poll_delivers (fun _ => true) NUL noting note_sample note_lost 7 (inr [0]) [demo_ring]
    [demo_events] []) as (rs' & E & _).
  - exact noting_does.
  - reflexivity.
  - constructor; [exact Hr | constructor].
  - split; [apply NoDup_singleton | repeat constructor; cbn; lia].
  - exists rs'. exact E.
Defined.
