(* ===== verification/Perf.v ===== *)
(** Attaching programs to perf events, probes and tracepoints, perf
    buffers, and counting the possible CPUs
    ([src/eBPF_app/libbpf/src/libbpf.c]). Who owns which descriptors and
    mappings: a link its descriptor, a perf buffer an epoll descriptor and
    for each CPU a descriptor and a mapping; whatever fails on the way,
    nothing else stays open. The rings of a perf buffer are in [PerfRing]. *)
From S2P Require Import Prelude CLib XdpLink LibbpfObj LibbpfLoad LibbpfRes Xsk XskRes XskProps CoRe OpenObj.
#[local] Open Scope Z_scope.

(** * The system *)

(** What is set of [struct perf_event_attr]; [config1] is the name of a
    function or file, [config2] an offset. *)
Record perf_attr := mk_pattr {
  a_type : Z; a_config : Z; a_config1 : option string; a_config2 : Z;
  a_sample_type : Z; a_sample_period : Z; a_wakeup_events : Z
}.
Inductive perf_cmd := IOC_SET_BPF (prog_fd : Z) | IOC_ENABLE | IOC_DISABLE.

Class PerfSys (K : Type) `{XskSys K} := {
  (** [open(file, O_RDONLY)], also that of [fopen] *)
  sys_file_open : K -> string -> sysret * K;
  (** what is to be read from an open file, if it can be read *)
  sys_file_text : K -> Z -> Z + list byte;
  (** [perf_event_open] with attributes, process and CPU *)
  sys_perf_event_open : K -> perf_attr -> Z -> Z -> sysret * K;
  sys_perf_ioctl : K -> Z -> perf_cmd -> sysret * K;
  sys_raw_tracepoint_open : K -> string -> Z -> sysret * K;
  sys_epoll_create : K -> sysret * K;
  (** [EPOLL_CTL_ADD] of a descriptor, with the place of its buffer *)
  sys_epoll_add : K -> Z -> Z -> Z -> sysret * K
}.

Class PerfSysLaws (K : Type) `{XskSys K} `{XdpDevice K} `{!PerfSys K} := {
  perf_xsk_laws :: XskSysLaws K;
  file_open_gives k p : gives k (sys_file_open k p);
  perf_event_open_gives k a pid cpu : gives k (sys_perf_event_open k a pid cpu);
  perf_ioctl_keeps k fd c : keeps k (sys_perf_ioctl k fd c);
  raw_tracepoint_gives k n fd : gives k (sys_raw_tracepoint_open k n fd);
  epoll_create_gives k : gives k (sys_epoll_create k);
  epoll_add_keeps k e fd i : keeps k (sys_epoll_add k e fd i);
  (** nothing is mapped at address zero *)
  mmap_above k len fd off a : fst (sys_mmap k len fd off) = ROk a -> 0 < a
}.

Definition EIO : Z := 5.
Definition EOVERFLOW : Z := 75.
Definition PERF_TYPE_SOFTWARE : Z := 1.
Definition PERF_TYPE_TRACEPOINT : Z := 2.
Definition PERF_COUNT_SW_BPF_OUTPUT : Z := 10.
Definition PERF_SAMPLE_RAW : Z := 2 ^ 10.
Definition BPF_MAP_TYPE_PERF_EVENT_ARRAY : Z := 4.

Inductive link_kind := DestroyPerfEvent | DestroyFd.
Record bpf_link := mk_link { destroy : link_kind; l_fd : Z }.

Section perf.
Context {K : Type} `{PerfSys K}.
Implicit Types (k : K).

(** * Links *)

Definition bpf_link__destroy_perf_event k (l : bpf_link) : Z * K :=
  let '(r, k) := sys_perf_ioctl k (l_fd l) IOC_DISABLE in
  let err := match r with ROk v => if v =? 0 then 0 else - sys_errno k | RErr e => - e end in
  (err, snd (sys_close k (l_fd l))).
Definition bpf_link__destroy_fd k (l : bpf_link) : Z * K :=
  match sys_close k (l_fd l) with (ROk v, k) => (v, k) | (RErr _, k) => (-1, k) end.
Definition bpf_link__destroy k (link : option bpf_link) : Z * K :=
  match link with
  | None => (0, k)
  | Some l => match destroy l with
              | DestroyPerfEvent => bpf_link__destroy_perf_event k l
              | DestroyFd => bpf_link__destroy_fd k l
              end
  end.

Definition bpf_program__attach_perf_event k (prog : bpf_program) (pfd : Z) : (Z + bpf_link) * K :=
  if pfd <? 0 then (inl (- EINVAL), k) else
  let prog_fd := bpf_program__fd (Some prog) in
  if prog_fd <? 0 then (inl (- EINVAL), k) else
  let '(ok, k) := sys_alloc k in
  if negb ok then (inl (- ENOMEM), k) else
  match sys_perf_ioctl k pfd (IOC_SET_BPF prog_fd) with
  | (RErr e, k) => (inl (- e), k)
  | (ROk _, k) =>
      match sys_perf_ioctl k pfd IOC_ENABLE with
      | (RErr e, k) => (inl (- e), k)
      | (ROk _, k) => (inr (mk_link DestroyPerfEvent pfd), k)
      end
  end.

(** [fscanf(f, "<prefix>%d\n", &ret)]: [None] is the end of the file,
    [Some None] a text that does not match. *)
Fixpoint scan_prefixed (prefix text : list byte) : option (option Z) :=
  match prefix, text with
  | [], _ => match skip_space text with
             | [] => None
             | _ => Some (fst <$> scan_int text)
             end
  | _, [] => None
  | p :: prefix, c :: text => if decide (p = c) then scan_prefixed prefix text else Some None
  end.

(** A text that does not match leaves [errno] as it was. *)
Definition parse_uint_from_file k (file : string) (prefix : list byte) : Z * K :=
  match sys_file_open k file with
  | (RErr e, k) => (- e, k)
  | (ROk f, k) =>
      let ret := match sys_file_text k f with
                 | inl e => - EIO
                 | inr text => match scan_prefixed prefix text with
                               | None => - EIO
                               | Some None => - sys_errno k
                               | Some (Some ret) => ret
                               end
                 end in
      (ret, snd (sys_close k f))
  end.

Definition determine_kprobe_perf_type k := parse_uint_from_file k "/sys/bus/event_source/devices/kprobe/type" [].
Definition determine_uprobe_perf_type k := parse_uint_from_file k "/sys/bus/event_source/devices/uprobe/type" [].
Definition determine_kprobe_retprobe_bit k :=
  parse_uint_from_file k "/sys/bus/event_source/devices/kprobe/format/retprobe" (bytes_of "config:").
Definition determine_uprobe_retprobe_bit k :=
  parse_uint_from_file k "/sys/bus/event_source/devices/uprobe/format/retprobe" (bytes_of "config:").

(** [1 << bit] as an [int]; C leaves a shift by 32 or more undefined, the
    instruction takes the shift modulo 32. *)
Definition int_bit (bit : Z) : Z := s32 (Z.shiftl 1 (bit mod 32)).

Definition perf_event_open_probe k (uprobe retprobe : bool) (name : string) (offset pid : Z) : Z * K :=
  let '(type, k) := if uprobe then determine_uprobe_perf_type k else determine_kprobe_perf_type k in
  if type <? 0 then (type, k) else
  let '(bit, k) :=
    if retprobe then if uprobe then determine_uprobe_retprobe_bit k else determine_kprobe_retprobe_bit k
    else (0, k) in
  if bit <? 0 then (bit, k) else
  let config := if retprobe then u64 (int_bit bit) else 0 in
  let attr := mk_pattr type config (Some name) offset 0 0 0 in
  match sys_perf_event_open k attr (if pid <? 0 then -1 else pid) (if pid =? -1 then 0 else -1) with
  | (RErr e, k) => (- e, k)
  | (ROk pfd, k) => (pfd, k)
  end.

(** The end that attaching to probes and tracepoints has in common. *)
Definition attach_opened (prog : bpf_program) (r : Z * K) : (Z + bpf_link) * K :=
  let '(pfd, k) := r in
  if pfd <? 0 then (inl pfd, k) else
  match bpf_program__attach_perf_event k prog pfd with
  | (inl err, k) => (inl err, snd (sys_close k pfd))
  | (inr link, k) => (inr link, k)
  end.

Definition bpf_program__attach_kprobe k (prog : bpf_program) (retprobe : bool) (func_name : string)
    : (Z + bpf_link) * K :=
  attach_opened prog (perf_event_open_probe k false retprobe func_name 0 (-1)).
Definition bpf_program__attach_uprobe k (prog : bpf_program) (retprobe : bool) (pid : Z)
    (binary_path : string) (func_offset : Z) : (Z + bpf_link) * K :=
  attach_opened prog (perf_event_open_probe k true retprobe binary_path func_offset pid).

Definition tracepoint_file (tp_category tp_name : string) : list byte :=
  bytes_of "/sys/kernel/debug/tracing/events/" ++ bytes_of tp_category ++ bytes_of "/" ++
  bytes_of tp_name ++ bytes_of "/id".
Definition determine_tracepoint_id k (tp_category tp_name : string) : Z * K :=
  let file := tracepoint_file tp_category tp_name in
  if 4096 <=? zlen file then (- E2BIG, k) else parse_uint_from_file k (string_of file) [].
Definition perf_event_open_tracepoint k (tp_category tp_name : string) : Z * K :=
  let '(tp_id, k) := determine_tracepoint_id k tp_category tp_name in
  if tp_id <? 0 then (tp_id, k) else
  let attr := mk_pattr PERF_TYPE_TRACEPOINT tp_id None 0 0 0 0 in
  match sys_perf_event_open k attr (-1) 0 with
  | (RErr e, k) => (- e, k)
  | (ROk pfd, k) => (pfd, k)
  end.
Definition bpf_program__attach_tracepoint k (prog : bpf_program) (tp_category tp_name : string)
    : (Z + bpf_link) * K :=
  attach_opened prog (perf_event_open_tracepoint k tp_category tp_name).

Definition bpf_program__attach_raw_tracepoint k (prog : bpf_program) (tp_name : string)
    : (Z + bpf_link) * K :=
  let prog_fd := bpf_program__fd (Some prog) in
  if prog_fd <? 0 then (inl (- EINVAL), k) else
  let '(ok, k) := sys_alloc k in
  if negb ok then (inl (- ENOMEM), k) else
  match sys_raw_tracepoint_open k tp_name prog_fd with
  | (RErr e, k) => (inl (- e), k)
  | (ROk pfd, k) => (inr (mk_link DestroyFd pfd), k)
  end.

(** * The number of possible CPUs *)

(** [sscanf(piece, "%u-%u", &start, &end)], where a missing end is the start. *)
Definition scan_range (piece : list byte) : option (Z * Z) :=
  match scan_u piece with
  | None => None
  | Some (start, rest) =>
      match rest with
      | c :: rest =>
          if decide (c = Byte.x2d) then
            match scan_u rest with Some (end_, _) => Some (start, end_) | None => Some (start, start) end
          else Some (start, start)
      | [] => Some (start, start)
      end
  end.

(** The loop over the text and its final NUL; [piece] is what lies between
    [il] and [ir]. *)
Fixpoint count_cpus (buf piece : list byte) (tmp_cpus : Z) : Z + Z :=
  match buf with
  | [] => inr tmp_cpus
  | c :: buf =>
      if decide (c = Byte.x2c \/ c = NUL) then
        match scan_range piece with
        | None => inl (- EINVAL)
        | Some (start, end_) => count_cpus buf [] (s32 (tmp_cpus + u32 (u32 (end_ - start) + 1)))
        end
      else count_cpus buf (piece ++ [c]) tmp_cpus
  end.

(** [cpus] is the static variable; its new value is the second result. *)
Definition libbpf_num_possible_cpus k (cpus : Z) : Z * Z * K :=
  if 0 <? cpus then (cpus, cpus, k) else
  match sys_file_open k "/sys/devices/system/cpu/possible" with
  | (RErr e, k) => (- e, cpus, k)
  | (ROk fd, k) =>
      let r := sys_file_text k fd in
      let k := snd (sys_close k fd) in
      match r with
      | inl e => (- e, cpus, k)
      | inr text =>
          let buf := take 128 text in
          if zlen buf =? 0 then (- EINVAL, cpus, k) else
          if zlen buf =? 128 then (- EOVERFLOW, cpus, k) else
          match count_cpus (buf ++ [NUL]) [] 0 with
          | inl err => (err, cpus, k)
          | inr tmp_cpus => if tmp_cpus <=? 0 then (- EINVAL, cpus, k) else (tmp_cpus, tmp_cpus, k)
          end
      end
  end.

(** * Perf buffers *)

(** [base] is 0 for NULL; the reconstruction buffer is [PerfRing]'s. *)
Record perf_cpu_buf := mk_pcb { pc_base : Z; pc_fd : Z; pc_cpu : Z; pc_map_key : Z }.

(** The buffers that are there are the first of [cpu_cnt]. *)
Record perf_buffer := mk_pb {
  pb_page_size : Z; pb_mmap_size : Z; cpu_bufs : list perf_cpu_buf;
  pb_cpu_cnt : Z; pb_epoll_fd : Z; pb_map_fd : Z
}.
Definition add_cpu_buf (c : perf_cpu_buf) (pb : perf_buffer) : perf_buffer :=
  mk_pb (pb_page_size pb) (pb_mmap_size pb) (cpu_bufs pb ++ [c]) (pb_cpu_cnt pb) (pb_epoll_fd pb) (pb_map_fd pb).

(** How much of a CPU's descriptor is mapped. *)
Definition ring_len (pb : perf_buffer) : Z := u64 (pb_mmap_size pb + pb_page_size pb).

Definition perf_buffer__free_cpu_buf k (pb : perf_buffer) (c : perf_cpu_buf) : K :=
  let k := if pc_base c =? 0 then k else snd (sys_munmap k (pc_base c) (ring_len pb)) in
  if 0 <=? pc_fd c then
    let k := snd (sys_perf_ioctl k (pc_fd c) IOC_DISABLE) in snd (sys_close k (pc_fd c))
  else k.

Fixpoint free_cpu_bufs k (pb : perf_buffer) (cs : list perf_cpu_buf) : K :=
  match cs with
  | [] => k
  | c :: cs =>
      let k := snd (sys_map_delete_elem k (pb_map_fd pb) (le_bytes 4 (pc_map_key c))) in
      free_cpu_bufs (perf_buffer__free_cpu_buf k pb c) pb cs
  end.
Definition perf_buffer__free k (pb : option perf_buffer) : K :=
  match pb with
  | None => k
  | Some pb =>
      let k := free_cpu_bufs k pb (cpu_bufs pb) in
      if 0 <=? pb_epoll_fd pb then snd (sys_close k (pb_epoll_fd pb)) else k
  end.

Definition perf_buffer__open_cpu_buf k (pb : perf_buffer) (attr : perf_attr) (cpu map_key : Z)
    : (Z + perf_cpu_buf) * K :=
  let '(ok, k) := sys_alloc k in
  if negb ok then (inl (- ENOMEM), k) else
  match sys_perf_event_open k attr (-1) cpu with
  | (RErr e, k) => (inl (- e), perf_buffer__free_cpu_buf k pb (mk_pcb 0 (-1) cpu map_key))
  | (ROk fd, k) =>
      match sys_mmap k (ring_len pb) fd 0 with
      | (RErr e, k) => (inl (- e), perf_buffer__free_cpu_buf k pb (mk_pcb 0 fd cpu map_key))
      | (ROk base, k) =>
          match sys_perf_ioctl k fd IOC_ENABLE with
          | (RErr e, k) => (inl (- e), perf_buffer__free_cpu_buf k pb (mk_pcb base fd cpu map_key))
          | (ROk _, k) => (inr (mk_pcb base fd cpu map_key), k)
          end
      end
  end.

(** [struct perf_buffer_params] without the callbacks. *)
Record perf_buffer_params := mk_pparams {
  p_attr : perf_attr; p_cpu_cnt : Z; p_cpus : list Z; p_map_keys : list Z
}.

Definition new_failed (k : K) (pb : perf_buffer) (err : Z) : (Z + perf_buffer) * K :=
  (inl err, perf_buffer__free k (Some pb)).

(** The loop of [__perf_buffer__new]. *)
Fixpoint open_cpu_bufs k (pb : perf_buffer) (p : perf_buffer_params) (ixs : list Z)
    : res ((Z + perf_buffer) * K) :=
  match ixs with
  | [] => Ok (inr pb, k)
  | i :: ixs =>
      cpu ← (if 0 <? p_cpu_cnt p then aget (p_cpus p) i else Ok i);
      map_key ← (if 0 <? p_cpu_cnt p then aget (p_map_keys p) i else Ok i);
      match perf_buffer__open_cpu_buf k pb (p_attr p) cpu map_key with
      | (inl err, k) => Ok (new_failed k pb err)
      | (inr c, k) =>
          let pb := add_cpu_buf c pb in
          match sys_map_update_elem k (pb_map_fd pb) (le_bytes 4 map_key) (le_bytes 4 (pc_fd c)) with
          | (RErr e, k) => Ok (new_failed k pb (- e))
          | (ROk _, k) =>
              match sys_epoll_add k (pb_epoll_fd pb) (pc_fd c) i with
              | (RErr e, k) => Ok (new_failed k pb (- e))
              | (ROk _, k) => open_cpu_bufs k pb p ixs
              end
          end
      end
  end.

(** [__perf_buffer__new] once the number of CPUs is known. *)
Definition new_for_cpus k (pb : perf_buffer) (p : perf_buffer_params) : res ((Z + perf_buffer) * K) :=
  let '(ok, k) := sys_alloc k in
  if negb ok then Ok (new_failed k pb (- ENOMEM)) else
  let '(ok, k) := sys_alloc k in
  if negb ok then Ok (new_failed k pb (- ENOMEM)) else
  open_cpu_bufs k pb p (seqZ 0 (pb_cpu_cnt pb)).

Definition set_cpu_cnt (n : Z) (pb : perf_buffer) : perf_buffer :=
  mk_pb (pb_page_size pb) (pb_mmap_size pb) (cpu_bufs pb) n (pb_epoll_fd pb) (pb_map_fd pb).

(** The result, the static variable of [libbpf_num_possible_cpus], the system. *)
Definition __perf_buffer__new k (cpus map_fd page_cnt : Z) (p : perf_buffer_params)
    : res ((Z + perf_buffer) * Z * K) :=
  if negb (Z.land page_cnt (u64 (page_cnt - 1)) =? 0) then Ok (inl (- EINVAL), cpus, k) else
  match sys_obj_info k map_fd with
  | None => Ok (inl (- sys_errno k), cpus, k)
  | Some map =>
      if negb (in_type map =? BPF_MAP_TYPE_PERF_EVENT_ARRAY) then Ok (inl (- EINVAL), cpus, k) else
      let '(ok, k) := sys_alloc k in
      if negb ok then Ok (inl (- ENOMEM), cpus, k) else
      let page_size := getpagesize k in
      let pb := mk_pb page_size (u64 (page_size * page_cnt)) [] 0 (-1) map_fd in
      match sys_epoll_create k with
      | (RErr e, k) => let '(r, k) := new_failed k pb (- e) in Ok (r, cpus, k)
      | (ROk epoll_fd, k) =>
          let pb := mk_pb page_size (u64 (page_size * page_cnt)) [] 0 epoll_fd map_fd in
          if 0 <? p_cpu_cnt p then
            '(r, k) ← new_for_cpus k (set_cpu_cnt (p_cpu_cnt p) pb) p;
            Ok (r, cpus, k)
          else
            let '(n, cpus, k) := libbpf_num_possible_cpus k cpus in
            if n <? 0 then let '(r, k) := new_failed k pb n in Ok (r, cpus, k) else
            let n := if in_max_entries map <? n then in_max_entries map else n in
            '(r, k) ← new_for_cpus k (set_cpu_cnt n pb) p;
            Ok (r, cpus, k)
      end
  end.

Definition output_attr : perf_attr :=
  mk_pattr PERF_TYPE_SOFTWARE PERF_COUNT_SW_BPF_OUTPUT None 0 PERF_SAMPLE_RAW 1 1.
Definition perf_buffer__new k (cpus map_fd page_cnt : Z) : res ((Z + perf_buffer) * Z * K) :=
  __perf_buffer__new k cpus map_fd page_cnt (mk_pparams output_attr 0 [] []).
Definition perf_buffer__new_raw k (cpus map_fd page_cnt : Z) (attr : perf_attr) (cpu_cnt : Z)
    (cpu_list map_keys : list Z) : res ((Z + perf_buffer) * Z * K) :=
  __perf_buffer__new k cpus map_fd page_cnt (mk_pparams attr cpu_cnt cpu_list map_keys).
End perf.

(** * Who owns what *)

Section owned.
Context {K : Type} `{PerfSysLaws K}.
Implicit Types (k : K) (F : gset Z) (M : gset (Z * Z)) (fds : list Z) (ms : list (Z * Z)).

(** A call that opens a descriptor or returns a negative error. *)
Definition opens F M (r : Z * K) l ms : Prop :=
  if fst r <? 0 then has F M (snd r) l ms else has F M (snd r) (fst r :: l) ms.
(** A call that gives a link with a descriptor of its own, or an error. *)
Definition links F M (r : (Z + bpf_link) * K) l ms : Prop :=
  match fst r with
  | inl _ => has F M (snd r) l ms
  | inr link => 0 <= l_fd link /\ has F M (snd r) (l_fd link :: l) ms
  end.

Lemma ioctl_has F M k fd c l ms : has F M k l ms -> has F M (snd (sys_perf_ioctl k fd c)) l ms.
Proof. intros Hh. exact (proj1 (keeps_has _ _ _ _ _ _ (perf_ioctl_keeps k fd c) Hh)). Qed.

Lemma perf_open_has F M k a pid cpu l ms : has F M k l ms ->
  opens F M (match sys_perf_event_open k a pid cpu with (RErr e, k) => (- e, k) | (ROk fd, k) => (fd, k) end) l ms.
Proof.
  intros Hh. pose proof (gives_has _ _ _ _ _ _ (perf_event_open_gives k a pid cpu) Hh) as Hg.
  destruct (sys_perf_event_open k a pid cpu) as [[fd|e] k']; cbn in Hg |- *; unfold opens; cbn [fst snd].
  - replace (fd <? 0) with false by lia. apply Hg.
  - replace (- e <? 0) with true by lia. apply Hg.
Qed.

Lemma parse_uint_has F M k file prefix l ms :
  has F M k l ms -> has F M (snd (parse_uint_from_file k file prefix)) l ms.
Proof.
  intros Hh. unfold parse_uint_from_file.
  pose proof (gives_has _ _ _ _ _ _ (file_open_gives k file) Hh) as Hg.
  destruct (sys_file_open k file) as [[f|e] k']; cbn [fst snd] in Hg |- *; [|apply Hg].
  apply (close_has _ _ _ f); apply Hg.
Qed.

Lemma open_probe_has F M k u r name off pid l ms :
  has F M k l ms -> opens F M (perf_event_open_probe k u r name off pid) l ms.
Proof.
  intros Hh. unfold perf_event_open_probe.
  assert (has F M (snd (if u then determine_uprobe_perf_type k else determine_kprobe_perf_type k)) l ms) as Hs1
    by (destruct u; apply parse_uint_has, Hh).
  destruct (if u then _ else _) as [type k1]; cbn [snd] in Hs1.
  destruct (type <? 0) eqn:Et; [unfold opens; cbn [fst snd]; rewrite Et; exact Hs1|].
  assert (has F M (snd (if r then if u then determine_uprobe_retprobe_bit k1 else determine_kprobe_retprobe_bit k1
                        else (0, k1))) l ms) as Hs2
    by (destruct r, u; try (apply parse_uint_has, Hs1); exact Hs1).
  destruct (if r then _ else _) as [bit k2]; cbn [snd] in Hs2.
  destruct (bit <? 0) eqn:Eb; [unfold opens; cbn [fst snd]; rewrite Eb; exact Hs2|].
  apply perf_open_has, Hs2.
Qed.

Lemma open_tracepoint_has F M k c n l ms :
  has F M k l ms -> opens F M (perf_event_open_tracepoint k c n) l ms.
Proof.
  intros Hh. unfold perf_event_open_tracepoint.
  assert (has F M (snd (determine_tracepoint_id k c n)) l ms) as Hs1.
  { unfold determine_tracepoint_id. destruct (4096 <=? _); [exact Hh | apply parse_uint_has, Hh]. }
  destruct (determine_tracepoint_id k c n) as [id k1]; cbn [snd] in Hs1.
  destruct (id <? 0) eqn:Ei; [unfold opens; cbn [fst snd]; rewrite Ei; exact Hs1|].
  apply perf_open_has, Hs1.
Qed.

Lemma attach_perf_event_has F M k prog pfd l ms :
  has F M k l ms ->
  match fst (bpf_program__attach_perf_event k prog pfd) with
  | inl _ => True
  | inr link => link = mk_link DestroyPerfEvent pfd
  end /\ has F M (snd (bpf_program__attach_perf_event k prog pfd)) l ms.
Proof.
  intros Hh. unfold bpf_program__attach_perf_event.
  destruct (pfd <? 0); [split; [exact I | exact Hh]|].
  destruct (bpf_program__fd _ <? 0); [split; [exact I | exact Hh]|].
  apply alloc_has in Hh. destruct (sys_alloc k) as [ok k1]; cbn [snd] in Hh.
  destruct ok; cbn [negb]; [|split; [exact I | exact Hh]].
  apply (ioctl_has _ _ _ pfd (IOC_SET_BPF (bpf_program__fd (Some prog)))) in Hh.
  destruct (sys_perf_ioctl k1 _ _) as [[v|e] k2]; cbn [snd] in Hh; [|split; [exact I | exact Hh]].
  apply (ioctl_has _ _ _ pfd IOC_ENABLE) in Hh.
  destruct (sys_perf_ioctl k2 _ _) as [[v'|e] k3]; cbn [snd] in Hh; split; try exact I; try exact Hh; reflexivity.
Qed.

Lemma attach_opened_has F M prog r l ms : opens F M r l ms -> links F M (attach_opened prog r) l ms.
Proof.
  unfold opens, attach_opened. destruct r as [pfd k]; cbn [fst snd].
  destruct (Z.ltb_spec pfd 0) as [Hneg|Hpos]; [intros Hh; exact Hh|]. intros Hh.
  destruct (attach_perf_event_has _ _ _ prog pfd _ _ Hh) as [Hl Ha].
  destruct (bpf_program__attach_perf_event k prog pfd) as [[err|link] k1]; cbn [fst snd] in Hl, Ha.
  - apply (close_has _ _ _ pfd); [exact Hpos | exact Ha].
  - subst link. split; [exact Hpos | exact Ha].
Qed.

Lemma attach_raw_has F M k prog n l ms :
  has F M k l ms -> links F M (bpf_program__attach_raw_tracepoint k prog n) l ms.
Proof.
  intros Hh. unfold bpf_program__attach_raw_tracepoint. destruct (_ <? 0); [exact Hh|].
  apply alloc_has in Hh. destruct (sys_alloc k) as [ok k1]; cbn [snd] in Hh.
  destruct ok; cbn [negb]; [|exact Hh].
  pose proof (gives_has _ _ _ _ _ _ (raw_tracepoint_gives k1 n (bpf_program__fd (Some prog))) Hh) as Hg.
  destruct (sys_raw_tracepoint_open k1 n _) as [[fd|e] k2]; cbn [fst snd] in Hg; [exact Hg | apply Hg].
Qed.

Lemma link_destroy_has F M k link l ms :
  0 <= l_fd link -> has F M k (l_fd link :: l) ms ->
  has F M (snd (bpf_link__destroy k (Some link))) l ms.
Proof.
  intros Hfd Hh. unfold bpf_link__destroy. destruct (destroy link).
  - unfold bpf_link__destroy_perf_event. apply (ioctl_has _ _ _ (l_fd link) IOC_DISABLE) in Hh.
    destruct (sys_perf_ioctl k _ _) as [r k1]; cbn [snd] in Hh |- *. apply (close_has _ _ _ (l_fd link)); assumption.
  - unfold bpf_link__destroy_fd. apply (close_has _ _ _ (l_fd link)) in Hh; [|exact Hfd].
    destruct (sys_close k (l_fd link)) as [[v|e] k1]; exact Hh.
Qed.

(** * Perf buffers *)

(** The mapping of a CPU's ring. *)
Definition cpu_map (pb : perf_buffer) (c : perf_cpu_buf) : Z * Z := (pc_base c, ring_len pb).
(** What a perf buffer holds is among what is owned. *)
Definition pb_owned F M k (pb : perf_buffer) fds ms : Prop :=
  Forall (fun c => 0 < pc_base c /\ 0 <= pc_fd c) (cpu_bufs pb) /\
  has F M k ((pc_fd <$> cpu_bufs pb) ++ (if 0 <=? pb_epoll_fd pb then [pb_epoll_fd pb] else []) ++ fds)
    ((cpu_map pb <$> cpu_bufs pb) ++ ms).

Lemma free_cpu_buf_has F M k pb c l ms :
  0 < pc_base c -> 0 <= pc_fd c -> has F M k (pc_fd c :: l) (cpu_map pb c :: ms) ->
  has F M (perf_buffer__free_cpu_buf k pb c) l ms.
Proof.
  intros Hb Hfd Hh. unfold perf_buffer__free_cpu_buf.
  replace (pc_base c =? 0) with false by lia. replace (0 <=? pc_fd c) with true by lia.
  apply munmap_has in Hh. apply (ioctl_has _ _ _ (pc_fd c) IOC_DISABLE) in Hh.
  apply (close_has _ _ _ (pc_fd c)); assumption.
Qed.

Lemma free_cpu_bufs_has F M pb cs : forall k l ms,
  Forall (fun c => 0 < pc_base c /\ 0 <= pc_fd c) cs ->
  has F M k ((pc_fd <$> cs) ++ l) ((cpu_map pb <$> cs) ++ ms) ->
  has F M (free_cpu_bufs k pb cs) l ms.
Proof.
  induction cs as [|c cs IH]; intros k l ms Hcs Hh; [exact Hh|].
  apply Forall_cons in Hcs as [[Hb Hfd] Hcs]. cbn [free_cpu_bufs]. apply IH; [exact Hcs|].
  apply free_cpu_buf_has; [exact Hb | exact Hfd |].
  exact (proj1 (keeps_has _ _ _ _ _ _ (delete_elem_keeps k (pb_map_fd pb) _) Hh)).
Qed.

Lemma perf_buffer_free_has F M k pb fds ms :
  pb_owned F M k pb fds ms -> has F M (perf_buffer__free k (Some pb)) fds ms.
Proof.
  intros [Hcs Hh]. cbn [perf_buffer__free]. pose proof (free_cpu_bufs_has F M pb _ k _ _ Hcs Hh) as Hf.
  destruct (Z.leb_spec 0 (pb_epoll_fd pb)) as [He|He]; [|exact Hf].
  apply (close_has _ _ _ (pb_epoll_fd pb)); assumption.
Qed.

Lemma open_cpu_buf_has F M k pb attr cpu key l ms :
  has F M k l ms ->
  match fst (perf_buffer__open_cpu_buf k pb attr cpu key) with
  | inl _ => has F M (snd (perf_buffer__open_cpu_buf k pb attr cpu key)) l ms
  | inr c => 0 < pc_base c /\ 0 <= pc_fd c /\ pc_cpu c = cpu /\ pc_map_key c = key /\
      has F M (snd (perf_buffer__open_cpu_buf k pb attr cpu key)) (pc_fd c :: l) (cpu_map pb c :: ms)
  end.
Proof.
  intros Hh. unfold perf_buffer__open_cpu_buf.
  apply alloc_has in Hh. destruct (sys_alloc k) as [ok k1]; cbn [snd] in Hh.
  destruct ok; cbn [negb]; [|exact Hh].
  pose proof (gives_has _ _ _ _ _ _ (perf_event_open_gives k1 attr (-1) cpu) Hh) as Hg.
  destruct (sys_perf_event_open k1 attr (-1) cpu) as [[fd|e] k2]; cbn [fst snd] in Hg; [|apply Hg].
  destruct Hg as [Hfd Hh2].
  pose proof (mmap_has _ _ _ (ring_len pb) fd 0 _ _ Hh2) as Hm.
  pose proof (mmap_above k2 (ring_len pb) fd 0) as Habove.
  destruct (sys_mmap k2 (ring_len pb) fd 0) as [[base|e] k3]; cbn [fst snd] in Hm, Habove.
  - destruct Hm as [_ Hm]. specialize (Habove base eq_refl).
    apply (ioctl_has _ _ _ fd IOC_ENABLE) in Hm.
    destruct (sys_perf_ioctl k3 fd IOC_ENABLE) as [[v|e] k4]; cbn [fst snd] in Hm |- *.
    + do 4 (split; [assumption || reflexivity|]). exact Hm.
    + apply (free_cpu_buf_has F M k4 pb (mk_pcb base fd cpu key)); assumption.
  - destruct Hm as [_ Hm]. cbn [fst snd]. unfold perf_buffer__free_cpu_buf. cbn [pc_base pc_fd Z.eqb].
    replace (0 <=? fd) with true by lia. apply (ioctl_has _ _ _ fd IOC_DISABLE) in Hm.
    apply (close_has _ _ _ fd); assumption.
Qed.

(** The CPU and the key of the [i]-th buffer. *)
Definition cpu_of (p : perf_buffer_params) (i : Z) : Z * Z :=
  if 0 <? p_cpu_cnt p
  then (default 0 (p_cpus p !! Z.to_nat i), default 0 (p_map_keys p !! Z.to_nat i)) else (i, i).
(** The caller's arrays are as long as it says. *)
Definition params_ok (p : perf_buffer_params) : Prop :=
  p_cpu_cnt p <= zlen (p_cpus p) /\ p_cpu_cnt p <= zlen (p_map_keys p).

Lemma cpu_of_get p i : params_ok p -> 0 <= i -> (0 < p_cpu_cnt p -> i < p_cpu_cnt p) ->
  (if 0 <? p_cpu_cnt p then aget (p_cpus p) i else Ok i) = Ok (fst (cpu_of p i)) /\
  (if 0 <? p_cpu_cnt p then aget (p_map_keys p) i else Ok i) = Ok (snd (cpu_of p i)).
Proof.
  intros [Hc Hk] Hi Hlt. unfold cpu_of. destruct (Z.ltb_spec 0 (p_cpu_cnt p)) as [Hp|Hp]; [|auto].
  specialize (Hlt Hp). cbn [fst snd]. split; apply aget_Ok; (split; [lia|]).
  - destruct (lookup_lt_is_Some_2 (p_cpus p) (Z.to_nat i)) as [x Hx]; [unfold zlen in *; lia | rewrite Hx; reflexivity].
  - destruct (lookup_lt_is_Some_2 (p_map_keys p) (Z.to_nat i)) as [x Hx]; [unfold zlen in *; lia | rewrite Hx; reflexivity].
Qed.

Definition cpus_in (pb : perf_buffer) : list (Z * Z) := (fun c => (pc_cpu c, pc_map_key c)) <$> cpu_bufs pb.

(** The result of making a perf buffer of the CPUs [cs]. *)
Definition made F M fds ms cs (r : Z + perf_buffer) k : Prop :=
  match r with
  | inl _ => has F M k fds ms
  | inr pb => pb_owned F M k pb fds ms /\ cpus_in pb = cs
  end.

Lemma open_cpu_bufs_made F M p fds ms : params_ok p -> forall ixs k pb,
  pb_owned F M k pb fds ms ->
  Forall (fun i => 0 <= i /\ (0 < p_cpu_cnt p -> i < p_cpu_cnt p)) ixs ->
  exists r k', open_cpu_bufs k pb p ixs = Ok (r, k') /\
    made F M fds ms (cpus_in pb ++ (cpu_of p <$> ixs)) r k'.
Proof.
  intros Hp. induction ixs as [|i ixs IH]; intros k pb Hpb Hix.
  { exists (inr pb), k. split; [reflexivity|]. split; [exact Hpb|]. cbn. rewrite app_nil_r. reflexivity. }
  apply Forall_cons in Hix as [[Hi Hlt] Hix]. cbn [open_cpu_bufs].
  destruct (cpu_of_get p i Hp Hi Hlt) as [-> ->]. rewrite !bind_Ok.
  destruct Hpb as [Hcs Hh]. pose proof (open_cpu_buf_has F M k pb (p_attr p) (fst (cpu_of p i)) (snd (cpu_of p i)) _ _ Hh) as Ho.
  destruct (perf_buffer__open_cpu_buf k pb _ _ _) as [[err|c] k1]; cbn [fst snd] in Ho.
  { do 2 eexists. split; [reflexivity|]. apply perf_buffer_free_has. split; assumption. }
  destruct Ho as (Hb & Hfd & Ecpu & Ekey & Hh1). set (pb1 := add_cpu_buf c pb).
  assert (forall k2, has F M k2 (pc_fd c :: (pc_fd <$> cpu_bufs pb) ++ (if 0 <=? pb_epoll_fd pb then [pb_epoll_fd pb] else []) ++ fds)
                       (cpu_map pb c :: (cpu_map pb <$> cpu_bufs pb) ++ ms) -> pb_owned F M k2 pb1 fds ms) as Hadd.
  { intros k2 Hk2. split; [apply Forall_app; split; [exact Hcs | repeat constructor; assumption]|].
    cbn [pb1 add_cpu_buf cpu_bufs pb_epoll_fd]. rewrite !fmap_app, <- !app_assoc.
    cbn [fmap list_fmap app]. rewrite <- !Permutation_middle. exact Hk2. }
  pose proof (keeps_has _ _ _ _ _ _ (update_elem_keeps k1 (pb_map_fd pb1) (le_bytes 4 (snd (cpu_of p i))) (le_bytes 4 (pc_fd c))) Hh1) as [Hu _].
  destruct (sys_map_update_elem k1 _ _ _) as [[v|e] k2]; cbn [snd] in Hu;
    [|do 2 eexists; split; [reflexivity | exact (perf_buffer_free_has _ _ _ _ _ _ (Hadd _ Hu))]].
  pose proof (keeps_has _ _ _ _ _ _ (epoll_add_keeps k2 (pb_epoll_fd pb1) (pc_fd c) i) Hu) as [He _].
  destruct (sys_epoll_add k2 _ _ _) as [[v'|e] k3]; cbn [snd] in He;
    [|do 2 eexists; split; [reflexivity | exact (perf_buffer_free_has _ _ _ _ _ _ (Hadd _ He))]].
  destruct (IH k3 pb1 (Hadd _ He) Hix) as (r & k' & E & Hr). exists r, k'. split; [exact E|].
  assert (cpus_in pb1 = cpus_in pb ++ [cpu_of p i]) as Hc1.
  { unfold cpus_in, pb1, add_cpu_buf. cbn [cpu_bufs]. rewrite fmap_app. cbn. rewrite Ecpu, Ekey, <- surjective_pairing. reflexivity. }
  rewrite Hc1, <- app_assoc in Hr. exact Hr.
Qed.

Lemma num_cpus_has F M k cpus l ms :
  has F M k l ms -> has F M (snd (libbpf_num_possible_cpus k cpus)) l ms.
Proof.
  intros Hh. unfold libbpf_num_possible_cpus. destruct (0 <? cpus); [exact Hh|].
  pose proof (gives_has _ _ _ _ _ _ (file_open_gives k "/sys/devices/system/cpu/possible") Hh) as Hg.
  destruct (sys_file_open k _) as [[fd|e] k1]; cbn [fst snd] in Hg |- *; [|apply Hg].
  destruct Hg as [Hfd Hg]. apply (close_has _ _ _ fd _ _ Hfd) in Hg.
  destruct (sys_file_text k1 fd) as [e|text]; [exact Hg|].
  destruct (zlen _ =? 0); [exact Hg|]. destruct (zlen _ =? 128); [exact Hg|].
  destruct (count_cpus _ _ _) as [err|n]; [exact Hg|]. destruct (n <=? 0); exact Hg.
Qed.

Lemma new_for_cpus_made F M k pb p fds ms :
  params_ok p -> pb_owned F M k pb fds ms -> cpu_bufs pb = [] ->
  (0 < p_cpu_cnt p -> pb_cpu_cnt pb <= p_cpu_cnt p) ->
  exists r k', new_for_cpus k pb p = Ok (r, k') /\
    made F M fds ms (cpu_of p <$> seqZ 0 (pb_cpu_cnt pb)) r k'.
Proof.
  intros Hp [Hcs Hh] Hnone Hcnt. unfold new_for_cpus.
  apply alloc_has in Hh. destruct (sys_alloc k) as [ok k1]; cbn [snd] in Hh.
  destruct ok; cbn [negb];
    [|do 2 eexists; split; [reflexivity | apply perf_buffer_free_has; split; assumption]].
  apply alloc_has in Hh. destruct (sys_alloc k1) as [ok k2]; cbn [snd] in Hh.
  destruct ok; cbn [negb];
    [|do 2 eexists; split; [reflexivity | apply perf_buffer_free_has; split; assumption]].
  destruct (open_cpu_bufs_made F M p fds ms Hp (seqZ 0 (pb_cpu_cnt pb)) k2 pb) as (r & k' & E & Hr).
  - split; assumption.
  - apply Forall_forall. intros i Hi%elem_of_seqZ. split; [lia|]. intros Hc. specialize (Hcnt Hc). lia.
  - exists r, k'. split; [exact E|]. unfold cpus_in in Hr. rewrite Hnone in Hr. exact Hr.
Qed.

(** Which CPUs a perf buffer is for: those the caller lists, or the first of
    the possible ones, as many as the map has entries. *)
Definition cpus_wanted k (cpus map_fd : Z) (p : perf_buffer_params) (cs : list (Z * Z)) : Prop :=
  if 0 <? p_cpu_cnt p then cs = cpu_of p <$> seqZ 0 (p_cpu_cnt p)
  else exists info k1, sys_obj_info k map_fd = Some info /\
    let n := fst (fst (libbpf_num_possible_cpus k1 cpus)) in
    cs = cpu_of p <$> seqZ 0 (if in_max_entries info <? n then in_max_entries info else n).

Lemma perf_buffer_new_made F M k cpus map_fd page_cnt p fds ms :
  params_ok p -> has F M k fds ms ->
  exists r cpus' k', __perf_buffer__new k cpus map_fd page_cnt p = Ok (r, cpus', k') /\
    match r with
    | inl _ => has F M k' fds ms
    | inr pb => pb_owned F M k' pb fds ms /\ cpus_wanted k cpus map_fd p (cpus_in pb)
    end.
Proof.
  intros Hp Hh. unfold __perf_buffer__new.
  destruct (negb (Z.land page_cnt _ =? 0)); [eauto 6|].
  destruct (sys_obj_info k map_fd) as [info|] eqn:Einfo; [|eauto 6].
  destruct (negb (in_type info =? _)); [eauto 6|].
  apply alloc_has in Hh. destruct (sys_alloc k) as [ok k1]; cbn [snd] in Hh.
  destruct ok; cbn [negb]; [|eauto 6].
  pose proof (gives_has _ _ _ _ _ _ (epoll_create_gives k1) Hh) as Hg.
  destruct (sys_epoll_create k1) as [[ep|e] k2]; cbn [fst snd] in Hg;
    [|destruct Hg as [_ Hg]; do 3 eexists; split; [reflexivity | exact Hg]].
  destruct Hg as [Hep Hg]. set (pb := mk_pb (getpagesize k1) _ [] 0 ep map_fd).
  assert (forall k n, has F M k (ep :: fds) ms -> pb_owned F M k (set_cpu_cnt n pb) fds ms) as Hpb.
  { intros k3 n Hk3. split; [constructor|]. cbn. replace (0 <=? ep) with true by lia. exact Hk3. }
  unfold cpus_wanted. destruct (Z.ltb_spec 0 (p_cpu_cnt p)) as [Hc|Hc].
  - destruct (new_for_cpus_made F M k2 _ p fds ms Hp (Hpb k2 (p_cpu_cnt p) Hg) eq_refl) as (r & k' & E & Hr);
      [cbn; lia|].
    rewrite E, bind_Ok. do 3 eexists. split; [reflexivity|]. exact Hr.
  - apply (num_cpus_has _ _ _ cpus) in Hg.
    destruct (libbpf_num_possible_cpus k2 cpus) as [[n cpus1] k3] eqn:En; cbn [snd] in Hg.
    destruct (n <? 0); [do 3 eexists; split; [reflexivity | exact (perf_buffer_free_has _ _ _ _ _ _ (Hpb k3 0 Hg))]|].
    set (cnt := if in_max_entries info <? n then in_max_entries info else n).
    destruct (new_for_cpus_made F M k3 _ p fds ms Hp (Hpb k3 cnt Hg) eq_refl) as (r & k' & E & Hr); [lia|].
    rewrite E, bind_Ok. do 3 eexists. split; [reflexivity|].
    destruct r as [err|pb1]; [exact Hr|]. destruct Hr as [Ho Ec]. split; [exact Ho|].
    exists info, k2. split; [exact Einfo|]. rewrite En. exact Ec.
Qed.
End owned.

(** * The theorems *)

(** The ways to attach a program. *)
Inductive attach_to :=
| Kprobe (retprobe : bool) (func_name : string)
| Uprobe (retprobe : bool) (pid : Z) (binary_path : string) (func_offset : Z)
| Tracepoint (tp_category tp_name : string)
| RawTracepoint (tp_name : string).
Definition attach {K} `{PerfSys K} (k : K) (prog : bpf_program) (a : attach_to) : (Z + bpf_link) * K :=
  match a with
  | Kprobe r f => bpf_program__attach_kprobe k prog r f
  | Uprobe r pid path off => bpf_program__attach_uprobe k prog r pid path off
  | Tracepoint c n => bpf_program__attach_tracepoint k prog c n
  | RawTracepoint n => bpf_program__attach_raw_tracepoint k prog n
  end.

Lemma attach_has {K} `{PerfSysLaws K} F M (k : K) prog a l ms :
  has F M k l ms -> links F M (attach k prog a) l ms.
Proof.
  intros Hh. destruct a; [| | |exact (attach_raw_has _ _ _ _ _ _ _ Hh)];
    apply attach_opened_has; first [apply open_probe_has | apply open_tracepoint_has]; exact Hh.
Qed.

(** C13: attaching a program to a kernel or user function (or its return),
    a tracepoint or a raw tracepoint gives a link with one new descriptor,
    or an error with every descriptor closed again; nothing is mapped; and
    destroying the link, whenever that is, gives the descriptor back. *)
Theorem attach_link_life {K} `{PerfSysLaws K} (k : K) prog a :
  let '(r, k') := attach k prog a in
  mappings k' = mappings k /\
  match r with
  | inl _ => open_fds k' = open_fds k
  | inr link => (l_fd link ∉ open_fds k) /\ open_fds k' = {[ l_fd link ]} ∪ open_fds k /\
      forall k2, open_fds k2 = open_fds k' -> mappings k2 = mappings k ->
        open_fds (snd (bpf_link__destroy k2 (Some link))) = open_fds k /\
        mappings (snd (bpf_link__destroy k2 (Some link))) = mappings k
  end.
Proof.
  pose proof (attach_has (open_fds k) (mappings k) k prog a [] [] (has_start k)) as Hl.
  destruct (attach k prog a) as [[err|link] k']; unfold links in Hl; cbn [fst snd] in Hl.
  - apply has_nothing in Hl. tauto.
  - destruct Hl as [Hfd Hh]. pose proof Hh as ((Hnd & Hf & Hd) & _ & Hm & _).
    rewrite live_cons, decide_True in Hf, Hd, Hnd by lia. cbn in Hf, Hd, Hnd, Hm.
    split; [set_solver|]. split; [set_solver|]. split; [set_solver|].
    intros k2 Hf2 Hm2. apply has_nothing. apply link_destroy_has; [exact Hfd|].
    apply (has_keep _ _ k'); [split; [exact Hf2 | set_solver] | exact Hh].
Qed.

(** C11: making a perf buffer never faults if the caller's arrays are as
    long as it says; it gives a buffer that owns one descriptor for epoll
    and, for each of the CPUs that were asked for, in their order, one
    descriptor and one mapping, or an error with nothing left open or
    mapped, whichever call failed; and freeing the buffer gives everything
    back. *)
Theorem perf_buffer_life {K} `{PerfSysLaws K} (k : K) cpus map_fd page_cnt p (Hp : params_ok p) :
  exists r cpus' k', __perf_buffer__new k cpus map_fd page_cnt p = Ok (r, cpus', k') /\
    match r with
    | inl _ => open_fds k' = open_fds k /\ mappings k' = mappings k
    | inr pb => pb_owned (open_fds k) (mappings k) k' pb [] [] /\
        cpus_wanted k cpus map_fd p (cpus_in pb) /\
        forall k2, pb_owned (open_fds k) (mappings k) k2 pb [] [] ->
          open_fds (perf_buffer__free k2 (Some pb)) = open_fds k /\
          mappings (perf_buffer__free k2 (Some pb)) = mappings k
    end.
Proof.
  destruct (perf_buffer_new_made _ _ k cpus map_fd page_cnt p [] [] Hp (has_start k)) as (r & cpus' & k' & E & Hr).
  exists r, cpus', k'. split; [exact E|]. destruct r as [err|pb]; [exact (has_nothing _ _ _ Hr)|].
  destruct Hr as [Ho Hc]. split; [exact Ho|]. split; [exact Hc|].
  intros k2 Hk2. apply has_nothing, perf_buffer_free_has, Hk2.
Qed.

(** * Counting CPUs *)

(** A number in decimal, and CPUs the way the kernel lists them: ranges,
    separated by commas. *)
Fixpoint dec_onto (fuel : nat) (n : Z) (acc : list byte) : list byte :=
  let acc' := byte_of_Z (48 + n mod 10) :: acc in
  match fuel with
  | O => acc'
  | S fuel => if n <? 10 then acc' else dec_onto fuel (n / 10) acc'
  end.
Definition dec (n : Z) : list byte := dec_onto 10 n [].
Definition range_text (r : Z * Z) : list byte :=
  if fst r =? snd r then dec (fst r) else dec (fst r) ++ Byte.x2d :: dec (snd r).
Fixpoint cpu_list (rs : list (Z * Z)) : list byte :=
  match rs with
  | [] => []
  | [r] => range_text r ++ [Byte.x0a]
  | r :: rs => range_text r ++ Byte.x2c :: cpu_list rs
  end.
Definition range_ok (r : Z * Z) : Prop := 0 <= fst r <= snd r /\ snd r < 2 ^ 31.
Definition total (rs : list (Z * Z)) : Z := foldr (fun r n => snd r - fst r + 1 + n) 0 rs.

Definition no_digit_first (s : list byte) : Prop :=
  match s with [] => True | c :: _ => is_digit c = false end.

Lemma digit_byte d : 0 <= d < 10 -> byte_val (byte_of_Z (48 + d)) = 48 + d /\ is_digit (byte_of_Z (48 + d)) = true.
Proof.
  intros Hd. assert (byte_val (byte_of_Z (48 + d)) = 48 + d) as E
    by (rewrite byte_val_of_Z, Z.mod_small by lia; reflexivity).
  split; [exact E|]. unfold is_digit. rewrite E. lia.
Qed.

Lemma dec_onto_spec fuel : forall n acc, 0 <= n < 10 ^ (Z.of_nat fuel + 1) ->
  exists d ds, dec_onto fuel n acc = d :: ds ++ acc /\ Forall (fun b => is_digit b = true) (d :: ds) /\
    forall rest a, digits (d :: ds ++ rest) a = digits rest (a * 10 ^ Z.of_nat (length (d :: ds)) + n).
Proof.
  induction fuel as [|fuel IH]; intros n acc Hn.
  - change (10 ^ (Z.of_nat 0 + 1)) with 10 in Hn.
    destruct (digit_byte (n mod 10)) as [Ev Ed]; [apply Z.mod_pos_bound; lia|].
    exists (byte_of_Z (48 + n mod 10)), []. split; [reflexivity|]. split; [repeat constructor; exact Ed|].
    intros rest a. cbn [digits app length]. rewrite Ed, Ev. f_equal. change (10 ^ Z.of_nat 1) with 10. lia.
  - cbn [dec_onto]. destruct (digit_byte (n mod 10)) as [Ev Ed]; [apply Z.mod_pos_bound; lia|].
    destruct (Z.ltb_spec n 10) as [Hlt|Hge].
    + exists (byte_of_Z (48 + n mod 10)), []. split; [reflexivity|]. split; [repeat constructor; exact Ed|].
      intros rest a. cbn [digits app length]. rewrite Ed, Ev, Z.mod_small by lia. f_equal.
      change (10 ^ Z.of_nat 1) with 10. lia.
    + assert (0 <= n / 10 < 10 ^ (Z.of_nat fuel + 1)) as Hn'.
      { split; [apply Z.div_pos; lia|]. apply Z.div_lt_upper_bound; [lia|].
        replace (Z.of_nat (S fuel) + 1) with (Z.succ (Z.of_nat fuel + 1)) in Hn by lia.
        rewrite Z.pow_succ_r in Hn by lia. lia. }
      destruct (IH (n / 10) (byte_of_Z (48 + n mod 10) :: acc) Hn') as (d & ds & E & Hds & Hdig).
      exists d, (ds ++ [byte_of_Z (48 + n mod 10)]). split; [rewrite E, <- app_assoc; reflexivity|].
      split; [apply (Forall_app_2 _ (d :: ds)); [exact Hds | repeat constructor; exact Ed]|].
      intros rest a. rewrite <- app_assoc. rewrite Hdig. cbn [app digits]. rewrite Ed, Ev. f_equal.
      cbn [length]. rewrite length_app. cbn [length].
      replace (Z.of_nat (S (length ds + 1))) with (Z.succ (Z.of_nat (S (length ds)))) by lia.
      rewrite Z.pow_succ_r by lia. pose proof (Z.div_mod n 10). nia.
Qed.

Lemma skip_digits_app ds rest :
  Forall (fun b => is_digit b = true) ds -> no_digit_first rest -> skip_digits (ds ++ rest) = rest.
Proof.
  intros Hds Hr. induction Hds as [|d ds Hd _ IH]; cbn [app skip_digits].
  - destruct rest as [|c rest]; [reflexivity|]. cbn in Hr |- *. rewrite Hr. reflexivity.
  - rewrite Hd. exact IH.
Qed.

Lemma scan_u_dec n rest : 0 <= n < 2 ^ 32 -> no_digit_first rest -> scan_u (dec n ++ rest) = Some (n, rest).
Proof.
  intros Hn Hrest. unfold dec.
  destruct (dec_onto_spec 10 n []) as (d & ds & E & Hds & Hdig); [change (10 ^ (Z.of_nat 10 + 1)) with 100000000000; lia|].
  rewrite E, app_nil_r. pose proof Hds as [Hd _]%Forall_cons.
  assert (48 <= byte_val d <= 57) as Hv by (unfold is_digit in Hd; lia).
  cbn [app]. unfold scan_u. cbn [skip_space].
  assert (is_space d = false) as ->.
  { unfold is_space. rewrite bool_decide_false; [lia|]. intros ->. discriminate Hd. }
  rewrite decide_False by (intros ->; discriminate Hd).
  rewrite decide_False by (intros ->; discriminate Hd).
  unfold scan_digits. rewrite Hd, Hdig.
  change (d :: ds ++ rest) with ((d :: ds) ++ rest). rewrite (skip_digits_app (d :: ds)) by assumption.
  assert (digits rest (0 * 10 ^ Z.of_nat (length (d :: ds)) + n) = n) as ->.
  { destruct rest as [|c rest]; [cbn; lia|]. cbn in Hrest |- *. rewrite Hrest. lia. }
  rewrite Z.min_l, u32_small by lia. reflexivity.
Qed.

Lemma scan_range_text r rest :
  range_ok r -> rest = [] \/ rest = [Byte.x0a] -> scan_range (range_text r ++ rest) = Some r.
Proof.
  intros [Hr Hb] Hrest. assert (no_digit_first rest) as Hd by (destruct Hrest as [->| ->]; reflexivity).
  destruct r as [a b]. unfold range_text, scan_range. cbn [fst snd] in *. destruct (Z.eqb_spec a b) as [->|Hne].
  - rewrite scan_u_dec by (lia || exact Hd). destruct Hrest as [->| ->]; reflexivity.
  - rewrite <- app_assoc. cbn [app]. rewrite scan_u_dec by (lia || reflexivity).
    rewrite decide_True by reflexivity. rewrite scan_u_dec by (lia || exact Hd). reflexivity.
Qed.

(** No comma and no NUL: [count_cpus] goes on. *)
Definition plain_byte (c : byte) : Prop := ~ (c = Byte.x2c \/ c = NUL).
Lemma count_cpus_plain xs : forall buf piece n, Forall plain_byte xs ->
  count_cpus (xs ++ buf) piece n = count_cpus buf (piece ++ xs) n.
Proof.
  induction xs as [|x xs IH]; intros buf piece n Hxs; [rewrite app_nil_r; reflexivity|].
  apply Forall_cons in Hxs as [Hx Hxs]. cbn [app count_cpus]. rewrite decide_False by exact Hx.
  rewrite IH by exact Hxs. rewrite <- app_assoc. reflexivity.
Qed.

Lemma dec_plain n : 0 <= n < 2 ^ 32 -> Forall plain_byte (dec n).
Proof.
  intros Hn. unfold dec.
  destruct (dec_onto_spec 10 n []) as (d & ds & E & Hds & _); [change (10 ^ (Z.of_nat 10 + 1)) with 100000000000; lia|].
  rewrite E, app_nil_r. eapply Forall_impl; [exact Hds|]. intros c Hc [->| ->]; discriminate.
Qed.

Lemma range_text_plain r : range_ok r -> Forall plain_byte (range_text r).
Proof.
  intros [Hr Hb]. unfold range_text. destruct (_ =? _); [apply dec_plain; lia|].
  apply Forall_app. split; [apply dec_plain; lia|]. constructor; [intros [|]; discriminate | apply dec_plain; lia].
Qed.

Lemma total_nonneg rs : Forall range_ok rs -> 0 <= total rs.
Proof. induction 1 as [|r rs [Hr _] _ IH]; cbn; [lia|]. fold (total rs) in *. lia. Qed.

Lemma count_cpu_list rs : rs <> [] -> Forall range_ok rs -> forall n,
  0 <= n -> n + total rs < 2 ^ 31 -> count_cpus (cpu_list rs ++ [NUL]) [] n = inr (n + total rs).
Proof.
  intros Hne Hrs. induction Hrs as [|r rs Hr Hrs IH]; [contradiction|]. intros n Hn Ht.
  assert (forall m, 0 <= m -> m < 2 ^ 31 -> m = n + (snd r - fst r + 1) ->
    s32 (n + u32 (u32 (snd r - fst r) + 1)) = m) as Hstep.
  { intros m ? ? ->. destruct Hr as [? ?]. rewrite (u32_small (snd r - fst r)), u32_small, s32_small by lia. lia. }
  pose proof (total_nonneg rs Hrs) as Hpos.
  change (total (r :: rs)) with (snd r - fst r + 1 + total rs) in *. destruct rs as [|r' rs].
  - cbn [cpu_list]. rewrite <- app_assoc, count_cpus_plain by (apply range_text_plain, Hr). cbn [app].
    cbn [count_cpus]. rewrite decide_False by (intros [|]; discriminate).
    rewrite decide_True by (right; reflexivity). rewrite scan_range_text by auto.
    destruct r as [a b]. cbn [fst snd] in *. cbn [total foldr] in *. f_equal. apply Hstep; destruct Hr; cbn in *; lia.
  - change (cpu_list (r :: r' :: rs)) with (range_text r ++ Byte.x2c :: cpu_list (r' :: rs)).
    rewrite <- app_assoc, count_cpus_plain by (apply range_text_plain, Hr).
    cbn [app count_cpus]. rewrite decide_True by (left; reflexivity).
    rewrite <- (app_nil_r (range_text r)), scan_range_text by auto.
    destruct r as [a b]. cbn [fst snd] in *. destruct Hr as [Hr Hb]. cbn in Hr, Hb.
    rewrite (Hstep (n + (b - a + 1))) by lia. rewrite IH by (lia || discriminate). f_equal. lia.
Qed.

(** C33: [libbpf_num_possible_cpus] reads the list of the possible CPUs as
    the kernel prints it: for any ranges of CPUs whose list fits the buffer
    the result is how many CPUs they are, and is kept for the next call; a
    longer list is refused with [-EOVERFLOW]; and the file is closed. *)
Theorem num_possible_cpus_counts {K} `{PerfSys K} (k k1 : K) cpus fd rs
    (Hc : cpus <= 0) (Hopen : sys_file_open k "/sys/devices/system/cpu/possible" = (ROk fd, k1))
    (Htext : sys_file_text k1 fd = inr (cpu_list rs)) (Hne : rs <> []) (Hrs : Forall range_ok rs)
    (Ht : total rs < 2 ^ 31) :
  libbpf_num_possible_cpus k cpus =
    (if zlen (cpu_list rs) <? 128 then (total rs, total rs, snd (sys_close k1 fd))
     else (- EOVERFLOW, cpus, snd (sys_close k1 fd))) /\
  forall k2, libbpf_num_possible_cpus k2 (total rs) = (total rs, total rs, k2).
Proof.
  assert (0 < total rs) as Hpos.
  { destruct Hrs as [|r rs [Hr _] Hrs]; [contradiction|]. pose proof (total_nonneg rs Hrs).
    change (total (r :: rs)) with (snd r - fst r + 1 + total rs). lia. }
  split; [|intros k2; unfold libbpf_num_possible_cpus; replace (0 <? total rs) with true by lia; reflexivity].
  unfold libbpf_num_possible_cpus. replace (0 <? cpus) with false by lia. rewrite Hopen, Htext.
  assert (cpu_list rs <> []) as Hnil.
  { destruct rs as [|r [|r' rs]]; [contradiction| |]; cbn; intros [_ ?]%app_eq_nil; discriminate. }
  destruct (Z.ltb_spec (zlen (cpu_list rs)) 128) as [Hs|Hs].
  - rewrite take_ge by (unfold zlen in Hs; lia).
    assert (0 < zlen (cpu_list rs)) by (destruct (cpu_list rs); [contradiction | unfold zlen; cbn; lia]).
    replace (zlen (cpu_list rs) =? 0) with false by lia. replace (zlen (cpu_list rs) =? 128) with false by lia.
    rewrite count_cpu_list by (assumption || lia). rewrite Z.add_0_l.
    replace (total rs <=? 0) with false by lia. reflexivity.
  - assert (zlen (take 128 (cpu_list rs)) = 128) as -> by (unfold zlen in *; rewrite length_take; lia).
    reflexivity.
Qed.

(** * A system *)

(** The kernel of [XskProps], whose files all hold a list of six CPUs. *)
#[export] Instance xdemo_perf : PerfSys xdemo := {|
  sys_file_open d _ := xd_open d;
  sys_file_text _ _ := inr (cpu_list [(0, 3); (6, 6); (8, 8)]);
  sys_perf_event_open d _ _ _ := xd_open d;
  sys_perf_ioctl d _ _ := (ROk 0, d);
  sys_raw_tracepoint_open d _ _ := xd_open d;
  sys_epoll_create d := xd_open d;
  sys_epoll_add d _ _ _ := (ROk 0, d)
|}.

#[export] Instance xdemo_perf_laws : PerfSysLaws xdemo.
Proof.
  split; try exact _; try (intros; apply xd_open_gives); try (intros; split; [split; reflexivity | exact I]).
  intros k len fd off a. cbn. unfold xd_mmap. destruct (comp_fails k && _); [discriminate|].
  intros [= <-]. apply above_pos.
Qed.

Lemma num_possible_cpus_counts_witness :
  fst (libbpf_num_possible_cpus (xdemo_start false) 0) = (6, 6) /\
  cpu_list [(0, 3); (6, 6); (8, 8)] = bytes_of "0-3,6,8
".
Proof.
  split; [|reflexivity].
  destruct (num_possible_cpus_counts (xdemo_start false) (snd (xd_open (xdemo_start false))) 0 3
    [(0, 3); (6, 6); (8, 8)]) as [E _].
  - lia.
  - reflexivity.
  - reflexivity.
  - discriminate.
  - repeat constructor; cbn; lia.
  - reflexivity.
  - rewrite E. reflexivity.
Defined.

(** A program that is loaded. *)
Definition demo_prog : bpf_program :=
  mk_prog 1 (Some "main") 0 "uprobe/true" (Some []) 0 2 None 0 (Some [5]) 0 0 [] 0 0 [] 0 0 0.

Lemma attach_link_life_witness :
  exists link k', attach (xdemo_start false) demo_prog (Uprobe false 7 "/bin/true" 64) = (inr link, k') /\
    open_fds k' = {[ l_fd link ]} ∪ open_fds (xdemo_start false).
Proof.
  pose proof (attach_link_life (xdemo_start false) demo_prog (Uprobe false 7 "/bin/true" 64)) as Hl.
  destruct (attach _ _ _) as [[err|link] k'] eqn:E; [exfalso; vm_compute in E; discriminate|].
  exists link, k'. split; [reflexivity | apply Hl].
Defined.

Lemma perf_buffer_life_witness :
  exists pb k', perf_buffer__new (xdemo_start false) 0 9 8 = Ok (inr pb, 6, k') /\
    cpus_in pb = [(0, 0); (1, 1); (2, 2); (3, 3); (4, 4); (5, 5)].
Proof.
  destruct (perf_buffer_life (xdemo_start false) 0 9 8 (mk_pparams output_attr 0 [] [])) as (r & cpus & k' & E & Hr).
  { split; cbn; unfold zlen; cbn; lia. }
  unfold perf_buffer__new. rewrite E. vm_compute in E. destruct r as [err|pb]; [discriminate|].
  destruct Hr as (Ho & Hc & Hfree). exists pb, k'. split; [congruence|].
  destruct Hc as (info & k1 & Ei & Ec). rewrite Ec. injection Ei as <-. reflexivity.
Defined.
