(* ===== verification/ProgInfo.v ===== *)
(** The linear form of what the kernel knows about a program
    ([src/eBPF_app/libbpf/src/libbpf.c],
    [bpf_program__get_prog_info_linear]): the arrays [struct bpf_prog_info]
    points to are put into one block behind it, and their addresses can be
    turned into offsets and back, for a block that is saved and read
    elsewhere. *)
From Stdlib Require Import Sorted.
From S2P Require Import Prelude CLib LibbpfObj LibbpfLoad DemoSys.
#[local] Open Scope Z_scope.

(** * The code *)

(** [struct bpf_prog_info] is a block of 208 bytes. An array is described by
    the offsets of its address, its number of elements and the size of
    these, which is fixed if negative. *)
Definition sizeof_info : Z := 208.
Record array_desc := mk_desc { array_offset : Z; count_offset : Z; size_offset : Z }.
Definition bpf_prog_info_array_desc : list array_desc :=
  [mk_desc 24 16 (-1);        (* BPF_PROG_INFO_JITED_INSNS *)
   mk_desc 32 20 (-1);        (* BPF_PROG_INFO_XLATED_INSNS *)
   mk_desc 56 52 (-4);        (* BPF_PROG_INFO_MAP_IDS *)
   mk_desc 112 104 (-8);      (* BPF_PROG_INFO_JITED_KSYMS *)
   mk_desc 120 108 (-4);      (* BPF_PROG_INFO_JITED_FUNC_LENS *)
   mk_desc 136 144 132;       (* BPF_PROG_INFO_FUNC_INFO *)
   mk_desc 152 148 172;       (* BPF_PROG_INFO_LINE_INFO *)
   mk_desc 160 168 176;       (* BPF_PROG_INFO_JITED_LINE_INFO *)
   mk_desc 184 180 (-8)].     (* BPF_PROG_INFO_PROG_TAGS *)
Definition BPF_PROG_INFO_LAST_ARRAY : Z := 9.

Definition bpf_prog_info_read_offset_u32 (info : list byte) (offset : Z) : res Z :=
  if 0 <=? offset then load32 info (4 * (offset / 4)) else Ok (u32 (- offset)).
Definition bpf_prog_info_read_offset_u64 (info : list byte) (offset : Z) : res Z :=
  if 0 <=? offset then load64 info (8 * (offset / 8)) else Ok (u64 (- offset)).
Definition bpf_prog_info_set_offset_u32 (info : list byte) (offset val : Z) : res (list byte) :=
  if 0 <=? offset then mwrite info (4 * (offset / 4)) (le_bytes 4 val) else Ok info.
Definition bpf_prog_info_set_offset_u64 (info : list byte) (offset val : Z) : res (list byte) :=
  if 0 <=? offset then mwrite info (8 * (offset / 8)) (le_bytes 8 val) else Ok info.

(** The bytes of an array: a product of 32-bit numbers. *)
Definition array_bytes (info : list byte) (d : array_desc) : res Z :=
  count ← bpf_prog_info_read_offset_u32 info (count_offset d);
  size ← bpf_prog_info_read_offset_u32 info (size_offset d);
  Ok (u32 (count * size)).

(** Whether the kernel is too old to know the field. *)
Definition too_old (info_len : Z) (d : array_desc) : bool :=
  (info_len <? array_offset d + 4) || (info_len <? count_offset d + 4) ||
  ((0 <? size_offset d) && (info_len <? size_offset d)).

Definition clear_bit (arrays i : Z) : Z := Z.land arrays (u64 (Z.lnot (Z.shiftl 1 i))).

(** Step 2: the arrays that are wanted and known, and the size of them all. *)
Fixpoint sum_arrays (info : list byte) (info_len : Z) (ds : list array_desc) (i arrays data_len : Z)
    : res (Z * Z) :=
  match ds with
  | [] => Ok (arrays, data_len)
  | d :: ds =>
      if negb (Z.testbit arrays i) || too_old info_len d
      then sum_arrays info info_len ds (i + 1) (clear_bit arrays i) data_len
      else
        n ← array_bytes info d;
        sum_arrays info info_len ds (i + 1) arrays (u32 (data_len + n))
  end.

(** Step 4: numbers, sizes and addresses, one array behind the other. *)
Fixpoint fill_arrays (info : list byte) (ds : list array_desc) (i arrays ptr : Z) (out : list byte)
    : res (list byte) :=
  match ds with
  | [] => Ok out
  | d :: ds =>
      if negb (Z.testbit arrays i) then fill_arrays info ds (i + 1) arrays ptr out else
      count ← bpf_prog_info_read_offset_u32 info (count_offset d);
      size ← bpf_prog_info_read_offset_u32 info (size_offset d);
      out ← bpf_prog_info_set_offset_u32 out (count_offset d) count;
      out ← bpf_prog_info_set_offset_u32 out (size_offset d) size;
      out ← bpf_prog_info_set_offset_u64 out (array_offset d) (u64 ptr);
      fill_arrays info ds (i + 1) arrays (ptr + u32 (count * size)) out
  end.

(** [struct bpf_prog_info_linear], with the address of [data]. *)
Record info_linear := mk_il {
  il_info_len : Z; il_data_len : Z; il_arrays : Z; il_info : list byte;
  il_addr : Z; il_data : list byte
}.

(** [BPF_OBJ_GET_INFO_BY_FD] on a program, with the structure, its length
    and the block the arrays are to be written to (its address and bytes):
    all of them as the kernel leaves them, and the address and the content
    of a fresh block. *)
Class ProgInfoSys (K : Type) := {
  sys_prog_info : K -> Z -> list byte -> Z -> Z -> list byte -> sysret * list byte * Z * list byte * K;
  sys_block : K -> Z -> Z * list byte
}.

Definition EFAULT : Z := 14.

Section get.
Context {K : Type} `{BpfSys K} `{ProgInfoSys K}.

(** Step 6 compares the numbers of the two answers and prints warnings. *)
Definition bpf_program__get_prog_info_linear (k : K) (fd arrays : Z) : res ((Z + info_linear) * K) :=
  if negb (Z.shiftr arrays BPF_PROG_INFO_LAST_ARRAY =? 0) then Ok (inl (- EINVAL), k) else
  let '(r, info, info_len, _, k) := sys_prog_info k fd (replicate 208 NUL) sizeof_info 0 [] in
  match r with
  | RErr _ => Ok (inl (- EFAULT), k)
  | ROk _ =>
      '(arrays, data_len) ← sum_arrays info info_len bpf_prog_info_array_desc 0 arrays 0;
      let data_len := u32 ((data_len + 7) / 8 * 8) in
      let '(ok, k) := sys_alloc k in
      if negb ok then Ok (inl (- ENOMEM), k) else
      let '(addr, data) := sys_block k data_len in
      out ← fill_arrays info bpf_prog_info_array_desc 0 arrays addr (replicate 208 NUL);
      let '(r, out, _, data, k) := sys_prog_info k fd out info_len addr data in
      match r with
      | RErr _ => Ok (inl (- EFAULT), k)
      | ROk _ => Ok (inr (mk_il sizeof_info data_len arrays out addr data), k)
      end
  end.
End get.

(** [bpf_program__bpil_addr_to_offs] and [bpf_program__bpil_offs_to_addr]:
    the same loop, with [- data] and [data] added. *)
Fixpoint shift_arrays (ds : list array_desc) (i arrays by_ : Z) (info : list byte) : res (list byte) :=
  match ds with
  | [] => Ok info
  | d :: ds =>
      if negb (Z.testbit arrays i) then shift_arrays ds (i + 1) arrays by_ info else
      v ← bpf_prog_info_read_offset_u64 info (array_offset d);
      info ← bpf_prog_info_set_offset_u64 info (array_offset d) (u64 (v + by_));
      shift_arrays ds (i + 1) arrays by_ info
  end.
Definition set_info (info : list byte) (il : info_linear) : info_linear :=
  mk_il (il_info_len il) (il_data_len il) (il_arrays il) info (il_addr il) (il_data il).
Definition bpf_program__bpil_addr_to_offs (il : info_linear) : res info_linear :=
  info ← shift_arrays bpf_prog_info_array_desc 0 (il_arrays il) (- il_addr il) (il_info il);
  Ok (set_info info il).
Definition bpf_program__bpil_offs_to_addr (il : info_linear) : res info_linear :=
  info ← shift_arrays bpf_prog_info_array_desc 0 (il_arrays il) (il_addr il) (il_info il);
  Ok (set_info info il).

(** * The structure, field by field *)

(** The fields of an array: offset and width. *)
Definition fields (d : array_desc) : list (Z * Z) :=
  (count_offset d, 4) :: (array_offset d, 8) ::
  (if 0 <=? size_offset d then [(size_offset d, 4)] else []).
Definition apart (f g : Z * Z) : bool := (fst f + snd f <=? fst g) || (fst g + snd g <=? fst f).
(** The fields lie on their words inside the structure. *)
Definition placed (d : array_desc) : bool :=
  forallb (fun f => (0 <=? fst f) && (fst f + snd f <=? sizeof_info) && (fst f mod snd f =? 0)) (fields d).
(** The address of [d] is none of the fields of [e], nor one of its own others. *)
Definition clear_of (d e : array_desc) : bool := forallb (apart (array_offset d, 8)) (fields e).
Definition own_clear (d : array_desc) : bool :=
  apart (array_offset d, 8) (count_offset d, 4) &&
  ((size_offset d <? 0) || apart (array_offset d, 8) (size_offset d, 4)).
Fixpoint table_ok (ds : list array_desc) : bool :=
  match ds with
  | [] => true
  | d :: ds => placed d && own_clear d && forallb (fun e => clear_of d e && clear_of e d) ds && table_ok ds
  end.

Lemma descs_ok : table_ok bpf_prog_info_array_desc = true.
Proof. reflexivity. Qed.

Lemma placed_in d f info : placed d = true -> zlen info = sizeof_info -> f ∈ fields d ->
  in_block info (fst f) (snd f) /\ snd f * (fst f / snd f) = fst f /\ 0 < snd f.
Proof.
  intros Hp Hl Hf. unfold placed in Hp. rewrite forallb_forall in Hp.
  specialize (Hp f (proj1 (list_elem_of_In _ _) Hf)).
  assert (0 < snd f) as Hpos.
  { unfold fields in Hf. destruct (0 <=? size_offset d); set_unfold in Hf; naive_solver lia. }
  unfold in_block. rewrite Hl. pose proof (Z.div_mod (fst f) (snd f)). lia.
Qed.

Lemma read_u32_placed d o info : placed d = true -> zlen info = sizeof_info ->
  o = count_offset d \/ o = size_offset d ->
  exists v, bpf_prog_info_read_offset_u32 info o = Ok v /\ 0 <= v < 2 ^ 32.
Proof.
  intros Hp Hl Ho. unfold bpf_prog_info_read_offset_u32. destruct (Z.leb_spec 0 o) as [H0|H0].
  - assert ((o, 4) ∈ fields d) as Hf.
    { unfold fields. destruct Ho as [->| ->]; [set_solver|]. rewrite (proj2 (Z.leb_le _ _) H0). set_solver. }
    destruct (placed_in d (o, 4) info Hp Hl Hf) as (Hin & Heq & _). cbn [fst snd] in *. rewrite Heq.
    destruct (load32_in info o Hin) as [v Hv]. exists v. split; [exact Hv | exact (load32_range _ _ _ Hv)].
  - eexists. split; [reflexivity | apply u32_range].
Qed.

Lemma load64_range m off z : load64 m off = Ok z -> 0 <= z < 2 ^ 64.
Proof.
  unfold load64. intros H. res_inv. subst.
  pose proof (zlen_mread _ _ _ _ E). pose proof (le_val_range x).
  unfold zlen in *. replace (Z.of_nat (length x)) with 8 in * by lia. lia.
Qed.

(** Writing a field changes nothing beside it. *)
Definition same_at (info out : list byte) (f : Z * Z) : Prop := window out (fst f) (snd f) = window info (fst f) (snd f).

Lemma write_field info f v :
  in_block info (fst f) (snd f) -> 0 < snd f -> snd f * (fst f / snd f) = fst f ->
  exists out, mwrite info (snd f * (fst f / snd f)) (le_bytes (Z.to_nat (snd f)) v) = Ok out /\
    zlen out = zlen info /\ mread out (fst f) (snd f) = Ok (le_bytes (Z.to_nat (snd f)) v) /\
    forall g, 0 <= fst g -> apart g f = true -> same_at info out g.
Proof.
  intros Hin Hpos ->. assert (zlen (le_bytes (Z.to_nat (snd f)) v) = snd f) as Hz by (rewrite zlen_le_bytes; lia).
  destruct (mwrite info (fst f) (le_bytes (Z.to_nat (snd f)) v)) as [out|] eqn:E;
    [|rewrite mwrite_Ok in E by (rewrite Hz; exact Hin); discriminate].
  pose proof (zlen_mwrite _ _ _ _ E) as Hl. exists out. split; [reflexivity|]. split; [exact Hl|]. split.
  - rewrite mread_window by (unfold in_block in *; rewrite Hl; exact Hin). f_equal.
    rewrite (window_mwrite_at _ _ _ _ _ E), Hz, Z.sub_diag by lia.
    rewrite take_ge by (rewrite length_le_bytes; lia). unfold window. cbn [Z.to_nat take]. apply app_nil_r.
  - intros g Hg Ha. unfold same_at. apply (window_mwrite_disjoint _ _ _ _ _ _ E); [exact Hg|].
    rewrite Hz. unfold apart in Ha. lia.
Qed.

Lemma same_load64 info out o :
  same_at info out (o, 8) -> zlen out = zlen info -> in_block info o 8 -> load64 out o = load64 info o.
Proof.
  intros Hs Hl Hin. unfold load64. rewrite !mread_window; [rewrite Hs; reflexivity | exact Hin|].
  unfold in_block in *. rewrite Hl. exact Hin.
Qed.

Lemma set_u64_placed d v info : placed d = true -> zlen info = sizeof_info ->
  exists out, bpf_prog_info_set_offset_u64 info (array_offset d) v = Ok out /\ zlen out = sizeof_info /\
    load64 out (array_offset d) = Ok (u64 v) /\
    forall g, 0 <= fst g -> apart g (array_offset d, 8) = true -> same_at info out g.
Proof.
  intros Hp Hl. destruct (placed_in d (array_offset d, 8) info Hp Hl) as (Hin & Heq & Hpos); [unfold fields; set_solver|].
  destruct (write_field info (array_offset d, 8) v Hin Hpos Heq) as (out & E & Hlo & Hr & Hs).
  exists out. unfold bpf_prog_info_set_offset_u64. cbn [fst snd] in *.
  replace (0 <=? array_offset d) with true by (unfold in_block in Hin; lia).
  split; [exact E|]. split; [congruence|]. split; [|exact Hs].
  unfold load64. rewrite Hr, bind_Ok, le_val_bytes. reflexivity.
Qed.

Lemma set_u32_placed d o v info : placed d = true -> zlen info = sizeof_info ->
  o = count_offset d \/ o = size_offset d ->
  exists out, bpf_prog_info_set_offset_u32 info o v = Ok out /\ zlen out = sizeof_info /\
    forall g, 0 <= fst g -> (o < 0 \/ apart g (o, 4) = true) -> same_at info out g.
Proof.
  intros Hp Hl Ho. unfold bpf_prog_info_set_offset_u32. destruct (Z.leb_spec 0 o) as [H0|H0].
  - assert ((o, 4) ∈ fields d) as Hf.
    { unfold fields. destruct Ho as [->| ->]; [set_solver|]. rewrite (proj2 (Z.leb_le _ _) H0). set_solver. }
    destruct (placed_in d (o, 4) info Hp Hl Hf) as (Hin & Heq & Hpos).
    destruct (write_field info (o, 4) v Hin Hpos Heq) as (out & E & Hlo & _ & Hs).
    exists out. split; [exact E|]. split; [congruence|]. intros g Hg [?|Ha]; [lia | exact (Hs g Hg Ha)].
  - exists info. repeat split; auto.
Qed.

(** * Where the arrays lie *)

(** The bytes of an array, and the arrays of [arrays] one behind the other
    from [p] on: description, place, bytes. *)
Definition bytes_in (info : list byte) (d : array_desc) : Z :=
  match array_bytes info d with Ok n => n | Err _ => 0 end.
Fixpoint layout (info : list byte) (ds : list array_desc) (i arrays p : Z) : list (array_desc * Z * Z) :=
  match ds with
  | [] => []
  | d :: ds =>
      if negb (Z.testbit arrays i) then layout info ds (i + 1) arrays p
      else (d, p, bytes_in info d) :: layout info ds (i + 1) arrays (p + bytes_in info d)
  end.
Definition needed (l : list (array_desc * Z * Z)) : Z := foldr (fun x n => snd x + n) 0 l.

Lemma array_bytes_ok info d : placed d = true -> zlen info = sizeof_info ->
  array_bytes info d = Ok (bytes_in info d) /\ 0 <= bytes_in info d < 2 ^ 32.
Proof.
  intros Hp Hl. unfold bytes_in, array_bytes.
  destruct (read_u32_placed d (count_offset d) info Hp Hl) as (c & -> & _); [auto|].
  destruct (read_u32_placed d (size_offset d) info Hp Hl) as (s & -> & _); [auto|].
  cbn. split; [reflexivity | apply u32_range].
Qed.

Lemma table_cons d ds : table_ok (d :: ds) = true ->
  placed d = true /\ own_clear d = true /\ table_ok ds = true /\
  Forall (fun e => clear_of d e = true /\ clear_of e d = true) ds.
Proof.
  cbn [table_ok]. rewrite !andb_true_iff, forallb_forall. intros [[[? ?] Hf] ?]. repeat split; try assumption.
  apply Forall_forall. intros e He%list_elem_of_In. specialize (Hf e He). apply andb_true_iff in Hf. exact Hf.
Qed.

(** Places beside all fields of the table. *)
Definition beside (ds : list array_desc) (g : Z * Z) : Prop := Forall (fun e => forallb (apart g) (fields e) = true) ds.

Lemma beside_fields d g : forallb (apart g) (fields d) = true ->
  apart g (count_offset d, 4) = true /\ apart g (array_offset d, 8) = true /\
  (size_offset d < 0 \/ apart g (size_offset d, 4) = true).
Proof.
  unfold fields. cbn [forallb]. rewrite !andb_true_iff. intros (? & ? & Hs). repeat split; try assumption.
  destruct (Z.leb_spec 0 (size_offset d)); [right | left; lia]. cbn in Hs. apply andb_true_iff in Hs. tauto.
Qed.

Lemma fill_one info d ptr out :
  placed d = true -> own_clear d = true -> zlen info = sizeof_info -> zlen out = sizeof_info ->
  exists c s o1 o2 out', bpf_prog_info_read_offset_u32 info (count_offset d) = Ok c /\
    bpf_prog_info_read_offset_u32 info (size_offset d) = Ok s /\
    bpf_prog_info_set_offset_u32 out (count_offset d) c = Ok o1 /\
    bpf_prog_info_set_offset_u32 o1 (size_offset d) s = Ok o2 /\
    bpf_prog_info_set_offset_u64 o2 (array_offset d) (u64 ptr) = Ok out' /\
    u32 (c * s) = bytes_in info d /\
    zlen out' = sizeof_info /\ load64 out' (array_offset d) = Ok (u64 ptr) /\
    forall g, 0 <= fst g -> forallb (apart g) (fields d) = true -> same_at out out' g.
Proof.
  intros Hp Ho Hl Hlo. unfold bytes_in, array_bytes.
  destruct (read_u32_placed d (count_offset d) info Hp Hl) as (c & -> & _); [auto|].
  destruct (read_u32_placed d (size_offset d) info Hp Hl) as (s & -> & _); [auto|].
  destruct (set_u32_placed d (count_offset d) c out Hp Hlo) as (o1 & E1 & Hl1 & Hs1); [auto|].
  destruct (set_u32_placed d (size_offset d) s o1 Hp Hl1) as (o2 & E2 & Hl2 & Hs2); [auto|].
  destruct (set_u64_placed d (u64 ptr) o2 Hp Hl2) as (o3 & E3 & Hl3 & Hv & Hs3).
  exists c, s, o1, o2, o3. do 6 (split; [assumption || reflexivity|]). split; [exact Hl3|]. split.
  - rewrite Hv. f_equal. apply u64_small, u64_range.
  - intros g Hg Ha. apply beside_fields in Ha as (Hc & Ha & Hs). unfold same_at in *.
    rewrite (Hs3 g Hg Ha), (Hs2 g Hg Hs). apply (Hs1 g Hg). right. exact Hc.
Qed.

Lemma fill_arrays_ok info arrays addr : zlen info = sizeof_info -> forall ds i p out,
  table_ok ds = true -> zlen out = sizeof_info ->
  exists out', fill_arrays info ds i arrays (addr + p) out = Ok out' /\ zlen out' = sizeof_info /\
    (forall d q n, (d, q, n) ∈ layout info ds i arrays p -> load64 out' (array_offset d) = Ok (u64 (addr + q))) /\
    (forall g, 0 <= fst g -> beside ds g -> same_at out out' g).
Proof.
  intros Hl. induction ds as [|d ds IH]; intros i p out Ht Hlo.
  { exists out. split; [reflexivity|]. split; [exact Hlo|]. split; [intros d q n Hin; inversion Hin | reflexivity]. }
  destruct (table_cons d ds Ht) as (Hp & Hown & Htl & Hclear). cbn [fill_arrays layout].
  destruct (Z.testbit arrays i); cbn [negb].
  - destruct (fill_one info d (addr + p) out Hp Hown Hl Hlo) 
      as (c & s & o1 & o2 & x3 & -> & -> & E1 & E2 & E3 & En & Hl1 & Hv & Hs1).
    rewrite !bind_Ok, E1, bind_Ok, E2, bind_Ok, E3, bind_Ok, En, <- Z.add_assoc.
    destruct (IH (i + 1) (p + bytes_in info d) x3 Htl Hl1) as (out' & -> & Hl' & Hlay & Hs').
    exists out'. split; [reflexivity|]. split; [exact Hl'|]. split.
    + intros e q n [Heq|Hin]%elem_of_cons; [|exact (Hlay e q n Hin)]. injection Heq as -> -> _.
      destruct (placed_in d (array_offset d, 8) x3 Hp Hl1) as (Hin & _); [unfold fields; set_solver|].
      rewrite (same_load64 x3 out'); [exact Hv | | congruence | exact Hin].
      apply Hs'; [apply Hin|]. eapply Forall_impl; [exact Hclear|]. intros e' [Hc _]. exact Hc.
    + intros g Hg Hb. apply Forall_cons in Hb as [Hb Hbs]. unfold same_at in *.
      rewrite (Hs' g Hg Hbs). exact (Hs1 g Hg Hb).
  - destruct (IH (i + 1) p out Htl Hlo) as (out' & -> & Hl' & Hlay & Hs').
    exists out'. split; [reflexivity|]. split; [exact Hl'|]. split; [exact Hlay|].
    intros g Hg Hb. apply Forall_cons in Hb as [_ Hb]. exact (Hs' g Hg Hb).
Qed.

(** ** The sum *)

Lemma clear_bit_spec arrays i j : 0 <= i -> 0 <= j < 64 -> j <> i ->
  Z.testbit (clear_bit arrays i) j = Z.testbit arrays j.
Proof.
  intros Hi Hj Hne. unfold clear_bit, u64. rewrite Z.land_spec, Z.mod_pow2_bits_low, Z.lnot_spec by lia.
  rewrite Z.shiftl_spec by lia.
  assert (Z.testbit 1 (j - i) = false) as ->; [|apply andb_true_r].
  destruct (Z.lt_ge_cases (j - i) 0); [apply Z.testbit_neg_r; lia|].
  rewrite Z.bits_above_log2; [reflexivity | lia | cbn; lia].
Qed.

Lemma clear_bit_off arrays i : 0 <= i < 64 -> Z.testbit (clear_bit arrays i) i = false.
Proof.
  intros Hi. unfold clear_bit, u64. rewrite Z.land_spec, Z.mod_pow2_bits_low, Z.lnot_spec by lia.
  rewrite Z.shiftl_spec, Z.sub_diag by lia. apply andb_false_r.
Qed.

Lemma layout_ext info ds : forall i a b p, 
  (forall j, i <= j < i + zlen ds -> Z.testbit a j = Z.testbit b j) ->
  layout info ds i a p = layout info ds i b p.
Proof.
  induction ds as [|d ds IH]; intros i a b p Hab; [reflexivity|]. cbn [layout].
  assert (zlen (d :: ds) = 1 + zlen ds) as Hz by (unfold zlen; cbn [length]; lia).
  pose proof (zlen_nonneg ds). rewrite <- (Hab i) by lia.
  rewrite !(IH (i + 1) a b) by (intros j Hj; apply Hab; lia). reflexivity.
Qed.

Lemma needed_layout info ds : forall i a p q, needed (layout info ds i a p) = needed (layout info ds i a q).
Proof.
  induction ds as [|d ds IH]; intros i a p q; [reflexivity|]. cbn [layout].
  destruct (negb _); [apply IH|]. unfold needed in *. cbn [foldr snd]. f_equal. apply IH.
Qed.

(** The wanted arrays the kernel knows are summed up, modulo [2 ^ 32]. *)
Lemma sum_arrays_ok info len : zlen info = sizeof_info -> forall ds i arrays dl,
  table_ok ds = true -> 0 <= i -> i + zlen ds <= 64 -> 0 <= dl < 2 ^ 32 ->
  exists arrays' dl', sum_arrays info len ds i arrays dl = Ok (arrays', dl') /\
    (forall j, 0 <= j < i -> Z.testbit arrays' j = Z.testbit arrays j) /\
    (forall (n : nat) d, ds !! n = Some d ->
      Z.testbit arrays' (i + Z.of_nat n) = Z.testbit arrays (i + Z.of_nat n) && negb (too_old len d)) /\
    dl' = u32 (dl + needed (layout info ds i arrays' 0)).
Proof.
  intros Hl. induction ds as [|d ds IH]; intros i arrays dl Ht Hi Hn Hdl.
  { exists arrays, dl. split; [reflexivity|]. split; [auto|]. split; [intros n d Hd; rewrite lookup_nil in Hd; discriminate|].
    cbn. rewrite Z.add_0_r, u32_small by lia. reflexivity. }
  destruct (table_cons d ds Ht) as (Hp & _ & Htl & _).
  assert (zlen (d :: ds) = 1 + zlen ds) as Hz by (unfold zlen; cbn [length]; lia).
  pose proof (zlen_nonneg ds). cbn [sum_arrays layout].
  destruct (array_bytes_ok info d Hp Hl) as [Eb Hb].
  destruct (negb (Z.testbit arrays i) || too_old len d) eqn:Eskip.
  - destruct (IH (i + 1) (clear_bit arrays i) dl Htl) as (arrays' & dl' & E & Hlow & Hds & Hsum); [lia | lia | exact Hdl |].
    exists arrays', dl'. split; [exact E|].
    assert (Z.testbit arrays' i = false) as Hoff by (rewrite Hlow by lia; apply clear_bit_off; lia).
    split; [intros j Hj; rewrite Hlow, clear_bit_spec by lia; reflexivity|]. split.
    + intros [|n] e He; [injection He as <-; rewrite Z.add_0_r, Hoff|].
      * destruct (Z.testbit arrays i), (too_old len d); cbn in *; congruence.
      * pose proof (Hds n e He) as Hd. replace (i + Z.of_nat (S n)) with (i + 1 + Z.of_nat n) by lia. rewrite Hd.
        apply lookup_lt_Some in He. unfold zlen in *. cbn [length] in *.
        rewrite clear_bit_spec by lia. reflexivity.
    + rewrite Hsum, Hoff. cbn [negb]. reflexivity.
  - apply orb_false_iff in Eskip as [Ebit Eold]. apply negb_false_iff in Ebit. rewrite Eb, bind_Ok.
    destruct (IH (i + 1) arrays (u32 (dl + bytes_in info d)) Htl) as (arrays' & dl' & E & Hlow & Hds & Hsum);
      [lia | lia | apply u32_range |].
    exists arrays', dl'. split; [exact E|]. assert (Z.testbit arrays' i = true) as Hon by (rewrite Hlow by lia; exact Ebit).
    split; [intros j Hj; apply Hlow; lia|]. split.
    + intros [|n] e He; [injection He as <-; rewrite Z.add_0_r, Hon, Ebit, Eold; reflexivity|].
      replace (i + Z.of_nat (S n)) with (i + 1 + Z.of_nat n) by lia. exact (Hds n e He).
    + rewrite Hsum, Hon. cbn [negb needed foldr snd]. fold needed. rewrite (needed_layout _ _ _ _ (0 + bytes_in info d) 0).
      unfold u32. rewrite Zplus_mod_idemp_l. f_equal. unfold needed. lia.
Qed.

Lemma needed_pos info : zlen info = sizeof_info -> forall ds i a p, table_ok ds = true ->
  0 <= needed (layout info ds i a p).
Proof.
  intros Hl. induction ds as [|d ds IH]; intros i a p Ht; [cbn; lia|].
  destruct (table_cons d ds Ht) as (Hp & _ & Htl & _). destruct (array_bytes_ok info d Hp Hl) as [_ Hb].
  cbn [layout]. destruct (negb _); [exact (IH _ _ _ Htl)|]. unfold needed in *. cbn [foldr snd].
  specialize (IH (i + 1) a (p + bytes_in info d) Htl). lia.
Qed.

(** Each array lies behind the one before it and ends before the total. *)
Lemma layout_inside info : zlen info = sizeof_info -> forall ds i a p d q n,
  table_ok ds = true -> (d, q, n) ∈ layout info ds i a p ->
  p <= q /\ 0 <= n /\ q + n <= p + needed (layout info ds i a p).
Proof.
  intros Hl. induction ds as [|e ds IH]; intros i a p d q n Ht Hin; [inversion Hin|].
  destruct (table_cons e ds Ht) as (Hp & _ & Htl & _). destruct (array_bytes_ok info e Hp Hl) as [_ Hb].
  cbn [layout] in *. destruct (negb _); [exact (IH _ _ _ _ _ _ Htl Hin)|].
  pose proof (needed_pos info Hl ds (i + 1) a (p + bytes_in info e) Htl) as Hpos.
  unfold needed in *. cbn [foldr snd]. apply elem_of_cons in Hin as [Heq|Hin].
  - injection Heq as -> -> ->. lia.
  - specialize (IH _ _ _ _ _ _ Htl Hin). lia.
Qed.

Lemma layout_ordered info : zlen info = sizeof_info -> forall ds i a p, table_ok ds = true ->
  StronglySorted (fun x y : array_desc * Z * Z => snd (fst x) + snd x <= snd (fst y)) (layout info ds i a p).
Proof.
  intros Hl. induction ds as [|e ds IH]; intros i a p Ht; [constructor|].
  destruct (table_cons e ds Ht) as (_ & _ & Htl & _). cbn [layout]. destruct (negb _); [exact (IH _ _ _ Htl)|].
  constructor; [exact (IH _ _ _ Htl)|]. apply Forall_forall. intros [[d q] n] Hin. cbn [fst snd].
  exact (proj1 (layout_inside info Hl ds _ _ _ d q n Htl Hin)).
Qed.

(** [roundup] to the next multiple of eight, where it does not wrap. *)
Lemma roundup8 n : 0 <= n <= 2 ^ 32 - 8 -> n <= u32 ((u32 n + 7) / 8 * 8) < n + 8.
Proof.
  intros Hn. rewrite (u32_small n) by lia. pose proof (Z.div_mod (n + 7) 8). pose proof (Z.mod_pos_bound (n + 7) 8).
  rewrite u32_small; lia.
Qed.

(** What the kernel and the allocator keep to: the structure stays as long as
    it is, the block is as long as asked for. *)
Class ProgInfoLaws (K : Type) `{ProgInfoSys K} := {
  law_info_len k fd info len a b r info' len' b' k' :
    sys_prog_info k fd info len a b = (r, info', len', b', k') -> zlen info' = zlen info;
  law_block_len k n : 0 <= n -> zlen (snd (sys_block k n)) = n
}.

(** ** The whole call *)

(** What is known of the arrays of a description [il] asked for with
    [arrays], from the first answer of the kernel and the structure [asked]
    handed to the second call. *)
Record laid_out (arrays info_len : Z) (info asked block : list byte) (il : info_linear) : Prop := {
  lo_bits (i : nat) d : bpf_prog_info_array_desc !! i = Some d ->
    Z.testbit (il_arrays il) (Z.of_nat i) = Z.testbit arrays (Z.of_nat i) && negb (too_old info_len d);
  lo_sizes : il_info_len il = sizeof_info;
  lo_block : zlen block = il_data_len il;
  lo_ordered : StronglySorted (fun x y : array_desc * Z * Z => snd (fst x) + snd x <= snd (fst y))
    (layout info bpf_prog_info_array_desc 0 (il_arrays il) 0);
  lo_address d q n : (d, q, n) ∈ layout info bpf_prog_info_array_desc 0 (il_arrays il) 0 ->
    load64 asked (array_offset d) = Ok (u64 (il_addr il + q));
  lo_inside d q n : (d, q, n) ∈ layout info bpf_prog_info_array_desc 0 (il_arrays il) 0 ->
    needed (layout info bpf_prog_info_array_desc 0 (il_arrays il) 0) <= 2 ^ 32 - 8 ->
    array_bytes info d = Ok n /\ 0 <= q /\ 0 <= n /\ q + n <= il_data_len il
}.

Lemma layout_bytes info : zlen info = sizeof_info -> forall ds i a p d q n, table_ok ds = true ->
  (d, q, n) ∈ layout info ds i a p -> array_bytes info d = Ok n.
Proof.
  intros Hl. induction ds as [|e ds IH]; intros i a p d q n Ht Hin; [inversion Hin|].
  destruct (table_cons e ds Ht) as (Hp & _ & Htl & _). cbn [layout] in Hin.
  destruct (negb _); [exact (IH _ _ _ _ _ _ Htl Hin)|].
  apply elem_of_cons in Hin as [Heq|Hin]; [|exact (IH _ _ _ _ _ _ Htl Hin)].
  injection Heq as -> -> ->. exact (proj1 (array_bytes_ok info e Hp Hl)).
Qed.

(** ** Addresses and offsets *)

Lemma u64_shift v a b : u64 (u64 (v + a) + b) = u64 (v + (a + b)).
Proof. unfold u64. rewrite Zplus_mod_idemp_l, Z.add_assoc. reflexivity. Qed.

Lemma table_at ds : forall (n : nat) e, table_ok ds = true -> ds !! n = Some e -> placed e = true.
Proof.
  induction ds as [|f ds IH]; intros n e Ht He; [discriminate|].
  destruct (table_cons f ds Ht) as (Hp & _ & Htl & _). destruct n; [injection He as <-; exact Hp | exact (IH n e Htl He)].
Qed.

(** One pass adds its number to the addresses of the arrays in the set, and
    changes nothing beside them. *)
Lemma shift_arrays_ok arrays by_ : forall ds i info,
  table_ok ds = true -> zlen info = sizeof_info ->
  exists info', shift_arrays ds i arrays by_ info = Ok info' /\ zlen info' = sizeof_info /\
    (forall (n : nat) d, ds !! n = Some d -> exists v, 0 <= v < 2 ^ 64 /\ load64 info (array_offset d) = Ok v /\
      load64 info' (array_offset d) = Ok (if Z.testbit arrays (i + Z.of_nat n) then u64 (v + by_) else v)) /\
    (forall g, 0 <= fst g -> beside ds g -> same_at info info' g).
Proof.
  induction ds as [|d ds IH]; intros i info Ht Hl.
  { exists info. split; [reflexivity|]. split; [exact Hl|]. split; [|reflexivity].
    intros n d Hd. rewrite lookup_nil in Hd. discriminate. }
  destruct (table_cons d ds Ht) as (Hp & _ & Htl & Hclear). cbn [shift_arrays].
  destruct (placed_in d (array_offset d, 8) info Hp Hl) as (Hin & Hal & Hpos); [unfold fields; set_solver|].
  cbn [fst snd] in Hin, Hal.
  destruct (load64_in info _ Hin) as [v Hv]. pose proof (load64_range _ _ _ Hv) as Hrv.
  assert (forall n : nat, i + Z.of_nat (S n) = i + 1 + Z.of_nat n) as Hi by lia.
  (* the address of [d] after the passes over the others *)
  assert (forall x x', zlen x = sizeof_info -> zlen x' = sizeof_info ->
    (forall g, 0 <= fst g -> beside ds g -> same_at x x' g) ->
    load64 x' (array_offset d) = load64 x (array_offset d)) as Hkeep.
  { intros x x' Hx Hx' Hs. apply same_load64; [|congruence|unfold in_block in *; rewrite Hx; lia].
    apply Hs; [unfold in_block in Hin; cbn; lia|]. eapply Forall_impl; [exact Hclear|]. intros e [Hc _]. exact Hc. }
  destruct (Z.testbit arrays i) eqn:Eb; cbn [negb].
  - unfold bpf_prog_info_read_offset_u64. replace (0 <=? array_offset d) with true by (unfold in_block in Hin; lia).
    rewrite Hal, Hv, bind_Ok.
    destruct (set_u64_placed d (u64 (v + by_)) info Hp Hl) as (x & -> & Hlx & Hvx & Hsx). rewrite bind_Ok.
    destruct (IH (i + 1) x Htl Hlx) as (info' & -> & Hl' & Hds & Hs').
    exists info'. split; [reflexivity|]. split; [exact Hl'|]. split.
    + intros [|n] e He.
      * injection He as <-. exists v. rewrite Z.add_0_r, Eb, (Hkeep x info' Hlx Hl' Hs'), Hvx.
        rewrite u64_small by apply u64_range. auto.
      * destruct (Hds n e He) as (w & Hw & Hlw & Hlw'). rewrite Hi. exists w. split; [exact Hw|]. split; [|exact Hlw'].
        rewrite <- Hlw. symmetry.
        pose proof (proj1 (Forall_lookup _ ds) Hclear n e He) as [_ Hc]. apply beside_fields in Hc as (_ & Hc & _).
        destruct (placed_in e (array_offset e, 8) info (table_at ds n e Htl He) Hl) as (Hine & _); [unfold fields; set_solver|].
        apply same_load64; [|congruence|exact Hine]. apply Hsx; [apply Hine | exact Hc].
    + intros g Hg Hb. apply Forall_cons in Hb as [Hb Hbs]. apply beside_fields in Hb as (_ & Hb & _).
      unfold same_at in *. rewrite (Hs' g Hg Hbs). exact (Hsx g Hg Hb).
  - destruct (IH (i + 1) info Htl Hl) as (info' & -> & Hl' & Hds & Hs').
    exists info'. split; [reflexivity|]. split; [exact Hl'|]. split.
    + intros [|n] e He.
      * injection He as <-. exists v. rewrite Z.add_0_r, Eb, (Hkeep info info' Hl Hl' Hs'). auto.
      * rewrite Hi. exact (Hds n e He).
    + intros g Hg Hb. apply Forall_cons in Hb as [_ Hb]. exact (Hs' g Hg Hb).
Qed.

(** * Claims *)

Section claims.
Context {K : Type} `{BpfSysLaws K} `{ProgInfoLaws K}.

(** C28: [bpf_program__get_prog_info_linear] always returns. It refuses a set
    with unknown arrays without asking the kernel, and fails with [EFAULT]
    or [ENOMEM]. When it succeeds, the set of the result is what was wanted
    of the arrays the kernel knows; the structure of the second call has, for
    each of them, an address in the block behind it, the arrays lie one
    behind the other, each as long as its number times its size says, and
    all of them end inside the block, whose length is a multiple of eight,
    provided that they take no more than [2 ^ 32 - 8] bytes altogether. (The
    sum is one of 32 bits: beyond that the block is smaller than the
    arrays.) *)
Theorem prog_info_linear_layout (k : K) fd arrays : 0 <= arrays < 2 ^ 64 ->
  exists r k', bpf_program__get_prog_info_linear k fd arrays = Ok (r, k') /\
  match r with
  | inl e => (e = - EINVAL /\ k' = k /\ 2 ^ BPF_PROG_INFO_LAST_ARRAY <= arrays) \/ e = - EFAULT \/ e = - ENOMEM
  | inr il =>
      arrays < 2 ^ BPF_PROG_INFO_LAST_ARRAY /\
      exists r0 info len b k1 k2 asked block r1 len1,
        sys_prog_info k fd (replicate 208 NUL) sizeof_info 0 [] = (ROk r0, info, len, b, k1) /\
        sys_prog_info k2 fd asked len (il_addr il) block = (ROk r1, il_info il, len1, il_data il, k') /\
        il_data_len il mod 8 = 0 /\ laid_out arrays len info asked block il
  end.
Proof.
  intros Ha. unfold bpf_program__get_prog_info_linear. rewrite Z.shiftr_div_pow2 by (unfold BPF_PROG_INFO_LAST_ARRAY; lia).
  pose proof (Z.div_mod arrays (2 ^ BPF_PROG_INFO_LAST_ARRAY) ltac:(discriminate)) as Hdm.
  pose proof (Z.mod_pos_bound arrays (2 ^ BPF_PROG_INFO_LAST_ARRAY) ltac:(reflexivity)) as Hmb.
  destruct (Z.eqb_spec (arrays / 2 ^ BPF_PROG_INFO_LAST_ARRAY) 0) as [Hq|Hq]; cbn [negb].
  2:{ exists (inl (- EINVAL)), k. split; [reflexivity|]. left. split; [reflexivity|]. split; [reflexivity|].
      assert (0 <= arrays / 2 ^ BPF_PROG_INFO_LAST_ARRAY) by (apply Z.div_pos; [lia | reflexivity]).
      destruct (Z.le_gt_cases (2 ^ BPF_PROG_INFO_LAST_ARRAY) arrays); [assumption|].
      rewrite Z.div_small in Hq by lia. lia. }
  destruct (sys_prog_info k fd _ _ _ _) as [[[[r info] len] b] k1] eqn:E1.
  pose proof (law_info_len _ _ _ _ _ _ _ _ _ _ _ E1) as Hl. change (zlen (replicate 208 NUL)) with sizeof_info in Hl.
  destruct r as [r0|e0]; [|exists (inl (- EFAULT)), k1; auto].
  destruct (sum_arrays_ok info len Hl bpf_prog_info_array_desc 0 arrays 0 descs_ok) as (arrays' & dl & -> & _ & Hbits & Hdl);
    [lia | vm_compute; discriminate | lia |]. rewrite bind_Ok.
  destruct (sys_alloc k1) as [ok k2]. destruct ok; cbn [negb]; [|exists (inl (- ENOMEM)), k2; auto].
  set (dl8 := u32 ((dl + 7) / 8 * 8)). pose proof (law_block_len k2 dl8 (proj1 (u32_range _))) as Hblk.
  destruct (sys_block k2 dl8) as [addr block]. cbn [snd] in Hblk.
  destruct (fill_arrays_ok info arrays' addr Hl bpf_prog_info_array_desc 0 0 (replicate 208 NUL) descs_ok eq_refl)
    as (asked & Ef & Hla & Hlay & _). rewrite Z.add_0_r in Ef. rewrite Ef, bind_Ok.
  destruct (sys_prog_info k2 fd asked len addr block) as [[[[r out] len1] data] k3] eqn:E2.
  destruct r as [r1|e1]; [|exists (inl (- EFAULT)), k3; auto].
  eexists (inr _), k3. split; [reflexivity|]. split; [lia|].
  exists r0, info, len, b, k1, k2, asked, block, r1, len1. cbn [il_info il_addr il_data il_data_len].
  do 2 (split; [reflexivity || assumption|]). split.
  { unfold dl8, u32. rewrite <- Znumtheory.Zmod_div_mod; [apply Z.mod_mul; lia | lia | lia | exists (2 ^ 29); reflexivity]. }
  split; cbn [il_arrays il_info_len il_addr il_data_len].
  - intros i d Hd. exact (Hbits i d Hd).
  - reflexivity.
  - exact Hblk.
  - exact (layout_ordered info Hl _ 0 _ 0 descs_ok).
  - exact Hlay.
  - intros d q n Hin Hsm. destruct (layout_inside info Hl _ _ _ _ _ _ _ descs_ok Hin) as (? & ? & ?).
    pose proof (needed_pos info Hl bpf_prog_info_array_desc 0 arrays' 0 descs_ok) as Hpos.
    split; [exact (layout_bytes info Hl _ _ _ _ _ _ _ descs_ok Hin)|].
    rewrite Z.add_0_l in Hdl. pose proof (roundup8 _ (conj Hpos Hsm)) as Hr. rewrite <- Hdl in Hr. fold dl8 in Hr. lia.
Qed.
End claims.

(** [bpf_program__bpil_addr_to_offs] and then, the block having moved
    from [il_addr il] to [addr], [bpf_program__bpil_offs_to_addr] both
    succeed. An array of the set that lay [o] bytes behind the old block
    begins has the offset [o] after the first, and lies [o] bytes behind the
    new beginning after the second; the other addresses are what they were.
    So without a move both together change no address. *)
Theorem bpil_offsets_roundtrip il addr : zlen (il_info il) = sizeof_info ->
  exists il1 il2, bpf_program__bpil_addr_to_offs il = Ok il1 /\
    bpf_program__bpil_offs_to_addr (mk_il (il_info_len il1) (il_data_len il1) (il_arrays il1) (il_info il1) addr (il_data il1)) = Ok il2 /\
    il_addr il2 = addr /\ il_data il2 = il_data il /\ il_arrays il2 = il_arrays il /\
    forall (i : nat) d, bpf_prog_info_array_desc !! i = Some d -> exists v,
      load64 (il_info il) (array_offset d) = Ok v /\
      if Z.testbit (il_arrays il) (Z.of_nat i)
      then let o := u64 (v - il_addr il) in
           load64 (il_info il1) (array_offset d) = Ok o /\ load64 (il_info il2) (array_offset d) = Ok (u64 (addr + o)) /\
           (addr = il_addr il -> load64 (il_info il2) (array_offset d) = Ok v)
      else load64 (il_info il1) (array_offset d) = Ok v /\ load64 (il_info il2) (array_offset d) = Ok v.
Proof.
  intros Hl. unfold bpf_program__bpil_addr_to_offs.
  destruct (shift_arrays_ok (il_arrays il) (- il_addr il) bpf_prog_info_array_desc 0 (il_info il) descs_ok Hl)
    as (i1 & -> & Hl1 & Hv1 & _). rewrite bind_Ok.
  destruct (shift_arrays_ok (il_arrays il) addr bpf_prog_info_array_desc 0 i1 descs_ok Hl1)
    as (i2 & E2 & Hl2 & Hv2 & _).
  eexists _, _. split; [reflexivity|]. cbn [set_info il_info_len il_data_len il_arrays il_info il_addr il_data]. split.
  { unfold bpf_program__bpil_offs_to_addr. cbn [il_arrays il_info il_addr]. rewrite E2. reflexivity. }
  cbn [set_info il_info_len il_data_len il_arrays il_info il_addr il_data].
  do 3 (split; [reflexivity|]). intros i d Hd.
  destruct (Hv1 i d Hd) as (v & Hr & Hv & H1'). destruct (Hv2 i d Hd) as (w & _ & Hw & H2').
  exists v. split; [exact Hv|]. rewrite Z.add_0_l in *. rewrite H1' in Hw. injection Hw as <-.
  destruct (Z.testbit _ _); [|auto]. cbv zeta. split; [exact H1'|]. rewrite H2', Z.add_opp_r. split.
  - f_equal. f_equal. lia.
  - intros ->. f_equal. rewrite <- (Z.add_opp_r v), u64_shift, Z.add_opp_diag_l, Z.add_0_r. apply u64_small. exact Hr.
Qed.

(** * A kernel that knows one program: 16 bytes of instructions, three maps *)

Definition demo_prog_info : list byte :=
  replicate 20 NUL ++ le_bytes 4 16 ++ replicate 28 NUL ++ le_bytes 4 3 ++ replicate 152 NUL.
#[export] Instance demo_prog_sys : ProgInfoSys demo := {|
  sys_prog_info d fd info len addr block :=
    if negb (zlen info =? 208) then (RErr EINVAL, info, len, block, d)
    else if zlen block =? 0 then (ROk 0, demo_prog_info, 112, block, d)
    else (ROk 0, info, len, replicate (length block) NUL, d);
  sys_block d n := (4096, replicate (Z.to_nat n) NUL)
|}.
#[export] Instance demo_prog_laws : ProgInfoLaws demo.
Proof.
  split.
  - intros k fd info len a b r info' len' b' k'. cbn. destruct (Z.eqb_spec (zlen info) 208) as [Hl|Hl]; cbn [negb].
    + destruct (zlen b =? 0); intros [= <- <- <- <- <-]; [rewrite Hl; reflexivity | reflexivity].
    + intros [= <- <- <- <- <-]. reflexivity.
  - intros k n Hn. cbn. unfold zlen. rewrite length_replicate. lia.
Qed.

(** Instructions and maps are asked for, tags too, which that kernel does not know. *)
Example demo_prog_linear :
  match bpf_program__get_prog_info_linear demo_start 5 262 with
  | Ok (inr il, _) => il_arrays il = 6 /\ il_data_len il = 32 /\
      load64 (il_info il) 32 = Ok 4096 /\ load64 (il_info il) 56 = Ok 4112
  | _ => False
  end.
Proof. vm_compute. auto. Qed.

Lemma prog_info_linear_layout_witness : exists r k',
  bpf_program__get_prog_info_linear demo_start 5 262 = Ok (r, k') /\ (exists il, r = inr il) /\
  match r with
  | inr il => exists asked, load64 asked 56 = Ok (u64 (il_addr il + 16))
  | inl _ => True
  end.
Proof.
  destruct (prog_info_linear_layout demo_start 5 262) as (r & k' & E & Hr); [lia|].
  exists r, k'. split; [exact E|]. vm_compute in E. injection E as <- <-.
  split; [eexists; reflexivity|].
  destruct Hr as (_ & r0 & info & len & b & k1 & k2 & asked & block & r1 & len1 & E1 & _ & _ & Hlo).
  exists asked. apply (lo_address _ _ _ _ _ _ Hlo (mk_desc 56 52 (-4)) 16 12).
  vm_compute in E1. injection E1 as _ <- _ _ _. vm_compute. right. left.
Defined.

Definition demo_il : info_linear := mk_il 208 32 6 (replicate 32 NUL ++ le_bytes 8 4096 ++ replicate 16 NUL ++ le_bytes 8 4112 ++ replicate 144 NUL) 4096 (replicate 32 NUL).

Lemma bpil_offsets_roundtrip_witness : exists il1 il2,
  bpf_program__bpil_addr_to_offs demo_il = Ok il1 /\
  load64 (il_info il1) 56 = Ok 16 /\ load64 (il_info il2) 56 = Ok 8208 /\ il_addr il2 = 8192.
Proof.
  destruct (bpil_offsets_roundtrip demo_il 8192) as (il1 & il2 & E1 & _ & Ha & _ & _ & Hv); [reflexivity|].
  exists il1, il2. split; [exact E1|]. destruct (Hv 2%nat (mk_desc 56 52 (-4)) eq_refl) as (v & Hv0 & Ho).
  vm_compute in Hv0. injection Hv0 as <-. cbn in Ho. destruct Ho as (Ho1 & Ho2 & _). auto.
Defined.
